(* ===== verification/_CoqProject ===== *)
-Q . S2P
Prelude.v
Aead.v
Padding.v
Frame.v
FecControl.v
FecEncoder.v
FecDecoder.v
Recovery.v
Reorder.v
RxWorker.v
Scheduler.v
TxPort.v
Tunnel.v
Conn.v
Nonce.v
Cork.v
VSwitch.v
Guards.v
Ident.v
Session.v
SesTypes.v
Client.v
Agreement.v
Brutal.v
Traffic.v
Sampler.v
Tap.v
Accept.v
Hello.v
Netifd.v
Hooks.v
Events.v
Web.v
Config.v
Startup.v
Policy.v
Listeners.v
Jwks.v
Proxy.v
Diagnostics.v
Stream.v
Control.v
Identity.v
Summary.v
Peer.v
TcpObs.v
