(* ===== verification/Prelude.v ===== *)
(** * tlsvpn: a layer-2 VPN over TLS, verified

    tlsvpn carries Ethernet frames between TAP devices over several TLS connections.
    A sender port numbers the frames of an epoch, groups them for XOR parity, spreads
    the batches over the connections, and a writer per connection frames, seals and
    pads them; the peer reads the stream back, hands batches to a receive worker, which
    drops what belongs to an old epoch, recovers lost frames from parity, puts the
    frames in order and gives them to the device, on the server through a layer-2
    switch.  A handshake opens or resumes sessions with their keys, addresses and
    resume tokens.  Around this are the configuration, the traffic accounting, the
    congestion control, the dashboard with its access control, and the integration into
    the system.

    Every definition is translated from the Go sources under src/.  Code outside them is
    a parameter: the AEAD constructors, SHA-256 and base64, the JWT library, JSON text,
    the parsers of package net, the kernel's socket and netlink operations.  What is
    assumed of a parameter is a named hypothesis or a law of a class, and there is a
    concrete instance of each in the file that declares it.

    ** Files

    - Prelude: widths (u8 to u64 and the signed ones, wrap-around written out), byte and
      big-endian lemmas, list and search lemmas, hint database [vpn].
    - Aead (crypto.go): key derivation by label and salt, nonces and additional data,
      seal and open with their errors.
    - Padding (frame.go, padding_mss.go, stream_padding.go): bucket policy, statistics
      with their epoch.
    - Frame (frame.go, stream_padding.go): frame pools, record and batch encoding, the
      scanner over a reader that delivers arbitrary chunks.
    - FecControl (fec_control.go, protocol_v3.go), FecEncoder (fec.go), FecDecoder
      (fec.go, rx_actor.go), Recovery: control codec, group arithmetic and fences;
      grouping, parity and the path-count machine; group table with eviction and
      recovery in the locked and the actor version; soundness of recovery.
    - Reorder (buffer.go, rx_actor.go): window, growth, gap timer, delivery; the locked
      and the actor copy of the entry points and that they agree.
    - RxWorker (rx_batch.go): producers, bounded queue, worker, generations.
    - Scheduler (adaptive_multipath.go, client.go): backends, rates, the pickers.
    - TxPort (client.go): input queue, the run goroutine as a program counter, numbering,
      batching, fences, parity, epoch resets, registration, connection writers.
    - Tunnel: TxPort, encoder, decoder and reorder buffer composed end to end.
    - Conn (client.go, server.go): the two loops of a connection over a byte stream.
    - Nonce: salts and numbers of a port over its connections and epochs.
    - Cork (tls_batch_cork.go): the socket cork with its timer.
    - VSwitch, Guards, Session, SesTypes (server.go), Ident (utils.go): switch and MAC
      tables, admission limits, handshakes as three interleaved steps, sessions, address
      pools, tokens, epochs, retention, bans; the types of all sessions of a history.
    - Client (client.go, client_state.go), Agreement: the client's side of the handshake
      and its identity file; both sides together, with crashes.
    - Brutal (brutal.go), Traffic (traffic.go), Sampler (server.go): rate shares and
      their negotiation against a class for the socket; the daily accounting against an
      abstract ledger; the per-client counters over sessions that begin and end.
    - Accept (server.go, utils.go), Hello (tls_info.go), Tap (tap_delivery.go), Proxy
      (proxy.go, crypto.go): the listener with its slots, decoy and tarpit; the digest of
      a client hello; the device writer; dialling and the trust in the server.
    - Netifd (netifd.go), Hooks (hooks.go), Events (events.go, main.go), Policy
      (net_linux.go, client.go): link state, hooks, event stream, policy routing.
    - Web (web_session.go, web.go, mcp_auth.go), Config (config.go, route_spec.go,
      api.go), Startup: access control; file format, defaults, validation, saving; what
      the components get from a validated configuration.
    - Listeners (web.go), Jwks (mcp_auth.go), Diagnostics (web_diagnostics.go), Stream
      (web_stream.go): the dashboard's sockets, the keys of access tokens, the history
      of rates, the live stream over the rings of Events.
    - Control (api.go: /api/control, mcp_server.go): the actions of the dashboard and the
      tools of MCP over one process, with the proof that they agree; Summary (api.go,
      mcp_auth.go): computed summaries and the refusals of the MCP endpoint.
    - Identity (client.go: applyTapMac, NewClient; client_state.go): the MAC address and
      the client id over all processes on one state file.
    - Peer (peer_info.go), TcpObs (tcp_observation.go, tcp_observation_linux.go): what the
      ends say of themselves, and what the kernel says of a socket.

    A component's state is a record with the names of the source, an operation is a
    function on it, and a history is a list of operations folded over the state; a
    section under a lock is one step, goroutines that interleave are program counters,
    and a blocked sender is part of the state.

    ** What is shown

    - The data path end to end: what the receiver hands on was given to the sender, in
      order and once (tunnel_integrity), and single losses of a group are repaired
      (tunnel_repairs); the same for one connection down to the bytes
      (connection_lossless, connection_cut).
    - Its parts: recovery is sound, the reorder buffer is ordered, complete and never
      stuck, buffers are neither lost nor freed twice in either direction, numbers have
      no holes, parity covers what it says, fences precede data, path choice and byte
      fairness, epochs do not mix, nonces do not repeat.
    - The control path: who is accepted and what a session keeps (handshake, tokens,
      retention, addresses, pinned MACs), that both ends agree on keys and parameters,
      that a client that comes back within the retention time survives any sequence of
      crashes (client_survives_crashes) and keeps its identity over restarts
      (identity_stable), that nothing is downgraded; that dashboard and MCP
      act alike (mcp_as_dashboard).
    - Bounds: memory before authentication, connections and failed logins, rates of the
      congestion control to the byte; termination of the scanner.
    - The surroundings: exact traffic history over restarts, cork release, netifd and
      hooks, kernel rules left clean, dashboard access and the listeners behind it, the
      origin of token keys, bounded histories without invented rates, saved
      configurations that restart as they run, and that a validated configuration
      satisfies what the components assume.

    Examples that end in a finding are lemmas beside the theorem they limit.

    ** Bounds, fuel, arguments

    ReadFrame has the size of its input plus two as fuel and is proved to return;
    allocation scans have the size of the net; drain and grow loops their window; the
    grouping of trend and diagnostic points and the options of a route the length of
    their list; trimming has the length of the text.  The token bucket counts in units of
    a nanosecond's share, so that it is exact.  Clocks, random draws, outcomes of file
    and system calls and the quotient of a rate sample are arguments.  Means in Traffic
    and Diagnostics are computed in the binary64 format of the Standard Library.  The
    scheduler reads its counters as one snapshot.  TLS is a byte stream between two ends;
    a deadline or a lost connection cuts it anywhere.

    ** Not modelled

    The views that copy the state for the dashboard, Prometheus and MCP (api.go,
    mcp_server.go), process statistics (sysmetrics.go), the making and loading of
    certificates (crypto.go), TAP devices and addresses (tap_*.go, net_linux.go) and the
    command line: views and system calls that no modelled state depends on.  The JWT
    library, the SOCKS library, HTTP and TLS are parameters or outcomes. *)

From stdpp Require Import base tactics list numbers list_numbers sorting gmap strings.
#[local] Open Scope Z_scope.

(** ** Machine integers *)

Declare Scope vpn_scope.
Delimit Scope vpn_scope with vpn.

Definition u8 (x : Z) : Z := x mod 2 ^ 8.
Definition u16 (x : Z) : Z := x mod 2 ^ 16.
Definition u32 (x : Z) : Z := x mod 2 ^ 32.
Definition u64 (x : Z) : Z := x mod 2 ^ 64.
Definition s32 (x : Z) : Z := (x + 2 ^ 31) mod 2 ^ 32 - 2 ^ 31.
Definition s64 (x : Z) : Z := (x + 2 ^ 63) mod 2 ^ 64 - 2 ^ 63.

Definition is_u8 (x : Z) : Prop := 0 <= x < 2 ^ 8.
Definition is_u16 (x : Z) : Prop := 0 <= x < 2 ^ 16.
Definition is_u32 (x : Z) : Prop := 0 <= x < 2 ^ 32.
Definition is_u64 (x : Z) : Prop := 0 <= x < 2 ^ 64.

(** Linear arithmetic with [/] and [mod] by constants, after unfolding the widths. *)
Ltac widths := unfold is_u8, is_u16, is_u32, is_u64, u8, u16, u32, u64, s32, s64 in *.
Ltac mlia := widths; Z.div_mod_to_equations; lia.

Lemma u32_small x : is_u32 x -> u32 x = x.
Proof. apply Z.mod_small. Qed.
Lemma u16_small x : is_u16 x -> u16 x = x.
Proof. apply Z.mod_small. Qed.
Lemma u64_small x : is_u64 x -> u64 x = x.
Proof. apply Z.mod_small. Qed.
Lemma u8_small x : is_u8 x -> u8 x = x.
Proof. apply Z.mod_small. Qed.
Lemma u32_range x : is_u32 (u32 x).
Proof. apply Z.mod_pos_bound; lia. Qed.
Lemma u16_range x : is_u16 (u16 x).
Proof. apply Z.mod_pos_bound; lia. Qed.
Lemma u64_range x : is_u64 (u64 x).
Proof. apply Z.mod_pos_bound; lia. Qed.
Lemma u8_range x : is_u8 (u8 x).
Proof. apply Z.mod_pos_bound; lia. Qed.
Lemma s32_small x : - 2 ^ 31 <= x < 2 ^ 31 -> s32 x = x.
Proof. intros H. unfold s32. rewrite Z.mod_small; lia. Qed.

Create HintDb vpn.
Create Rewrite HintDb vpn.
#[export] Hint Resolve u8_range u16_range u32_range u64_range : vpn.
#[export] Hint Rewrite u8_small u16_small u32_small u64_small using (widths; lia) : vpn.

(** ** Byte strings *)

Abbreviation bytes := (list Z).

Definition lenZ {A} (l : list A) : Z := Z.of_nat (length l).

(** [l[i:j]] of a Go slice, for [i <= j <= len(l)]. *)
Definition slice {A} (i j : nat) (l : list A) : list A := take (j - i) (drop i l).

Definition zeros (n : nat) : bytes := replicate n 0.

(** Big-endian writers and readers of encoding/binary: [be_enc n v] are the [n]
    bytes that PutUint16/32/64 stores for [v]. *)
Fixpoint be_enc (n : nat) (v : Z) : bytes :=
  match n with
  | O => []
  | S n => u8 (Z.shiftr v (8 * Z.of_nat n)) :: be_enc n v
  end.

Definition be_dec (l : bytes) : Z := fold_left (fun a b => a * 256 + b) l 0.

Lemma length_be_enc n v : length (be_enc n v) = n.
Proof. induction n; simpl; congruence. Qed.

Lemma be_dec_acc l a : fold_left (fun a b => a * 256 + b) l a = a * 256 ^ lenZ l + be_dec l.
Proof.
  unfold be_dec, lenZ. revert a. induction l as [|b l IH]; intros a; cbn [fold_left length]; [lia|].
  rewrite (IH (a * 256 + b)), (IH (0 * 256 + b)), Nat2Z.inj_succ, Z.pow_succ_r by lia. ring.
Qed.

Lemma be_dec_cons b l : be_dec (b :: l) = b * 256 ^ lenZ l + be_dec l.
Proof. unfold be_dec at 1. cbn [fold_left]. rewrite be_dec_acc. ring. Qed.

Lemma be_dec_enc n v : 0 <= v -> be_dec (be_enc n v) = v mod 256 ^ Z.of_nat n.
Proof.
  intros Hv. induction n as [|n IH]; [by rewrite Z.mod_1_r|].
  cbn [be_enc]. rewrite be_dec_cons, IH. unfold lenZ. rewrite length_be_enc.
  rewrite Nat2Z.inj_succ, Z.pow_succ_r by lia. unfold u8.
  rewrite Z.shiftr_div_pow2, Z.pow_mul_r by lia. change (2 ^ 8) with 256.
  rewrite (Z.mul_comm 256), Z.rem_mul_r by lia. ring.
Qed.

Lemma be_dec_enc2 v : is_u16 v -> be_dec (be_enc 2 v) = v.
Proof. intros H. rewrite be_dec_enc by (widths; lia). apply Z.mod_small. exact H. Qed.
Lemma be_dec_enc4 v : is_u32 v -> be_dec (be_enc 4 v) = v.
Proof. intros H. rewrite be_dec_enc by (widths; lia). apply Z.mod_small. exact H. Qed.
Lemma be_dec_enc8 v : is_u64 v -> be_dec (be_enc 8 v) = v.
Proof. intros H. rewrite be_dec_enc by (widths; lia). apply Z.mod_small. exact H. Qed.
#[export] Hint Rewrite be_dec_enc2 be_dec_enc4 be_dec_enc8 using (widths; lia) : vpn.

Lemma be_enc_byte n v : Forall is_u8 (be_enc n v).
Proof. induction n; simpl; auto using u8_range. Qed.

Lemma be_dec_range l : Forall is_u8 l -> 0 <= be_dec l < 256 ^ lenZ l.
Proof.
  induction l as [|b l IH]; intros H; [done|].
  apply Forall_cons_1 in H as [Hb Hl]. specialize (IH Hl). rewrite be_dec_cons.
  unfold lenZ in *. cbn [length]. rewrite Nat2Z.inj_succ, Z.pow_succ_r by lia. widths. nia.
Qed.

(** ** Slices *)

Lemma length_slice {A} i j (l : list A) : (i <= j <= length l)%nat -> length (slice i j l) = (j - i)%nat.
Proof. intros. unfold slice. rewrite length_take, length_drop. lia. Qed.

Lemma slice_app_mid {A} (a b c : list A) :
  slice (length a) (length a + length b) (a ++ b ++ c) = b.
Proof.
  unfold slice. rewrite drop_app_length. replace (_ - _)%nat with (length b) by lia.
  apply take_app_length.
Qed.

(** The middle of a concatenation, with the offsets as numerals. *)
Lemma slice_mid {A} i j (a b c : list A) :
  i = length a -> j = (i + length b)%nat -> slice i j (a ++ b ++ c) = b.
Proof. intros -> ->. apply slice_app_mid. Qed.

Lemma slice_front {A} j (b c : list A) : j = length b -> slice 0 j (b ++ c) = b.
Proof. intros ->. exact (slice_app_mid [] b c). Qed.

Lemma slice_drop {A} n i j (l : list A) : slice i j (drop n l) = slice (n + i) (n + j) l.
Proof. unfold slice. rewrite drop_drop. f_equal. lia. Qed.

Lemma slice_app_l {A} i j (a b : list A) : (j <= length a)%nat -> slice i j (a ++ b) = slice i j a.
Proof.
  intros H. unfold slice. destruct (decide (i <= j)%nat).
  - rewrite drop_app_le by lia. rewrite take_app_le; [done|]. rewrite length_drop. lia.
  - by replace (j - i)%nat with O by lia.
Qed.

(** ** XOR of byte strings *)

(** subtle.XORBytes writes [x[i] ^ y[i]] for [i] below the shorter length. *)
Definition xor_bytes (x y : bytes) : bytes := zip_with Z.lxor x y.

(** The byte at [i], and 0 past the end: XOR parity reads short members that way. *)
Definition byte_at (i : nat) (l : bytes) : Z := nth i l 0.

Lemma byte_at_overflow i l : (length l <= i)%nat -> byte_at i l = 0.
Proof. apply nth_overflow. Qed.

Lemma byte_at_lookup i l : byte_at i l = default 0 (l !! i).
Proof. unfold byte_at. rewrite nth_lookup. done. Qed.

Lemma byte_at_app_zeros i l n : byte_at i (l ++ zeros n) = byte_at i l.
Proof.
  rewrite !byte_at_lookup. destruct (decide (i < length l)%nat) as [H|H].
  - by rewrite lookup_app_l.
  - rewrite lookup_app_r by lia. rewrite (lookup_ge_None_2 l) by lia.
    unfold zeros. destruct (replicate n 0 !! _) eqn:E; [|done].
    by apply lookup_replicate in E as [-> _].
Qed.

Lemma byte_at_take i n l : (i < n)%nat -> byte_at i (take n l) = byte_at i l.
Proof. intros H. rewrite !byte_at_lookup. by rewrite lookup_take_lt. Qed.

Lemma byte_at_zeros i n : byte_at i (zeros n) = 0.
Proof. change (zeros n) with ([] ++ zeros n). rewrite byte_at_app_zeros. by destruct i. Qed.

Lemma length_xor_bytes x y : length (xor_bytes x y) = min (length x) (length y).
Proof. apply length_zip_with. Qed.

Lemma byte_at_xor i x y :
  (i < length x)%nat -> (i < length y)%nat ->
  byte_at i (xor_bytes x y) = Z.lxor (byte_at i x) (byte_at i y).
Proof.
  intros Hx Hy. rewrite !byte_at_lookup. unfold xor_bytes. rewrite lookup_zip_with.
  destruct (lookup_lt_is_Some_2 x i Hx) as [a ->].
  by destruct (lookup_lt_is_Some_2 y i Hy) as [b ->].
Qed.

(** Two byte strings of one length with the same bytes are equal. *)
Lemma bytes_ext x y :
  length x = length y -> (forall i, (i < length x)%nat -> byte_at i x = byte_at i y) -> x = y.
Proof. intros Hl Hb. apply nth_ext with (d := 0) (d' := 0); done. Qed.

(** In-place XOR of the prefix: [acc[:n] = acc[:n] ^ d] for [n = len(d)]. *)
Definition xor_prefix (acc d : bytes) : bytes :=
  xor_bytes (take (length d) acc) d ++ drop (length d) acc.

Lemma length_xor_prefix acc d : (length d <= length acc)%nat -> length (xor_prefix acc d) = length acc.
Proof.
  intros H. unfold xor_prefix. rewrite length_app, length_xor_bytes, length_take, length_drop. lia.
Qed.

Lemma byte_at_xor_prefix i acc d :
  (length d <= length acc)%nat ->
  byte_at i (xor_prefix acc d) = Z.lxor (byte_at i acc) (byte_at i d).
Proof.
  intros H. unfold xor_prefix. destruct (decide (i < length d)%nat) as [Hi|Hi].
  - unfold byte_at at 1. rewrite app_nth1 by (rewrite length_xor_bytes, length_take; lia).
    change (nth i ?l 0) with (byte_at i l).
    rewrite byte_at_xor by (rewrite ?length_take; lia). by rewrite byte_at_take.
  - rewrite (byte_at_overflow i d) by lia. rewrite Z.lxor_0_r. rewrite !byte_at_lookup.
    rewrite lookup_app_r by (rewrite length_xor_bytes, length_take; lia).
    rewrite lookup_drop, length_xor_bytes, length_take. repeat f_equal. lia.
Qed.

Lemma if_ltb_max (a b : nat) : (if (a <? b)%nat then b else a) = max a b.
Proof. destruct (a <? b)%nat eqn:E; rewrite ?Nat.ltb_lt, ?Nat.ltb_ge in E; lia. Qed.

(** Zero-extension to [n] bytes, the effect of both branches of the accumulator
    growth (reslice and clear, or allocate and copy). *)
Definition grow_to (n : nat) (l : bytes) : bytes := l ++ zeros (n - length l).

Lemma length_grow_to n l : length (grow_to n l) = max n (length l).
Proof. unfold grow_to, zeros. rewrite length_app, length_replicate. lia. Qed.
Lemma byte_at_grow_to i n l : byte_at i (grow_to n l) = byte_at i l.
Proof. apply byte_at_app_zeros. Qed.
Lemma grow_to_id n l : (n <= length l)%nat -> grow_to n l = l.
Proof. intros. unfold grow_to. replace (n - length l)%nat with O by lia. apply app_nil_r. Qed.

(** ** XOR parity of a list of byte strings *)

(** Byte [i] of the XOR of all members, short members read as zero-extended. *)
Definition xor_at (i : nat) (ms : list bytes) : Z := foldr (fun m a => Z.lxor (byte_at i m) a) 0 ms.

Definition max_len (ms : list bytes) : nat := foldr (fun m a => max (length m) a) 0%nat ms.

Definition xor_list (n : nat) (ms : list bytes) : bytes := (fun i => xor_at i ms) <$> seq 0 n.

Lemma xor_at_app i a b : xor_at i (a ++ b) = Z.lxor (xor_at i a) (xor_at i b).
Proof.
  induction a as [|m a IH]; simpl; [by rewrite Z.lxor_0_l|].
  fold (xor_at i). unfold xor_at in *. by rewrite IH, Z.lxor_assoc.
Qed.

Lemma xor_at_cons i m a : xor_at i (m :: a) = Z.lxor (byte_at i m) (xor_at i a).
Proof. done. Qed.

Lemma xor_at_snoc i a m : xor_at i (a ++ [m]) = Z.lxor (xor_at i a) (byte_at i m).
Proof. rewrite xor_at_app. unfold xor_at at 2. simpl. by rewrite Z.lxor_0_r. Qed.

#[export] Instance xor_at_perm i : Proper ((≡ₚ) ==> eq) (xor_at i).
Proof.
  intros a b H. unfold xor_at. induction H; simpl; [done|by f_equal| |congruence].
  rewrite <- !Z.lxor_assoc. by rewrite (Z.lxor_comm (byte_at i y)).
Qed.

Lemma max_len_elem m ms : m ∈ ms -> (length m <= max_len ms)%nat.
Proof. induction 1; simpl; lia. Qed.

Lemma max_len_app a b : max_len (a ++ b) = max (max_len a) (max_len b).
Proof. induction a as [|m a IH]; simpl; [done|]. unfold max_len in *. rewrite IH. lia. Qed.

Lemma max_len_snoc a m : max_len (a ++ [m]) = max (max_len a) (length m).
Proof. rewrite max_len_app. simpl. lia. Qed.

Lemma xor_at_overflow i ms : (max_len ms <= i)%nat -> xor_at i ms = 0.
Proof.
  induction ms as [|m ms IH]; simpl; [done|]. intros H. unfold max_len, xor_at in *.
  rewrite IH by lia. rewrite byte_at_overflow by lia. done.
Qed.

Lemma length_xor_list n ms : length (xor_list n ms) = n.
Proof. unfold xor_list. by rewrite length_fmap, length_seq. Qed.

Lemma byte_at_xor_list i n ms : (i < n)%nat -> byte_at i (xor_list n ms) = xor_at i ms.
Proof.
  intros H. rewrite byte_at_lookup. unfold xor_list. rewrite list_lookup_fmap.
  rewrite lookup_seq_lt by done. done.
Qed.

(** An accumulator whose bytes are those of the XOR, cut to [n], is [xor_list n]. *)
Lemma take_xor_list n acc ms :
  (n <= length acc)%nat -> (forall i, (i < n)%nat -> byte_at i acc = xor_at i ms) -> take n acc = xor_list n ms.
Proof.
  intros Hn H. apply bytes_ext; [by rewrite length_take, length_xor_list, Nat.min_l|].
  intros i Hi. rewrite length_take in Hi. rewrite byte_at_take, byte_at_xor_list by lia. apply H. lia.
Qed.

(** ** The first index that satisfies a predicate *)
Lemma head_filter_seq (P : nat -> Prop) `{forall x, Decision (P x)} a n k :
  P k -> (a <= k < a + n)%nat ->
  exists i, head (filter P (seq a n)) = Some i /\ P i /\ (a <= i < a + n)%nat /\ forall j, (a <= j < i)%nat -> ~ P j.
Proof.
  revert a. induction n as [|n IH]; intros a Hk Hr; [lia|]. cbn [seq]. rewrite filter_cons.
  destruct (decide (P a)) as [Ha|Ha].
  - exists a. cbn. split_and!; auto; lia.
  - destruct (IH (S a) Hk) as (i & H1 & H2 & H3 & H4).
    { assert (k <> a) by (intros ->; done). lia. }
    exists i. split_and!; auto; try lia. intros j Hj. destruct (decide (j = a)) as [->|]; [done|]. apply H4. lia.
Qed.

Lemma filter_all {A} (P : A -> Prop) `{forall x, Decision (P x)} (l : list A) : Forall P l -> filter P l = l.
Proof. induction 1 as [|x l Hx _ IH]; [done|]. rewrite filter_cons_True by done. by rewrite IH. Qed.

Lemma filter_keep {A} (f : A -> bool) l x : x ∈ List.filter f l <-> x ∈ l /\ f x = true.
Proof. rewrite !list_elem_of_In. apply filter_In. Qed.
Lemma filter_none {A} (P : A -> Prop) `{forall x, Decision (P x)} (l : list A) : Forall (fun x => ~ P x) l -> filter P l = [].
Proof. induction 1 as [|x l Hx _ IH]; [done|]. by rewrite filter_cons_False by done. Qed.

Lemma seqZ_sorted a n : StronglySorted Z.lt (seqZ a n).
Proof.
  unfold seqZ. generalize (Z.to_nat n). intros k. generalize 0%nat. induction k as [|k IH]; intros b; cbn; constructor; auto.
  apply Forall_fmap, Forall_forall. intros x Hx. apply elem_of_seq in Hx. cbn. lia.
Qed.
