(* ===== verification/Aead.v ===== *)
(** * Inner encryption (crypto.go)

    [innerCipher]: key derivation per algorithm and domain, the nonce and the
    associated data of a record, sealing and opening of a payload, and the session
    token check.  The AEAD primitives (crypto/cipher.AEAD, a Go interface) and
    SHA-256 are parameters: [AEAD] is the interface, [AEADLaws] what its
    documentation promises. *)

From stdpp Require Import base tactics list numbers strings.
From S2P Require Import Prelude.
#[local] Open Scope Z_scope.

Definition encAlgoNone : Z := 0.
Definition encAlgoGCM : Z := 2.
Definition encAlgoGCM128 : Z := 4.
Definition encAlgoChaCha20 : Z := 5.
Definition encAlgoXChaCha20 : Z := 6.

Definition aeadTagSize : nat := 16.
Definition standardNonceSize : nat := 12.
Definition xNonceSize : nat := 24.
Definition encSaltSize : nat := 8.

Definition gcmKeyLabel : string := "_enc_key".
Definition gcm128KeyLabel : string := "_enc_key128".
Definition chachaKeyLabel : string := "_enc_chacha20".
Definition xchachaKeyLabel : string := "_enc_xchacha20".
Definition xchachaNonceLabel : string := "tlsvpn-xchacha20-nonce-v1".

(** The bytes of a Go string. *)
Definition str_bytes (s : string) : bytes :=
  (fun c => Z.of_N (Ascii.N_of_ascii c)) <$> String.list_ascii_of_string s.

(** The interface crypto/cipher.AEAD. *)
Record AEAD := mkAEAD {
  Overhead : nat;
  Seal : bytes -> bytes -> bytes -> bytes;          (* nonce, plaintext, additional data *)
  Open : bytes -> bytes -> bytes -> option bytes    (* nonce, ciphertext, additional data *)
}.

(** What the documentation of crypto/cipher promises of an AEAD. *)
Class AEADLaws (a : AEAD) : Prop := {
  seal_length n p d : length (Seal a n p d) = (length p + Overhead a)%nat;
  open_seal n p d : Open a n (Seal a n p d) d = Some p
}.

Inductive domain := DomData | DomFEC | DomOther (name : string).

Record innerCipher := mkCipher {
  aead : AEAD;
  algo : Z;
  salt : bytes;
  xnoncePrefix : bytes
}.

Inductive cipherErr :=
| UnknownDomain | BadSalt (len : nat) | UnsupportedAlgo (algo : Z)
| PrimitiveErr | BadTagSize (n : nat).

(** The label and the key length of an algorithm (the first switch). *)
Definition algoLabel (al : Z) : option (string * nat) :=
  if al =? encAlgoGCM then Some (gcmKeyLabel, 32%nat)
  else if al =? encAlgoGCM128 then Some (gcm128KeyLabel, 16%nat)
  else if al =? encAlgoChaCha20 then Some (chachaKeyLabel, 32%nat)
  else if al =? encAlgoXChaCha20 then Some (xchachaKeyLabel, 32%nat)
  else None.

Definition domainLabel (dom : domain) (label : string) : string :=
  match dom with DomFEC => String.append label "_fec" | _ => label end.

Section KeyDerivation.
(** SHA-256 and the AEAD constructors of crypto/aes, crypto/cipher and
    x/crypto/chacha20poly1305; [None] is a constructor's error. *)
Variable sha256 : bytes -> bytes.
Variable newGCM newChaCha newXChaCha : bytes -> option AEAD.

Definition newPrimitive (al : Z) (key : bytes) : option AEAD :=
  if (al =? encAlgoGCM) || (al =? encAlgoGCM128) then newGCM key
  else if al =? encAlgoChaCha20 then newChaCha key
  else newXChaCha key.

Definition newInnerCipherDomainForAlgo (psk : string) (slt : bytes) (dom : domain) (al : Z)
  : innerCipher + cipherErr :=
  match dom with
  | DomOther _ => inr UnknownDomain
  | _ =>
    if negb (length slt =? encSaltSize)%nat then inr (BadSalt (length slt)) else
    match algoLabel al with
    | None => inr (UnsupportedAlgo al)
    | Some (label, keyLen) =>
      let key := take keyLen (sha256 (str_bytes (String.append psk (domainLabel dom label)))) in
      match newPrimitive al key with
      | None => inr PrimitiveErr
      | Some a =>
        if negb (Overhead a =? aeadTagSize)%nat then inr (BadTagSize (Overhead a)) else
        inl {| aead := a; algo := al; salt := slt;
               xnoncePrefix :=
                 if al =? encAlgoXChaCha20
                 then take 20 (sha256 (str_bytes xchachaNonceLabel ++ slt))
                 else zeros 20 |}
      end
    end
  end.

Definition newInnerCipherForAlgo (psk : string) (slt : bytes) (al : Z) : innerCipher + cipherErr :=
  newInnerCipherDomainForAlgo psk slt DomData al.

(** pskKey: the string that is hashed into a record key. *)
Definition keyMaterial (psk : string) (dom : domain) (al : Z) : option string :=
  match algoLabel al with
  | Some (label, _) => Some (String.append psk (domainLabel dom label))
  | None => None
  end.
End KeyDerivation.

Definition encAlgoLabel (al : Z) : string :=
  if al =? encAlgoGCM128 then "gcm128"
  else if al =? encAlgoChaCha20 then "chacha20"
  else if al =? encAlgoXChaCha20 then "xchacha20"
  else if al =? encAlgoGCM then "gcm256" else "none".

Definition isGCMAlgo (al : Z) : bool := (al =? encAlgoGCM) || (al =? encAlgoGCM128).
Definition isInnerAEADAlgo (al : Z) : bool :=
  isGCMAlgo al || (al =? encAlgoChaCha20) || (al =? encAlgoXChaCha20).

(** A nil cipher is [None]; [tagLen] of nil is 0. *)
Definition tagLen (ic : option innerCipher) : nat :=
  match ic with None => 0 | Some c => Overhead (aead c) end.

Definition nonceAAD (c : innerCipher) (seq wireLen : Z) : bytes * bytes :=
  let aad := be_enc 4 wireLen ++ be_enc 4 seq in
  if algo c =? encAlgoXChaCha20
  then (take 20 (xnoncePrefix c) ++ be_enc 4 seq, aad)
  else (be_enc 4 seq ++ take 8 (salt c), aad).

(** Seal in place: the sealed text overwrites the front of [region]; the length
    of the sealed text is returned. *)
Definition sealInPlaceWithScratch (ic : option innerCipher) (region : bytes) (ptLen : nat)
    (seq wireLen : Z) : bytes * nat :=
  match ic with
  | None => (region, ptLen)
  | Some c =>
    if (ptLen =? 0)%nat then (region, ptLen) else
    let '(nonce, aad) := nonceAAD c seq wireLen in
    let out := Seal (aead c) nonce (take ptLen region) aad in
    (out ++ drop (length out) region, length out)
  end.

Inductive openErr := TooShort (len : nat) | AuthFailed.

Definition openInPlaceWithScratch (ic : option innerCipher) (data : bytes) (seq wireLen : Z)
    : bytes + openErr :=
  match ic with
  | None => inl data
  | Some c =>
    if (length data =? 0)%nat then inl data else
    if (length data <? Overhead (aead c))%nat then inr (TooShort (length data)) else
    let '(nonce, aad) := nonceAAD c seq wireLen in
    match Open (aead c) nonce data aad with
    | Some p => inl p
    | None => inr AuthFailed
    end
  end.

(** openTo copies [src] into [dst] when there is no cipher, and appends the opened
    text to [dst[:0]] otherwise; the result is what [dst] holds afterwards, for a
    [dst] as long as the opened text. *)
Definition openToWithScratch (ic : option innerCipher) (dst src : bytes) (seq wireLen : Z)
    : bytes + openErr :=
  match ic with
  | None => inl (take (length dst) src ++ drop (length src) dst)
  | Some c =>
    if (length src <? Overhead (aead c))%nat then inr (TooShort (length src)) else
    let '(nonce, aad) := nonceAAD c seq wireLen in
    match Open (aead c) nonce src aad with
    | Some p => inl (p ++ drop (length p) dst)
    | None => inr AuthFailed
    end
  end.

Definition verifyRandomSessionToken (stored want : string) : bool :=
  (String.length stored =? 64)%nat && (String.length want =? 64)%nat && bool_decide (stored = want).

(** ** Properties *)

(** A cipher whose AEAD obeys the interface; nil obeys it. *)
Class CipherOk (ic : option innerCipher) : Prop :=
  cipher_laws : forall c, ic = Some c -> AEADLaws (aead c).

#[export] Instance CipherOk_nil : CipherOk None.
Proof. intros c [=]. Qed.

Lemma newInnerCipher_ok sha ng nc nx psk slt dom al c :
  newInnerCipherDomainForAlgo sha ng nc nx psk slt dom al = inl c ->
  Overhead (aead c) = aeadTagSize /\ algo c = al /\ salt c = slt /\ length (salt c) = encSaltSize.
Proof.
  unfold newInnerCipherDomainForAlgo. intros H.
  destruct dom; repeat case_match; simplify_eq; simpl;
    rewrite ?negb_false_iff, ?Nat.eqb_eq in *; auto.
Qed.

Lemma newInnerCipher_prefix sha ng nc nx psk slt dom al c :
  (forall b, length (sha b) = 32%nat) ->
  newInnerCipherDomainForAlgo sha ng nc nx psk slt dom al = inl c -> length (xnoncePrefix c) = 20%nat.
Proof.
  unfold newInnerCipherDomainForAlgo. intros Hs H.
  destruct dom; repeat case_match; simplify_eq; cbn; rewrite ?length_take, ?Hs; reflexivity.
Qed.

Lemma app_string_inj (p a b : string) : String.append p a = String.append p b -> a = b.
Proof. induction p as [|c p IH]; simpl; [done|]. intros [= H]. auto. Qed.

Lemma algoLabel_inv al l n :
  algoLabel al = Some (l, n) ->
  (al = encAlgoGCM /\ l = gcmKeyLabel) \/ (al = encAlgoGCM128 /\ l = gcm128KeyLabel) \/
  (al = encAlgoChaCha20 /\ l = chachaKeyLabel) \/ (al = encAlgoXChaCha20 /\ l = xchachaKeyLabel).
Proof.
  unfold algoLabel. intros H. repeat case_match; simplify_eq; rewrite ?Z.eqb_eq in *; tauto.
Qed.

Lemma length_nonce c seq w : length (salt c) = encSaltSize -> algo c <> encAlgoXChaCha20 ->
  length (nonceAAD c seq w).1 = standardNonceSize.
Proof.
  intros Hs Ha. unfold nonceAAD. case_match; rewrite ?Z.eqb_eq in *; [done|]. cbn [fst].
  rewrite length_app, length_be_enc, length_take, Hs. done.
Qed.

Lemma be_enc4_inj a b : is_u32 a -> is_u32 b -> be_enc 4 a = be_enc 4 b -> a = b.
Proof. intros Ha Hb H. apply (f_equal be_dec) in H. by rewrite !be_dec_enc4 in H. Qed.

(** The whole seal/open round trip through the two in-place entry points. *)
Lemma open_seal_region ic pt rest seq w :
  CipherOk ic -> pt <> [] -> length rest = tagLen ic ->
  openInPlaceWithScratch ic (sealInPlaceWithScratch ic (pt ++ rest) (length pt) seq w).1 seq w = inl pt.
Proof.
  intros Hok Hne Hrest. destruct ic as [c|]; cbn [tagLen sealInPlaceWithScratch openInPlaceWithScratch] in *.
  2:{ destruct rest; [|done]. by rewrite app_nil_r. }
  pose proof (Hok c eq_refl) as L.
  destruct (length pt =? 0)%nat eqn:E0.
  { apply Nat.eqb_eq, length_zero_iff_nil in E0. done. }
  destruct (nonceAAD c seq w) as [nonce aad]. cbn [fst].
  rewrite take_app_length, drop_ge, app_nil_r.
  2:{ rewrite seal_length, length_app. lia. }
  rewrite seal_length, open_seal.
  destruct (length pt + _ =? 0)%nat eqn:E1.
  { apply Nat.eqb_eq in E1. apply Nat.eqb_neq in E0. lia. }
  destruct (_ <? _)%nat eqn:E2; [|done]. apply Nat.ltb_lt in E2. lia.
Qed.

Lemma be_enc4_app_inj a b x y : is_u32 a -> is_u32 b -> be_enc 4 a ++ x = be_enc 4 b ++ y -> a = b /\ x = y.
Proof.
  intros Ha Hb H. apply app_inj_1 in H as [H ->]; [|by rewrite !length_be_enc]. split; [|done]. by apply be_enc4_inj.
Qed.

(** Key separation.  One PSK serves the data and the FEC records of four
    algorithms; the strings hashed into the eight keys are pairwise different, so no
    two of them share a key by construction. *)
Theorem key_material_separated (psk m : string) (dom1 dom2 : domain) (al1 al2 : Z) :
  (dom1 = DomData \/ dom1 = DomFEC) -> (dom2 = DomData \/ dom2 = DomFEC) ->
  keyMaterial psk dom1 al1 = Some m -> keyMaterial psk dom2 al2 = Some m -> dom1 = dom2 /\ al1 = al2.
Proof.
  intros Hd1 Hd2 H1 H2. unfold keyMaterial in *.
  destruct (algoLabel al1) as [[l1 n1]|] eqn:E1; [|done]. destruct (algoLabel al2) as [[l2 n2]|] eqn:E2; [|done].
  injection H1 as <-. injection H2 as H2. apply app_string_inj in H2.
  apply algoLabel_inv in E1, E2.
  destruct E1 as [[-> ->]|[[-> ->]|[[-> ->]|[-> ->]]]], E2 as [[-> ->]|[[-> ->]|[[-> ->]|[-> ->]]]],
    Hd1 as [-> | ->], Hd2 as [-> | ->];
    first [split; reflexivity | vm_compute in H2; discriminate].
Qed.

(** Nonce discipline.  For every cipher that newInnerCipherDomainForAlgo builds
    (SHA-256 digests are 32 bytes long) the nonce has the length its algorithm needs
    and two records use the same nonce only if they carry the same sequence number;
    the additional data determine both the wire length and the sequence number. *)
Theorem nonce_injective (sha : bytes -> bytes) (ng nc nx : bytes -> option AEAD) (psk : string) (slt : bytes)
    (dom : domain) (al : Z) (c : innerCipher) (s1 s2 w1 w2 : Z) :
  (forall b, length (sha b) = 32%nat) ->
  newInnerCipherDomainForAlgo sha ng nc nx psk slt dom al = inl c ->
  is_u32 s1 -> is_u32 s2 -> is_u32 w1 -> is_u32 w2 ->
  length (nonceAAD c s1 w1).1 = (if al =? encAlgoXChaCha20 then xNonceSize else standardNonceSize) /\
  ((nonceAAD c s1 w1).1 = (nonceAAD c s2 w2).1 -> s1 = s2) /\
  ((nonceAAD c s1 w1).2 = (nonceAAD c s2 w2).2 -> w1 = w2 /\ s1 = s2).
Proof.
  intros Hsha Hc Hs1 Hs2 Hw1 Hw2. pose proof (newInnerCipher_ok _ _ _ _ _ _ _ _ _ Hc) as (_ & Hal & _ & Hsalt).
  unfold nonceAAD. rewrite Hal. destruct (al =? encAlgoXChaCha20) eqn:E; cbn [fst snd]; split_and!.
  - rewrite length_app, length_take, length_be_enc. rewrite (newInnerCipher_prefix _ _ _ _ _ _ _ _ _ Hsha Hc). reflexivity.
  - intros H. apply app_inv_head in H. by apply be_enc4_inj.
  - intros H. apply be_enc4_app_inj in H as [-> H]; [|done..]. split; [done|]. by apply be_enc4_inj.
  - rewrite length_app, length_take, length_be_enc, Hsalt. reflexivity.
  - intros H. by apply be_enc4_app_inj in H as [? _].
  - intros H. apply be_enc4_app_inj in H as [-> H]; [|done..]. split; [done|]. by apply be_enc4_inj.
Qed.

(** ** A concrete AEAD for the witnesses: a checksum as its tag *)

Definition demoTag (n p d : bytes) : bytes := replicate 16 (u8 (fold_left (fun a b => 31 * a + b + 1) (n ++ d ++ p) 7)).

Definition demoAEAD : AEAD := {|
  Overhead := 16;
  Seal := fun n p d => p ++ demoTag n p d;
  Open := fun n c d =>
    let p := take (length c - 16) c in
    if bool_decide (drop (length c - 16) c = demoTag n p d) then Some p else None |}.

#[export] Instance demoAEAD_laws : AEADLaws demoAEAD.
Proof.
  split; intros n p d; cbn [Seal Open Overhead demoAEAD].
  - unfold demoTag. by rewrite length_app, length_replicate.
  - rewrite length_app. replace (length (demoTag n p d)) with 16%nat by (unfold demoTag; by rewrite length_replicate).
    rewrite Nat.add_sub, take_app_length, drop_app_length. by rewrite bool_decide_true.
Qed.

Definition demoCipher : innerCipher := mkCipher demoAEAD encAlgoGCM [1; 2; 3; 4; 5; 6; 7; 8] (zeros 20).

#[export] Instance demoCipher_ok : CipherOk (Some demoCipher).
Proof. intros c [= <-]. apply _. Qed.

Lemma key_material_separated_witness : DomFEC = DomFEC /\ encAlgoGCM = encAlgoGCM.
Proof. apply (key_material_separated "psk" "psk_enc_key_fec" DomFEC DomFEC encAlgoGCM encAlgoGCM); auto. Defined.

Definition demoHash (b : bytes) : bytes := take 32 (b ++ zeros 32).

Lemma nonce_injective_witness :
  match newInnerCipherDomainForAlgo demoHash (fun _ => Some demoAEAD) (fun _ => None) (fun _ => Some demoAEAD)
          "psk" [1; 2; 3; 4; 5; 6; 7; 8] DomFEC encAlgoXChaCha20 with
  | inl c => (nonceAAD c 3 100).1 <> (nonceAAD c 4 100).1
  | inr _ => False
  end.
Proof.
  destruct (newInnerCipherDomainForAlgo _ _ _ _ _ _ _ _) as [c|e] eqn:E; [|by vm_compute in E].
  intros H. cut (3 = 4); [done|]. revert H.
  apply (nonce_injective demoHash (fun _ => Some demoAEAD) (fun _ => None) (fun _ => Some demoAEAD) "psk"
           [1; 2; 3; 4; 5; 6; 7; 8] DomFEC encAlgoXChaCha20 c 3 4 100 100); [|exact E|done..].
  intros b. unfold demoHash, zeros. rewrite length_take, length_app, length_replicate. lia.
Defined.
