(* ===== verification/Padding.v ===== *)
(** * Cover padding (frame.go, padding_mss.go, stream_padding.go)

    The bucket policy of a single record, its MSS-aware ceiling, the shaping target
    of an aggregated TLS write, and the process-wide padding statistics with their
    epoch guard.  Draws of math/rand are arguments. *)

From stdpp Require Import base tactics list numbers strings.
From S2P Require Import Prelude.
#[local] Open Scope Z_scope.

Inductive padMode := PadOff | PadBucket.
#[export] Instance padMode_eq_dec : EqDecision padMode.
Proof. solve_decision. Defined.

(** padBuckets: target lengths of a whole record (header, payload and padding). *)
Definition padBuckets : list Z := [128; 256; 384; 512; 768; 1024; 1280; 1600; 2048; 4096].

Fixpoint padBucketLoop (recordLen limit : Z) (bs : list Z) : option Z :=
  match bs with
  | [] => None
  | b :: bs =>
    let target := if (0 <? limit) && (limit <? b) then limit else b in
    if recordLen <? target then Some (target - recordLen)
    else if (0 <? limit) && (limit <=? b) then Some 0
    else padBucketLoop recordLen limit bs
  end.

(** padBucket: [r] is the draw of rand.IntN(100); [limit] is 0 when absent. *)
Definition padBucket (wireLen limit r : Z) : Z :=
  let recordLen := 10 + wireLen in
  if (0 <? limit) && (limit <=? recordLen) then 0 else
  match padBucketLoop recordLen limit padBuckets with
  | Some p => p
  | None => if 0 <? limit then 0 else 1 + r
  end.

Definition currentPadLength (mode : padMode) (wireLen limit r : Z) : Z :=
  match mode with PadOff => 0 | PadBucket => padBucket wireLen limit r end.

(** ** Padding statistics *)

Record padStats := mkPadStats {
  padModeCode : padMode;
  padWireC : Z;
  padPadC : Z;
  padStatsEpoch : Z
}.

(** setPadMode: every string but "off" falls back to bucket. *)
Definition setPadMode (mode : string) (s : padStats) : padStats * padMode :=
  let actual := if bool_decide (mode = "off"%string) then PadOff else PadBucket in
  if decide (actual = padModeCode s) then (s, actual) else
  ({| padModeCode := actual; padWireC := 0; padPadC := 0;
      padStatsEpoch := u64 (padStatsEpoch s + 1) |}, actual).

Definition recordPadBytesAt (wire pad epoch : Z) (s : padStats) : padStats :=
  if negb (epoch =? padStatsEpoch s) then s else
  {| padModeCode := padModeCode s; padWireC := u64 (padWireC s + wire);
     padPadC := u64 (padPadC s + pad); padStatsEpoch := padStatsEpoch s |}.

(** ** MSS-aware ceiling *)

Definition fallbackTCPMSS : Z := 1440.
Definition tlsRecordOverheadReserve : Z := 32.

Definition paddingRecordLimitForMSS (mss : Z) : Z :=
  let mss := if mss <? 256 then fallbackTCPMSS else mss in
  let limit := mss - tlsRecordOverheadReserve in
  if limit <? 128 then 128 else limit.

(** [mss] is [None] when the socket option cannot be read. *)
Definition paddingRecordLimit (mss : option Z) : Z :=
  paddingRecordLimitForMSS
    (match mss with Some m => if m <=? 0 then fallbackTCPMSS else m | None => fallbackTCPMSS end).

(** ** Shaping of an aggregated TLS write *)

Definition streamTLSBatchSoftLimit : Z := 12 * 1024.
Definition maxTLSPlaintextRecord : Z := 16 * 1024.
Definition streamPadRatioPercent : Z := 10.
Definition streamPadAbsoluteLimit : Z := 512.

Definition streamAlignedTLSPlaintextTarget (n mss : Z) : Z :=
  if n <=? 0 then n else
  let mss := if mss <? 256 then fallbackTCPMSS else mss in
  let segs := (n + tlsRecordOverheadReserve + mss - 1) / mss in
  let target := segs * mss - tlsRecordOverheadReserve in
  if (target <? n) || (maxTLSPlaintextRecord <? target) then n else target.

Definition streamPaddingBudget (batchLen : Z) : Z :=
  if batchLen <=? 0 then 0 else
  let relative := batchLen * streamPadRatioPercent / 100 in
  if streamPadAbsoluteLimit <? relative then streamPadAbsoluteLimit else relative.

(** ** Properties *)

Lemma padBucketLoop_nolimit len bs p :
  padBucketLoop len 0 bs = Some p -> 0 < p /\ len + p ∈ bs.
Proof.
  induction bs as [|b bs IH]; simpl; [done|]. case_match; intros H'; simplify_eq.
  - apply Z.ltb_lt in H. split; [lia|]. replace (len + _) with b by lia. left.
  - destruct (IH H'). split; [done|]. by right.
Qed.

(** The first bucket above a length. *)
Definition bucketAbove (len : Z) (bs : list Z) : option Z := head (filter (fun b => len < b) bs).

Lemma padBucketLoop_above len limit bs :
  0 <= limit -> (0 < limit -> len < limit) ->
  padBucketLoop len limit bs =
  (fun b => (if limit =? 0 then b else Z.min limit b) - len) <$> bucketAbove len bs.
Proof.
  intros H0 Hl. unfold bucketAbove. induction bs as [|b bs IH]; [done|]. cbn [padBucketLoop].
  rewrite filter_cons. destruct (limit =? 0) eqn:E0.
  - apply Z.eqb_eq in E0 as ->. cbn [Z.ltb Z.compare andb]. destruct (len <? b) eqn:E; case_decide; try lia; done.
  - replace (0 <? limit) with true by lia. cbn [andb]. destruct (limit <? b) eqn:E1.
    + destruct (len <? limit) eqn:E; case_decide; try lia. cbn. f_equal. lia.
    + destruct (len <? b) eqn:E; case_decide; try lia; cbn; [f_equal; lia|]. destruct (limit <=? b) eqn:E2; [lia|done].
Qed.

Lemma padBucket_limit_bound wireLen limit r :
  0 < limit -> 10 + wireLen < limit ->
  0 <= padBucket wireLen limit r /\ 10 + wireLen + padBucket wireLen limit r <= limit.
Proof.
  intros Hl Hw. unfold padBucket.
  destruct (0 <? limit) eqn:E; [|lia]. destruct (limit <=? 10 + wireLen) eqn:E1; [lia|]. cbn [andb].
  rewrite padBucketLoop_above by lia. destruct (bucketAbove _ _) as [b|] eqn:Eb; cbn; [|lia].
  unfold bucketAbove in Eb. apply head_Some_elem_of, list_elem_of_filter in Eb as [Eb _].
  destruct (limit =? 0) eqn:E2; lia.
Qed.

(** TCP segments of [mss] bytes that carry [n] plaintext bytes and the TLS reserve. *)
Definition tcpSegments (n mss : Z) : Z := (n + tlsRecordOverheadReserve + mss - 1) / mss.

(** What bucket padding makes of a record of length R (10-byte header included):
    the first bucket above R, cut at the record limit; R itself at or above the limit
    or above the last bucket; without a limit, above the last bucket, 1 to 100 bytes. *)
Theorem padBucket_target (wireLen limit r : Z) :
  0 <= limit ->
  let R := 10 + wireLen in
  R + currentPadLength PadBucket wireLen limit r =
  match bucketAbove R padBuckets with
  | Some b => if limit =? 0 then b else if R <? limit then Z.min limit b else R
  | None => if limit =? 0 then R + 1 + r else R
  end.
Proof.
  intros Hl R. unfold currentPadLength, padBucket. fold R. destruct (limit =? 0) eqn:E0.
  - apply Z.eqb_eq in E0 as ->. cbn [Z.ltb Z.compare andb]. rewrite padBucketLoop_above by lia.
    destruct (bucketAbove R padBuckets); cbn; lia.
  - replace (0 <? limit) with true by lia. cbn [andb]. destruct (limit <=? R) eqn:E1.
    + destruct (R <? limit) eqn:E2; [lia|]. destruct (bucketAbove R padBuckets); lia.
    + rewrite padBucketLoop_above by lia. destruct (R <? limit) eqn:E2; [|lia].
      destruct (bucketAbove R padBuckets); cbn; rewrite ?E0; lia.
Qed.

(** Cover padding costs no TCP segment: with the limit derived from the
    connection's MSS, the padded record and the TLS overhead fit the same number of
    segments as the record without padding. *)
Theorem padBucket_no_extra_segment (wireLen mss r : Z) :
  0 <= wireLen -> 256 <= mss ->
  let pad := currentPadLength PadBucket wireLen (paddingRecordLimit (Some mss)) r in
  0 <= pad /\ tcpSegments (10 + wireLen + pad) mss = tcpSegments (10 + wireLen) mss.
Proof.
  intros Hw Hm. unfold paddingRecordLimit, paddingRecordLimitForMSS, currentPadLength, tlsRecordOverheadReserve.
  destruct (mss <=? 0) eqn:E1; [lia|]. destruct (mss <? 256) eqn:E2; [lia|]. destruct (mss - 32 <? 128) eqn:E3; [lia|].
  destruct (decide (10 + wireLen < mss - 32)) as [Hlt|Hge].
  - destruct (padBucket_limit_bound wireLen (mss - 32) r ltac:(lia) Hlt) as [P0 P1]. split; [done|].
    unfold tcpSegments, tlsRecordOverheadReserve.
    set (pad := padBucket _ _ _) in *. clearbody pad.
    transitivity 1; [symmetry; apply (Z.div_unique _ mss 1 (10 + wireLen + pad + 31)); lia|].
    apply (Z.div_unique _ mss 1 (10 + wireLen + 31)); lia.
  - unfold padBucket. destruct (0 <? mss - 32) eqn:E4; [|lia]. destruct (mss - 32 <=? 10 + wireLen) eqn:E5; [|lia].
    cbn [andb]. split; [lia|]. by rewrite Z.add_0_r.
Qed.

(** The aligned length of a TLS write: it is the smallest length from n on whose
    ciphertext budget fills whole segments, or n itself when that exceeds one TLS
    record; it never takes more segments than n does. *)
Theorem streamAlignedTLSPlaintextTarget_least (n mss : Z) :
  0 < n -> 256 <= mss ->
  let t := streamAlignedTLSPlaintextTarget n mss in
  n <= t /\ tcpSegments t mss = tcpSegments n mss /\
  (t = n \/ t <= maxTLSPlaintextRecord /\ (t + tlsRecordOverheadReserve) mod mss = 0) /\
  (forall t', n <= t' -> (t' + tlsRecordOverheadReserve) mod mss = 0 -> t <= t').
Proof.
  intros Hn Hm. unfold streamAlignedTLSPlaintextTarget, tcpSegments. set (q := (n + _ + mss - 1) / mss).
  unfold tlsRecordOverheadReserve in *. destruct (n <=? 0) eqn:E0; [lia|]. destruct (mss <? 256) eqn:E1; [lia|].
  fold q. assert (q * mss <= n + 32 + mss - 1 < q * mss + mss) as Hq.
  { unfold q. pose proof (Z.div_mod (n + 32 + mss - 1) mss ltac:(lia)).
    pose proof (Z.mod_pos_bound (n + 32 + mss - 1) mss ltac:(lia)). nia. }
  destruct ((_ <? n) || _) eqn:E2; cbn [orb].
  { split_and!; [lia|done|by left|lia]. }
  apply orb_false_iff in E2 as [E2 E3]. apply Z.ltb_ge in E2, E3. split_and!.
  - lia.
  - symmetry. apply (Z.div_unique _ mss q (mss - 1)); lia.
  - right. split; [done|]. replace (_ + 32) with (q * mss) by lia. apply Z.mod_mul. lia.
  - intros t' Ht Hz. apply Z.mod_divide in Hz as [z Hz]; [|lia].
    assert (q <= z); [|nia]. destruct (decide (z < q)); [|lia]. nia.
Qed.

(** ** The accounting epoch *)

(** A write carries the epoch that was current when it was assembled. *)
Inductive padEvent := PSetMode (mode : string) | PRecord (wire pad epoch : Z).

Definition padStep (s : padStats) (ev : padEvent) : padStats :=
  match ev with
  | PSetMode mode => (setPadMode mode s).1
  | PRecord w p e => recordPadBytesAt w p e s
  end.
Definition padInit : padStats := mkPadStats PadBucket 0 0 0.
Definition padExec (evs : list padEvent) : padStats := fold_left padStep evs padInit.

(** Epochs are read before they are used: none lies in the future. *)
Fixpoint epochsRead (s : padStats) (evs : list padEvent) : Prop :=
  match evs with
  | [] => True
  | ev :: evs => match ev with PRecord _ _ e => 0 <= e <= padStatsEpoch s | _ => True end /\ epochsRead (padStep s ev) evs
  end.

(** Wire bytes and padding bytes of the writes assembled in epoch [e]. *)
Definition wireOf (e : Z) (ev : padEvent) : Z := match ev with PRecord w _ e' => if e' =? e then w else 0 | _ => 0 end.
Definition padOf (e : Z) (ev : padEvent) : Z := match ev with PRecord _ p e' => if e' =? e then p else 0 | _ => 0 end.
Definition total (f : padEvent -> Z) (evs : list padEvent) : Z := foldr (fun ev a => f ev + a) 0 evs.

Lemma total_snoc f evs ev : total f (evs ++ [ev]) = total f evs + f ev.
Proof. unfold total. induction evs as [|x l IH]; cbn in *; lia. Qed.

Record pad_inv (past : list padEvent) (s : padStats) : Prop := {
  p_epoch : 0 <= padStatsEpoch s <= lenZ past;
  p_past : Forall (fun ev => match ev with PRecord _ _ e => e <= padStatsEpoch s | _ => True end) past;
  p_wire : padWireC s = u64 (total (wireOf (padStatsEpoch s)) past);
  p_pad : padPadC s = u64 (total (padOf (padStatsEpoch s)) past)
}.

Lemma total_future e past (f : Z -> padEvent -> Z) :
  (forall w p e', e' < e -> f e (PRecord w p e') = 0) -> (forall m, f e (PSetMode m) = 0) ->
  Forall (fun ev => match ev with PRecord _ _ e' => e' < e | _ => True end) past -> total (f e) past = 0.
Proof. intros H1 H2. induction 1 as [|[m|w p e'] l Hx _ IH]; cbn; [done|rewrite H2|rewrite H1 by done]; exact IH. Qed.

Lemma pad_inv_step past s ev :
  pad_inv past s -> lenZ past < 2 ^ 64 - 1 ->
  match ev with PRecord _ _ e => 0 <= e <= padStatsEpoch s | _ => True end -> pad_inv (past ++ [ev]) (padStep s ev).
Proof.
  intros [I1 I2 I3 I4] Hlen Hev.
  assert (lenZ (past ++ [ev]) = lenZ past + 1) as HL by (unfold lenZ; rewrite length_app; cbn; lia).
  destruct ev as [m|w p e]; cbn [padStep].
  - unfold setPadMode. case_decide; cbn [fst].
    { split; rewrite ?total_snoc; cbn [wireOf padOf]; rewrite ?Z.add_0_r; auto; [lia|]. apply Forall_app. auto. }
    assert (u64 (padStatsEpoch s + 1) = padStatsEpoch s + 1) as HE by (apply u64_small; widths; lia).
    split; cbn [padStatsEpoch padWireC padPadC]; rewrite ?HE, ?total_snoc; cbn [wireOf padOf]; rewrite ?Z.add_0_r.
    + lia.
    + apply Forall_app. split; [|auto]. eapply Forall_impl; [exact I2|]. intros [|]; [done|]. lia.
    + rewrite total_future; [done| |done|].
      * intros w p e' He'. cbn. destruct (e' =? _) eqn:E; [lia|done].
      * eapply Forall_impl; [exact I2|]. intros [|]; [done|]. lia.
    + rewrite total_future; [done| |done|].
      * intros w p e' He'. cbn. destruct (e' =? _) eqn:E; [lia|done].
      * eapply Forall_impl; [exact I2|]. intros [|]; [done|]. lia.
  - unfold recordPadBytesAt. destruct (e =? padStatsEpoch s) eqn:E; cbn [negb];
      split; cbn [padStatsEpoch padWireC padPadC]; rewrite ?total_snoc; cbn [wireOf padOf]; rewrite ?E, ?Z.add_0_r; auto; try lia.
    + apply Forall_app. split; [done|]. constructor; [lia|done].
    + rewrite I3. unfold u64. by rewrite Zplus_mod_idemp_l.
    + rewrite I4. unfold u64. by rewrite Zplus_mod_idemp_l.
    + apply Forall_app. split; [done|]. constructor; [lia|done].
Qed.

Lemma pad_inv_exec evs : forall past s, pad_inv past s -> epochsRead s evs -> lenZ past + lenZ evs < 2 ^ 64 ->
  pad_inv (past ++ evs) (fold_left padStep evs s).
Proof.
  induction evs as [|ev evs IH]; intros past s HI HR HL; [by rewrite app_nil_r|]. destruct HR as [H1 H2].
  unfold lenZ in HL. cbn [length] in HL. rewrite Nat2Z.inj_succ in HL.
  replace (past ++ ev :: evs) with ((past ++ [ev]) ++ evs) by by rewrite <- app_assoc.
  cbn [fold_left]. apply IH; [apply pad_inv_step; auto|done|]; unfold lenZ; [lia|]. rewrite length_app. cbn. lia.
Qed.

(** The padding statistics describe the current policy only: after any series of
    policy changes and completed writes, the two counters are the sums over exactly
    the writes that were assembled under the policy period now in force, those that
    finished after a change they started before excluded. *)
Theorem padStats_of_current_policy (evs : list padEvent) :
  epochsRead padInit evs -> lenZ evs < 2 ^ 64 ->
  let s := padExec evs in
  padWireC s = u64 (total (wireOf (padStatsEpoch s)) evs) /\ padPadC s = u64 (total (padOf (padStatsEpoch s)) evs).
Proof.
  intros HR HL s. assert (pad_inv evs s) as [_ _ H1 H2]; [|done].
  apply (pad_inv_exec evs [] padInit); [|done|done]. by split.
Qed.

(** ** Witnesses *)

Lemma padBucket_target_witness : 10 + 100 + currentPadLength PadBucket 100 1408 0 = 128.
Proof. apply (padBucket_target 100 1408 0). lia. Defined.

Lemma padBucket_no_extra_segment_witness :
  let pad := currentPadLength PadBucket 1300 (paddingRecordLimit (Some 1440)) 0 in
  0 <= pad /\ tcpSegments (10 + 1300 + pad) 1440 = tcpSegments (10 + 1300) 1440.
Proof. apply (padBucket_no_extra_segment 1300 1440 0); lia. Defined.

Lemma streamAlignedTLSPlaintextTarget_least_witness :
  streamAlignedTLSPlaintextTarget 2000 1440 = 2848 /\ tcpSegments 2848 1440 = tcpSegments 2000 1440.
Proof. split; [reflexivity|]. apply (streamAlignedTLSPlaintextTarget_least 2000 1440); lia. Defined.

Lemma padStats_of_current_policy_witness :
  let s := padExec [PRecord 100 20 0; PSetMode "off"; PRecord 50 10 0; PRecord 30 0 1] in padWireC s = 30 /\ padPadC s = 0.
Proof.
  apply (padStats_of_current_policy [PRecord 100 20 0; PSetMode "off"; PRecord 50 10 0; PRecord 30 0 1]).
  - vm_compute. repeat split; discriminate.
  - vm_compute. reflexivity.
Defined.

