(* ===== verification/Frame.v ===== *)
(** * Framing (frame.go, stream_padding.go, stats_accounting.go)

    The 10-byte record header, the padded and the unpadded writer, the padding of
    the tail of an aggregated write, the stream scanner with its growing buffer, and
    the size classes of the buffer pool. *)

From stdpp Require Import base tactics list numbers.
From S2P Require Import Prelude Aead Padding.
#[local] Open Scope Z_scope.

Record VPNFrame := mkFrame { Seq : Z; Data : bytes }.

(** ** Buffer pool size classes *)

Definition framePoolSizes : list Z := [512; 1024; 2048; 4096; 8192; 16384; 32768; 143360].
Definition defaultFrameSize : Z := 2048.

Fixpoint classAtLeast (n : Z) (cs : list Z) : option Z :=
  match cs with
  | [] => None
  | c :: cs => if n <=? c then Some c else classAtLeast n cs
  end.

(** getFrameAtLeast: the capacity of the buffer handed out (the pool's class, or an
    exact allocation above the largest class). *)
Definition getFrameAtLeast (n : Z) : Z :=
  match classAtLeast n framePoolSizes with Some c => c | None => n end.

(** putFrame: the pool that takes the buffer back, by its capacity; [None] leaves
    it to the garbage collector. *)
Definition putFrame (capacity : Z) : option Z :=
  if decide (capacity ∈ framePoolSizes) then Some capacity else None.

(** cloneFrame: content and capacity of the copy. *)
Definition cloneFrame (data : bytes) : bytes * Z :=
  let c := getFrameAtLeast defaultFrameSize in
  if c <? lenZ data then (data, lenZ data) else (data, c).

(** ** Writers *)

(** The wire payload: data, sealed with the tag appended when there is a cipher and
    the frame is a data frame ([Seq <> 0]). *)
Definition encTagLen (ic : option innerCipher) (vf : VPNFrame) : nat :=
  if negb (Seq vf =? 0) && negb (length (Data vf) =? 0)%nat then tagLen ic else 0%nat.

Definition wirePayload (ic : option innerCipher) (vf : VPNFrame) : bytes :=
  let tag := encTagLen ic vf in
  let wireLen := (length (Data vf) + tag)%nat in
  if negb (Seq vf =? 0) && negb (length (Data vf) =? 0)%nat
  then (sealInPlaceWithScratch ic (Data vf ++ zeros tag) (length (Data vf)) (Seq vf) (u32 (Z.of_nat wireLen))).1
  else Data vf.

(** The bytes of one record: header [dataLen u32 | padLen u16 | seq u32], payload,
    padding. *)
Definition recordBytes (wireLen : Z) (seq : Z) (payload padding : bytes) : bytes :=
  be_enc 4 (u32 wireLen) ++ be_enc 2 (u16 (lenZ padding)) ++ be_enc 4 seq ++ payload ++ padding.

(** [randomPool[offset:offset+padLen]]. *)
Definition poolPadding (pool : bytes) (offset padLen : nat) : bytes := slice offset (offset + padLen) pool.

Definition appendPaddedFrame (mode : padMode) (limit r : Z) (pool : bytes) (offset : nat)
    (buf : bytes) (vf : VPNFrame) (ic : option innerCipher) : bytes * Z :=
  let wireLen := Z.of_nat (length (Data vf) + encTagLen ic vf) in
  let padLen := currentPadLength mode wireLen limit r in
  (buf ++ recordBytes wireLen (Seq vf) (wirePayload ic vf) (poolPadding pool offset (Z.to_nat padLen)), padLen).

Definition appendUnpaddedFrameWithScratch (buf : bytes) (vf : VPNFrame) (ic : option innerCipher) : bytes * nat :=
  let wireLen := Z.of_nat (length (Data vf) + encTagLen ic vf) in
  (buf ++ recordBytes wireLen (Seq vf) (wirePayload ic vf) [], length buf).

(** appendOwnedFrameBatch: every frame padded on its own (draws as a list). *)
Fixpoint appendOwnedFrameBatch (mode : padMode) (limit : Z) (pool : bytes) (draws : list (Z * nat))
    (buf : bytes) (frames : list VPNFrame) (ic : option innerCipher) : bytes * Z :=
  match frames, draws with
  | vf :: frames, (r, off) :: draws =>
    let '(buf, p) := appendPaddedFrame mode limit r pool off buf vf ic in
    let '(buf, pad) := appendOwnedFrameBatch mode limit pool draws buf frames ic in
    (buf, u64 (p + pad))
  | _, _ => (buf, 0)
  end.

(** ** Transmit accounting (txFrameTotals) *)

Record txFrameTotals := mkTotals {
  DataFrames : Z; ParityFrames : Z; ControlFrames : Z; DataWireBytes : Z; ParityWireBytes : Z
}.
Definition totals_zero : txFrameTotals := mkTotals 0 0 0 0 0.
Definition controlKindFECParity : Z := 1.
Definition controlKindFECMode : Z := 2.

Definition totals_add (v : VPNFrame) (wire : Z) (s : txFrameTotals) : txFrameTotals :=
  if negb (Seq v =? 0) then
    {| DataFrames := u64 (DataFrames s + 1); ParityFrames := ParityFrames s; ControlFrames := ControlFrames s;
       DataWireBytes := u64 (DataWireBytes s + wire); ParityWireBytes := ParityWireBytes s |}
  else if match Data v with b :: _ => b =? controlKindFECParity | [] => false end then
    {| DataFrames := DataFrames s; ParityFrames := u64 (ParityFrames s + 1); ControlFrames := ControlFrames s;
       DataWireBytes := DataWireBytes s; ParityWireBytes := u64 (ParityWireBytes s + wire) |}
  else
    {| DataFrames := DataFrames s; ParityFrames := ParityFrames s; ControlFrames := u64 (ControlFrames s + 1);
       DataWireBytes := DataWireBytes s; ParityWireBytes := ParityWireBytes s |}.

(** appendOwnedVPNFrameBatchStreamWithScratch: the batch appended unpadded, the
    number of frames, the start of the last record (-1 when there is none) and the
    totals. *)
Fixpoint appendStreamLoop (buf : bytes) (frames : list VPNFrame) (ic : option innerCipher)
    (last : Z) (tot : txFrameTotals) : bytes * Z * txFrameTotals :=
  match frames with
  | [] => (buf, last, tot)
  | vf :: frames =>
    let '(buf', start) := appendUnpaddedFrameWithScratch buf vf ic in
    appendStreamLoop buf' frames ic (Z.of_nat start)
      (totals_add vf (Z.of_nat (length buf' - start)) tot)
  end.

Definition appendOwnedVPNFrameBatchStreamWithScratch (buf : bytes) (frames : list VPNFrame)
    (ic : option innerCipher) (tot : txFrameTotals) : bytes * nat * Z * txFrameTotals :=
  let '(buf', last, tot') := appendStreamLoop buf frames ic (-1) tot in
  (buf', length frames, last, tot').

(** padStreamBatchTail: pads the last record of the write up to an MSS boundary
    within the budget, rewriting its padLen field. *)
Definition padStreamBatchTail (mode : padMode) (pool : bytes) (offset : nat)
    (buf : bytes) (lastFrameStart recordLimit : Z) : bytes * Z :=
  if decide (mode = PadOff) then (buf, 0) else
  if (lenZ buf =? 0) || (lastFrameStart <? 0) then (buf, 0) else
  let mss := recordLimit + tlsRecordOverheadReserve in
  let target := streamAlignedTLSPlaintextTarget (lenZ buf) mss in
  let padLen := target - lenZ buf in
  if (padLen <=? 0) || (lenZ buf <? lastFrameStart + 10) || (65535 <? padLen) then (buf, 0) else
  if streamPaddingBudget (lenZ buf) <? padLen then (buf, 0) else
  let st := Z.to_nat lastFrameStart in
  let oldPad := be_dec (slice (st + 4) (st + 6) buf) in
  if 65535 <? oldPad + padLen then (buf, 0) else
  (take (st + 4) buf ++ be_enc 2 (u16 (oldPad + padLen)) ++ drop (st + 6) buf
     ++ poolPadding pool offset (Z.to_nat padLen), padLen).

(** ** The stream scanner *)

Definition maxWireDataLen : Z := 65535 * 2.
Definition maxHandshakeDataLen : Z := 16 * 1024.
Definition HeaderSize : nat := 10.

Inductive readErr := EOF | ClosedConn | OtherReadErr.
#[export] Instance readErr_eq_dec : EqDecision readErr.
Proof. solve_decision. Defined.

(** The io.Reader below the scanner: the chunks that successive reads find, the
    last bytes of a chunk arriving with its error.  A read takes at most the space
    it is given and leaves the rest of the chunk for the next one. *)
Abbreviation reader := (list (bytes * option readErr)).

Definition read (space : Z) (r : reader) : bytes * option readErr * reader :=
  match r with
  | [] => ([], Some EOF, [])
  | (c, e) :: r =>
    if lenZ c <=? space then (c, e, r)
    else (take (Z.to_nat space) c, None, (drop (Z.to_nat space) c, e) :: r)
  end.

Record FrameScanner := mkScanner {
  rd : reader;
  sbuf : bytes;
  scap : Z;
  offset : nat;
  maxDataLen : Z;
  lastWireSize : Z
}.

Definition NewFrameScanner (r : reader) : FrameScanner :=
  {| rd := r; sbuf := []; scap := maxHandshakeDataLen; offset := 0;
     maxDataLen := maxWireDataLen; lastWireSize := 0 |}.

Definition SetMaxDataLen (n : Z) (s : FrameScanner) : FrameScanner :=
  {| rd := rd s; sbuf := sbuf s; scap := scap s; offset := offset s;
     maxDataLen := n; lastWireSize := lastWireSize s |}.

Inductive scanResult :=
| Got (frame : option bytes) (seq : Z)       (* frame = nil for an empty payload *)
| BadLength (n : Z)
| ReadFailed (e : readErr).

(** Header fields at the scanner's position. *)
Definition hdrDataLen (s : FrameScanner) : Z := be_dec (slice (offset s) (offset s + 4) (sbuf s)).
Definition hdrPadLen (s : FrameScanner) : Z := be_dec (slice (offset s + 4) (offset s + 6) (sbuf s)).
Definition hdrSeq (s : FrameScanner) : Z := be_dec (slice (offset s + 6) (offset s + 10) (sbuf s)).
Definition available (s : FrameScanner) : nat := (length (sbuf s) - offset s)%nat.

Definition BufferedFrameReady (s : FrameScanner) : bool :=
  if (available s <? HeaderSize)%nat then false
  else if maxDataLen s <? hdrDataLen s then false
  else Z.of_nat HeaderSize + hdrDataLen s + hdrPadLen s <=? Z.of_nat (available s).

Definition scanReset (s : FrameScanner) : FrameScanner :=
  {| rd := rd s; sbuf := []; scap := scap s; offset := 0;
     maxDataLen := maxDataLen s; lastWireSize := lastWireSize s |}.

(** One attempt to take a record out of the buffer (the top of the loop body). *)
Definition tryParse (s : FrameScanner) : option (scanResult * FrameScanner) :=
  if (available s <? HeaderSize)%nat then None else
  if maxDataLen s <? hdrDataLen s then Some (BadLength (hdrDataLen s), scanReset s) else
  let dataLen := Z.to_nat (hdrDataLen s) in
  let totalLen := hdrDataLen s + hdrPadLen s in
  if Z.of_nat (available s) <? Z.of_nat HeaderSize + totalLen then None else
  let s' := {| rd := rd s; sbuf := sbuf s; scap := scap s;
               offset := (offset s + HeaderSize + Z.to_nat totalLen)%nat;
               maxDataLen := maxDataLen s; lastWireSize := Z.of_nat HeaderSize + totalLen |} in
  Some (Got (if (dataLen =? 0)%nat then None
             else Some (slice (offset s + HeaderSize) (offset s + HeaderSize + dataLen) (sbuf s)))
            (hdrSeq s), s').

(** Compaction, growth and one read (the rest of the loop body). *)
Definition compact (s : FrameScanner) : FrameScanner :=
  if (0 <? offset s)%nat && ((offset s =? length (sbuf s))%nat || (16384 <? Z.of_nat (offset s))) then
    {| rd := rd s; sbuf := drop (offset s) (sbuf s); scap := scap s; offset := 0;
       maxDataLen := maxDataLen s; lastWireSize := lastWireSize s |}
  else s.

Definition requiredCap (s : FrameScanner) : Z :=
  let base := lenZ (sbuf s) + 2048 in
  if (available s <? HeaderSize)%nat then base else
  Z.max base (Z.of_nat (offset s) + Z.of_nat HeaderSize + hdrDataLen s + hdrPadLen s).

Definition grow (s : FrameScanner) : FrameScanner :=
  if scap s <? requiredCap s then
    {| rd := rd s; sbuf := sbuf s; scap := Z.max (scap s * 2) (requiredCap s); offset := offset s;
       maxDataLen := maxDataLen s; lastWireSize := lastWireSize s |}
  else s.

Definition fill (s : FrameScanner) : FrameScanner * nat * option readErr :=
  let '(c, e, r) := read (scap s - lenZ (sbuf s)) (rd s) in
  ({| rd := r; sbuf := sbuf s ++ c; scap := scap s; offset := offset s;
      maxDataLen := maxDataLen s; lastWireSize := lastWireSize s |}, length c, e).

Definition readStops (n : nat) (e : readErr) : bool :=
  (n =? 0)%nat || (negb (bool_decide (e = EOF)) && negb (bool_decide (e = ClosedConn))).

Fixpoint readLoop (fuel : nat) (s : FrameScanner) : option (scanResult * FrameScanner) :=
  match fuel with
  | O => None
  | S fuel =>
    match tryParse s with
    | Some res => Some res
    | None =>
      let s1 := compact s in
      if (HeaderSize <=? available s1)%nat && (maxDataLen s1 <? hdrDataLen s1)
      then Some (BadLength (hdrDataLen s1), scanReset s1) else
      let '(s2, n, e) := fill (grow s1) in
      match e with
      | Some err => if readStops n err then Some (ReadFailed err, s2) else readLoop fuel s2
      | None => readLoop fuel s2
      end
    end
  end.

(** The bytes and the chunks the reader still holds: every turn of the loop that
    does not return uses up at least one of them. *)
Definition readerSize (r : reader) : nat := length r + length (concat (fst <$> r)).

Definition ReadFrame (s : FrameScanner) : option (scanResult * FrameScanner) :=
  readLoop (S (S (readerSize (rd s))))
    {| rd := rd s; sbuf := sbuf s; scap := scap s; offset := offset s;
       maxDataLen := maxDataLen s; lastWireSize := 0 |}.

(** ** Lemmas on records and on the scanner *)

Lemma length_wirePayload ic vf :
  CipherOk ic -> length (wirePayload ic vf) = (length (Data vf) + encTagLen ic vf)%nat.
Proof.
  intros Hok. unfold wirePayload, encTagLen.
  destruct (negb _ && negb _) eqn:E; [|lia]. apply andb_prop in E as [_ E].
  destruct ic as [c|]; cbn [sealInPlaceWithScratch tagLen fst].
  2:{ rewrite length_app; simpl; lia. }
  destruct (length (Data vf) =? 0)%nat; [done|]. destruct (nonceAAD _ _ _) as [n a].
  pose proof (Hok c eq_refl). cbn [fst].
  rewrite length_app, length_drop, length_app, seal_length, take_app_length.
  unfold zeros. rewrite length_replicate. lia.
Qed.

Lemma readerSize_cons c e r : readerSize ((c, e) :: r) = S (length c + readerSize r).
Proof. unfold readerSize. rewrite fmap_cons. cbn [concat fst length]. rewrite length_app. lia. Qed.

(** What the scanner still has to parse: the unread part of its buffer, then what
    the reader will deliver. *)
Definition pendingStream (s : FrameScanner) : bytes :=
  drop (offset s) (sbuf s) ++ concat (fst <$> rd s).

Definition scan_wf (s : FrameScanner) : Prop := (offset s <= length (sbuf s))%nat.

(** A reader that delivers its bytes without an error, whatever the chunks. *)
Definition clean (r : reader) : Prop := Forall (fun c => snd c = None) r.

Lemma available_drop s : available s = length (drop (offset s) (sbuf s)).
Proof. unfold available. by rewrite length_drop. Qed.

(** The header of the record at the front of the pending stream. *)
Lemma hdr_of_record s wl seq pl pad rest :
  pendingStream s = recordBytes wl seq pl pad ++ rest ->
  is_u32 wl -> is_u32 seq -> is_u16 (lenZ pad) -> (HeaderSize <= available s)%nat ->
  hdrDataLen s = wl /\ hdrPadLen s = lenZ pad /\ hdrSeq s = seq.
Proof.
  intros HP Hwl Hseq Hpad Hav. rewrite available_drop in Hav. unfold HeaderSize in Hav.
  assert (forall i j, (j <= 10)%nat ->
            slice (offset s + i) (offset s + j) (sbuf s) = slice i j (recordBytes wl seq pl pad)) as Hs.
  { intros i j Hj. rewrite <- slice_drop.
    rewrite <- (slice_app_l i j _ (concat (fst <$> rd s))) by lia.
    unfold pendingStream in HP. rewrite HP. apply slice_app_l.
    unfold recordBytes. rewrite !length_app, !length_be_enc. lia. }
  unfold hdrDataLen, hdrPadLen, hdrSeq.
  rewrite <- (Nat.add_0_r (offset s)) at 1. rewrite !Hs by lia. unfold recordBytes.
  rewrite u32_small, u16_small by done.
  rewrite (slice_front 4) by (rewrite length_be_enc; lia).
  rewrite (slice_mid 4 6 (be_enc 4 wl)) by (rewrite ?length_be_enc; lia).
  rewrite app_assoc.
  rewrite (slice_mid 6 10 (be_enc 4 wl ++ _)) by (rewrite ?length_app, ?length_be_enc; lia).
  by rewrite be_dec_enc4, be_dec_enc2, be_dec_enc4.
Qed.

Lemma length_recordBytes wl seq pl pad : length (recordBytes wl seq pl pad) = (10 + length pl + length pad)%nat.
Proof. unfold recordBytes. rewrite !length_app, !length_be_enc. lia. Qed.

(** What a scanner returns for a record. *)
Definition frameOf (pl : bytes) : option bytes := match pl with [] => None | _ => Some pl end.

Lemma frameOf_eq pl : frameOf pl = if (length pl =? 0)%nat then None else Some pl.
Proof. by destruct pl. Qed.

(** The scanner after it took a record of [n] bytes that was wholly buffered. *)
Definition advance (n : nat) (s : FrameScanner) : FrameScanner :=
  {| rd := rd s; sbuf := sbuf s; scap := scap s; offset := (offset s + n)%nat;
     maxDataLen := maxDataLen s; lastWireSize := Z.of_nat n |}.

Lemma compact_pending s : pendingStream (compact s) = pendingStream s /\ available (compact s) = available s
  /\ rd (compact s) = rd s /\ maxDataLen (compact s) = maxDataLen s /\ (scan_wf s -> scan_wf (compact s)).
Proof.
  unfold compact. case_match; [|tauto]. unfold pendingStream, available, scan_wf. simpl.
  rewrite drop_0, length_drop. repeat split; lia.
Qed.

Lemma grow_pending s : pendingStream (grow s) = pendingStream s /\ sbuf (grow s) = sbuf s
  /\ rd (grow s) = rd s /\ maxDataLen (grow s) = maxDataLen s /\ offset (grow s) = offset s
  /\ lenZ (sbuf (grow s)) < scap (grow s).
Proof.
  unfold grow. assert (lenZ (sbuf s) + 2048 <= requiredCap s) as H.
  { unfold requiredCap. case_match; lia. }
  case_match eqn:E; repeat split; simpl; [lia|]. apply Z.ltb_ge in E. lia.
Qed.

Lemma fill_pending s s' n e :
  scan_wf s -> clean (rd s) -> rd s <> [] -> lenZ (sbuf s) < scap s -> fill s = (s', n, e) ->
  pendingStream s' = pendingStream s /\ e = None /\ scan_wf s' /\ clean (rd s')
  /\ maxDataLen s' = maxDataLen s /\ (readerSize (rd s') < readerSize (rd s))%nat.
Proof.
  intros Hwf Hc Hne Hcap. unfold fill, read, scan_wf in *.
  destruct (rd s) as [|[c e0] r] eqn:Er; [done|]. apply Forall_cons_1 in Hc as [He Hc]. simpl in He. subst e0.
  destruct (lenZ c <=? _) eqn:E; intros [= <- <- <-]; unfold pendingStream; simpl.
  - rewrite drop_app_le by lia. rewrite Er. simpl. rewrite !app_assoc. repeat split; auto.
    + rewrite length_app. lia.
    + rewrite readerSize_cons. lia.
  - apply Z.leb_gt in E. unfold lenZ in *.
    rewrite drop_app_le by lia. rewrite Er. simpl.
    rewrite <- (take_drop (Z.to_nat (scap s - Z.of_nat (length (sbuf s)))) c) at 3.
    rewrite !app_assoc. repeat split; auto.
    + rewrite length_app. lia.
    + by constructor.
    + rewrite !readerSize_cons, length_drop. lia.
Qed.

Section Record.
Variables (wl seq : Z) (pl pad rest : bytes).
Hypothesis Hwl : wl = lenZ pl.
Hypothesis Hwl32 : is_u32 wl.
Hypothesis Hseq : is_u32 seq.
Hypothesis Hpad : is_u16 (lenZ pad).
Let rec := recordBytes wl seq pl pad.

Lemma tryParse_record s :
  scan_wf s -> pendingStream s = rec ++ rest -> lenZ pl <= maxDataLen s ->
  tryParse s = if (length rec <=? available s)%nat
               then Some (Got (frameOf pl) seq, advance (length rec) s) else None.
Proof using All.
  intros Hwf HP Hmax. pose proof (length_recordBytes wl seq pl pad) as HL. fold rec in HL.
  unfold tryParse. destruct (available s <? HeaderSize)%nat eqn:Eav.
  { apply Nat.ltb_lt in Eav. unfold HeaderSize in Eav. case_match eqn:El; [|done].
    apply Nat.leb_le in El. lia. }
  apply Nat.ltb_ge in Eav.
  destruct (hdr_of_record s _ _ _ _ _ HP Hwl32 Hseq Hpad Eav) as (-> & -> & ->).
  destruct (maxDataLen s <? wl) eqn:Em; [apply Z.ltb_lt in Em; lia|]. clear Em.
  unfold HeaderSize in *. unfold lenZ in *.
  destruct (_ <? _) eqn:E2; [apply Z.ltb_lt in E2|apply Z.ltb_ge in E2];
    (destruct (length rec <=? available s)%nat eqn:E3;
     [apply Nat.leb_le in E3|apply Nat.leb_gt in E3]); try lia; [done|].
  do 2 f_equal.
  2:{ unfold advance. f_equal; lia. }
  f_equal. rewrite Hwl, Nat2Z.id, frameOf_eq. destruct (length pl =? 0)%nat; [done|]. f_equal.
  rewrite <- Nat.add_assoc, <- slice_drop.
  rewrite available_drop in E3. rewrite <- (slice_app_l _ _ _ (concat (fst <$> rd s))) by lia.
  unfold pendingStream in HP. rewrite HP. unfold rec, recordBytes.
  rewrite !app_assoc. rewrite <- (app_assoc _ pad rest), <- (app_assoc _ pl).
  apply slice_mid; rewrite ?length_app, ?length_be_enc; lia.
Qed.

Lemma readLoop_record fuel s :
  scan_wf s -> clean (rd s) -> pendingStream s = rec ++ rest -> lenZ pl <= maxDataLen s ->
  (readerSize (rd s) < fuel)%nat ->
  exists s', readLoop fuel s = Some (Got (frameOf pl) seq, s')
    /\ scan_wf s' /\ clean (rd s') /\ pendingStream s' = rest
    /\ maxDataLen s' = maxDataLen s /\ lastWireSize s' = lenZ rec.
Proof using All.
  revert s. induction fuel as [|fuel IH]; intros s Hwf Hc HP Hmax Hf; [lia|].
  cbn [readLoop]. rewrite (tryParse_record s Hwf HP Hmax).
  destruct (length rec <=? available s)%nat eqn:E.
  - apply Nat.leb_le in E. eexists. split; [done|]. rewrite available_drop in E.
    unfold scan_wf, advance, lenZ, pendingStream in *. cbn [rd sbuf scap offset maxDataLen lastWireSize]. rewrite length_drop in E.
    repeat split; auto; [lia|].  rewrite <- drop_drop.
    apply (f_equal (drop (length rec))) in HP.
    rewrite drop_app_length, drop_app_le in HP; [done|rewrite length_drop; lia].
  - apply Nat.leb_gt in E. destruct (compact_pending s) as (C1 & C2 & C3 & C4 & C5).
    specialize (C5 Hwf). destruct (grow_pending (compact s)) as (G1 & G2 & G3 & G4 & G5 & G6).
    destruct (_ && _) eqn:EB.
    { apply andb_prop in EB as [EB1 EB2]. apply Nat.leb_le in EB1. apply Z.ltb_lt in EB2.
      destruct (hdr_of_record (compact s) wl seq pl pad rest) as (H1 & _ & _); [by rewrite C1|done..|].
      rewrite H1, C4 in EB2. lia. }
    destruct (fill (grow (compact s))) as [[s2 n] e] eqn:EF.
    apply fill_pending in EF as (F1 & -> & F3 & F4 & F5 & F6).
    + apply IH in F3 as (s' & HR); [|done|by rewrite F1, G1, C1|by rewrite F5, G4, C4|rewrite G3, C3 in F6; lia].
      exists s'. rewrite F5, G4, C4 in HR. exact HR.
    + unfold scan_wf in *. by rewrite G2, G5.
    + by rewrite G3, C3.
    + rewrite G3, C3. intros Hnil. unfold pendingStream in HP. rewrite Hnil in HP. rewrite fmap_nil in HP. cbn [concat] in HP.
      rewrite app_nil_r in HP. rewrite available_drop, HP, length_app in E. lia.
    + done.
Qed.
End Record.

(** A record that never completes. *)
Lemma readLoop_cut wl seq pl pad missing fuel : wl = lenZ pl -> is_u32 wl -> is_u32 seq -> is_u16 (lenZ pad) -> missing <> [] ->
  forall s, scan_wf s -> clean (rd s) -> pendingStream s ++ missing = recordBytes wl seq pl pad -> lenZ pl <= maxDataLen s -> (S (readerSize (rd s)) < fuel)%nat ->
  exists s', readLoop fuel s = Some (ReadFailed EOF, s').
Proof.
  intros Hwl Hu Hs Hp Hm. set (ext := fun s : FrameScanner => {| rd := rd s ++ [(missing, None)]; sbuf := sbuf s; scap := scap s; offset := offset s; maxDataLen := maxDataLen s; lastWireSize := lastWireSize s |}).
  assert (forall s, pendingStream (ext s) = pendingStream s ++ missing) as HE.
  { intros s. unfold pendingStream, ext. cbn [rd sbuf offset]. rewrite fmap_app, concat_app. cbn. by rewrite app_nil_r, app_assoc. }
  assert (forall s, (available s <= length (pendingStream s))%nat) as Hav.
  { intros s. rewrite available_drop. unfold pendingStream. rewrite length_app. lia. }
  assert (0 < length missing)%nat as Hml by (destruct missing; [done|cbn; lia]).
  induction fuel as [|fuel IH]; intros s Hwf Hc HP Hmax Hf; [lia|]. cbn [readLoop].
  assert (tryParse s = None) as ->.
  { pose proof (tryParse_record wl seq pl pad [] Hwl Hu Hs Hp (ext s) Hwf) as HT. rewrite HE, app_nil_r in HT. specialize (HT HP Hmax).
    change (available (ext s)) with (available s) in HT. assert ((length (recordBytes wl seq pl pad) <=? available s)%nat = false) as E.
    { apply Nat.leb_gt. rewrite <- HP, length_app. specialize (Hav s). lia. }
    rewrite E in HT. unfold tryParse in *. change (available (ext s)) with (available s) in HT. change (hdrDataLen (ext s)) with (hdrDataLen s) in HT.
    change (hdrPadLen (ext s)) with (hdrPadLen s) in HT. change (maxDataLen (ext s)) with (maxDataLen s) in HT. by repeat case_match. }
  destruct (compact_pending s) as (C1 & C2 & C3 & C4 & C5). specialize (C5 Hwf). destruct (grow_pending (compact s)) as (G1 & G2 & G3 & G4 & G5 & G6).
  destruct (_ && _) eqn:EB.
  { exfalso. apply andb_prop in EB as [EB1 EB2]. apply Nat.leb_le in EB1. apply Z.ltb_lt in EB2.
    destruct (hdr_of_record (ext (compact s)) wl seq pl pad []) as (H1 & _ & _); auto; [by rewrite HE, C1, HP, app_nil_r|].
    change (hdrDataLen (ext (compact s))) with (hdrDataLen (compact s)) in H1. rewrite H1, C4 in EB2. lia. }
  destruct (rd s) as [|ch chs] eqn:Er.
  - unfold fill, read. rewrite G3, C3. cbn. by eexists.
  - destruct (fill (grow (compact s))) as [[s2 n] e] eqn:EF. apply fill_pending in EF as (F1 & -> & F3 & F4 & F5 & F6).
    + apply IH; auto; [by rewrite F1, G1, C1|by rewrite F5, G4, C4|rewrite G3, C3 in F6; lia].
    + unfold scan_wf in *. by rewrite G2, G5.
    + by rewrite G3, C3.
    + by rewrite G3, C3.
    + done.
Qed.

(** ** The receive loop over a scanner *)

(** The payload of a scanned record after the cipher of the direction
    (the head of the receive loops in client.go and server.go): data frames are
    opened, control frames are passed on. *)
Definition openScanned (ic : option innerCipher) (frame : option bytes) (seq : Z) : bytes + openErr :=
  match frame with
  | None => inl []
  | Some f => if negb (seq =? 0) then openInPlaceWithScratch ic f seq (u32 (lenZ f)) else inl f
  end.

(** [n] turns of the receive loop, all successful. *)
Fixpoint receiveFrames (n : nat) (ic : option innerCipher) (s : FrameScanner)
    : option (list VPNFrame * FrameScanner) :=
  match n with
  | O => Some ([], s)
  | S n =>
    match ReadFrame s with
    | Some (Got f seq, s1) =>
      match openScanned ic f seq with
      | inl d =>
        match receiveFrames n ic s1 with
        | Some (vfs, s2) => Some (mkFrame seq d :: vfs, s2)
        | None => None
        end
      | inr _ => None
      end
    | _ => None
    end
  end.

(** A frame the wire can carry: a 32-bit sequence number and a payload that leaves
    room for the tag below the scanner's limit. *)
Definition sendable (ic : option innerCipher) (limit : Z) (vf : VPNFrame) : Prop :=
  is_u32 (Seq vf) /\ Z.of_nat (length (Data vf) + tagLen ic) <= limit.

Definition frameRecord (ic : option innerCipher) (vf : VPNFrame) (pad : bytes) : bytes :=
  recordBytes (Z.of_nat (length (Data vf) + encTagLen ic vf)) (Seq vf) (wirePayload ic vf) pad.

Lemma encTagLen_le ic vf : (encTagLen ic vf <= tagLen ic)%nat.
Proof. unfold encTagLen. case_match; lia. Qed.

Lemma openScanned_wire ic vf :
  CipherOk ic -> Z.of_nat (length (Data vf) + tagLen ic) < 2 ^ 32 ->
  openScanned ic (frameOf (wirePayload ic vf)) (Seq vf) = inl (Data vf).
Proof.
  intros Hok Hlen. pose proof (length_wirePayload ic vf Hok) as HL.
  pose proof (encTagLen_le ic vf) as Ht. rewrite frameOf_eq.
  destruct (length (wirePayload ic vf) =? 0)%nat eqn:E0.
  { apply Nat.eqb_eq in E0. destruct (Data vf); [done|simpl in *; lia]. }
  apply Nat.eqb_neq in E0. unfold openScanned, lenZ. rewrite HL.
  destruct (Seq vf =? 0) eqn:Es; cbn [negb].
  { unfold wirePayload. by rewrite Es. }
  unfold wirePayload, encTagLen in *. rewrite Es in *. cbn [negb andb] in *.
  destruct (length (Data vf) =? 0)%nat eqn:Ed; cbn [negb] in *; [apply Nat.eqb_eq in Ed; lia|].
  apply open_seal_region; [done| |unfold zeros; by rewrite length_replicate].
  intros Hnil. by rewrite Hnil in Ed.
Qed.

Lemma read_record ic limit vf pad rest s :
  CipherOk ic -> sendable ic limit vf -> limit < 2 ^ 32 -> is_u16 (lenZ pad) ->
  scan_wf s -> clean (rd s) -> maxDataLen s = limit ->
  pendingStream s = frameRecord ic vf pad ++ rest ->
  exists s', ReadFrame s = Some (Got (frameOf (wirePayload ic vf)) (Seq vf), s')
    /\ scan_wf s' /\ clean (rd s') /\ pendingStream s' = rest /\ maxDataLen s' = limit
    /\ lastWireSize s' = lenZ (frameRecord ic vf pad).
Proof.
  intros Hok [Hseq Hlen] Hlim Hpad Hwf Hc Hmax HP. pose proof (length_wirePayload ic vf Hok) as HL.
  pose proof (encTagLen_le ic vf). unfold ReadFrame, frameRecord in *.
  set (s0 := {| rd := rd s; sbuf := sbuf s; scap := scap s; offset := offset s;
                maxDataLen := maxDataLen s; lastWireSize := 0 |}).
  set (wl := Z.of_nat (length (Data vf) + encTagLen ic vf)) in *.
  destruct (readLoop_record wl (Seq vf) (wirePayload ic vf) pad rest
              ltac:(unfold wl, lenZ; lia) ltac:(unfold wl; widths; lia) Hseq Hpad
              (S (S (readerSize (rd s)))) s0 Hwf Hc HP ltac:(unfold lenZ; simpl; lia) ltac:(simpl; lia))
    as (s' & HR & R1 & R2 & R3 & R4 & R5).
  exists s'. rewrite R4. simpl. repeat split; auto.
Qed.

(** Reading back a sequence of records, each with its own padding. *)
Lemma receive_records ic limit rs rest s :
  CipherOk ic -> limit < 2 ^ 32 ->
  Forall (fun vp => sendable ic limit (fst vp) /\ is_u16 (lenZ (snd vp))) rs ->
  scan_wf s -> clean (rd s) -> maxDataLen s = limit ->
  pendingStream s = concat ((fun vp => frameRecord ic (fst vp) (snd vp)) <$> rs) ++ rest ->
  exists s', receiveFrames (length rs) ic s = Some (fst <$> rs, s') /\ pendingStream s' = rest.
Proof.
  intros Hok Hlim. revert s. induction rs as [|[vf pad] rs IH]; intros s HF Hwf Hc Hmax HP.
  { by exists s. }
  apply Forall_cons_1 in HF as [[Hs Hp] HF]. rewrite fmap_cons in HP. cbn [concat fst snd] in *.
  rewrite <- app_assoc in HP.
  destruct (read_record _ _ _ _ _ _ Hok Hs Hlim Hp Hwf Hc Hmax HP) as (s1 & HR & W1 & C1 & P1 & M1 & _).
  cbn [length receiveFrames]. rewrite HR.
  rewrite openScanned_wire; [|done|destruct Hs; lia].
  destruct (IH s1 HF W1 C1 M1 P1) as (s2 & HR2 & P2). rewrite HR2. exists s2.
  split; [|done]. rewrite fmap_cons. by destruct vf.
Qed.

(** ** What the writers produce *)

Lemma appendStreamLoop_spec frames : forall buf ic last tot,
  let '(out, last', _) := appendStreamLoop buf frames ic last tot in
  out = buf ++ concat ((fun vf => frameRecord ic vf []) <$> frames) /\
  match frames with
  | [] => last' = last
  | _ => exists init vf, frames = init ++ [vf] /\
         last' = Z.of_nat (length (buf ++ concat ((fun vf => frameRecord ic vf []) <$> init)))
  end.
Proof.
  induction frames as [|vf frames IH]; intros buf ic last tot; cbn [appendStreamLoop].
  { by rewrite fmap_nil, app_nil_r. }
  unfold appendUnpaddedFrameWithScratch. fold (frameRecord ic vf []).
  specialize (IH (buf ++ frameRecord ic vf []) ic (Z.of_nat (length buf))
    (totals_add vf (Z.of_nat (length (buf ++ frameRecord ic vf []) - length buf)) tot)).
  destruct (appendStreamLoop _ _ _ _ _) as [[out last'] t']. destruct IH as [-> IH].
  rewrite fmap_cons. cbn [concat]. rewrite app_assoc. split; [done|].
  destruct frames as [|vf2 frames].
  { subst. exists [], vf. by rewrite fmap_nil, app_nil_r. }
  destruct IH as (init & v & -> & ->). exists (vf :: init), v. split; [done|].
  rewrite fmap_cons. cbn [concat]. by rewrite app_assoc.
Qed.

Lemma streamPaddingBudget_le n : streamPaddingBudget n <= 512.
Proof. unfold streamPaddingBudget, streamPadAbsoluteLimit. repeat case_match; lia. Qed.

(** Padding the tail turns the last unpadded record into the same record with the
    padding, and changes nothing else. *)
Lemma padStreamBatchTail_spec mode pool off buf init wl seq pl limit :
  buf = init ++ recordBytes wl seq pl [] -> Z.of_nat off + 512 <= lenZ pool ->
  exists pad, padStreamBatchTail mode pool off buf (lenZ init) limit = (init ++ recordBytes wl seq pl pad, lenZ pad)
    /\ lenZ pad <= 512.
Proof.
  intros -> Hpool. unfold padStreamBatchTail.
  assert (forall b : bytes, b = init ++ recordBytes wl seq pl [] ->
    exists pad, (b, 0) = (init ++ recordBytes wl seq pl pad, lenZ pad) /\ lenZ pad <= 512) as Hnone.
  { intros b ->. by exists []. }
  set (buf := init ++ _) in *. do 2 (case_match; [by apply Hnone|]).
  set (padLen := _ - lenZ buf). destruct (_ || _ || _) eqn:E1; [by apply Hnone|].
  destruct (streamPaddingBudget _ <? padLen) eqn:E2; [by apply Hnone|]. apply Z.ltb_ge in E2.
  apply orb_false_elim in E1 as [E1 _]. apply orb_false_elim in E1 as [E1 _]. apply Z.leb_gt in E1.
  pose proof (streamPaddingBudget_le (lenZ buf)).
  clearbody padLen. replace (Z.to_nat (lenZ init)) with (length init) by (unfold lenZ; lia).
  assert (be_dec (slice (length init + 4) (length init + 6) buf) = 0) as ->.
  { unfold buf, recordBytes. rewrite <- slice_drop, drop_app_length.
    by rewrite (slice_mid 4 6 (be_enc 4 _) (be_enc 2 _)) by (rewrite ?length_be_enc; lia). }
  rewrite Z.add_0_l. destruct (65535 <? padLen) eqn:E4; [by apply Hnone|]. unfold buf, recordBytes.
  exists (poolPadding pool off (Z.to_nat padLen)).
  assert (lenZ (poolPadding pool off (Z.to_nat padLen)) = padLen) as HpL.
  { unfold poolPadding, lenZ in *. rewrite length_slice; lia. }
  rewrite HpL. split; [|lia]. f_equal.
  rewrite <- drop_drop, !drop_app_length, take_app_ge by lia.
  replace (length init + 4 - length init)%nat with 4%nat by lia.
  rewrite (take_app_length' (be_enc 4 _)) by (rewrite length_be_enc; lia).
  rewrite (app_assoc (be_enc 4 _) (be_enc 2 _)), (drop_app_length' (be_enc 4 _ ++ _))
    by (rewrite length_app, !length_be_enc; lia).
  rewrite app_nil_r, <- !app_assoc. done.
Qed.

(** Every turn of the loop that goes on has used up a chunk or bytes of a chunk. *)
Lemma fill_shrinks s s' n e :
  lenZ (sbuf s) < scap s -> fill s = (s', n, e) ->
  rd s = [] /\ n = 0%nat /\ e = Some EOF \/ (readerSize (rd s') < readerSize (rd s))%nat.
Proof.
  intros Hcap. unfold fill, read. destruct (rd s) as [|[c e0] r]; [by intros [= <- <- <-]; left|].
  destruct (_ <=? _) eqn:E; intros [= <- <- <-]; right; cbn [rd].
  - rewrite readerSize_cons. lia.
  - unfold lenZ in *. apply Z.leb_gt in E. rewrite !readerSize_cons, length_drop. lia.
Qed.

Lemma readLoop_total fuel s : (S (readerSize (rd s)) < fuel)%nat -> is_Some (readLoop fuel s).
Proof.
  revert s. induction fuel as [|fuel IH]; intros s Hf; [lia|]. cbn [readLoop].
  destruct (tryParse s) as [r|]; [eauto|]. case_match; [eauto|].
  destruct (compact_pending s) as (_ & _ & C3 & _ & _).
  destruct (grow_pending (compact s)) as (_ & _ & G3 & _ & _ & G6).
  destruct (fill (grow (compact s))) as [[s2 n] e] eqn:EF.
  apply fill_shrinks in EF as [(Hr & -> & ->)|Hlt]; [|rewrite G3, C3 in Hlt|done].
  - simpl. eauto.
  - destruct e as [err|]; [case_match; [eauto|]|]; apply IH; lia.
Qed.

Lemma readLoop_reader fuel s r s' :
  readLoop fuel s = Some (r, s') -> (readerSize (rd s') <= readerSize (rd s))%nat.
Proof.
  revert s. induction fuel as [|fuel IH]; intros s; [done|]. cbn [readLoop].
  destruct (tryParse s) as [[r0 s0]|] eqn:ET.
  { intros [= <- <-]. unfold tryParse in ET. repeat case_match; simplify_eq; done. }
  destruct (compact_pending s) as (_ & _ & C3 & _ & _). case_match.
  { intros [= <- <-]. simpl. by rewrite C3. }
  destruct (grow_pending (compact s)) as (_ & _ & G3 & _ & _ & G6).
  destruct (fill (grow (compact s))) as [[s2 n] e] eqn:EF.
  assert (readerSize (rd s2) <= readerSize (rd s))%nat as Hle.
  { rewrite <- C3, <- G3. pose proof EF as EF'. apply fill_shrinks in EF as [(Hr & _ & _)|Hlt]; [|lia|done].
    unfold fill, read in EF'. rewrite Hr in EF'. injection EF' as <- <- <-. cbn [rd]. by rewrite Hr. }
  intros H'. destruct e as [err|]; [case_match; simplify_eq; [done|]|]; apply IH in H'; lia.
Qed.

(** Capacity: while a record is incomplete the buffer holds less than one maximal
    record behind an offset that compaction keeps small. *)
Definition scan_bytes (s : FrameScanner) : Prop := Forall is_u8 (sbuf s) /\ Forall (fun c => Forall is_u8 (fst c)) (rd s).

Lemma hdr_byte_range i j s : scan_bytes s -> 0 <= be_dec (slice i j (sbuf s)) < 256 ^ lenZ (slice i j (sbuf s)).
Proof. intros [H _]. apply be_dec_range. by apply Forall_take, Forall_drop. Qed.

Lemma hdrPadLen_range s : scan_bytes s -> 0 <= hdrPadLen s <= 65535.
Proof.
  intros H. unfold hdrPadLen. pose proof (hdr_byte_range (offset s + 4) (offset s + 6) s H) as Hr.
  enough (256 ^ lenZ (slice (offset s + 4) (offset s + 6) (sbuf s)) <= 256 ^ 2) by lia.
  apply Z.pow_le_mono_r; [lia|]. unfold lenZ, slice. rewrite length_take. lia.
Qed.

Definition capBound (maxLen : Z) : Z := 2 * (maxLen + 16384 + 65535 + 10 + 2048).

Lemma readLoop_cap fuel s r s' :
  scan_wf s -> scan_bytes s -> 0 <= maxDataLen s -> scap s <= capBound (maxDataLen s) ->
  readLoop fuel s = Some (r, s') -> scap s' <= capBound (maxDataLen s).
Proof.
  revert s. induction fuel as [|fuel IH]; intros s Hwf Hb Hm Hc; [done|]. cbn [readLoop].
  destruct (tryParse s) as [[r0 s0]|] eqn:ET.
  { intros [= <- <-]. unfold tryParse in ET. repeat case_match; simplify_eq; done. }
  destruct (compact_pending s) as (_ & C2 & C3 & C4 & C5). specialize (C5 Hwf).
  assert (scan_bytes (compact s) /\ scap (compact s) = scap s /\ Z.of_nat (offset (compact s)) <= 16384) as (CB & CC & CO).
  { unfold compact, scan_bytes in *. case_match eqn:E; simpl; [|repeat split; try tauto].
    - destruct Hb. repeat split; auto using Forall_drop; lia.
    - destruct (decide (offset s = 0%nat)) as [->|]; [lia|].
      rewrite andb_false_iff, orb_false_iff, Nat.ltb_ge, Z.ltb_ge in E. lia. }
  destruct (_ && _) eqn:EB; [intros [= <- <-]; simpl; lia|].
  assert (Z.of_nat (available (compact s)) < maxDataLen s + 65535 + 10) as HA.
  { rewrite C2. unfold tryParse in ET. case_match eqn:E1.
    { apply Nat.ltb_lt in E1. unfold HeaderSize in E1. lia. }
    case_match eqn:E2; [done|]. apply Z.ltb_ge in E2. case_match eqn:E3; [|done]. apply Z.ltb_lt in E3.
    pose proof (hdrPadLen_range s Hb). unfold HeaderSize in *. lia. }
  assert (requiredCap (compact s) <= maxDataLen s + 16384 + 65535 + 10 + 2048) as HR.
  { unfold scan_wf, available, lenZ in *. unfold requiredCap, lenZ. case_match eqn:E1; [lia|].
    apply Nat.ltb_ge in E1. pose proof (hdrPadLen_range _ CB).
    rewrite andb_false_iff, Nat.leb_gt, Z.ltb_ge, C4 in EB. unfold HeaderSize, available in *. lia. }
  assert (scap (grow (compact s)) <= capBound (maxDataLen s)) as HG.
  { unfold grow, capBound in *. case_match eqn:E; [|lia]. apply Z.ltb_lt in E. cbn [scap]. lia. }
  destruct (grow_pending (compact s)) as (_ & G2 & G3 & G4 & G5 & G6).
  destruct (fill (grow (compact s))) as [[s2 n] e] eqn:EF.
  assert (scan_wf s2 /\ scan_bytes s2 /\ maxDataLen s2 = maxDataLen s /\ scap s2 <= capBound (maxDataLen s)) as (F1 & F2 & F3 & F4).
  { unfold fill, read in EF. unfold scan_wf, scan_bytes in *. rewrite G2, G3, G5 in *.
    destruct CB as [CB1 CB2]. destruct (rd (compact s)) as [|[c e0] rr] eqn:Er.
    - simplify_eq. simpl. rewrite app_nil_r, G4, C4. auto.
    - apply Forall_cons_1 in CB2 as [Hc0 CB2]. simpl in Hc0. rewrite G4, C4 in EF.
      destruct (lenZ c <=? _); injection EF as <- <- <-; cbn [rd sbuf scap offset maxDataLen];
        rewrite length_app, Forall_app; repeat split; auto using Forall_take, Forall_drop; try lia.
      constructor; simpl; auto using Forall_drop. }
  intros HL. rewrite <- F3 in *. destruct e as [err|]; [case_match; simplify_eq; [done|]|];
    eapply IH in HL; eauto; lia.
Qed.

(** ** Properties of the framing layer *)

Definition scannerOver (limit : Z) (r : reader) : FrameScanner := SetMaxDataLen limit (NewFrameScanner r).

(** The wire round trip.  A batch of frames, sealed by the cipher of the
    direction, framed without padding and with cover padding added to the tail of
    the write, is read back by the scanner and opened to exactly the same frames in
    the same order, however the transport cuts the byte stream into chunks. *)
Theorem batch_wire_roundtrip (mode : padMode) (pool : bytes) (off : nat) (recordLimit : Z)
    (ic : option innerCipher) (vfs : list VPNFrame) (tot : txFrameTotals) (chunks : reader) :
  CipherOk ic -> vfs <> [] -> Forall (sendable ic maxWireDataLen) vfs ->
  Z.of_nat off + 512 <= lenZ pool -> clean chunks ->
  (let '(buf, _, last, _) := appendOwnedVPNFrameBatchStreamWithScratch [] vfs ic tot in
   concat (fst <$> chunks) = fst (padStreamBatchTail mode pool off buf last recordLimit)) ->
  exists s', receiveFrames (length vfs) ic (NewFrameScanner chunks) = Some (vfs, s') /\ pendingStream s' = [].
Proof.
  intros Hok Hne HF Hpool Hclean. unfold appendOwnedVPNFrameBatchStreamWithScratch.
  pose proof (appendStreamLoop_spec vfs [] ic (-1) tot) as HS.
  destruct (appendStreamLoop _ _ _ _ _) as [[buf last] t']. destruct HS as [Hbuf HL].
  destruct vfs as [|v0 vfs0]; [done|]. destruct HL as (init & vf & Hsplit & ->). rewrite Hsplit in *.
  rewrite fmap_app, concat_app in Hbuf. cbn [fmap list_fmap concat app] in Hbuf. rewrite app_nil_r in Hbuf.
  destruct (padStreamBatchTail_spec mode pool off buf _ _ _ _ recordLimit Hbuf Hpool) as (pad & HP & Hpl).
  unfold lenZ at 1 in HP. cbn [app]. rewrite HP. cbn [fst]. intros HC.
  set (rs := ((fun v => (v, @nil Z)) <$> init) ++ [(vf, pad)]).
  assert (fst <$> rs = init ++ [vf]) as Hfst.
  { unfold rs. rewrite fmap_app, <- list_fmap_compose. f_equal. apply list_fmap_id. }
  destruct (receive_records ic maxWireDataLen rs [] (NewFrameScanner chunks) Hok) as (s' & HR & P).
  - unfold maxWireDataLen. lia.
  - apply Forall_app in HF as [HF1 HF2]. apply Forall_app. split.
    + apply Forall_fmap. revert HF1. apply Forall_impl. intros v Hv. split; [exact Hv|]. simpl. widths. unfold lenZ. simpl. lia.
    + constructor; [|done]. apply Forall_cons_1 in HF2 as [HF2 _]. split; [done|]. cbn [snd]. widths. unfold lenZ in *. lia.
  - unfold scan_wf. simpl. lia.
  - exact Hclean.
  - done.
  - unfold pendingStream. cbn [NewFrameScanner offset sbuf rd drop app]. rewrite HC, app_nil_r. unfold rs.
    rewrite fmap_app, concat_app, <- list_fmap_compose. cbn [fmap list_fmap concat fst snd]. by rewrite app_nil_r.
  - exists s'. rewrite <- Hfst. rewrite length_fmap. auto.
Qed.

(** C38: The scanner always returns: for every buffer state and every sequence of
    chunks and errors of the transport, ReadFrame yields a frame or an error. *)
Theorem ReadFrame_total (s : FrameScanner) : is_Some (ReadFrame s).
Proof. unfold ReadFrame. apply readLoop_total. simpl. lia. Qed.

(** BufferedFrameReady is exactly "the next ReadFrame needs no read": it holds
    iff ReadFrame returns a frame and leaves the reader untouched, so a receive loop
    that flushes its batch when it is false never blocks with frames in hand. *)
Theorem BufferedFrameReady_iff (s : FrameScanner) :
  BufferedFrameReady s = true <-> exists f q s', ReadFrame s = Some (Got f q, s') /\ rd s' = rd s.
Proof.
  unfold ReadFrame. set (s0 := {| rd := rd s |}).
  assert (BufferedFrameReady s = true <-> exists f q s', tryParse s0 = Some (Got f q, s')) as Hready.
  { unfold BufferedFrameReady, tryParse. change (available s0) with (available s).
    change (hdrDataLen s0) with (hdrDataLen s). change (hdrPadLen s0) with (hdrPadLen s).
    cbn [s0 maxDataLen]. split.
    - repeat case_match; intros; try done; eauto 6.
      all: rewrite ?Z.ltb_lt, ?Z.leb_le in *; unfold HeaderSize in *; lia.
    - intros (f & q & s' & H). repeat case_match; simplify_eq; try done.
      all: rewrite ?Z.ltb_ge, ?Z.leb_le in *; lia. }
  rewrite Hready. generalize (S (readerSize (rd s))) as fuel. intros fuel. split.
  - intros (f & q & s' & H). cbn [readLoop]. rewrite H. exists f, q, s'. split; [done|].
    unfold tryParse in H. repeat case_match; simplify_eq; done.
  - intros (f & q & s' & H & Hrd). cbn [readLoop] in H.
    destruct (tryParse s0) as [[r s1]|] eqn:E; [simplify_eq; eauto|]. case_match; simplify_eq.
    destruct (compact_pending s0) as (_ & _ & C3 & _ & _).
    destruct (grow_pending (compact s0)) as (_ & _ & G3 & _ & _ & G6).
    destruct (fill (grow (compact s0))) as [[s2 n] e] eqn:EF.
    apply fill_shrinks in EF as [(_ & -> & ->)|Hlt]; [done| |done]. rewrite G3, C3 in Hlt. cbn [s0 rd] in Hlt.
    assert (readerSize (rd s') <= readerSize (rd s2))%nat as Hle.
    { destruct e as [err|]; [destruct (readStops n err); [done|]|]; by apply readLoop_reader in H. }
    rewrite Hrd in Hle. lia.
Qed.

(** C37: Memory before authentication.  With the handshake limit in force, the
    scanner's buffer never grows past [capBound 16384] = 200,722 bytes, whatever
    the peer sends; the 16-bit padding field accounts for most of it. *)
Theorem preauth_capacity_bound (chunks : reader) (r : scanResult) (s' : FrameScanner) :
  Forall (fun c => Forall is_u8 (fst c)) chunks ->
  ReadFrame (scannerOver maxHandshakeDataLen chunks) = Some (r, s') ->
  scap s' <= 200722.
Proof.
  intros Hb H. unfold ReadFrame in H. apply readLoop_cap in H; [done|..].
  - unfold scan_wf. simpl. lia.
  - split; [by constructor|exact Hb].
  - done.
  - done.
Qed.

(** ** Witnesses *)

Definition demoFrames : list VPNFrame := [mkFrame 1 [10; 20; 30]; mkFrame 0 [1; 2]; mkFrame 2 [7]].
Definition demoPool : bytes := zeros 600.
Definition demoWire : bytes :=
  let '(buf, _, last, _) := appendOwnedVPNFrameBatchStreamWithScratch [] demoFrames (Some demoCipher) totals_zero in
  fst (padStreamBatchTail PadBucket demoPool 3 buf last 1400).
Definition demoChunks : reader := [(take 5 demoWire, None); (take 40 (drop 5 demoWire), None); (drop 45 demoWire, None)].

Lemma batch_wire_roundtrip_witness :
  exists s', receiveFrames 3 (Some demoCipher) (NewFrameScanner demoChunks) = Some (demoFrames, s') /\ pendingStream s' = [].
Proof.
  apply (batch_wire_roundtrip PadBucket demoPool 3 1400 (Some demoCipher) demoFrames totals_zero demoChunks).
  - apply _.
  - done.
  - repeat constructor; done.
  - vm_compute. discriminate.
  - by repeat constructor.
  - vm_compute. reflexivity.
Defined.

Definition demoHostile : reader := [(be_enc 4 16384 ++ be_enc 2 65535 ++ be_enc 4 0 ++ [1; 2; 3], None)].

Lemma preauth_capacity_bound_witness :
  match ReadFrame (scannerOver maxHandshakeDataLen demoHostile) with Some (_, s') => scap s' <= 200722 | None => False end.
Proof.
  destruct (ReadFrame (scannerOver maxHandshakeDataLen demoHostile)) as [[r s']|] eqn:E.
  - apply (preauth_capacity_bound demoHostile r s'); [|exact E]. repeat constructor; done.
  - vm_compute in E. discriminate.
Defined.
