(* ===== verification/FecControl.v ===== *)
(** * FEC mode control (protocol_v3.go, fec_control.go)

    The typed control payloads, the arithmetic of FEC groups, and the receiver's
    bypass fence: one atomically readable 64-bit window and a generation. *)

From stdpp Require Import base tactics list numbers.
From S2P Require Import Prelude Frame.
#[local] Open Scope Z_scope.

Definition protocolVersion : Z := 3.

Inductive controlErr := EmptyControl | UnsupportedKind (b : Z) | MalformedFECMode.

Definition parseControlKind (payload : bytes) : Z + controlErr :=
  match payload with
  | [] => inr EmptyControl
  | b :: _ => if (b =? controlKindFECParity) || (b =? controlKindFECMode) then inl b
              else inr (UnsupportedKind b)
  end.

Definition fecControlSuspend : Z := 1.
Definition fecControlResume : Z := 2.
Definition fecControlWireLen : nat := 16.

Record fecModeControl := mkControl { Generation : Z; Op : Z; Boundary : Z }.

Definition appendFECModeControl (dst : bytes) (c : fecModeControl) : bytes :=
  dst ++ u8 controlKindFECMode :: u8 (Op c) :: be_enc 2 0 ++ be_enc 8 (Generation c) ++ be_enc 4 (Boundary c).

Definition parseFECModeControl (payload : bytes) : option fecModeControl :=
  if negb (length payload =? fecControlWireLen)%nat || negb (byte_at 0 payload =? controlKindFECMode) then None else
  if negb (be_dec (slice 2 4 payload) =? 0) then None else
  let op := byte_at 1 payload in
  if negb (op =? fecControlSuspend) && negb (op =? fecControlResume) then None else
  let c := {| Generation := be_dec (slice 4 12 payload); Op := op; Boundary := be_dec (slice 12 16 payload) |} in
  if (Generation c =? 0) || (Boundary c =? 0) then None else Some c.

(** ** Group arithmetic *)

Definition fecMinGroup : Z := 2.
Definition fecMaxGroup : Z := 64.

Definition clampFecGroup (k : Z) : Z :=
  if k <? fecMinGroup then fecMinGroup else if fecMaxGroup <? k then fecMaxGroup else k.

Definition fecGroupStart (seq k : Z) : Z :=
  if seq =? 0 then 0 else u32 (seq - (u32 (seq - 1)) mod (clampFecGroup k)).

Definition fecNextGroupStart (seq k : Z) : Z :=
  if seq =? 0 then 0 else
  let k := clampFecGroup k in
  let off := u32 (seq - 1) mod k in
  if off =? 0 then seq else
  let next := seq + (k - off) in
  if 2 ^ 32 - 1 <? next then 0 else u32 next.

(** ** The receiver's fence *)

Definition packFECBypassWindow (from til : Z) : Z := Z.lor (u64 (Z.shiftl from 32)) til.
Definition unpackFECBypassWindow (v : Z) : Z * Z := (u32 (Z.shiftr v 32), u32 v).

Record fecRXFenceState := mkFence { generation : Z; window : Z }.
Definition fence0 : fecRXFenceState := mkFence 0 0.

Definition fence_Apply (c : fecModeControl) (s : fecRXFenceState) : fecRXFenceState * bool :=
  if (Generation c =? 0) || (Boundary c =? 0) ||
     (negb (Op c =? fecControlSuspend) && negb (Op c =? fecControlResume)) then (s, false) else
  if Generation c <=? generation s then (s, false) else
  let from := fst (unpackFECBypassWindow (window s)) in
  ({| generation := Generation c;
      window := if Op c =? fecControlSuspend then packFECBypassWindow (Boundary c) 0
                else if (from =? 0) || (Boundary c <=? from) then 0
                else packFECBypassWindow from (Boundary c) |}, true).

Definition fence_Window (s : fecRXFenceState) : Z * Z := unpackFECBypassWindow (window s).
Definition fence_Reset : fecRXFenceState := fence0.

Definition BypassData (s : fecRXFenceState) (seq : Z) : bool :=
  if seq =? 0 then false else
  let '(from, til) := unpackFECBypassWindow (window s) in
  if (from =? 0) || (seq <? from) then false else (til =? 0) || (seq <? til).

Definition BypassParity (s : fecRXFenceState) (groupStart : Z) : bool :=
  if groupStart =? 0 then false else
  let '(from, til) := unpackFECBypassWindow (window s) in
  if (from =? 0) || (groupStart <? from) then false else (til =? 0) || (groupStart <? til).

(** ** Lemmas *)

Lemma BypassData_fence0 q : BypassData fence0 q = false.
Proof. unfold BypassData. by destruct (q =? 0). Qed.

Lemma clampFecGroup_range k : 2 <= clampFecGroup k <= 64.
Proof. unfold clampFecGroup, fecMinGroup, fecMaxGroup. repeat case_match; lia. Qed.

Lemma clampFecGroup_id k : 2 <= k <= 64 -> clampFecGroup k = k.
Proof. intros. unfold clampFecGroup, fecMinGroup, fecMaxGroup. repeat case_match; lia. Qed.

(** A group start: [s ≡ 1 (mod k)]. *)
Definition aligned (k s : Z) : Prop := (s - 1) mod k = 0.

#[export] Instance aligned_dec k s : Decision (aligned k s).
Proof. unfold aligned. apply _. Defined.

Lemma fecGroupStart_spec seq k :
  2 <= k <= 64 -> 0 < seq < 2 ^ 32 ->
  let s := fecGroupStart seq k in aligned k s /\ 0 < s /\ s <= seq < s + k.
Proof.
  intros Hk Hs. unfold fecGroupStart, aligned. rewrite clampFecGroup_id by done.
  destruct (seq =? 0) eqn:E; [lia|]. rewrite (u32_small (seq - 1)) by (widths; lia).
  pose proof (Z.mod_pos_bound (seq - 1) k ltac:(lia)).
  pose proof (Z.mod_le (seq - 1) k ltac:(lia) ltac:(lia)).
  rewrite u32_small by (widths; lia).
  replace (_ - _ - 1) with (seq - 1 - (seq - 1) mod k) by lia.
  split; [|lia]. rewrite Zminus_mod_idemp_r, Z.sub_diag. apply Z.mod_0_l. lia.
Qed.

(** Start of the group that contains [seq], in plain arithmetic. *)
Lemma fecGroupStart_plain seq k :
  2 <= k <= 64 -> 0 < seq < 2 ^ 32 -> fecGroupStart seq k = seq - (seq - 1) mod k.
Proof.
  intros Hk Hs. unfold fecGroupStart. rewrite clampFecGroup_id by done.
  destruct (seq =? 0) eqn:E; [lia|]. rewrite (u32_small (seq - 1)) by (widths; lia).
  pose proof (Z.mod_pos_bound (seq - 1) k ltac:(lia)).
  pose proof (Z.mod_le (seq - 1) k ltac:(lia) ltac:(lia)).
  apply u32_small. widths; lia.
Qed.

Lemma fecNextGroupStart_spec seq k :
  2 <= k <= 64 -> 0 < seq < 2 ^ 32 ->
  let s := fecNextGroupStart seq k in
  s = 0 /\ 2 ^ 32 <= seq + k \/ aligned k s /\ seq <= s < seq + k /\ s < 2 ^ 32.
Proof.
  intros Hk Hs. unfold fecNextGroupStart, aligned. rewrite clampFecGroup_id by done.
  destruct (seq =? 0) eqn:E; [lia|]. rewrite (u32_small (seq - 1)) by (widths; lia).
  pose proof (Z.mod_pos_bound (seq - 1) k ltac:(lia)).
  destruct ((seq - 1) mod k =? 0) eqn:E1; [right; lia|].
  destruct (2 ^ 32 - 1 <? _) eqn:E2; [apply Z.ltb_lt in E2; left; split; [done|lia]|]. apply Z.ltb_ge in E2.
  rewrite u32_small by (widths; lia). right. repeat split; try lia.
  replace (_ - 1) with (seq - 1 - (seq - 1) mod k + k) by lia.
  rewrite <- Z.add_mod_idemp_l, Zminus_mod_idemp_r, Z.sub_diag by lia. 
  rewrite Z.mod_0_l, Z.add_0_l by lia. apply Z.mod_same. lia.
Qed.

Lemma aligned_unique k s t : 2 <= k -> aligned k s -> aligned k t -> s <= t < s + k -> s = t.
Proof.
  intros Hk Hs Ht Hst. unfold aligned in *.
  assert ((t - s) mod k = 0) as H.
  { replace (t - s) with ((t - 1) - (s - 1)) by lia. rewrite Zminus_mod, Hs, Ht. apply Z.mod_0_l. lia. }
  rewrite Z.mod_small in H; lia.
Qed.

Lemma aligned_lt k s t : 2 <= k -> aligned k s -> aligned k t -> s < t -> s + k <= t.
Proof.
  intros Hk Hs Ht Hst. destruct (decide (s + k <= t)); [done|].
  pose proof (aligned_unique k s t Hk Hs Ht ltac:(lia)). lia.
Qed.

(** RESUME's boundary is the least group start from [seq] on, or none is left. *)
Lemma fecNextGroupStart_least seq k t :
  2 <= k <= 64 -> 0 < seq < 2 ^ 32 -> aligned k t -> seq <= t ->
  let s := fecNextGroupStart seq k in (s = 0 -> 2 ^ 32 <= t) /\ s <= t.
Proof.
  intros Hk Hs Ht Hle s. unfold s, fecNextGroupStart. rewrite clampFecGroup_id by done.
  destruct (Z.eqb_spec seq 0); [lia|]. rewrite (u32_small (seq - 1)) by (widths; lia).
  pose proof (Z.mod_pos_bound (seq - 1) k ltac:(lia)) as Hm.
  destruct (Z.eqb_spec ((seq - 1) mod k) 0) as [|E1]; [lia|].
  assert (seq + (k - (seq - 1) mod k) <= t) as Hnext.
  { assert (aligned k (seq - (seq - 1) mod k)) as Ha.
    { unfold aligned. replace (_ - 1) with (seq - 1 - (seq - 1) mod k) by lia.
      rewrite Zminus_mod_idemp_r, Z.sub_diag. apply Z.mod_0_l. lia. }
    pose proof (aligned_lt k _ t ltac:(lia) Ha Ht ltac:(lia)). lia. }
  destruct (Z.ltb_spec (2 ^ 32 - 1) (seq + (k - (seq - 1) mod k))); [lia|].
  rewrite u32_small by (widths; lia). lia.
Qed.

Lemma unpack_pack from til : is_u32 from -> is_u32 til -> unpackFECBypassWindow (packFECBypassWindow from til) = (from, til).
Proof.
  intros Hf Ht. unfold unpackFECBypassWindow, packFECBypassWindow.
  assert (Z.shiftl from 32 = from * 2 ^ 32) as Es by (rewrite Z.shiftl_mul_pow2; lia).
  rewrite u64_small by (rewrite Es; widths; lia).
  assert (Z.lor (Z.shiftl from 32) til = from * 2 ^ 32 + til) as ->.
  { rewrite <- Es. rewrite <- Z.add_lor_land.
    enough (Z.land (Z.shiftl from 32) til = 0) as -> by lia.
    apply Z.bits_inj'. intros i Hi. rewrite Z.land_spec, Z.bits_0.
    destruct (decide (i < 32)).
    - by rewrite Z.shiftl_spec_low.
    - rewrite <- (Z.mod_small til (2 ^ 32)) by (widths; lia).
      rewrite Z.mod_pow2_bits_high by lia. apply andb_false_r. }
  rewrite Z.shiftr_div_pow2 by lia. widths. f_equal.
  - rewrite Z.div_add_l by lia. rewrite (Z.div_small til) by lia. rewrite Z.add_0_r. by apply Z.mod_small.
  - rewrite Z.add_comm, Z.mod_add by lia. by apply Z.mod_small.
Qed.

Definition validControl (c : fecModeControl) : Prop :=
  is_u64 (Generation c) /\ Generation c <> 0 /\ is_u32 (Boundary c) /\ Boundary c <> 0 /\
  (Op c = fecControlSuspend \/ Op c = fecControlResume).

Lemma valid_op c : validControl c -> is_u8 (Op c).
Proof. intros (_ & _ & _ & _ & [-> | ->]); widths; unfold fecControlSuspend, fecControlResume; lia. Qed.

(** A word of a big-endian field is determined by its value. *)
Lemma be_enc_dec l : Forall is_u8 l -> be_enc (length l) (be_dec l) = l.
Proof.
  induction l as [|b l IH]; intros H; [done|]. apply Forall_cons_1 in H as [Hb Hl].
  cbn [length be_enc]. pose proof (be_dec_range l Hl) as Hr. unfold lenZ in Hr.
  assert (forall n h v, (n <= length l)%nat -> be_enc n (h * 256 ^ Z.of_nat (length l) + v) = be_enc n v) as Hhi.
  { intros n h v. induction n as [|n IHn]; intros Hn; [done|]. cbn [be_enc]. rewrite IHn by lia. f_equal.
    rewrite !Z.shiftr_div_pow2 by lia. unfold u8.
    change (2 ^ (8 * Z.of_nat n)) with ((2 ^ (8 * Z.of_nat n))).
    replace (256 ^ Z.of_nat (length l)) with (2 ^ 8 * 2 ^ (8 * (Z.of_nat (length l) - 1 - Z.of_nat n)) * 2 ^ (8 * Z.of_nat n)).
    2:{ change 256 with (2 ^ 8). rewrite <- Z.pow_mul_r, <- !Z.pow_add_r by lia. f_equal. lia. }
    rewrite Z.mul_assoc, Z.add_comm, Z.div_add by (apply Z.pow_nonzero; lia).
    rewrite (Z.mul_comm (2 ^ 8)), (Z.mul_assoc h), Z.mod_add by lia. done. }
  rewrite be_dec_cons. unfold lenZ. f_equal.
  - rewrite Z.shiftr_div_pow2 by lia. rewrite Z.pow_mul_r by lia. change (2 ^ 8) with 256.
    rewrite Z.div_add_l by (apply Z.pow_nonzero; lia). rewrite (Z.div_small (be_dec l)) by lia.
    rewrite Z.add_0_r. by apply u8_small.
  - rewrite Hhi by lia. by apply IH.
Qed.

Lemma be_enc_dec_slice i j (l : bytes) : Forall is_u8 l -> (i <= j <= length l)%nat -> be_enc (j - i) (be_dec (slice i j l)) = slice i j l.
Proof. intros H Hij. rewrite <- (length_slice i j l Hij). apply be_enc_dec. by apply Forall_take, Forall_drop. Qed.

Lemma be_dec_slice_range i j (l : bytes) :
  Forall is_u8 l -> (i <= j <= length l)%nat -> 0 <= be_dec (slice i j l) < 256 ^ Z.of_nat (j - i).
Proof.
  intros H Hij. rewrite <- (length_slice i j l Hij). apply (be_dec_range (slice i j l)).
  by apply Forall_take, Forall_drop.
Qed.

Lemma byte_at_byte i l : Forall is_u8 l -> is_u8 (byte_at i l).
Proof.
  intros H. rewrite byte_at_lookup. destruct (l !! i) eqn:E; simpl; [|widths; lia].
  by apply (Forall_lookup_1 _ _ _ _ H E).
Qed.

Lemma parse_fields payload c :
  parseFECModeControl payload = Some c ->
  length payload = 16%nat /\ byte_at 0 payload = controlKindFECMode /\ be_dec (slice 2 4 payload) = 0 /\
  c = {| Generation := be_dec (slice 4 12 payload); Op := byte_at 1 payload; Boundary := be_dec (slice 12 16 payload) |} /\
  (byte_at 1 payload = fecControlSuspend \/ byte_at 1 payload = fecControlResume) /\
  be_dec (slice 4 12 payload) <> 0 /\ be_dec (slice 12 16 payload) <> 0.
Proof.
  unfold parseFECModeControl. set (cc := {| Generation := _ |}).
  destruct (_ || _) eqn:E1; [done|]. destruct (negb (_ =? 0)) eqn:E2; [done|].
  destruct (_ && _) eqn:E3; [done|]. destruct ((Generation cc =? 0) || _) eqn:E4; [done|].
  intros H. assert (cc = c) as <- by congruence. clear H. cbn [cc Generation Boundary] in E4.
  rewrite ?orb_false_iff, ?andb_false_iff, ?negb_false_iff, ?Nat.eqb_eq, ?Z.eqb_eq, ?Z.eqb_neq in *.
  destruct_and!. repeat split; auto.
Qed.

(** Every valid control is read back. *)
Lemma parse_append c : validControl c -> parseFECModeControl (appendFECModeControl [] c) = Some c.
Proof.
  intros Hv. unfold appendFECModeControl. rewrite (u8_small (Op c)) by by apply valid_op.
  destruct Hv as (Hg & Hg0 & Hbd & Hb0 & Hop).
  pose proof (slice_mid 2 4 [u8 controlKindFECMode; Op c] (be_enc 2 0)
    (be_enc 8 (Generation c) ++ be_enc 4 (Boundary c)) eq_refl eq_refl) as E1.
  pose proof (slice_mid 4 12 ([u8 controlKindFECMode; Op c] ++ be_enc 2 0) (be_enc 8 (Generation c))
    (be_enc 4 (Boundary c)) eq_refl eq_refl) as E2.
  pose proof (slice_mid 12 16 ([u8 controlKindFECMode; Op c] ++ be_enc 2 0 ++ be_enc 8 (Generation c))
    (be_enc 4 (Boundary c)) [] eq_refl eq_refl) as E3.
  rewrite app_nil_r in E3. cbn [app] in E1, E2, E3 |- *. rewrite <- ?app_assoc in E2. rewrite <- (app_assoc (be_enc 2 0)) in E3.
  unfold parseFECModeControl. rewrite E1, E2, E3.
  rewrite be_dec_enc8, be_dec_enc4 by done. cbn [Generation Boundary].
  destruct (Z.eqb_spec (Generation c) 0), (Z.eqb_spec (Boundary c) 0); try done.
  by destruct c, Hop as [Hop|Hop]; cbn [Op] in Hop; subst.
Qed.

(** ** Properties of the control codec *)

(** The FEC_MODE codec is canonical: a 16-byte payload parses to a control
    exactly when it is the encoding of that control and the control is valid (a
    non-zero 64-bit generation, a non-zero 32-bit boundary, SUSPEND or RESUME);
    wrong lengths, kinds, operations and non-zero flags are all refused. *)
Theorem FECMode_codec_canonical (payload : bytes) (c : fecModeControl) :
  Forall is_u8 payload ->
  parseFECModeControl payload = Some c <-> payload = appendFECModeControl [] c /\ validControl c.
Proof.
  intros Hb. split.
  - intros H. apply parse_fields in H as (HL & H0 & H2 & -> & Hop & Hg & Hbd).
    pose proof (be_dec_slice_range 4 12 payload Hb ltac:(lia)).
    pose proof (be_dec_slice_range 12 16 payload Hb ltac:(lia)).
    split; [|by unfold validControl; widths]. unfold appendFECModeControl. cbn [Generation Op Boundary].
    pose proof (be_enc_dec_slice 4 12 payload Hb ltac:(lia)) as E1.
    pose proof (be_enc_dec_slice 12 16 payload Hb ltac:(lia)) as E2.
    pose proof (be_enc_dec_slice 2 4 payload Hb ltac:(lia)) as E3.
    cbn [Nat.sub] in E1, E2, E3. rewrite E1, E2, <- H2, E3, <- H0, !u8_small by by apply byte_at_byte.
    do 17 (destruct payload as [|? payload]; try done).
  - intros [-> Hv]. by apply parse_append.
Qed.

Lemma FECMode_codec_canonical_witness :
  parseFECModeControl [2; 1; 0; 0; 0; 0; 0; 0; 0; 0; 0; 9; 0; 0; 1; 1] = Some (mkControl 9 1 257) /\
  [2; 1; 0; 0; 0; 0; 0; 0; 0; 0; 0; 9; 0; 0; 1; 1] = appendFECModeControl [] (mkControl 9 1 257).
Proof.
  assert (parseFECModeControl [2; 1; 0; 0; 0; 0; 0; 0; 0; 0; 0; 9; 0; 0; 1; 1] = Some (mkControl 9 1 257)) as H by reflexivity.
  split; [exact H|].
  apply (FECMode_codec_canonical [2; 1; 0; 0; 0; 0; 0; 0; 0; 0; 0; 9; 0; 0; 1; 1] (mkControl 9 1 257)); [|exact H].
  repeat constructor; done.
Defined.
