(* ===== verification/FecEncoder.v ===== *)
(** * FEC encoder (fec.go, sender side)

    The XOR parity encoder of a port: grouping, the accumulator, the parity
    payload, and the suspension of the encoder while one physical path is left,
    announced to the receiver by FEC_MODE controls. *)

From stdpp Require Import base tactics list numbers list_numbers sorting.
From S2P Require Import Prelude Aead Frame FecControl.
#[local] Open Scope Z_scope.

Record fecEncoder := mkEncoder {
  ek : Z;
  seqs : list Z;
  elens : list nat;
  eacc : bytes;
  activeLen : nat;
  eic : option innerCipher;
  paritySent : Z;
  multipath : bool;
  armed : bool;
  lastSeq : Z;
  controlGeneration : Z;
  control : fecModeControl
}.

Definition newFECEncoder (k : Z) (ic : option innerCipher) : fecEncoder :=
  {| ek := clampFecGroup k; seqs := []; elens := []; eacc := []; activeLen := 0; eic := ic;
     paritySent := 0; multipath := true; armed := true; lastSeq := 0; controlGeneration := 0;
     control := mkControl 0 0 0 |}.

Definition publishModeControl (op boundary : Z) (e : fecEncoder) : fecEncoder :=
  if (boundary =? 0) || (negb (op =? fecControlSuspend) && negb (op =? fecControlResume)) then e else
  let g0 := u64 (controlGeneration e + 1) in
  let g := if g0 =? 0 then 1 else g0 in
  {| ek := ek e; seqs := seqs e; elens := elens e; eacc := eacc e; activeLen := activeLen e; eic := eic e;
     paritySent := paritySent e; multipath := multipath e; armed := armed e; lastSeq := lastSeq e;
     controlGeneration := g; control := mkControl g op boundary |}.

Definition currentModeControl (e : fecEncoder) : option fecModeControl :=
  if (Generation (control e) =? 0) || (Boundary (control e) =? 0) then None else Some (control e).

(** reset: only the touched prefix of the accumulator is cleared. *)
Definition enc_reset (e : fecEncoder) : fecEncoder :=
  {| ek := ek e; seqs := []; elens := []; eacc := zeros (activeLen e) ++ drop (activeLen e) (eacc e);
     activeLen := 0; eic := eic e; paritySent := paritySent e; multipath := multipath e; armed := armed e;
     lastSeq := lastSeq e; controlGeneration := controlGeneration e; control := control e |}.

Definition set_paths (mp ar : bool) (e : fecEncoder) : fecEncoder :=
  {| ek := ek e; seqs := seqs e; elens := elens e; eacc := eacc e; activeLen := activeLen e; eic := eic e;
     paritySent := paritySent e; multipath := mp; armed := ar; lastSeq := lastSeq e;
     controlGeneration := controlGeneration e; control := control e |}.

Definition setPhysicalPathCount (paths : Z) (e : fecEncoder) : fecEncoder :=
  let mp := 2 <=? paths in
  if Bool.eqb mp (multipath e) then e else
  let firstSeq := if negb (lastSeq e =? 2 ^ 32 - 1) then u32 (lastSeq e + 1) else 0 in
  if negb mp then
    let hadTraffic := negb (lastSeq e =? 0) || negb (length (seqs e) =? 0)%nat in
    let boundary := match seqs e with s :: _ => s | [] => fecGroupStart firstSeq (ek e) end in
    let e := set_paths false (armed e) e in
    let e := if negb (length (seqs e) =? 0)%nat || negb (activeLen e =? 0)%nat then enc_reset e else e in
    let e := set_paths false false e in
    if hadTraffic then publishModeControl fecControlSuspend boundary e else e
  else
    let e := set_paths true false e in
    if controlGeneration e =? 0 then e else
    let boundary := fecNextGroupStart firstSeq (ek e) in
    if negb (boundary =? 0) then publishModeControl fecControlResume boundary e else e.

(** buildParity: [kind | groupStart | K | K lengths | XOR payload, sealed].  The
    room for the tag comes from the pool; the seal overwrites all of it. *)
Definition buildParity (e : fecEncoder) : bytes :=
  let maxLen := activeLen e in
  let tag := tagLen (eic e) in
  let s0 := hd 0 (seqs e) in
  u8 controlKindFECParity :: be_enc 4 s0 ++ u8 (lenZ (elens e)) ::
  concat ((fun l => be_enc 4 (u32 (Z.of_nat l))) <$> elens e) ++
  (sealInPlaceWithScratch (eic e) (take maxLen (eacc e) ++ zeros tag) maxLen s0 (u32 (Z.of_nat (maxLen + tag)))).1.

Definition flushLocked (e : fecEncoder) : fecEncoder * bytes :=
  let parity := buildParity e in
  let e := {| ek := ek e; seqs := seqs e; elens := elens e; eacc := eacc e; activeLen := activeLen e; eic := eic e;
              paritySent := u64 (paritySent e + 1); multipath := multipath e; armed := armed e; lastSeq := lastSeq e;
              controlGeneration := controlGeneration e; control := control e |} in
  (enc_reset e, parity).

(** The accumulation of one member (the second half of add). *)
Definition enc_push (vf : VPNFrame) (e : fecEncoder) : fecEncoder :=
  let n := length (Data vf) in
  let acc := if (length (eacc e) <? n)%nat then grow_to n (eacc e) else eacc e in
  {| ek := ek e; seqs := seqs e ++ [Seq vf]; elens := elens e ++ [n]; eacc := xor_prefix acc (Data vf);
     activeLen := if (activeLen e <? n)%nat then n else activeLen e; eic := eic e;
     paritySent := paritySent e; multipath := multipath e; armed := armed e; lastSeq := lastSeq e;
     controlGeneration := controlGeneration e; control := control e |}.

Definition set_last (q : Z) (e : fecEncoder) : fecEncoder :=
  {| ek := ek e; seqs := seqs e; elens := elens e; eacc := eacc e; activeLen := activeLen e; eic := eic e;
     paritySent := paritySent e; multipath := multipath e; armed := armed e; lastSeq := q;
     controlGeneration := controlGeneration e; control := control e |}.

Definition enc_add (vf : VPNFrame) (e : fecEncoder) : fecEncoder * option bytes :=
  if (length (Data vf) =? 0)%nat then (e, None) else
  let e := if negb (Seq vf =? 0) then set_last (Seq vf) e else e in
  if negb (multipath e) then (e, None) else
  if negb (armed e) && ((Seq vf =? 0) || negb (u32 (Seq vf - 1) mod ek e =? 0)) then (e, None) else
  let e := enc_push vf (set_paths (multipath e) true e) in
  if (length (seqs e) <? Z.to_nat (ek e))%nat then (e, None) else
  let '(e, parity) := flushLocked e in (e, Some parity).

(** ** The sender's run: topology changes and data frames in the order the
    scheduler feeds them, with the frames numbered 1, 2, ... *)

Inductive encEvent := EvPaths (n : Z) | EvFrame (d : bytes).

Record encRun := mkRun {
  renc : fecEncoder;
  rdata : list bytes;                    (* payloads of the frames 1 .. n *)
  rparity : list (Z * bytes);            (* group start and parity payload, in order *)
  rfence : fecRXFenceState               (* a receiver that applied every control *)
}.

Definition run0 (k : Z) (ic : option innerCipher) : encRun := mkRun (newFECEncoder k ic) [] [] fence0.

Definition applyPublished (old new : fecEncoder) (f : fecRXFenceState) : fecRXFenceState :=
  if controlGeneration old =? controlGeneration new then f
  else match currentModeControl new with Some c => (fence_Apply c f).1 | None => f end.

Definition encStep (r : encRun) (ev : encEvent) : encRun :=
  match ev with
  | EvPaths n =>
    let e := setPhysicalPathCount n (renc r) in
    mkRun e (rdata r) (rparity r) (applyPublished (renc r) e (rfence r))
  | EvFrame d =>
    let q := lenZ (rdata r) + 1 in
    let '(e, p) := enc_add (mkFrame q d) (renc r) in
    mkRun e (rdata r ++ [d])
      (match p with Some b => rparity r ++ [(q - ek (renc r) + 1, b)] | None => rparity r end) (rfence r)
  end.

Definition encExec (k : Z) (ic : option innerCipher) (evs : list encEvent) : encRun :=
  fold_left encStep evs (run0 k ic).

(** Events the port can produce: non-empty frames, fewer of them than sequence
    numbers. *)
Definition okEvent (ev : encEvent) : Prop := match ev with EvPaths _ => True | EvFrame d => d <> [] end.
Definition isFrame (ev : encEvent) : bool := match ev with EvFrame _ => true | _ => false end.
Definition okEvents (evs : list encEvent) : Prop :=
  Forall okEvent evs /\ lenZ (filter isFrame evs) < 2 ^ 32 /\ lenZ evs < 2 ^ 64 - 1.

(** ** Specification of a parity payload *)

(** The parity control of the group of [ms] that starts at [s]. *)
Definition parityPayload (ic : option innerCipher) (s : Z) (ms : list bytes) : bytes :=
  let mx := max_len ms in
  let tag := tagLen ic in
  u8 controlKindFECParity :: be_enc 4 s ++ u8 (lenZ ms) ::
  concat ((fun m => be_enc 4 (u32 (lenZ m))) <$> ms) ++
  (sealInPlaceWithScratch ic (xor_list mx ms ++ zeros tag) mx s (u32 (Z.of_nat (mx + tag)))).1.

(** The encoder holds the group [cur] that follows the frames [pre]. *)
Record enc_holds (K : Z) (ic : option innerCipher) (pre cur : list bytes) (e : fecEncoder) : Prop := {
  h_k : ek e = K;
  h_ic : eic e = ic;
  h_last : lastSeq e = lenZ pre + lenZ cur;
  h_seqs : seqs e = seqZ (lenZ pre + 1) (lenZ cur);
  h_lens : elens e = length <$> cur;
  h_active : activeLen e = max_len cur;
  h_acc : forall i, byte_at i (eacc e) = xor_at i cur;
  h_cap : (max_len cur <= length (eacc e))%nat;
  h_short : lenZ cur < K;
  h_cur : cur <> [] -> armed e = true;
  h_mp : armed e = true -> multipath e = true;
  h_armed : armed e = true -> aligned K (lenZ pre + 1)
}.

Section Encoder.
Variables (K : Z) (ic : option innerCipher).
Hypothesis HK : 2 <= K <= 64.

Lemma buildParity_spec (pre cur : list bytes) e :
  cur <> [] -> ek e = K -> eic e = ic -> seqs e = seqZ (lenZ pre + 1) (lenZ cur) ->
  elens e = length <$> cur -> activeLen e = max_len cur ->
  (forall i, byte_at i (eacc e) = xor_at i cur) -> (max_len cur <= length (eacc e))%nat ->
  buildParity e = parityPayload ic (lenZ pre + 1) cur.
Proof using.
  intros Hne _ Hic Hs Hl Ha Hacc Hcap. unfold buildParity, parityPayload.
  rewrite Hic, Hs, Hl, Ha. destruct cur as [|c cur]; [done|].
  assert (hd 0 (seqZ (lenZ pre + 1) (lenZ (c :: cur))) = lenZ pre + 1) as ->.
  { unfold lenZ at 2. cbn [length]. rewrite Nat2Z.inj_succ, seqZ_cons by lia. done. }
  rewrite (take_xor_list _ _ (c :: cur)) by auto.
  do 4 f_equal. f_equal.
  - unfold lenZ. by rewrite length_fmap.
  - f_equal. by rewrite <- list_fmap_compose.
Qed.

(** reset clears the touched prefix, which is all that is not zero. *)
Lemma reset_zero e cur :
  activeLen e = max_len cur -> (forall i, byte_at i (eacc e) = xor_at i cur) ->
  forall i, byte_at i (eacc (enc_reset e)) = 0.
Proof using.
  intros Ha Hacc i. cbn [enc_reset eacc]. rewrite Ha.
  destruct (decide (i < max_len cur)%nat) as [Hi|Hi].
  - unfold byte_at. rewrite app_nth1 by (unfold zeros; rewrite length_replicate; lia).
    apply (byte_at_zeros i).
  - rewrite byte_at_lookup, lookup_app_r by (unfold zeros; rewrite length_replicate; lia).
    unfold zeros. rewrite length_replicate, lookup_drop, Nat.add_comm, Nat.sub_add, <- byte_at_lookup by lia.
    rewrite Hacc. apply xor_at_overflow. lia.
Qed.

Lemma push_acc n d acc cur :
  n = length d -> (forall i, byte_at i acc = xor_at i cur) ->
  let acc' := if (length acc <? n)%nat then grow_to n acc else acc in
  (forall i, byte_at i (xor_prefix acc' d) = xor_at i (cur ++ [d])) /\
  length (xor_prefix acc' d) = max (length acc) (length d).
Proof using.
  intros -> Hacc acc'. assert (length acc' = max (length acc) (length d) /\ forall i, byte_at i acc' = byte_at i acc) as [Hl Hb].
  { unfold acc'. case_match eqn:E; [apply Nat.ltb_lt in E|apply Nat.ltb_ge in E; by split; [lia|]].
    split; [rewrite length_grow_to; lia|]. intros i. apply byte_at_grow_to. }
  split; [intros i|]; rewrite ?byte_at_xor_prefix, ?length_xor_prefix by lia; [|done].
  by rewrite Hb, Hacc, xor_at_snoc.
Qed.

Definition sameControl (e e' : fecEncoder) : Prop :=
  controlGeneration e' = controlGeneration e /\ control e' = control e /\ multipath e' = multipath e.

Lemma enc_push_holds pre cur e d :
  enc_holds K ic pre cur e -> lenZ cur + 1 < K -> armed e = true ->
  enc_holds K ic pre (cur ++ [d]) (enc_push (mkFrame (lenZ pre + lenZ cur + 1) d) (set_last (lenZ pre + lenZ cur + 1) e)).
Proof using HK.
  intros [] Hlt Harm. destruct (push_acc (length d) d (eacc e) cur eq_refl h_acc0) as [A1 A2].
  constructor; cbn [enc_push set_last ek eic lastSeq seqs elens activeLen eacc armed multipath Seq Data]; auto.
  - unfold lenZ. rewrite length_app. simpl. lia.
  - unfold lenZ in *. rewrite h_seqs0, length_app, Nat2Z.inj_add, seqZ_app by lia. f_equal.
    cbn [length]. change (Z.of_nat 1) with 1. rewrite seqZ_cons by lia. f_equal. lia.
  - by rewrite h_lens0, fmap_app.
  - by rewrite h_active0, max_len_snoc, if_ltb_max.
  - rewrite A2, max_len_snoc. lia.
  - unfold lenZ in *. rewrite length_app. simpl. lia.
Qed.

Lemma flush_holds pre cur e d :
  enc_holds K ic pre cur e -> d <> [] -> lenZ cur + 1 = K -> armed e = true ->
  let e1 := enc_push (mkFrame (lenZ pre + lenZ cur + 1) d) (set_last (lenZ pre + lenZ cur + 1) e) in
  Some (buildParity e1) = Some (parityPayload ic (lenZ pre + 1) (cur ++ [d])) /\
  enc_holds K ic (pre ++ cur ++ [d]) [] (flushLocked e1).1.
Proof using HK.
  intros [] Hd Hlen Harm e1. destruct (push_acc (length d) d (eacc e) cur eq_refl h_acc0) as [A1 A2].
  assert (activeLen e1 = max_len (cur ++ [d])) as Ha.
  { unfold e1. cbn [enc_push set_last activeLen Data]. by rewrite h_active0, max_len_snoc, if_ltb_max. }
  split.
  - f_equal. apply buildParity_spec; auto.
    + by destruct cur.
    + unfold e1. cbn [enc_push set_last seqs Seq]. unfold lenZ in *.
      rewrite h_seqs0, length_app, Nat2Z.inj_add, seqZ_app by lia. f_equal.
      cbn [length]. change (Z.of_nat 1) with 1. rewrite seqZ_cons by lia. f_equal. lia.
    + unfold e1. cbn [enc_push set_last elens Data]. by rewrite h_lens0, fmap_app.
    + unfold e1. cbn [enc_push set_last eacc Data]. rewrite A2, max_len_snoc. lia.
  - set (e2 := (flushLocked e1).1). assert (forall i, byte_at i (eacc e2) = 0) as Hz.
    { intros i. apply (reset_zero e1 (cur ++ [d])); auto. }
    constructor; cbn [e2 fst flushLocked enc_reset e1 enc_push set_last ek eic lastSeq seqs elens activeLen armed multipath]; auto.
    + unfold lenZ. rewrite !length_app. simpl. lia.
    + simpl. lia.
    + unfold lenZ. simpl. lia.
    + intros _. unfold aligned in *. specialize (h_armed0 Harm). unfold lenZ in *. rewrite !length_app. cbn [length].
      replace (_ + 1 - 1) with ((Z.of_nat (length pre) + 1 - 1) + 1 * K) by lia.
      rewrite Z.mod_add by lia. done.
Qed.

(** An armed encoder takes the frame; the K-th member closes the group. *)
Lemma enc_add_armed pre cur e d :
  enc_holds K ic pre cur e -> d <> [] -> 0 <= lenZ pre + lenZ cur + 1 < 2 ^ 32 -> armed e = true ->
  let '(e', p) := enc_add (mkFrame (lenZ pre + lenZ cur + 1) d) e in
  sameControl e e' /\ armed e' = true /\
  if lenZ cur + 1 <? K then p = None /\ enc_holds K ic pre (cur ++ [d]) e'
  else p = Some (parityPayload ic (lenZ pre + 1) (cur ++ [d])) /\ enc_holds K ic (pre ++ cur ++ [d]) [] e'.
Proof using HK.
  intros H Hd Hq Harm. pose proof (h_mp _ _ _ _ _ H Harm) as Hmp.
  set (q := lenZ pre + lenZ cur + 1) in *. unfold enc_add. cbn [Seq Data].
  destruct (length d =? 0)%nat eqn:E0; [by apply Nat.eqb_eq, length_zero_iff_nil in E0|].
  destruct (q =? 0) eqn:Eq; [unfold q, lenZ in *; lia|]. cbn [negb].
  cbn [set_last multipath armed]. rewrite Hmp, Harm. cbn [negb andb].
  replace (set_paths true true (set_last q e)) with (set_last q e) by (unfold set_paths, set_last; destruct e; simpl in *; by subst).
  set (e1 := enc_push _ _).
  assert (length (seqs e1) = length cur + 1)%nat as HL.
  { unfold e1. cbn [enc_push seqs set_last Seq]. rewrite (h_seqs _ _ _ _ _ H), length_app.
    rewrite length_seqZ. unfold lenZ. simpl. lia. }
  rewrite HL. assert (ek e1 = K) as -> by exact (h_k _ _ _ _ _ H).
  destruct (lenZ cur + 1 <? K) eqn:EK.
  - apply Z.ltb_lt in EK. destruct (_ <? _)%nat eqn:EL; [|apply Nat.ltb_ge in EL; unfold lenZ in *; lia].
    split; [done|]. split; [done|]. split; [done|]. by apply enc_push_holds.
  - apply Z.ltb_ge in EK. destruct (_ <? _)%nat eqn:EL; [apply Nat.ltb_lt in EL; unfold lenZ in *; lia|]. cbn [flushLocked].
    split; [done|]. split; [done|]. apply (flush_holds pre cur e d H Hd); [|done].
    pose proof (h_short _ _ _ _ _ H). lia.
Qed.

(** An encoder that is not armed waits for a group boundary. *)
Lemma enc_add_idle pre e d :
  enc_holds K ic pre [] e -> d <> [] -> lenZ pre + 1 < 2 ^ 32 -> armed e = false ->
  let '(e', p) := enc_add (mkFrame (lenZ pre + 1) d) e in
  sameControl e e' /\ p = None /\
  if multipath e && bool_decide (aligned K (lenZ pre + 1))
  then enc_holds K ic pre [d] e' /\ armed e' = true
  else enc_holds K ic (pre ++ [d]) [] e' /\ armed e' = false.
Proof using HK.
  intros H Hd Hq Harm. set (q := lenZ pre + 1) in *.
  assert (0 < q) as Hq0 by (unfold q, lenZ; lia).
  assert (enc_holds K ic (pre ++ [d]) [] (set_last q e)) as Hskip.
  { destruct H. constructor; cbn [set_last ek eic lastSeq seqs elens activeLen eacc armed multipath]; auto.
    - unfold q, lenZ. rewrite length_app. simpl. lia.
    - congruence. }
  unfold enc_add. cbn [Seq Data].
  destruct (length d =? 0)%nat eqn:E0; [by apply Nat.eqb_eq, length_zero_iff_nil in E0|].
  destruct (q =? 0) eqn:Eq; [lia|]. cbn [negb orb]. cbn [set_last multipath armed].
  destruct (multipath e) eqn:Hmp; cbn [negb andb].
  2:{ split; [done|]. split; [done|]. split; [exact Hskip|done]. }
  rewrite Harm. cbn [negb andb]. change (ek (set_last q e)) with (ek e).
  rewrite (h_k _ _ _ _ _ H), u32_small by (widths; lia).
  rewrite (bool_decide_ext _ (((q - 1) mod K) = 0)) by done.
  destruct (Z.eqb_spec ((q - 1) mod K) 0) as [Ea|Ea]; cbn [negb].
  2:{ rewrite bool_decide_false by done. split; [done|]. split; [done|]. split; [exact Hskip|done]. }
  rewrite bool_decide_true by done.
  assert (enc_holds K ic pre [] (set_paths true true e)) as H1.
  { destruct H. constructor; cbn [set_paths ek eic lastSeq seqs elens activeLen eacc armed multipath]; auto. }
  pose proof (enc_push_holds pre [] (set_paths true true e) d H1 ltac:(unfold lenZ; simpl; lia) eq_refl) as HP.
  replace (lenZ pre + lenZ (@nil bytes) + 1) with q in HP by (unfold q, lenZ; simpl; lia).
  set (e1 := enc_push _ _). assert (length (seqs e1) = 1%nat) as ->.
  { unfold e1. cbn [enc_push set_paths set_last seqs]. by rewrite (h_seqs _ _ _ _ _ H). }
  change (ek e1) with (ek e). rewrite (h_k _ _ _ _ _ H).
  destruct (_ <? _)%nat eqn:EL; [|apply Nat.ltb_ge in EL; lia].
  split; [done|]. split; [done|]. split; [exact HP|done].
Qed.

(** ** Topology changes *)

(** A topology change never touches a complete group; what it publishes. *)
Lemma paths_same n e : (2 <=? n) = multipath e -> setPhysicalPathCount n e = e.
Proof using. intros H. unfold setPhysicalPathCount. by rewrite H, eqb_reflx. Qed.

Lemma enc_holds_idle pre cur e mp :
  enc_holds K ic pre cur e -> (mp = false \/ cur = []) ->
  enc_holds K ic (pre ++ cur) []
    (set_paths mp false (if negb (length (seqs e) =? 0)%nat || negb (activeLen e =? 0)%nat then enc_reset e else e)).
Proof using HK.
  intros [] _.
  assert (forall e', e' = (if negb (length (seqs e) =? 0)%nat || negb (activeLen e =? 0)%nat then enc_reset e else e) ->
    ek e' = K /\ eic e' = ic /\ lastSeq e' = lastSeq e /\ seqs e' = [] /\ elens e' = [] /\ activeLen e' = 0%nat /\
    forall i, byte_at i (eacc e') = 0) as Hr.
  { intros e' ->. destruct (_ || _) eqn:E.
    - repeat split; try done. by apply (reset_zero e cur).
    - rewrite orb_false_iff, !negb_false_iff, !Nat.eqb_eq in E. destruct E as [E1 E2].
      assert (cur = []) as -> by (destruct cur; [done|]; rewrite h_seqs0, length_seqZ in E1; unfold lenZ in E1; simpl in E1; lia).
      repeat split; auto. }
  destruct (Hr _ eq_refl) as (R1 & R2 & R3 & R4 & R5 & R6 & R7).
  constructor; cbn [set_paths ek eic lastSeq seqs elens activeLen eacc armed multipath]; auto; try congruence.
  - rewrite R3, h_last0. unfold lenZ. rewrite length_app. simpl. lia.
  - simpl. lia.
  - unfold lenZ. simpl. lia.
Qed.

Lemma publish_holds pre cur e op b : enc_holds K ic pre cur e -> enc_holds K ic pre cur (publishModeControl op b e).
Proof using. intros []. unfold publishModeControl. case_match; constructor; auto. Qed.

(** The sequence number the next frame gets, 0 at the end of the epoch. *)
Definition firstSeqOf (e : fecEncoder) : Z := if negb (lastSeq e =? 2 ^ 32 - 1) then u32 (lastSeq e + 1) else 0.

(** Two paths or more drop to one: the open group is abandoned and, after any
    traffic, SUSPEND names its start (or the group of the next frame). *)
Definition downState (e : fecEncoder) : fecEncoder :=
  set_paths false false (if negb (length (seqs e) =? 0)%nat || negb (activeLen e =? 0)%nat then enc_reset e else e).

Lemma setPaths_down pre cur e n :
  enc_holds K ic pre cur e -> multipath e = true -> (2 <=? n) = false ->
  setPhysicalPathCount n e =
    if lenZ pre + lenZ cur =? 0 then downState e
    else publishModeControl fecControlSuspend
           (if decide (cur = []) then fecGroupStart (firstSeqOf e) K else lenZ pre + 1) (downState e).
Proof using.
  intros [] Hm Hn. unfold setPhysicalPathCount. rewrite Hn, Hm. cbn [Bool.eqb negb]. fold (firstSeqOf e).
  assert (forall e0, e0 = e -> set_paths false false
    (if negb (length (seqs (set_paths false (armed e) e0)) =? 0)%nat || negb (activeLen (set_paths false (armed e) e0) =? 0)%nat
     then enc_reset (set_paths false (armed e) e0) else set_paths false (armed e) e0) = downState e) as ->.
  { intros e0 ->. unfold downState. cbn [set_paths seqs activeLen]. by destruct (_ || _). }
  2:{ done. }
  assert (negb (lastSeq e =? 0) || negb (length (seqs e) =? 0)%nat = negb (lenZ pre + lenZ cur =? 0)) as ->.
  { rewrite h_last0. destruct (Z.eqb_spec (lenZ pre + lenZ cur) 0) as [E|]; [|done].
    rewrite h_seqs0, length_seqZ. unfold lenZ in *. destruct cur; [done|simpl in E; lia]. }
  destruct (_ =? 0) eqn:E0; [done|]. cbn [negb]. f_equal. rewrite h_seqs0, h_k0.
  destruct cur as [|c cur]; [done|]. rewrite decide_False by done.
  unfold lenZ at 2. cbn [length]. by rewrite Nat2Z.inj_succ, seqZ_cons by lia.
Qed.

(** Back to two paths: RESUME names the next complete group. *)
Lemma setPaths_up pre e n :
  enc_holds K ic pre [] e -> multipath e = false -> (2 <=? n) = true ->
  setPhysicalPathCount n e =
    let e1 := set_paths true false e in
    if controlGeneration e =? 0 then e1 else publishModeControl fecControlResume (fecNextGroupStart (firstSeqOf e) K) e1.
Proof using.
  intros [] Hm Hn. unfold setPhysicalPathCount. rewrite Hn, Hm. cbn [Bool.eqb negb]. fold (firstSeqOf e).
  change (controlGeneration (set_paths _ _ e)) with (controlGeneration e). change (ek (set_paths _ _ e)) with (ek e).
  rewrite h_k0. destruct (controlGeneration e =? 0); [done|].
  destruct (fecNextGroupStart (firstSeqOf e) K =? 0) eqn:E; [|done]. cbn [negb]. unfold publishModeControl. by rewrite E.
Qed.

Lemma downState_holds pre cur e : enc_holds K ic pre cur e -> enc_holds K ic (pre ++ cur) [] (downState e).
Proof using HK. intros H. apply enc_holds_idle; auto. Qed.

Lemma upState_holds pre e : enc_holds K ic pre [] e -> enc_holds K ic pre [] (set_paths true false e).
Proof using HK.
  intros []. constructor; cbn [set_paths ek eic lastSeq seqs elens activeLen eacc armed multipath]; auto.
Qed.

(** ** The invariant of a run *)

Definition parity_ok (data : list bytes) (m : Z) (sp : Z * bytes) : Prop :=
  let s := sp.1 in
  aligned K s /\ 1 <= s /\ s + K - 1 <= m /\
  sp.2 = parityPayload ic s (slice (Z.to_nat (s - 1)) (Z.to_nat (s - 1 + K)) data).

(** The fence of a receiver that applied all controls, against the groups that
    were or will be protected. *)
Record fence_ok (m : Z) (G : list Z) (e : fecEncoder) (f : fecRXFenceState) (from til : Z) : Prop := {
  f_gen : generation f = controlGeneration e;
  f_win : window f = packFECBypassWindow from til;
  f_from : is_u32 from;
  f_til : is_u32 til;
  f_nogen : controlGeneration e = 0 -> from = 0;
  f_notraffic : m = 0 -> from = 0 /\ controlGeneration e = 0;
  f_past : from <> 0 -> Forall (fun s => s + K <= from \/ til <> 0 /\ til <= s) G;
  f_open : from <> 0 -> til = 0 -> armed e = false /\
           (multipath e = true -> forall s, aligned K s -> m < s -> 2 ^ 32 <= s);
  f_closed : from <> 0 -> til <> 0 -> forall s, aligned K s -> m < s -> til <= s;
  f_single : multipath e = false ->
             controlGeneration e = 0 \/ from = 0 \/ til = 0 \/ m = 2 ^ 32 - 1
}.

(** The group start the fence is asked about is outside every bypass window. *)
Lemma fence_ok_spares m G e f from til s q :
  fence_ok m G e f from til -> s ∈ G -> s <= q < s + K -> BypassData f q = false /\ BypassParity f s = false.
Proof using HK.
  intros [] Hs Hq. unfold BypassData, BypassParity. rewrite f_win0, unpack_pack by done.
  destruct (Z.eqb_spec from 0) as [|Hf]; cbn [orb]; [by destruct (q =? 0), (s =? 0)|].
  specialize (f_past0 Hf). rewrite Forall_forall in f_past0. specialize (f_past0 s Hs).
  split.
  - destruct (q =? 0); [done|]. destruct (Z.ltb_spec q from); [done|].
    destruct (Z.eqb_spec til 0), (Z.ltb_spec q til); cbn [orb]; try done; lia.
  - destruct (s =? 0); [done|]. destruct (Z.ltb_spec s from); [done|].
    destruct (Z.eqb_spec til 0), (Z.ltb_spec s til); cbn [orb]; try done; lia.
Qed.

(** A published control reaches the fence: the new generation is accepted. *)
Lemma publish_apply op b e f :
  generation f = controlGeneration e -> 0 <= controlGeneration e < 2 ^ 64 - 1 -> b <> 0 ->
  op = fecControlSuspend \/ op = fecControlResume ->
  let e' := publishModeControl op b e in
  controlGeneration e' = controlGeneration e + 1 /\
  applyPublished e e' f = {| generation := controlGeneration e + 1;
    window := if op =? fecControlSuspend then packFECBypassWindow b 0
              else let from := fst (unpackFECBypassWindow (window f)) in
                   if (from =? 0) || (b <=? from) then 0 else packFECBypassWindow from b |}.
Proof using.
  intros Hg Hr Hb Hop. unfold publishModeControl.
  assert (negb (op =? fecControlSuspend) && negb (op =? fecControlResume) = false) as Hc by by destruct Hop as [-> | ->].
  assert ((b =? 0) = false) as Hb0 by by apply Z.eqb_neq.
  assert ((controlGeneration e + 1 =? 0) = false) as Hg0 by (apply Z.eqb_neq; lia).
  rewrite Hc, Hb0. rewrite u64_small by (widths; lia). rewrite Hg0. cbn [orb controlGeneration]. split; [done|].
  unfold applyPublished, currentModeControl. cbn [controlGeneration control Generation Boundary].
  destruct (Z.eqb_spec (controlGeneration e) (controlGeneration e + 1)); [lia|].
  rewrite Hg0, Hb0. cbn [orb]. unfold fence_Apply. cbn [Generation Op Boundary].
  rewrite Hg0, Hb0, Hc, Hg. cbn [orb].
  destruct (Z.leb_spec (controlGeneration e + 1) (controlGeneration e)); [lia|]. done.
Qed.

Record run_inv (N : Z) (r : encRun) (pre cur : list bytes) (from til : Z) : Prop := {
  r_data : rdata r = pre ++ cur;
  r_enc : enc_holds K ic pre cur (renc r);
  r_par : Forall (parity_ok (rdata r) (lenZ pre)) (rparity r);
  r_sorted : StronglySorted Z.lt (fst <$> rparity r);
  r_fence : fence_ok (lenZ pre) (fst <$> rparity r) (renc r) (rfence r) from til;
  r_gen : 0 <= controlGeneration (renc r) <= N;
  r_len : lenZ (rdata r) < 2 ^ 32
}.

Lemma parity_ok_mono data data' m m' sp :
  m <= m' -> m <= lenZ data -> parity_ok data m sp -> parity_ok (data ++ data') m' sp.
Proof using HK.
  intros Hm Hd (A & B & C & D). split; [done|]. split; [done|]. split; [lia|].
  rewrite slice_app_l; [done|]. unfold lenZ in *. lia.
Qed.

(** Time passing: more frames sent, no new control. *)
Lemma fence_ok_mono m m' G e e' f from til :
  sameControl e e' -> 0 <= m <= m' -> (m = 2 ^ 32 - 1 -> m' = m) -> (armed e' = true -> from <> 0 -> til <> 0) ->
  fence_ok m G e f from til -> fence_ok m' G e' f from til.
Proof using.
  intros (S1 & S2 & S3) Hm Hmax Harm [].
  constructor; rewrite ?S1, ?S3; auto.
  - intros ->. apply f_notraffic0. lia.
  - intros Hf Ht. destruct (f_open0 Hf Ht) as [_ Ho]. split.
    + destruct (armed e') eqn:E; [|done]. by destruct (Harm eq_refl Hf).
    + intros Hmp s Hs Hlt. apply Ho; [done..|lia].
  - intros Hf Ht s Hs Hlt. apply f_closed0; [done..|lia].
  - intros Hmp. destruct (f_single0 Hmp) as [?|[?|[?|?]]]; auto. right. right. right. rewrite Hmax; auto.
Qed.

(** The closed group joins the protected ones. *)
Lemma fence_ok_emit m G e e' f from til :
  sameControl e e' -> 0 <= m -> armed e = true -> multipath e = true -> aligned K (m + 1) ->
  fence_ok m G e f from til -> fence_ok (m + K) (G ++ [m + 1]) e' f from til.
Proof using HK.
  intros (S1 & S2 & S3) Hm Ha Hmp Hal [].
  assert (from <> 0 -> til <> 0) as Htil by (intros Hn Ht; destruct (f_open0 Hn Ht); congruence).
  constructor; rewrite ?S1, ?S3; auto.
  - lia.
  - intros Hf. apply Forall_app. split; [by apply f_past0|]. constructor; [|done].
    right. split; [by apply Htil|]. apply f_closed0; auto. lia.
  - intros Hf Ht. by destruct (Htil Hf).
  - intros Hf Ht s Hs Hlt. apply f_closed0; auto. lia.
  - congruence.
Qed.

Lemma run_emit r pre cur d data :
  data = pre ++ cur ++ [d] -> lenZ cur + 1 = K -> aligned K (lenZ pre + 1) ->
  Forall (parity_ok (pre ++ cur) (lenZ pre)) r -> StronglySorted Z.lt (fst <$> r) ->
  let r' := r ++ [(lenZ pre + 1, parityPayload ic (lenZ pre + 1) (cur ++ [d]))] in
  Forall (parity_ok data (lenZ data)) r' /\ StronglySorted Z.lt (fst <$> r').
Proof using HK.
  intros -> HK1 Hal Hpar Hsort r'. unfold r'. split.
  - apply Forall_app. split.
    + eapply Forall_impl; [exact Hpar|]. intros sp. rewrite (app_assoc pre). apply parity_ok_mono; unfold lenZ; rewrite ?length_app; lia.
    + constructor; [|done]. split; [done|]. cbn [fst snd]. unfold lenZ in *. rewrite !length_app. cbn [length].
      repeat split; try lia. f_equal. symmetry.
      replace (pre ++ cur ++ [d]) with (pre ++ (cur ++ [d]) ++ []) by by rewrite app_nil_r.
      apply slice_mid; rewrite ?length_app; cbn [length]; lia.
  - rewrite fmap_app. apply StronglySorted_app_2; [|done|repeat constructor].
    intros x y Hx Hy. apply list_elem_of_singleton in Hy as ->. cbn [fst].
    apply list_elem_of_fmap in Hx as (sp & -> & Hsp). rewrite Forall_forall in Hpar.
    destruct (Hpar sp Hsp) as (_ & _ & HH & _). lia.
Qed.

Lemma run_frame N r pre cur from til d :
  run_inv N r pre cur from til -> d <> [] -> lenZ (rdata r) + 1 < 2 ^ 32 ->
  exists pre' cur', run_inv N (encStep r (EvFrame d)) pre' cur' from til.
Proof using HK.
  intros [Hdata Henc Hpar Hsort Hf Hgen Hlen] Hd Hmax.
  assert (lenZ (rdata r) = lenZ pre + lenZ cur) as HL by (rewrite Hdata; unfold lenZ; rewrite length_app; lia).
  pose proof (Nat2Z.is_nonneg (length pre)). pose proof (Nat2Z.is_nonneg (length cur)).
  fold (lenZ pre) in *. fold (lenZ cur) in *.
  assert (lenZ (rdata r ++ [d]) < 2 ^ 32) as Hlen' by (unfold lenZ in *; rewrite length_app; simpl; lia).
  unfold encStep. rewrite HL. destruct (armed (renc r)) eqn:Harm.
  - pose proof (enc_add_armed pre cur (renc r) d Henc Hd ltac:(lia) Harm) as HA.
    destruct (enc_add _ _) as [e' p]. destruct HA as (HS & Ha & HA).
    assert (from <> 0 -> til <> 0) as Htil by (intros Hn Ht; destruct (f_open _ _ _ _ _ _ Hf Hn Ht); congruence).
    destruct (lenZ cur + 1 <? K) eqn:EK; destruct HA as [-> HA].
    + exists pre, (cur ++ [d]). constructor; cbn [renc rdata rparity rfence]; auto.
      * by rewrite Hdata, app_assoc.
      * eapply Forall_impl; [exact Hpar|]. intros sp. apply parity_ok_mono; lia.
      * apply (fence_ok_mono (lenZ pre) _ _ (renc r)); auto; lia.
      * destruct HS as (-> & _). done.
    + apply Z.ltb_ge in EK. pose proof (h_short _ _ _ _ _ Henc).
      assert (lenZ pre + lenZ cur + 1 - ek (renc r) + 1 = lenZ pre + 1) as ->.
      { rewrite (h_k _ _ _ _ _ Henc). lia. }
      pose proof (h_armed _ _ _ _ _ Henc Harm) as Hal.
      assert (lenZ (pre ++ cur ++ [d]) = lenZ pre + K) as HL' by (unfold lenZ in *; rewrite !length_app; simpl; lia).
      destruct (run_emit (rparity r) pre cur d (pre ++ cur ++ [d]) eq_refl ltac:(lia) Hal) as [E1 E2];
        [by rewrite <- Hdata|done|].
      exists (pre ++ cur ++ [d]), []. constructor; cbn [renc rdata rparity rfence]; auto.
      * by rewrite Hdata, app_nil_r, app_assoc.
      * by rewrite Hdata, <- app_assoc.
      * rewrite HL', fmap_app. apply (fence_ok_emit (lenZ pre) _ (renc r)); auto.
        by apply (h_mp _ _ _ _ _ Henc).
      * destruct HS as (-> & _). done.
  - assert (cur = []) as -> by (destruct cur; [done|]; by rewrite (h_cur _ _ _ _ _ Henc) in Harm).
    rewrite app_nil_r in Hdata. assert (lenZ (@nil bytes) = 0) as H00 by done. rewrite H00, Z.add_0_r in *.
    pose proof (enc_add_idle pre (renc r) d Henc Hd ltac:(lia) Harm) as HA.
    destruct (enc_add _ _) as [e' p]. destruct HA as (HS & -> & HA).
    assert (Forall (parity_ok (rdata r ++ [d]) (lenZ (pre ++ [d]))) (rparity r) /\
            Forall (parity_ok (rdata r ++ [d]) (lenZ pre)) (rparity r)) as [HP1 HP2].
    { split; (eapply Forall_impl; [exact Hpar|]); intros sp; apply parity_ok_mono; unfold lenZ in *; rewrite ?length_app; lia. }
    destruct (multipath (renc r) && _) eqn:EM; destruct HA as [HA Ha].
    + apply andb_prop in EM as [EM Hal]. apply bool_decide_eq_true in Hal.
      exists pre, [d]. constructor; cbn [renc rdata rparity rfence]; auto; [by rewrite Hdata| |by destruct HS as (-> & _)].
      apply (fence_ok_mono (lenZ pre) _ _ (renc r)); auto; [lia|]. intros _ Hn Ht.
      destruct (f_open _ _ _ _ _ _ Hf Hn Ht) as [_ Ho]. specialize (Ho EM _ Hal ltac:(lia)). lia.
    + exists (pre ++ [d]), []. constructor; cbn [renc rdata rparity rfence]; auto;
        [by rewrite Hdata, app_nil_r| |by destruct HS as (-> & _)].
      apply (fence_ok_mono (lenZ pre) _ _ (renc r)); auto; [|lia|congruence].
      unfold lenZ. rewrite length_app. lia.
Qed.

(** With no window in force the fence asks for nothing. *)
Lemma fence_ok_none m G e f til :
  generation f = controlGeneration e -> window f = packFECBypassWindow 0 til -> is_u32 til ->
  (m = 0 -> controlGeneration e = 0) -> fence_ok m G e f 0 til.
Proof using HK. intros. constructor; auto; try done; widths; lia. Qed.

Lemma fence_suspend m e e' G b :
  is_u32 b -> b <> 0 -> controlGeneration e' = controlGeneration e + 1 -> 0 <= controlGeneration e ->
  0 < m -> armed e' = false -> multipath e' = false -> Forall (fun s => s + K <= b) G ->
  fence_ok m G e' {| generation := controlGeneration e + 1; window := packFECBypassWindow b 0 |} b 0.
Proof using HK.
  intros Hb Hb0 Hg Hg0 Hm Ha Hmp HG. constructor; auto; try lia; try done.
  - intros _. eapply Forall_impl; [exact HG|]. tauto.
  - intros _ _. split; [done|congruence].
Qed.

(** SUSPEND's boundary is behind every group closed so far. *)
Lemma suspend_boundary pre cur e data (G : list (Z * bytes)) :
  enc_holds K ic pre cur e -> lenZ pre + lenZ cur < 2 ^ 32 ->
  Forall (parity_ok data (lenZ pre)) G ->
  let b := if decide (cur = []) then fecGroupStart (firstSeqOf e) K else lenZ pre + 1 in
  is_u32 b /\ (b = 0 -> lenZ pre + lenZ cur = 2 ^ 32 - 1) /\
  (b <> 0 -> Forall (fun s => s + K <= b) (fst <$> G)).
Proof using HK.
  intros [] Hlt HG b. unfold b. pose proof (Nat2Z.is_nonneg (length pre)). pose proof (Nat2Z.is_nonneg (length cur)).
  fold (lenZ pre) in *. fold (lenZ cur) in *. destruct (decide (cur = [])) as [->|Hc].
  - unfold firstSeqOf. rewrite h_last0. assert (lenZ (@nil bytes) = 0) as H00 by done. rewrite H00, Z.add_0_r in *.
    destruct (Z.eqb_spec (lenZ pre) (2 ^ 32 - 1)); cbn [negb]; [by repeat split; try (widths; lia)|].
    rewrite u32_small by (widths; lia).
    destruct (fecGroupStart_spec (lenZ pre + 1) K HK ltac:(lia)) as (Ha & Hp & Hr).
    split; [widths; lia|]. split; [lia|]. intros _. apply Forall_fmap. eapply Forall_impl; [exact HG|].
    intros [s p] (A & B & C & _). cbn [compose fst] in *.
    destruct (decide (s + K <= fecGroupStart (lenZ pre + 1) K)); [done|].
    assert (aligned K (s + K)) as A'.
    { unfold aligned in *. replace (s + K - 1) with (s - 1 + 1 * K) by lia. by rewrite Z.mod_add by lia. }
    pose proof (aligned_lt K _ (s + K) ltac:(lia) Ha A' ltac:(lia)). lia.
  - split; [|split]; [|lia|].
    + destruct cur; [done|]. unfold lenZ in *. cbn [length] in *. widths. lia.
    + intros _. apply Forall_fmap. eapply Forall_impl; [exact HG|].
      intros [s p] (A & B & C & _). cbn [compose fst] in *. lia.
Qed.

Lemma run_paths_intro N r pre cur from til n e' from' til' :
  run_inv N r pre cur from til -> setPhysicalPathCount n (renc r) = e' ->
  enc_holds K ic (pre ++ cur) [] e' -> 0 <= controlGeneration e' <= N + 1 ->
  fence_ok (lenZ (pre ++ cur)) (fst <$> rparity r) e' (applyPublished (renc r) e' (rfence r)) from' til' ->
  run_inv (N + 1) (encStep r (EvPaths n)) (pre ++ cur) [] from' til'.
Proof using HK.
  intros [Hdata Henc Hpar Hsort Hf Hgen Hlen] He HD Hg' HF'. unfold encStep. rewrite He.
  constructor; cbn [renc rdata rparity rfence]; auto.
  - by rewrite app_nil_r.
  - eapply Forall_impl; [exact Hpar|]. intros sp HH. rewrite <- (app_nil_r (rdata r)). revert HH.
    apply parity_ok_mono; rewrite ?app_nil_r, ?Hdata; unfold lenZ; rewrite ?length_app; lia.
Qed.

Lemma downState_fields e : controlGeneration (downState e) = controlGeneration e /\
  armed (downState e) = false /\ multipath (downState e) = false.
Proof using. unfold downState. by destruct (_ || _). Qed.

Lemma publish_fields op b e : armed (publishModeControl op b e) = armed e /\
  multipath (publishModeControl op b e) = multipath e.
Proof using. unfold publishModeControl. by destruct (_ || _). Qed.

Lemma applyPublished_gen e1 e2 e' f : controlGeneration e1 = controlGeneration e2 ->
  applyPublished e1 e' f = applyPublished e2 e' f.
Proof using. intros H. unfold applyPublished. by rewrite H. Qed.

Lemma applyPublished_none e e' f : controlGeneration e' = controlGeneration e -> applyPublished e e' f = f.
Proof using. intros H. unfold applyPublished. by rewrite H, Z.eqb_refl. Qed.

Lemma publish_zero op e : publishModeControl op 0 e = e.
Proof using. done. Qed.

Lemma run_down N r pre cur from til n :
  run_inv N r pre cur from til -> N < 2 ^ 64 - 1 -> multipath (renc r) = true -> (2 <=? n) = false ->
  exists from' til', run_inv (N + 1) (encStep r (EvPaths n)) (pre ++ cur) [] from' til'.
Proof using HK.
  intros Hr HN Hmp Hn. destruct (Hr) as [Hdata Henc Hpar Hsort Hf Hgen Hlen].
  assert (lenZ (pre ++ cur) = lenZ pre + lenZ cur) as HL by (unfold lenZ; rewrite length_app; lia).
  pose proof (downState_holds _ _ _ Henc) as HD.
  destruct (downState_fields (renc r)) as (D1 & D2 & D3).
  pose proof (Nat2Z.is_nonneg (length pre)). pose proof (Nat2Z.is_nonneg (length cur)).
  fold (lenZ pre) in *. fold (lenZ cur) in *. rewrite Hdata, HL in Hlen.
  destruct (suspend_boundary pre cur (renc r) (rdata r) (rparity r) Henc Hlen Hpar) as (B1 & B2 & B3).
  pose proof (setPaths_down _ _ _ _ Henc Hmp Hn) as HS. set (b := if decide _ then _ else _) in *.
  destruct (Z.eqb_spec (lenZ pre + lenZ cur) 0) as [E0|E0].
  - destruct (f_notraffic _ _ _ _ _ _ Hf ltac:(lia)) as [-> Hg0].
    exists 0, til. eapply run_paths_intro; eauto; rewrite ?D1; [lia|].
    rewrite applyPublished_none by done. destruct Hf. apply fence_ok_none; auto; congruence.
  - destruct (decide (b = 0)) as [Eb|Eb].
    + rewrite Eb, publish_zero in HS. exists from, til. eapply run_paths_intro; eauto; rewrite ?D1; [lia|].
      rewrite applyPublished_none by done. destruct Hf. specialize (B2 Eb).
      constructor; rewrite ?D1, ?D2, ?D3; auto; try done; try lia.
      intros Hfr Ht s Hs Hlt. apply f_closed0; auto. lia.
    + destruct (publish_apply fecControlSuspend b (downState (renc r)) (rfence r)) as [P1 P2];
        rewrite ?D1; auto; [apply (f_gen _ _ _ _ _ _ Hf)|lia|].
      destruct (publish_fields fecControlSuspend b (downState (renc r))) as [F1 F2].
      exists b, 0. eapply run_paths_intro; eauto; [by apply publish_holds|lia|].
      rewrite <- (applyPublished_gen (downState (renc r))) by done. rewrite P2, Z.eqb_refl.
      apply fence_suspend; auto; try lia; congruence.
Qed.

(** RESUME closes the window at the next complete group, or lifts it. *)
Lemma fence_resume m e e' G f from til b :
  fence_ok m G e f from til -> multipath e = false -> 0 < controlGeneration e -> 0 <= m < 2 ^ 32 - 1 ->
  is_u32 b -> b <> 0 -> (forall s, aligned K s -> m < s -> b <= s) ->
  controlGeneration e' = controlGeneration e + 1 -> multipath e' = true ->
  exists from' til', fence_ok m G e' {| generation := controlGeneration e + 1;
    window := let from := fst (unpackFECBypassWindow (window f)) in
              if (from =? 0) || (b <=? from) then 0 else packFECBypassWindow from b |} from' til'.
Proof using HK.
  intros [] Hmp Hg Hm Hb Hb0 Hleast Hg' Hmp'. rewrite f_win0, unpack_pack by done. cbn [fst].
  destruct (Z.eqb_spec from 0) as [|Hfr]; cbn [orb].
  { exists 0, 0. apply fence_ok_none; [done..|widths; lia|]. intros ->. by destruct (f_notraffic0 eq_refl); lia. }
  destruct (b <=? from).
  { exists 0, 0. apply fence_ok_none; [done..|widths; lia|]. intros ->. by destruct (f_notraffic0 eq_refl); lia. }
  exists from, b. constructor; auto; try lia; try congruence.
  intros _. destruct (f_single0 Hmp) as [?|[?|[->|?]]]; try lia.
  eapply Forall_impl; [by apply f_past0|]. cbn beta. intros s. lia.
Qed.

Lemma run_up N r pre from til n :
  run_inv N r pre [] from til -> N < 2 ^ 64 - 1 -> multipath (renc r) = false -> (2 <=? n) = true ->
  exists from' til', run_inv (N + 1) (encStep r (EvPaths n)) (pre ++ []) [] from' til'.
Proof using HK.
  intros Hr HN Hmp Hn. destruct (Hr) as [Hdata Henc Hpar Hsort Hf Hgen Hlen].
  rewrite app_nil_r in Hdata. rewrite Hdata in Hlen.
  pose proof (Nat2Z.is_nonneg (length pre)). fold (lenZ pre) in *.
  pose proof (upState_holds _ _ Henc) as HU. set (e1 := set_paths true false (renc r)) in *.
  pose proof (setPaths_up _ _ _ Henc Hmp Hn) as HS. cbv zeta in HS. fold e1 in HS.
  assert (firstSeqOf (renc r) = if negb (lenZ pre =? 2 ^ 32 - 1) then u32 (lenZ pre + 1) else 0) as HF.
  { unfold firstSeqOf. rewrite (h_last _ _ _ _ _ Henc). unfold lenZ at 2 4. cbn [length]. by rewrite !Z.add_0_r. }
  set (b := fecNextGroupStart (firstSeqOf (renc r)) K) in *.
  assert (is_u32 b /\ (b = 0 -> forall s, aligned K s -> lenZ pre < s -> 2 ^ 32 <= s) /\
    (b <> 0 -> lenZ pre < 2 ^ 32 - 1 /\ forall s, aligned K s -> lenZ pre < s -> b <= s)) as (B0 & B1 & B2).
  { unfold b. rewrite HF. destruct (Z.eqb_spec (lenZ pre) (2 ^ 32 - 1)) as [E|E]; cbn [negb].
    - change (fecNextGroupStart 0 K) with 0. split; [widths; lia|]. split; [lia|done].
    - rewrite u32_small by (widths; lia). split; [|split].
      + pose proof (fecNextGroupStart_spec (lenZ pre + 1) K HK ltac:(lia)). widths. lia.
      + intros Hz s Hs Hlt. by apply (fecNextGroupStart_least (lenZ pre + 1) K s HK ltac:(lia) Hs ltac:(lia)).
      + intros _. split; [lia|]. intros s Hs Hlt. apply (fecNextGroupStart_least (lenZ pre + 1) K s HK ltac:(lia) Hs ltac:(lia)). }
  clearbody b. rewrite <- (app_nil_r pre) in HU.
  destruct (Z.eqb_spec (controlGeneration (renc r)) 0) as [Eg|Eg].
  - destruct Hf. exists 0, til. eapply run_paths_intro; eauto; rewrite ?app_nil_r; [unfold e1; cbn; lia|].
    rewrite applyPublished_none by done. specialize (f_nogen0 Eg). subst from. by apply fence_ok_none.
  - destruct (decide (b = 0)) as [Eb|Eb].
    + rewrite Eb, publish_zero in HS. exists from, til. eapply run_paths_intro; eauto; [unfold e1; cbn; lia|].
      rewrite app_nil_r, applyPublished_none by done. specialize (B1 Eb). destruct Hf.
      constructor; auto; try done. all: cbn; auto; try done.
    + destruct (B2 Eb) as [B3 B4].
      destruct (publish_apply fecControlResume b e1 (rfence r)) as [P1 P2]; auto;
        [apply (f_gen _ _ _ _ _ _ Hf)|cbn; lia|].
      destruct (publish_fields fecControlResume b e1) as [F1 F2]. cbn [e1 set_paths controlGeneration multipath] in P1, F2.
      destruct (fence_resume _ (renc r) (publishModeControl fecControlResume b e1) _ _ _ _ b Hf Hmp
        ltac:(lia) ltac:(lia) B0 Eb B4 P1 F2) as (from' & til' & HF').
      exists from', til'. eapply run_paths_intro; eauto; [by apply publish_holds|lia|].
      rewrite <- (applyPublished_gen e1) by done. rewrite P2, app_nil_r. exact HF'.
Qed.

Lemma run_same N r pre cur from til n :
  run_inv N r pre cur from til -> (2 <=? n) = multipath (renc r) ->
  run_inv (N + 1) (encStep r (EvPaths n)) pre cur from til.
Proof using.
  intros [] Hn. unfold encStep. rewrite paths_same by done. rewrite applyPublished_none by done.
  destruct r. constructor; auto. cbn in *. lia.
Qed.

Lemma run_step N r pre cur from til ev :
  run_inv N r pre cur from til -> N < 2 ^ 64 - 1 -> okEvent ev ->
  lenZ (rdata r) + (if isFrame ev then 1 else 0) < 2 ^ 32 ->
  exists pre' cur' from' til', run_inv (N + 1) (encStep r ev) pre' cur' from' til'.
Proof using HK.
  intros Hr HN Hev Hlen. destruct ev as [n|d]; cbn [isFrame okEvent] in *.
  - destruct (decide ((2 <=? n) = multipath (renc r))) as [E|E].
    { do 4 eexists. by apply run_same. }
    destruct (multipath (renc r)) eqn:Hmp.
    + apply not_true_is_false in E. destruct (run_down N r _ _ _ _ n Hr HN Hmp E) as (f & t & H). eauto.
    + apply not_false_is_true in E. pose proof (r_enc _ _ _ _ _ _ Hr) as He.
      assert (cur = []) as ->.
      { destruct cur; [done|]. rewrite (h_mp _ _ _ _ _ He) in Hmp; [done|]. by apply (h_cur _ _ _ _ _ He). }
      destruct (run_up N r _ _ _ n Hr HN Hmp E) as (f & t & H). eauto.
  - destruct (run_frame N r _ _ _ _ d Hr Hev Hlen) as (p & c & []). do 4 eexists. constructor; eauto. lia.
Qed.

Lemma run_inv_init : run_inv 0 (mkRun (newFECEncoder K ic) [] [] fence0) [] [] 0 0.
Proof using HK.
  constructor; cbn; auto; try done; try (constructor; fail).
  - constructor; cbn; auto; try done. { by apply clampFecGroup_id. } { by destruct i. } { unfold lenZ; simpl; lia. }
Qed.

Lemma exec_inv N evs r pre cur from til :
  run_inv N r pre cur from til -> Forall okEvent evs -> N + lenZ evs < 2 ^ 64 ->
  lenZ (rdata r) + lenZ (filter isFrame evs) < 2 ^ 32 ->
  exists pre' cur' from' til', run_inv (N + lenZ evs) (fold_left encStep evs r) pre' cur' from' til'.
Proof using HK.
  revert N r pre cur from til. induction evs as [|ev evs IH]; intros N r pre cur from til Hr HF HN Hl.
  { do 4 eexists. unfold lenZ. cbn. rewrite Z.add_0_r. exact Hr. }
  apply Forall_cons_1 in HF as [Hev HF]. cbn [fold_left].
  assert (lenZ (ev :: evs) = 1 + lenZ evs) as HL by (unfold lenZ; simpl; lia).
  assert (lenZ (filter isFrame (ev :: evs)) = (if isFrame ev then 1 else 0) + lenZ (filter isFrame evs)) as HFl.
  { rewrite filter_cons. destruct ev; cbn [isFrame]; case_decide; try done; unfold lenZ; cbn [length]; lia. }
  pose proof (Nat2Z.is_nonneg (length evs)). pose proof (Nat2Z.is_nonneg (length (filter isFrame evs))).
  fold (lenZ evs) in *. fold (lenZ (filter isFrame evs)) in *.
  destruct (run_step N r _ _ _ _ ev Hr ltac:(lia) Hev ltac:(lia)) as (p & c & f & t & Hr').
  assert (lenZ (rdata (encStep r ev)) = lenZ (rdata r) + (if isFrame ev then 1 else 0)) as HD.
  { destruct ev; cbn [encStep isFrame]; [cbn; lia|]. destruct (enc_add _ _). cbn [rdata]. unfold lenZ. rewrite length_app. cbn. lia. }
  destruct (IH (N + 1) _ _ _ _ _ Hr' HF ltac:(lia) ltac:(lia)) as (p' & c' & f' & t' & HH).
  exists p', c', f', t'. replace (N + lenZ (ev :: evs)) with (N + 1 + lenZ evs) by lia. exact HH.
Qed.
End Encoder.

Lemma encExec_inv k ic evs : okEvents evs ->
  exists pre cur from til, run_inv (clampFecGroup k) ic (lenZ evs) (encExec k ic evs) pre cur from til.
Proof.
  intros (HF & Hl & HN). pose proof (clampFecGroup_range k) as HK.
  pose proof (exec_inv (clampFecGroup k) ic HK 0 evs _ _ _ _ _ (run_inv_init _ ic HK) HF ltac:(lia)
    ltac:(unfold lenZ at 1; simpl; lia)) as H.
  unfold encExec, run0. unfold newFECEncoder in *. rewrite (clampFecGroup_id (clampFecGroup k)) in H by done. exact H.
Qed.

(** ** Properties of the encoder *)

(** Parity content.  For every sequence of frames and topology changes, every
    parity payload the encoder emits is the parity of K consecutive frames, all of
    them already sent, that start at a group boundary (1 mod K): its header, the
    K lengths and the sealed XOR of the K payloads. *)
Theorem encoder_parity_sound (k : Z) (ic : option innerCipher) (evs : list encEvent) (s : Z) (p : bytes) :
  okEvents evs -> (s, p) ∈ rparity (encExec k ic evs) ->
  let K := clampFecGroup k in
  aligned K s /\ 1 <= s /\ s + K - 1 <= lenZ (rdata (encExec k ic evs)) /\
  p = parityPayload ic s (slice (Z.to_nat (s - 1)) (Z.to_nat (s - 1 + K)) (rdata (encExec k ic evs))).
Proof.
  intros H Hin. destruct (encExec_inv k ic evs H) as (pre & cur & from & til & []).
  rewrite Forall_forall in r_par0. destruct (r_par0 _ Hin) as (A & B & C & D). cbn [fst snd] in *.
  repeat split; auto. rewrite r_data0. unfold lenZ in *. rewrite length_app. lia.
Qed.

(** No nonce reuse in the FEC key domain.  The group start is the AEAD
    sequence number of a parity payload; over a whole epoch, topology changes
    included, the starts of the emitted parities are strictly increasing. *)
Theorem encoder_parity_starts_increase (k : Z) (ic : option innerCipher) (evs : list encEvent) :
  okEvents evs -> StronglySorted Z.lt (fst <$> rparity (encExec k ic evs)).
Proof. intros H. by destruct (encExec_inv k ic evs H) as (pre & cur & from & til & []). Qed.

(** The bypass fence is safe.  A receiver that applied every FEC_MODE control
    of the sender never bypasses a protected group: for every parity emitted so far,
    neither the parity nor any of the K members of its group is inside the bypass
    window, whatever the sequence of topology changes. *)
Theorem fence_spares_protected_groups (k : Z) (ic : option innerCipher) (evs : list encEvent) (s q : Z) (p : bytes) :
  okEvents evs -> (s, p) ∈ rparity (encExec k ic evs) -> s <= q < s + clampFecGroup k ->
  BypassData (rfence (encExec k ic evs)) q = false /\ BypassParity (rfence (encExec k ic evs)) s = false.
Proof.
  intros H Hin Hq. destruct (encExec_inv k ic evs H) as (pre & cur & from & til & []).
  eapply fence_ok_spares; [apply clampFecGroup_range|exact r_fence0| |done].
  apply list_elem_of_fmap. by exists (s, p).
Qed.


(** Completeness: on two paths or more the encoder stays armed. *)
Definition multipathEvent (ev : encEvent) : Prop := match ev with EvPaths n => 2 <= n | EvFrame d => d <> [] end.

Definition armed_inv (K : Z) (ic : option innerCipher) (r : encRun) : Prop :=
  exists pre cur, rdata r = pre ++ cur /\ enc_holds K ic pre cur (renc r) /\ armed (renc r) = true /\
                  lenZ pre = K * lenZ (rparity r).

Lemma armed_step K ic r ev : 2 <= K <= 64 -> armed_inv K ic r -> multipathEvent ev ->
  lenZ (rdata r) + (if isFrame ev then 1 else 0) < 2 ^ 32 -> armed_inv K ic (encStep r ev).
Proof.
  intros HK (pre & cur & Hd & He & Ha & Hp) Hev Hl. destruct ev as [n|d]; cbn [multipathEvent isFrame encStep] in *.
  - rewrite paths_same; [exists pre, cur; auto|]. rewrite (h_mp _ _ _ _ _ He Ha). by apply Z.leb_le.
  - assert (lenZ (rdata r) = lenZ pre + lenZ cur) as HL by (rewrite Hd; unfold lenZ; rewrite length_app; lia).
    pose proof (enc_add_armed K ic HK pre cur (renc r) d He Hev ltac:(unfold lenZ in *; lia) Ha) as HA.
    rewrite HL. destruct (enc_add _ _) as [e' p]. destruct HA as (_ & Ha' & HA).
    destruct (Z.ltb_spec (lenZ cur + 1) K) as [E|E]; destruct HA as [-> HA].
    + exists pre, (cur ++ [d]). cbn. rewrite Hd, app_assoc. auto.
    + pose proof (h_short _ _ _ _ _ He). exists (pre ++ cur ++ [d]), []. cbn [renc rdata rparity].
      split; [by rewrite Hd, app_nil_r, app_assoc|]. split; [exact HA|]. split; [exact Ha'|].
      unfold lenZ in *. rewrite !length_app. cbn [length]. lia.
Qed.

(** Every complete group is protected.  While at least two paths are
    registered, [n] frames produce exactly [n / K] parity payloads, so no complete
    group of K frames goes without parity (with [encoder_parity_sound]: the starts
    are distinct group boundaries of sent frames). *)
Theorem encoder_parity_complete (k : Z) (ic : option innerCipher) (evs : list encEvent) :
  Forall multipathEvent evs -> lenZ (filter isFrame evs) < 2 ^ 32 ->
  lenZ (rparity (encExec k ic evs)) = lenZ (rdata (encExec k ic evs)) / clampFecGroup k.
Proof.
  intros HF Hl. pose proof (clampFecGroup_range k) as HK.
  assert (armed_inv (clampFecGroup k) ic (encExec k ic evs)) as (pre & cur & Hd & He & _ & Hp).
  { assert (armed_inv (clampFecGroup k) ic (run0 k ic)) as H0.
    { exists [], []. destruct (run_inv_init (clampFecGroup k) ic HK). unfold run0, newFECEncoder in *.
      rewrite (clampFecGroup_id (clampFecGroup k)) in * by done. split; [done|]. split; [exact r_enc0|]. split; [done|]. symmetry. apply Z.mul_0_r. }
    unfold encExec. assert (lenZ (rdata (run0 k ic)) + lenZ (filter isFrame evs) < 2 ^ 32) as Hl' by (unfold lenZ at 1; cbn; lia).
    clear Hl. revert H0 Hl'. generalize (run0 k ic). induction evs as [|ev evs IH]; intros r H0 Hl'; [done|].
    apply Forall_cons_1 in HF as [Hev HF]. cbn [fold_left].
    assert (lenZ (filter isFrame (ev :: evs)) = (if isFrame ev then 1 else 0) + lenZ (filter isFrame evs)) as HFl.
    { rewrite filter_cons. destruct ev; cbn [isFrame]; case_decide; try done; unfold lenZ; cbn [length]; lia. }
    pose proof (Nat2Z.is_nonneg (length (filter isFrame evs))). fold (lenZ (filter isFrame evs)) in *.
    apply IH; auto.
    - apply armed_step; auto. lia.
    - assert (lenZ (rdata (encStep r ev)) = lenZ (rdata r) + (if isFrame ev then 1 else 0)) as ->; [|lia].
      destruct ev; cbn [encStep isFrame]; [cbn; lia|]. destruct (enc_add _ _). cbn [rdata]. unfold lenZ. rewrite length_app. cbn. lia. }
  pose proof (h_short _ _ _ _ _ He). rewrite Hd.
  assert (lenZ (pre ++ cur) = clampFecGroup k * lenZ (rparity (encExec k ic evs)) + lenZ cur) as ->.
  { unfold lenZ in *. rewrite length_app. lia. }
  rewrite Z.mul_comm, Z.div_add_l by lia. rewrite (Z.div_small (lenZ cur)) by (unfold lenZ in *; lia). lia.
Qed.

(** The controls a run publishes, in order. *)
Fixpoint published (r : encRun) (evs : list encEvent) : list fecModeControl :=
  match evs with
  | [] => []
  | ev :: evs =>
    let r' := encStep r ev in
    (if controlGeneration (renc r) =? controlGeneration (renc r') then []
     else option_list (currentModeControl (renc r'))) ++ published r' evs
  end.

(** The fence depends on seeing the controls in order.  There is a run whose
    four controls SUSPEND, RESUME, SUSPEND, RESUME reach a receiver as 1, 4, 2, 3
    (the sender puts only its latest control on each path, so a faster path can
    carry the fourth past the second and third): the receiver then refuses 2 and 3 as
    stale and bypasses a group that the sender did protect with parity. *)
Theorem fence_overtaken_bypasses_protected_group :
  exists evs c1 c2 c3 c4 s p,
    okEvents evs /\ published (run0 2 None) evs = [c1; c2; c3; c4] /\
    (s, p) ∈ rparity (encExec 2 None evs) /\
    let f := fold_left (fun f c => (fence_Apply c f).1) [c1; c4; c2; c3] fence0 in
    BypassData f s = true /\ BypassData f (s + 1) = true /\ BypassParity f s = true.
Proof.
  exists [EvFrame [1]; EvFrame [1]; EvPaths 1; EvFrame [1]; EvPaths 2; EvFrame [1]; EvFrame [1]; EvFrame [1];
          EvPaths 1; EvFrame [1]; EvPaths 2].
  do 4 eexists. exists 5. eexists. split.
  { split; [by repeat constructor|]. split; vm_compute; done. }
  split; [vm_compute; reflexivity|]. split; [vm_compute; apply list_elem_of_lookup; exists 1%nat; reflexivity|].
  vm_compute. done.
Qed.

(** ** Witnesses *)

Definition demoEvents : list encEvent :=
  [EvFrame [1; 2]; EvFrame [7]; EvPaths 1; EvFrame [3]; EvPaths 2; EvFrame [4]; EvFrame [5; 5; 5]; EvFrame [6]].

Lemma demoEvents_ok : okEvents demoEvents.
Proof. split; [by repeat constructor|]. split; vm_compute; done. Defined.

Lemma encoder_parity_sound_witness :
  (5, [1; 0; 0; 0; 5; 2; 0; 0; 0; 3; 0; 0; 0; 1; 3; 5; 5]) ∈ rparity (encExec 2 None demoEvents) /\
  aligned (clampFecGroup 2) 5.
Proof.
  assert ((5, [1; 0; 0; 0; 5; 2; 0; 0; 0; 3; 0; 0; 0; 1; 3; 5; 5]) ∈ rparity (encExec 2 None demoEvents)) as H.
  { vm_compute. right. left. }
  split; [exact H|]. apply (encoder_parity_sound 2 None demoEvents 5 _ demoEvents_ok H).
Defined.

Lemma encoder_parity_starts_increase_witness : StronglySorted Z.lt (fst <$> rparity (encExec 2 None demoEvents)).
Proof. apply (encoder_parity_starts_increase 2 None demoEvents demoEvents_ok). Defined.

Lemma fence_spares_protected_groups_witness : BypassData (rfence (encExec 2 None demoEvents)) 6 = false.
Proof.
  apply (fence_spares_protected_groups 2 None demoEvents 5 6
           [1; 0; 0; 0; 5; 2; 0; 0; 0; 3; 0; 0; 0; 1; 3; 5; 5] demoEvents_ok).
  - vm_compute. right. left.
  - vm_compute. split; discriminate || done.
Defined.

Lemma encoder_parity_complete_witness :
  lenZ (rparity (encExec 3 None [EvFrame [1]; EvPaths 3; EvFrame [2]; EvFrame [3]; EvFrame [4]])) = 1.
Proof.
  rewrite (encoder_parity_complete 3 None [EvFrame [1]; EvPaths 3; EvFrame [2]; EvFrame [3]; EvFrame [4]]).
  - reflexivity.
  - repeat constructor; done || lia.
  - vm_compute. done.
Defined.
