(* ===== verification/FecDecoder.v ===== *)
(** * FEC decoder (fec.go receiver side, rx_actor.go)

    Group states keyed by group start, the ring of finished groups, retirement by
    reorder progress, and XOR recovery.  The locked entry points deliver a recovered
    frame into the reorder buffer themselves; the actor entry points return it.  The
    reorder buffer is seen through the interface [ReorderSink]. *)

From stdpp Require Import base tactics list numbers gmap.
From S2P Require Import Prelude Aead Frame FecControl FecEncoder.
#[local] Open Scope Z_scope.

Definition fecMaxPendingGroups : nat := 512.
Definition fecDoneRing : nat := 256.
Definition fecDoneMask : Z := 255.

(** What the decoder needs of the reorder buffer: insertion of a recovered frame
    and the progress probe. *)
Class ReorderSink (W : Type) := {
  sink_insert : Z -> bytes -> W -> W;
  sink_progress : W -> Z
}.

Record fecGroupState := mkGroup {
  gstart : Z;
  gk : Z;
  glens : list Z;               (* empty for nil *)
  gotMask : Z;
  gacc : bytes;
  gparity : option bytes
}.

(** fecLifetimeCounters *)
Record lifetimeCounters := mkLife { lifeRecovered : Z; lifeLost : Z }.

Record fecDecoder := mkDecoder {
  dk : Z;
  fullMask : Z;
  dic : option innerCipher;
  staticSingle : bool;
  dfence : fecRXFenceState;
  cleanupBefore : Z;
  retiredBefore : Z;
  hasProgress : bool;            (* reorderProgress != nil *)
  hasOut : bool;                 (* out != nil *)
  groups : gmap Z fecGroupState;
  groupOrder : list Z;
  groupHead : nat;
  doneRing : list Z;
  spares : nat;                  (* length of the free list of cleared groups *)
  lifetime : option lifetimeCounters;
  recovered : Z;
  lost : Z
}.

Definition NewFECDecoder (k : Z) (ic : option innerCipher) (out : bool) : fecDecoder :=
  let k := clampFecGroup k in
  {| dk := k; fullMask := if k <? 64 then Z.shiftl 1 k - 1 else 2 ^ 64 - 1; dic := ic; staticSingle := false;
     dfence := fence0; cleanupBefore := 0; retiredBefore := 0; hasProgress := false; hasOut := out;
     groups := ∅; groupOrder := []; groupHead := 0; doneRing := zeros fecDoneRing; spares := 0;
     lifetime := None; recovered := 0; lost := 0 |}.

(** Field updates. *)
Definition set_tables (gs : gmap Z fecGroupState) (ord : list Z) (h : nat) (ring : list Z) (sp : nat) (d : fecDecoder) :=
  {| dk := dk d; fullMask := fullMask d; dic := dic d; staticSingle := staticSingle d; dfence := dfence d;
     cleanupBefore := cleanupBefore d; retiredBefore := retiredBefore d; hasProgress := hasProgress d;
     hasOut := hasOut d; groups := gs; groupOrder := ord; groupHead := h; doneRing := ring; spares := sp;
     lifetime := lifetime d; recovered := recovered d; lost := lost d |}.

Definition set_bounds (f : fecRXFenceState) (cleanup retired : Z) (single : bool) (d : fecDecoder) :=
  {| dk := dk d; fullMask := fullMask d; dic := dic d; staticSingle := single; dfence := f;
     cleanupBefore := cleanup; retiredBefore := retired; hasProgress := hasProgress d;
     hasOut := hasOut d; groups := groups d; groupOrder := groupOrder d; groupHead := groupHead d;
     doneRing := doneRing d; spares := spares d; lifetime := lifetime d; recovered := recovered d; lost := lost d |}.

Definition set_counts (life : option lifetimeCounters) (rec lst : Z) (d : fecDecoder) :=
  {| dk := dk d; fullMask := fullMask d; dic := dic d; staticSingle := staticSingle d; dfence := dfence d;
     cleanupBefore := cleanupBefore d; retiredBefore := retiredBefore d; hasProgress := hasProgress d;
     hasOut := hasOut d; groups := groups d; groupOrder := groupOrder d; groupHead := groupHead d;
     doneRing := doneRing d; spares := spares d; lifetime := life; recovered := rec; lost := lst |}.

Definition set_groups (gs : gmap Z fecGroupState) (sp : nat) (d : fecDecoder) :=
  set_tables gs (groupOrder d) (groupHead d) (doneRing d) sp d.

Definition SetReorderProgress (d : fecDecoder) : fecDecoder :=
  {| dk := dk d; fullMask := fullMask d; dic := dic d; staticSingle := staticSingle d; dfence := dfence d;
     cleanupBefore := cleanupBefore d; retiredBefore := retiredBefore d; hasProgress := true;
     hasOut := hasOut d; groups := groups d; groupOrder := groupOrder d; groupHead := groupHead d;
     doneRing := doneRing d; spares := spares d; lifetime := lifetime d; recovered := recovered d; lost := lost d |}.

Definition isStaticSinglePathTopology (configuredConns : Z) : bool := configuredConns =? 1.

Definition groupStartOf (d : fecDecoder) (seq : Z) : Z := u32 (seq - u32 (seq - 1) mod dk d).

(** releaseLocked, as far as it is visible: a cleared state goes to the free list. *)
Definition releaseLocked (n : nat) (sp : nat) : nat := min fecMaxPendingGroups (sp + n).

Definition ResetActor (d : fecDecoder) : fecDecoder :=
  set_bounds fence0 0 0 (staticSingle d)
    (set_tables ∅ [] 0 (zeros fecDoneRing) (releaseLocked (size (groups d)) (spares d)) d).

(** Reset takes the two mutexes and does the same. *)
Definition Reset (d : fecDecoder) : fecDecoder := ResetActor d.

Definition SetStaticSinglePath (single : bool) (d : fecDecoder) : fecDecoder :=
  let flag b d := set_bounds (dfence d) (cleanupBefore d) (retiredBefore d) b d in
  if negb single then flag false d
  else if staticSingle d then d
  else Reset (flag true d).

(** atomicMaxUint32 *)
Definition atomicMaxUint32 (old next : Z) : Z := if next =? 0 then old else if next <=? old then old else next.

(** ** The order queue *)

(** The number of leading entries that are no longer live. *)
Fixpoint skipDead (gs : gmap Z fecGroupState) (l : list Z) : nat :=
  match l with
  | [] => 0
  | s :: l => match gs !! s with Some _ => 0 | None => S (skipDead gs l) end
  end.

Definition pruneGroupOrderLocked (d : fecDecoder) : fecDecoder :=
  let h := (groupHead d + skipDead (groups d) (drop (groupHead d) (groupOrder d)))%nat in
  let upd ord h := set_tables (groups d) ord h (doneRing d) (spares d) d in
  if (h =? 0)%nat then upd (groupOrder d) h
  else if (h =? length (groupOrder d))%nat then upd [] 0%nat
  else if (1024 <=? Z.of_nat h) || (length (groupOrder d) <=? h * 2)%nat then upd (drop h (groupOrder d)) 0%nat
  else upd (groupOrder d) h.

(** The eviction loop: entries consumed, and the live group it stops at. *)
Fixpoint evictLoop (gs : gmap Z fecGroupState) (l : list Z) : nat * option Z :=
  match l with
  | [] => (0%nat, None)
  | s :: l => match gs !! s with
              | Some _ => (1%nat, Some s)
              | None => let '(n, r) := evictLoop gs l in (S n, r)
              end
  end.

Definition evictOldest (d : fecDecoder) : fecDecoder :=
  let '(n, r) := evictLoop (groups d) (drop (groupHead d) (groupOrder d)) in
  let gs := match r with Some s => delete s (groups d) | None => groups d end in
  let sp := match r with Some _ => releaseLocked 1 (spares d) | None => spares d end in
  set_tables gs (groupOrder d) (groupHead d + n) (doneRing d) sp d.

Definition emptyGroup (start : Z) : fecGroupState := mkGroup start 0 [] 0 [] None.

Definition newGroupLocked (start : Z) (d : fecDecoder) : fecDecoder :=
  let d := pruneGroupOrderLocked d in
  let d := if (fecMaxPendingGroups <=? size (groups d))%nat then pruneGroupOrderLocked (evictOldest d) else d in
  set_tables (<[start := emptyGroup start]> (groups d)) (groupOrder d ++ [start]) (groupHead d)
             (doneRing d) (pred (spares d)) d.

(** dropGroupsInRangeLocked and the retirement loop: release every group whose
    start satisfies [P]. *)
Definition dropWhere (P : Z -> bool) (d : fecDecoder) : fecDecoder :=
  let gs := filter (fun p => P (fst p) = false) (groups d) in
  let n := (size (groups d) - size gs)%nat in
  let d' := set_groups gs (releaseLocked n (spares d)) d in
  if (n =? 0)%nat then d' else pruneGroupOrderLocked d'.

Definition dropGroupsInRangeLocked (from til : Z) (d : fecDecoder) : fecDecoder :=
  if from =? 0 then d
  else dropWhere (fun s => negb ((s <? from) || (negb (til =? 0) && (til <=? s)))) d.

(** [prog] is the value of the progress probe when it is called. *)
Definition maybeRetireOldGroupsLocked (prog : Z) (d : fecDecoder) : fecDecoder :=
  let boundary := cleanupBefore d in
  if (boundary =? 0) || (boundary <=? retiredBefore d) || negb (hasProgress d) then d else
  if (prog =? 0) || (prog <? boundary) then d else
  dropWhere (fun s => negb (boundary <=? s)) (set_bounds (dfence d) (cleanupBefore d) boundary (staticSingle d) d).

Definition cleanupByReorderProgress (prog : Z) (d : fecDecoder) : fecDecoder :=
  let boundary := cleanupBefore d in
  if (boundary =? 0) || (boundary <=? retiredBefore d) || negb (hasProgress d) then d
  else maybeRetireOldGroupsLocked prog d.

(** handleModeControl and handleModeControlActor differ in the locks only. *)
Definition handleModeControlActor (prog : Z) (ctrl : fecModeControl) (d : fecDecoder) : fecDecoder :=
  let '(f, ok) := fence_Apply ctrl (dfence d) in
  if negb ok then d else
  let d := set_bounds f (cleanupBefore d) (retiredBefore d) (staticSingle d) d in
  let '(from, til) := fence_Window f in
  if from =? 0 then d else
  let d := set_bounds f (atomicMaxUint32 (cleanupBefore d) from) (retiredBefore d) (staticSingle d) d in
  maybeRetireOldGroupsLocked prog (dropGroupsInRangeLocked from til d).

Definition handleModeControl := handleModeControlActor.

(** ** Finished groups *)

Definition doneSlot (start : Z) : nat := Z.to_nat (Z.land start fecDoneMask).
Definition isDoneLocked (d : fecDecoder) (start : Z) : bool := nth (doneSlot start) (doneRing d) 0 =? start.
Definition markDoneLocked (start : Z) (d : fecDecoder) : fecDecoder :=
  set_tables (groups d) (groupOrder d) (groupHead d) (<[doneSlot start := start]> (doneRing d)) (spares d) d.

(** The offsets below [k] whose bit is clear, in increasing order. *)
Definition missingBits (k mask : Z) : list Z :=
  filter (fun i => Z.land mask (Z.shiftl 1 i) = 0) (Z.of_nat <$> seq 0 (Z.to_nat k)).

Definition missingCountLocked (g : fecGroupState) : Z := lenZ (missingBits (gk g) (gotMask g)).

Definition finishGroupLocked (g : fecGroupState) (d : fecDecoder) : fecDecoder :=
  let n := missingCountLocked g in
  let d := if (0 <? gk g) && bool_decide (is_Some (gparity g))
           then set_counts (option_map (fun l => mkLife (lifeRecovered l) (u64 (lifeLost l + n))) (lifetime d))
                           (recovered d) (u64 (lost d + n)) d
           else d in
  let d := markDoneLocked (gstart g) d in
  set_groups (delete (gstart g) (groups d)) (releaseLocked 1 (spares d)) d.

(** tryRecoverActor.  The loop that looks for a second missing member and returns is
    the case of two or more [missingBits]. *)
Definition tryRecoverActor (g : fecGroupState) (d : fecDecoder) : fecDecoder * option (Z * bytes) :=
  match gparity g with
  | None => (d, None)
  | Some parity =>
    if gk g =? 0 then (d, None) else
    match missingBits (gk g) (gotMask g) with
    | _ :: _ :: _ => (d, None)
    | [] => (finishGroupLocked g d, None)
    | [missing] =>
      match glens g !! Z.to_nat missing with
      | None => (finishGroupLocked g d, None)
      | Some n =>
        if Z.of_nat (length parity) <? n then (finishGroupLocked g d, None) else
        let n := Z.to_nat n in
        let acc := if (length (gacc g) <? n)%nat then grow_to n (gacc g) else gacc g in
        let rec := xor_bytes (take n parity) (take n acc) in
        let recoveredSeq := u32 (gstart g + missing) in
        let g := mkGroup (gstart g) (gk g) (glens g) (Z.lor (gotMask g) (Z.shiftl 1 missing)) acc (gparity g) in
        let d := finishGroupLocked g d in
        (set_counts (lifetime d) (u64 (recovered d + 1)) (lost d) d, Some (recoveredSeq, rec))
      end
    end
  end.

(** The member is counted into its group: everything of OnData after the guards. *)
Definition recordMember (seq : Z) (frame : bytes) (d : fecDecoder) : fecDecoder * option (Z * bytes) :=
  let start := groupStartOf d seq in
  let d := match groups d !! start with Some _ => d | None => newGroupLocked start d end in
  match groups d !! start with
  | None => (d, None)
  | Some g =>
    let mask := Z.shiftl 1 (u32 (seq - start)) in
    if negb (Z.land (gotMask g) mask =? 0) then (d, None) else
    let got := Z.lor (gotMask g) mask in
    let g1 := mkGroup (gstart g) (gk g) (glens g) got (gacc g) (gparity g) in
    if got =? fullMask d then (finishGroupLocked g1 d, None) else
    let n := length frame in
    let acc := if (length (gacc g) <? n)%nat then grow_to n (gacc g) else gacc g in
    let g2 := mkGroup (gstart g) (gk g) (glens g) got (xor_prefix acc frame) (gparity g) in
    tryRecoverActor g2 (set_groups (<[start := g2]> (groups d)) (spares d) d)
  end.

Definition retiredSeq (d : fecDecoder) (seq : Z) : bool := negb (retiredBefore d =? 0) && (seq <? retiredBefore d).

Definition OnDataActor (prog seq : Z) (frame : bytes) (d : fecDecoder) : fecDecoder * option (Z * bytes) :=
  if (length frame =? 0)%nat || (seq =? 0) || staticSingle d then (d, None) else
  if BypassData (dfence d) seq then
    (if Z.land seq 255 =? 0 then maybeRetireOldGroupsLocked prog d else d, None) else
  if retiredSeq d seq then (d, None) else
  if isDoneLocked d (groupStartOf d seq) then (d, None) else
  recordMember seq frame d.

(** The descriptor of a parity payload: the K member lengths, [None] when one of
    them does not fit the payload. *)
Definition parityLens (k : Z) (tag : nat) (payload : bytes) : option (list Z) :=
  let descLen := 6 + 4 * k in
  let lens := (fun i => be_dec (slice (6 + 4 * i) (10 + 4 * i) payload)) <$> seq 0 (Z.to_nat k) in
  if forallb (fun l => l + Z.of_nat tag <=? lenZ payload - descLen) lens then Some lens else None.

(** OnParity up to and including the recovery attempt; the flag says that the end was
    reached, where the entry points retire old groups once more. *)
Definition parityCore (prog : Z) (payload : bytes) (d : fecDecoder) : fecDecoder * option (Z * bytes) * bool :=
  if staticSingle d || (length payload <? 7)%nat || negb (byte_at 0 payload =? controlKindFECParity) then (d, None, false) else
  let start := be_dec (slice 1 5 payload) in
  let k := byte_at 5 payload in
  if (start =? 0) || negb (k =? dk d) || negb (u32 (start - 1) mod dk d =? 0) then (d, None, false) else
  let d := cleanupByReorderProgress prog d in
  if retiredSeq d start then (d, None, false) else
  let descLen := (6 + 4 * Z.to_nat k)%nat in
  let tag := tagLen (dic d) in
  if (length payload <? descLen + tag)%nat then (d, None, false) else
  match parityLens k tag payload with
  | None => (d, None, false)
  | Some lens =>
    let maxLen := Z.to_nat (foldr Z.max 0 lens) in
    if staticSingle d || retiredSeq d start || isDoneLocked d start then (d, None, false) else
    if match groups d !! start with Some g => bool_decide (is_Some (gparity g)) | None => false end then (d, None, false) else
    let d := match groups d !! start with Some _ => d | None => newGroupLocked start d end in
    match groups d !! start with
    | None => (d, None, false)
    | Some g =>
      let wireLen := u32 (Z.of_nat (maxLen + tag)) in
      match openToWithScratch (dic d) (zeros maxLen) (slice descLen (descLen + maxLen + tag) payload) start wireLen with
      | inr _ =>
        let g := mkGroup (gstart g) k [] (gotMask g) (gacc g) (gparity g) in
        (set_groups (<[start := g]> (groups d)) (spares d) d, None, false)
      | inl pb =>
        let g := mkGroup (gstart g) k lens (gotMask g) (gacc g) (Some pb) in
        (tryRecoverActor g (set_groups (<[start := g]> (groups d)) (spares d) d), true)
      end
    end
  end.

Definition OnParityActorWithScratch (prog : Z) (payload : bytes) (d : fecDecoder) : fecDecoder * option (Z * bytes) :=
  let '(d, r, fin) := parityCore prog payload d in
  (if fin then maybeRetireOldGroupsLocked prog d else d, r).

Definition OnControlActorWithScratch (prog : Z) (payload : bytes) (d : fecDecoder)
    : fecDecoder * (option (Z * bytes) + controlErr) :=
  match parseControlKind payload with
  | inr e => (d, inr e)
  | inl kind =>
    if kind =? controlKindFECParity then
      let '(d, r) := OnParityActorWithScratch prog payload d in (d, inl r)
    else if kind =? controlKindFECMode then
      match parseFECModeControl payload with
      | None => (d, inr MalformedFECMode)
      | Some ctrl => (handleModeControlActor prog ctrl d, inl None)
      end
    else (d, inr (UnsupportedKind kind))
  end.

(** ** The locked entry points *)

Section Locked.
Context {W : Type} `{ReorderSink W}.

(** The end of tryRecoverLocked: the lifetime counter and the callback. *)
Definition deliverRecovered (r : option (Z * bytes)) (dw : fecDecoder * W) : fecDecoder * W :=
  let '(d, w) := dw in
  match r with
  | None => (d, w)
  | Some (q, rec) =>
    (set_counts (option_map (fun l => mkLife (u64 (lifeRecovered l + 1)) (lifeLost l)) (lifetime d))
                (recovered d) (lost d) d,
     if hasOut d then sink_insert q rec w else w)
  end.

Definition tryRecoverLocked (g : fecGroupState) (dw : fecDecoder * W) : fecDecoder * W :=
  let '(d, r) := tryRecoverActor g dw.1 in deliverRecovered r (d, dw.2).

Definition recordMemberLocked (seq : Z) (frame : bytes) (dw : fecDecoder * W) : fecDecoder * W :=
  let '(d, r) := recordMember seq frame dw.1 in deliverRecovered r (d, dw.2).

Definition OnData (seq : Z) (frame : bytes) (dw : fecDecoder * W) : fecDecoder * W :=
  let '(d, w) := dw in
  if (length frame =? 0)%nat || (seq =? 0) then dw else
  if staticSingle d then dw else
  if BypassData (dfence d) seq then
    (if Z.land seq 255 =? 0 then cleanupByReorderProgress (sink_progress w) d else d, w) else
  if retiredSeq d seq then dw else
  if staticSingle d || BypassData (dfence d) seq || retiredSeq d seq || isDoneLocked d (groupStartOf d seq) then dw else
  recordMemberLocked seq frame dw.

(** One turn of the loop of OnDataBatch. *)
Definition batchStep (dw : fecDecoder * W) (vf : VPNFrame) : fecDecoder * W :=
  let '(d, w) := dw in
  if (length (Data vf) =? 0)%nat || (Seq vf =? 0) then dw else
  if staticSingle d then dw else
  if BypassData (dfence d) (Seq vf) then
    (if Z.land (Seq vf) 255 =? 0 then maybeRetireOldGroupsLocked (sink_progress w) d else d, w) else
  if retiredSeq d (Seq vf) then dw else
  if isDoneLocked d (groupStartOf d (Seq vf)) then dw else
  recordMemberLocked (Seq vf) (Data vf) dw.

Definition OnDataBatch (frames : list VPNFrame) (dw : fecDecoder * W) : fecDecoder * W :=
  if (length frames =? 0)%nat || staticSingle dw.1 then dw else fold_left batchStep frames dw.

Definition OnParityWithScratch (payload : bytes) (dw : fecDecoder * W) : fecDecoder * W :=
  let '(d, w) := dw in
  let '(d, r, fin) := parityCore (sink_progress w) payload d in
  let '(d, w) := deliverRecovered r (d, w) in
  (if fin then maybeRetireOldGroupsLocked (sink_progress w) d else d, w).

Definition OnControlWithScratch (payload : bytes) (dw : fecDecoder * W) : (fecDecoder * W) * option controlErr :=
  match parseControlKind payload with
  | inr e => (dw, Some e)
  | inl kind =>
    if kind =? controlKindFECParity then (OnParityWithScratch payload dw, None)
    else if kind =? controlKindFECMode then
      match parseFECModeControl payload with
      | None => (dw, Some MalformedFECMode)
      | Some ctrl => ((handleModeControl (sink_progress dw.2) ctrl dw.1, dw.2), None)
      end
    else (dw, Some (UnsupportedKind kind))
  end.
End Locked.

(** ** Tables: the order queue covers the live groups *)

Record dec_wf (d : fecDecoder) : Prop := {
  w_order : forall s, is_Some (groups d !! s) -> s ∈ drop (groupHead d) (groupOrder d);
  w_head : (groupHead d <= length (groupOrder d))%nat;
  w_size : (size (groups d) <= fecMaxPendingGroups)%nat;
  w_start : forall s g, groups d !! s = Some g -> gstart g = s;
  w_ring : length (doneRing d) = fecDoneRing
}.

(** Everything but the group tables, the ring and the counters. *)
Record same_core (d d' : fecDecoder) : Prop := {
  c_dk : dk d' = dk d; c_full : fullMask d' = fullMask d; c_ic : dic d' = dic d;
  c_single : staticSingle d' = staticSingle d; c_fence : dfence d' = dfence d;
  c_cleanup : cleanupBefore d' = cleanupBefore d; c_retired : retiredBefore d' = retiredBefore d;
  c_prog : hasProgress d' = hasProgress d; c_out : hasOut d' = hasOut d
}.
#[export] Instance same_core_pre : PreOrder same_core.
Proof. split; [by constructor|]. intros ??? [] []. constructor; congruence. Qed.

Lemma skipDead_le gs l : (skipDead gs l <= length l)%nat.
Proof. induction l as [|s l IH]; cbn; [lia|]. destruct (gs !! s); lia. Qed.

Lemma skipDead_live gs l s : is_Some (gs !! s) -> s ∈ l -> s ∈ drop (skipDead gs l) l.
Proof.
  intros [g Hg]. induction l as [|t l IH]; intros Hin; [done|]. cbn [skipDead].
  destruct (gs !! t) eqn:E; [done|]. cbn [drop]. apply IH.
  apply elem_of_cons in Hin as [->|]; [congruence|done].
Qed.

Lemma prune_spec d : dec_wf d ->
  let d' := pruneGroupOrderLocked d in
  dec_wf d' /\ groups d' = groups d /\ doneRing d' = doneRing d /\ same_core d d'.
Proof.
  intros [H1 H2 H3 H4 H5] d'. unfold d', pruneGroupOrderLocked.
  set (h := (groupHead d + _)%nat).
  assert (h <= length (groupOrder d))%nat as Hh.
  { pose proof (skipDead_le (groups d) (drop (groupHead d) (groupOrder d))) as Hl. rewrite length_drop in Hl. unfold h. lia. }
  assert (forall s, is_Some (groups d !! s) -> s ∈ drop h (groupOrder d)) as Hlive.
  { intros s Hs. unfold h. rewrite <- drop_drop. apply skipDead_live; auto. }
  repeat case_match; (split; [|by repeat split]); constructor; cbn [set_tables groups groupOrder groupHead doneRing]; auto; try lia.
  intros s Hs. specialize (Hlive s Hs).
  match goal with E : (h =? length _)%nat = true |- _ => apply Nat.eqb_eq in E; rewrite E, drop_all in Hlive end.
  by apply elem_of_nil in Hlive.
Qed.

Lemma evictLoop_live gs l s : is_Some (gs !! s) -> s ∈ l ->
  exists n t, evictLoop gs l = (S n, Some t) /\ is_Some (gs !! t) /\ (S n <= length l)%nat /\
    forall u, is_Some (gs !! u) -> u ∈ l -> u <> t -> u ∈ drop (S n) l.
Proof.
  intros Hs. induction l as [|t l IH]; intros Hin; [by apply elem_of_nil in Hin|]. cbn [evictLoop].
  destruct (gs !! t) eqn:E.
  - exists 0%nat, t. repeat split; [by rewrite E|cbn; lia|]. intros u Hu Hul Hne. cbn.
    by apply elem_of_cons in Hul as [->|].
  - apply elem_of_cons in Hin as [->|Hin]; [by destruct Hs; congruence|].
    destruct (IH Hin) as (n & t' & -> & Ht & Hn & Hrest). exists (S n), t'. repeat split; auto; [cbn; lia|].
    intros u Hu Hul Hne. apply elem_of_cons in Hul as [->|Hul]; [by destruct Hu; congruence|]. by apply Hrest.
Qed.

Lemma evict_spec d : dec_wf d -> (0 < size (groups d))%nat ->
  let d' := evictOldest d in
  dec_wf d' /\ groups d' ⊆ groups d /\ (size (groups d') < size (groups d))%nat /\
  doneRing d' = doneRing d /\ same_core d d'.
Proof.
  intros [H1 H2 H3 H4 H5] Hpos d'.
  assert (exists s, is_Some (groups d !! s)) as [s Hs].
  { destruct (map_choose (groups d)) as (s & g & E); [|by exists s; rewrite E].
    intros E. rewrite E, map_size_empty in Hpos. lia. }
  destruct (evictLoop_live (groups d) _ s Hs (H1 s Hs)) as (n & t & E & Ht & Hn & Hrest).
  rewrite length_drop in Hn. unfold d', evictOldest. rewrite E.
  assert (size (delete t (groups d)) < size (groups d))%nat as Hsz.
  { destruct Ht as [g Hg]. pose proof (map_size_delete_Some t (groups d) ltac:(by exists g)). lia. }
  split; [|split; [apply delete_subseteq|split; [exact Hsz|by repeat split]]].
  constructor; cbn [set_tables groups groupOrder groupHead doneRing]; auto; try lia.
  - intros u Hu. destruct (decide (u = t)) as [->|Hne]; [rewrite lookup_delete_eq in Hu; by destruct Hu|].
    rewrite lookup_delete_ne in Hu by done. rewrite <- drop_drop. apply Hrest; auto.
  - intros u g Hg. apply lookup_delete_Some in Hg as [_ Hg]. by apply H4.
Qed.

Lemma newGroup_spec start d : dec_wf d -> groups d !! start = None ->
  let d' := newGroupLocked start d in
  dec_wf d' /\ doneRing d' = doneRing d /\ same_core d d' /\
  exists gs, groups d' = <[start := emptyGroup start]> gs /\ gs ⊆ groups d /\
             ((size (groups d) < fecMaxPendingGroups)%nat -> gs = groups d).
Proof.
  intros Hwf Hnew d'. destruct (prune_spec d Hwf) as (W1 & G1 & R1 & C1).
  set (d1 := if (fecMaxPendingGroups <=? size (groups (pruneGroupOrderLocked d)))%nat
             then pruneGroupOrderLocked (evictOldest (pruneGroupOrderLocked d)) else pruneGroupOrderLocked d).
  assert (dec_wf d1 /\ doneRing d1 = doneRing d /\ same_core d d1 /\ groups d1 ⊆ groups d /\
    (size (groups d1) < fecMaxPendingGroups)%nat /\ ((size (groups d) < fecMaxPendingGroups)%nat -> groups d1 = groups d))
    as (W2 & R2 & C2 & S2 & L2 & E2).
  { unfold d1. destruct (_ <=? _)%nat eqn:El; [apply Nat.leb_le in El|apply Nat.leb_gt in El].
    - destruct (evict_spec _ W1) as (WE & SE & LE & RE & CE); [unfold fecMaxPendingGroups in *; lia|].
      destruct (prune_spec _ WE) as (WP & GP & RP & CP). rewrite GP, RP, G1 in *.
      pose proof (w_size _ Hwf). split_and!; auto; try congruence; [|lia..].
      etransitivity; [exact C1|]. by etransitivity.
    - rewrite G1 in *. split_and!; auto; congruence. }
  unfold d'. change (newGroupLocked start d) with
    (set_tables (<[start := emptyGroup start]> (groups d1)) (groupOrder d1 ++ [start]) (groupHead d1)
             (doneRing d1) (pred (spares d1)) d1).
  assert (groups d1 !! start = None) as Hn1 by (by eapply lookup_weaken_None).
  destruct W2 as [O1 O2 O3 O4 O5]. split; [|split; [done|split; [by destruct C2|]]].
  - constructor; cbn [set_tables groups groupOrder groupHead doneRing]; auto.
    + intros s Hs. rewrite drop_app_le by done. apply elem_of_app.
      destruct (decide (s = start)) as [->|Hne]; [right; by left|]. left. rewrite lookup_insert_ne in Hs by done. auto.
    + rewrite length_app. lia.
    + rewrite map_size_insert_None by done. lia.
    + intros s g Hg. apply lookup_insert_Some in Hg as [[<- <-]|[_ Hg]]; [done|auto].
  - exists (groups d1). auto.
Qed.

Lemma dropWhere_spec P d : dec_wf d ->
  dec_wf (dropWhere P d) /\ doneRing (dropWhere P d) = doneRing d /\ same_core d (dropWhere P d) /\
  groups (dropWhere P d) = filter (fun p => P (fst p) = false) (groups d).
Proof.
  intros [H1 H2 H3 H4 H5]. unfold dropWhere. set (gs := filter _ _). set (n := (_ - _)%nat).
  set (d1 := set_groups gs (releaseLocked n (spares d)) d).
  assert (gs ⊆ groups d) as Hsub by apply map_filter_subseteq.
  assert (dec_wf d1) as W1.
  { constructor; cbn [d1 set_groups set_tables groups groupOrder groupHead doneRing]; auto.
    - intros s [g Hg]. apply H1. exists g. by eapply lookup_weaken.
    - etransitivity; [|exact H3]. by apply map_subseteq_size.
    - intros s g Hg. apply H4. by eapply lookup_weaken. }
  destruct (n =? 0)%nat; [by split_and!|].
  destruct (prune_spec d1 W1) as (W & G & R & C). split_and!; [done|by rewrite R| |by rewrite G].
  etransitivity; [|exact C]. by constructor.
Qed.

Lemma set_bounds_wf f c r b d : dec_wf d -> dec_wf (set_bounds f c r b d).
Proof. intros []. by constructor. Qed.
Lemma set_counts_wf l r n d : dec_wf d -> dec_wf (set_counts l r n d).
Proof. intros []. by constructor. Qed.

Lemma maybeRetire_wf p d : dec_wf d -> dec_wf (maybeRetireOldGroupsLocked p d).
Proof.
  intros H. unfold maybeRetireOldGroupsLocked. repeat case_match; auto.
  apply dropWhere_spec. by apply set_bounds_wf.
Qed.

Lemma cleanup_eq p d : cleanupByReorderProgress p d = maybeRetireOldGroupsLocked p d.
Proof. unfold cleanupByReorderProgress, maybeRetireOldGroupsLocked. by destruct (_ || _ || _). Qed.

Lemma insert_wf s g g' d : dec_wf d -> groups d !! s = Some g -> gstart g' = s ->
  dec_wf (set_groups (<[s := g']> (groups d)) (spares d) d).
Proof.
  intros [H1 H2 H3 H4 H5] Hs Hg.
  constructor; cbn [set_groups set_tables groups groupOrder groupHead doneRing]; auto.
  - intros t Ht. apply H1. destruct (decide (t = s)) as [->|]; [by rewrite Hs|]. by rewrite lookup_insert_ne in Ht.
  - rewrite map_size_insert_Some; [done|by exists g].
  - intros t u Ht. apply lookup_insert_Some in Ht as [[<- <-]|[_ Ht]]; auto.
Qed.

Lemma finish_spec g d : dec_wf d ->
  let d' := finishGroupLocked g d in
  dec_wf d' /\ groups d' = delete (gstart g) (groups d) /\
  doneRing d' = <[doneSlot (gstart g) := gstart g]> (doneRing d) /\ same_core d d'.
Proof.
  intros [H1 H2 H3 H4 H5] d'. unfold d', finishGroupLocked.
  split; [|by destruct (_ && _)]. assert (forall d0, groups d0 = groups d -> groupOrder d0 = groupOrder d ->
    groupHead d0 = groupHead d -> doneRing d0 = doneRing d ->
    dec_wf (set_groups (delete (gstart g) (groups (markDoneLocked (gstart g) d0)))
      (releaseLocked 1 (spares (markDoneLocked (gstart g) d0))) (markDoneLocked (gstart g) d0))) as Hall.
  { intros d0 E1 E2 E3 E4. unfold markDoneLocked.
    constructor; cbn [set_groups set_tables groups groupOrder groupHead doneRing]; rewrite ?E1, ?E2, ?E3, ?E4; auto.
    - intros s [u Hu]. apply H1. exists u. by apply lookup_delete_Some in Hu as [_ Hu].
    - etransitivity; [|exact H3]. apply map_subseteq_size, delete_subseteq.
    - intros s u Hu. apply lookup_delete_Some in Hu as [_ Hu]. auto.
    - by rewrite length_insert. }
  destruct (_ && _); by apply Hall.
Qed.

Lemma tryRecover_wf g d : dec_wf d -> dec_wf (tryRecoverActor g d).1.
Proof.
  intros H. unfold tryRecoverActor. destruct (gparity g) as [pb|]; [|done].
  destruct (gk g =? 0); [done|]. destruct (missingBits _ _) as [|m [|]]; cbn [fst]; [by apply finish_spec| |done].
  destruct (glens g !! _) as [n|]; [|by apply finish_spec].
  destruct (_ <? n); [by apply finish_spec|]. apply set_counts_wf. by apply finish_spec.
Qed.

Lemma getGroup_wf start d : dec_wf d ->
  let d' := match groups d !! start with Some _ => d | None => newGroupLocked start d end in
  dec_wf d' /\ doneRing d' = doneRing d /\ same_core d d'.
Proof.
  intros H d'. unfold d'. destruct (groups d !! start) eqn:E; [by split_and!|].
  destruct (newGroup_spec start d H E) as (W & R & C & _). by split_and!.
Qed.

Lemma recordMember_wf q f d : dec_wf d -> dec_wf (recordMember q f d).1.
Proof.
  intros H. unfold recordMember. destruct (getGroup_wf (groupStartOf d q) d H) as (W & _ & _).
  set (d1 := match _ with Some _ => d | None => _ end) in *. clearbody d1.
  destruct (groups d1 !! _) as [g|] eqn:E; [|done]. pose proof (w_start _ W _ _ E).
  case_match; [done|]. case_match; [by apply finish_spec|].
  apply tryRecover_wf. by eapply insert_wf.
Qed.

Lemma OnDataActor_wf p q f d : dec_wf d -> dec_wf (OnDataActor p q f d).1.
Proof.
  intros H. unfold OnDataActor. repeat case_match; cbn [fst]; auto using maybeRetire_wf, recordMember_wf.
Qed.

Lemma parityCore_wf p pl d : dec_wf d -> dec_wf (parityCore p pl d).1.1.
Proof.
  intros H. unfold parityCore. rewrite cleanup_eq. set (start := be_dec (slice 1 5 pl)).
  do 2 (case_match; [done|]). pose proof (maybeRetire_wf p d H) as HW1.
  set (d1 := maybeRetireOldGroupsLocked p d) in *. clearbody d1.
  do 2 (case_match; [done|]). destruct (parityLens _ _ _) as [lens|]; [|done].
  do 2 (case_match; [done|]). destruct (getGroup_wf start d1 HW1) as (W & _ & _).
  set (d2 := match groups d1 !! start with Some _ => d1 | None => _ end) in *. clearbody d2.
  destruct (groups d2 !! start) as [g|] eqn:E; [|done]. pose proof (w_start _ W _ _ E).
  destruct (openToWithScratch _ _ _ _ _); cbn [fst].
  - apply tryRecover_wf. by eapply insert_wf.
  - by eapply insert_wf.
Qed.

Lemma OnParityActor_wf p pl d : dec_wf d -> dec_wf (OnParityActorWithScratch p pl d).1.
Proof.
  intros H. pose proof (parityCore_wf p pl d H) as H1. unfold OnParityActorWithScratch.
  destruct (parityCore p pl d) as [[d1 r] fin]. destruct fin; cbn [fst] in *; auto using maybeRetire_wf.
Qed.

Lemma handleMode_wf p c d : dec_wf d -> dec_wf (handleModeControlActor p c d).
Proof.
  intros H. unfold handleModeControlActor. destruct (fence_Apply c (dfence d)) as [f ok].
  case_match; [done|]. destruct (fence_Window f) as [from til]. case_match; [by apply set_bounds_wf|].
  apply maybeRetire_wf. unfold dropGroupsInRangeLocked. case_match; [by apply set_bounds_wf, set_bounds_wf|].
  by apply dropWhere_spec, set_bounds_wf, set_bounds_wf.
Qed.

(** ** Decoding what the encoder emits *)

Section ParityWire.
Context (ic : option innerCipher) `{!CipherOk ic}.

Definition sealedXor (s : Z) (ms : list bytes) : bytes :=
  (sealInPlaceWithScratch ic (xor_list (max_len ms) ms ++ zeros (tagLen ic)) (max_len ms) s
     (u32 (Z.of_nat (max_len ms + tagLen ic)))).1.

Lemma length_sealedXor s ms : length (sealedXor s ms) = (max_len ms + tagLen ic)%nat.
Proof.
  unfold sealedXor, sealInPlaceWithScratch. destruct ic as [c|]; cbn [tagLen fst].
  2:{ rewrite length_app, length_xor_list. done. }
  destruct (_ =? 0)%nat; [cbn [fst]; rewrite length_app, length_xor_list; unfold zeros; by rewrite length_replicate|].
  destruct (nonceAAD _ _ _) as [n a]. pose proof (CipherOk0 c eq_refl). cbn [fst].
  rewrite (take_app_length' (xor_list _ _)) by by rewrite length_xor_list.
  rewrite length_app, length_drop, length_app, seal_length, length_xor_list. unfold zeros. rewrite length_replicate. lia.
Qed.

Lemma open_sealedXor s ms w : (0 < max_len ms)%nat -> w = u32 (Z.of_nat (max_len ms + tagLen ic)) ->
  openToWithScratch ic (zeros (max_len ms)) (sealedXor s ms) s w = inl (xor_list (max_len ms) ms).
Proof.
  intros Hpos ->. pose proof (length_sealedXor s ms) as HL. revert HL.
  unfold sealedXor, sealInPlaceWithScratch, openToWithScratch. destruct ic as [c|]; cbn [tagLen fst].
  2:{ rewrite app_nil_r. intros HL. unfold zeros. rewrite length_replicate.
      rewrite (drop_ge (replicate _ _)) by (rewrite length_replicate; lia).
      rewrite app_nil_r, take_ge by lia. done. }
  destruct (_ =? 0)%nat eqn:E0; [apply Nat.eqb_eq in E0; lia|]. clear E0.
  pose proof (CipherOk0 c eq_refl). destruct (nonceAAD _ _ _) as [n a]. cbn [fst].
  rewrite (take_app_length' (xor_list _ _)) by by rewrite length_xor_list.
  set (z := Seal _ _ _ _). assert (length z = max_len ms + Overhead (aead c))%nat as Hz.
  { unfold z. rewrite seal_length, length_xor_list. done. }
  rewrite (drop_ge (_ ++ _)), app_nil_r by (rewrite length_app, length_xor_list; unfold zeros; rewrite length_replicate; lia).
  intros _. rewrite Hz. destruct (_ <? _)%nat eqn:E1; [apply Nat.ltb_lt in E1; lia|].
  unfold z. rewrite open_seal. f_equal. rewrite drop_ge, app_nil_r; [done|].
  unfold zeros. rewrite length_replicate, length_xor_list. lia.
Qed.

Lemma parityPayload_eq s ms : parityPayload ic s ms =
  [u8 controlKindFECParity] ++ be_enc 4 s ++ [u8 (lenZ ms)] ++
  concat ((fun m => be_enc 4 (u32 (lenZ m))) <$> ms) ++ sealedXor s ms.
Proof. done. Qed.

Lemma length_desc (ms : list bytes) : length (concat ((fun m => be_enc 4 (u32 (lenZ m))) <$> ms)) = (4 * length ms)%nat.
Proof. induction ms as [|m ms IH]; [done|]. rewrite fmap_cons. cbn [concat]. rewrite length_app, length_be_enc, IH. cbn [length]. lia. Qed.

Lemma desc_slice (ms : list bytes) (rest : bytes) i m : ms !! i = Some m ->
  slice (4 * i) (4 * i + 4) (concat ((fun m => be_enc 4 (u32 (lenZ m))) <$> ms) ++ rest) = be_enc 4 (u32 (lenZ m)).
Proof.
  intros Hm. apply list_elem_of_split_length in Hm as (l1 & l2 & -> & ->).
  rewrite fmap_app, fmap_cons, concat_app. cbn [concat]. rewrite <- !app_assoc.
  apply slice_mid; rewrite ?length_desc, ?length_be_enc; done.
Qed.

Lemma foldr_max_lens (ms : list bytes) : foldr Z.max 0 (lenZ <$> ms) = Z.of_nat (max_len ms).
Proof. induction ms as [|m ms IH]; [done|]. rewrite fmap_cons. cbn [foldr]. rewrite IH. unfold lenZ, max_len. cbn. lia. Qed.

Lemma parity_decode K s ms :
  2 <= K <= 64 -> is_u32 s -> lenZ ms = K -> Z.of_nat (max_len ms + tagLen ic) < 2 ^ 32 -> (0 < max_len ms)%nat ->
  let pl := parityPayload ic s ms in
  (7 <= length pl)%nat /\ byte_at 0 pl = controlKindFECParity /\ be_dec (slice 1 5 pl) = s /\ byte_at 5 pl = K /\
  (6 + 4 * Z.to_nat K + tagLen ic <= length pl)%nat /\
  parityLens K (tagLen ic) pl = Some (lenZ <$> ms) /\
  slice (6 + 4 * Z.to_nat K) (6 + 4 * Z.to_nat K + max_len ms + tagLen ic) pl = sealedXor s ms.
Proof.
  intros HK Hs Hlen Hmx Hpos pl.
  pose proof (length_desc ms) as HD. pose proof (length_sealedXor s ms) as HS.
  assert (length ms = Z.to_nat K) as HlK by (unfold lenZ in Hlen; lia).
  assert (length pl = 6 + 4 * Z.to_nat K + max_len ms + tagLen ic)%nat as HL.
  { unfold pl. rewrite parityPayload_eq, !length_app, length_be_enc, HD, HS, HlK. cbn [length]. lia. }
  split; [lia|]. split; [done|].
  split. { unfold pl. rewrite parityPayload_eq, (slice_mid 1 5) by (rewrite ?length_be_enc; done). by apply be_dec_enc4. }
  split. { unfold pl, byte_at. rewrite parityPayload_eq. rewrite Hlen. cbn [be_enc app nth]. apply u8_small. widths. lia. }
  split; [lia|]. split.
  - unfold parityLens. set (lens := _ <$> seq 0 _).
    assert (lens = lenZ <$> ms) as ->.
    { unfold lens. apply list_eq. intros i. rewrite !list_lookup_fmap.
      destruct (ms !! i) as [m|] eqn:Em.
      - rewrite lookup_seq_lt by (apply lookup_lt_Some in Em; lia). cbn [fmap option_fmap option_map]. f_equal. rewrite Nat.add_0_l.
        unfold pl. rewrite parityPayload_eq. rewrite !app_assoc, <- app_assoc.
        replace (10 + 4 * i)%nat with (6 + (4 * i + 4))%nat by lia.
        rewrite <- (slice_drop 6), drop_app_length' by (rewrite !length_app, length_be_enc; done).
        rewrite (desc_slice _ _ _ m) by done.
        apply list_elem_of_lookup_2, max_len_elem in Em. rewrite u32_small, be_dec_enc4; [done|..]; widths; unfold lenZ; lia.
      - rewrite lookup_seq_ge by (apply lookup_ge_None in Em; lia). done. }
    destruct (forallb _ _) eqn:EF; [done|]. exfalso. apply not_true_iff_false in EF. apply EF.
    apply forallb_forall. intros x Hx. apply list_elem_of_In in Hx. apply list_elem_of_fmap in Hx as (m & -> & Hm).
    apply max_len_elem in Hm. apply Z.leb_le. unfold lenZ. rewrite HL. lia.
  - unfold pl. rewrite parityPayload_eq, <- (app_nil_r (sealedXor s ms)) at 1.
    rewrite (app_assoc [u8 (lenZ ms)]), (app_assoc (be_enc 4 s)), (app_assoc [u8 controlKindFECParity]).
    apply slice_mid; [|rewrite HS; lia]. rewrite !length_app, length_be_enc, HD. cbn [length]. lia.
Qed.
End ParityWire.

(** ** Bit masks *)

Lemma land_bit_zero mask i : 0 <= i -> Z.land mask (Z.shiftl 1 i) = 0 <-> Z.testbit mask i = false.
Proof.
  intros Hi. rewrite Z.shiftl_1_l. split; intros H.
  - apply (f_equal (fun z => Z.testbit z i)) in H. rewrite Z.land_spec, Z.bits_0, Z.pow2_bits_true, andb_true_r in H; auto.
  - apply Z.bits_inj'. intros j Hj. rewrite Z.land_spec, Z.bits_0.
    destruct (decide (i = j)) as [->|Hne]; [by rewrite H|]. rewrite Z.pow2_bits_false by done. apply andb_false_r.
Qed.

Lemma lor_bit mask i j : 0 <= i -> 0 <= j -> Z.testbit (Z.lor mask (Z.shiftl 1 i)) j = Z.testbit mask j || bool_decide (j = i).
Proof.
  intros Hi Hj. rewrite Z.shiftl_1_l, Z.lor_spec. f_equal. case_bool_decide as E.
  - subst. by apply Z.pow2_bits_true.
  - by apply Z.pow2_bits_false.
Qed.

(** The mask of the members [r] received so far (offsets below K). *)
Definition mask_of (r : list nat) (mask : Z) : Prop :=
  forall i : nat, Z.testbit mask (Z.of_nat i) = bool_decide (i ∈ r).

Lemma mask_of_nil : mask_of [] 0.
Proof. intros i. rewrite Z.bits_0. symmetry. apply bool_decide_eq_false. apply not_elem_of_nil. Qed.

Lemma mask_of_cons r mask i : mask_of r mask -> mask_of (i :: r) (Z.lor mask (Z.shiftl 1 (Z.of_nat i))).
Proof.
  intros H j. rewrite lor_bit by lia. rewrite H, <- bool_decide_or. apply bool_decide_ext.
  rewrite elem_of_cons. split; [intros [?|?]; [by right|left; lia]|intros [->|?]; auto].
Qed.

Lemma missingBits_spec k r mask : mask_of r mask ->
  missingBits k mask = Z.of_nat <$> filter (fun i => i ∉ r) (seq 0 (Z.to_nat k)).
Proof.
  intros H. unfold missingBits. induction (seq 0 (Z.to_nat k)) as [|i l IH]; [done|].
  rewrite fmap_cons, !filter_cons, IH. specialize (H i).
  assert (Z.land mask (Z.shiftl 1 (Z.of_nat i)) = 0 <-> i ∉ r) as Hi.
  { rewrite land_bit_zero by lia. rewrite H. apply bool_decide_eq_false. }
  by do 2 case_decide; try tauto.
Qed.

(** One member [m] missing: all the others received. *)
Lemma missing_one k r m : (m < k)%nat -> NoDup r -> (forall i, i ∈ r <-> (i < k)%nat /\ i <> m) ->
  filter (fun i => i ∉ r) (seq 0 k) = [m].
Proof.
  intros Hm Hnd Hr. apply Permutation_singleton_r. apply NoDup_Permutation.
  - apply NoDup_filter, NoDup_seq.
  - apply NoDup_singleton.
  - intros i. rewrite list_elem_of_filter, elem_of_seq, list_elem_of_singleton, Hr. split; [|lia].
    intros [Hn Hi]. destruct (decide (i = m)); [done|]. exfalso. apply Hn. lia.
Qed.

(** Two members or more missing. *)
Lemma missing_two k (r : list nat) i j : (i < k)%nat -> (j < k)%nat -> i <> j -> i ∉ r -> j ∉ r ->
  exists a b l, filter (fun i => i ∉ r) (seq 0 k) = a :: b :: l.
Proof.
  intros Hi Hj Hne Hir Hjr.
  assert (i ∈ filter (fun i => i ∉ r) (seq 0 k)) as Hfi by (apply list_elem_of_filter; rewrite elem_of_seq; split; [done|lia]).
  assert (j ∈ filter (fun i => i ∉ r) (seq 0 k)) as Hfj by (apply list_elem_of_filter; rewrite elem_of_seq; split; [done|lia]).
  destruct (filter _ _) as [|a [|b l]]; [by apply elem_of_nil in Hfi| |eauto].
  apply list_elem_of_singleton in Hfi, Hfj. congruence.
Qed.

(** ** Events of a receiver *)

Inductive decEvent := DData (seq : Z) (frame : bytes) | DControl (payload : bytes).
#[export] Instance decEvent_eq_dec : EqDecision decEvent.
Proof. solve_decision. Defined.

(** One event of the session worker, with the progress of its reorder buffer. *)
Definition decStep (d : fecDecoder) (pe : Z * decEvent) : fecDecoder * option (Z * bytes) :=
  match pe.2 with
  | DData q f => OnDataActor pe.1 q f d
  | DControl pl => let '(d', r) := OnControlActorWithScratch pe.1 pl d in
                   (d', match r with inl o => o | inr _ => None end)
  end.

Definition decExec (d : fecDecoder) (evs : list (Z * decEvent)) : fecDecoder :=
  fold_left (fun d e => (decStep d e).1) evs d.

Lemma decStep_wf d e : dec_wf d -> dec_wf (decStep d e).1.
Proof.
  intros H. destruct e as [p [q f|pl]]; cbn [decStep snd fst].
  { by apply OnDataActor_wf. }
  unfold OnControlActorWithScratch. destruct (parseControlKind pl) as [k|]; [|done].
  destruct (k =? controlKindFECParity).
  { pose proof (OnParityActor_wf p pl d H). by destruct (OnParityActorWithScratch p pl d). }
  destruct (k =? controlKindFECMode); [|done].
  destruct (parseFECModeControl pl); [by apply handleMode_wf|done].
Qed.

Lemma decExec_wf evs d : dec_wf d -> dec_wf (decExec d evs).
Proof.
  revert d. induction evs as [|e evs IH]; intros d H; [done|]. cbn. apply IH. by apply decStep_wf.
Qed.

Lemma new_wf k ic out : dec_wf (NewFECDecoder k ic out).
Proof.
  constructor; cbn [NewFECDecoder groups groupOrder groupHead doneRing]; try done.
  - intros s [g Hg]. done.
  - rewrite map_size_empty. lia.
Qed.

(** ** Independence of groups *)

(** An operation on group [t] leaves every other group [s] and its pending status
    alone. *)
Record keeps (t s : Z) (d d' : fecDecoder) : Prop := {
  k_group : groups d' !! s = groups d !! s;
  k_done : isDoneLocked d s = false -> isDoneLocked d' s = false;
  k_dom : dom (groups d') ⊆ dom (groups d) ∪ {[t]};
  k_core : same_core d d'
}.

Lemma keeps_refl t s d : keeps t s d d.
Proof. constructor; auto; [set_solver|reflexivity]. Qed.

Lemma keeps_trans t s d1 d2 d3 : keeps t s d1 d2 -> keeps t s d2 d3 -> keeps t s d1 d3.
Proof. intros [] []. constructor; [congruence|auto|set_solver|by etransitivity]. Qed.

(** Only the group table changed, at [t]. *)
Lemma keeps_tables t s d d' :
  t <> s -> groups d' !! s = groups d !! s -> doneRing d' = doneRing d ->
  dom (groups d') ⊆ dom (groups d) ∪ {[t]} -> same_core d d' -> keeps t s d d'.
Proof. intros. constructor; auto. unfold isDoneLocked. congruence. Qed.

Lemma keeps_finish g s d : dec_wf d -> gstart g <> s -> keeps (gstart g) s d (finishGroupLocked g d).
Proof.
  intros Hwf Hne. destruct (finish_spec g d Hwf) as (_ & G & R & C). constructor; auto.
  - rewrite G. by rewrite lookup_delete_ne.
  - unfold isDoneLocked. rewrite R. intros H. rewrite nth_lookup in *.
    destruct (decide (doneSlot (gstart g) = doneSlot s)) as [E|E].
    + destruct (decide (doneSlot s < length (doneRing d))%nat) as [Hl|Hl].
      * rewrite E, list_lookup_insert_eq by done. cbn. by apply Z.eqb_neq.
      * rewrite list_insert_ge by lia. done.
    + by rewrite list_lookup_insert_ne.
  - rewrite G, dom_delete. set_solver.
Qed.

Lemma keeps_counts t s d l r n : keeps t s d (set_counts l r n d).
Proof. constructor; auto; [set_solver|by constructor]. Qed.

Lemma keeps_tryRecover g s d : dec_wf d -> gstart g <> s -> keeps (gstart g) s d (tryRecoverActor g d).1.
Proof.
  intros Hwf Hne. unfold tryRecoverActor. destruct (gparity g) as [pb|] eqn:Ep; [|apply keeps_refl].
  destruct (gk g =? 0); [apply keeps_refl|].
  destruct (missingBits _ _) as [|i [|]]; cbn [fst]; [by apply keeps_finish| |apply keeps_refl].
  destruct (glens g !! _) as [n|]; [|by apply keeps_finish].
  destruct (_ <? n); [by apply keeps_finish|]. cbn [fst].
  eapply keeps_trans; [|apply keeps_counts]. set (g' := mkGroup _ _ _ _ _ _).
  by apply (keeps_finish g').
Qed.

Lemma keeps_getGroup t s d : dec_wf d -> t <> s -> (size (groups d) < fecMaxPendingGroups \/ is_Some (groups d !! t))%nat ->
  let d' := match groups d !! t with Some _ => d | None => newGroupLocked t d end in
  keeps t s d d' /\ dec_wf d' /\ exists g, groups d' !! t = Some g /\ gstart g = t.
Proof.
  intros Hwf Hne Hsz d'. unfold d'. destruct (groups d !! t) as [g|] eqn:E.
  { split_and!; [apply keeps_refl|done|]. exists g. split; [done|]. by apply (w_start d Hwf t g). }
  destruct Hsz as [Hsz|[? ?]]; [|done].
  destruct (newGroup_spec t d Hwf E) as (W & R & C & gs & G & _ & HG). rewrite (HG Hsz) in G.
  split_and!; [|done|exists (emptyGroup t); by rewrite G, lookup_insert_eq].
  apply keeps_tables; auto; rewrite G; [by rewrite lookup_insert_ne|]. rewrite dom_insert. set_solver.
Qed.

Lemma keeps_insert t s d g : t <> s -> keeps t s d (set_groups (<[t := g]> (groups d)) (spares d) d).
Proof.
  intros Hne. apply keeps_tables; auto; cbn [set_groups set_tables groups doneRing].
  - by rewrite lookup_insert_ne.
  - rewrite dom_insert. set_solver.
  - by constructor.
Qed.

Lemma keeps_recordMember q f s d :
  dec_wf d -> groupStartOf d q <> s ->
  (size (groups d) < fecMaxPendingGroups \/ is_Some (groups d !! groupStartOf d q))%nat ->
  keeps (groupStartOf d q) s d (recordMember q f d).1.
Proof.
  intros Hwf Hne Hsz. unfold recordMember. destruct (keeps_getGroup _ s d Hwf Hne Hsz) as (K1 & W1 & g & Hg & Hst).
  set (t := groupStartOf d q) in *. set (d1 := match groups d !! t with Some _ => d | None => _ end) in *.
  clearbody d1. rewrite Hg. case_match; [done|]. case_match; cbn [fst].
  - eapply keeps_trans; [exact K1|]. rewrite <- Hst in Hne |- *. set (g' := mkGroup _ _ _ _ _ _). by apply (keeps_finish g').
  - eapply keeps_trans; [exact K1|]. set (g' := mkGroup _ _ _ _ _ _). eapply keeps_trans; [by apply (keeps_insert t s d1 g')|].
    rewrite <- Hst in Hne |- *. apply (keeps_tryRecover g'); [|done]. eapply insert_wf; [done| |done]. rewrite Hst. exact Hg.
Qed.

(** Without a SUSPEND there is nothing to retire. *)
Lemma retire_idle p d : cleanupBefore d = 0 -> maybeRetireOldGroupsLocked p d = d.
Proof. intros H. unfold maybeRetireOldGroupsLocked. by rewrite H. Qed.

Lemma keeps_parityCore p pl s d :
  dec_wf d -> cleanupBefore d = 0 -> let t := be_dec (slice 1 5 pl) in t <> s ->
  (size (groups d) < fecMaxPendingGroups \/ is_Some (groups d !! t))%nat -> keeps t s d (parityCore p pl d).1.1.
Proof.
  intros Hwf Hcl t Hne Hsz. unfold parityCore. rewrite cleanup_eq, retire_idle by done. fold t.
  do 4 (case_match; [apply keeps_refl|]). destruct (parityLens _ _ _) as [lens|]; [|apply keeps_refl].
  do 2 (case_match; [apply keeps_refl|]).
  destruct (keeps_getGroup _ s d Hwf Hne Hsz) as (K1 & W1 & g & Hg & Hst).
  set (d1 := match groups d !! t with Some _ => d | None => _ end) in *. clearbody d1. rewrite Hg.
  eapply keeps_trans; [exact K1|]. destruct (openToWithScratch _ _ _ _ _) as [pb|]; cbn [fst]; [|by apply keeps_insert].
  set (g' := mkGroup _ _ _ _ _ _). eapply keeps_trans; [by apply (keeps_insert t s d1 g')|].
  rewrite <- Hst in Hne |- *. apply (keeps_tryRecover g'); [|done]. eapply insert_wf; [done| |done]. rewrite Hst. exact Hg.
Qed.

(** An event creates no group but its own. *)
Lemma tryRecover_dom g d : dec_wf d -> dom (groups (tryRecoverActor g d).1) ⊆ dom (groups d).
Proof.
  intros Hwf. assert (forall g', dom (groups (finishGroupLocked g' d)) ⊆ dom (groups d)) as Hf.
  { intros g'. destruct (finish_spec g' d Hwf) as (_ & -> & _). rewrite dom_delete. set_solver. }
  unfold tryRecoverActor. destruct (gparity g); [|done]. destruct (gk g =? 0); [done|].
  destruct (missingBits _ _) as [|i [|]]; cbn [fst]; [apply Hf| |done].
  destruct (glens g !! _) as [n|]; [|apply Hf]. destruct (_ <? n); [apply Hf|]. cbn [fst set_counts groups]. apply Hf.
Qed.

Lemma getGroup_dom t d : dec_wf d ->
  dom (groups (match groups d !! t with Some _ => d | None => newGroupLocked t d end)) ⊆ dom (groups d) ∪ {[t]}.
Proof.
  intros Hwf. destruct (groups d !! t) eqn:E; [set_solver|].
  destruct (newGroup_spec t d Hwf E) as (_ & _ & _ & gs & -> & Hs & _). rewrite dom_insert.
  apply subseteq_dom in Hs. set_solver.
Qed.

Lemma insert_dom t g g' d : groups d !! t = Some g -> dom (groups (set_groups (<[t := g']> (groups d)) (spares d) d)) ⊆ dom (groups d).
Proof. intros H. cbn [set_groups set_tables groups]. rewrite dom_insert. apply elem_of_dom_2 in H. set_solver. Qed.

Lemma retire_dom p d : dec_wf d -> dom (groups (maybeRetireOldGroupsLocked p d)) ⊆ dom (groups d).
Proof.
  intros Hwf. unfold maybeRetireOldGroupsLocked. destruct (_ || _ || _); [done|]. destruct (_ || _); [done|].
  destruct (dropWhere_spec (fun s => negb (cleanupBefore d <=? s))
    (set_bounds (dfence d) (cleanupBefore d) (cleanupBefore d) (staticSingle d) d) (set_bounds_wf _ _ _ _ _ Hwf)) as (_ & _ & _ & ->).
  apply subseteq_dom, map_filter_subseteq.
Qed.

Lemma recordMember_dom q f d : dec_wf d ->
  dom (groups (recordMember q f d).1) ⊆ dom (groups d) ∪ {[groupStartOf d q]}.
Proof.
  intros Hwf. unfold recordMember. set (t := groupStartOf d q). pose proof (getGroup_dom t d Hwf) as HD.
  destruct (getGroup_wf t d Hwf) as (W & _ & _). set (d1 := match _ with Some _ => d | None => _ end) in *. clearbody d1.
  destruct (groups d1 !! t) as [g|] eqn:E; [|done]. pose proof (w_start _ W _ _ E) as Hst.
  destruct (negb _); [done|]. destruct (_ =? fullMask d1); cbn [fst].
  - set (g' := mkGroup _ _ _ _ _ _). destruct (finish_spec g' d1 W) as (_ & -> & _). rewrite dom_delete. set_solver.
  - set (g' := mkGroup _ _ _ _ _ _). etransitivity; [apply tryRecover_dom; by eapply insert_wf|].
    etransitivity; [by eapply insert_dom|done].
Qed.

Lemma parityCore_dom p pl d : dec_wf d ->
  dom (groups (parityCore p pl d).1.1) ⊆ dom (groups d) ∪ {[be_dec (slice 1 5 pl)]}.
Proof.
  intros Hwf. unfold parityCore. rewrite cleanup_eq. set (t := be_dec (slice 1 5 pl)).
  pose proof (retire_dom p d Hwf) as HR. pose proof (maybeRetire_wf p d Hwf) as HW.
  destruct (_ || _ || _); [set_solver|]. destruct (_ || _ || _); [set_solver|].
  set (d1 := maybeRetireOldGroupsLocked p d) in *. clearbody d1.
  destruct (retiredSeq d1 t); [set_solver|]. destruct (_ <? _)%nat; [set_solver|].
  destruct (parityLens _ _ _) as [lens|]; [|set_solver].
  destruct (_ || _ || _); [set_solver|].
  destruct (match groups d1 !! t with Some g => bool_decide (is_Some (gparity g)) | None => false end); [set_solver|].
  pose proof (getGroup_dom t d1 HW) as HD. destruct (getGroup_wf t d1 HW) as (W & _ & _).
  set (d2 := match groups d1 !! t with Some _ => d1 | None => _ end) in *. clearbody d2.
  destruct (groups d2 !! t) as [g|] eqn:E; cbn [fst]; [|set_solver]. pose proof (w_start _ W _ _ E) as Hst.
  destruct (openToWithScratch _ _ _ _ _); cbn [fst]; set (g' := mkGroup _ _ _ _ _ _).
  - etransitivity; [apply tryRecover_dom; by eapply insert_wf|]. etransitivity; [by eapply insert_dom|set_solver].
  - etransitivity; [by eapply insert_dom|set_solver].
Qed.

Lemma handleMode_dom p c d : dec_wf d -> dom (groups (handleModeControlActor p c d)) ⊆ dom (groups d).
Proof.
  intros Hwf. unfold handleModeControlActor. destruct (fence_Apply c (dfence d)) as [f ok].
  destruct (negb ok); [done|]. destruct (fence_Window f) as [from til]. destruct (from =? 0); [done|].
  unfold dropGroupsInRangeLocked. set (d1 := set_bounds _ _ _ _ _).
  assert (dec_wf d1) as W1 by by apply set_bounds_wf, set_bounds_wf.
  destruct (from =? 0); [by apply (retire_dom p d1)|].
  match goal with |- context [dropWhere ?P d1] => destruct (dropWhere_spec P d1 W1) as (W2 & _ & _ & G2) end.
  etransitivity; [by apply retire_dom|]. rewrite G2. apply subseteq_dom, map_filter_subseteq.
Qed.

Lemma decStep_dom p ev d : dec_wf d ->
  dom (groups (decStep d (p, ev)).1) ⊆
  dom (groups d) ∪ {[match ev with DData q _ => groupStartOf d q | DControl pl => be_dec (slice 1 5 pl) end]}.
Proof.
  intros Hwf. destruct ev as [q f|pl]; cbn [decStep fst snd].
  - unfold OnDataActor. destruct (_ || _ || _); [set_solver|].
    destruct (BypassData _ _). { pose proof (retire_dom p d Hwf). destruct (_ =? 0); set_solver. }
    destruct (retiredSeq d q); [set_solver|]. destruct (isDoneLocked d (groupStartOf d q)); [set_solver|].
    by apply recordMember_dom.
  - unfold OnControlActorWithScratch. destruct (parseControlKind pl) as [kind|]; [|set_solver].
    destruct (kind =? _).
    + unfold OnParityActorWithScratch. pose proof (parityCore_dom p pl d Hwf) as HD. pose proof (parityCore_wf p pl d Hwf) as HW.
      destruct (parityCore p pl d) as [[d1 o] fin]. cbn [fst] in *. pose proof (retire_dom p d1 HW). destruct fin; set_solver.
    + destruct (kind =? _); [|set_solver]. destruct (parseFECModeControl pl) as [c|]; cbn [fst]; [|set_solver].
      pose proof (handleMode_dom p c d Hwf). set_solver.
Qed.

(** ** Recovery of a single loss *)

Section Recovery.
Context (ic : option innerCipher) `{!CipherOk ic}.
Variables (K s : Z) (ms : list bytes) (m : nat) (out : bool).
Hypothesis HK : 2 <= K <= 64.
Hypothesis Hal : aligned K s.
Hypothesis Hs : 1 <= s /\ s + K <= 2 ^ 32.
Hypothesis Hlen : lenZ ms = K.
Hypothesis Hne : Forall (fun f => f <> []) ms.
Hypothesis Hm : (m < length ms)%nat.
Hypothesis Hmx : Z.of_nat (max_len ms + tagLen ic) < 2 ^ 32.

Let d0 := NewFECDecoder K ic out.
Let member (i : nat) : bytes := nth i ms [].

(** Events of the group itself, the member [m] lost. *)
Definition genuine (ev : decEvent) : Prop :=
  (exists i f, i <> m /\ ms !! i = Some f /\ ev = DData (s + Z.of_nat i) f) \/ ev = DControl (parityPayload ic s ms).

(** Any other traffic: data of other groups, parity of other groups (well formed
    or not), unknown controls; no FEC_MODE. *)
Definition foreign (ev : decEvent) : Prop :=
  match ev with
  | DData q _ => is_u32 q /\ (q = 0 \/ fecGroupStart q K <> s)
  | DControl pl => parseFECModeControl pl = None /\ be_dec (slice 1 5 pl) <> s
  end.

Definition startOf (ev : decEvent) : Z :=
  match ev with DData q _ => fecGroupStart q K | DControl pl => be_dec (slice 1 5 pl) end.

(** The group [s] after the members [r] and, if [par], the parity. *)
Record grp (r : list nat) (par : bool) (d : fecDecoder) : Prop := {
  gr_wf : dec_wf d;
  gr_core : same_core d0 d;
  gr_open : isDoneLocked d s = false;
  gr_nodup : NoDup r;
  gr_mem : Forall (fun i => i <> m /\ (i < length ms)%nat) r;
  gr_state : match groups d !! s with
             | None => r = [] /\ par = false
             | Some g => mask_of r (gotMask g) /\ (forall i, byte_at i (gacc g) = xor_at i (member <$> r)) /\
                         (par = false -> gparity g = None) /\
                         (par = true -> gk g = K /\ glens g = lenZ <$> ms /\ gparity g = Some (xor_list (max_len ms) ms))
             end
}.

Definition complete (r : list nat) (par : bool) : Prop :=
  par = true /\ forall i, (i < length ms)%nat -> i <> m -> i ∈ r.

Lemma member_lookup i f : ms !! i = Some f -> member i = f.
Proof using All. intros H. unfold member. rewrite nth_lookup, H. done. Qed.

Lemma groupStartOf_core d q : same_core d0 d -> 0 < q < 2 ^ 32 -> groupStartOf d q = fecGroupStart q K.
Proof using All.
  intros [] Hq. unfold groupStartOf, fecGroupStart. rewrite c_dk0. cbn. rewrite !clampFecGroup_id by done.
  destruct (Z.eqb_spec q 0); [lia|]. done.
Qed.

Lemma groupStart_member i : (i < length ms)%nat -> fecGroupStart (s + Z.of_nat i) K = s.
Proof using All.
  intros Hi. unfold lenZ in Hlen.
  destruct (fecGroupStart_spec (s + Z.of_nat i) K HK ltac:(lia)) as (A & B & C).
  destruct (decide (fecGroupStart (s + Z.of_nat i) K <= s)).
  - apply (aligned_unique K); auto; lia.
  - symmetry. apply (aligned_unique K); auto; lia.
Qed.

(** XOR of the received members against the parity gives the lost one. *)
Lemma xor_recovers (r : list nat) i :
  NoDup r -> (forall j, j ∈ r <-> (j < length ms)%nat /\ j <> m) ->
  Z.lxor (xor_at i ms) (xor_at i (member <$> r)) = byte_at i (member m).
Proof using All.
  intros Hnd Hr. assert (ms ≡ₚ member m :: (member <$> r)) as HP.
  { assert (ms = member <$> seq 0 (length ms)) as E.
    { apply list_eq. intros j. rewrite list_lookup_fmap. destruct (ms !! j) as [f|] eqn:Ej.
      - rewrite lookup_seq_lt by by eapply lookup_lt_Some. cbn. by rewrite (member_lookup j f).
      - rewrite lookup_seq_ge by by apply lookup_ge_None. done. }
    rewrite E at 1. change (member m :: (member <$> r)) with (member <$> (m :: r)). apply fmap_Permutation.
    apply NoDup_Permutation; [apply NoDup_seq|constructor; [rewrite Hr; tauto|done]|].
    intros j. rewrite elem_of_seq, elem_of_cons, Hr. destruct (decide (j = m)) as [->|]; lia. }
  rewrite HP at 1. rewrite xor_at_cons, Z.lxor_assoc, Z.lxor_nilpotent. apply Z.lxor_0_r.
Qed.

(** tryRecover on the group: waits, or yields the lost member. *)
Lemma tryRecover_group r par g d :
  gstart g = s -> NoDup r -> Forall (fun i => i <> m /\ (i < length ms)%nat) r -> mask_of r (gotMask g) ->
  (forall i, byte_at i (gacc g) = xor_at i (member <$> r)) -> (par = false -> gparity g = None) ->
  (par = true -> gk g = K /\ glens g = lenZ <$> ms /\ gparity g = Some (xor_list (max_len ms) ms)) ->
  (complete r par -> (tryRecoverActor g d).2 = Some (s + Z.of_nat m, member m)) /\
  (~ complete r par -> tryRecoverActor g d = (d, None)).
Proof using All.
  intros Hst Hnd Hin Hmask Hacc Hp0 Hp1. unfold tryRecoverActor.
  destruct par.
  2:{ rewrite Hp0 by done. split; [by intros [? _]|done]. }
  destruct (Hp1 eq_refl) as (-> & -> & ->). destruct (Z.eqb_spec K 0); [lia|].
  rewrite (missingBits_spec K r) by done. unfold lenZ in Hlen.
  replace (Z.to_nat K) with (length ms) by lia. rewrite Forall_forall in Hin. split.
  - intros [_ Hall]. rewrite (missing_one _ r m Hm Hnd).
    2:{ intros i. split; [intros Hi; destruct (Hin i Hi); lia|]. intros [? ?]. by apply Hall. }
    cbn [fmap list_fmap]. rewrite Nat2Z.id, list_lookup_fmap.
    destruct (lookup_lt_is_Some_2 ms m Hm) as [f Hf]. rewrite Hf. cbn [fmap option_fmap option_map].
    pose proof (max_len_elem f ms ltac:(by eapply list_elem_of_lookup_2)) as Hfl.
    rewrite length_xor_list. destruct (Z.ltb_spec (Z.of_nat (max_len ms)) (lenZ f)) as [|_]; [unfold lenZ in *; lia|].
    cbn [snd]. unfold lenZ. rewrite Nat2Z.id, Hst, u32_small by (widths; lia). rewrite (member_lookup m f Hf).
    do 2 f_equal. set (acc := if (length (gacc g) <? length f)%nat then _ else _).
    assert ((length f <= length acc)%nat /\ forall i, byte_at i acc = byte_at i (gacc g)) as [HL HB].
    { unfold acc. destruct (_ <? _)%nat eqn:E; [apply Nat.ltb_lt in E|apply Nat.ltb_ge in E; by split].
      split; [rewrite length_grow_to; lia|]. intros i. apply byte_at_grow_to. }
    apply bytes_ext; rewrite length_xor_bytes, !length_take, length_xor_list; [lia|]. intros i Hi.
    rewrite byte_at_xor, !byte_at_take, byte_at_xor_list by (rewrite ?length_take, ?length_xor_list; lia).
    rewrite HB, Hacc, xor_recovers, (member_lookup m f Hf); auto.
    intros j. split; [intros Hj; destruct (Hin j Hj); lia|]. intros [? ?]. by apply Hall.
  - intros Hnc. assert (exists i : nat, (i < length ms)%nat /\ i <> m /\ i ∉ r) as (i & Hi & Him & Hir).
    { destruct (decide (Forall (fun i : nat => i = m \/ i ∈ r) (seq 0 (length ms)))) as [HF|HF].
      - exfalso. apply Hnc. split; [done|]. intros i Hi Him. rewrite Forall_forall in HF.
        destruct (HF i); [apply elem_of_seq; lia|done..].
      - apply not_Forall_Exists in HF; [|apply _]. apply Exists_exists in HF as (i & Hi & Hn).
        apply elem_of_seq in Hi. exists i. split; [lia|]. split; intros ?; apply Hn; auto. }
    destruct (missing_two (length ms) r i m Hi Hm Him Hir) as (a & b & l & ->); [|done].
    intros Hmr. by destruct (Hin m Hmr).
Qed.

Definition holds (r : list nat) (par : bool) (g : fecGroupState) : Prop :=
  gstart g = s /\ mask_of r (gotMask g) /\ (forall i, byte_at i (gacc g) = xor_at i (member <$> r)) /\
  (par = false -> gparity g = None) /\
  (par = true -> gk g = K /\ glens g = lenZ <$> ms /\ gparity g = Some (xor_list (max_len ms) ms)).

Definition room (d : fecDecoder) : Prop :=
  (size (groups d) < fecMaxPendingGroups)%nat \/ is_Some (groups d !! s).

(** The group is there, or is created empty. *)
Lemma getGroup_grp r par d : grp r par d -> room d ->
  let d1 := match groups d !! s with Some _ => d | None => newGroupLocked s d end in
  dec_wf d1 /\ same_core d0 d1 /\ isDoneLocked d1 s = false /\ (forall g, groups d !! s = Some g -> d1 = d) /\
  dom (groups d1) ⊆ dom (groups d) ∪ {[s]} /\
  exists g, groups d1 !! s = Some g /\ holds r par g.
Proof using All.
  intros [] Hroom d1. unfold d1. destruct (groups d !! s) as [g|] eqn:E.
  - split_and!; auto; [set_solver|]. exists g. split; [done|]. split; [by apply (w_start _ gr_wf0)|exact gr_state0].
  - destruct Hroom as [Hsz|[? ?]]; [|congruence].
    destruct (newGroup_spec s d gr_wf0 E) as (W & R & C & gs & G & _ & HG). rewrite (HG Hsz) in G.
    destruct gr_state0 as [-> ->].
    split_and!; auto; try done.
    + by etransitivity.
    + unfold isDoneLocked in *. by rewrite R.
    + rewrite G, dom_insert. set_solver.
    + exists (emptyGroup s). rewrite G, lookup_insert_eq. split; [done|].
      unfold holds. cbn. split_and!; auto using mask_of_nil; [by intros []|done].
Qed.

Lemma grp_insert r par g d : dec_wf d -> same_core d0 d -> isDoneLocked d s = false -> NoDup r ->
  Forall (fun i => i <> m /\ (i < length ms)%nat) r -> is_Some (groups d !! s) -> holds r par g ->
  grp r par (set_groups (<[s := g]> (groups d)) (spares d) d).
Proof using All.
  intros Hwf Hc Hd Hnd Hin [g0 Hg0] (H1 & H2 & H3 & H4 & H5). constructor; auto.
  - by eapply insert_wf.
  - etransitivity; [exact Hc|by constructor].
  - cbn [set_groups set_tables groups]. rewrite lookup_insert_eq. auto.
Qed.

(** A member of the group arrives. *)
Lemma step_data r par d p i f :
  grp r par d -> room d -> ~ complete r par -> i <> m -> ms !! i = Some f ->
  exists r', (forall j, j ∈ r' <-> j = i \/ j ∈ r) /\
    (complete r' par -> (OnDataActor p (s + Z.of_nat i) f d).2 = Some (s + Z.of_nat m, member m)) /\
    (~ complete r' par -> grp r' par (OnDataActor p (s + Z.of_nat i) f d).1 /\ (OnDataActor p (s + Z.of_nat i) f d).2 = None).
Proof using All.
  intros Hg Hroom Hnc Him Hf. pose proof (lookup_lt_Some _ _ _ Hf) as Hi.
  pose proof (getGroup_grp r par d Hg Hroom) as (W & C & Dn & Hsame & _ & g & G & Hh).
  destruct (Hg) as [GW GC GO GN GM GS]. unfold OnDataActor.
  rewrite (groupStartOf_core d) by (auto; unfold lenZ in Hlen; lia).
  rewrite (groupStart_member i Hi), GO. pose proof GC as [c1 c2 c3 c4 c5 c6 c7 c8 c9].
  rewrite c4, c5. unfold retiredSeq. rewrite c7. cbn [d0 NewFECDecoder staticSingle dfence retiredBefore Z.eqb negb andb].
  assert (f <> []) as Hfne by (apply (Forall_lookup_1 _ _ _ _ Hne Hf)).
  destruct (length f =? 0)%nat eqn:E0; [by apply Nat.eqb_eq, length_zero_iff_nil in E0|].
  destruct (Z.eqb_spec (s + Z.of_nat i) 0); [lia|]. cbn [orb].
  rewrite BypassData_fence0.
  unfold recordMember. rewrite (groupStartOf_core d) by (auto; unfold lenZ in Hlen; lia).
  rewrite (groupStart_member i Hi). set (d1 := match groups d !! s with Some _ => d | None => _ end) in *.
  rewrite G. destruct Hh as (Hst & Hmask & Hacc & Hp0 & Hp1).
  replace (s + Z.of_nat i - s) with (Z.of_nat i) by lia. rewrite u32_small by (unfold lenZ in Hlen; widths; lia).
  destruct (decide (i ∈ r)) as [Hir|Hir].
  - exists r. split; [intros j; split; [tauto|]; intros [->|]; auto|].
    assert (Z.land (gotMask g) (Z.shiftl 1 (Z.of_nat i)) <> 0) as Hland.
    { rewrite land_bit_zero by lia. rewrite Hmask. intros H. by apply bool_decide_eq_false in H. }
    apply Z.eqb_neq in Hland. rewrite Hland. cbn [negb fst snd]. split; [done|]. intros _. split; [|done].
    destruct (groups d !! s) eqn:E; [by rewrite (Hsame _ eq_refl)|]. destruct GS as [-> _]. by apply elem_of_nil in Hir.
  - exists (i :: r). split; [intros j; by rewrite elem_of_cons|].
    assert (Z.land (gotMask g) (Z.shiftl 1 (Z.of_nat i)) = 0) as ->.
    { rewrite land_bit_zero by lia. rewrite Hmask. by apply bool_decide_eq_false. }
    cbn [Z.eqb negb]. pose proof (mask_of_cons r (gotMask g) i Hmask) as Hmask'. set (got := Z.lor _ _) in *.
    assert (NoDup (i :: r)) as HN' by by constructor.
    assert (Forall (fun i => i <> m /\ (i < length ms)%nat) (i :: r)) as HM' by (constructor; auto).
    assert ((got =? fullMask d1) = false) as ->.
    { apply Z.eqb_neq. intros Heq. destruct C as [_ cf _ _ _ _ _ _ _]. rewrite cf in Heq.
      specialize (Hmask' m). rewrite Heq in Hmask'.
      rewrite bool_decide_eq_false_2 in Hmask' by (intros Hin; rewrite Forall_forall in HM'; by destruct (HM' m Hin)).
      assert (Z.testbit (Z.ones K) (Z.of_nat m) = true) as HT by (apply Z.ones_spec_low; unfold lenZ in Hlen; lia).
      cbn [d0 NewFECDecoder fullMask] in Hmask'. rewrite !clampFecGroup_id in Hmask' by done.
      destruct (Z.ltb_spec K 64).
      - unfold Z.ones in HT. rewrite <- Z.sub_1_r in HT. congruence.
      - assert (K = 64) as EK by lia. rewrite EK in HT. change (2 ^ 64 - 1) with (Z.ones 64) in Hmask'. congruence. }
    destruct (push_acc (length f) f (gacc g) (member <$> r) eq_refl Hacc) as [A1 _].
    set (acc' := xor_prefix _ f) in *. set (g2 := mkGroup _ _ _ _ _ _).
    assert (holds (i :: r) par g2) as Hh2.
    { split; [done|]. split; [done|]. split; [|done]. intros j. cbn [g2 gacc]. rewrite A1, xor_at_snoc, fmap_cons, xor_at_cons.
      by rewrite (member_lookup i f Hf), Z.lxor_comm. }
    set (d2 := set_groups _ _ d1). pose proof (grp_insert (i :: r) par g2 d1 W C Dn HN' HM' ltac:(by rewrite G) Hh2) as Hg2.
    destruct Hh2 as (S2 & M2 & B2 & P2 & Q2).
    destruct (tryRecover_group (i :: r) par g2 d2 S2 HN' HM' M2 B2 P2 Q2) as [T1 T2].
    split; [exact T1|]. intros Hc. rewrite (T2 Hc). split; [exact Hg2|done].
Qed.

Lemma max_pos : (0 < max_len ms)%nat.
Proof using All.
  destruct (lookup_lt_is_Some_2 ms m Hm) as [f Hf].
  assert (f <> []) by apply (Forall_lookup_1 _ _ _ _ Hne Hf).
  pose proof (max_len_elem f ms ltac:(by eapply list_elem_of_lookup_2)). destruct f; [done|]. cbn in *. lia.
Qed.

(** The parity of the group arrives. *)
Lemma step_parity r par d p :
  grp r par d -> room d -> ~ complete r par ->
  (complete r true -> (decStep d (p, DControl (parityPayload ic s ms))).2 = Some (s + Z.of_nat m, member m)) /\
  (~ complete r true -> grp r true (decStep d (p, DControl (parityPayload ic s ms))).1).
Proof using All.
  intros Hg Hroom Hnc.
  pose proof (getGroup_grp r par d Hg Hroom) as (W & C & Dn & Hsame & _ & g & G & Hh).
  destruct (Hg) as [GW GC GO GN GM GS]. pose proof GC as [c1 c2 c3 c4 c5 c6 c7 c8 c9].
  destruct (parity_decode ic K s ms HK ltac:(widths; lia) Hlen Hmx max_pos) as (P1 & P2 & P3 & P4 & P5 & P6 & P7).
  cbn [d0 NewFECDecoder dk dic staticSingle cleanupBefore retiredBefore] in c1, c3, c4, c6, c7.
  rewrite !clampFecGroup_id in c1 by done.
  assert (decStep d (p, DControl (parityPayload ic s ms)) = OnParityActorWithScratch p (parityPayload ic s ms) d) as ->.
  { unfold decStep, OnControlActorWithScratch. cbn [fst snd]. unfold parseControlKind.
    rewrite parityPayload_eq. cbn [app]. change (u8 controlKindFECParity) with controlKindFECParity. cbn [orb].
    by destruct (OnParityActorWithScratch _ _ _). }
  unfold OnParityActorWithScratch, parityCore. rewrite cleanup_eq, retire_idle by done.
  rewrite P2, P3, P4, c1, c3, c4. cbn [orb].
  assert ((length (parityPayload ic s ms) <? 7)%nat = false) as -> by (apply Nat.ltb_ge; lia). cbn [negb orb Z.eqb Pos.eqb].
  change (controlKindFECParity =? controlKindFECParity) with true. cbn [negb orb].
  rewrite Z.eqb_refl. destruct (Z.eqb_spec s 0); [lia|]. cbn [negb orb].
  rewrite u32_small by (widths; lia). pose proof Hal as Hal'. unfold aligned in Hal'. rewrite Hal', Z.eqb_refl. cbn [negb].
  unfold retiredSeq. rewrite c7. cbn [Z.eqb negb andb orb].
  assert ((length (parityPayload ic s ms) <? 6 + 4 * Z.to_nat K + tagLen ic)%nat = false) as -> by (apply Nat.ltb_ge; lia).
  rewrite P6, GO.
  rewrite foldr_max_lens, Nat2Z.id, P7.
  destruct (match groups d !! s with Some g0 => bool_decide (is_Some (gparity g0)) | None => false end) eqn:Epar.
  { destruct (groups d !! s) as [g0|] eqn:E0; [|done]. apply bool_decide_eq_true in Epar. destruct Epar as [? Epar].
    destruct par; [|destruct GS as (_ & _ & GS & _); by rewrite GS in Epar]. cbn [fst snd].
    split; [intros Hc; by destruct Hnc|intros _; exact Hg]. }
  set (d1 := match groups d !! s with Some _ => d | None => _ end) in *. rewrite G.
  assert (dic d1 = ic) as -> by (destruct C; done).
  rewrite open_sealedXor by (auto using max_pos).
  set (g2 := mkGroup _ _ _ _ _ _). destruct Hh as (Hst & Hmask & Hacc & _ & _).
  assert (holds r true g2) as Hh2 by (by split_and!).
  set (d2 := set_groups _ _ d1). pose proof (grp_insert r true g2 d1 W C Dn GN GM ltac:(by rewrite G) Hh2) as Hg2. fold d2 in Hg2.
  destruct Hh2 as (S2 & M2 & B2 & Q1 & Q2).
  destruct (tryRecover_group r true g2 d2 S2 GN GM M2 B2 Q1 Q2) as [T1 T2].
  destruct (tryRecoverActor g2 d2) as [d3 o] eqn:ER. split; [exact T1|]. intros Hc. specialize (T2 Hc).
  injection T2 as -> ->. cbn [fst]. rewrite retire_idle; [exact Hg2|]. destruct (gr_core _ _ _ Hg2). by rewrite c_cleanup0.
Qed.

(** Traffic of other groups. *)
Lemma step_foreign r par d p ev :
  grp r par d -> foreign ev ->
  (size (groups d) < fecMaxPendingGroups)%nat \/ is_Some (groups d !! startOf ev) ->
  grp r par (decStep d (p, ev)).1 /\ dom (groups (decStep d (p, ev)).1) ⊆ dom (groups d) ∪ {[startOf ev]}.
Proof using All.
  intros Hg Hfor Hsz. assert (forall d', keeps (startOf ev) s d d' -> dec_wf d' ->
    grp r par d' /\ dom (groups d') ⊆ dom (groups d) ∪ {[startOf ev]}) as Hk.
  { intros d' [k1 k2 k3 k4] Hw'. split; [|done]. destruct Hg. constructor; auto; [by etransitivity|by rewrite k1]. }
  destruct (Hg) as [GW GC GO GN GM GS]. pose proof GC as [c1 c2 c3 c4 c5 c6 c7 c8 c9].
  apply Hk; [|by apply decStep_wf]. destruct ev as [q f|pl]; cbn [decStep fst snd foreign startOf] in *.
  - destruct Hfor as [Hq Hfor]. unfold OnDataActor. rewrite c5. cbn [d0 NewFECDecoder dfence].
    rewrite BypassData_fence0.
    destruct (_ || _ || _) eqn:E; [apply keeps_refl|]. rewrite !orb_false_iff, Z.eqb_neq in E. destruct E as [[_ Eq] _].
    destruct Hfor as [|Hfor]; [done|]. rewrite <- (groupStartOf_core d q GC) in * by (widths; lia).
    destruct (retiredSeq d q); [apply keeps_refl|]. destruct (isDoneLocked d (groupStartOf d q)); [apply keeps_refl|].
    by apply keeps_recordMember.
  - destruct Hfor as [Hmode Hne']. unfold OnControlActorWithScratch.
    destruct (parseControlKind pl) as [kind|]; [|apply keeps_refl].
    destruct (kind =? controlKindFECParity).
    + unfold OnParityActorWithScratch. pose proof (keeps_parityCore p pl s d GW ltac:(by rewrite c6) Hne' Hsz) as HK'.
      destruct (parityCore p pl d) as [[d' o] fin]. cbn [fst] in *. rewrite retire_idle.
      * by destruct fin.
      * destruct HK' as [_ _ _ []]. rewrite c_cleanup0. by rewrite c6.
    + destruct (kind =? controlKindFECMode); [|apply keeps_refl]. rewrite Hmode. apply keeps_refl.
Qed.

(** ** Whole event sequences *)

Definition parityEv : decEvent := DControl (parityPayload ic s ms).
Definition memberEv (i : nat) : decEvent := DData (s + Z.of_nat i) (member i).

(** Everything of the group but the lost member has arrived. *)
Definition arrived (evs : list (Z * decEvent)) : Prop :=
  parityEv ∈ evs.*2 /\ forall i, (i < length ms)%nat -> i <> m -> memberEv i ∈ evs.*2.

Definition groupsTouched (evs : list (Z * decEvent)) : gset Z := list_to_set (startOf <$> evs.*2).

Lemma startOf_genuine ev : genuine ev -> startOf ev = s.
Proof using All.
  intros [(i & f & Hi & Hf & ->)| ->]; cbn [startOf].
  - apply groupStart_member. by eapply lookup_lt_Some.
  - by destruct (parity_decode ic K s ms HK ltac:(widths; lia) Hlen Hmx max_pos) as (_ & _ & P3 & _).
Qed.

Lemma startOf_foreign ev : foreign ev -> startOf ev <> s.
Proof using All.
  destruct ev as [q f|pl]; cbn; [|tauto]. intros [Hq [->|H]]; [|done]. cbn. lia.
Qed.

(** [r] and [par] are what the events brought. *)
Definition tracks (evs : list (Z * decEvent)) (r : list nat) (par : bool) : Prop :=
  (par = true <-> parityEv ∈ evs.*2) /\
  forall i, i ∈ r <-> (i < length ms)%nat /\ i <> m /\ memberEv i ∈ evs.*2.

Lemma tracks_complete evs r par : tracks evs r par -> complete r par <-> arrived evs.
Proof using All.
  intros [H1 H2]. unfold complete, arrived. rewrite <- H1. split; intros [HA HB]; (split; [done|]); intros i Hi Him.
  - by apply H2, HB.
  - apply H2. auto.
Qed.

Lemma tracks_foreign evs e r par : foreign e.2 -> tracks evs r par -> tracks (evs ++ [e]) r par.
Proof using All.
  intros Hf [H1 H2]. apply startOf_foreign in Hf.
  assert (forall ev, startOf ev = s -> ev ∈ (evs ++ [e]).*2 <-> ev ∈ evs.*2) as Hin.
  { intros ev Hev. rewrite fmap_app, elem_of_app. cbn. rewrite list_elem_of_singleton. split; [|auto].
    intros [?| ->]; [done|congruence]. }
  split.
  - rewrite Hin; [done|]. apply startOf_genuine. by right.
  - intros i. rewrite H2. destruct (decide (i < length ms)%nat) as [Hi|]; [|split; intros (? & _); done].
    rewrite Hin; [done|]. cbn. by apply groupStart_member.
Qed.

Lemma member_inj i j : memberEv i = memberEv j -> i = j.
Proof using All. unfold memberEv. intros [= H _]. lia. Qed.

Lemma tracks_parity evs p r par : tracks evs r par -> tracks (evs ++ [(p, parityEv)]) r true.
Proof using All.
  intros [H1 H2]. split.
  - rewrite fmap_app, elem_of_app. split; [intros _; right; by left|done].
  - intros i. rewrite H2, fmap_app, elem_of_app. cbn. rewrite list_elem_of_singleton. unfold memberEv, parityEv.
    split; [intros (? & ? & ?); auto|]. intros (? & ? & [?|?]); [auto|done].
Qed.

Lemma tracks_member evs p r r' par i : i <> m -> (i < length ms)%nat -> (forall j, j ∈ r' <-> j = i \/ j ∈ r) ->
  tracks evs r par -> tracks (evs ++ [(p, memberEv i)]) r' par.
Proof using All.
  intros Him Hi Hr [H1 H2]. split.
  - rewrite H1, fmap_app, elem_of_app. cbn. rewrite list_elem_of_singleton. unfold memberEv, parityEv.
    split; [auto|]. intros [?|?]; done.
  - intros j. rewrite Hr, H2, fmap_app, elem_of_app. cbn. rewrite list_elem_of_singleton. split.
    + intros [->|(? & ? & ?)]; auto 6.
    + intros (? & ? & [?|E]); [auto|]. left. by apply member_inj.
Qed.

Lemma room_of (d : fecDecoder) t (T : gset Z) : dom (groups d) ∪ {[t]} ⊆ T -> (size T <= fecMaxPendingGroups)%nat ->
  (size (groups d) < fecMaxPendingGroups)%nat \/ is_Some (groups d !! t).
Proof using All.
  intros Hsub Hsz. destruct (groups d !! t) eqn:E; [right; eauto|left].
  apply not_elem_of_dom in E. apply subseteq_size in Hsub.
  rewrite size_union, size_singleton, size_dom in Hsub by set_solver. lia.
Qed.

Lemma exec_snoc d evs e : decExec d (evs ++ [e]) = (decStep (decExec d evs) e).1.
Proof using All. unfold decExec. by rewrite fold_left_app. Qed.

(** One more event: the lost member comes out exactly when it completes the set. *)
Lemma recovery_step evs e r par T :
  grp r par (decExec d0 evs) -> tracks evs r par -> ~ arrived evs -> genuine e.2 \/ foreign e.2 ->
  dom (groups (decExec d0 evs)) ∪ {[startOf e.2]} ⊆ T -> (size T <= fecMaxPendingGroups)%nat ->
  (arrived (evs ++ [e]) -> (decStep (decExec d0 evs) e).2 = Some (s + Z.of_nat m, member m)) /\
  (~ arrived (evs ++ [e]) -> exists r' par', grp r' par' (decExec d0 (evs ++ [e])) /\ tracks (evs ++ [e]) r' par').
Proof using All.
  intros Hg Htr Hna Hev Hsub Hsz. rewrite <- (tracks_complete _ _ _ Htr) in Hna. rewrite exec_snoc.
  pose proof (room_of _ _ _ Hsub Hsz) as Hroom. destruct e as [p ev]. cbn [snd] in *. destruct Hev as [Hev|Hev].
  - rewrite (startOf_genuine _ Hev) in Hroom. destruct Hev as [(i & f & Him & Hf & ->)| ->].
    + destruct (step_data r par _ p i f Hg Hroom Hna Him Hf) as (r' & Hr' & S1 & S2).
      rewrite <- (member_lookup i f Hf) in *. fold (memberEv i).
      pose proof (tracks_member evs p r r' par i Him ltac:(by eapply lookup_lt_Some) Hr' Htr) as Htr'.
      rewrite <- (tracks_complete _ _ _ Htr'). split; [exact S1|]. intros Hc. exists r', par. split; [by apply S2|done].
    + destruct (step_parity r par _ p Hg Hroom Hna) as [S1 S2].
      pose proof (tracks_parity evs p r par Htr) as Htr'. fold parityEv.
      rewrite <- (tracks_complete _ _ _ Htr'). split; [exact S1|]. intros Hc. exists r, true. split; [by apply S2|done].
  - destruct (step_foreign r par _ p ev Hg Hev Hroom) as [S1 S2].
    pose proof (tracks_foreign evs (p, ev) r par Hev Htr) as Htr'.
    rewrite <- (tracks_complete _ _ _ Htr'). split; [done|]. intros _. exists r, par. done.
Qed.

Lemma grp_init : grp [] false d0.
Proof using All.
  constructor; [apply new_wf|reflexivity| |apply NoDup_nil_2|done|done].
  - unfold isDoneLocked. cbn [d0 NewFECDecoder doneRing]. unfold zeros.
    apply Z.eqb_neq. rewrite nth_lookup. destruct (replicate _ _ !! _) eqn:E; cbn; [|lia].
    apply lookup_replicate in E as [-> _]. lia.
Qed.

Lemma recovery_prefix evs :
  Forall (fun e => genuine e.2 \/ foreign e.2) evs -> (size (groupsTouched evs) <= fecMaxPendingGroups)%nat ->
  ~ arrived evs ->
  dom (groups (decExec d0 evs)) ⊆ groupsTouched evs /\
  exists r par, grp r par (decExec d0 evs) /\ tracks evs r par.
Proof using All.
  induction evs as [|e evs IH] using rev_ind; intros HF Hsz Hna.
  { split; [set_solver|]. exists [], false. split; [apply grp_init|].
    split; [split; [done|]; intros H; by apply elem_of_nil in H|].
    intros i. split; [intros H; by apply elem_of_nil in H|]. intros (_ & _ & H). by apply elem_of_nil in H. }
  apply Forall_app in HF as [HF He]. apply Forall_cons_1 in He as [He _].
  assert (groupsTouched (evs ++ [e]) = groupsTouched evs ∪ {[startOf e.2]}) as HT.
  { unfold groupsTouched. rewrite !fmap_app, list_to_set_app_L. cbn. set_solver. }
  assert (size (groupsTouched evs) <= fecMaxPendingGroups)%nat as Hsz'.
  { etransitivity; [|exact Hsz]. apply subseteq_size. rewrite HT. set_solver. }
  assert (~ arrived evs) as Hna'.
  { intros [HA HB]. apply Hna. split; [|intros i Hi Him; specialize (HB i Hi Him)]; rewrite fmap_app, elem_of_app; auto. }
  destruct (IH HF Hsz' Hna') as (HD & r & par & Hg & Htr).
  assert (dom (groups (decExec d0 evs)) ∪ {[startOf e.2]} ⊆ groupsTouched (evs ++ [e])) as Hsub by (rewrite HT; set_solver).
  destruct (recovery_step evs e r par _ Hg Htr Hna' He Hsub Hsz) as [_ S2]. split; [|by apply S2].
  rewrite exec_snoc. destruct e as [p ev]. cbn [snd] in *.
  destruct ev as [q f|pl]; cbn [startOf] in *; [|etransitivity; [apply decStep_dom; apply (gr_wf _ _ _ Hg)|done]].
  destruct (decide (q = 0)) as [->|Hq].
  { cbn [decStep fst snd]. unfold OnDataActor. rewrite orb_true_r. cbn. set_solver. }
  etransitivity; [apply decStep_dom; apply (gr_wf _ _ _ Hg)|]. cbn.
  rewrite groupStartOf_core; [done|apply (gr_core _ _ _ Hg)|]. 
  assert (is_u32 q) as Hq32; [|widths; lia].
  destruct He as [[(i & f' & _ & Hf' & [= -> _])|[=]]|[He _]]; [|exact He].
  apply lookup_lt_Some in Hf'. unfold lenZ in Hlen. widths. lia.
Qed.
End Recovery.

(** ** Properties of the decoder *)

(** Single-loss recovery.  A group of K frames loses member [m].  The other
    K-1 members and the parity the encoder built arrive in any order, repeated or
    not, interleaved with any traffic of other groups (data, well-formed or malformed
    parity, unknown controls; at most 512 groups, the pending limit, and no FEC_MODE).
    The event that completes the set returns exactly the lost frame under its own
    sequence number. *)
Theorem single_loss_recovered (ic : option innerCipher) (K s : Z) (ms : list bytes) (m : nat) (out : bool)
    (evs : list (Z * decEvent)) (last : Z * decEvent) :
  CipherOk ic -> 2 <= K <= 64 -> aligned K s -> 1 <= s /\ s + K <= 2 ^ 32 -> lenZ ms = K ->
  Forall (fun f => f <> []) ms -> (m < length ms)%nat -> Z.of_nat (max_len ms + tagLen ic) < 2 ^ 32 ->
  Forall (fun e => genuine ic s ms m e.2 \/ foreign K s e.2) (evs ++ [last]) ->
  (size (groupsTouched K (evs ++ [last])) <= fecMaxPendingGroups)%nat ->
  ~ arrived ic s ms m evs -> arrived ic s ms m (evs ++ [last]) ->
  (decStep (decExec (NewFECDecoder K ic out) evs) last).2 = Some (s + Z.of_nat m, nth m ms []).
Proof.
  intros Hok HK Hal Hs Hlen Hne Hm Hmx HF Hsz Hna Ha.
  assert (groupsTouched K (evs ++ [last]) = groupsTouched K evs ∪ {[startOf K last.2]}) as HT.
  { unfold groupsTouched. rewrite !fmap_app, list_to_set_app_L. cbn. set_solver. }
  apply Forall_app in HF as [HF He]. apply Forall_cons_1 in He as [He _].
  destruct (recovery_prefix ic K s ms m out HK Hal Hs Hlen Hne Hm Hmx evs HF) as (HD & r & par & Hg & Htr); [|done|].
  { etransitivity; [|exact Hsz]. apply subseteq_size. rewrite HT. set_solver. }
  destruct (recovery_step ic K s ms m out HK Hal Hs Hlen Hne Hm Hmx evs last r par
    (groupsTouched K (evs ++ [last])) Hg Htr Hna He) as [S1 _]; [rewrite HT; set_solver|done|]. by apply S1.
Qed.

(** The decoder's pending state is bounded: after any sequence of data,
    parity and mode controls, well formed or not, at most 512 groups are pending, each
    of them is filed under its own start and is still in the eviction queue. *)
Theorem decoder_pending_bounded (k : Z) (ic : option innerCipher) (out : bool) (evs : list (Z * decEvent)) :
  let d := decExec (NewFECDecoder k ic out) evs in
  (size (groups d) <= fecMaxPendingGroups)%nat /\
  forall s g, groups d !! s = Some g -> gstart g = s /\ s ∈ drop (groupHead d) (groupOrder d).
Proof.
  intros d. destruct (decExec_wf evs _ (new_wf k ic out)) as [W1 W2 W3 W4 W5]. split; [done|].
  intros s g Hg. split; [by apply W4|]. apply W1. by exists g.
Qed.

Section LockedProperties.
Context {W : Type} `{ReorderSink W}.

(** The batch entry point is the loop over the single-frame one: OnDataBatch
    on a list of frames has the same effect on decoder and reorder buffer as
    OnData on each of them in turn. *)
Theorem OnDataBatch_is_fold (frames : list VPNFrame) (dw : fecDecoder * W) :
  OnDataBatch frames dw = fold_left (fun dw vf => OnData (Seq vf) (Data vf) dw) frames dw.
Proof.
  assert (forall dw vf, batchStep dw vf = OnData (Seq vf) (Data vf) dw) as Hstep.
  { intros [d w] vf. unfold batchStep, OnData. rewrite cleanup_eq.
    destruct (_ || _); [done|]. destruct (staticSingle d); [done|].
    destruct (BypassData _ _); [done|]. destruct (retiredSeq _ _); [done|]. done. }
  unfold OnDataBatch. destruct frames as [|vf frames]; [done|]. cbn [length Nat.eqb orb].
  destruct (staticSingle dw.1) eqn:E.
  - remember (vf :: frames) as l. clear Heql. induction l as [|v l IH]; [done|]. cbn [fold_left].
    assert (OnData (Seq v) (Data v) dw = dw) as ->; [|done].
    destruct dw as [d w]. cbn in E. unfold OnData. rewrite E. by destruct (_ || _).
  - clear E. generalize (vf :: frames) as l. intros l. revert dw. induction l as [|v l IH]; intros dw; [done|].
    cbn [fold_left]. by rewrite Hstep, IH.
Qed.

(** The actor path and the locked path agree.  OnData leaves the same decoder
    state as OnDataActor and puts into the reorder buffer exactly the frame that
    OnDataActor returns, with one difference: the locked path also counts the
    recovery in the lifetime counters, the actor path does not. *)
Theorem OnData_refines_actor (seq : Z) (frame : bytes) (d : fecDecoder) (w : W) :
  OnData seq frame (d, w) =
    let '(d', r) := OnDataActor (sink_progress w) seq frame d in deliverRecovered r (d', w).
Proof.
  unfold OnData, OnDataActor. rewrite cleanup_eq.
  destruct (length frame =? 0)%nat, (seq =? 0), (staticSingle d); cbn [orb]; try done.
  destruct (BypassData _ _); [done|]. destruct (retiredSeq _ _); [done|].
  destruct (isDoneLocked d (groupStartOf d seq)); [done|]. cbn [orb]. unfold recordMemberLocked. cbn [fst snd].
  by destruct (recordMember seq frame d).
Qed.
End LockedProperties.

(** Nothing on the actor path writes the lifetime recovery counter. *)
Definition lifeRec (d : fecDecoder) : option Z := lifeRecovered <$> lifetime d.

Lemma prune_life d : lifeRec (pruneGroupOrderLocked d) = lifeRec d.
Proof. unfold pruneGroupOrderLocked. by repeat case_match. Qed.
Lemma newGroup_life t d : lifeRec (newGroupLocked t d) = lifeRec d.
Proof.
  unfold newGroupLocked. set (d1 := pruneGroupOrderLocked d). set (d2 := if (_ <=? _)%nat then _ else d1).
  change (lifeRec d2 = lifeRec d). unfold d2. destruct (_ <=? _)%nat; [|apply prune_life].
  rewrite prune_life. unfold evictOldest. destruct (evictLoop _ _) as [n r]. apply (prune_life d).
Qed.
Lemma dropWhere_life P d : lifeRec (dropWhere P d) = lifeRec d.
Proof. unfold dropWhere. case_match; [done|]. by rewrite prune_life. Qed.
Lemma retire_life p d : lifeRec (maybeRetireOldGroupsLocked p d) = lifeRec d.
Proof. unfold maybeRetireOldGroupsLocked. repeat case_match; try done. by rewrite dropWhere_life. Qed.
Lemma finish_life g d : lifeRec (finishGroupLocked g d) = lifeRec d.
Proof.
  unfold finishGroupLocked. destruct (_ && _); [|done]. unfold lifeRec. cbn. by destruct (lifetime d).
Qed.
#[export] Hint Rewrite prune_life newGroup_life dropWhere_life retire_life finish_life : vpn.

Lemma tryRecover_life g d : lifeRec (tryRecoverActor g d).1 = lifeRec d.
Proof.
  unfold tryRecoverActor. destruct (gparity g); [|done]. destruct (gk g =? 0); [done|].
  destruct (missingBits _ _) as [|i [|]]; cbn [fst]; autorewrite with vpn; [done| |done].
  destruct (glens g !! _) as [n|]; cbn [fst]; [|by autorewrite with vpn].
  destruct (_ <? n); cbn [fst]; [by autorewrite with vpn|].
  match goal with |- lifeRec (set_counts _ _ _ ?x) = _ => change (lifeRec x = lifeRec d) end. by autorewrite with vpn.
Qed.

Lemma getGroup_life t d : lifeRec (match groups d !! t with Some _ => d | None => newGroupLocked t d end) = lifeRec d.
Proof. destruct (groups d !! t); [done|]. by autorewrite with vpn. Qed.

Lemma recordMember_life q f d : lifeRec (recordMember q f d).1 = lifeRec d.
Proof.
  unfold recordMember. rewrite <- (getGroup_life (groupStartOf d q) d).
  set (d1 := match _ with Some _ => d | None => _ end). clearbody d1. destruct (groups d1 !! _); [|done].
  destruct (negb _); [done|]. destruct (_ =? fullMask d1); cbn [fst]; [by autorewrite with vpn|]. by rewrite tryRecover_life.
Qed.

Lemma parityCore_life p pl d : lifeRec (parityCore p pl d).1.1 = lifeRec d.
Proof.
  unfold parityCore. rewrite cleanup_eq. destruct (_ || _ || _); [done|]. destruct (_ || _ || _); [done|].
  rewrite <- (retire_life p d). set (d1 := maybeRetireOldGroupsLocked p d). clearbody d1.
  destruct (retiredSeq d1 _); [done|]. destruct (_ <? _)%nat; [done|]. destruct (parityLens _ _ _); [|done].
  destruct (_ || _ || _); [done|].
  destruct (match groups d1 !! be_dec (slice 1 5 pl) with Some g => bool_decide (is_Some (gparity g)) | None => false end); [done|].
  rewrite <- (getGroup_life (be_dec (slice 1 5 pl)) d1).
  set (d2 := match groups d1 !! be_dec (slice 1 5 pl) with Some _ => d1 | None => _ end). clearbody d2.
  destruct (groups d2 !! _); [|done]. destruct (openToWithScratch _ _ _ _ _); cbn [fst]; [|done]. by rewrite tryRecover_life.
Qed.

Lemma handleMode_life p c d : lifeRec (handleModeControlActor p c d) = lifeRec d.
Proof.
  unfold handleModeControlActor. destruct (fence_Apply _ _) as [f ok]. destruct (negb ok); [done|].
  destruct (fence_Window f) as [from til]. destruct (from =? 0) eqn:E; [done|]. autorewrite with vpn.
  unfold dropGroupsInRangeLocked. rewrite E. by autorewrite with vpn.
Qed.

Lemma decStep_lifetime e d : lifeRec (decStep d e).1 = lifeRec d.
Proof.
  destruct e as [p [q f|pl]]; cbn [decStep fst snd].
  - unfold OnDataActor. destruct (_ || _ || _); [done|].
    destruct (BypassData _ _); [cbn [fst]; destruct (_ =? 0); by autorewrite with vpn|].
    destruct (retiredSeq _ _); [done|]. destruct (isDoneLocked _ _); [done|]. apply recordMember_life.
  - unfold OnControlActorWithScratch. destruct (parseControlKind pl) as [kind|]; [|done]. destruct (kind =? _).
    + unfold OnParityActorWithScratch. pose proof (parityCore_life p pl d) as HP.
      destruct (parityCore p pl d) as [[d1 o] fin]. cbn [fst] in *. destruct fin; by autorewrite with vpn.
    + destruct (kind =? _); [|done]. destruct (parseFECModeControl pl); cbn [fst]; [apply handleMode_life|done].
Qed.

(** The actor path never advances the lifetime recovery counter: whatever the
    events, the counter that the session statistics read keeps its value although
    recovered frames are returned. *)
Theorem actor_lifetime_recovered_constant (d : fecDecoder) (evs : list (Z * decEvent)) :
  lifeRecovered <$> lifetime (decExec d evs) = lifeRecovered <$> lifetime d.
Proof.
  revert d. induction evs as [|e evs IH]; intros d; [done|]. cbn [decExec fold_left]. fold (decExec (decStep d e).1 evs).
  rewrite IH. apply decStep_lifetime.
Qed.

(** ** Growth of the eviction queue *)

(** Group 1 loses a member for good; the groups 3, 5, ... arrive whole. *)
Definition pairEvents (i : nat) : list (Z * decEvent) :=
  [(0, DData (2 * Z.of_nat i + 3) [0]); (0, DData (2 * Z.of_nat i + 4) [0])].
Definition leakEvents (n : nat) : list (Z * decEvent) := (0, DData 1 [0]) :: concat (pairEvents <$> seq 0 n).

Record leaking (n : nat) (d : fecDecoder) : Prop := {
  l_core : same_core (NewFECDecoder 2 None false) d;
  l_groups : exists g, groups d = {[1 := g]};
  l_head : groupHead d = 0%nat;
  l_order : exists rest, groupOrder d = 1 :: rest /\ length rest = n;
  l_ring : Forall (fun s => s < 2 * Z.of_nat n + 3) (doneRing d)
}.

Lemma leaking_idle n d q : same_core (NewFECDecoder 2 None false) d -> Forall (fun s => s < 2 * Z.of_nat n + 3) (doneRing d) -> 2 * Z.of_nat n + 3 <= q <= 2 * Z.of_nat n + 4 -> q < 2 ^ 32 ->
  groupStartOf d q = 2 * Z.of_nat n + 3 /\ OnDataActor 0 q [0] d = recordMember q [0] d.
Proof.
  intros [] l_ring0 Hq Hmax. cbn [NewFECDecoder dk staticSingle dfence retiredBefore] in *.
  assert (groupStartOf d q = 2 * Z.of_nat n + 3) as Hst.
  { unfold groupStartOf. rewrite c_dk0. change (clampFecGroup (clampFecGroup 2)) with 2. change (clampFecGroup 2) with 2.
    destruct (decide (q = 2 * Z.of_nat n + 3)) as [->|]; [|replace q with (2 * Z.of_nat n + 4) by lia]; mlia. }
  split; [done|]. unfold OnDataActor. rewrite Hst, c_single0, c_fence0. unfold retiredSeq. rewrite c_retired0.
  destruct (Z.eqb_spec q 0); [lia|]. cbn [length Nat.eqb orb Z.eqb negb andb].
  rewrite BypassData_fence0.
  assert (isDoneLocked d (2 * Z.of_nat n + 3) = false) as ->; [|done].
  unfold isDoneLocked. apply Z.eqb_neq. rewrite nth_lookup. destruct (doneRing d !! _) eqn:E; cbn; [|lia].
  apply (Forall_lookup_1 _ _ _ _ l_ring0) in E. cbn in E. lia.
Qed.

Lemma leak_new t d g rest : groups d = {[1 := g]} -> groupHead d = 0%nat -> groupOrder d = 1 :: rest ->
  newGroupLocked t d = set_tables (<[t := emptyGroup t]> (groups d)) (groupOrder d ++ [t]) 0 (doneRing d) (pred (spares d)) d.
Proof.
  intros Hg Hh Ho. unfold newGroupLocked.
  assert (pruneGroupOrderLocked d = d) as ->.
  { unfold pruneGroupOrderLocked. rewrite Hh, Ho, Hg. cbn [drop skipDead]. rewrite lookup_singleton_eq. cbn [Nat.add Nat.eqb].
    destruct d; cbn in *; by subst. }
  rewrite Hg, map_size_singleton. cbn [Nat.leb fecMaxPendingGroups]. by rewrite Hh, Hg.
Qed.

Lemma leak_pair n d : leaking n d -> 2 * Z.of_nat n + 4 < 2 ^ 32 -> leaking (S n) (decExec d (pairEvents n)).
Proof.
  intros [Hc (g & Hg) Hh (rest & Ho & Hr) Hring] Hmax.
  destruct (leaking_idle n d (2 * Z.of_nat n + 3) Hc Hring ltac:(lia) ltac:(lia)) as [S1 E1].
  set (t := 2 * Z.of_nat n + 3) in *.
  assert (groups d !! t = None) as Hnone by (rewrite Hg; apply lookup_singleton_ne; unfold t; lia).
  set (g1 := mkGroup t 0 [] 1 [0] None).
  set (d1 := set_tables (<[t := g1]> (groups d)) (groupOrder d ++ [t]) 0 (doneRing d) (pred (spares d)) d).
  assert (fullMask d = 3) as Hfull by (destruct Hc; by rewrite c_full0).
  assert ((decStep d (0, DData t [0])).1 = d1) as HD1.
  { cbn [decStep fst snd]. rewrite E1. unfold recordMember. rewrite S1, Hnone, (leak_new t d g rest Hg Hh Ho).
    cbn [groups set_tables]. rewrite lookup_insert_eq. cbn [emptyGroup gotMask gstart gk glens gacc gparity].
    rewrite Z.sub_diag. change (u32 0) with 0. change (negb (Z.land 0 (Z.shiftl 1 0) =? 0)) with false.
    change (Z.lor 0 (Z.shiftl 1 0)) with 1. change (fullMask (set_tables _ _ _ _ _ d)) with (fullMask d). rewrite Hfull.
    change (1 =? 3) with false. cbv iota. unfold tryRecoverActor. cbn [gparity fst]. unfold d1, set_groups.
    rewrite insert_insert_eq. done. }
  assert (same_core (NewFECDecoder 2 None false) d1) as Hc1 by by destruct Hc.
  destruct (leaking_idle n d1 (2 * Z.of_nat n + 4) Hc1 Hring ltac:(lia) ltac:(lia)) as [S2 E2]. fold t in S2.
  unfold decExec, pairEvents. cbn [fold_left]. fold t. rewrite HD1. cbn [decStep fst snd]. rewrite E2. unfold recordMember.
  assert (groups d1 !! t = Some g1) as Hg1 by apply lookup_insert_eq.
  rewrite S2. rewrite Hg1. cbv iota. rewrite Hg1.
  replace (2 * Z.of_nat n + 4 - t) with 1 by (unfold t; lia). change (u32 1) with 1.
  change (negb (Z.land (gotMask g1) (Z.shiftl 1 1) =? 0)) with false. change (Z.lor (gotMask g1) (Z.shiftl 1 1)) with 3.
  change (fullMask d1) with (fullMask d). rewrite Hfull. change (3 =? 3) with true. cbv iota. cbn [fst].
  unfold finishGroupLocked, markDoneLocked, set_groups. cbn [g1 gstart gk glens gacc gparity Z.ltb Z.compare andb].
  constructor; cbn [set_tables groups groupHead groupOrder doneRing d1].
  - by destruct Hc.
  - exists g. rewrite delete_insert_id by done. exact Hg.
  - done.
  - exists (rest ++ [t]). rewrite Ho. split; [done|]. rewrite length_app. cbn. lia.
  - apply Forall_insert; [eapply Forall_impl; [exact Hring|]; cbn; intros; lia|unfold t; lia].
Qed.

(** The eviction queue is not bounded by the number of pending groups.  After a
    group that never completes, [n] complete groups leave one pending group and a
    queue of [n + 1] entries: entries behind a live head are never dropped, because
    only 512 pending groups trigger an eviction. *)
Theorem groupOrder_grows (n : nat) :
  2 * Z.of_nat n + 4 < 2 ^ 32 ->
  let d := decExec (NewFECDecoder 2 None false) (leakEvents n) in
  size (groups d) = 1%nat /\ length (groupOrder d) = S n.
Proof.
  intros Hn. assert (leaking n (decExec (NewFECDecoder 2 None false) (leakEvents n))) as [_ (g & Hg) _ (rest & Ho & Hr) _].
  { unfold leakEvents, decExec. cbn [fold_left]. induction n as [|n IH].
    - cbn [seq fmap list_fmap concat fold_left]. constructor; [by vm_compute| |done|by exists []|].
      + eexists. vm_compute. reflexivity.
      + vm_compute. by repeat constructor.
    - rewrite seq_S, fmap_app, concat_app, fold_left_app. cbn [fmap list_fmap concat]. rewrite app_nil_r.
      apply (leak_pair n); [apply IH; lia|lia]. }
  cbv zeta. rewrite Hg, Ho, map_size_singleton. cbn. by rewrite Hr.
Qed.

(** ** Witnesses *)

Definition demoGroup : list bytes := [[1; 2]; [7]].
Definition demoArrivals : list (Z * decEvent) :=
  [(0, DData 1 [9]); (0, DControl (parityPayload (Some demoCipher) 3 demoGroup)); (0, DData 3 [1; 2])].

Lemma single_loss_recovered_witness :
  (decStep (decExec (NewFECDecoder 2 (Some demoCipher) false) (take 2 demoArrivals)) (0, DData 3 [1; 2])).2 = Some (4, [7]).
Proof.
  apply (single_loss_recovered (Some demoCipher) 2 3 demoGroup 1 false (take 2 demoArrivals) (0, DData 3 [1; 2])).
  - apply _.
  - lia.
  - reflexivity.
  - lia.
  - reflexivity.
  - by repeat constructor.
  - cbn. lia.
  - reflexivity.
  - constructor; [|constructor; [|constructor; [|constructor]]].
    + right. cbn. split; [by vm_compute|]. right. by vm_compute.
    + left. right. reflexivity.
    + left. left. exists 0%nat, [1; 2]. done.
  - vm_compute. lia.
  - intros [_ H]. specialize (H 0%nat ltac:(cbn; lia) ltac:(done)). apply (bool_decide_pack _) in H.
    vm_compute in H. exact H.
  - split; [apply (bool_decide_unpack _); vm_compute; exact I|]. intros i Hi Hne.
    assert (i = 0%nat) as -> by (cbn in Hi; lia). apply (bool_decide_unpack _); vm_compute; exact I.
Defined.

Lemma groupOrder_grows_witness : length (groupOrder (decExec (NewFECDecoder 2 None false) (leakEvents 100))) = 101%nat.
Proof. apply (groupOrder_grows 100). reflexivity. Defined.
