(* ===== verification/Recovery.v ===== *)
(** * Soundness of FEC recovery (fec.go, rx_actor.go)

    Whatever a receiver is fed by a sender that follows the protocol (frames lost,
    repeated and reordered at will, parity records of complete groups, mode controls
    and unknown controls in any order), every frame that the decoder recovers is the
    frame that was sent under that number.  The file extends the single-group analysis
    of the decoder to all groups at once, with eviction, retirement and fences. *)

From stdpp Require Import base tactics list numbers gmap.
From S2P Require Import Prelude Aead Frame FecControl FecEncoder FecDecoder.
#[local] Open Scope Z_scope.

(** The payloads of the group that starts at number [s]; number 1 is the first payload. *)
Definition groupPayloads (K : Z) (data : list bytes) (s : Z) : list bytes :=
  slice (Z.to_nat (s - 1)) (Z.to_nat (s - 1 + K)) data.

(** [f] was sent under the number [q]. *)
Definition sentAs (data : list bytes) (q : Z) (f : bytes) : Prop := 1 <= q /\ data !! Z.to_nat (q - 1) = Some f.

(** What a sender puts on the wire: its data, and parity of complete groups only. *)
Definition honest (ic : option innerCipher) (K : Z) (data : list bytes) (ev : decEvent) : Prop :=
  match ev with
  | DData q f => q = 0 \/ sentAs data q f
  | DControl pl => byte_at 0 pl = controlKindFECParity ->
      exists s, aligned K s /\ 1 <= s /\ s + K - 1 <= lenZ data /\ pl = parityPayload ic s (groupPayloads K data s)
  end.

Lemma slice_lookup {A} (i j k : nat) (l : list A) : (k < j - i)%nat -> slice i j l !! k = l !! (i + k)%nat.
Proof. intros H. unfold slice. by rewrite lookup_take_lt, lookup_drop by done. Qed.

Lemma groupPayloads_lookup K data s (i : nat) : 1 <= s -> Z.of_nat i < K ->
  groupPayloads K data s !! i = data !! Z.to_nat (s + Z.of_nat i - 1).
Proof. intros Hs Hi. unfold groupPayloads. rewrite slice_lookup by lia. f_equal. lia. Qed.

Lemma groupPayloads_length K data s : 1 <= s -> 0 <= K -> s + K - 1 <= lenZ data -> lenZ (groupPayloads K data s) = K.
Proof. intros Hs HK H. unfold groupPayloads, slice, lenZ in *. rewrite length_take, length_drop. lia. Qed.

(** ** Operations that only remove groups *)

Record shrinks (d d' : fecDecoder) : Prop := {
  h_wf : dec_wf d'; h_dk : dk d' = dk d; h_ic : dic d' = dic d; h_groups : groups d' ⊆ groups d
}.

Lemma shrinks_refl d : dec_wf d -> shrinks d d.
Proof. by constructor. Qed.

Lemma shrinks_trans a b c : shrinks a b -> shrinks b c -> shrinks a c.
Proof. intros [] []. constructor; [done|congruence|congruence|by etrans]. Qed.

Lemma shrinks_bounds f c r b d : dec_wf d -> shrinks d (set_bounds f c r b d).
Proof. intros H. by constructor; [apply set_bounds_wf|..]. Qed.

Lemma shrinks_counts l r n d : dec_wf d -> shrinks d (set_counts l r n d).
Proof. intros H. by constructor; [apply set_counts_wf|..]. Qed.

Lemma shrinks_finish g d : dec_wf d -> shrinks d (finishGroupLocked g d).
Proof.
  intros H. destruct (finish_spec g d H) as (W & G & _ & []). constructor; auto. rewrite G. apply delete_subseteq.
Qed.

Lemma shrinks_drop P d : dec_wf d -> shrinks d (dropWhere P d).
Proof.
  intros H. destruct (dropWhere_spec P d H) as (W & _ & [] & G). constructor; auto. rewrite G. apply map_filter_subseteq.
Qed.

Lemma shrinks_retire p d : dec_wf d -> shrinks d (maybeRetireOldGroupsLocked p d).
Proof.
  intros H. unfold maybeRetireOldGroupsLocked. do 2 (case_match; [by apply shrinks_refl|]).
  eapply shrinks_trans; [by apply shrinks_bounds|]. by apply shrinks_drop, set_bounds_wf.
Qed.

Lemma shrinks_mode p c d : dec_wf d -> shrinks d (handleModeControlActor p c d).
Proof.
  intros H. unfold handleModeControlActor. destruct (fence_Apply c (dfence d)) as [f ok].
  case_match; [by apply shrinks_refl|]. destruct (fence_Window f) as [from til]. case_match; [by apply shrinks_bounds|].
  match goal with |- shrinks d (maybeRetireOldGroupsLocked p (dropGroupsInRangeLocked from til ?d1)) => assert (shrinks d d1) as Ha end.
  { eapply shrinks_trans; [by apply shrinks_bounds|]. by apply shrinks_bounds, set_bounds_wf. }
  eapply shrinks_trans; [exact Ha|]. pose proof (h_wf _ _ Ha) as W.
  assert (forall d1, dec_wf d1 -> shrinks d1 (dropGroupsInRangeLocked from til d1)) as Hb.
  { intros d1 Hd1. unfold dropGroupsInRangeLocked. case_match; [by apply shrinks_refl|by apply shrinks_drop]. }
  eapply shrinks_trans; [by apply Hb|]. apply shrinks_retire. by apply Hb.
Qed.

Lemma shrinks_recover g d : dec_wf d -> shrinks d (tryRecoverActor g d).1.
Proof.
  intros H. unfold tryRecoverActor. destruct (gparity g) as [pb|]; [|by apply shrinks_refl].
  case_match; [by apply shrinks_refl|]. destruct (missingBits _ _) as [|m [|]]; cbn [fst]; [by apply shrinks_finish| |by apply shrinks_refl].
  destruct (glens g !! _) as [n|]; [|by apply shrinks_finish]. case_match; [by apply shrinks_finish|]. cbn [fst].
  eapply shrinks_trans; [by apply shrinks_finish|]. apply shrinks_counts. by apply finish_spec.
Qed.

(** ** The invariant *)

Section Sound.
Context (ic : option innerCipher) `{!CipherOk ic}.
Variables (K : Z) (data : list bytes).
Hypothesis HK : 2 <= K <= 64.
Hypothesis Hn : lenZ data + K <= 2 ^ 32.
Hypothesis Hfr : Forall (fun f => f <> [] /\ lenZ f + Z.of_nat (tagLen ic) < 2 ^ 32) data.

Abbreviation ms s := (groupPayloads K data s).
Let member (s : Z) (i : nat) : bytes := nth i (ms s) [].

(** A pending group is the XOR of the members recorded in its mask, and its parity, if
    it has one, is that of the whole group. *)
Record goodGroup (s : Z) (g : fecGroupState) : Prop := {
  gg_start : gstart g = s;
  gg_aligned : aligned K s;
  gg_pos : 1 <= s;
  gg_recv : exists r, NoDup r /\ Forall (fun i => (i < length (ms s))%nat) r /\ mask_of r (gotMask g) /\
              forall i, byte_at i (gacc g) = xor_at i (member s <$> r);
  gg_parity : forall pb, gparity g = Some pb ->
    s + K - 1 <= lenZ data /\ gk g = K /\ glens g = lenZ <$> ms s /\ pb = xor_list (max_len (ms s)) (ms s)
}.

Record dec_sound (d : fecDecoder) : Prop := {
  ds_wf : dec_wf d;
  ds_dk : dk d = K;
  ds_ic : dic d = ic;
  ds_groups : forall s g, groups d !! s = Some g -> goodGroup s g
}.

Lemma sound_shrinks d d' : dec_sound d -> shrinks d d' -> dec_sound d'.
Proof using. intros [] []. constructor; [done|congruence|congruence|]. intros s g Hg. apply ds_groups0. by eapply lookup_weaken. Qed.

Lemma sound_insert s g g0 d : dec_sound d -> groups d !! s = Some g0 -> goodGroup s g ->
  dec_sound (set_groups (<[s := g]> (groups d)) (spares d) d).
Proof using.
  intros [W E1 E2 HG] Hs Hg. constructor; [eapply insert_wf; [done|exact Hs|apply Hg]|done|done|].
  intros t u Ht. cbn in Ht. apply lookup_insert_Some in Ht as [[<- <-]|[_ Ht]]; auto.
Qed.

Lemma ms_elem s f : f ∈ ms s -> f <> [] /\ lenZ f + Z.of_nat (tagLen ic) < 2 ^ 32.
Proof using Hfr.
  intros Hf. rewrite Forall_forall in Hfr. apply Hfr. unfold groupPayloads, slice in Hf.
  eapply elem_of_sublist; [exact Hf|]. etrans; [apply sublist_take|apply sublist_drop].
Qed.

Lemma max_len_bound s : (0 < length (ms s))%nat -> Z.of_nat (max_len (ms s) + tagLen ic) < 2 ^ 32.
Proof using Hfr.
  assert (forall l : list bytes, Forall (fun f => lenZ f + Z.of_nat (tagLen ic) < 2 ^ 32) l -> (0 < length l)%nat ->
    Z.of_nat (max_len l + tagLen ic) < 2 ^ 32) as Hl.
  { induction 1 as [|f l Hf Hl IH]; intros Ht; [cbn in Ht; exfalso; inversion Ht|]. unfold lenZ, max_len in *. cbn [foldr].
    destruct l as [|f' l]; [|specialize (IH (Nat.lt_0_succ _))]; cbn [foldr] in *; lia. }
  apply Hl. apply Forall_forall. intros f Hf. by apply ms_elem in Hf as [_ Hf].
Qed.

Lemma sent_member s i f : 1 <= s -> ms s !! i = Some f -> sentAs data (s + Z.of_nat i) f.
Proof using HK.
  intros Hs Hi. assert (Z.of_nat i < K).
  { apply lookup_lt_Some in Hi. unfold groupPayloads, slice in Hi. rewrite length_take in Hi. lia. }
  split; [lia|]. by rewrite <- groupPayloads_lookup with (K := K).
Qed.

Lemma sent_slot q f : sentAs data q f ->
  let s := fecGroupStart q K in aligned K s /\ 1 <= s <= q /\ q < 2 ^ 32 /\ ms s !! Z.to_nat (q - s) = Some f.
Proof using HK Hn.
  intros [Hq Hf] s. pose proof (lookup_lt_Some _ _ _ Hf). unfold lenZ in Hn.
  destruct (fecGroupStart_spec q K HK ltac:(lia)) as (A & B & C). fold s in A, B, C. split_and!; auto; [lia|lia|lia|].
  rewrite groupPayloads_lookup by lia. rewrite <- Hf. f_equal. lia.
Qed.

(** ** Recovery *)

Lemma one_missing (n : nat) (r : list nat) (i : nat) : filter (fun i => i ∉ r) (seq 0 n) = [i] ->
  (i < n)%nat /\ i ∉ r /\ forall j, (j < n)%nat -> j <> i -> j ∈ r.
Proof using.
  intros H. assert (i ∈ filter (fun i => i ∉ r) (seq 0 n)) as Hi by (rewrite H; by left).
  apply list_elem_of_filter in Hi as [Hi1 Hi2]. apply elem_of_seq in Hi2. split_and!; [lia|done|].
  intros j Hj Hne. destruct (decide (j ∈ r)) as [|Hr]; [done|]. exfalso.
  assert (j ∈ filter (fun i => i ∉ r) (seq 0 n)) as Hf by (apply list_elem_of_filter; split; [done|apply elem_of_seq; lia]).
  rewrite H in Hf. by apply list_elem_of_singleton in Hf.
Qed.

Lemma tryRecover_sound s g d : goodGroup s g -> dec_sound d ->
  dec_sound (tryRecoverActor g d).1 /\ forall q f, (tryRecoverActor g d).2 = Some (q, f) -> sentAs data q f.
Proof using HK Hn Hfr CipherOk0.
  intros [G1 G2 G3 (r & R1 & R2 & R3 & R4) G5] Hd.
  split; [eapply sound_shrinks; [done|]; apply shrinks_recover, Hd|]. intros q f HR.
  assert (exists pb i, gparity g = Some pb /\ missingBits (gk g) (gotMask g) = [i]) as (pb & z & Hp & Hm).
  { revert HR. unfold tryRecoverActor. destruct (gparity g) as [pb|]; [|done]. case_match; [done|].
    destruct (missingBits _ _) as [|z [|]]; [done| |done]. by exists pb, z. }
  destruct (G5 pb Hp) as (P1 & P2 & P3 & ->). rewrite P2, (missingBits_spec K r) in Hm by done.
  apply fmap_cons_inv in Hm as (i & l & -> & El & Hm). symmetry in El. apply fmap_nil_inv in El as ->.
  apply one_missing in Hm as (Hi & Hir & Hall).
  pose proof (groupPayloads_length K data s G3 ltac:(lia) P1) as HL.
  assert (i < length (ms s))%nat as Hi' by (unfold lenZ in HL; lia).
  assert (Forall (fun f => f <> []) (ms s)) as A1 by (apply Forall_forall; intros x Hx; by apply ms_elem in Hx as [Hx _]).
  assert (Forall (fun j => j <> i /\ (j < length (ms s))%nat) r) as A2.
  { rewrite Forall_forall in R2. apply Forall_forall. intros j Hj. split; [by intros ->|by apply R2]. }
  destruct (tryRecover_group ic K s (ms s) i false HK G2 ltac:(lia) HL A1 Hi' (max_len_bound s ltac:(lia)) r true g d G1 R1 A2 R3 R4) as [T _]; [done|auto|].
  rewrite T in HR; [|split; [done|]; intros j Hj Hne; apply Hall; [unfold lenZ in HL; lia|done]].
  injection HR as <- <-. apply sent_member; [lia|]. by destruct (nth_lookup_or_length (ms s) i []); [|lia].
Qed.

(** The group is there, or is created empty. *)
Lemma sound_getGroup s d : dec_sound d -> aligned K s -> 1 <= s ->
  dec_sound (match groups d !! s with Some _ => d | None => newGroupLocked s d end).
Proof using.
  intros Hd Ha Hs. destruct (groups d !! s) eqn:E; [done|]. destruct Hd as [W E1 E2 HG].
  destruct (newGroup_spec s d W E) as (W' & _ & [C1 C2 C3 _ _ _ _ _ _] & gs & G & Hsub & _). constructor; [done|congruence|congruence|].
  intros t g Hg. rewrite G in Hg. apply lookup_insert_Some in Hg as [[<- <-]|[_ Hg]]; [|apply HG; by eapply lookup_weaken].
  constructor; cbn; auto; [|done]. exists []. split_and!; auto using mask_of_nil; [by apply NoDup_nil_2|]. by intros [].
Qed.

Lemma recordMember_sound q f d : dec_sound d -> sentAs data q f ->
  dec_sound (recordMember q f d).1 /\ forall q' f', (recordMember q f d).2 = Some (q', f') -> sentAs data q' f'.
Proof using HK Hn Hfr CipherOk0.
  intros Hd Hq. destruct (sent_slot q f Hq) as (S1 & S2 & S3 & S4). unfold recordMember.
  assert (groupStartOf d q = fecGroupStart q K) as ->.
  { unfold groupStartOf, fecGroupStart. rewrite (ds_dk _ Hd), clampFecGroup_id by done. destruct (Z.eqb_spec q 0); [lia|done]. }
  set (s := fecGroupStart q K) in *. pose proof (sound_getGroup s d Hd S1 ltac:(lia)) as H1.
  set (d1 := match groups d !! s with Some _ => d | None => _ end) in *. clearbody d1.
  destruct (groups d1 !! s) as [g|] eqn:E; [|done]. pose proof (ds_groups _ H1 _ _ E) as Hg.
  rewrite u32_small by (widths; lia). set (i := Z.to_nat (q - s)) in *. replace (q - s) with (Z.of_nat i) in * by lia.
  case_match; [done|]. case_match; [split; [|done]; eapply sound_shrinks; [done|]; apply shrinks_finish, H1|].
  set (g2 := mkGroup _ _ _ _ _ _). assert (goodGroup s g2) as Hg2; [|apply tryRecover_sound with (s := s); [done|by eapply sound_insert]].
  destruct Hg as [G1 G2 G3 (r & R1 & R2 & R3 & R4) G5]. constructor; [done|done|done| |done].
  exists (i :: r).
  assert (i ∉ r) as Hi.
  { match goal with E : negb (Z.land _ _ =? 0) = false |- _ => apply negb_false_iff, Z.eqb_eq in E; rewrite land_bit_zero, R3 in E by lia end.
    by eapply bool_decide_eq_false_1. }
  split_and!; [by constructor|constructor; [by eapply lookup_lt_Some|done]|by apply mask_of_cons|].
  intros j. cbn [gacc g2]. destruct (push_acc (length f) f (gacc g) (member s <$> r) eq_refl R4) as [A _].
  rewrite A, xor_at_snoc, fmap_cons, xor_at_cons. unfold member at 2. by rewrite nth_lookup, S4, Z.lxor_comm.
Qed.

Lemma data_sound p q f d : dec_sound d -> honest ic K data (DData q f) ->
  dec_sound (OnDataActor p q f d).1 /\ forall q' f', (OnDataActor p q f d).2 = Some (q', f') -> sentAs data q' f'.
Proof using HK Hn Hfr CipherOk0.
  intros Hd Hq. unfold OnDataActor. destruct ((length f =? 0)%nat || (q =? 0) || staticSingle d) eqn:E; [done|].
  rewrite !orb_false_iff, Z.eqb_neq in E. destruct E as [[_ Eq] _]. destruct Hq as [|Hq]; [done|].
  case_match; [split; [|done]; case_match; [|done]; eapply sound_shrinks; [done|]; apply shrinks_retire, Hd|].
  do 2 (case_match; [done|]). by apply recordMember_sound.
Qed.

Lemma parity_sound p pl d : dec_sound d -> honest ic K data (DControl pl) ->
  dec_sound (OnParityActorWithScratch p pl d).1 /\ forall q' f', (OnParityActorWithScratch p pl d).2 = Some (q', f') -> sentAs data q' f'.
Proof using HK Hn Hfr CipherOk0.
  intros Hd Hpl. assert (dec_sound (parityCore p pl d).1.1 /\ forall q' f', (parityCore p pl d).1.2 = Some (q', f') -> sentAs data q' f') as [H1 H2].
  2:{ unfold OnParityActorWithScratch. destruct (parityCore p pl d) as [[d1 o] fin]. cbn [fst snd] in *. split; [|done].
      destruct fin; [|done]. eapply sound_shrinks; [done|]. apply shrinks_retire, H1. }
  unfold parityCore. rewrite cleanup_eq. destruct (staticSingle d || (length pl <? 7)%nat || negb (byte_at 0 pl =? controlKindFECParity)) eqn:E0; [done|].
  rewrite !orb_false_iff, negb_false_iff, Z.eqb_eq in E0. destruct E0 as [_ E0]. destruct (Hpl E0) as (s & A1 & A2 & A3 & ->). clear Hpl E0.
  pose proof (groupPayloads_length K data s A2 ltac:(lia) A3) as HL.
  assert (0 < length (ms s))%nat as HL0 by (unfold lenZ in HL; lia).
  assert (0 < max_len (ms s))%nat as Hmx.
  { destruct (lookup_lt_is_Some_2 (ms s) 0 HL0) as [f Hf]. apply list_elem_of_lookup_2 in Hf. pose proof (max_len_elem f _ Hf).
    apply ms_elem in Hf as [Hf _]. destruct f; [done|]. cbn in *. lia. }
  destruct (parity_decode ic K s (ms s) HK ltac:(widths; unfold lenZ in *; lia) HL (max_len_bound s HL0) Hmx) as (_ & _ & P3 & P4 & _ & P6 & P7).
  rewrite P3, P4. case_match; [done|]. assert (dec_sound (maybeRetireOldGroupsLocked p d)) as Hd1 by (eapply sound_shrinks; [done|]; apply shrinks_retire, Hd).
  set (d1 := maybeRetireOldGroupsLocked p d) in *. clearbody d1. do 2 (case_match; [done|]). rewrite (ds_ic _ Hd1), P6.
  case_match; [done|]. destruct (match groups d1 !! s with Some _ => _ | None => _ end); [done|].
  rewrite foldr_max_lens, Nat2Z.id, P7. pose proof (sound_getGroup s d1 Hd1 A1 A2) as Hd2.
  set (d2 := match groups d1 !! s with Some _ => d1 | None => _ end) in *. clearbody d2.
  destruct (groups d2 !! s) as [g|] eqn:E; [|done]. rewrite (ds_ic _ Hd2), open_sealedXor by auto.
  set (g2 := mkGroup _ _ _ _ _ _). assert (goodGroup s g2) as Hg2; [|by cbn [fst snd]; apply tryRecover_sound with (s := s); [done|by eapply sound_insert]].
  destruct (ds_groups _ Hd2 _ _ E) as [G1 G2 G3 G4 G5]. constructor; [done..|]. intros pb [= <-]. done.
Qed.

Lemma decStep_sound p ev d : dec_sound d -> honest ic K data ev ->
  dec_sound (decStep d (p, ev)).1 /\ forall q f, (decStep d (p, ev)).2 = Some (q, f) -> sentAs data q f.
Proof using HK Hn Hfr CipherOk0.
  intros Hd Hev. destruct ev as [q f|pl]; [by apply data_sound|]. cbn [decStep fst snd]. unfold OnControlActorWithScratch.
  destruct (parseControlKind pl) as [kind|]; [|done]. destruct (kind =? controlKindFECParity).
  { destruct (parity_sound p pl d Hd Hev) as [H1 H2]. by destruct (OnParityActorWithScratch p pl d). }
  destruct (kind =? controlKindFECMode); [|done]. destruct (parseFECModeControl pl) as [c|]; [|done].
  split; [|done]. eapply sound_shrinks; [done|]. apply shrinks_mode, Hd.
Qed.

Lemma new_sound out : dec_sound (NewFECDecoder K ic out).
Proof using HK.
  constructor; [apply new_wf|cbn; by rewrite clampFecGroup_id|done|]. intros s g Hg. unfold NewFECDecoder in Hg. cbn [groups] in Hg. by rewrite lookup_empty in Hg.
Qed.

Lemma decExec_sound out evs : Forall (fun e => honest ic K data e.2) evs -> dec_sound (decExec (NewFECDecoder K ic out) evs).
Proof using HK Hn Hfr CipherOk0.
  induction evs as [|[p ev] evs IH] using rev_ind; intros HF; [apply new_sound|]. apply Forall_app in HF as [HF He].
  apply Forall_cons_1 in He as [He _]. unfold decExec. rewrite fold_left_app. apply decStep_sound; [by apply IH|done].
Qed.
End Sound.

(** ** Everything that a receiver recovers *)

Fixpoint decRecs (d : fecDecoder) (evs : list (Z * decEvent)) : list (Z * bytes) :=
  match evs with
  | [] => []
  | e :: evs => option_list (decStep d e).2 ++ decRecs (decStep d e).1 evs
  end.

Lemma decRecs_snoc d evs e : decRecs d (evs ++ [e]) = decRecs d evs ++ option_list (decStep (decExec d evs) e).2.
Proof.
  revert d. induction evs as [|x evs IH]; intros d; cbn; [by rewrite app_nil_r|]. by rewrite IH, app_assoc.
Qed.

(** Once everything of a group but one member has arrived, that member has been recovered. *)
Lemma arrived_recovered ic `{!CipherOk ic} K s ms m out evs :
  2 <= K <= 64 -> aligned K s -> 1 <= s /\ s + K <= 2 ^ 32 -> lenZ ms = K -> Forall (fun f => f <> []) ms -> (m < length ms)%nat ->
  Z.of_nat (max_len ms + tagLen ic) < 2 ^ 32 -> Forall (fun e => genuine ic s ms m e.2 \/ foreign K s e.2) evs ->
  (size (groupsTouched K evs) <= fecMaxPendingGroups)%nat -> arrived ic s ms m evs ->
  (s + Z.of_nat m, nth m ms []) ∈ decRecs (NewFECDecoder K ic out) evs.
Proof.
  intros HK Hal Hs Hlen Hne Hm Hmx. assert (forall l, Decision (arrived ic s ms m l)) as Hdec.
  { intros l. unfold arrived. assert (Decision (Forall (fun i => i <> m -> memberEv s ms i ∈ l.*2) (seq 0 (length ms)))) as [H|H] by apply _.
    - destruct (decide (parityEv ic s ms ∈ l.*2)); [left|right; tauto]. split; [done|]. intros i Hi. rewrite Forall_forall in H. apply H, elem_of_seq. lia.
    - right. intros [_ H1]. apply H. apply Forall_forall. intros i Hi. apply elem_of_seq in Hi. apply H1. lia. }
  induction evs as [|e evs IH] using rev_ind; intros HF Hsz Ha; [destruct Ha as [Ha _]; by apply elem_of_nil in Ha|].
  assert (groupsTouched K (evs ++ [e]) = groupsTouched K evs ∪ {[startOf K e.2]}) as HT by (unfold groupsTouched; rewrite !fmap_app, list_to_set_app_L; cbn; set_solver).
  assert (size (groupsTouched K evs) <= fecMaxPendingGroups)%nat as Hsz' by (etransitivity; [|exact Hsz]; apply subseteq_size; rewrite HT; set_solver).
  apply Forall_app in HF as [HF He]. apply Forall_cons_1 in He as [He _]. rewrite decRecs_snoc. apply elem_of_app. destruct (Hdec evs) as [Hy|Hno]; [left; by apply IH|right].
  destruct (recovery_prefix ic K s ms m out HK Hal Hs Hlen Hne Hm Hmx evs HF Hsz' Hno) as (HD & r & par & Hg & Htr).
  destruct (recovery_step ic K s ms m out HK Hal Hs Hlen Hne Hm Hmx evs e r par (groupsTouched K (evs ++ [e])) Hg Htr Hno He) as [S1 _]; [rewrite HT; set_solver|done|].
  rewrite (S1 Ha). by left.
Qed.

Section Complete.
Context (ic : option innerCipher) `{!CipherOk ic}.
Variables (K : Z) (data : list bytes).
Hypothesis HK : 2 <= K <= 64.
Hypothesis Hn : lenZ data <= Z.of_nat fecMaxPendingGroups * K.
Hypothesis Hfr : Forall (fun f => f <> [] /\ lenZ f + Z.of_nat (tagLen ic) < 2 ^ 32) data.

(** Data frames and parity records, nothing else. *)
Definition plain (ev : decEvent) : Prop :=
  match ev with
  | DData q f => sentAs data q f
  | DControl pl => exists s, aligned K s /\ 1 <= s /\ s + K - 1 <= lenZ data /\ pl = parityPayload ic s (groupPayloads K data s)
  end.

Lemma data_bound : lenZ data + K <= 2 ^ 32.
Proof using HK Hn. unfold fecMaxPendingGroups in Hn. lia. Qed.

Lemma plain_honest ev : plain ev -> honest ic K data ev.
Proof using. destruct ev; cbn; [by right|by intros H _]. Qed.

(** A number whose group is complete but for it. *)
Definition repairable (evs : list decEvent) (q : Z) : Prop :=
  let s := fecGroupStart q K in
  s + K - 1 <= lenZ data /\ DControl (parityPayload ic s (groupPayloads K data s)) ∈ evs /\
  forall q' f', sentAs data q' f' -> fecGroupStart q' K = s -> q' <> q -> DData q' f' ∈ evs.

Lemma plain_starts evs : Forall (fun e => plain e.2) evs -> (size (groupsTouched K evs) <= fecMaxPendingGroups)%nat.
Proof using HK Hn Hfr CipherOk0.
  intros HF. set (l := (fun i => 1 + K * Z.of_nat i) <$> seq 0 fecMaxPendingGroups).
  assert (forall s, aligned K s -> 1 <= s <= lenZ data -> s ∈ l) as Hl.
  { intros s Ha Hs. unfold l. apply list_elem_of_fmap. unfold aligned in Ha. exists (Z.to_nat ((s - 1) / K)).
    assert (0 <= (s - 1) / K) by (apply Z.div_pos; lia). split; [rewrite Z2Nat.id by done; pose proof (Z.div_mod (s - 1) K); lia|].
    apply elem_of_seq. split; [lia|]. assert ((s - 1) / K < Z.of_nat fecMaxPendingGroups) by (apply Z.div_lt_upper_bound; lia). lia. }
  assert (groupsTouched K evs ⊆ list_to_set l) as Hsub.
  { intros s Hs. unfold groupsTouched in Hs. rewrite elem_of_list_to_set in *. apply list_elem_of_fmap in Hs as (ev & -> & Hev).
    apply list_elem_of_fmap in Hev as (e & -> & He). rewrite Forall_forall in HF. specialize (HF e He). cbv beta in HF. destruct (e.2) as [q f|pl]; cbn [plain startOf] in *.
    - destruct (sent_slot K data HK data_bound q f HF) as (A & B & C & D). apply Hl; [done|]. destruct HF as [HF1 HF2]. apply lookup_lt_Some in HF2. unfold lenZ. lia.
    - destruct HF as (s & A & B & C & ->). assert (be_dec (slice 1 5 (parityPayload ic s (groupPayloads K data s))) = s) as ->; [|apply Hl; [done|lia]].
      assert (is_u32 s) as Hu by (pose proof data_bound; widths; lia). rewrite parityPayload_eq, (slice_mid 1 5) by (rewrite ?length_be_enc; done). by apply be_dec_enc4. }
  etransitivity; [apply subseteq_size, Hsub|]. assert (size (list_to_set l : gset Z) <= length l)%nat as HS.
  { clear. induction l as [|x l IH]; [done|]. cbn [list_to_set length]. rewrite size_union_alt, size_singleton. assert (size ((list_to_set l : gset Z) ∖ {[x]}) <= size (list_to_set l : gset Z))%nat by (apply subseteq_size; set_solver). lia. }
  unfold l in HS. by rewrite length_fmap, length_seq in HS.
Qed.

(** Every such loss is repaired. *)
Lemma lost_recovered out evs q f : Forall (fun e => plain e.2) evs -> sentAs data q f -> (forall g, DData q g ∉ evs.*2) -> repairable evs.*2 q ->
  (q, f) ∈ decRecs (NewFECDecoder K ic out) evs.
Proof using HK Hn Hfr CipherOk0.
  intros HF Hq Hlost (R1 & R2 & R3). pose proof data_bound as Hb. destruct (sent_slot K data HK Hb q f Hq) as (A & B & C & D). set (s := fecGroupStart q K) in *.
  pose proof (groupPayloads_length K data s ltac:(lia) ltac:(lia) R1) as HL. set (m := Z.to_nat (q - s)) in *. pose proof (lookup_lt_Some _ _ _ D) as Hm.
  assert (q = s + Z.of_nat m) as Eq by lia. assert (f = nth m (groupPayloads K data s) []) as -> by (by rewrite nth_lookup, D). rewrite Eq.
  apply arrived_recovered; try done; [lia| | | |by apply plain_starts|].
  - apply Forall_forall. intros x Hx. by apply (ms_elem ic K data Hfr) in Hx as [Hx _].
  - apply (max_len_bound ic K data Hfr). lia.
  - rewrite Forall_forall in HF. apply Forall_forall. intros e He. specialize (HF e He). cbv beta in HF.
    assert (e.2 ∈ evs.*2) as He2 by (by apply list_elem_of_fmap_2). destruct (e.2) as [q' f'|pl]; cbn [plain] in HF.
    + destruct (sent_slot K data HK Hb q' f' HF) as (A' & B' & C' & D'). destruct (decide (fecGroupStart q' K = s)) as [Es|Hs].
      * left. left. rewrite Es in *. exists (Z.to_nat (q' - s)), f'. split_and!; [|done|f_equal; lia]. intros Hm'. assert (q' = q) as -> by lia. by apply (Hlost f').
      * right. split; [widths; lia|by right].
    + destruct HF as (s' & A' & B' & C' & ->). destruct (decide (s' = s)) as [->|Hs]; [left; by right|right]. split.
      * unfold parseFECModeControl. change (byte_at 0 (parityPayload ic s' (groupPayloads K data s'))) with controlKindFECParity. by destruct (length _ =? _)%nat.
      * assert (is_u32 s') as Hu by (widths; lia). rewrite parityPayload_eq, (slice_mid 1 5) by (rewrite ?length_be_enc; done). by rewrite be_dec_enc4.
  - split; [exact R2|]. intros i Hi Him. unfold memberEv. destruct (lookup_lt_is_Some_2 _ _ Hi) as [g Hg]. rewrite nth_lookup, Hg. cbn.
    pose proof (sent_member K data HK s i g ltac:(lia) Hg) as Hsent. apply R3; [done| |lia].
    assert (Z.of_nat i < K) by (unfold lenZ in HL; lia). destruct Hsent as [H1 _].
    destruct (fecGroupStart_spec (s + Z.of_nat i) K HK ltac:(unfold lenZ in *; lia)) as (X & Y & Z0).
    destruct (decide (fecGroupStart (s + Z.of_nat i) K <= s)); [|symmetry]; apply (aligned_unique K); auto; lia.
Qed.
End Complete.

(** ** Properties *)

(** C5: Recovery never invents a frame.  A receiver is fed any events of a sender that
    follows the protocol: data frames and parity records of complete groups, lost,
    repeated and reordered in any way, any number of groups in flight (evictions
    included), any mode controls and any unknown controls, with any reorder progress.
    Every frame that the decoder recovers is the one that was sent under that number. *)
Theorem recovery_sound (ic : option innerCipher) (K : Z) (data : list bytes) (out : bool) (evs : list (Z * decEvent)) (last : Z * decEvent) (q : Z) (f : bytes) :
  CipherOk ic -> 2 <= K <= 64 -> lenZ data + K <= 2 ^ 32 -> Forall (fun f => f <> [] /\ lenZ f + Z.of_nat (tagLen ic) < 2 ^ 32) data ->
  Forall (fun e => honest ic K data e.2) (evs ++ [last]) ->
  (decStep (decExec (NewFECDecoder K ic out) evs) last).2 = Some (q, f) -> sentAs data q f.
Proof.
  intros Hok HK Hn Hfr HF HR. apply Forall_app in HF as [HF He]. apply Forall_cons_1 in He as [He _]. destruct last as [p ev].
  destruct (decStep_sound ic K data HK Hn Hfr p ev _ (decExec_sound ic K data HK Hn Hfr out evs HF) He) as [_ H]. by apply H.
Qed.

(** ** Witness *)

Definition demoSent : list bytes := [[1; 2]; [7]; [9; 9; 9]].
Definition demoNoise : list (Z * decEvent) := [(0, DData 1 [1; 2]); (0, DData 3 [9; 9; 9]); (0, DControl [200; 1; 2]); (0, DData 1 [1; 2])].

Lemma recovery_sound_witness : sentAs demoSent 2 [7].
Proof.
  apply (recovery_sound None 2 demoSent false demoNoise (0, DControl (parityPayload None 1 [[1; 2]; [7]])) 2 [7]).
  - apply _.
  - lia.
  - vm_compute. discriminate.
  - repeat constructor; done.
  - cbn [demoNoise app]. repeat (apply Forall_cons; split); try (by apply Forall_nil); cbn [snd honest]; try (right; split; [lia|reflexivity]); try discriminate.
    all: intros _; exists 1; split_and!; [done|lia|done|reflexivity].
  - vm_compute. reflexivity.
Defined.
