(* ===== verification/Reorder.v ===== *)
(** * Reorder buffer (buffer.go, rx_actor.go)

    The ring of in-flight frames with its growing window, in-order draining into
    fixed-size chunks, the gap timer, and the bounded hand-over to the delivery
    goroutine.  Frames given back to the pool (putFrame) are an output of every
    operation. *)

From stdpp Require Import base tactics list numbers list_numbers gmap sorting.
From S2P Require Import Prelude Frame FecControl FecEncoder FecDecoder.
#[local] Open Scope Z_scope.

Definition ReorderWindowSize : nat := 2048.
Definition ReorderMaxWindowSize : Z := 65536.
Definition reorderOutQueue : nat := 256.
Definition reorderBatchHotCap : nat := 64.
(** 50 ms, in nanoseconds. *)
Definition reorderSkipDelay : Z := 50000000.

(** A chain of chunks, each of at most [reorderBatchHotCap] frames. *)
Abbreviation reorderBatch := (list (list bytes)).

Record ReorderBuffer := mkReorder {
  actorOwned : bool;
  expectedSeq : Z;
  ring : list (option bytes);          (* None: the slot is nil *)
  seqSlots : list Z;
  windowMask : Z;
  buffered : Z;
  rpending : reorderBatch;             (* [] : pendingHead == nil *)
  outChan : list reorderBatch;
  outOwned : bool;
  gapSince : option Z;                 (* None: the zero time *)
  gapEvents : Z;
  timeoutFlushes : Z;
  skippedFrames : Z;
  droppedFrames : Z;
  shutting : bool;
  rclosed : bool
}.

Definition newReorder (actor owned : bool) : ReorderBuffer :=
  {| actorOwned := actor; expectedSeq := 0; ring := replicate ReorderWindowSize None;
     seqSlots := zeros ReorderWindowSize; windowMask := Z.of_nat ReorderWindowSize - 1; buffered := 0; rpending := [];
     outChan := []; outOwned := owned; gapSince := None; gapEvents := 0; timeoutFlushes := 0; skippedFrames := 0;
     droppedFrames := 0; shutting := false; rclosed := false |}.

Definition newReorderBuffer (owned : bool) : ReorderBuffer := newReorder false owned.
Definition newActorReorderBuffer (owned : bool) : ReorderBuffer := newReorder true owned.

(** Field updates. *)
Definition set_ring (e : Z) (r : list (option bytes)) (q : list Z) (m b : Z) (p : reorderBatch) (rb : ReorderBuffer) :=
  {| actorOwned := actorOwned rb; expectedSeq := e; ring := r; seqSlots := q; windowMask := m; buffered := b;
     rpending := p; outChan := outChan rb; outOwned := outOwned rb; gapSince := gapSince rb; gapEvents := gapEvents rb;
     timeoutFlushes := timeoutFlushes rb; skippedFrames := skippedFrames rb; droppedFrames := droppedFrames rb;
     shutting := shutting rb; rclosed := rclosed rb |}.

Definition set_gap (g : option Z) (ev fl sk : Z) (rb : ReorderBuffer) :=
  {| actorOwned := actorOwned rb; expectedSeq := expectedSeq rb; ring := ring rb; seqSlots := seqSlots rb;
     windowMask := windowMask rb; buffered := buffered rb; rpending := rpending rb; outChan := outChan rb;
     outOwned := outOwned rb; gapSince := g; gapEvents := ev; timeoutFlushes := fl; skippedFrames := sk;
     droppedFrames := droppedFrames rb; shutting := shutting rb; rclosed := rclosed rb |}.

Definition set_gapSince (g : option Z) (rb : ReorderBuffer) :=
  set_gap g (gapEvents rb) (timeoutFlushes rb) (skippedFrames rb) rb.

Definition set_queue (p : reorderBatch) (q : list reorderBatch) (dr : Z) (sh cl : bool) (rb : ReorderBuffer) :=
  {| actorOwned := actorOwned rb; expectedSeq := expectedSeq rb; ring := ring rb; seqSlots := seqSlots rb;
     windowMask := windowMask rb; buffered := buffered rb; rpending := p; outChan := q;
     outOwned := outOwned rb; gapSince := gapSince rb; gapEvents := gapEvents rb; timeoutFlushes := timeoutFlushes rb;
     skippedFrames := skippedFrames rb; droppedFrames := dr; shutting := sh; rclosed := cl |}.

Definition set_expected (e : Z) (rb : ReorderBuffer) :=
  set_ring e (ring rb) (seqSlots rb) (windowMask rb) (buffered rb) (rpending rb) rb.

Definition slotOf (rb : ReorderBuffer) (seq : Z) : nat := Z.to_nat (Z.land seq (windowMask rb)).
Definition ringAt (rb : ReorderBuffer) (i : nat) : option bytes := mjoin (ring rb !! i).

(** putFrame of a nil slice does nothing. *)
Definition freed (frame : option bytes) : list bytes := option_list frame.

Definition refreshGapLocked (now : Z) (rb : ReorderBuffer) : ReorderBuffer * bool :=
  let hasGap := (0 <? buffered rb) && negb (expectedSeq rb =? 0)
                && bool_decide (ringAt rb (slotOf rb (expectedSeq rb)) = None) in
  if hasGap then
    match gapSince rb with
    | None => (set_gap (Some now) (u64 (gapEvents rb + 1)) (timeoutFlushes rb) (skippedFrames rb) rb, true)
    | Some _ => (rb, false)
    end
  else match gapSince rb with
       | Some _ => (set_gapSince None rb, true)
       | None => (rb, false)
       end.

(** A frame goes to the last chunk of the chain, or to a new one. *)
Fixpoint pushChunk (f : bytes) (p : reorderBatch) : reorderBatch :=
  match p with
  | [] => [[f]]
  | [c] => if (length c =? reorderBatchHotCap)%nat then [c; [f]] else [c ++ [f]]
  | c :: p => c :: pushChunk f p
  end.

(** The loop of drainLocked; every turn empties a slot of the ring. *)
Fixpoint drainLoop (fuel : nat) (rb : ReorderBuffer) : ReorderBuffer :=
  match fuel with
  | O => rb
  | S fuel =>
    let idx := slotOf rb (expectedSeq rb) in
    match ringAt rb idx with
    | None => rb
    | Some f =>
      drainLoop fuel (set_ring (u32 (expectedSeq rb + 1)) (<[idx := None]> (ring rb)) (<[idx := 0]> (seqSlots rb))
                        (windowMask rb) (buffered rb - 1) (pushChunk f (rpending rb)) rb)
    end
  end.

Definition drainLocked (now : Z) (rb : ReorderBuffer) : ReorderBuffer * bool :=
  let hadGap := bool_decide (is_Some (gapSince rb)) in
  let rb := drainLoop (S (length (ring rb))) (set_gapSince None rb) in
  let '(rb, started) := refreshGapLocked now rb in
  (rb, hadGap || started).

(** The doubling loop of growWindowLocked: at most five doublings from 2048. *)
Fixpoint growLoop (fuel : nat) (newSize required : Z) : Z :=
  match fuel with
  | O => newSize
  | S fuel => if (newSize <=? required) && (newSize <? ReorderMaxWindowSize)
              then growLoop fuel (newSize * 2) required else newSize
  end.

Fixpoint rehash (mask : Z) (slots : list (option bytes * Z)) (r : list (option bytes)) (q : list Z)
    : list (option bytes) * list Z :=
  match slots with
  | [] => (r, q)
  | (None, _) :: slots => rehash mask slots r q
  | (Some f, s) :: slots =>
    let idx := Z.to_nat (Z.land s mask) in
    rehash mask slots (<[idx := Some f]> r) (<[idx := s]> q)
  end.

Definition growWindowLocked (required : Z) (rb : ReorderBuffer) : option ReorderBuffer :=
  let oldSize := lenZ (ring rb) in
  if ReorderMaxWindowSize <=? oldSize then None else
  let newSize := growLoop 16 oldSize required in
  let newSize := if ReorderMaxWindowSize <? newSize then ReorderMaxWindowSize else newSize in
  if newSize <=? required then None else
  let n := Z.to_nat newSize in
  let '(r, q) := rehash (newSize - 1) (zip (ring rb) (seqSlots rb)) (replicate n None) (zeros n) in
  Some (set_ring (expectedSeq rb) r q (newSize - 1) (buffered rb) (rpending rb) rb).

(** The slot write and what follows it (the tail of insertLocked). *)
Definition placeFrame (now seq : Z) (frame : option bytes) (rb : ReorderBuffer) : ReorderBuffer * bool * list bytes :=
  let idx := slotOf rb seq in
  match ringAt rb idx with
  | Some _ => (rb, false, freed frame)       (* duplicate, or a conflicting sequence number *)
  | None =>
    let rb := set_ring (expectedSeq rb) (<[idx := frame]> (ring rb)) (<[idx := seq]> (seqSlots rb)) (windowMask rb)
                (buffered rb + 1) (rpending rb) rb in
    let '(rb, wake) := if seq =? expectedSeq rb then drainLocked now rb else refreshGapLocked now rb in
    (rb, wake, [])
  end.

Definition insertLocked (now seq : Z) (frame : option bytes) (rb : ReorderBuffer) : ReorderBuffer * bool * list bytes :=
  let rb := if expectedSeq rb =? 0 then set_expected seq rb else rb in
  let diff := s32 (u32 (seq - expectedSeq rb)) in
  if diff <? 0 then (rb, false, freed frame) else
  if lenZ (ring rb) <=? diff then
    if ReorderMaxWindowSize <=? diff then (rb, false, freed frame) else
    match growWindowLocked (diff + 1) rb with
    | None => (rb, false, freed frame)
    | Some rb => placeFrame now seq frame rb
    end
  else placeFrame now seq frame rb.

Definition takePendingLocked (rb : ReorderBuffer) : ReorderBuffer * reorderBatch :=
  (set_queue [] (outChan rb) (droppedFrames rb) (shutting rb) (rclosed rb) rb, rpending rb).

Definition releaseRingLocked (rb : ReorderBuffer) : ReorderBuffer * list bytes :=
  let q := zip_with (fun s f => match f with Some _ => 0 | None => s end) (seqSlots rb) (ring rb) in
  (set_ring (expectedSeq rb) (replicate (length (ring rb)) None) q (windowMask rb) 0 (rpending rb) rb,
   omap id (ring rb)).

(** freeBatch *)
Definition freeBatch (batch : reorderBatch) : list bytes := concat batch.

(** deliver: the select takes a ready case; with room in the queue and [closed] open
    it enqueues, with [closed] it frees, and with neither it drops and counts.  When
    both are ready the choice is [takeClosed]. *)
Definition deliver (takeClosed : bool) (batch : reorderBatch) (rb : ReorderBuffer) : ReorderBuffer * list bytes :=
  match batch with
  | [] => (rb, [])
  | _ =>
    let room := (length (outChan rb) <? reorderOutQueue)%nat in
    let upd q dr := set_queue (rpending rb) q dr (shutting rb) (rclosed rb) rb in
    if rclosed rb && (takeClosed || negb room) then (rb, freeBatch batch)
    else if room then (upd (outChan rb ++ [batch]) (droppedFrames rb), [])
    else (upd (outChan rb) (u64 (droppedFrames rb + lenZ (concat batch))), freeBatch batch)
  end.

(** outputBatch: the frames handed to the callback and the frames put back. *)
Definition outputBatch (hasOut owned : bool) (batch : reorderBatch) : list bytes * list bytes :=
  let fs := concat batch in
  let out := if hasOut then filter (fun f => f <> []) fs else [] in
  (out, if hasOut && owned then filter (fun f => f = []) fs else fs).

(** One receive of outWorker. *)
Definition outWorkerStep (hasOut : bool) (rb : ReorderBuffer) : option (ReorderBuffer * list bytes * list bytes) :=
  match outChan rb with
  | [] => None
  | b :: q => Some (set_queue (rpending rb) q (droppedFrames rb) (shutting rb) (rclosed rb) rb,
                    (outputBatch hasOut (outOwned rb) b).1, (outputBatch hasOut (outOwned rb) b).2)
  end.

(** ** Entry points *)

(** Insert; [tc] resolves the select of deliver.  The boolean asks for a wake-up of
    the timeout worker. *)
Definition Insert (tc : bool) (now seq : Z) (frame : option bytes) (rb : ReorderBuffer) : ReorderBuffer * bool * list bytes :=
  if seq =? 0 then (rb, false, freed frame) else
  if shutting rb then (rb, false, freed frame) else
  let '(rb, wake, fr1) := insertLocked now seq frame rb in
  let '(rb, batch) := takePendingLocked rb in
  let '(rb, fr2) := deliver tc batch rb in
  (rb, wake, fr1 ++ fr2).

(** The loop of InsertBatch; [wake] is its variable. *)
Fixpoint insertBatchLoop (now : Z) (frames : list (Z * option bytes)) (wake : bool) (rb : ReorderBuffer) : ReorderBuffer * bool * list bytes :=
  match frames with
  | [] => (rb, wake, [])
  | (seq, frame) :: frames =>
    if seq =? 0 then
      let '(rb, wake, fr) := insertBatchLoop now frames wake rb in (rb, wake, freed frame ++ fr)
    else
      let '(rb, w, fr1) := insertLocked now seq frame rb in
      let '(rb, wake, fr2) := insertBatchLoop now frames (if w then true else wake) rb in (rb, wake, fr1 ++ fr2)
  end.

Definition freeFrames (frames : list (Z * option bytes)) : list bytes := concat ((fun vf => freed vf.2) <$> frames).

Definition InsertBatch (tc : bool) (now : Z) (frames : list (Z * option bytes)) (rb : ReorderBuffer)
    : ReorderBuffer * bool * list bytes :=
  match frames with
  | [] => (rb, false, [])
  | _ =>
    if shutting rb then (rb, false, freeFrames frames) else
    let '(rb, wake, fr1) := insertBatchLoop now frames false rb in
    let '(rb, batch) := takePendingLocked rb in
    let '(rb, fr2) := deliver tc batch rb in
    (rb, wake, fr1 ++ fr2)
  end.

Definition InsertActorBuffered (now seq : Z) (frame : option bytes) (rb : ReorderBuffer) : ReorderBuffer * list bytes :=
  if seq =? 0 then (rb, freed frame) else
  if shutting rb then (rb, freed frame) else
  let '(rb, _, fr) := insertLocked now seq frame rb in (rb, fr).

Definition FlushActor (tc : bool) (rb : ReorderBuffer) : ReorderBuffer * list bytes :=
  let '(rb, batch) := takePendingLocked rb in deliver tc batch rb.

Definition InsertActor (tc : bool) (now seq : Z) (frame : option bytes) (rb : ReorderBuffer) : ReorderBuffer * list bytes :=
  let '(rb, f1) := InsertActorBuffered now seq frame rb in
  let '(rb, f2) := FlushActor tc rb in (rb, f1 ++ f2).

(** The loop of InsertBatchActor. *)
Fixpoint insertActorLoop (now : Z) (frames : list (Z * option bytes)) (rb : ReorderBuffer) : ReorderBuffer * list bytes :=
  match frames with
  | [] => (rb, [])
  | (seq, frame) :: frames =>
    let '(rb, fr1) := if seq =? 0 then (rb, freed frame) else let '(rb, _, fr) := insertLocked now seq frame rb in (rb, fr) in
    let '(rb, fr2) := insertActorLoop now frames rb in (rb, fr1 ++ fr2)
  end.

Definition InsertBatchActor (tc : bool) (now : Z) (frames : list (Z * option bytes)) (rb : ReorderBuffer)
    : ReorderBuffer * list bytes :=
  match frames with
  | [] => (rb, [])
  | _ =>
    if shutting rb then (rb, freeFrames frames) else
    let '(rb, f1) := insertActorLoop now frames rb in
    let '(rb, f2) := FlushActor tc rb in (rb, f1 ++ f2)
  end.

Definition ResetActorRB (rb : ReorderBuffer) : ReorderBuffer * list bytes :=
  let '(rb, drain) := takePendingLocked rb in
  let '(rb, fr) := releaseRingLocked (set_expected 0 rb) in
  (set_gapSince None rb, fr ++ freeBatch drain).

(** Reset also reports whether a gap was pending (the worker is signalled then). *)
Definition ResetRB (rb : ReorderBuffer) : ReorderBuffer * bool * list bytes :=
  let '(rb, drain) := takePendingLocked rb in
  let hadGap := bool_decide (is_Some (gapSince rb)) in
  let rb := set_expected 0 rb in
  let '(rb, fr) := releaseRingLocked rb in
  let rb := set_gapSince None rb in
  (rb, hadGap, fr ++ freeBatch drain).

Definition CloseRB (rb : ReorderBuffer) : ReorderBuffer * list bytes :=
  if rclosed rb then (rb, []) else
  let rb := set_queue (rpending rb) (outChan rb) (droppedFrames rb) true (rclosed rb) rb in
  let '(rb, drain) := takePendingLocked rb in
  let '(rb, fr) := releaseRingLocked rb in
  (set_queue (rpending rb) (outChan rb) (droppedFrames rb) (shutting rb) true rb, fr ++ freeBatch drain).

Definition ExpectedSeqActor (rb : ReorderBuffer) : Z := expectedSeq rb.

Definition GapDeadlineActor (rb : ReorderBuffer) : option Z :=
  if shutting rb then None else match gapSince rb with None => None | Some g => Some (g + reorderSkipDelay) end.

(** The first distance 1 <= i < len(ring) at which the ring holds a frame. *)
Definition firstHeld (rb : ReorderBuffer) : option nat :=
  head (filter (fun i => is_Some (ringAt rb (slotOf rb (u32 (expectedSeq rb + Z.of_nat i))))) (seq 1 (length (ring rb) - 1))).

(** The skip of an expired gap in ExpireGapActor. *)
Definition skipGap (now : Z) (rb : ReorderBuffer) : ReorderBuffer :=
  match firstHeld rb with
  | None => set_gapSince None rb
  | Some i =>
    let rb := set_expected (u32 (expectedSeq rb + Z.of_nat i)) rb in
    let rb := set_gap None (gapEvents rb) (u64 (timeoutFlushes rb + 1)) (u64 (skippedFrames rb + Z.of_nat i)) rb in
    (drainLocked now rb).1
  end.

(** [now] is the time of the check, [now'] that of the refresh inside drainLocked. *)
Definition gapExpired (now : Z) (rb : ReorderBuffer) : bool :=
  match gapSince rb with
  | None => false
  | Some g => negb (now <? g + reorderSkipDelay) && negb (buffered rb =? 0) && negb (expectedSeq rb =? 0)
              && bool_decide (ringAt rb (slotOf rb (expectedSeq rb)) = None)
  end.

Definition ExpireGapActor (tc : bool) (now now' : Z) (rb : ReorderBuffer) : ReorderBuffer * list bytes :=
  if shutting rb || negb (gapExpired now rb) then (rb, []) else FlushActor tc (skipGap now' rb).

(** The search of timeoutWorker: [n] turns from [i] on. *)
Fixpoint timeoutScan (n i : nat) (rb : ReorderBuffer) : option nat :=
  match n with
  | O => None
  | S n => match ringAt rb (slotOf rb (u32 (expectedSeq rb + Z.of_nat i))) with Some _ => Some i | None => timeoutScan n (S i) rb end
  end.

(** One expiry check of timeoutWorker (the loop body after the wait). *)
Definition timeoutCheck (tc : bool) (now now' : Z) (rb : ReorderBuffer) : ReorderBuffer * list bytes :=
  match gapSince rb with
  | None => (rb, [])
  | Some g =>
    if (now <? g + reorderSkipDelay) || (buffered rb =? 0) || (expectedSeq rb =? 0) || bool_decide (is_Some (ringAt rb (slotOf rb (expectedSeq rb)))) then (rb, []) else
    let '(rb, skipped) := match timeoutScan (length (ring rb) - 1) 1 rb with
                          | Some i => (set_expected (u32 (expectedSeq rb + Z.of_nat i)) rb, Z.of_nat i)
                          | None => (rb, 0)
                          end in
    let rb := set_gapSince None rb in
    let rb := if 0 <? skipped
              then (drainLocked now' (set_gap (gapSince rb) (gapEvents rb) (u64 (timeoutFlushes rb + 1)) (u64 (skippedFrames rb + skipped)) rb)).1
              else rb in
    let '(rb, batch) := takePendingLocked rb in deliver tc batch rb
  end.

(** ** Invariant *)

Definition countHeld (r : list (option bytes)) : nat := length (omap id r).

(** Sequence numbers of one epoch that the 32-bit comparison can order: less than
    2^31 apart, and short of the number after which the counter would wrap to the
    reserved 0. *)
Definition inRange (lo q : Z) : Prop := lo <= q < lo + 2 ^ 31 /\ 0 < q < 2 ^ 32 - 1.

Record rb_inv (lo : Z) (rb : ReorderBuffer) : Prop := {
  v_pow : exists n, 11 <= n <= 16 /\ lenZ (ring rb) = 2 ^ n;
  v_mask : windowMask rb = lenZ (ring rb) - 1;
  v_slots : length (seqSlots rb) = length (ring rb);
  v_exp : expectedSeq rb = 0 \/ lo <= expectedSeq rb <= lo + 2 ^ 31 /\ 0 < expectedSeq rb < 2 ^ 32;
  v_held : forall i f, ring rb !! i = Some (Some f) ->
           exists s, seqSlots rb !! i = Some s /\ inRange lo s /\ slotOf rb s = i /\
                     expectedSeq rb <= s < expectedSeq rb + lenZ (ring rb);
  v_count : buffered rb = Z.of_nat (countHeld (ring rb));
  v_start : expectedSeq rb = 0 -> countHeld (ring rb) = 0%nat
}.

(** The frame held for sequence number [s]. *)
Definition at_seq (rb : ReorderBuffer) (s : Z) : option bytes :=
  if (expectedSeq rb <=? s) && (s <? expectedSeq rb + lenZ (ring rb)) then ringAt rb (slotOf rb s) else None.

(** The delivery side, untouched by sequencing. *)
Record same_ctl (a b : ReorderBuffer) : Prop := {
  s_chan : outChan b = outChan a; s_owned : outOwned b = outOwned a; s_drop : droppedFrames b = droppedFrames a;
  s_shut : shutting b = shutting a; s_closed : rclosed b = rclosed a; s_actor : actorOwned b = actorOwned a
}.
#[export] Instance same_ctl_pre : PreOrder same_ctl.
Proof. split; [by constructor|]. intros ??? [] []. constructor; congruence. Qed.

(** ** Slots *)

Lemma ringAt_Some rb i f : ringAt rb i = Some f <-> ring rb !! i = Some (Some f).
Proof. unfold ringAt. destruct (ring rb !! i) as [[g|]|]; cbn; split; congruence. Qed.

Lemma ringAt_None rb i : (i < length (ring rb))%nat -> ringAt rb i = None <-> ring rb !! i = Some None.
Proof.
  intros H. unfold ringAt. destruct (lookup_lt_is_Some_2 _ _ H) as [[g|] ->]; cbn; split; congruence.
Qed.

Lemma slot_mod rb n s : windowMask rb = 2 ^ n - 1 -> 0 <= n -> 0 <= s -> slotOf rb s = Z.to_nat (s mod 2 ^ n).
Proof.
  intros Hm Hn Hs. unfold slotOf. rewrite Hm. f_equal. rewrite <- (Z.land_ones s n) by done. f_equal.
  unfold Z.ones. rewrite Z.shiftl_1_l. lia.
Qed.

Lemma mod_unique_window w e a b : 0 < w -> e <= a < e + w -> e <= b < e + w -> a mod w = b mod w -> a = b.
Proof.
  intros Hw Ha Hb H. assert ((a - b) mod w = 0) as Hz by (rewrite Zminus_mod, H, Z.sub_diag; apply Z.mod_0_l; lia).
  apply Z.mod_divide in Hz as [k Hk]; [|lia]. assert (k = 0); nia.
Qed.

Lemma countHeld_insert_Some (r : list (option bytes)) i f : r !! i = Some None -> omap id (<[i := Some f]> r) ≡ₚ f :: omap id r.
Proof.
  intros H. apply list_elem_of_split_length in H as (l1 & l2 & -> & ->).
  rewrite insert_app_r_alt, Nat.sub_diag by done. cbn [insert list_insert].
  rewrite !omap_app. cbn. by rewrite Permutation_middle.
Qed.

Lemma countHeld_insert_None (r : list (option bytes)) i f : r !! i = Some (Some f) -> f :: omap id (<[i := None]> r) ≡ₚ omap id r.
Proof.
  intros H. apply list_elem_of_split_length in H as (l1 & l2 & -> & ->).
  rewrite insert_app_r_alt, Nat.sub_diag by done. cbn [insert list_insert].
  rewrite !omap_app. cbn. by rewrite Permutation_middle.
Qed.

Section Invariant.
Variable lo : Z.
Hypothesis Hlo : 0 < lo.

Lemma inv_size rb : rb_inv lo rb -> 2048 <= lenZ (ring rb) <= 65536.
Proof using.
  intros [(n & Hn & ->) _ _ _ _ _ _].
  pose proof (Z.pow_le_mono_r 2 11 n). pose proof (Z.pow_le_mono_r 2 n 16). lia.
Qed.

Lemma inv_slot rb s : rb_inv lo rb -> 0 <= s -> slotOf rb s = Z.to_nat (s mod lenZ (ring rb)) /\ (slotOf rb s < length (ring rb))%nat.
Proof using.
  intros H Hs. pose proof (inv_size rb H). destruct H as [(n & Hn & HL) Hm _ _ _ _ _].
  rewrite (slot_mod rb n) by (rewrite ?Hm, ?HL; lia). rewrite HL. split; [done|].
  pose proof (Z.mod_pos_bound s (2 ^ n) ltac:(lia)). unfold lenZ in *. lia.
Qed.

Lemma slot_inj rb a b : rb_inv lo rb -> 0 <= expectedSeq rb ->
  expectedSeq rb <= a < expectedSeq rb + lenZ (ring rb) -> expectedSeq rb <= b < expectedSeq rb + lenZ (ring rb) ->
  slotOf rb a = slotOf rb b -> a = b.
Proof using.
  intros H He Ha Hb Hs. pose proof (inv_size rb H). destruct (inv_slot rb a H) as [-> _]; [lia|].
  destruct (inv_slot rb b H) as [Eb _]; [lia|]. destruct (inv_slot rb a H) as [Ea _]; [lia|]. rewrite Ea, Eb in Hs.
  pose proof (Z.mod_pos_bound a (lenZ (ring rb)) ltac:(lia)). pose proof (Z.mod_pos_bound b (lenZ (ring rb)) ltac:(lia)).
  apply (mod_unique_window (lenZ (ring rb)) (expectedSeq rb)); lia.
Qed.

(** What a slot holds is held under its own number. *)
Lemma at_seq_slot rb s f : rb_inv lo rb -> 0 <= expectedSeq rb ->
  at_seq rb s = Some f <-> exists i, ring rb !! i = Some (Some f) /\ seqSlots rb !! i = Some s.
Proof using.
  intros H He. unfold at_seq. split.
  - destruct (_ && _) eqn:E; [|done]. apply andb_prop in E as [E1 E2]. apply Z.leb_le in E1. apply Z.ltb_lt in E2.
    intros Hj. apply ringAt_Some in Hj. exists (slotOf rb s). split; [done|].
    destruct (v_held _ _ H _ _ Hj) as (s' & Hs' & Hr & Hsl & Hw). rewrite Hs'. f_equal.
    by apply (slot_inj rb).
  - intros (i & Hi & Hsi). destruct (v_held _ _ H _ _ Hi) as (s' & Hs' & Hr & Hsl & Hw).
    assert (s' = s) as -> by congruence. rewrite Hsl. unfold ringAt. rewrite Hi.
    destruct (Z.leb_spec (expectedSeq rb) s), (Z.ltb_spec s (expectedSeq rb + lenZ (ring rb))); try lia. done.
Qed.

(** One turn of the drain loop. *)
Definition drainStep (f : bytes) (rb : ReorderBuffer) : ReorderBuffer :=
  let idx := slotOf rb (expectedSeq rb) in
  set_ring (u32 (expectedSeq rb + 1)) (<[idx := None]> (ring rb)) (<[idx := 0]> (seqSlots rb))
           (windowMask rb) (buffered rb - 1) (pushChunk f (rpending rb)) rb.

Lemma pushChunk_concat f p : concat (pushChunk f p) = concat p ++ [f].
Proof using.
  induction p as [|c p IH]; [done|]. cbn [pushChunk]. destruct p as [|c' p].
  - destruct (_ =? _)%nat; cbn; by rewrite ?app_nil_r.
  - cbn [concat] in *. rewrite IH. by rewrite app_assoc.
Qed.

Lemma inv_held_at rb i f : rb_inv lo rb -> ring rb !! i = Some (Some f) -> expectedSeq rb <> 0 /\ 0 < expectedSeq rb.
Proof using.
  intros H Hi. destruct (decide (expectedSeq rb = 0)) as [E|E].
  - pose proof (v_start _ _ H E) as Hc. unfold countHeld in Hc. apply length_zero_iff_nil in Hc.
    assert (f ∈ omap id (ring rb)) as Hin by (apply list_elem_of_omap; exists (Some f); split; [by eapply list_elem_of_lookup_2|done]).
    rewrite Hc in Hin. by apply elem_of_nil in Hin.
  - split; [done|]. destruct (v_exp _ _ H); lia.
Qed.

Lemma drainStep_spec rb f : rb_inv lo rb -> ringAt rb (slotOf rb (expectedSeq rb)) = Some f ->
  let rb' := drainStep f rb in
  rb_inv lo rb' /\ inRange lo (expectedSeq rb) /\ expectedSeq rb' = expectedSeq rb + 1 /\
  at_seq rb (expectedSeq rb) = Some f /\
  (forall s, s <> expectedSeq rb -> at_seq rb' s = at_seq rb s) /\
  f :: omap id (ring rb') ≡ₚ omap id (ring rb).
Proof using Hlo.
  intros H Hf rb'. pose proof (proj1 (ringAt_Some _ _ _) Hf) as Hi.
  destruct (inv_held_at _ _ _ H Hi) as [He0 Hep]. pose proof (inv_size _ H) as Hsz.
  assert (inRange lo (expectedSeq rb)) as Hr.
  { destruct (v_held _ _ H _ _ Hi) as (s & _ & Hr & Hsl & Hw).
    assert (s = expectedSeq rb) as <-; [|done]. apply (slot_inj rb); auto; lia. }
  pose proof (inv_slot rb (expectedSeq rb) H ltac:(lia)) as [Hsl Hlt].
  assert (expectedSeq rb' = expectedSeq rb + 1) as HE.
  { unfold rb', drainStep. cbn [set_ring expectedSeq]. destruct Hr. apply u32_small. widths. lia. }
  assert (lenZ (ring rb') = lenZ (ring rb)) as HL by (unfold rb', drainStep, lenZ; cbn [set_ring ring]; by rewrite length_insert).
  assert (forall s, slotOf rb' s = slotOf rb s) as HS by done.
  assert (f :: omap id (ring rb') ≡ₚ omap id (ring rb)) as HP by (by apply countHeld_insert_None).
  split_and!; auto.
  - constructor; rewrite ?HL, ?HE; auto.
    + by destruct H.
    + by destruct H.
    + unfold rb', drainStep. cbn [set_ring seqSlots ring]. rewrite !length_insert. by destruct H.
    + right. destruct Hr. lia.
    + intros i g Hg. unfold rb', drainStep in Hg. cbn [set_ring ring] in Hg.
      apply list_lookup_insert_Some in Hg as [(_ & [=] & _)|[Hne Hg]].
      destruct (v_held _ _ H _ _ Hg) as (s & Hs & Hrs & Hss & Hw). exists s.
      unfold rb', drainStep. cbn [set_ring seqSlots]. rewrite list_lookup_insert_ne by done.
      split_and!; auto; [|lia]. destruct (decide (s = expectedSeq rb)) as [->|]; [done|lia].
    + apply Permutation_length in HP. cbn [length] in HP. pose proof (v_count _ _ H) as HC. unfold countHeld in *.
      change (buffered rb') with (buffered rb - 1). lia.
    + lia.
  - unfold at_seq. destruct (Z.leb_spec (expectedSeq rb) (expectedSeq rb)), (Z.ltb_spec (expectedSeq rb) (expectedSeq rb + lenZ (ring rb))); try lia.
    done.
  - intros s Hne. unfold at_seq. rewrite HE, HL, HS.
    assert (forall i, i <> slotOf rb (expectedSeq rb) -> ringAt rb' i = ringAt rb i) as Hoth.
    { intros i Hni. unfold ringAt, rb', drainStep. cbn [set_ring ring]. by rewrite list_lookup_insert_ne. }
    destruct (decide (s = expectedSeq rb + lenZ (ring rb))) as [->|Hns].
    + assert (slotOf rb (expectedSeq rb + lenZ (ring rb)) = slotOf rb (expectedSeq rb)) as ->.
      { destruct (inv_slot rb (expectedSeq rb + lenZ (ring rb)) H ltac:(lia)) as [-> _]. rewrite Hsl. f_equal.
        replace (_ + _) with (expectedSeq rb + 1 * lenZ (ring rb)) by lia. apply Z.mod_add. lia. }
      assert (ringAt rb' (slotOf rb (expectedSeq rb)) = None) as ->.
      { unfold ringAt, rb', drainStep. cbn [set_ring ring]. by rewrite list_lookup_insert_eq. }
      destruct (Z.leb_spec (expectedSeq rb) (expectedSeq rb + lenZ (ring rb))),
        (Z.ltb_spec (expectedSeq rb + lenZ (ring rb)) (expectedSeq rb + lenZ (ring rb))); cbn; try lia; by destruct (_ && _).
    + destruct (Z.leb_spec (expectedSeq rb + 1) s), (Z.ltb_spec s (expectedSeq rb + 1 + lenZ (ring rb))),
        (Z.leb_spec (expectedSeq rb) s), (Z.ltb_spec s (expectedSeq rb + lenZ (ring rb))); cbn [andb]; try lia; try done.
      apply Hoth. intros Hsl'. apply Hne. apply (slot_inj rb); auto; lia.
Qed.

(** The frames [fs] left the ring in order, from the expected number on. *)
Record drained (rb rb' : ReorderBuffer) (fs : list bytes) : Prop := {
  d_inv : rb_inv lo rb';
  d_exp : expectedSeq rb' = expectedSeq rb + lenZ fs;
  d_seq : forall j f, fs !! j = Some f -> at_seq rb (expectedSeq rb + Z.of_nat j) = Some f /\
                                       inRange lo (expectedSeq rb + Z.of_nat j);
  d_rest : forall s, expectedSeq rb' <= s -> at_seq rb' s = at_seq rb s;
  d_pend : concat (rpending rb') = concat (rpending rb) ++ fs;
  d_perm : fs ++ omap id (ring rb') ≡ₚ omap id (ring rb);
  d_ctl : same_ctl rb rb'
}.

Lemma drainLoop_spec fuel rb : rb_inv lo rb -> (countHeld (ring rb) < fuel)%nat ->
  let rb' := drainLoop fuel rb in
  ringAt rb' (slotOf rb' (expectedSeq rb')) = None /\ gapSince rb' = gapSince rb /\ exists fs, drained rb rb' fs.
Proof using Hlo.
  revert rb. induction fuel as [|fuel IH]; intros rb H Hf; [lia|]. cbn [drainLoop].
  destruct (ringAt rb (slotOf rb (expectedSeq rb))) as [f|] eqn:E.
  2:{ split_and!; auto. exists []. constructor; auto; try done; [unfold lenZ; cbn; lia|by rewrite app_nil_r]. }
  destruct (drainStep_spec rb f H E) as (I1 & R1 & E1 & A1 & O1 & P1). fold (drainStep f rb).
  destruct (IH (drainStep f rb) I1) as (N & G & fs & [D1 D2 D3 D4 D5 D6 D7]).
  { apply Permutation_length in P1. unfold countHeld in *. cbn [length] in P1. lia. }
  split_and!; auto. exists (f :: fs). set (rb' := drainLoop fuel (drainStep f rb)) in *.
  constructor; auto.
  - rewrite D2, E1. unfold lenZ. cbn [length]. lia.
  - intros [|j] g Hg; cbn in Hg.
    + injection Hg as <-. by rewrite Z.add_0_r.
    + destruct (D3 j g Hg) as [B1 B2]. rewrite E1 in B1, B2.
      replace (expectedSeq rb + Z.of_nat (S j)) with (expectedSeq rb + 1 + Z.of_nat j) by lia.
      split; [|done]. rewrite <- O1; [done|lia].
  - intros s Hs. rewrite D4 by done. apply O1. pose proof (Nat2Z.is_nonneg (length fs)). unfold lenZ in *. lia.
  - rewrite D5. unfold drainStep. cbn [set_ring rpending]. by rewrite pushChunk_concat, <- app_assoc.
  - rewrite <- P1. cbn [app]. by rewrite D6.
  - destruct D7. by constructor.
Qed.

Lemma countHeld_le (r : list (option bytes)) : (countHeld r <= length r)%nat.
Proof using. unfold countHeld. induction r as [|[f|] r IH]; cbn in *; lia. Qed.

Lemma set_gap_inv g a b c rb : rb_inv lo rb -> rb_inv lo (set_gap g a b c rb).
Proof using. intros []. by constructor. Qed.

Lemma refresh_spec now rb : let rb' := (refreshGapLocked now rb).1 in
  (rb_inv lo rb -> rb_inv lo rb') /\ expectedSeq rb' = expectedSeq rb /\ ring rb' = ring rb /\
  seqSlots rb' = seqSlots rb /\ windowMask rb' = windowMask rb /\ rpending rb' = rpending rb /\
  buffered rb' = buffered rb /\ same_ctl rb rb'.
Proof using.
  unfold refreshGapLocked. destruct (_ && _ && _), (gapSince rb); cbn [fst]; split_and!; try done;
    try (intros; by apply set_gap_inv); by constructor.
Qed.

Lemma at_seq_ext rb rb' : expectedSeq rb' = expectedSeq rb -> ring rb' = ring rb -> windowMask rb' = windowMask rb ->
  forall s, at_seq rb' s = at_seq rb s.
Proof using. intros E R M s. unfold at_seq, slotOf, ringAt. by rewrite E, R, M. Qed.

(** drainLocked leaves no frame at the expected number. *)
Lemma drainLocked_spec now rb : rb_inv lo rb ->
  let rb' := (drainLocked now rb).1 in
  at_seq rb' (expectedSeq rb') = None /\ exists fs, drained rb rb' fs.
Proof using Hlo.
  intros H. unfold drainLocked. set (rb1 := drainLoop _ _).
  destruct (drainLoop_spec (S (length (ring rb))) (set_gapSince None rb)) as (N & _ & fs & D).
  { by apply set_gap_inv. }
  { change (ring (set_gapSince None rb)) with (ring rb). pose proof (countHeld_le (ring rb)). lia. }
  fold rb1 in N, D. pose proof (refresh_spec now rb1) as (R1 & R2 & R3 & R4 & R5 & R6 & R7 & R8).
  destruct (refreshGapLocked now rb1) as [rb2 b]. cbn [fst] in *.
  pose proof (at_seq_ext rb1 rb2 R2 R3 R5) as HA. split.
  - rewrite HA, R2. unfold at_seq. rewrite N. by destruct (_ && _).
  - exists fs. destruct D as [D1 D2 D3 D4 D5 D6 D7]. constructor; auto; rewrite ?R2, ?R3, ?R6; auto.
    + intros s Hs. rewrite HA. by apply D4.
    + etransitivity; [|exact R8]. destruct D7. by constructor.
Qed.

(** ** Growing the window *)

Lemma growLoop_spec fuel n0 size required :
  11 <= n0 <= 16 -> size = 2 ^ n0 -> 16 - n0 <= Z.of_nat fuel ->
  exists n, n0 <= n <= 16 /\ growLoop fuel size required = 2 ^ n /\ (n = 16 \/ required < 2 ^ n).
Proof using.
  revert n0 size. induction fuel as [|fuel IH]; intros n0 size Hn Hs Hf; cbn [growLoop].
  { exists n0. split; [lia|]. split; [done|]. left. lia. }
  assert (2 ^ n0 <= 2 ^ 16) as Hle by (apply Z.pow_le_mono_r; lia).
  destruct (_ && _) eqn:E.
  - apply andb_prop in E as [E1 E2]. apply Z.ltb_lt in E2. unfold ReorderMaxWindowSize in E2.
    assert (n0 < 16) by (destruct (decide (n0 = 16)) as [->|]; [rewrite Hs in E2; lia|lia]).
    destruct (IH (n0 + 1) (size * 2)) as (n & H1 & H2 & H3); [lia|rewrite Hs, Z.pow_add_r by lia; lia|lia|].
    exists n. split; [lia|]. done.
  - exists n0. split; [lia|]. split; [done|]. apply andb_false_iff in E as [E|E].
    + right. apply Z.leb_gt in E. lia.
    + left. apply Z.ltb_ge in E. unfold ReorderMaxWindowSize in E. destruct (decide (n0 = 16)); [done|].
      assert (2 ^ n0 <= 2 ^ 15) by (apply Z.pow_le_mono_r; lia). lia.
Qed.

(** Rehashing a list of slots whose numbers have distinct new slots. *)
Lemma rehash_spec mask slots r q :
  let idx s := Z.to_nat (Z.land s mask) in
  let full := omap (fun p => match p.1 with Some f => Some (p.2, f) | None => None end) slots in
  NoDup (idx <$> full.*1) -> length r = length q ->
  (forall s f, (s, f) ∈ full -> (idx s < length r)%nat /\ r !! idx s = Some None) ->
  let '(r', q') := rehash mask slots r q in
  length r' = length r /\ length q' = length q /\
  (forall i, (forall s f, (s, f) ∈ full -> idx s <> i) -> r' !! i = r !! i /\ q' !! i = q !! i) /\
  (forall s f, (s, f) ∈ full -> r' !! idx s = Some (Some f) /\ q' !! idx s = Some s) /\
  omap id r' ≡ₚ full.*2 ++ omap id r.
Proof using.
  intros idx. revert r q. induction slots as [|[[f|] s] slots IH]; intros r q full HND HL Hfree; cbn [rehash].
  - split_and!; try done. intros s f Hin. by apply elem_of_nil in Hin.
  - cbn in full. set (full' := omap _ slots) in *. change full with ((s, f) :: full') in *. cbn in HND.
    apply NoDup_cons in HND as [Hnin HND].
    destruct (Hfree s f) as [Hlt Hsl]; [by left|].
    assert (forall t g, (t, g) ∈ full' -> idx t <> idx s) as Hdiff.
    { intros t g Hin Heq. apply Hnin. rewrite <- Heq. apply list_elem_of_fmap. exists t. split; [done|].
      apply list_elem_of_fmap. by exists (t, g). }
    specialize (IH (<[idx s := Some f]> r) (<[idx s := s]> q) HND). rewrite !length_insert in IH. specialize (IH HL).
    fold (idx s). destruct (rehash mask slots _ _) as [r' q']. destruct IH as (I1 & I2 & I3 & I4 & I5).
    { intros t g Hin. destruct (Hfree t g) as [H1 H2]; [by right|]. split; [done|].
      rewrite list_lookup_insert_ne; [done|]. intros Heq. by apply (Hdiff t g Hin). }
    split_and!; auto.
    + intros i Hi. destruct (I3 i) as [J1 J2].
      { intros t g Hin. apply (Hi t g). by right. }
      assert (idx s <> i) by (apply (Hi s f); by left). rewrite J1, J2, !list_lookup_insert_ne by done. done.
    + intros t g Hin. apply elem_of_cons in Hin as [[= -> ->]|Hin]; [|by apply I4].
      destruct (I3 (idx s)) as [J1 J2]; [exact Hdiff|]. rewrite J1, J2, !list_lookup_insert_eq by lia. done.
    + rewrite I5, (countHeld_insert_Some r _ f Hsl). cbn. by rewrite Permutation_middle.
  - by apply IH.
Qed.

Definition fullSlots (l : list (option bytes * Z)) : list (Z * bytes) :=
  omap (fun p => match p.1 with Some f => Some (p.2, f) | None => None end) l.

Lemma fullSlots_nodup (g : Z -> nat) l o :
  (forall i f s, l !! i = Some (Some f, s) -> g s = (o + i)%nat) ->
  NoDup (g <$> (fullSlots l).*1) /\ Forall (fun j => (o <= j)%nat) (g <$> (fullSlots l).*1).
Proof using.
  revert o. induction l as [|[[f|] s] l IH]; intros o H.
  - split; constructor.
  - destruct (IH (S o)) as [N F]. { intros i g' t Ht. rewrite (H (S i) g' t) by done. lia. }
    cbn. pose proof (H 0%nat f s eq_refl) as H0. rewrite Nat.add_0_r in H0. split.
    + constructor; [|done]. intros Hin. rewrite Forall_forall in F. specialize (F _ Hin). lia.
    + constructor; [lia|]. eapply Forall_impl; [exact F|]. cbn. intros. lia.
  - destruct (IH (S o)) as [N F]. { intros i g' t Ht. rewrite (H (S i) g' t) by done. lia. }
    cbn. split; [done|]. eapply Forall_impl; [exact F|]. cbn. intros. lia.
Qed.

Lemma fullSlots_elem (r : list (option bytes)) q s f : length r = length q ->
  (s, f) ∈ fullSlots (zip r q) <-> exists i, r !! i = Some (Some f) /\ q !! i = Some s.
Proof using.
  intros HL. unfold fullSlots. rewrite list_elem_of_omap. split.
  - intros ([[g|] t] & Hin & [= -> ->]). apply list_elem_of_lookup_1 in Hin as [i Hi].
    exists i. by apply lookup_zip_Some in Hi.
  - intros (i & H1 & H2). exists (Some f, s). split; [|done]. apply list_elem_of_lookup_2 with i. by apply lookup_zip_Some.
Qed.

Lemma fullSlots_frames (r : list (option bytes)) q : length r = length q -> (fullSlots (zip r q)).*2 = omap id r.
Proof using.
  revert q. induction r as [|[f|] r IH]; intros [|s q] HL; try done; cbn in *; [f_equal|]; apply IH; lia.
Qed.

Lemma growWindow_spec required rb : rb_inv lo rb -> 0 <= expectedSeq rb -> lenZ (ring rb) <= required ->
  match growWindowLocked required rb with
  | None => 65536 <= required \/ lenZ (ring rb) = 65536
  | Some rb' => rb_inv lo rb' /\ required < lenZ (ring rb') /\ expectedSeq rb' = expectedSeq rb /\
                (forall s, at_seq rb' s = at_seq rb s) /\ omap id (ring rb') ≡ₚ omap id (ring rb) /\
                rpending rb' = rpending rb /\ same_ctl rb rb'
  end.
Proof using Hlo.
  intros H He Hreq. pose proof (inv_size _ H) as Hsz. unfold growWindowLocked, ReorderMaxWindowSize.
  destruct (Z.leb_spec 65536 (lenZ (ring rb))) as [|Hlt]; [right; lia|].
  destruct (v_pow _ _ H) as (n0 & Hn0 & HL0).
  destruct (growLoop_spec 16 n0 (lenZ (ring rb)) required Hn0 HL0 ltac:(lia)) as (n & Hn & -> & Hor).
  assert (2 ^ n <= 2 ^ 16) by (apply Z.pow_le_mono_r; lia). destruct (Z.ltb_spec 65536 (2 ^ n)); [lia|].
  destruct (Z.leb_spec (2 ^ n) required) as [Hle|Hgt]; [left; destruct Hor as [->|]; lia|].
  set (N := Z.to_nat (2 ^ n)). assert (Z.of_nat N = 2 ^ n) as HN by (unfold N; lia).
  assert (forall a, 0 <= a -> Z.to_nat (Z.land a (2 ^ n - 1)) = Z.to_nat (a mod 2 ^ n)) as Hidx.
  { intros a Ha. rewrite <- Z.land_ones by lia. unfold Z.ones. rewrite Z.shiftl_1_l, <- Z.sub_1_r. done. }
  pose proof (v_slots _ _ H) as HLs.
  assert (forall s f, (s, f) ∈ fullSlots (zip (ring rb) (seqSlots rb)) ->
    inRange lo s /\ expectedSeq rb <= s < expectedSeq rb + lenZ (ring rb)) as Hwin.
  { intros s f Hin. apply fullSlots_elem in Hin as (i & Hi & Hs); [|lia].
    destruct (v_held _ _ H _ _ Hi) as (s' & Hs' & A & B & C). assert (s' = s) as <- by congruence. done. }
  pose proof (rehash_spec (2 ^ n - 1) (zip (ring rb) (seqSlots rb)) (replicate N None) (zeros N)) as HR.
  cbv zeta in HR. fold (fullSlots (zip (ring rb) (seqSlots rb))) in HR.
  set (full := fullSlots (zip (ring rb) (seqSlots rb))) in *.
  destruct (rehash _ _ _ _) as [r' q'] eqn:ER. destruct HR as (I1 & I2 & I3 & I4 & I5).
  { destruct (fullSlots_nodup (slotOf rb) (zip (ring rb) (seqSlots rb)) 0) as [ND _].
    { intros i f s Hi. apply lookup_zip_Some in Hi as [Hi Hs]. destruct (v_held _ _ H _ _ Hi) as (s' & Hs' & A & B & C).
      assert (s' = s) as <- by congruence. done. }
    apply NoDup_fmap_1 in ND. fold full in ND. apply NoDup_fmap_2_strong; [|done].
    intros a b Ha Hb Hab. apply list_elem_of_fmap in Ha as ([a' fa] & -> & Ha), Hb as ([b' fb] & -> & Hb). cbn in *.
    destruct (Hwin _ _ Ha), (Hwin _ _ Hb). rewrite !Hidx in Hab by lia.
    pose proof (Z.mod_pos_bound a' (2 ^ n) ltac:(lia)). pose proof (Z.mod_pos_bound b' (2 ^ n) ltac:(lia)).
    apply (mod_unique_window (2 ^ n) (expectedSeq rb)); lia. }
  { unfold zeros. by rewrite !length_replicate. }
  { intros s f Hin. destruct (Hwin _ _ Hin). rewrite Hidx, length_replicate by lia.
    pose proof (Z.mod_pos_bound s (2 ^ n) ltac:(lia)). split; [lia|]. apply lookup_replicate_2. lia. }
  rewrite length_replicate in I1. unfold zeros in I2. rewrite length_replicate in I2.
  set (rb' := set_ring _ _ _ _ _ _ _).
  assert (lenZ (ring rb') = 2 ^ n) as HL' by (unfold lenZ, rb'; cbn [set_ring ring]; rewrite I1; lia).
  assert (omap id (ring rb') ≡ₚ omap id (ring rb)) as HP.
  { cbn [rb' set_ring ring]. rewrite I5. unfold full. rewrite fullSlots_frames by lia.
    assert (omap id (replicate N (@None bytes)) = []) as ->; [clear; by induction N|]. by rewrite app_nil_r. }
  assert (forall i f, r' !! i = Some (Some f) -> exists s, (s, f) ∈ full /\ i = Z.to_nat (Z.land s (2 ^ n - 1)) /\ q' !! i = Some s) as Hback.
  { intros i f Hi. destruct (decide (Exists (fun p => Z.to_nat (Z.land p.1 (2 ^ n - 1)) = i) full)) as [HE|HE].
    - apply Exists_exists in HE as ([s g] & Hin & <-). cbn in *. destruct (I4 _ _ Hin) as [J1 J2].
      assert (g = f) as -> by congruence. exists s. done.
    - destruct (I3 i) as [J1 _]. { intros s g Hin Heq. apply HE. apply Exists_exists. by exists (s, g). }
      rewrite J1 in Hi. apply lookup_replicate in Hi as [[=] _]. }
  assert (rb_inv lo rb') as HI'.
  { constructor; rewrite ?HL'; auto.
    - exists n. split; [lia|done].
    - cbn [rb' set_ring seqSlots ring]. lia.
    - by apply (v_exp _ _ H).
    - intros i f Hi. destruct (Hback i f Hi) as (s & Hin & -> & Hq). exists s. destruct (Hwin _ _ Hin).
      split; [done|]. split; [done|]. split; [done|]. cbn [rb' set_ring expectedSeq]. lia.
    - unfold countHeld. rewrite (Permutation_length HP). apply (v_count _ _ H).
    - intros E0. unfold countHeld. rewrite (Permutation_length HP). by apply (v_start _ _ H). }
  split_and!; auto; try done; try lia; try (by constructor).
  intros s. apply option_eq. intros f. rewrite !at_seq_slot by auto. cbn [rb' set_ring ring seqSlots]. split.
  - intros (i & Hi & Hs). destruct (Hback i f Hi) as (s' & Hin & -> & Hq). assert (s' = s) as -> by congruence.
    apply fullSlots_elem in Hin; [done|lia].
  - intros Hex. apply fullSlots_elem in Hex; [|lia]. eexists. by apply I4.
Qed.

(** ** Inserting a frame *)

(** Frame [f] was accepted under number [q] and the frames [fs] left the ring. *)
Record accepted (rb rb' : ReorderBuffer) (q : Z) (f : bytes) (fs : list bytes) : Prop := {
  a_inv : rb_inv lo rb';
  a_exp : expectedSeq rb' = expectedSeq rb + lenZ fs;
  a_some : fs <> [] <-> q = expectedSeq rb;
  a_seq : forall j g, fs !! j = Some g ->
          (if decide (expectedSeq rb + Z.of_nat j = q) then Some f else at_seq rb (expectedSeq rb + Z.of_nat j)) = Some g /\
          inRange lo (expectedSeq rb + Z.of_nat j);
  a_rest : forall s, expectedSeq rb' <= s -> at_seq rb' s = if decide (s = q) then Some f else at_seq rb s;
  a_quiet : q = expectedSeq rb -> at_seq rb' (expectedSeq rb') = None;
  a_pend : concat (rpending rb') = concat (rpending rb) ++ fs;
  a_perm : fs ++ omap id (ring rb') ≡ₚ f :: omap id (ring rb);
  a_ctl : same_ctl rb rb'
}.

Definition putSlot (q : Z) (f : bytes) (rb : ReorderBuffer) : ReorderBuffer :=
  set_ring (expectedSeq rb) (<[slotOf rb q := Some f]> (ring rb)) (<[slotOf rb q := q]> (seqSlots rb)) (windowMask rb)
           (buffered rb + 1) (rpending rb) rb.

Lemma putSlot_spec q f rb : rb_inv lo rb -> 0 < expectedSeq rb -> inRange lo q ->
  expectedSeq rb <= q < expectedSeq rb + lenZ (ring rb) -> ringAt rb (slotOf rb q) = None ->
  rb_inv lo (putSlot q f rb) /\ omap id (ring (putSlot q f rb)) ≡ₚ f :: omap id (ring rb) /\
  forall s, at_seq (putSlot q f rb) s = if decide (s = q) then Some f else at_seq rb s.
Proof using Hlo.
  intros H He Hr Hw Hn. destruct (inv_slot rb q H ltac:(lia)) as [_ Hlt]. pose proof (inv_size _ H).
  apply ringAt_None in Hn; [|done]. set (rb' := putSlot q f rb).
  assert (lenZ (ring rb') = lenZ (ring rb)) as HL by (unfold rb', putSlot, lenZ; cbn [set_ring ring]; by rewrite length_insert).
  assert (omap id (ring rb') ≡ₚ f :: omap id (ring rb)) as HP by (by apply countHeld_insert_Some).
  split_and!; auto.
  - constructor; rewrite ?HL; auto; try (by destruct H).
    + unfold rb', putSlot. cbn [set_ring seqSlots ring]. rewrite !length_insert. by destruct H.
    + intros i g Hg. unfold rb', putSlot in Hg |- *. cbn [set_ring ring seqSlots expectedSeq] in *.
      apply list_lookup_insert_Some in Hg as [(<- & [= ->] & _)|[Hne Hg]].
      * exists q. rewrite list_lookup_insert_eq by (rewrite (v_slots _ _ H); done). done.
      * destruct (v_held _ _ H _ _ Hg) as (s & Hs & A & B & C). exists s. by rewrite list_lookup_insert_ne.
    + unfold countHeld. rewrite (Permutation_length HP). cbn [rb' putSlot set_ring buffered length].
      rewrite (v_count _ _ H). unfold countHeld. lia.
    + cbn [rb' putSlot set_ring expectedSeq]. lia.
  - intros s. unfold at_seq. rewrite HL. change (expectedSeq rb') with (expectedSeq rb). change (slotOf rb' s) with (slotOf rb s).
    destruct (decide (s = q)) as [->|Hne].
    + destruct (Z.leb_spec (expectedSeq rb) q), (Z.ltb_spec q (expectedSeq rb + lenZ (ring rb))); try lia. cbn [andb].
      apply ringAt_Some. by apply list_lookup_insert_eq.
    + destruct (Z.leb_spec (expectedSeq rb) s), (Z.ltb_spec s (expectedSeq rb + lenZ (ring rb))); try done. cbn [andb].
      unfold ringAt, rb', putSlot. cbn [set_ring ring]. rewrite list_lookup_insert_ne; [done|].
      intros Hs. apply Hne. symmetry. apply (slot_inj rb); auto; lia.
Qed.

Lemma placeFrame_spec now q f rb : rb_inv lo rb -> 0 < expectedSeq rb -> inRange lo q ->
  expectedSeq rb <= q < expectedSeq rb + lenZ (ring rb) -> at_seq rb (expectedSeq rb) = None ->
  let '(rb', _, fr) := placeFrame now q (Some f) rb in
  match at_seq rb q with
  | Some _ => rb' = rb /\ fr = [f]
  | None => fr = [] /\ exists fs, accepted rb rb' q f fs
  end.
Proof using Hlo.
  intros H He Hr Hw Hq. unfold placeFrame.
  assert (at_seq rb q = ringAt rb (slotOf rb q)) as ->.
  { unfold at_seq. destruct (Z.leb_spec (expectedSeq rb) q), (Z.ltb_spec q (expectedSeq rb + lenZ (ring rb))); try lia. done. }
  destruct (ringAt rb (slotOf rb q)) eqn:E; [done|]. fold (putSlot q f rb).
  destruct (putSlot_spec q f rb H He Hr Hw E) as (I & P & A). set (rb1 := putSlot q f rb) in *.
  change (expectedSeq rb1) with (expectedSeq rb). destruct (Z.eqb_spec q (expectedSeq rb)) as [Eq|Hne].
  - pose proof (drainLocked_spec now rb1 I) as (N & fs & [D1 D2 D3 D4 D5 D6 D7]).
    change (expectedSeq rb1) with (expectedSeq rb) in *. change (rpending rb1) with (rpending rb) in *.
    destruct (drainLocked now rb1) as [rb2 wake] eqn:ED. cbn [fst] in *. split; [done|]. exists fs.
    assert (fs <> []) as Hfs.
    { intros ->. unfold lenZ in D2. cbn in D2. rewrite Z.add_0_r in D2. rewrite D4, A in N by lia.
      rewrite decide_True in N by lia. done. }
    constructor; [done|done|done| | |done|done| |].
    + intros j g Hg. destruct (D3 j g Hg) as [B1 B2]. rewrite A in B1. done.
    + intros s Hs. by rewrite D4, A by done.
    + by rewrite D6, P.
    + destruct D7. by constructor.
  - pose proof (refresh_spec now rb1) as (R1 & R2 & R3 & R4 & R5 & R6 & R7 & R8).
    destruct (refreshGapLocked now rb1) as [rb2 wake]. cbn [fst] in *. split; [done|]. exists [].
    constructor; auto; rewrite ?R2, ?R3, ?R6; auto; try done.
    + unfold lenZ. cbn. change (expectedSeq rb1) with (expectedSeq rb). lia.
    + intros s _. rewrite (at_seq_ext rb1 rb2) by done. apply A.
    + by rewrite app_nil_r.
    + destruct R8. by constructor.
Qed.

Definition rb_ok (rb : ReorderBuffer) : Prop := rb_inv lo rb /\ at_seq rb (expectedSeq rb) = None.

(** The first number after a reset becomes the expected one. *)
Definition rebase (q : Z) (rb : ReorderBuffer) : ReorderBuffer := if expectedSeq rb =? 0 then set_expected q rb else rb.

Lemma empty_ring rb i : countHeld (ring rb) = 0%nat -> ringAt rb i = None.
Proof using.
  intros H. destruct (ringAt rb i) as [f|] eqn:E; [|done]. apply ringAt_Some in E.
  unfold countHeld in H. apply length_zero_iff_nil in H.
  assert (f ∈ omap id (ring rb)) as Hin by (apply list_elem_of_omap; exists (Some f); split; [by eapply list_elem_of_lookup_2|done]).
  rewrite H in Hin. by apply elem_of_nil in Hin.
Qed.

Lemma rebase_ok q rb : rb_ok rb -> inRange lo q ->
  rb_ok (rebase q rb) /\ 0 < expectedSeq (rebase q rb) /\ (forall s, at_seq (rebase q rb) s = at_seq rb s) /\
  expectedSeq (rebase q rb) = (if expectedSeq rb =? 0 then q else expectedSeq rb).
Proof using Hlo.
  intros [H Hq] [Hr1 Hr2]. unfold rebase. destruct (Z.eqb_spec (expectedSeq rb) 0) as [E|E].
  - pose proof (v_start _ _ H E) as Hc.
    assert (forall e s, at_seq (set_expected e rb) s = None) as HN.
    { intros e s. unfold at_seq. destruct (_ && _); [|done]. by apply (empty_ring (set_expected e rb)). }
    split; [split|]; [|apply HN|].
    + destruct H. constructor; auto.
      * right. cbn [set_expected set_ring expectedSeq]. lia.
      * intros i f Hi. pose proof (empty_ring rb i Hc) as Hn. by rewrite (proj2 (ringAt_Some rb i f) Hi) in Hn.
    + split; [cbn [set_expected set_ring expectedSeq]; lia|]. split; [|done]. intros s. rewrite HN.
      symmetry. unfold at_seq. destruct (_ && _); [|done]. by apply empty_ring.
  - split; [done|]. split; [|done]. destruct (v_exp _ _ H); [done|lia].
Qed.

Definition rejected (rb : ReorderBuffer) (q : Z) : Prop :=
  q < expectedSeq rb \/ expectedSeq rb + 65535 <= q \/ is_Some (at_seq rb q).

Lemma accepted_ok rb rb' q f fs : rb_ok rb -> expectedSeq rb <= q -> accepted rb rb' q f fs -> rb_ok rb'.
Proof using.
  intros [H Hq] Hle [A1 A2 A3 A4 A5 A6 A7 A8 A9]. split; [done|].
  destruct (decide (q = expectedSeq rb)) as [E|E]; [by apply A6|].
  assert (fs = []) as -> by (destruct fs; [done|]; exfalso; apply E, A3; done).
  unfold lenZ in A2. cbn in A2. rewrite Z.add_0_r in A2. rewrite A5 by lia. rewrite A2, decide_False by lia. done.
Qed.

Lemma insertLocked_spec now q f rb : rb_ok rb -> inRange lo q ->
  let rb0 := rebase q rb in
  let '(rb', _, fr) := insertLocked now q (Some f) rb in
  fr = [f] /\ rb' = rb0 /\ rejected rb0 q \/
  fr = [] /\ at_seq rb0 q = None /\ expectedSeq rb0 <= q /\ rb_ok rb' /\ exists fs, accepted rb0 rb' q f fs.
Proof using Hlo.
  intros Hok Hr rb0. destruct (rebase_ok q rb Hok Hr) as (Hok0 & He & Hat & HE).
  unfold insertLocked. fold (rebase q rb). fold rb0 in Hok0, He, Hat, HE |- *. clearbody rb0. destruct (Hok0) as [H Hq].
  pose proof (inv_size _ H) as Hsz.
  assert (s32 (u32 (q - expectedSeq rb0)) = q - expectedSeq rb0) as ->.
  { destruct Hr as [Hr1 Hr2]. destruct (v_exp _ _ H) as [|[Hv1 Hv2]]; [lia|]. clear - Hr1 Hr2 Hv1 Hv2. widths.
    destruct (decide (expectedSeq rb0 <= q)).
    - rewrite (Z.mod_small (q - _)) by lia. rewrite Z.mod_small; lia.
    - replace ((q - expectedSeq rb0) mod 2 ^ 32) with (q - expectedSeq rb0 + 2 ^ 32)
        by (rewrite <- (Z.mod_add _ 1), Z.mod_small by lia; lia).
      replace (q - expectedSeq rb0 + 2 ^ 32 + 2 ^ 31) with (q - expectedSeq rb0 + 2 ^ 31 + 1 * 2 ^ 32) by lia.
      rewrite Z.mod_add by lia. rewrite Z.mod_small; lia. }
  destruct (Z.ltb_spec (q - expectedSeq rb0) 0) as [Hlt|Hge]; [left; split_and!; auto; left; lia|].
  assert (forall rb1, rb_ok rb1 -> expectedSeq rb1 = expectedSeq rb0 -> (forall s, at_seq rb1 s = at_seq rb0 s) ->
    omap id (ring rb1) ≡ₚ omap id (ring rb0) -> rpending rb1 = rpending rb0 -> same_ctl rb0 rb1 ->
    q < expectedSeq rb1 + lenZ (ring rb1) -> (at_seq rb0 q = None \/ rb1 = rb0) ->
    let '(rb', _, fr) := placeFrame now q (Some f) rb1 in
    fr = [f] /\ rb' = rb0 /\ rejected rb0 q \/
    fr = [] /\ at_seq rb0 q = None /\ expectedSeq rb0 <= q /\ rb_ok rb' /\ exists fs, accepted rb0 rb' q f fs) as Hplace.
  { intros rb1 Hok1 E1 A1 P1 Q1 C1 W1 Hor. destruct Hok1 as [H1 Hq1].
    pose proof (placeFrame_spec now q f rb1 H1 ltac:(lia) Hr ltac:(lia) Hq1) as HP.
    destruct (placeFrame now q (Some f) rb1) as [[rb' w] fr]. rewrite A1 in HP. destruct (at_seq rb0 q) as [g|] eqn:Eg.
    - destruct HP as [-> ->]. destruct Hor as [| ->]; [done|]. left. split_and!; auto. right. right. by rewrite Eg.
    - destruct HP as [-> (fs & HA)]. right. split; [done|]. split; [done|]. split; [lia|]. split.
      + apply (accepted_ok rb1 rb' q f fs); [done|lia|done].
      + exists fs. destruct HA as [B1 B2 B3 B4 B5 B6 B7 B8 B9]. rewrite E1 in *.
        constructor; auto; rewrite ?Q1 in *; auto.
        * intros j g Hg. destruct (B4 j g Hg) as [B4a B4b]. rewrite A1 in B4a. done.
        * intros s Hs. rewrite B5 by done. by rewrite A1.
        * by rewrite B8, P1.
        * by etransitivity. }
  destruct (Z.leb_spec (lenZ (ring rb0)) (q - expectedSeq rb0)) as [Hbig|Hfit].
  - unfold ReorderMaxWindowSize. destruct (Z.leb_spec 65536 (q - expectedSeq rb0)); [left; split_and!; auto; right; left; lia|].
    pose proof (growWindow_spec (q - expectedSeq rb0 + 1) rb0 H ltac:(lia) ltac:(lia)) as HG.
    destruct (growWindowLocked _ rb0) as [rb1|].
    + destruct HG as (G1 & G2 & G3 & G4 & G5 & G6 & G7). apply Hplace; auto; [|lia|].
      * split; [done|]. by rewrite G3, G4.
      * left. unfold at_seq. destruct (Z.ltb_spec q (expectedSeq rb0 + lenZ (ring rb0))); [lia|]. by rewrite andb_false_r.
    + left. split_and!; auto. right. left. lia.
  - apply Hplace; auto; [done|lia].
Qed.
End Invariant.

(** ** Whole histories *)

Inductive rop :=
| RInsert (now q : Z) (f : bytes)
| RFlush (tc : bool)
| RExpire (tc : bool) (now now' : Z)
| RReset
| RClose
| ROutput.

(** The buffer, the frames handed to the callback so far and the frames given back
    to the pool so far. *)
Record rrun := mkRRun { rrb : ReorderBuffer; rout : list bytes; rfreed : list bytes }.

Definition rstep (r : rrun) (op : rop) : rrun :=
  match op with
  | RInsert now q f => let '(rb, fr) := InsertActorBuffered now q (Some f) (rrb r) in mkRRun rb (rout r) (rfreed r ++ fr)
  | RFlush tc => let '(rb, fr) := FlushActor tc (rrb r) in mkRRun rb (rout r) (rfreed r ++ fr)
  | RExpire tc now now' => let '(rb, fr) := ExpireGapActor tc now now' (rrb r) in mkRRun rb (rout r) (rfreed r ++ fr)
  | RReset => let '(rb, fr) := ResetActorRB (rrb r) in mkRRun rb (rout r) (rfreed r ++ fr)
  | RClose => let '(rb, fr) := CloseRB (rrb r) in mkRRun rb (rout r) (rfreed r ++ fr)
  | ROutput => match outWorkerStep true (rrb r) with
               | None => r
               | Some (rb, out, fr) => mkRRun rb (rout r ++ out) (rfreed r ++ fr)
               end
  end.

Definition rexec (owned : bool) (ops : list rop) : rrun := fold_left rstep ops (mkRRun (newActorReorderBuffer owned) [] []).

Definition insertedOf (op : rop) : list (Z * bytes) := match op with RInsert _ q f => [(q, f)] | _ => [] end.
Definition inserted (ops : list rop) : list (Z * bytes) := concat (insertedOf <$> ops).

(** Everything the buffer still owns. *)
Definition holding (rb : ReorderBuffer) : list bytes :=
  omap id (ring rb) ++ concat (rpending rb) ++ concat (concat (outChan rb)).

Section Histories.
Variable lo : Z.
Hypothesis Hlo : 0 < lo.

Lemma new_ok actor owned : rb_ok lo (newReorder actor owned).
Proof using Hlo.
  assert (forall n, omap id (replicate n (@None bytes)) = []) as Hnil by (induction n; auto).
  assert (countHeld (ring (newReorder actor owned)) = 0%nat) as Hc.
  { unfold countHeld. cbn [newReorder ring]. by rewrite Hnil. }
  split.
  - constructor.
    + exists 11. split; [lia|]. unfold lenZ. cbn [newReorder ring]. rewrite length_replicate. reflexivity.
    + unfold lenZ. cbn [newReorder ring windowMask]. rewrite length_replicate. reflexivity.
    + cbn [newReorder ring seqSlots]. unfold zeros. by rewrite !length_replicate.
    + by left.
    + intros i f Hi. cbn [newReorder ring] in Hi. by apply lookup_replicate in Hi as [[=] _].
    + by rewrite Hc.
    + by intros _.
  - unfold at_seq. destruct (_ && _); [|done]. by apply empty_ring.
Qed.

(** Operations that leave the ring as it is, up to the queue and the timer. *)
Lemma ok_ext rb rb' : rb_ok lo rb -> expectedSeq rb' = expectedSeq rb -> ring rb' = ring rb -> seqSlots rb' = seqSlots rb ->
  windowMask rb' = windowMask rb -> buffered rb' = buffered rb -> rb_ok lo rb'.
Proof using.
  intros [[] Hq] E R S M B. split.
  - constructor; unfold slotOf in *; rewrite ?E, ?R, ?S, ?M, ?B; auto.
  - by rewrite (at_seq_ext rb rb'), E.
Qed.

Lemma deliver_frame tc batch rb : let '(rb', fr) := deliver tc batch rb in
  expectedSeq rb' = expectedSeq rb /\ ring rb' = ring rb /\ seqSlots rb' = seqSlots rb /\ windowMask rb' = windowMask rb /\
  buffered rb' = buffered rb /\ rpending rb' = rpending rb /\ shutting rb' = shutting rb /\
  (outChan rb' = outChan rb ++ [batch] /\ fr = [] \/ outChan rb' = outChan rb /\ fr = concat batch).
Proof using.
  unfold deliver, freeBatch. destruct batch as [|c p]; [by split_and!; auto|].
  destruct (_ && _); [by split_and!; auto|]. destruct (_ <? _)%nat; by split_and!; auto.
Qed.

Lemma flush_spec tc rb : rb_ok lo rb -> let '(rb', fr) := FlushActor tc rb in
  rb_ok lo rb' /\ expectedSeq rb' = expectedSeq rb /\ (forall s, at_seq rb' s = at_seq rb s) /\
  ring rb' = ring rb /\ rpending rb' = [] /\ shutting rb' = shutting rb /\
  (concat (concat (outChan rb')) = concat (concat (outChan rb)) ++ concat (rpending rb) /\ fr = [] \/
   outChan rb' = outChan rb /\ fr = concat (rpending rb)).
Proof using.
  intros Hok. unfold FlushActor, takePendingLocked. set (rb1 := set_queue _ _ _ _ _ rb).
  pose proof (deliver_frame tc (rpending rb) rb1) as HD. destruct (deliver tc (rpending rb) rb1) as [rb' fr].
  destruct HD as (D1 & D2 & D3 & D4 & D5 & D6 & D7 & D8). split; [by eapply (ok_ext rb)|].
  split; [done|]. split; [by apply (at_seq_ext rb)|]. split; [done|]. split; [by rewrite D6|]. split; [done|].
  destruct D8 as [[-> ->]|[-> ->]]; [left|right]; split; auto. rewrite !concat_app. cbn. by rewrite app_nil_r.
Qed.

(** ** Gap expiry *)

Lemma slot_wrap rb x : rb_inv lo rb -> 0 <= x -> slotOf rb (u32 x) = slotOf rb x.
Proof using.
  intros H Hx. pose proof (u32_range x) as Hu. destruct (inv_slot lo rb x H Hx) as [-> _].
  destruct (inv_slot lo rb (u32 x) H) as [-> _]; [widths; lia|]. f_equal.
  destruct (v_pow _ _ H) as (n & Hn & ->). unfold u32.
  replace (2 ^ 32) with (2 ^ n * 2 ^ (32 - n)) by (rewrite <- Z.pow_add_r by lia; f_equal; lia).
  assert (0 < 2 ^ n) by (apply Z.pow_pos_nonneg; lia). assert (0 < 2 ^ (32 - n)) by (apply Z.pow_pos_nonneg; lia).
  rewrite Z.rem_mul_r by lia. rewrite (Z.mul_comm (2 ^ n)), Z.mod_add by lia. apply Z.mod_mod. lia.
Qed.

(** The slot probe of the skip loop sees exactly what is held. *)
Lemma probe_at rb i : rb_inv lo rb -> 0 < expectedSeq rb -> 0 <= i < lenZ (ring rb) ->
  ringAt rb (slotOf rb (u32 (expectedSeq rb + i))) = at_seq rb (expectedSeq rb + i).
Proof using.
  intros H He Hi. rewrite slot_wrap by (auto; lia). unfold at_seq.
  destruct (Z.leb_spec (expectedSeq rb) (expectedSeq rb + i)),
    (Z.ltb_spec (expectedSeq rb + i) (expectedSeq rb + lenZ (ring rb))); try lia. done.
Qed.

Lemma at_seq_range rb s f : rb_inv lo rb -> 0 < expectedSeq rb -> at_seq rb s = Some f ->
  inRange lo s /\ expectedSeq rb <= s < expectedSeq rb + lenZ (ring rb).
Proof using.
  intros H He Hs. apply (at_seq_slot lo) in Hs as (i & Hi & Hq); [|done|lia].
  destruct (v_held _ _ H _ _ Hi) as (s' & Hs' & A & B & C). assert (s' = s) as -> by congruence. done.
Qed.

Lemma firstHeld_spec rb : rb_inv lo rb -> 0 < expectedSeq rb -> at_seq rb (expectedSeq rb) = None -> buffered rb <> 0 ->
  exists i f, firstHeld rb = Some i /\ (1 <= i)%nat /\ at_seq rb (expectedSeq rb + Z.of_nat i) = Some f /\
    forall j, (j < i)%nat -> at_seq rb (expectedSeq rb + Z.of_nat j) = None.
Proof using.
  intros H He Hq Hb. pose proof (inv_size lo _ H) as Hsz.
  assert (exists s f, at_seq rb s = Some f) as (s & f & Hs).
  { rewrite (v_count _ _ H) in Hb. unfold countHeld in Hb. destruct (omap id (ring rb)) as [|f l] eqn:E; [done|].
    assert (f ∈ omap id (ring rb)) as Hin by (rewrite E; by left).
    apply list_elem_of_omap in Hin as ([g|] & Hin & Hg); [|done]. cbn in Hg. injection Hg as ->.
    apply list_elem_of_lookup_1 in Hin as [i Hi]. destruct (v_held _ _ H _ _ Hi) as (s & Hs & _).
    exists s, f. apply (at_seq_slot lo); [done|lia|]. eauto. }
  destruct (at_seq_range rb s f H He Hs) as [_ Hw].
  destruct (head_filter_seq (fun i => is_Some (ringAt rb (slotOf rb (u32 (expectedSeq rb + Z.of_nat i))))) 1
    (length (ring rb) - 1) (Z.to_nat (s - expectedSeq rb))) as (i & H1 & H2 & H3 & H4).
  { rewrite Z2Nat.id, probe_at by (auto; lia). rewrite Zplus_minus, Hs. done. }
  { assert (s <> expectedSeq rb) by congruence. unfold lenZ in *. lia. }
  cbn beta in H2. destruct H2 as [g Hg]. rewrite probe_at in Hg by (auto; unfold lenZ; lia).
  exists i, g. split_and!; auto; [lia|]. intros j Hj. destruct (decide (j = 0%nat)) as [->|Hj0]; [by rewrite Z.add_0_r|].
  destruct (at_seq rb (expectedSeq rb + Z.of_nat j)) as [h|] eqn:Eh; [|done]. exfalso.
  apply (H4 j); [lia|]. rewrite probe_at by (auto; unfold lenZ; lia). by rewrite Eh.
Qed.

(** Moving the expected number over numbers that are not held. *)
Lemma advance_spec rb i f : rb_inv lo rb -> 0 < expectedSeq rb ->
  at_seq rb (expectedSeq rb + Z.of_nat i) = Some f ->
  (forall j, (j < i)%nat -> at_seq rb (expectedSeq rb + Z.of_nat j) = None) ->
  let rb' := set_expected (u32 (expectedSeq rb + Z.of_nat i)) rb in
  expectedSeq rb' = expectedSeq rb + Z.of_nat i /\ rb_inv lo rb' /\ forall s, at_seq rb' s = at_seq rb s.
Proof using Hlo.
  intros H He Hi Hj rb'. pose proof (inv_size lo _ H) as Hsz.
  destruct (at_seq_range rb _ f H He Hi) as [Hr Hw].
  assert (expectedSeq rb' = expectedSeq rb + Z.of_nat i) as HE.
  { cbn [rb' set_expected set_ring expectedSeq]. apply u32_small. destruct Hr. widths. lia. }
  assert (forall s g, at_seq rb s = Some g -> expectedSeq rb + Z.of_nat i <= s) as Hmin.
  { intros s g Hs. destruct (at_seq_range rb s g H He Hs) as [_ Hws].
    destruct (decide (expectedSeq rb + Z.of_nat i <= s)); [done|].
    specialize (Hj (Z.to_nat (s - expectedSeq rb)) ltac:(lia)). rewrite Z2Nat.id, Zplus_minus in Hj by lia. congruence. }
  assert (rb_inv lo rb') as HI.
  { constructor; rewrite ?HE; try (by destruct H).
    - right. destruct Hr. lia.
    - intros k g Hg. destruct (v_held _ _ H _ _ Hg) as (s & Hs & A & B & C). exists s. split_and!; auto.
      + apply (Hmin s g). apply (at_seq_slot lo); [done|lia|]. eauto.
      + change (ring rb') with (ring rb). lia.
    - lia. }
  split_and!; auto. intros s. apply option_eq. intros g. rewrite !(at_seq_slot lo) by (auto; lia). done.
Qed.

Record skipped (rb rb' : ReorderBuffer) (i : nat) (fs : list bytes) : Prop := {
  k_pos : (1 <= i)%nat;
  k_none : forall j, (j < i)%nat -> at_seq rb (expectedSeq rb + Z.of_nat j) = None;
  k_some : fs <> [];
  k_exp : expectedSeq rb' = expectedSeq rb + Z.of_nat i + lenZ fs;
  k_seq : forall j f, fs !! j = Some f -> at_seq rb (expectedSeq rb + Z.of_nat i + Z.of_nat j) = Some f;
  k_rest : forall s, expectedSeq rb' <= s -> at_seq rb' s = at_seq rb s;
  k_pend : concat (rpending rb') = concat (rpending rb) ++ fs;
  k_perm : fs ++ omap id (ring rb') ≡ₚ omap id (ring rb);
  k_ctl : same_ctl rb rb';
  k_ok : rb_ok lo rb'
}.

Lemma skipGap_spec now rb : rb_ok lo rb -> 0 < expectedSeq rb -> buffered rb <> 0 ->
  exists i fs, skipped rb (skipGap now rb) i fs.
Proof using Hlo.
  intros [H Hq] He Hb. destruct (firstHeld_spec rb H He Hq Hb) as (i & f & HF & Hi & Hf & Hj).
  unfold skipGap. rewrite HF. destruct (advance_spec rb i f H He Hf Hj) as (E1 & I1 & A1).
  set (rb1 := set_expected _ rb) in *. set (rb2 := set_gap _ _ _ _ rb1).
  assert (rb_inv lo rb2) as I2 by (by apply set_gap_inv).
  assert (forall s, at_seq rb2 s = at_seq rb1 s) as A2 by (by apply at_seq_ext).
  destruct (drainLocked_spec lo Hlo now rb2 I2) as (N & fs & [D1 D2 D3 D4 D5 D6 D7]).
  change (expectedSeq rb2) with (expectedSeq rb1) in *. rewrite E1 in *.
  set (rb3 := (drainLocked now rb2).1) in *. exists i, fs.
  assert (fs <> []) as Hfs.
  { intros ->. unfold lenZ in D2. cbn in D2. rewrite Z.add_0_r in D2. rewrite D4, A2, A1, D2, Hf in N by lia. done. }
  constructor; auto.
  - intros j g Hg. destruct (D3 j g Hg) as [B1 _]. by rewrite A2, A1 in B1.
  - intros s Hs. by rewrite D4, A2, A1 by done.
  - destruct D7. by constructor.
  - by split.
Qed.

(** ** Every frame is accounted for *)

Definition okOp (op : rop) : Prop := match op with RInsert _ q _ => inRange lo q | _ => True end.

(** The frames that left the buffer or are still in it. *)
Definition accounted (r : rrun) : list bytes :=
  rfreed r ++ (if outOwned (rrb r) then rout r else []) ++ holding (rrb r).

Lemma insert_ok now q f rb : rb_ok lo rb -> inRange lo q ->
  let '(rb', fr) := InsertActorBuffered now q (Some f) rb in
  rb_ok lo rb' /\ fr ++ holding rb' ≡ₚ f :: holding rb /\ outOwned rb' = outOwned rb.
Proof using Hlo.
  intros Hok Hr. unfold InsertActorBuffered. destruct (Z.eqb_spec q 0); [destruct Hr; lia|].
  destruct (shutting rb); [done|]. pose proof (insertLocked_spec lo Hlo now q f rb Hok Hr) as HI.
  destruct (rebase_ok lo Hlo q rb Hok Hr) as (Hok0 & _). set (rb0 := rebase q rb) in *.
  assert (holding rb0 = holding rb /\ outOwned rb0 = outOwned rb) as [Hh Ho] by (unfold rb0, rebase; by destruct (_ =? 0)).
  destruct (insertLocked now q (Some f) rb) as [[rb' w] fr].
  destruct HI as [(-> & -> & _)|(-> & _ & _ & Hok' & fs & HA)]; [by rewrite Hh|].
  split; [done|]. destruct HA as [_ _ _ _ _ _ HP HQ [HC HO _ _ _ _]]. split; [|congruence].
  rewrite <- Hh. unfold holding. rewrite HP, HC.
  trans ((fs ++ omap id (ring rb')) ++ concat (rpending rb0) ++ concat (concat (outChan rb0))); [solve_Permutation|].
  by rewrite HQ.
Qed.

Lemma flush_conserves tc rb : rb_ok lo rb -> let '(rb', fr) := FlushActor tc rb in
  rb_ok lo rb' /\ fr ++ holding rb' ≡ₚ holding rb /\ outOwned rb' = outOwned rb.
Proof using.
  intros Hok. pose proof (flush_spec tc rb Hok) as HF.
  assert (outOwned (FlushActor tc rb).1 = outOwned rb) as HO.
  { unfold FlushActor, takePendingLocked, deliver. destruct (rpending rb); [done|]. destruct (_ && _); [done|]. by destruct (_ <? _)%nat. }
  destruct (FlushActor tc rb) as [rb' fr]. cbn [fst] in HO. destruct HF as (H1 & _ & _ & H4 & H5 & _ & H7). split_and!; auto.
  unfold holding. rewrite H4, H5. destruct H7 as [[-> ->]|[-> ->]]; cbn [concat app]; solve_Permutation.
Qed.

Lemma empty_ok rb rb' : rb_ok lo rb -> ring rb' = replicate (length (ring rb)) None -> windowMask rb' = windowMask rb ->
  length (seqSlots rb') = length (ring rb) -> buffered rb' = 0 ->
  (expectedSeq rb' = 0 \/ expectedSeq rb' = expectedSeq rb) -> rb_ok lo rb' /\ omap id (ring rb') = [].
Proof using.
  intros [H Hq] HR HM HS HB HE.
  assert (forall n, omap id (replicate n (@None bytes)) = []) as Hnil by (induction n; auto).
  assert (countHeld (ring rb') = 0%nat) as Hc by (unfold countHeld; by rewrite HR, Hnil).
  assert (lenZ (ring rb') = lenZ (ring rb)) as HL by (unfold lenZ; by rewrite HR, length_replicate).
  split; [split|by rewrite HR, Hnil].
  - constructor; rewrite ?HL.
    + apply (v_pow _ _ H).
    + rewrite HM. apply (v_mask _ _ H).
    + rewrite HS. unfold lenZ in HL. lia.
    + destruct HE as [-> | ->]; [by left|apply (v_exp _ _ H)].
    + intros i f Hi. rewrite HR in Hi. by apply lookup_replicate in Hi as [[=] _].
    + by rewrite Hc.
    + done.
  - unfold at_seq. destruct (_ && _); [|done]. by apply empty_ring.
Qed.

Lemma release_slots rb : length (seqSlots rb) = length (ring rb) ->
  length (seqSlots (releaseRingLocked rb).1) = length (ring rb).
Proof using. intros H. cbn. rewrite length_zip_with. lia. Qed.

Lemma reset_conserves rb : rb_ok lo rb -> let '(rb', fr) := ResetActorRB rb in
  rb_ok lo rb' /\ fr ++ holding rb' ≡ₚ holding rb /\ outOwned rb' = outOwned rb.
Proof using.
  intros Hok. unfold ResetActorRB, takePendingLocked. set (rb1 := set_expected 0 _).
  cbn [releaseRingLocked]. set (rb3 := set_gapSince None _).
  destruct (empty_ok rb rb3) as [O1 O2]; auto.
  { cbn. rewrite length_zip_with, (v_slots _ _ (proj1 Hok)). lia. }
  split; [done|]. split; [|done]. unfold holding, freeBatch. rewrite O2.
  cbn [rb3 set_gapSince set_gap set_ring rb1 set_expected set_queue rpending outChan ring concat app].
  solve_Permutation.
Qed.

Lemma close_conserves rb : rb_ok lo rb -> let '(rb', fr) := CloseRB rb in
  rb_ok lo rb' /\ fr ++ holding rb' ≡ₚ holding rb /\ outOwned rb' = outOwned rb.
Proof using.
  intros Hok. unfold CloseRB. destruct (rclosed rb); [done|]. unfold takePendingLocked.
  set (rb1 := set_queue [] _ _ _ _ _). cbn [releaseRingLocked].
  set (rb3 := set_queue _ _ _ _ true _).
  destruct (empty_ok rb rb3) as [O1 O2]; auto.
  { cbn. rewrite length_zip_with, (v_slots _ _ (proj1 Hok)). lia. }
  split; [done|]. split; [|done]. unfold holding, freeBatch. rewrite O2. cbn [rb3 set_ring rb1 set_queue rpending outChan ring concat app].
  solve_Permutation.
Qed.

Lemma gapExpired_true now rb : rb_ok lo rb -> gapExpired now rb = true -> 0 < expectedSeq rb /\ buffered rb <> 0.
Proof using.
  intros [H _]. unfold gapExpired. destruct (gapSince rb); [|done]. rewrite !andb_true_iff, !negb_true_iff, !Z.eqb_neq.
  intros [[[_ Hb] He] _]. split; [|done]. destruct (v_exp _ _ H); lia.
Qed.

Lemma expire_conserves tc now now' rb : rb_ok lo rb -> let '(rb', fr) := ExpireGapActor tc now now' rb in
  rb_ok lo rb' /\ fr ++ holding rb' ≡ₚ holding rb /\ outOwned rb' = outOwned rb.
Proof using Hlo.
  intros Hok. unfold ExpireGapActor. destruct (shutting rb || negb (gapExpired now rb)) eqn:E; [done|].
  apply orb_false_iff in E as [_ E]. apply negb_false_iff in E. destruct (gapExpired_true now rb Hok E) as [He Hb].
  destruct (skipGap_spec now' rb Hok He Hb) as (i & fs & [_ _ _ _ _ _ HP HQ [HC HO _ _ _ _] Hok']).
  pose proof (flush_conserves tc _ Hok') as HF. destruct (FlushActor tc (skipGap now' rb)) as [rb' fr].
  destruct HF as (F1 & F2 & F3). split_and!; auto; [|congruence]. rewrite F2. unfold holding. rewrite HP, HC.
  trans ((fs ++ omap id (ring (skipGap now' rb))) ++ concat (rpending rb) ++ concat (concat (outChan rb))); [solve_Permutation|].
  by rewrite HQ.
Qed.

Lemma rstep_conserves r op : rb_ok lo (rrb r) -> okOp op ->
  rb_ok lo (rrb (rstep r op)) /\ accounted (rstep r op) ≡ₚ (insertedOf op).*2 ++ accounted r /\
  outOwned (rrb (rstep r op)) = outOwned (rrb r).
Proof using Hlo.
  intros Hok Hop. assert (forall rb' fr l, rb_ok lo rb' /\ fr ++ holding rb' ≡ₚ l ++ holding (rrb r) /\ outOwned rb' = outOwned (rrb r) ->
    rb_ok lo (rrb (mkRRun rb' (rout r) (rfreed r ++ fr))) /\
    accounted (mkRRun rb' (rout r) (rfreed r ++ fr)) ≡ₚ l ++ accounted r /\
    outOwned (rrb (mkRRun rb' (rout r) (rfreed r ++ fr))) = outOwned (rrb r)) as Hlift.
  { intros rb' fr l (A & B & C). split_and!; auto. unfold accounted. cbn [rrb rout rfreed]. rewrite C.
    set (x := if outOwned (rrb r) then _ else _).
    trans (rfreed r ++ x ++ (fr ++ holding rb')); [solve_Permutation|]. rewrite B. solve_Permutation. }
  destruct op as [now q f|tc|tc now now'| | |]; cbn [rstep okOp insertedOf] in *.
  - pose proof (insert_ok now q f _ Hok Hop) as HI. destruct (InsertActorBuffered _ _ _ _) as [rb' fr]. by apply (Hlift rb' fr [f]).
  - pose proof (flush_conserves tc _ Hok) as HI. destruct (FlushActor _ _) as [rb' fr]. by apply (Hlift rb' fr []).
  - pose proof (expire_conserves tc now now' _ Hok) as HI. destruct (ExpireGapActor _ _ _ _) as [rb' fr]. by apply (Hlift rb' fr []).
  - pose proof (reset_conserves _ Hok) as HI. destruct (ResetActorRB _) as [rb' fr]. by apply (Hlift rb' fr []).
  - pose proof (close_conserves _ Hok) as HI. destruct (CloseRB _) as [rb' fr]. by apply (Hlift rb' fr []).
  - unfold outWorkerStep. destruct (outChan (rrb r)) as [|b q] eqn:EQ; [done|]. cbn [rrb rout rfreed].
    split; [by apply (ok_ext (rrb r))|]. split; [|done]. unfold accounted, holding, outputBatch.
    cbn [rrb rout rfreed set_queue outOwned ring rpending outChan fst snd]. rewrite EQ. cbn [concat]. rewrite concat_app.
    destruct (outOwned (rrb r)); cbn [andb].
    + pose proof (filter_app_complement (fun f : bytes => f = []) (concat b)) as HS.
      rewrite <- HS at 3. solve_Permutation.
    + solve_Permutation.
Qed.

Lemma rexec_conserves ops r : rb_ok lo (rrb r) -> Forall okOp ops ->
  rb_ok lo (rrb (fold_left rstep ops r)) /\ accounted (fold_left rstep ops r) ≡ₚ (inserted ops).*2 ++ accounted r.
Proof using Hlo.
  revert r. induction ops as [|op ops IH]; intros r Hok HF; [done|]. apply Forall_cons_1 in HF as [Hop HF].
  destruct (rstep_conserves r op Hok Hop) as (H1 & H2 & H3). cbn [fold_left].
  destruct (IH (rstep r op) H1 HF) as [I1 I2]. split; [done|]. rewrite I2, H2. unfold inserted. rewrite fmap_cons. cbn [concat].
  rewrite fmap_app. solve_Permutation.
Qed.
End Histories.

(** ** Order of delivery *)

Section Order.
Variables (lo : Z) (payload : Z -> bytes).
Hypothesis Hlo : 0 < lo.
Hypothesis Hpay : forall q, payload q <> [].

(** One epoch: no reset; every frame is the one of its number. *)
Definition epochOp (op : rop) : Prop :=
  match op with RInsert _ q f => inRange lo q /\ f = payload q | RReset => False | _ => True end.

Definition stream (r : rrun) : list bytes :=
  rout r ++ concat (concat (outChan (rrb r))) ++ concat (rpending (rrb r)).

Record ordered (r : rrun) (ins : list Z) (L : list Z) : Prop := {
  o_ok : rb_ok lo (rrb r);
  o_held : forall s f, at_seq (rrb r) s = Some f -> f = payload s /\ s ∈ ins;
  o_stream : stream r = payload <$> L;
  o_sorted : StronglySorted Z.lt L;
  o_below : Forall (fun s => 0 < s < expectedSeq (rrb r) /\ s ∈ ins) L
}.

(** The consecutive frames from [e] on. *)
Lemma run_of_seq (fs : list bytes) e : (forall j f, fs !! j = Some f -> f = payload (e + Z.of_nat j)) ->
  fs = payload <$> seqZ e (lenZ fs).
Proof using.
  intros H. apply list_eq. intros j. rewrite list_lookup_fmap. destruct (fs !! j) as [f|] eqn:E.
  - pose proof (lookup_lt_Some _ _ _ E). rewrite lookup_seqZ_lt by (unfold lenZ; lia). cbn. f_equal. by apply H.
  - apply lookup_ge_None in E. rewrite lookup_seqZ_ge by (unfold lenZ; lia). done.
Qed.

Lemma ordered_extend L e n e' (ins ins' : list Z) : StronglySorted Z.lt L -> Forall (fun s => 0 < s < e /\ s ∈ ins) L ->
  0 < e -> e + n <= e' -> 0 <= n -> (forall s, s ∈ ins -> s ∈ ins') -> (forall s, e <= s < e + n -> s ∈ ins') ->
  StronglySorted Z.lt (L ++ seqZ e n) /\ Forall (fun s => 0 < s < e' /\ s ∈ ins') (L ++ seqZ e n).
Proof using.
  intros HS HF He Hle Hn Hsub Hnew. rewrite Forall_forall in HF. split.
  - apply StronglySorted_app_2; [|done|apply seqZ_sorted]. intros x y Hx Hy. apply elem_of_seqZ in Hy.
    destruct (HF x Hx). lia.
  - apply Forall_forall. intros x Hx. apply elem_of_app in Hx as [Hx|Hx].
    + destruct (HF x Hx). split; [lia|auto].
    + apply elem_of_seqZ in Hx. split; [lia|auto].
Qed.

Lemma step_insert r ins L now q : ordered r ins L -> inRange lo q ->
  exists L', ordered (rstep r (RInsert now q (payload q))) (ins ++ [q]) L'.
Proof using Hlo Hpay.
  intros [O1 O2 O3 O4 O5] Hr. cbn [rstep]. unfold InsertActorBuffered.
  assert (forall s, s ∈ ins -> s ∈ ins ++ [q]) as Hsub by (intros s Hs; apply elem_of_app; by left).
  assert (ordered r (ins ++ [q]) L) as Hkeep.
  { constructor; auto.
    - intros s f Hs. destruct (O2 s f Hs). auto.
    - eapply Forall_impl; [exact O5|]. cbn. intros s [A B]. auto. }
  destruct (Z.eqb_spec q 0); [destruct Hr; lia|]. destruct (shutting (rrb r)); [exists L; by destruct Hkeep|].
  pose proof (insertLocked_spec lo Hlo now q (payload q) (rrb r) O1 Hr) as HI.
  destruct (rebase_ok lo Hlo q (rrb r) O1 Hr) as (K1 & K2 & K3 & K4). set (rb0 := rebase q (rrb r)) in *.
  assert (rpending rb0 = rpending (rrb r) /\ outChan rb0 = outChan (rrb r)) as [Hp Hc] by (unfold rb0, rebase; by destruct (_ =? 0)).
  assert (Forall (fun s => 0 < s < expectedSeq rb0 /\ s ∈ ins) L) as O5'.
  { rewrite K4. destruct (Z.eqb_spec (expectedSeq (rrb r)) 0) as [E|]; [|done].
    eapply Forall_impl; [exact O5|]. cbn. intros s [? ?]. lia. }
  destruct (insertLocked now q (Some (payload q)) (rrb r)) as [[rb' w] fr].
  destruct HI as [(-> & -> & _)|(-> & _ & Hle & Hok' & fs & [A1 A2 A3 A4 A5 A6 A7 A8 [AC _ _ _ _ _]])].
  { exists L. constructor; cbn [rrb]; auto.
    - intros s f Hs. rewrite K3 in Hs. destruct (O2 s f Hs). auto.
    - rewrite <- O3. unfold stream. cbn [rrb rout]. by rewrite Hp, Hc.
    - eapply Forall_impl; [exact O5'|]. cbn. intros s [? ?]. auto. }
  assert (forall j f, fs !! j = Some f -> f = payload (expectedSeq rb0 + Z.of_nat j) /\ expectedSeq rb0 + Z.of_nat j ∈ ins ++ [q]) as Hfs.
  { intros j f Hj. destruct (A4 j f Hj) as [B _]. destruct (decide (expectedSeq rb0 + Z.of_nat j = q)) as [->|].
    - split; [congruence|]. apply elem_of_app. right. by left.
    - rewrite K3 in B. destruct (O2 _ _ B). auto. }
  destruct (ordered_extend L (expectedSeq rb0) (lenZ fs) (expectedSeq rb') ins (ins ++ [q])) as [S1 S2]; auto; try lia.
  { unfold lenZ. lia. }
  { intros s Hs. destruct (lookup_lt_is_Some_2 fs (Z.to_nat (s - expectedSeq rb0))) as [f Hf]; [unfold lenZ in Hs; lia|].
    destruct (Hfs _ _ Hf) as [_ H]. rewrite Z2Nat.id, Zplus_minus in H by lia. done. }
  exists (L ++ seqZ (expectedSeq rb0) (lenZ fs)). constructor; cbn [rrb]; auto.
  - intros s f Hs. destruct (decide (expectedSeq rb' <= s)) as [Hge|].
    + rewrite A5 in Hs by done. destruct (decide (s = q)) as [->|]; [|rewrite K3 in Hs; destruct (O2 s f Hs); auto].
      split; [congruence|]. apply elem_of_app. right. by left.
    + exfalso. destruct Hok' as [HI' _]. apply at_seq_range with (lo := lo) in Hs; [lia|done|]. unfold lenZ in *. lia.
  - rewrite fmap_app, <- O3, <- (run_of_seq fs); [|intros j f Hj; by apply Hfs].
    unfold stream. cbn [rrb rout]. rewrite AC, A7, Hp, Hc. by rewrite <- !app_assoc.
Qed.

(** Losing the pending chain, or handing it on. *)
Lemma ordered_drop r r' ins L : ordered r ins L -> rb_ok lo (rrb r') -> expectedSeq (rrb r') = expectedSeq (rrb r) ->
  (forall s f, at_seq (rrb r') s = Some f -> at_seq (rrb r) s = Some f) ->
  (exists rest, stream r = stream r' ++ rest) -> exists L', ordered r' ins L'.
Proof using.
  intros [O1 O2 O3 O4 O5] Hok HE HA [rest HS]. rewrite HS in O3. symmetry in O3. apply fmap_app_inv in O3 as (L1 & L2 & E1 & E2 & ->).
  exists L1. constructor; auto.
  - by apply StronglySorted_app_1_l in O4.
  - rewrite HE. by apply Forall_app in O5 as [O5 _].
Qed.

Lemma step_flush r ins L tc : ordered r ins L -> exists L', ordered (rstep r (RFlush tc)) ins L'.
Proof using.
  intros H. cbn [rstep]. pose proof (flush_spec lo tc (rrb r) (o_ok _ _ _ H)) as HF.
  destruct (FlushActor tc (rrb r)) as [rb' fr]. destruct HF as (F1 & F2 & F3 & F4 & F5 & _ & F7).
  apply (ordered_drop r _ ins L H); cbn [rrb]; auto; [intros s f; by rewrite F3|].
  unfold stream. cbn [rrb rout]. rewrite F5. cbn [concat]. rewrite !app_nil_r. destruct F7 as [[-> _]|[-> _]].
  - exists []. by rewrite ?app_nil_r, ?app_assoc.
  - exists (concat (rpending (rrb r))). by rewrite ?app_assoc.
Qed.

Lemma step_expire r ins L tc now now' : ordered r ins L -> exists L', ordered (rstep r (RExpire tc now now')) ins L'.
Proof using Hlo.
  intros H. cbn [rstep]. unfold ExpireGapActor. destruct (shutting (rrb r) || negb (gapExpired now (rrb r))) eqn:E.
  { exists L. rewrite app_nil_r. by destruct r. }
  apply orb_false_iff in E as [_ E]. apply negb_false_iff in E.
  destruct (gapExpired_true lo now (rrb r) (o_ok _ _ _ H) E) as [He Hb].
  destruct (skipGap_spec lo Hlo now' (rrb r) (o_ok _ _ _ H) He Hb) as (i & fs & [S1 S2 S3 S4 S5 S6 S7 S8 [SC _ _ _ _ _] S10]).
  set (rb1 := skipGap now' (rrb r)) in *. destruct H as [O1 O2 O3 O4 O5].
  assert (forall j f, fs !! j = Some f -> f = payload (expectedSeq (rrb r) + Z.of_nat i + Z.of_nat j) /\
    expectedSeq (rrb r) + Z.of_nat i + Z.of_nat j ∈ ins) as Hfs by (intros j f Hj; apply O2; by apply S5).
  assert (ordered (mkRRun rb1 (rout r) (rfreed r)) ins (L ++ seqZ (expectedSeq (rrb r) + Z.of_nat i) (lenZ fs))) as H1.
  { destruct (ordered_extend L (expectedSeq (rrb r) + Z.of_nat i) (lenZ fs) (expectedSeq rb1) ins ins) as [T1 T2]; auto; try lia.
    - eapply Forall_impl; [exact O5|]. cbn. intros s [? ?]. split; [lia|done].
    - unfold lenZ. lia.
    - intros s Hs. destruct (lookup_lt_is_Some_2 fs (Z.to_nat (s - (expectedSeq (rrb r) + Z.of_nat i)))) as [f Hf]; [unfold lenZ in Hs; lia|].
      destruct (Hfs _ _ Hf) as [_ HH]. rewrite Z2Nat.id, Zplus_minus in HH by lia. done.
    - constructor; cbn [rrb]; auto.
      + intros s f Hs. destruct (decide (expectedSeq rb1 <= s)) as [Hge|]; [rewrite S6 in Hs by done; auto|].
        exfalso. destruct S10 as [HI' _]. apply at_seq_range with (lo := lo) in Hs; [lia|done|]. unfold lenZ in *. lia.
      + rewrite fmap_app, <- O3, <- (run_of_seq fs); [|intros j f Hj; by apply Hfs].
        unfold stream. cbn [rrb rout]. rewrite SC, S7. by rewrite <- !app_assoc. }
  apply (step_flush _ _ _ tc) in H1 as [L' H1]. exists L'. cbn [rstep rrb rout rfreed] in H1.
  destruct (FlushActor tc rb1) as [rb' fr]. exact H1.
Qed.

Lemma step_close r ins L : ordered r ins L -> exists L', ordered (rstep r RClose) ins L'.
Proof using.
  intros H. pose proof (o_ok _ _ _ H) as Hok. cbn [rstep]. pose proof (close_conserves lo (rrb r) Hok) as HC.
  unfold CloseRB in *. destruct (rclosed (rrb r)) eqn:E; [exists L; rewrite app_nil_r; by destruct r|].
  unfold takePendingLocked in *. set (rb1 := set_queue [] _ _ _ _ _) in *. cbn [releaseRingLocked] in *.
  set (rb3 := set_queue _ _ _ _ true _) in *. destruct HC as (C1 & _ & _).
  apply (ordered_drop r _ ins L H); cbn [rrb]; auto.
  - intros s f Hs. exfalso. unfold at_seq in Hs. destruct (_ && _); [|done]. apply ringAt_Some in Hs.
    cbn [rb3 set_queue set_ring ring] in Hs. by apply lookup_replicate in Hs as [[=] _].
  - exists (concat (rpending (rrb r))). unfold stream. cbn [rrb rout rb3 rb1 set_queue set_ring rpending outChan concat].
    by rewrite ?app_nil_r, ?app_assoc.
Qed.

Lemma step_output r ins L : ordered r ins L -> ordered (rstep r ROutput) ins L.
Proof using Hpay.
  intros [O1 O2 O3 O4 O5]. cbn [rstep]. unfold outWorkerStep. destruct (outChan (rrb r)) as [|b q] eqn:E; [by constructor|].
  constructor; cbn [rrb]; auto.
  - by apply (ok_ext lo (rrb r)).
  - rewrite <- O3. unfold stream. cbn [rrb rout set_queue outChan rpending]. rewrite E. cbn [concat]. rewrite concat_app.
    unfold outputBatch. cbn [fst]. rewrite <- !app_assoc. f_equal. f_equal.
    apply filter_all. apply Forall_forall. intros x Hx Hnil.
    assert (x ∈ stream r) as Hin.
    { unfold stream. rewrite E. cbn [concat]. rewrite concat_app. rewrite !elem_of_app. auto. }
    rewrite O3 in Hin. apply list_elem_of_fmap in Hin as (q' & -> & _). by apply (Hpay q').
Qed.

Lemma ordered_exec ops r ins L : ordered r ins L -> Forall epochOp ops ->
  exists L', ordered (fold_left rstep ops r) (ins ++ (inserted ops).*1) L'.
Proof using Hlo Hpay.
  revert r ins L. induction ops as [|op ops IH]; intros r ins L H HF; [exists L; cbn; by rewrite app_nil_r|].
  apply Forall_cons_1 in HF as [Hop HF]. cbn [fold_left].
  assert (exists L', ordered (rstep r op) (ins ++ (insertedOf op).*1) L') as [L' H'].
  { destruct op as [now q f|tc|tc now now'| | |]; cbn [insertedOf epochOp] in *; cbn [fmap list_fmap]; rewrite ?app_nil_r.
    - destruct Hop as [Hr ->]. by apply (step_insert _ _ L).
    - by apply (step_flush _ _ L).
    - by apply (step_expire _ _ L).
    - done.
    - by apply (step_close _ _ L).
    - exists L. by apply step_output. }
  destruct (IH _ _ _ H' HF) as [L2 H2]. exists L2. unfold inserted in *. rewrite fmap_cons. cbn [concat].
  by rewrite fmap_app, app_assoc.
Qed.
End Order.

(** ** Properties of the reorder buffer *)

(** C23: In-order delivery, at most once, unaltered.  Over any history within one epoch
    whose numbers lie in a window of 2^31 below 2^32-1 (frames arriving in any order and
    any number of times, flushes, expired gaps, queue overflow, close, deliveries), the
    frames handed to the callback are the payloads of a strictly increasing sequence of
    numbers that did arrive. *)
Theorem reorder_in_order_delivery (lo : Z) (payload : Z -> bytes) (owned : bool) (ops : list rop) :
  0 < lo -> (forall q, payload q <> []) -> Forall (epochOp lo payload) ops ->
  exists L, rout (rexec owned ops) = payload <$> L /\ StronglySorted Z.lt L /\
            Forall (fun q => q ∈ (inserted ops).*1) L.
Proof.
  intros Hlo Hpay HF. unfold rexec. set (r0 := mkRRun _ _ _).
  assert (ordered lo payload r0 [] []) as H0.
  { constructor; [by apply new_ok| |done|constructor|constructor]. intros s f Hs. exfalso.
    unfold at_seq in Hs. destruct (_ && _); [|done]. apply ringAt_Some in Hs. cbn [r0 rrb newActorReorderBuffer newReorder ring] in Hs.
    by apply lookup_replicate in Hs as [[=] _]. }
  destruct (ordered_exec lo payload Hlo Hpay ops r0 [] [] H0 HF) as [L [_ _ O3 O4 O5]].
  unfold stream in O3. symmetry in O3. apply fmap_app_inv in O3 as (L1 & L2 & E1 & _ & ->). exists L1.
  split; [done|]. split; [by apply StronglySorted_app_1_l in O4|].
  apply Forall_app in O5 as [O5 _]. eapply Forall_impl; [exact O5|]. cbn. tauto.
Qed.

(** No frame is lost track of.  Over any history, resets and close included,
    the frames ever inserted are exactly (as a multiset) the frames given back to the
    pool, those handed over to an owning callback, and those the buffer still holds. *)
Theorem reorder_frames_conserved (lo : Z) (owned : bool) (ops : list rop) :
  0 < lo -> Forall (okOp lo) ops ->
  rfreed (rexec owned ops) ++ (if owned then rout (rexec owned ops) else []) ++ holding (rrb (rexec owned ops))
  ≡ₚ (inserted ops).*2.
Proof.
  intros Hlo HF. destruct (rexec_conserves lo Hlo ops (mkRRun (newActorReorderBuffer owned) [] [])) as [_ H]; [by apply new_ok|done|].
  unfold accounted in H. fold (rexec owned ops) in H.
  assert (outOwned (rrb (rexec owned ops)) = owned) as HO.
  { unfold rexec. change owned with (outOwned (rrb (mkRRun (newActorReorderBuffer owned) [] []))) at 2.
    assert (forall r, rb_ok lo (rrb r) -> outOwned (rrb (fold_left rstep ops r)) = outOwned (rrb r)) as Hgen.
    { clear H. induction HF as [|op ops Hop HF IH]; intros r Hr; [done|]. cbn [fold_left].
      destruct (rstep_conserves lo Hlo r op Hr Hop) as (R1 & _ & R3). rewrite IH by done. done. }
    apply Hgen. by apply new_ok. }
  rewrite HO in H. rewrite H. cbn [rrb rout rfreed]. unfold holding. cbn [newActorReorderBuffer newReorder ring rpending outChan concat app].
  assert (forall n, omap id (replicate n (@None bytes)) = []) as -> by (induction n; auto).
  destruct owned; by rewrite !app_nil_r.
Qed.

(** Arrivals of one run, inserted without flushing. *)
Definition feed (payload : Z -> bytes) (arr : list (Z * Z)) (rb : ReorderBuffer) : ReorderBuffer :=
  fold_left (fun rb a => (InsertActorBuffered a.1 a.2 (Some (payload a.2)) rb).1) arr rb.

Section Completeness.
Variables (lo N : Z) (payload : Z -> bytes).
Hypothesis Hlo : 0 < lo.
Hypothesis HN : 0 < N <= 65535 /\ lo + N <= 2 ^ 32 - 1.

(** After the arrivals [seen], with [out] handed over, the first [n] numbers are out and
    the rest is held. *)
Record caught_up (out : list bytes) (seen : list Z) (n : Z) (rb : ReorderBuffer) : Prop := {
  u_ok : rb_ok lo rb;
  u_open : shutting rb = false /\ rclosed rb = false;
  u_exp : expectedSeq rb = lo + n;
  u_n : 0 <= n;
  u_out : out ++ concat (concat (outChan rb)) ++ concat (rpending rb) = payload <$> seqZ lo n;
  u_held : forall s, lo + n <= s -> at_seq rb s = if decide (s ∈ seen) then Some (payload s) else None;
  u_past : forall s, lo <= s < lo + n -> s ∈ seen
}.

Lemma range_of q : lo <= q < lo + N -> inRange lo q.
Proof using Hlo HN. unfold inRange. lia. Qed.

Lemma caught_up_step out now q seen n rb : caught_up out seen n rb -> lo <= q < lo + N ->
  exists n', caught_up out (seen ++ [q]) n' (InsertActorBuffered now q (Some (payload q)) rb).1 /\ outChan (InsertActorBuffered now q (Some (payload q)) rb).1 = outChan rb.
Proof using Hlo HN.
  intros [U1 [U2 U2'] U3 U4 U5 U6 U7] Hq. unfold InsertActorBuffered. destruct (Z.eqb_spec q 0); [lia|]. rewrite U2.
  pose proof (insertLocked_spec lo Hlo now q (payload q) rb U1 (range_of q Hq)) as HI.
  cbv zeta in HI. assert (rebase q rb = rb) as Hrb by (unfold rebase; destruct (Z.eqb_spec (expectedSeq rb) 0); [lia|done]).
  rewrite Hrb in HI. clear Hrb.
  assert (forall s, s ∈ seen ++ [q] <-> s ∈ seen \/ s = q) as Hin by (intros s; by rewrite elem_of_app, list_elem_of_singleton).
  destruct (insertLocked now q (Some (payload q)) rb) as [[rb' w] fr]. cbn [fst].
  destruct HI as [(_ & -> & Hrej)|(_ & Hnone & Hle & Hok' & fs & [A1 A2 A3 A4 A5 A6 A7 A8 [AC _ _ AS AX _]])].
  - exists n. assert (q ∈ seen) as Hqs.
    { destruct Hrej as [Hr|[Hr|[g Hg]]]; [apply U7; lia|lia|].
      destruct (decide (lo + n <= q)); [|apply U7; lia]. rewrite U6 in Hg by done. by case_decide. }
    split; [|done]. constructor; auto.
    + intros s Hs. rewrite U6 by done. do 2 case_decide; try done; rewrite Hin in *; naive_solver.
    + intros s Hs. apply Hin. left. by apply U7.
  - rewrite U3 in *. exists (n + lenZ fs).
    assert (forall j f, fs !! j = Some f -> f = payload (lo + n + Z.of_nat j) /\ lo + n + Z.of_nat j ∈ seen ++ [q]) as Hfs.
    { intros j f Hj. destruct (A4 j f Hj) as [B _]. destruct (decide (lo + n + Z.of_nat j = q)) as [->|].
      - split; [congruence|]. apply Hin. by right.
      - rewrite U6 in B by lia. case_decide; [|done]. split; [congruence|]. apply Hin. by left. }
    split; [|done]. constructor; auto.
    + by rewrite AS, AX.
    + lia.
    + unfold lenZ. lia.
    + rewrite AC, A7, (app_assoc (concat (concat (outChan rb)))), app_assoc, U5. rewrite (run_of_seq payload fs (lo + n)) at 1 by (intros j f Hj; by apply Hfs).
      rewrite <- fmap_app. f_equal. rewrite seqZ_app by (unfold lenZ; lia). done.
    + intros s Hs. rewrite A5 by lia. rewrite U6 by (unfold lenZ in *; lia).
      destruct (decide (s ∈ seen ++ [q])) as [H1|H1]; rewrite Hin in H1;
        destruct (decide (s = q)) as [Es|]; destruct (decide (s ∈ seen)); subst; naive_solver.
    + intros s Hs. destruct (decide (s < lo + n)); [apply Hin; left; apply U7; lia|].
      destruct (lookup_lt_is_Some_2 fs (Z.to_nat (s - (lo + n)))) as [f Hf]; [unfold lenZ in Hs; lia|].
      destruct (Hfs _ _ Hf) as [_ HH]. rewrite Z2Nat.id, Zplus_minus in HH by lia. done.
Qed.

Lemma caught_up_feed out arr seen n rb : caught_up out seen n rb -> Forall (fun a => lo <= a.2 < lo + N) arr ->
  exists n', caught_up out (seen ++ arr.*2) n' (feed payload arr rb).
Proof using Hlo HN.
  revert seen n rb. induction arr as [|[now q] arr IH]; intros seen n rb H HF; [exists n; cbn; by rewrite app_nil_r|].
  apply Forall_cons_1 in HF as [Hq HF]. cbn [feed fold_left fst snd] in *.
  destruct (caught_up_step out now q seen n rb H Hq) as (n1 & H1 & _). destruct (IH _ _ _ H1 HF) as [n2 H2].
  exists n2. rewrite fmap_cons, cons_middle, app_assoc. exact H2.
Qed.

(** The first frame of the run sets the expected number. *)
Lemma caught_up_first now owned : exists n, caught_up [] [lo] n (InsertActorBuffered now lo (Some (payload lo)) (newActorReorderBuffer owned)).1 /\
  outChan (InsertActorBuffered now lo (Some (payload lo)) (newActorReorderBuffer owned)).1 = [].
Proof using Hlo HN.
  unfold InsertActorBuffered. destruct (Z.eqb_spec lo 0); [lia|]. change (shutting (newActorReorderBuffer owned)) with false. cbv iota.
  set (rb := newActorReorderBuffer owned). pose proof (new_ok lo Hlo true owned) as Hok. fold (newActorReorderBuffer owned) in Hok. fold rb in Hok.
  destruct (rebase_ok lo Hlo lo rb Hok (range_of lo ltac:(lia))) as (K1 & K2 & K3 & K4).
  pose proof (insertLocked_spec lo Hlo now lo (payload lo) rb Hok (range_of lo ltac:(lia))) as HI.
  assert (forall s, at_seq rb s = None) as Hnone.
  { intros s. unfold at_seq. destruct (_ && _); [|done]. destruct (ringAt rb _) eqn:E; [|done]. apply ringAt_Some in E.
    cbn [rb newActorReorderBuffer newReorder ring] in E. by apply lookup_replicate in E as [[=] _]. }
  change (expectedSeq rb =? 0) with true in K4. cbv iota in K4.
  destruct (insertLocked now lo (Some (payload lo)) rb) as [[rb' w] fr]. cbn [fst].
  destruct HI as [(_ & _ & Hrej)|(_ & _ & _ & Hok' & fs & [A1 A2 A3 A4 A5 A6 A7 A8 [AC _ _ AS AX _]])].
  { exfalso. destruct Hrej as [?|[?|[g Hg]]]; [lia|lia|]. by rewrite K3, Hnone in Hg. }
  rewrite K4 in *. assert (fs = [payload lo]) as ->.
  { destruct fs as [|f1 [|f2 fs]].
    - by destruct (proj2 A3 eq_refl).
    - destruct (A4 0%nat f1 eq_refl) as [B _]. rewrite Z.add_0_r, decide_True in B by done. congruence.
    - destruct (A4 1%nat f2 eq_refl) as [B _]. rewrite decide_False in B by lia. by rewrite K3, Hnone in B. }
  exists 1. split; [|done]. constructor; [done|by rewrite AS, AX|by rewrite A2|lia|by rewrite AC, A7| |].
  - intros s Hs. rewrite A5 by (rewrite A2; done). rewrite K3, Hnone. destruct (decide (s ∈ [lo])) as [H1|H1]; rewrite list_elem_of_singleton in H1; destruct (decide (s = lo)); subst; done.
  - intros s Hs. assert (s = lo) as -> by lia. by left.
Qed.
(** A flush into a queue with room, and a delivery. *)
Lemma caught_up_flush out tc seen n rb : caught_up out seen n rb -> (length (outChan rb) < reorderOutQueue)%nat ->
  caught_up out seen n (FlushActor tc rb).1 /\ (length (outChan (FlushActor tc rb).1) <= S (length (outChan rb)))%nat /\ rpending (FlushActor tc rb).1 = [].
Proof using.
  intros [U1 [U2 U2'] U3 U4 U5 U6 U7] Hroom. pose proof (flush_spec lo tc rb U1) as HF.
  assert (concat (concat (outChan (FlushActor tc rb).1)) = concat (concat (outChan rb)) ++ concat (rpending rb) /\ rclosed (FlushActor tc rb).1 = false /\
    (length (outChan (FlushActor tc rb).1) <= S (length (outChan rb)))%nat) as (HC & HX & HL).
  { unfold FlushActor, takePendingLocked, deliver. destruct (rpending rb) as [|c p]; cbn [fst]; [split_and!; [by cbn; rewrite app_nil_r|done|cbn; lia]|].
    cbn [rclosed outChan set_queue]. rewrite U2'. cbn [andb]. apply Nat.ltb_lt in Hroom. rewrite Hroom. cbn. rewrite !concat_app, length_app. cbn.
    rewrite app_nil_r. split_and!; [done|done|lia]. }
  destruct (FlushActor tc rb) as [rb' fr]. cbn [fst] in *. destruct HF as (F1 & F2 & F3 & F4 & F5 & F6 & _). split; [|done].
  constructor; auto; [by rewrite F6|by rewrite F2|rewrite HC, F5; cbn; by rewrite app_nil_r|]. intros s Hs. rewrite F3. by apply U6.
Qed.

Lemma caught_up_output out seen n rb rb' o fr : (forall q, payload q <> []) -> caught_up out seen n rb -> outWorkerStep true rb = Some (rb', o, fr) ->
  caught_up (out ++ o) seen n rb' /\ rpending rb' = rpending rb.
Proof using.
  intros Hpay [U1 U2 U3 U4 U5 U6 U7] HO. unfold outWorkerStep in HO. destruct (outChan rb) as [|b q] eqn:E; [done|]. injection HO as <- <- <-. split; [|done].
  constructor; auto; [by apply (ok_ext lo rb)|]. cbn [set_queue outChan rpending]. rewrite <- U5. cbn [concat]. rewrite concat_app. unfold outputBatch. cbn [fst].
  rewrite <- !app_assoc. do 2 f_equal. apply filter_all, Forall_forall. intros x Hx ->.
  assert ([] ∈ payload <$> seqZ lo n) as Hin by (rewrite <- U5; cbn [concat]; rewrite concat_app, !elem_of_app; auto).
  apply list_elem_of_fmap in Hin as (z & Hz & _). by apply (Hpay z).
Qed.
(** Once everything has arrived, everything is out. *)
Lemma caught_up_complete out seen n rb : caught_up out seen n rb -> (forall q, q ∈ seen <-> lo <= q < lo + N) -> n = N /\ buffered rb = 0.
Proof using Hlo HN.
  intros [[HI Hq] U2 U3 U4 U5 U6 U7] Harr. assert (n = N) as ->.
  { rewrite U3, U6 in Hq by lia. destruct (decide (lo + n ∈ seen)) as [|Hn]; [done|].
    rewrite Harr in Hn. destruct (decide (n < N)); [lia|]. destruct (decide (n = N)); [done|].
    specialize (U7 (lo + N) ltac:(lia)). apply Harr in U7. lia. }
  split; [done|]. rewrite (v_count _ _ HI). unfold countHeld.
  destruct (omap id (ring rb)) as [|f l] eqn:E; [done|]. exfalso.
  assert (f ∈ omap id (ring rb)) as Hin by (rewrite E; by left).
  apply list_elem_of_omap in Hin as ([g|] & Hin & Hg); [|done]. cbn in Hg. injection Hg as ->.
  apply list_elem_of_lookup_1 in Hin as [i Hi]. destruct (v_held _ _ HI _ _ Hi) as (s & Hs & _ & _ & Hw).
  assert (at_seq rb s = Some f) as Ha by (apply (at_seq_slot lo); [done|lia|eauto]).
  rewrite U6 in Ha by lia. case_decide as Hd; [|done]. apply Harr in Hd. lia.
Qed.
End Completeness.

(** C6: Complete in-order reassembly.  When the first frame of an epoch arrives
    first and the next up to 65,535 frames arrive in any order, each at least once,
    the buffer has put out exactly the frames lo, lo+1, ..., in order, once each; it
    expects the next number and holds nothing back. *)
Theorem reorder_reassembles (lo N : Z) (payload : Z -> bytes) (owned : bool) (now0 : Z) (arr : list (Z * Z)) :
  0 < lo -> 0 < N <= 65535 /\ lo + N <= 2 ^ 32 - 1 ->
  (forall q, q ∈ lo :: arr.*2 <-> lo <= q < lo + N) ->
  let rb := feed payload ((now0, lo) :: arr) (newActorReorderBuffer owned) in
  concat (concat (outChan rb)) ++ concat (rpending rb) = payload <$> seqZ lo N /\
  expectedSeq rb = lo + N /\ buffered rb = 0.
Proof.
  intros Hlo HN Harr rb. destruct (caught_up_first lo N payload Hlo HN now0 owned) as (n1 & H1 & _).
  destruct (caught_up_feed lo N payload Hlo HN [] arr [lo] n1 _ H1) as [n H].
  { apply Forall_forall. intros [t q] Hin. cbn. apply Harr. right. apply list_elem_of_fmap. by exists (t, q). }
  change (feed payload arr _) with rb in H. clearbody rb. destruct (caught_up_complete lo N payload Hlo HN _ _ _ _ H Harr) as [-> HB].
  split; [apply (u_out _ _ _ _ _ _ H)|]. split; [apply (u_exp _ _ _ _ _ _ H)|done].
Qed.

(** C27: An expired gap is skipped to the first held frame.  When the gap timer of a
    buffer that waits for a missing number expires, ExpireGapActor moves past exactly
    the missing numbers, and releases at least one held frame, in order: a lost frame
    never blocks later ones for more than the delay. *)
Theorem gap_expiry_progress (lo : Z) (tc : bool) (now now' : Z) (rb : ReorderBuffer) :
  0 < lo -> rb_ok lo rb -> gapExpired now rb = true -> shutting rb = false ->
  let rb' := (ExpireGapActor tc now now' rb).1 in
  exists i fs, (1 <= i)%nat /\ (forall j, (j < i)%nat -> at_seq rb (expectedSeq rb + Z.of_nat j) = None) /\
    fs <> [] /\ (forall j f, fs !! j = Some f -> at_seq rb (expectedSeq rb + Z.of_nat i + Z.of_nat j) = Some f) /\
    expectedSeq rb' = expectedSeq rb + Z.of_nat i + lenZ fs /\ buffered rb' = buffered rb - lenZ fs /\ rb_ok lo rb'.
Proof.
  intros Hlo Hok Hexp Hsh. unfold ExpireGapActor. rewrite Hexp, Hsh. cbn [negb orb].
  destruct (gapExpired_true lo now rb Hok Hexp) as [He Hb].
  destruct (skipGap_spec lo Hlo now' rb Hok He Hb) as (i & fs & [S1 S2 S3 S4 S5 S6 S7 S8 S9 S10]).
  pose proof (flush_spec lo tc _ S10) as HF. destruct (FlushActor tc (skipGap now' rb)) as [rb' fr]. cbn [fst].
  destruct HF as (F1 & F2 & _ & F4 & _). exists i, fs. split_and!; auto; [lia|].
  rewrite (v_count _ _ (proj1 F1)), (v_count _ _ (proj1 Hok)), F4. unfold countHeld.
  apply Permutation_length in S8. rewrite length_app in S8. unfold lenZ. lia.
Qed.

(** ** The locked and the actor entry points *)

(** buffer.go has entry points that take the lock, rx_actor.go copies of them for a
    buffer that one worker owns.  A history in terms of either. *)
Inductive pubOp :=
| PInsert (tc : bool) (now q : Z) (f : option bytes)
| PBatch (tc : bool) (now : Z) (frames : list (Z * option bytes))
| PTimeout (tc : bool) (now now' : Z)
| PReset
| PClose
| POutput.

Definition after (r : rrun) (x : ReorderBuffer * list bytes) : rrun := mkRRun x.1 (rout r) (rfreed r ++ x.2).
Definition dropWake (x : ReorderBuffer * bool * list bytes) : ReorderBuffer * list bytes := (x.1.1, x.2).

Definition lockedStep (r : rrun) (op : pubOp) : rrun :=
  match op with
  | PInsert tc now q f => after r (dropWake (Insert tc now q f (rrb r)))
  | PBatch tc now frames => after r (dropWake (InsertBatch tc now frames (rrb r)))
  | PTimeout tc now now' => after r (timeoutCheck tc now now' (rrb r))
  | PReset => after r (dropWake (ResetRB (rrb r)))
  | PClose => rstep r RClose
  | POutput => rstep r ROutput
  end.
Definition actorStep (r : rrun) (op : pubOp) : rrun :=
  match op with
  | PInsert tc now q f => after r (InsertActor tc now q f (rrb r))
  | PBatch tc now frames => after r (InsertBatchActor tc now frames (rrb r))
  | PTimeout tc now now' => after r (ExpireGapActor tc now now' (rrb r))
  | PReset => after r (ResetActorRB (rrb r))
  | PClose => rstep r RClose
  | POutput => rstep r ROutput
  end.

(** Between two calls nothing is pending, and a buffer that shuts down holds nothing. *)
Record quiet (rb : ReorderBuffer) : Prop := { qt_pend : rpending rb = []; qt_shut : shutting rb = true -> buffered rb = 0 }.

Lemma take_quiet rb : rpending rb = [] -> takePendingLocked rb = (rb, []).
Proof. intros H. unfold takePendingLocked. rewrite H. f_equal. destruct rb. cbn in *. by rewrite H. Qed.

Lemma deliver_quiet tc b rb : quiet rb -> quiet (deliver tc b rb).1.
Proof. intros [H1 H2]. unfold deliver. destruct b; [done|]. repeat case_match; by split. Qed.

Lemma take_then tc rb : shutting rb = false -> let '(rb1, b) := takePendingLocked rb in quiet (deliver tc b rb1).1.
Proof. intros H. cbn [takePendingLocked]. apply deliver_quiet. split; [done|]. cbn. by rewrite H. Qed.

Lemma scan_filter rb n i : timeoutScan n i rb = head (filter (fun i => is_Some (ringAt rb (slotOf rb (u32 (expectedSeq rb + Z.of_nat i))))) (seq i n)).
Proof.
  revert i. induction n as [|n IH]; intros i; [done|]. cbn [timeoutScan seq]. destruct (ringAt rb _) as [f|] eqn:E.
  - rewrite filter_cons_True by (rewrite E; by eexists). done.
  - rewrite filter_cons_False by (rewrite E; by intros [? [=]]). apply IH.
Qed.
Lemma scan_ge rb n i j : timeoutScan n i rb = Some j -> (i <= j)%nat.
Proof. revert i. induction n as [|n IH]; intros i; [done|]. cbn [timeoutScan]. destruct (ringAt rb _); [by intros [= ->]|]. intros H. apply IH in H. lia. Qed.

(** The flag of the constructor, which no operation reads. *)
Definition asActor (rb : ReorderBuffer) : ReorderBuffer :=
  {| actorOwned := true; expectedSeq := expectedSeq rb; ring := ring rb; seqSlots := seqSlots rb; windowMask := windowMask rb; buffered := buffered rb;
     rpending := rpending rb; outChan := outChan rb; outOwned := outOwned rb; gapSince := gapSince rb; gapEvents := gapEvents rb;
     timeoutFlushes := timeoutFlushes rb; skippedFrames := skippedFrames rb; droppedFrames := droppedFrames rb; shutting := shutting rb; rclosed := rclosed rb |}.

Lemma drainLoop_frame fuel rb : drainLoop fuel (asActor rb) = asActor (drainLoop fuel rb) /\ shutting (drainLoop fuel rb) = shutting rb.
Proof.
  revert rb. induction fuel as [|fuel IH]; intros rb; [done|]. cbn [drainLoop].
  change (ringAt (asActor rb) (slotOf (asActor rb) (expectedSeq (asActor rb)))) with (ringAt rb (slotOf rb (expectedSeq rb))).
  destruct (ringAt rb (slotOf rb (expectedSeq rb))) as [f|]; [|done]. set (rb1 := set_ring _ _ _ _ _ _ rb). destruct (IH rb1) as [E1 E2]. split; [exact E1|exact E2].
Qed.
Lemma refresh_frame now rb : refreshGapLocked now (asActor rb) = (asActor (refreshGapLocked now rb).1, (refreshGapLocked now rb).2) /\ shutting (refreshGapLocked now rb).1 = shutting rb.
Proof. unfold refreshGapLocked. cbn [asActor gapSince]. change (ringAt (asActor rb) _) with (ringAt rb (slotOf rb (expectedSeq rb))). cbn [asActor buffered expectedSeq]. destruct (_ && _), (gapSince rb); done. Qed.
Lemma drain_frame now rb : drainLocked now (asActor rb) = (asActor (drainLocked now rb).1, (drainLocked now rb).2) /\ shutting (drainLocked now rb).1 = shutting rb.
Proof.
  unfold drainLocked. change (set_gapSince None (asActor rb)) with (asActor (set_gapSince None rb)). change (ring (asActor rb)) with (ring rb). change (gapSince (asActor rb)) with (gapSince rb).
  destruct (drainLoop_frame (S (length (ring rb))) (set_gapSince None rb)) as [-> E]. set (rb1 := drainLoop _ _) in *. destruct (refresh_frame now rb1) as [-> E2]. destruct (refreshGapLocked now rb1) as [rb2 w]. cbn in *. by rewrite E2, E.
Qed.
Lemma grow_frame n rb : growWindowLocked n (asActor rb) = asActor <$> growWindowLocked n rb /\ forall rb1, growWindowLocked n rb = Some rb1 -> shutting rb1 = shutting rb.
Proof. unfold growWindowLocked. cbn [asActor ring seqSlots]. destruct (_ <=? _); [done|]. destruct (_ <=? n); [done|]. destruct (rehash _ _ _ _). split; [done|]. by intros ? [= <-]. Qed.
Lemma place_frame now q f rb : placeFrame now q f (asActor rb) = (asActor (placeFrame now q f rb).1.1, (placeFrame now q f rb).1.2, (placeFrame now q f rb).2) /\ shutting (placeFrame now q f rb).1.1 = shutting rb.
Proof.
  unfold placeFrame. change (ringAt (asActor rb) (slotOf (asActor rb) q)) with (ringAt rb (slotOf rb q)). destruct (ringAt rb (slotOf rb q)); [done|].
  set (rb1 := set_ring _ _ _ _ _ _ rb). change (set_ring _ _ _ _ _ _ (asActor rb)) with (asActor rb1). change (expectedSeq (asActor rb1)) with (expectedSeq rb1).
  destruct (q =? expectedSeq rb1); [destruct (drain_frame now rb1) as [-> E]; by destruct (drainLocked now rb1)|destruct (refresh_frame now rb1) as [-> E]; by destruct (refreshGapLocked now rb1)].
Qed.
Lemma insert_frame now q f rb : insertLocked now q f (asActor rb) = (asActor (insertLocked now q f rb).1.1, (insertLocked now q f rb).1.2, (insertLocked now q f rb).2) /\ shutting (insertLocked now q f rb).1.1 = shutting rb.
Proof.
  unfold insertLocked. change (expectedSeq (asActor rb)) with (expectedSeq rb). set (rb1 := if expectedSeq rb =? 0 then set_expected q rb else rb).
  assert ((if expectedSeq rb =? 0 then set_expected q (asActor rb) else asActor rb) = asActor rb1) as -> by (unfold rb1; by destruct (_ =? 0)).
  assert (shutting rb1 = shutting rb) as Hs by (unfold rb1; by destruct (_ =? 0)). clearbody rb1. change (expectedSeq (asActor rb1)) with (expectedSeq rb1). change (ring (asActor rb1)) with (ring rb1).
  destruct (_ <? 0); [done|]. destruct (_ <=? _); [|destruct (place_frame now q f rb1) as [-> E]; split; [done|congruence]]. destruct (ReorderMaxWindowSize <=? _); [done|].
  destruct (grow_frame (s32 (u32 (q - expectedSeq rb1)) + 1) rb1) as [-> HG]. destruct (growWindowLocked _ rb1) as [rb2|]; cbn [fmap option_fmap option_map]; [|done].
  destruct (place_frame now q f rb2) as [-> E]. split; [done|]. rewrite E, <- Hs. by apply HG.
Qed.
Lemma deliver_asActor tc b rb : deliver tc b (asActor rb) = (asActor (deliver tc b rb).1, (deliver tc b rb).2).
Proof. unfold deliver. cbn [asActor outChan rclosed]. destruct b; [done|]. destruct (_ && _); [done|]. by destruct (_ <? _)%nat. Qed.

(** The actor version of a call does what the locked version does. *)
Definition agrees (rb : ReorderBuffer) (l a : ReorderBuffer * list bytes) : Prop := a = (asActor l.1, l.2) /\ quiet l.1.

Lemma flush_agrees tc rb : shutting rb = false -> let '(rb1, b) := takePendingLocked rb in agrees rb (deliver tc b rb1) (FlushActor tc (asActor rb)).
Proof.
  intros Hs. cbn [takePendingLocked]. split; [|by apply (take_then tc rb)]. unfold FlushActor. cbn [takePendingLocked]. change (rpending (asActor rb)) with (rpending rb).
  set (rb1 := set_queue [] _ _ _ _ rb). change (set_queue [] _ _ _ _ (asActor rb)) with (asActor rb1). apply deliver_asActor.
Qed.

Lemma insert_agrees tc now q f rb : quiet rb -> agrees rb (dropWake (Insert tc now q f rb)) (InsertActor tc now q f (asActor rb)).
Proof.
  intros HQ. unfold Insert, InsertActor, InsertActorBuffered. change (shutting (asActor rb)) with (shutting rb).
  assert (forall fr, agrees rb (rb, fr) (let '(rb1, f2) := FlushActor tc (asActor rb) in (rb1, fr ++ f2))) as Hn.
  { intros fr. unfold FlushActor. rewrite take_quiet by apply HQ. cbn [deliver]. rewrite app_nil_r. by split. }
  destruct (q =? 0); [apply Hn|]. destruct (shutting rb) eqn:Es; [apply Hn|]. destruct (insert_frame now q f rb) as [-> E]. destruct (insertLocked now q f rb) as [[rb1 w] fr1]. cbn [fst snd] in *.
  rewrite Es in E. pose proof (flush_agrees tc rb1 E) as HF. destruct (takePendingLocked rb1) as [rb2 b]. destruct HF as [-> HF]. destruct (deliver tc b rb2) as [rb3 fr2]. by split.
Qed.

Lemma loops_agree now frames w rb : shutting rb = false ->
  let '(rb1, _, fr) := insertBatchLoop now frames w rb in insertActorLoop now frames (asActor rb) = (asActor rb1, fr) /\ shutting rb1 = false.
Proof.
  revert w rb. induction frames as [|[q f] frames IH]; intros w rb Hs; [done|]. cbn [insertBatchLoop insertActorLoop]. destruct (q =? 0).
  - specialize (IH w rb Hs). destruct (insertBatchLoop now frames w rb) as [[rb1 w1] fr]. by destruct IH as [-> ?].
  - destruct (insert_frame now q f rb) as [-> E]. destruct (insertLocked now q f rb) as [[rb1 w1] fr1]. cbn [fst snd] in *.
    specialize (IH (if w1 then true else w) rb1 ltac:(congruence)). destruct (insertBatchLoop now frames _ rb1) as [[rb2 w2] fr2]. by destruct IH as [-> ?].
Qed.

Lemma batch_agrees tc now frames rb : quiet rb -> agrees rb (dropWake (InsertBatch tc now frames rb)) (InsertBatchActor tc now frames (asActor rb)).
Proof.
  intros HQ. unfold InsertBatch, InsertBatchActor. destruct frames as [|x frames]; [by split|]. change (shutting (asActor rb)) with (shutting rb). destruct (shutting rb) eqn:Es; [by split|].
  pose proof (loops_agree now (x :: frames) false rb Es) as HL. destruct (insertBatchLoop now _ false rb) as [[rb1 w] fr1]. destruct HL as [-> E].
  pose proof (flush_agrees tc rb1 E) as HF. destruct (takePendingLocked rb1) as [rb2 b]. destruct HF as [-> HF]. destruct (deliver tc b rb2) as [rb3 fr2]. by split.
Qed.

Lemma reset_agrees rb : quiet rb -> agrees rb (dropWake (ResetRB rb)) (ResetActorRB (asActor rb)).
Proof. intros HQ. split; [done|]. split; [done|]. done. Qed.

Lemma timeout_agrees tc now now' rb : quiet rb -> agrees rb (timeoutCheck tc now now' rb) (ExpireGapActor tc now now' (asActor rb)).
Proof.
  intros HQ. unfold timeoutCheck, ExpireGapActor, gapExpired. change (gapSince (asActor rb)) with (gapSince rb). change (shutting (asActor rb)) with (shutting rb). change (buffered (asActor rb)) with (buffered rb).
  change (expectedSeq (asActor rb)) with (expectedSeq rb). change (ringAt (asActor rb) (slotOf (asActor rb) (expectedSeq rb))) with (ringAt rb (slotOf rb (expectedSeq rb))).
  destruct (gapSince rb) as [g|]; [|rewrite orb_true_r; by split]. destruct (now <? _); cbn [orb negb andb]; [rewrite orb_true_r; by split|].
  destruct (buffered rb =? 0) eqn:Eb; cbn [orb negb andb]; [rewrite orb_true_r; by split|]. destruct (expectedSeq rb =? 0); cbn [orb negb andb]; [rewrite orb_true_r; by split|].
  destruct (ringAt rb (slotOf rb (expectedSeq rb))) as [f|]; [rewrite (bool_decide_true (is_Some _)), (bool_decide_false (_ = None)) by (done || by eexists); rewrite orb_true_r; by split|].
  rewrite (bool_decide_false (is_Some _)), (bool_decide_true (None = None)) by (done || by intros [? [=]]). cbn [negb]. rewrite orb_false_r.
  destruct (shutting rb) eqn:Es; [apply qt_shut in Es; [by rewrite Es in Eb|done]|]. unfold skipGap. change (firstHeld (asActor rb)) with (firstHeld rb). unfold firstHeld. rewrite <- scan_filter.
  destruct (timeoutScan (length (ring rb) - 1) 1 rb) as [i|] eqn:ES.
  - pose proof (scan_ge rb _ _ _ ES) as Hi. replace (0 <? Z.of_nat i) with true by (symmetry; apply Z.ltb_lt; lia).
    set (X := set_gap None (gapEvents rb) (u64 (timeoutFlushes rb + 1)) (u64 (skippedFrames rb + Z.of_nat i)) (set_expected (u32 (expectedSeq rb + Z.of_nat i)) rb)).
    change (set_gap None _ _ _ (set_expected _ (asActor rb))) with (asActor X). change (set_gap (gapSince (set_gapSince None _)) _ _ _ (set_gapSince None _)) with X.
    destruct (drain_frame now' X) as [-> E]. cbn [fst]. apply flush_agrees. by rewrite E.
  - cbn [Z.ltb Z.compare]. change (set_gapSince None (asActor rb)) with (asActor (set_gapSince None rb)). by apply flush_agrees.
Qed.

Lemma step_agrees r op : quiet (rrb r) ->
  let l := lockedStep r op in actorStep (mkRRun (asActor (rrb r)) (rout r) (rfreed r)) op = mkRRun (asActor (rrb l)) (rout l) (rfreed l) /\ quiet (rrb l).
Proof.
  intros HQ. destruct op as [tc now q f|tc now frames|tc now now'| | |]; cbn [lockedStep actorStep rrb rstep]; unfold after.
  - destruct (insert_agrees tc now q f (rrb r) HQ) as [-> H]. by split.
  - destruct (batch_agrees tc now frames (rrb r) HQ) as [-> H]. by split.
  - destruct (timeout_agrees tc now now' (rrb r) HQ) as [-> H]. by split.
  - destruct (reset_agrees (rrb r) HQ) as [-> H]. by split.
  - unfold CloseRB. change (rclosed (asActor (rrb r))) with (rclosed (rrb r)). destruct (rclosed (rrb r)); [split; done|]. split; [done|]. by split.
  - unfold outWorkerStep. change (outChan (asActor (rrb r))) with (outChan (rrb r)). destruct (outChan (rrb r)) as [|b q]; [done|]. split; [done|]. destruct HQ as [H1 H2]. by split.
Qed.

(** C40: The actor entry points of rx_actor.go are a faithful copy of the locked ones of
    buffer.go.  Over any history of single and batched insertions (frame or none, number 0
    included), timeout checks, resets, close and deliveries, run once with Insert,
    InsertBatch, the check of timeoutWorker and Reset on a buffer of NewReorderBuffer, and
    once with InsertActor, InsertBatchActor, ExpireGapActor and ResetActor on one of
    NewActorReorderBuffer, the same frames are handed to the callback, the same are given
    back to the pool, and the buffers end in the same state but for the flag actorOwned. *)
Theorem locked_actor_agree (owned : bool) (ops : list pubOp) :
  let l := fold_left lockedStep ops (mkRRun (newReorderBuffer owned) [] []) in
  let a := fold_left actorStep ops (mkRRun (newActorReorderBuffer owned) [] []) in
  rout a = rout l /\ rfreed a = rfreed l /\ rrb a = asActor (rrb l).
Proof.
  assert (forall r, quiet (rrb r) -> let l := fold_left lockedStep ops r in
    fold_left actorStep ops (mkRRun (asActor (rrb r)) (rout r) (rfreed r)) = mkRRun (asActor (rrb l)) (rout l) (rfreed l)) as HA.
  { induction ops as [|op ops IH]; intros r HQ; [done|]. cbn [fold_left]. destruct (step_agrees r op HQ) as [-> HQ']. by apply IH. }
  intros l a. assert (a = mkRRun (asActor (rrb l)) (rout l) (rfreed l)) as -> by (apply (HA (mkRRun (newReorderBuffer owned) [] [])); by split). done.
Qed.

(** ** Witnesses *)

Definition demoPayload (q : Z) : bytes := [q; q + 1].
Definition demoOps : list rop :=
  [RInsert 0 5 (demoPayload 5); RInsert 1 7 (demoPayload 7); RInsert 2 5 (demoPayload 5); RFlush false; ROutput;
   RExpire false 60000000 60000001; RInsert 60000002 6 (demoPayload 6); RFlush false; ROutput].

Lemma demoOps_epoch : Forall (epochOp 5 demoPayload) demoOps.
Proof. repeat constructor; try done; by vm_compute. Defined.

Lemma reorder_in_order_delivery_witness :
  rout (rexec false demoOps) = [demoPayload 5; demoPayload 7] /\
  exists L, rout (rexec false demoOps) = demoPayload <$> L /\ StronglySorted Z.lt L /\ Forall (fun q => q ∈ (inserted demoOps).*1) L.
Proof.
  split; [vm_compute; reflexivity|].
  apply (reorder_in_order_delivery 5 demoPayload false demoOps); [lia|done|exact demoOps_epoch].
Defined.

Lemma reorder_frames_conserved_witness :
  rfreed (rexec true demoOps) ++ rout (rexec true demoOps) ++ holding (rrb (rexec true demoOps)) ≡ₚ
  [[5; 6]; [7; 8]; [5; 6]; [6; 7]].
Proof.
  apply (reorder_frames_conserved 5 true demoOps); [lia|].
  repeat constructor; try done; by vm_compute.
Defined.

Lemma reorder_reassembles_witness :
  let rb := feed demoPayload [(0, 5); (1, 7); (2, 6)] (newActorReorderBuffer true) in
  concat (concat (outChan rb)) ++ concat (rpending rb) = demoPayload <$> seqZ 5 3 /\ expectedSeq rb = 5 + 3 /\ buffered rb = 0.
Proof.
  apply (reorder_reassembles 5 3 demoPayload true 0 [(1, 7); (2, 6)]); [lia|lia|].
  intros q. cbn. rewrite !elem_of_cons, elem_of_nil. lia.
Defined.

Lemma gap_expiry_progress_witness :
  let rb := rrb (rexec true (take 5 demoOps)) in
  exists i fs, (1 <= i)%nat /\ (forall j, (j < i)%nat -> at_seq rb (expectedSeq rb + Z.of_nat j) = None) /\
    fs <> [] /\ (forall j f, fs !! j = Some f -> at_seq rb (expectedSeq rb + Z.of_nat i + Z.of_nat j) = Some f) /\
    expectedSeq (ExpireGapActor false 60000000 60000001 rb).1 = expectedSeq rb + Z.of_nat i + lenZ fs /\
    buffered (ExpireGapActor false 60000000 60000001 rb).1 = buffered rb - lenZ fs /\
    rb_ok 5 (ExpireGapActor false 60000000 60000001 rb).1.
Proof.
  apply (gap_expiry_progress 5 false 60000000 60000001 (rrb (rexec true (take 5 demoOps)))); [lia| | |].
  - apply (rexec_conserves 5 ltac:(lia) (take 5 demoOps) (mkRRun (newActorReorderBuffer true) [] [])).
    + apply new_ok. lia.
    + repeat constructor; try done; by vm_compute.
  - vm_compute. reflexivity.
  - vm_compute. reflexivity.
Defined.
