(* ===== verification/RxWorker.v ===== *)
(** * The receive worker of a session (rx_batch.go)

    Connections read frames, collect them into batches and queue the batches; one
    worker per session runs the FEC decoder and the reorder buffer over them.  An
    epoch change bumps the generation, so that batches collected before it are
    discarded, and queues a barrier that resets the sequencing state.

    A sender that blocks on the full queue is an entry of [swaiting].  The fields
    [spushed], [sfreed], [sout], [srec] and [slog] record what happened; no operation
    reads them. *)

From stdpp Require Import base tactics list numbers gmap sorting.
From S2P Require Import Prelude Aead Padding Frame FecControl FecDecoder Reorder.
#[local] Open Scope Z_scope.

Definition rxSessionBatchCap : nat := 16.
Definition rxSessionQueueDepth : nat := 256.

Inductive rxErr := RXControlWithoutFEC | RXControl (e : controlErr).

Record rxSessionBatch := mkRxBatch { bframes : list VPNFrame; bfec : option nat; bgeneration : Z }.

Inductive rxSessionWork :=
| WBatch (b : rxSessionBatch)
| WBarrier (reset : bool) (resetFEC : option nat).

(** What processing a batch works on: the reorder buffer, the batch's decoder, the
    buffers given back and the recovered frames so far. *)
Record rxAcc := mkAcc { arb : ReorderBuffer; adec : option fecDecoder; afreed : list bytes; arec : list (Z * bytes) }.

Definition bufferFrame (now seq : Z) (frame : bytes) (a : rxAcc) : rxAcc :=
  let '(rb, fr) := InsertActorBuffered now seq (Some frame) (arb a) in mkAcc rb (adec a) (afreed a ++ fr) (arec a).
Definition flushRun (tc : bool) (a : rxAcc) : rxAcc :=
  let '(rb, fr) := FlushActor tc (arb a) in mkAcc rb (adec a) (afreed a ++ fr) (arec a).
Definition giveBack (frame : bytes) (a : rxAcc) : rxAcc := mkAcc (arb a) (adec a) (afreed a ++ [frame]) (arec a).
(** The decoder after an event; a recovered frame is a fresh buffer. *)
Definition setDec (d : option fecDecoder) (rec : option (Z * bytes)) (a : rxAcc) : rxAcc :=
  mkAcc (arb a) d (afreed a) (arec a ++ option_list rec).

Definition insertOriginalAndRecovery (now1 now2 seq : Z) (frame : bytes) (rec : option (Z * bytes)) (a : rxAcc) : rxAcc :=
  match rec with
  | None => bufferFrame now1 seq frame a
  | Some (recSeq, r) =>
    if recSeq <? seq then bufferFrame now2 seq frame (bufferFrame now1 recSeq r a)
    else let a := bufferFrame now1 seq frame a in
         if seq <? recSeq then bufferFrame now2 recSeq r a else giveBack r a
  end.

(** A data frame of a run. *)
Definition processData (now1 now2 : Z) (vf : VPNFrame) (a : rxAcc) : rxAcc :=
  match adec a with
  | None => insertOriginalAndRecovery now1 now2 (Seq vf) (Data vf) None a
  | Some d =>
    let '(d, rec) := OnDataActor (ExpectedSeqActor (arb a)) (Seq vf) (Data vf) d in
    insertOriginalAndRecovery now1 now2 (Seq vf) (Data vf) rec (setDec (Some d) rec a)
  end.

(** A control frame; the error fails the batch. *)
Definition processControl (now : Z) (tc : bool) (vf : VPNFrame) (a : rxAcc) : rxAcc * option rxErr :=
  match adec a with
  | None => (giveBack (Data vf) a, Some RXControlWithoutFEC)
  | Some d =>
    let '(d, r) := OnControlActorWithScratch (ExpectedSeqActor (arb a)) (Data vf) d in
    match r with
    | inr e => (giveBack (Data vf) (setDec (Some d) None a), Some (RXControl e))
    | inl None => (giveBack (Data vf) (setDec (Some d) None a), None)
    | inl (Some (recSeq, rec)) =>
      (flushRun tc (bufferFrame now recSeq rec (giveBack (Data vf) (setDec (Some d) (Some (recSeq, rec)) a))), None)
    end
  end.

(** failBatch: the frames after the failing one. *)
Definition failBatch (rest : list VPNFrame) (a : rxAcc) : rxAcc :=
  mkAcc (arb a) (adec a) (afreed a ++ (Data <$> rest)) (arec a).

(** The loop over a batch.  A run of data frames ends, with a flush, at the next
    control frame or at the end; [run] says that one is open.  [clk] reads the clock
    (twice per frame) and [tc] resolves the selects of the flushes. *)
Fixpoint processFrames (clk : nat -> Z) (tc : nat -> bool) (i : nat) (run : bool) (frames : list VPNFrame) (a : rxAcc)
    : rxAcc * option rxErr :=
  match frames with
  | [] => (if run then flushRun (tc (2 * i)%nat) a else a, None)
  | vf :: frames =>
    if Seq vf =? 0 then
      let a := if run then flushRun (tc (2 * i)%nat) a else a in
      let '(a, e) := processControl (clk (2 * i)%nat) (tc (2 * i + 1)%nat) vf a in
      match e with
      | Some _ => (failBatch frames a, e)
      | None => processFrames clk tc (S i) false frames a
      end
    else processFrames clk tc (S i) true frames (processData (clk (2 * i)%nat) (clk (2 * i + 1)%nat) vf a)
  end.

(** ** The worker, its queue and its producers *)

Record rxBatchProducer := mkProducer { pfec : option nat; pgeneration : Z; pbatch : option (list VPNFrame) }.

Record rxSys := mkSys {
  sreorder : ReorderBuffer;
  sdecs : gmap nat fecDecoder;            (* the decoders that batches point to *)
  sgeneration : Z;
  squeue : list rxSessionWork;
  swaiting : list rxSessionWork;
  sclosing : bool;
  sdone : bool;
  sprods : gmap nat rxBatchProducer;
  spushed : list bytes;
  sfreed : list bytes;
  sout : list bytes;
  srec : list (Z * bytes);
  slog : list (Z * Z * option rxErr)      (* applied batches: their generation, the worker's, the failure *)
}.

Definition newRXSessionWorker (owned : bool) (decs : gmap nat fecDecoder) : rxSys :=
  mkSys (newActorReorderBuffer owned) decs 1 [] [] false false ∅ [] [] [] [] [].

Definition set_seq (rb : ReorderBuffer) (decs : gmap nat fecDecoder) (fr out : list bytes) (rec : list (Z * bytes))
    (log : list (Z * Z * option rxErr)) (s : rxSys) : rxSys :=
  mkSys rb decs (sgeneration s) (squeue s) (swaiting s) (sclosing s) (sdone s) (sprods s) (spushed s)
        (sfreed s ++ fr) (sout s ++ out) (srec s ++ rec) (slog s ++ log).
Definition set_chan (g : Z) (q wait : list rxSessionWork) (closing done : bool) (s : rxSys) : rxSys :=
  mkSys (sreorder s) (sdecs s) g q wait closing done (sprods s) (spushed s) (sfreed s) (sout s) (srec s) (slog s).
Definition set_prods (ps : gmap nat rxBatchProducer) (pushed : list bytes) (s : rxSys) : rxSys :=
  mkSys (sreorder s) (sdecs s) (sgeneration s) (squeue s) (swaiting s) (sclosing s) (sdone s) ps
        (spushed s ++ pushed) (sfreed s) (sout s) (srec s) (slog s).

Definition free (fr : list bytes) (s : rxSys) : rxSys := set_seq (sreorder s) (sdecs s) fr [] [] [] s.

(** enqueue: refused once closing; otherwise the caller waits for room. *)
Definition enqueue (w : rxSessionWork) (s : rxSys) : rxSys * bool :=
  if sclosing s then (s, false) else
  (set_chan (sgeneration s) (squeue s) (swaiting s ++ [w]) (sclosing s) (sdone s) s, true).

(** A waiting sender gets its slot. *)
Definition sendWaiting (k : nat) (s : rxSys) : rxSys :=
  match swaiting s !! k with
  | Some w => if (length (squeue s) <? rxSessionQueueDepth)%nat
              then set_chan (sgeneration s) (squeue s ++ [w]) (delete k (swaiting s)) (sclosing s) (sdone s) s
              else s
  | None => s
  end.

Definition advanceEpoch (reset : bool) (fec : option nat) (s : rxSys) : rxSys :=
  if sclosing s then s else
  (enqueue (WBarrier reset fec)
     (set_chan (u64 (sgeneration s + 1)) (squeue s) (swaiting s) (sclosing s) (sdone s) s)).1.

(** Close waits for the senders that hold the read lock. *)
Definition Close (s : rxSys) : rxSys :=
  match swaiting s with [] => set_chan (sgeneration s) (squeue s) [] true (sdone s) s | _ => s end.

Definition process (clk : nat -> Z) (tc : nat -> bool) (w : rxSessionWork) (s : rxSys) : rxSys :=
  match w with
  | WBarrier reset fec =>
    if reset then
      let decs := match fec with Some id => alter ResetActor id (sdecs s) | None => sdecs s end in
      let '(rb, fr) := ResetActorRB (sreorder s) in set_seq rb decs fr [] [] [] s
    else s
  | WBatch b =>
    if negb (bgeneration b =? sgeneration s) then free (Data <$> bframes b) s else
    let '(a, e) := processFrames clk tc 0 false (bframes b) (mkAcc (sreorder s) (bfec b ≫= (sdecs s !!.)) [] []) in
    let decs := match bfec b, adec a with Some id, Some d => <[id := d]> (sdecs s) | _, _ => sdecs s end in
    set_seq (arb a) decs (afreed a) [] (arec a) [(bgeneration b, sgeneration s, e)] s
  end.

(** One turn of run: a work item, the gap timer, or the final drain. *)
Definition runWork (clk : nat -> Z) (tc : nat -> bool) (s : rxSys) : rxSys :=
  if sdone s then s else
  match squeue s with
  | [] => s
  | w :: q => process clk tc w (set_chan (sgeneration s) q (swaiting s) (sclosing s) (sdone s) s)
  end.

Definition runExpire (tc : bool) (now now' : Z) (s : rxSys) : rxSys :=
  if sdone s then s else
  let '(rb, fr) := ExpireGapActor tc now now' (sreorder s) in set_seq rb (sdecs s) fr [] [] [] s.

Definition workFrames (w : rxSessionWork) : list bytes := match w with WBatch b => Data <$> bframes b | WBarrier _ _ => [] end.

Definition runDrain (s : rxSys) : rxSys :=
  if sclosing s && negb (sdone s) then
    free (concat (workFrames <$> squeue s)) (set_chan (sgeneration s) [] (swaiting s) (sclosing s) true s)
  else s.

Definition NewProducer (pid : nat) (fec : option nat) (s : rxSys) : rxSys :=
  match sprods s !! pid with
  | Some _ => s
  | None => set_prods (<[pid := mkProducer fec (sgeneration s) None]> (sprods s)) [] s
  end.

Definition Flush (pid : nat) (s : rxSys) : rxSys :=
  match sprods s !! pid with
  | Some (mkProducer fec g (Some frames)) =>
    let s := set_prods (<[pid := mkProducer fec g None]> (sprods s)) [] s in
    match frames with
    | [] => s
    | _ => let '(s, ok) := enqueue (WBatch (mkRxBatch frames fec g)) s in
           if ok then s else free (Data <$> frames) s
    end
  | _ => s
  end.

Definition Push (pid : nat) (seq : Z) (frame : option bytes) (s : rxSys) : rxSys :=
  match sprods s !! pid, frame with
  | Some p, Some f =>
    let frames := default [] (pbatch p) ++ [mkFrame seq f] in
    let s := set_prods (<[pid := mkProducer (pfec p) (pgeneration p) (Some frames)]> (sprods s)) [f] s in
    if (length frames =? rxSessionBatchCap)%nat then Flush pid s else s
  | _, _ => s
  end.

(** outWorker of the reorder buffer. *)
Definition runOutput (s : rxSys) : rxSys :=
  match outWorkerStep true (sreorder s) with
  | None => s
  | Some (rb, out, fr) => set_seq rb (sdecs s) fr out [] [] s
  end.

Inductive rxOp :=
| ONewProducer (pid : nat) (fec : option nat)
| OPush (pid : nat) (seq : Z) (frame : option bytes)
| OFlush (pid : nat)
| OSend (k : nat)
| OAdvance (reset : bool) (fec : option nat)
| OClose
| OWork (clk : nat -> Z) (tc : nat -> bool)
| OExpire (tc : bool) (now now' : Z)
| ODrain
| OOutput.

Definition rxStep (s : rxSys) (op : rxOp) : rxSys :=
  match op with
  | ONewProducer pid fec => NewProducer pid fec s
  | OPush pid seq frame => Push pid seq frame s
  | OFlush pid => Flush pid s
  | OSend k => sendWaiting k s
  | OAdvance reset fec => advanceEpoch reset fec s
  | OClose => Close s
  | OWork clk tc => runWork clk tc s
  | OExpire tc now now' => runExpire tc now now' s
  | ODrain => runDrain s
  | OOutput => runOutput s
  end.

Definition rxExec (owned : bool) (decs : gmap nat fecDecoder) (ops : list rxOp) : rxSys :=
  fold_left rxStep ops (newRXSessionWorker owned decs).

(** ** Conservation: processing a batch *)

(** The reserved number 0, or a number of the epoch. *)
Definition okSeq (lo q : Z) : Prop := q = 0 \/ inRange lo q.

Section Batch.
Variable lo : Z.
Hypothesis Hlo : 0 < lo.

Definition accHold (a : rxAcc) : list bytes := afreed a ++ holding (arb a).

(** [a'] has taken in the buffers [l] and, beside them, the recovered frames that
    were logged since [a]. *)
Record takes (l : list bytes) (a a' : rxAcc) : Prop := {
  t_ok : rb_ok lo (arb a');
  t_owned : outOwned (arb a') = outOwned (arb a);
  t_bal : accHold a' ++ (arec a).*2 ≡ₚ l ++ accHold a ++ (arec a').*2
}.

Lemma takes_refl a : rb_ok lo (arb a) -> takes [] a a.
Proof using. by split. Qed.

Lemma takes_trans l1 l2 a b c : takes l1 a b -> takes l2 b c -> takes (l1 ++ l2) a c.
Proof using.
  intros [A1 A2 A3] [B1 B2 B3]. split; [done|congruence|].
  apply (inj (.++ (arec b).*2)). trans ((accHold c ++ (arec b).*2) ++ (arec a).*2); [solve_Permutation|].
  rewrite B3. trans (l2 ++ (accHold b ++ (arec a).*2) ++ (arec c).*2); [solve_Permutation|]. rewrite A3. solve_Permutation.
Qed.

Lemma bufferFrame_takes now q f a : rb_ok lo (arb a) -> okSeq lo q -> takes [f] a (bufferFrame now q f a).
Proof using Hlo.
  intros Hok Hq. unfold bufferFrame. destruct Hq as [-> |Hq].
  { cbn. split; [done|done|]. unfold accHold. cbn. solve_Permutation. }
  pose proof (insert_ok lo Hlo now q f _ Hok Hq) as HI. destruct (InsertActorBuffered _ _ _ _) as [rb fr].
  destruct HI as (I1 & I2 & I3). split; [done|done|]. unfold accHold. cbn [arb afreed arec].
  trans (afreed a ++ (fr ++ holding rb) ++ (arec a).*2); [solve_Permutation|]. rewrite I2. solve_Permutation.
Qed.

Lemma flushRun_takes tc a : rb_ok lo (arb a) -> takes [] a (flushRun tc a).
Proof using.
  intros Hok. unfold flushRun. pose proof (flush_conserves lo tc _ Hok) as HF. destruct (FlushActor tc (arb a)) as [rb fr].
  destruct HF as (I1 & I2 & I3). split; [done|done|]. unfold accHold. cbn [arb afreed arec].
  trans (afreed a ++ (fr ++ holding rb) ++ (arec a).*2); [solve_Permutation|]. rewrite I2. solve_Permutation.
Qed.

Lemma giveBack_takes f a : rb_ok lo (arb a) -> takes [f] a (giveBack f a).
Proof using. intros Hok. split; [done|done|]. unfold accHold. cbn. solve_Permutation. Qed.

(** Logging a recovered frame makes it one to be taken in. *)
Lemma setDec_takes d rec l a a' : takes (l ++ option_list (snd <$> rec)) (setDec d rec a) a' -> takes l a a'.
Proof using.
  intros [A1 A2 A3]. split; [done|done|]. unfold accHold in *. cbn [setDec arb afreed arec] in *. rewrite fmap_app in A3.
  assert ((option_list rec).*2 = option_list (snd <$> rec)) as HE by by destruct rec. rewrite HE in A3.
  apply (inj (.++ option_list (snd <$> rec))). rewrite <- !app_assoc. rewrite <- app_assoc in A3. rewrite A3. solve_Permutation.
Qed.

Lemma insertOriginalAndRecovery_takes now1 now2 q f rec a :
  rb_ok lo (arb a) -> okSeq lo q -> Forall (fun r => okSeq lo r.1) (option_list rec) ->
  takes (f :: option_list (snd <$> rec)) a (insertOriginalAndRecovery now1 now2 q f rec a).
Proof using Hlo.
  intros Hok Hq Hrec. unfold insertOriginalAndRecovery. destruct rec as [[rq r]|]; [|by apply bufferFrame_takes].
  apply Forall_cons_1 in Hrec as [Hr _]. cbn [option_list fmap option_fmap option_map snd fst] in *.
  destruct (rq <? q).
  - pose proof (bufferFrame_takes now1 rq r a Hok Hr) as H1.
    pose proof (takes_trans _ _ _ _ _ H1 (bufferFrame_takes now2 q f _ (t_ok _ _ _ H1) Hq)) as [T1 T2 T3].
    split; [done|done|]. rewrite T3. cbn. solve_Permutation.
  - pose proof (bufferFrame_takes now1 q f a Hok Hq) as H1. destruct (q <? rq).
    + apply (takes_trans [f] [r] _ _ _ H1). apply bufferFrame_takes; [apply H1|done].
    + apply (takes_trans [f] [r] _ _ _ H1). apply giveBack_takes, H1.
Qed.

(** Recovered frames that were logged stay logged. *)
Lemma buffer_rec now q f a : arec (bufferFrame now q f a) = arec a.
Proof using. unfold bufferFrame. by destruct (InsertActorBuffered _ _ _ _). Qed.
Lemma flush_rec tc a : arec (flushRun tc a) = arec a.
Proof using. unfold flushRun. by destruct (FlushActor _ _). Qed.
Lemma insert_rec now1 now2 q f rec a : arec (insertOriginalAndRecovery now1 now2 q f rec a) = arec a.
Proof using.
  unfold insertOriginalAndRecovery. destruct rec as [[rq r]|]; [|by apply buffer_rec].
  destruct (rq <? q); [by rewrite !buffer_rec|]. destruct (q <? rq); [by rewrite !buffer_rec|]. cbn. apply buffer_rec.
Qed.

Lemma data_rec now1 now2 vf a : arec a `prefix_of` arec (processData now1 now2 vf a).
Proof using.
  unfold processData. destruct (adec a) as [d|]; [|by rewrite insert_rec].
  destruct (OnDataActor _ _ _ d) as [d' rec]. rewrite insert_rec. cbn. by exists (option_list rec).
Qed.

Lemma control_rec now tc vf a : arec a `prefix_of` arec (processControl now tc vf a).1.
Proof using.
  unfold processControl. destruct (adec a) as [d|]; [|done]. destruct (OnControlActorWithScratch _ _ d) as [d' [[[rq r]|]|e]]; cbn [fst].
  - rewrite flush_rec, buffer_rec. cbn. by exists [(rq, r)].
  - cbn. by rewrite app_nil_r.
  - cbn. by rewrite app_nil_r.
Qed.

Lemma frames_rec clk tc frames : forall i run a, arec a `prefix_of` arec (processFrames clk tc i run frames a).1.
Proof using.
  induction frames as [|vf frames IH]; intros i run a; cbn [processFrames].
  { destruct run; cbn; by rewrite ?flush_rec. }
  destruct (Seq vf =? 0).
  - set (a0 := if run then _ else a). assert (arec a0 = arec a) as <- by (unfold a0; destruct run; by rewrite ?flush_rec).
    pose proof (control_rec (clk (2 * i)%nat) (tc (2 * i + 1)%nat) vf a0) as HC.
    destruct (processControl _ _ vf a0) as [a1 [e|]]; cbn [fst] in *; [done|]. etransitivity; [exact HC|]. apply IH.
  - etransitivity; [apply data_rec|]. apply IH.
Qed.

Lemma processData_takes now1 now2 vf a : rb_ok lo (arb a) -> okSeq lo (Seq vf) ->
  Forall (fun r => okSeq lo r.1) (arec (processData now1 now2 vf a)) -> takes [Data vf] a (processData now1 now2 vf a).
Proof using Hlo.
  intros Hok Hq. unfold processData. destruct (adec a) as [d|].
  2:{ intros _. by apply (insertOriginalAndRecovery_takes _ _ _ _ None). }
  destruct (OnDataActor _ _ _ d) as [d' rec]. rewrite insert_rec. cbn [setDec arec]. intros HF.
  apply Forall_app in HF as [_ HF]. apply (setDec_takes (Some d') rec). by apply insertOriginalAndRecovery_takes.
Qed.

Lemma processControl_takes now tc vf a : rb_ok lo (arb a) ->
  Forall (fun r => okSeq lo r.1) (arec (processControl now tc vf a).1) -> takes [Data vf] a (processControl now tc vf a).1.
Proof using Hlo.
  intros Hok. unfold processControl. destruct (adec a) as [d|]; [|intros _; by apply giveBack_takes].
  destruct (OnControlActorWithScratch _ _ d) as [d' [[[rq r]|]|e]]; cbn [fst].
  - rewrite flush_rec, buffer_rec. cbn [giveBack setDec arec]. intros HF.
    apply Forall_app in HF as [_ HF]. apply Forall_cons_1 in HF as [Hr _]. apply (setDec_takes (Some d') (Some (rq, r))).
    cbn [option_list fmap option_fmap option_map snd].
    pose proof (giveBack_takes (Data vf) (setDec (Some d') (Some (rq, r)) a) Hok) as H1.
    pose proof (takes_trans _ _ _ _ _ H1 (bufferFrame_takes now rq r _ (t_ok _ _ _ H1) Hr)) as H2.
    pose proof (takes_trans _ _ _ _ _ H2 (flushRun_takes tc _ (t_ok _ _ _ H2))) as H3.
    by rewrite app_nil_r in H3.
  - intros _. apply (setDec_takes (Some d') None). by apply giveBack_takes.
  - intros _. apply (setDec_takes (Some d') None). by apply giveBack_takes.
Qed.

Lemma processFrames_takes clk tc frames : forall i run a, rb_ok lo (arb a) -> Forall (fun vf => okSeq lo (Seq vf)) frames ->
  Forall (fun r => okSeq lo r.1) (arec (processFrames clk tc i run frames a).1) ->
  takes (Data <$> frames) a (processFrames clk tc i run frames a).1.
Proof using Hlo.
  induction frames as [|vf frames IH]; intros i run a Hok HF HR; cbn [processFrames] in *.
  { destruct run; [by apply flushRun_takes|by apply takes_refl]. }
  apply Forall_cons_1 in HF as [Hq HF]. rewrite fmap_cons. destruct (Seq vf =? 0).
  - set (a0 := if run then _ else a) in *.
    assert (takes [] a a0) as H0 by (unfold a0; destruct run; [by apply flushRun_takes|by apply takes_refl]).
    pose proof (processControl_takes (clk (2 * i)%nat) (tc (2 * i + 1)%nat) vf a0 (t_ok _ _ _ H0)) as HC.
    destruct (processControl _ _ vf a0) as [a1 [e|]]; cbn [fst] in *.
    + pose proof (takes_trans _ _ _ _ _ H0 (HC HR)) as [T1 T2 T3]. split; [done|done|].
      unfold failBatch, accHold in *. cbn [arb afreed arec] in *.
      trans ((Data <$> frames) ++ ((afreed a1 ++ holding (arb a1)) ++ (arec a).*2)); [solve_Permutation|]. rewrite T3. solve_Permutation.
    + pose proof (frames_rec clk tc frames (S i) false a1) as [l Hl].
      assert (takes [Data vf] a a1) as H1.
      { apply (takes_trans [] _ _ _ _ H0), HC. rewrite Hl in HR. by apply Forall_app in HR as [? _]. }
      apply (takes_trans [Data vf] _ _ _ _ H1), IH; [apply H1|done|done].
  - set (a1 := processData _ _ vf a) in *.
    pose proof (frames_rec clk tc frames (S i) true a1) as [l Hl].
    assert (takes [Data vf] a a1) as H1.
    { apply processData_takes; [done|done|]. rewrite Hl in HR. by apply Forall_app in HR as [? _]. }
    apply (takes_trans [Data vf] _ _ _ _ H1), IH; [apply H1|done|done].
Qed.
End Batch.

(** ** Conservation: the whole receive path *)

Definition prodFrames (p : rxBatchProducer) : list bytes := Data <$> default [] (pbatch p).
Definition prodsFrames (ps : gmap nat rxBatchProducer) : list bytes := concat ((fun kp => prodFrames kp.2) <$> map_to_list ps).
Definition worksFrames (ws : list rxSessionWork) : list bytes := concat (workFrames <$> ws).

Lemma prodsFrames_new ps pid p : ps !! pid = None -> prodsFrames (<[pid := p]> ps) ≡ₚ prodFrames p ++ prodsFrames ps.
Proof. intros H. unfold prodsFrames. by rewrite (map_to_list_insert _ _ _ H). Qed.

Lemma prodsFrames_set ps pid p p' : ps !! pid = Some p ->
  prodsFrames (<[pid := p']> ps) ++ prodFrames p ≡ₚ prodsFrames ps ++ prodFrames p'.
Proof.
  intros H. rewrite <- (insert_delete_id ps pid p H) at 2. rewrite <- (insert_delete_eq ps pid p').
  rewrite !prodsFrames_new by apply lookup_delete_eq. solve_Permutation.
Qed.

Lemma worksFrames_app l1 l2 : worksFrames (l1 ++ l2) = worksFrames l1 ++ worksFrames l2.
Proof. unfold worksFrames. by rewrite fmap_app, concat_app. Qed.

Section System.
Variable lo : Z.
Hypothesis Hlo : 0 < lo.

Definition okFrames (frames : list VPNFrame) : Prop := Forall (fun vf => okSeq lo (Seq vf)) frames.
Definition okWork (w : rxSessionWork) : Prop := match w with WBatch b => okFrames (bframes b) | _ => True end.
Definition okRxOp (op : rxOp) : Prop := match op with OPush _ q (Some _) => okSeq lo q | _ => True end.

(** Everything that is somewhere in the receive path, and what went out of it. *)
Definition rxHeld (owned : bool) (s : rxSys) : list bytes :=
  sfreed s ++ (if owned then sout s else []) ++ holding (sreorder s) ++
  worksFrames (squeue s) ++ worksFrames (swaiting s) ++ prodsFrames (sprods s).

Record rx_inv (owned : bool) (s : rxSys) : Prop := {
  x_rb : rb_ok lo (sreorder s);
  x_owned : outOwned (sreorder s) = owned;
  x_queue : Forall okWork (squeue s);
  x_waiting : Forall okWork (swaiting s);
  x_prods : map_Forall (fun _ p => okFrames (default [] (pbatch p))) (sprods s);
  x_bal : rxHeld owned s ≡ₚ spushed s ++ (srec s).*2
}.

(** A step that only works on the sequencing state. *)
Lemma set_seq_inv owned s rb decs fr out rec log :
  rx_inv owned s -> rb_ok lo rb -> outOwned rb = owned ->
  fr ++ (if owned then out else []) ++ holding rb ≡ₚ rec.*2 ++ holding (sreorder s) ->
  rx_inv owned (set_seq rb decs fr out rec log s).
Proof using.
  intros [I1 I2 I3 I4 I5 I6] Hrb Ho HP. split; auto. unfold rxHeld in *. cbn [set_seq sreorder squeue swaiting sprods sfreed sout srec spushed].
  rewrite fmap_app. trans ((spushed s ++ (srec s).*2) ++ rec.*2); [rewrite <- I6|solve_Permutation].
  trans ((fr ++ (if owned then out else []) ++ holding rb) ++ sfreed s ++ (if owned then sout s else []) ++
         worksFrames (squeue s) ++ worksFrames (swaiting s) ++ prodsFrames (sprods s)).
  - destruct owned; solve_Permutation.
  - rewrite HP. solve_Permutation.
Qed.

Lemma Flush_inv owned s pid : rx_inv owned s -> rx_inv owned (Flush pid s).
Proof using.
  intros HI. pose proof HI as [I1 I2 I3 I4 I5 I6]. unfold Flush.
  destruct (sprods s !! pid) as [[fec g [frames|]]|] eqn:E; [|done..].
  pose proof (map_Forall_lookup_1 _ _ _ _ I5 E) as Hfr. cbn in Hfr.
  pose proof (prodsFrames_set _ _ _ (mkProducer fec g None) E) as HP. cbn [prodFrames pbatch default] in HP.
  change (prodFrames (mkProducer fec g None)) with (@nil bytes) in HP. rewrite app_nil_r in HP.
  change (prodFrames (mkProducer fec g (Some frames))) with (Data <$> frames) in HP.
  set (s1 := set_prods (<[pid := _]> _) [] s).
  assert (map_Forall (fun _ p => okFrames (default [] (pbatch p))) (sprods s1)) as I5'
    by (apply map_Forall_insert_2; [by constructor|done]).
  destruct frames as [|vf frames].
  { split; auto. unfold rxHeld in *. cbn [s1 set_prods sprods sreorder squeue swaiting sfreed sout spushed srec].
    cbn [fmap list_fmap] in HP. rewrite app_nil_r in HP. by rewrite HP, app_nil_r. }
  set (l := vf :: frames) in *. clearbody l. unfold enqueue. change (sclosing s1) with (sclosing s). destruct (sclosing s).
  - split; auto. unfold rxHeld in *. cbn [free s1 set_seq set_prods sprods sreorder squeue swaiting sfreed sout spushed srec].
    rewrite !app_nil_r. rewrite <- I6, <- HP. solve_Permutation.
  - split; auto.
    + cbn. apply Forall_app. split; [done|]. by repeat constructor.
    + unfold rxHeld in *. cbn [s1 set_chan set_prods sprods sreorder squeue swaiting sfreed sout spushed srec].
      rewrite worksFrames_app. change (worksFrames [WBatch (mkRxBatch l fec g)]) with ((Data <$> l) ++ []).
      rewrite !app_nil_r, <- I6, <- HP. solve_Permutation.
Qed.

Lemma Push_inv owned s pid q frame : rx_inv owned s -> okRxOp (OPush pid q frame) -> rx_inv owned (Push pid q frame s).
Proof using.
  intros HI Hq. pose proof HI as [I1 I2 I3 I4 I5 I6]. unfold Push.
  destruct (sprods s !! pid) as [p|] eqn:E; [|done]. destruct frame as [f|]; [|done]. cbn in Hq.
  set (frames := default [] (pbatch p) ++ _). set (s1 := set_prods _ [f] s).
  assert (rx_inv owned s1) as H1; [|destruct (_ =? _)%nat; [by apply Flush_inv|done]].
  pose proof (prodsFrames_set _ _ _ (mkProducer (pfec p) (pgeneration p) (Some frames)) E) as HP.
  change (prodFrames (mkProducer (pfec p) (pgeneration p) (Some frames))) with (Data <$> frames) in HP.
  unfold frames at 2 in HP. rewrite fmap_app in HP. cbn [fmap list_fmap Data] in HP. fold (prodFrames p) in HP.
  split; auto.
  - apply map_Forall_insert_2; [|done]. cbn. unfold frames. apply Forall_app. split; [by apply (map_Forall_lookup_1 _ _ _ _ I5 E)|].
    constructor; [exact Hq|constructor].
  - unfold rxHeld in *. cbn [s1 set_prods sprods sreorder squeue swaiting sfreed sout spushed srec].
    apply (inj (prodFrames p ++.)). set (x := if owned then _ else _) in *.
    trans (sfreed s ++ x ++ holding (sreorder s) ++ worksFrames (squeue s) ++ worksFrames (swaiting s) ++
      (prodsFrames (<[pid:=mkProducer (pfec p) (pgeneration p) (Some frames)]> (sprods s)) ++ prodFrames p)); [solve_Permutation|].
    rewrite HP. trans ((sfreed s ++ x ++ holding (sreorder s) ++ worksFrames (squeue s) ++ worksFrames (swaiting s) ++
      prodsFrames (sprods s)) ++ prodFrames p ++ [f]); [solve_Permutation|]. rewrite I6. solve_Permutation.
Qed.

Lemma process_rec clk tc w s : srec s `prefix_of` srec (process clk tc w s).
Proof using.
  destruct w as [b|reset fec]; cbn [process].
  - destruct (negb _); [cbn; by eexists|]. destruct (processFrames _ _ _ _ _ _) as [a e]. cbn. by eexists.
  - destruct reset; [|done]. destruct (ResetActorRB _) as [rb fr]. cbn. by eexists.
Qed.

Lemma process_inv owned clk tc w s q : rx_inv owned s -> squeue s = w :: q ->
  let s0 := set_chan (sgeneration s) q (swaiting s) (sclosing s) (sdone s) s in
  Forall (fun r => okSeq lo r.1) (srec (process clk tc w s0)) -> rx_inv owned (process clk tc w s0).
Proof using Hlo.
  intros HI Hq s0. pose proof HI as [I1 I2 I3 I4 I5 I6]. rewrite Hq in I3. apply Forall_cons_1 in I3 as [Hw I3].
  unfold rxHeld in I6. rewrite Hq in I6. change (worksFrames (w :: q)) with (workFrames w ++ worksFrames q) in I6.
  destruct w as [b|reset fec]; cbn [process workFrames] in *.
  - change (sgeneration s0) with (sgeneration s). destruct (negb _).
    + intros _. split; auto. unfold rxHeld. cbn [free set_seq s0 set_chan sreorder squeue swaiting sprods sfreed sout srec spushed].
      rewrite !app_nil_r, <- I6. solve_Permutation.
    + pose proof (processFrames_takes lo Hlo clk tc (bframes b) 0 false
        (mkAcc (sreorder s0) (bfec b ≫= (sdecs s0 !!.)) [] []) I1 Hw) as HT.
      destruct (processFrames _ _ _ _ _ _) as [a e]. cbn [fst] in HT. set (decs := match bfec b with Some _ => _ | None => _ end).
      cbn [set_seq srec s0 set_chan]. intros HF. apply Forall_app in HF as [_ HF]. destruct (HT HF) as [T1 T2 T3].
      unfold accHold in T3. cbn [arb afreed arec sreorder s0 set_chan] in T2, T3. rewrite app_nil_r in T3. cbn [app] in T3.
      split; auto; [cbn; congruence|].
      unfold rxHeld. cbn [set_seq s0 set_chan sreorder squeue swaiting sprods sfreed sout srec spushed].
      rewrite fmap_app, app_nil_r. trans ((spushed s ++ (srec s).*2) ++ (arec a).*2); [rewrite <- I6|solve_Permutation].
      set (x := if owned then _ else _). trans ((afreed a ++ holding (arb a)) ++ sfreed s ++ x ++ worksFrames q ++
        worksFrames (swaiting s) ++ prodsFrames (sprods s)); [solve_Permutation|]. rewrite T3. solve_Permutation.
  - assert (rx_inv owned s0) as H0 by (split; auto). intros _. destruct reset; [|done].
    pose proof (reset_conserves lo _ I1) as HR. change (sreorder s0) with (sreorder s).
    destruct (ResetActorRB (sreorder s)) as [rb fr]. destruct HR as (R1 & R2 & R3).
    apply set_seq_inv; auto; [congruence|]. cbn [fmap list_fmap app]. change (sreorder s0) with (sreorder s).
    rewrite <- R2. by destruct owned.
Qed.

Lemma rxStep_inv owned s op : rx_inv owned s -> okRxOp op -> Forall (fun r => okSeq lo r.1) (srec (rxStep s op)) ->
  rx_inv owned (rxStep s op).
Proof using Hlo.
  intros HI Hop HR. pose proof HI as [I1 I2 I3 I4 I5 I6]. destruct op as [pid fec|pid q frame|pid|k|reset fec| |clk tc|tc now now'| |]; cbn [rxStep] in *.
  - unfold NewProducer. destruct (sprods s !! pid) eqn:E; [done|]. split; auto.
    + apply map_Forall_insert_2; [by constructor|done].
    + unfold rxHeld. cbn [set_prods sreorder squeue swaiting sprods sfreed sout srec spushed].
      rewrite prodsFrames_new, app_nil_r by done. exact I6.
  - by apply Push_inv.
  - by apply Flush_inv.
  - unfold sendWaiting. destruct (swaiting s !! k) as [w|] eqn:E; [|done]. destruct (_ <? _)%nat; [|done].
    assert (swaiting s ≡ₚ w :: delete k (swaiting s)) as HP by by apply delete_Permutation.
    split; auto; cbn [set_chan squeue swaiting].
    + apply Forall_app. split; [done|]. constructor; [|done]. by apply (Forall_lookup_1 _ _ _ _ I4 E).
    + by apply Forall_delete.
    + unfold rxHeld. cbn [set_chan sreorder squeue swaiting sprods sfreed sout srec spushed]. rewrite worksFrames_app, <- I6.
      unfold rxHeld. assert (worksFrames (swaiting s) ≡ₚ worksFrames [w] ++ worksFrames (delete k (swaiting s))) as ->.
      { rewrite <- worksFrames_app. unfold worksFrames. rewrite HP at 1. done. }
      solve_Permutation.
  - unfold advanceEpoch, enqueue. destruct (sclosing s) eqn:EC; [done|]. cbn [sclosing set_chan]; rewrite ?EC; cbn [fst].
    split; auto; cbn [set_chan squeue swaiting].
    + apply Forall_app. split; [done|]. by repeat constructor.
    + unfold rxHeld. cbn [set_chan sreorder squeue swaiting sprods sfreed sout srec spushed]. rewrite worksFrames_app.
      change (worksFrames [WBarrier reset fec]) with (@nil bytes). by rewrite app_nil_r.
  - unfold Close. destruct (swaiting s) eqn:E; [|done]. split; auto. unfold rxHeld in *. rewrite E in I6. exact I6.
  - unfold runWork in *. destruct (sdone s) eqn:ED; [done|]. destruct (squeue s) as [|w q] eqn:E; [done|].
    rewrite <- ED in HR |- *. by apply process_inv.
  - unfold runExpire. destruct (sdone s); [done|]. pose proof (expire_conserves lo Hlo tc now now' _ I1) as HE.
    destruct (ExpireGapActor _ _ _ _) as [rb fr]. destruct HE as (E1 & E2 & E3). apply set_seq_inv; auto; [congruence|].
    cbn [fmap list_fmap app]. rewrite <- E2. by destruct owned.
  - unfold runDrain. destruct (_ && _); [|done]. split; auto. unfold rxHeld.
    cbn [free set_seq set_chan sreorder squeue swaiting sprods sfreed sout srec spushed].
    fold (worksFrames (squeue s)). rewrite !app_nil_r, <- I6. unfold rxHeld. change (worksFrames []) with (@nil bytes). solve_Permutation.
  - unfold runOutput. pose proof (rstep_conserves lo Hlo (mkRRun (sreorder s) [] []) ROutput I1 I) as (R1 & R2 & R3).
    cbn [rstep rrb rout rfreed] in *. destruct (outWorkerStep true (sreorder s)) as [[[rb out] fr]|]; [|done].
    cbn [rrb rout rfreed app] in *. unfold accounted in R2. cbn [rrb rout rfreed insertedOf fmap list_fmap app] in R2.
    rewrite R3, I2 in R2. apply set_seq_inv; auto; [congruence|]. cbn [fmap list_fmap app]. rewrite R2. by destruct owned.
Qed.
End System.

Lemma rxStep_rec s op : srec s `prefix_of` srec (rxStep s op).
Proof.
  destruct op as [pid fec|pid q frame|pid|k|reset fec| |clk tc|tc now now'| |]; cbn [rxStep].
  - unfold NewProducer. by destruct (_ !! _).
  - unfold Push. destruct (sprods s !! pid) as [p|]; [|done]. destruct frame as [f|]; [|done]. destruct (_ =? _)%nat; [|done].
    unfold Flush. cbn [set_prods sprods]. rewrite lookup_insert_eq. unfold enqueue. cbn.
    destruct (default [] (pbatch p) ++ _); [done|]. destruct (sclosing s); [cbn; by eexists|done].
  - unfold Flush. destruct (sprods s !! pid) as [[fec g [frames|]]|]; [|done..]. destruct frames; [done|].
    unfold enqueue. cbn. destruct (sclosing s); [cbn; by eexists|done].
  - unfold sendWaiting. destruct (_ !! _); [|done]. by destruct (_ <? _)%nat.
  - unfold advanceEpoch, enqueue. destruct (sclosing s) eqn:E; [done|]. cbn. by rewrite ?E.
  - unfold Close. by destruct (swaiting s).
  - unfold runWork. destruct (sdone s); [done|]. destruct (squeue s); [done|].
    etransitivity; [|apply process_rec]. done.
  - unfold runExpire. destruct (sdone s); [done|]. destruct (ExpireGapActor _ _ _ _). cbn. by eexists.
  - unfold runDrain. destruct (_ && _); [cbn; by eexists|done].
  - unfold runOutput. destruct (outWorkerStep _ _) as [[[rb out] fr]|]; [cbn; by eexists|done].
Qed.

Lemma rxExec_snoc owned decs ops op : rxExec owned decs (ops ++ [op]) = rxStep (rxExec owned decs ops) op.
Proof. unfold rxExec. by rewrite fold_left_app. Qed.

Lemma rxExec_inv lo owned decs ops : 0 < lo -> Forall (okRxOp lo) ops ->
  Forall (fun r => okSeq lo r.1) (srec (rxExec owned decs ops)) -> rx_inv lo owned (rxExec owned decs ops).
Proof.
  intros Hlo. induction ops as [|op ops IH] using rev_ind; intros HF HR.
  - split; [by apply new_ok|done|constructor|constructor|apply map_Forall_empty|].
    unfold rxHeld, holding. cbn [rxExec fold_left newRXSessionWorker sreorder squeue swaiting sprods sfreed sout srec spushed].
    unfold prodsFrames. rewrite map_to_list_empty. cbn [newActorReorderBuffer newReorder ring rpending outChan].
    assert (forall n, omap id (replicate n (@None bytes)) = []) as -> by (induction n; auto). by destruct owned.
  - rewrite rxExec_snoc in *. apply Forall_app in HF as [HF Hop]. apply Forall_cons_1 in Hop as [Hop _].
    apply rxStep_inv; auto. apply IH; [done|]. destruct (rxStep_rec (rxExec owned decs ops) op) as [l Hl]. rewrite Hl in HR.
    by apply Forall_app in HR as [? _].
Qed.

(** C7: No buffer of the receive path leaks or is freed twice.  Over any interleaving
    of producers, blocked senders, the worker, epoch changes, gap timeouts, failed
    batches, deliveries and shutdown, the buffers pushed by the connections and those
    the decoder recovered are exactly (as a multiset) the ones given back, handed to
    the owning callback, or still in a producer, the queue or the reorder buffer. *)
Theorem rx_frames_conserved (lo : Z) (owned : bool) (decs : gmap nat fecDecoder) (ops : list rxOp) :
  0 < lo -> Forall (okRxOp lo) ops -> Forall (fun r => okSeq lo r.1) (srec (rxExec owned decs ops)) ->
  rxHeld owned (rxExec owned decs ops) ≡ₚ spushed (rxExec owned decs ops) ++ (srec (rxExec owned decs ops)).*2.
Proof. intros Hlo HF HR. apply (rxExec_inv lo owned decs ops Hlo HF HR). Qed.

(** ** Epoch isolation *)

(** [s'] comes later than [s]: generations grow, the batches applied in between are
    of the generations in force, and producers keep theirs. *)
Record later (s s' : rxSys) : Prop := {
  l_gen : sgeneration s <= sgeneration s';
  l_log : exists l, slog s' = slog s ++ l /\ Forall (fun e => sgeneration s <= e.1.1 /\ e.1.1 = e.1.2) l;
  l_prods : forall pid p, sprods s !! pid = Some p -> exists p', sprods s' !! pid = Some p' /\ pgeneration p' = pgeneration p
}.

#[export] Instance later_pre : PreOrder later.
Proof.
  split.
  - intros s. split; [lia| |by eauto]. exists []. by rewrite app_nil_r.
  - intros a b c [A1 (l1 & A2 & A2') A3] [B1 (l2 & B2 & B2') B3]. split; [lia| |].
    + exists (l1 ++ l2). rewrite B2, A2, app_assoc. split; [done|]. apply Forall_app. split; [done|].
      eapply Forall_impl; [exact B2'|]. cbn. intros e ?. lia.
    + intros pid p Hp. destruct (A3 pid p Hp) as (p1 & H1 & <-). destruct (B3 pid p1 H1) as (p2 & H2 & <-). eauto.
Qed.

(** Steps that touch neither the generation nor the log. *)
Lemma later_frame s s' : sgeneration s' = sgeneration s -> slog s' = slog s ->
  (forall pid p, sprods s !! pid = Some p -> exists p', sprods s' !! pid = Some p' /\ pgeneration p' = pgeneration p) -> later s s'.
Proof. intros H1 H2 H3. split; [lia| |done]. exists []. by rewrite app_nil_r, H2. Qed.

Lemma keep_prods (ps : gmap nat rxBatchProducer) pid p p0 : ps !! pid = Some p0 -> pgeneration p = pgeneration p0 ->
  forall k q, ps !! k = Some q -> exists q', <[pid := p]> ps !! k = Some q' /\ pgeneration q' = pgeneration q.
Proof.
  intros H0 Hg k q Hk. destruct (decide (pid = k)) as [<-|Hne].
  - rewrite lookup_insert_eq. exists p. split; [done|]. congruence.
  - rewrite lookup_insert_ne by done. eauto.
Qed.

Record gen_inv (n : Z) (s : rxSys) : Prop := {
  g_range : 1 <= sgeneration s <= 1 + n;
  g_prods : map_Forall (fun _ p => pgeneration p <= sgeneration s) (sprods s);
  g_works : Forall (fun w => match w with WBatch b => bgeneration b <= sgeneration s | _ => True end) (squeue s ++ swaiting s)
}.

Lemma Flush_later s pid : later s (Flush pid s).
Proof.
  unfold Flush. destruct (sprods s !! pid) as [[fec g [frames|]]|] eqn:E; [|done..].
  pose proof (keep_prods _ _ (mkProducer fec g None) _ E eq_refl) as HK.
  destruct frames; [by apply later_frame|]. unfold enqueue. cbn [set_prods sclosing]. destruct (sclosing s).
  - apply later_frame; [done| |done]. cbn. by rewrite app_nil_r.
  - by apply later_frame.
Qed.

Lemma process_later clk tc w s : later s (process clk tc w s).
Proof.
  destruct w as [b|reset fec]; cbn [process].
  - destruct (bgeneration b =? sgeneration s) eqn:E; cbn [negb].
    + apply Z.eqb_eq in E. destruct (processFrames _ _ _ _ _ _) as [a e]. split; [cbn; lia| |eauto].
      exists [(bgeneration b, sgeneration s, e)]. split; [done|]. constructor; [cbn; lia|done].
    + apply later_frame; [done| |eauto]. cbn. by rewrite app_nil_r.
  - destruct reset; [|done]. destruct (ResetActorRB _) as [rb fr]. apply later_frame; [done| |eauto]. cbn. by rewrite app_nil_r.
Qed.

Lemma rxStep_later s op : 0 <= sgeneration s < 2 ^ 64 - 1 -> later s (rxStep s op).
Proof.
  intros Hg. destruct op as [pid fec|pid q frame|pid|k|reset fec| |clk tc|tc now now'| |]; cbn [rxStep].
  - unfold NewProducer. destruct (sprods s !! pid) eqn:E; [done|]. apply later_frame; [done|done|].
    intros k p Hk. cbn. rewrite lookup_insert_ne by congruence. eauto.
  - unfold Push. destruct (sprods s !! pid) as [p|] eqn:E; [|done]. destruct frame as [f|]; [|done].
    set (s1 := set_prods _ [f] s). assert (later s s1) as H1.
    { apply later_frame; [done|done|]. by apply (keep_prods _ _ _ _ E). }
    destruct (_ =? _)%nat; [|done]. etransitivity; [exact H1|]. apply Flush_later.
  - apply Flush_later.
  - unfold sendWaiting. destruct (_ !! _); [|done]. destruct (_ <? _)%nat; [|done]. apply later_frame; eauto.
  - unfold advanceEpoch, enqueue. destruct (sclosing s) eqn:E; [done|]. cbn [sclosing set_chan]; rewrite ?E; cbn [fst].
    split; [| |eauto].
    + cbn. rewrite u64_small by (widths; lia). lia.
    + exists []. by rewrite app_nil_r.
  - unfold Close. destruct (swaiting s); [|done]. apply later_frame; eauto.
  - unfold runWork. destruct (sdone s); [done|]. destruct (squeue s); [done|].
    etransitivity; [|apply process_later]. apply later_frame; eauto.
  - unfold runExpire. destruct (sdone s); [done|]. destruct (ExpireGapActor _ _ _ _). apply later_frame; [done| |eauto]. cbn. by rewrite app_nil_r.
  - unfold runDrain. destruct (_ && _); [|done]. apply later_frame; [done| |eauto]. cbn. by rewrite app_nil_r.
  - unfold runOutput. destruct (outWorkerStep _ _) as [[[rb out] fr]|]; [|done]. apply later_frame; [done| |eauto]. cbn. by rewrite app_nil_r.
Qed.

(** Only an advance changes the generation. *)
Lemma Flush_gen n s pid : gen_inv n s -> gen_inv n (Flush pid s).
Proof.
  intros [G1 G2 G3]. unfold Flush. destruct (sprods s !! pid) as [[fec g [frames|]]|] eqn:E; [|by split..].
  pose proof (map_Forall_lookup_1 _ _ _ _ G2 E) as Hg. cbn in Hg.
  assert (map_Forall (fun _ p => pgeneration p <= sgeneration s) (<[pid := mkProducer fec g None]> (sprods s))) as G2'
    by (by apply map_Forall_insert_2).
  destruct frames; [by split|]. unfold enqueue. cbn [set_prods sclosing]. destruct (sclosing s); [by split|].
  split; [done|done|]. cbn. rewrite app_assoc. apply Forall_app. split; [done|]. by constructor.
Qed.

Lemma rxStep_gen n s op : 0 <= n < 2 ^ 64 - 2 -> gen_inv n s -> gen_inv (n + 1) (rxStep s op).
Proof.
  intros Hn HG. assert (gen_inv (n + 1) s) as HG1 by (destruct HG; split; auto; lia).
  pose proof HG1 as [G1 G2 G3]. destruct op as [pid fec|pid q frame|pid|k|reset fec| |clk tc|tc now now'| |]; cbn [rxStep].
  - unfold NewProducer. destruct (sprods s !! pid) eqn:E; [done|]. split; [done| |done]. apply map_Forall_insert_2; [cbn; lia|done].
  - unfold Push. destruct (sprods s !! pid) as [p|] eqn:E; [|done]. destruct frame as [f|]; [|done].
    assert (forall p', pgeneration p' = pgeneration p -> gen_inv (n + 1) (set_prods (<[pid := p']> (sprods s)) [f] s)) as H1.
    { intros p' Hp. split; [done| |done]. apply map_Forall_insert_2; [|done]. cbn. rewrite Hp. by apply (map_Forall_lookup_1 _ _ _ _ G2 E). }
    destruct (_ =? _)%nat; [apply Flush_gen|]; by apply H1.
  - by apply Flush_gen.
  - unfold sendWaiting. destruct (swaiting s !! k) as [w|] eqn:E; [|done]. destruct (_ <? _)%nat; [|done].
    split; [done|done|]. cbn. apply Forall_app in G3 as [G3 G4]. rewrite !Forall_app. split_and!; [done| |by apply Forall_delete].
    constructor; [|done]. by apply (Forall_lookup_1 _ _ _ _ G4 E).
  - unfold advanceEpoch, enqueue. destruct (sclosing s) eqn:E; [done|]. cbn [sclosing set_chan]; rewrite ?E; cbn [fst].
    assert (u64 (sgeneration s + 1) = sgeneration s + 1) as HU by (apply u64_small; destruct HG as [? _ _]; widths; lia).
    split; cbn; rewrite ?HU.
    + destruct HG as [? _ _]. lia.
    + eapply map_Forall_impl; [exact G2|]. cbn. lia.
    + rewrite app_assoc. apply Forall_app. split; [|by repeat constructor]. eapply Forall_impl; [exact G3|]. intros [b|]; [lia|done].
  - unfold Close. destruct (swaiting s) eqn:E; [|done]. by split.
  - unfold runWork. destruct (sdone s); [done|]. destruct (squeue s) as [|w q] eqn:E; [done|].
    assert (forall rb decs fr rec log d, gen_inv (n + 1) (set_seq rb decs fr [] rec log (set_chan (sgeneration s) q (swaiting s) (sclosing s) d s))) as H1.
    { intros. split; [done|done|]. cbn. by apply Forall_cons_1 in G3 as [_ ?]. }
    assert (forall d, gen_inv (n + 1) (set_chan (sgeneration s) q (swaiting s) (sclosing s) d s)) as H2.
    { intros. split; [done|done|]. cbn. by apply Forall_cons_1 in G3 as [_ ?]. }
    unfold process. destruct w as [b|reset fec].
    + destruct (negb _); [apply H1|]. destruct (processFrames _ _ _ _ _ _). apply H1.
    + destruct reset; [|apply H2]. destruct (ResetActorRB _). apply H1.
  - unfold runExpire. destruct (sdone s); [done|]. destruct (ExpireGapActor _ _ _ _). by split.
  - unfold runDrain. destruct (_ && _); [|done]. split; [done|done|]. cbn. by apply Forall_app in G3 as [_ ?].
  - unfold runOutput. destruct (outWorkerStep _ _) as [[[rb out] fr]|]; [|done]. by split.
Qed.

Lemma fold_gen_later ops : forall n s, gen_inv n s -> 0 <= n -> n + lenZ ops < 2 ^ 64 - 1 ->
  gen_inv (n + lenZ ops) (fold_left rxStep ops s) /\ later s (fold_left rxStep ops s).
Proof.
  induction ops as [|op ops IH]; intros n s HG Hn HL.
  - unfold lenZ. cbn. by rewrite Z.add_0_r.
  - assert (lenZ (op :: ops) = 1 + lenZ ops) as HE by (unfold lenZ; cbn [length]; lia). rewrite HE in *.
    assert (0 <= lenZ ops) by (unfold lenZ; lia).
    destruct (IH (n + 1) (rxStep s op)) as [I1 I2]; [apply rxStep_gen; [lia|done]|lia|lia|].
    cbn [fold_left]. rewrite Z.add_assoc. split; [done|]. etransitivity; [|exact I2].
    apply rxStep_later. destruct HG as [? _ _]. lia.
Qed.

(** C8: Epochs do not mix.  When a session advances its epoch, whatever was read
    before (in producers' batches, in blocked senders, in the queue) and whatever the
    connections of the old epoch still push is of an older generation, and no batch
    applied from then on is: each carries a generation above the old one, the one in
    force when it is applied. *)
Theorem rx_epoch_isolation (owned : bool) (decs : gmap nat fecDecoder) (ops1 ops2 : list rxOp) (reset : bool) (fec : option nat) :
  let s1 := rxExec owned decs ops1 in
  let s2 := rxExec owned decs (ops1 ++ OAdvance reset fec :: ops2) in
  lenZ ops1 + lenZ ops2 < 2 ^ 63 -> sclosing s1 = false ->
  Forall (fun w => match w with WBatch b => bgeneration b <= sgeneration s1 | _ => True end) (squeue s1 ++ swaiting s1) /\
  (forall pid p, sprods s1 !! pid = Some p ->
     pgeneration p <= sgeneration s1 /\ exists p', sprods s2 !! pid = Some p' /\ pgeneration p' = pgeneration p) /\
  exists l, slog s2 = slog s1 ++ l /\ Forall (fun e => sgeneration s1 < e.1.1 /\ e.1.1 = e.1.2) l.
Proof.
  intros s1 s2 HL Hc. assert (0 <= lenZ ops1 /\ 0 <= lenZ ops2) as [H1 H2] by (unfold lenZ; lia).
  destruct (fold_gen_later ops1 0 (newRXSessionWorker owned decs)) as [G1 _]; [|lia|lia|].
  { split; [cbn; lia|apply map_Forall_empty|constructor]. }
  rewrite Z.add_0_l in G1. fold (rxExec owned decs ops1) in G1. fold s1 in G1.
  set (s1' := rxStep s1 (OAdvance reset fec)).
  assert (s2 = fold_left rxStep ops2 s1') as Hs2 by (unfold s2, rxExec; by rewrite fold_left_app).
  assert (sgeneration s1' = sgeneration s1 + 1 /\ slog s1' = slog s1 /\ sprods s1' = sprods s1) as (A1 & A2 & A3).
  { unfold s1'. cbn [rxStep]. unfold advanceEpoch, enqueue. rewrite Hc. cbn; rewrite ?Hc; cbn. split; [|done].
    apply u64_small. destruct G1 as [? _ _]. widths; lia. }
  destruct (fold_gen_later ops2 (lenZ ops1 + 1) s1') as [_ [L1 (l & L2 & L3) L4]]; [apply rxStep_gen; [lia|done]|lia|lia|].
  rewrite <- Hs2 in *. destruct G1 as [_ G2 G3]. split; [done|]. split.
  - intros pid p Hp. split; [by apply (map_Forall_lookup_1 _ _ _ _ G2 Hp)|]. apply L4. by rewrite A3.
  - exists l. rewrite <- A2. split; [done|]. eapply Forall_impl; [exact L3|]. intros e [? ?]. split; [lia|done].
Qed.

(** ** Witnesses *)

Definition demoRxOps : list rxOp :=
  [ONewProducer 0 (Some 7%nat); OPush 0 1 (Some [1; 2]); OPush 0 0 (Some [9]); OPush 0 2 (Some [3]); OFlush 0; OSend 0;
   OWork (fun _ => 0) (fun _ => false); OPush 0 2 (Some [3]); OFlush 0; OSend 0].
Definition demoDecs : gmap nat fecDecoder := {[7%nat := NewFECDecoder 2 None false]}.

Lemma rx_frames_conserved_witness : rxHeld true (rxExec true demoDecs demoRxOps) ≡ₚ [[1; 2]; [9]; [3]; [3]].
Proof.
  apply (rx_frames_conserved 1 true demoDecs demoRxOps); [lia| |].
  - repeat (constructor; [first [exact I | left; reflexivity | right; by vm_compute]|]). constructor.
  - apply (bool_decide_unpack _). vm_compute. exact I.
Defined.

Lemma rx_epoch_isolation_witness :
  let s1 := rxExec true demoDecs demoRxOps in
  let s2 := rxExec true demoDecs (demoRxOps ++ OAdvance true (Some 7%nat) :: [OWork (fun _ => 0) (fun _ => false)]) in
  exists l, slog s2 = slog s1 ++ l /\ Forall (fun e => sgeneration s1 < e.1.1 /\ e.1.1 = e.1.2) l.
Proof.
  apply (rx_epoch_isolation true demoDecs demoRxOps [OWork (fun _ => 0) (fun _ => false)] true (Some 7%nat)); by vm_compute.
Defined.
