(* ===== verification/Scheduler.v ===== *)
(** * Multipath scheduler (adaptive_multipath.go, the pickers of client.go)

    The physical connections behind a send port, their accounting, and the choice of
    the connection for the next batch: the adaptive picker with its active set and
    byte-fair service debt, the MinRTT picker with hysteresis, and the picker for
    parity records.  A pointer to a backend is its identity [bid]; the fields that the
    code keeps behind the pointer are those of the record with that identity.
    Counters wrap as the machine integers do.  The quotient that the code computes in
    float64 ([uint64(float64(bytes) / elapsed.Seconds())]) is the parameter
    [perSecond]: no theorem depends on its rounding. *)

From stdpp Require Import base tactics list numbers sorting sets.
From S2P Require Import Prelude Frame.
#[local] Open Scope Z_scope.

(** The ownership unit between a port and a connection. *)
Record VPNFrameBatch := mkOwned { Frames : list VPNFrame; Bytes : Z }.

Definition getOwnedVPNFrameBatch : VPNFrameBatch := mkOwned [] 0.

Definition appendOwnedVPNFrame (b : VPNFrameBatch) (vf : VPNFrame) : VPNFrameBatch :=
  mkOwned (Frames b ++ [vf]) (u64 (Bytes b + lenZ (Data vf))).

Definition vpnFrameBatchBytes (l : list VPNFrame) : Z := fold_left (fun n vf => u64 (n + lenZ (Data vf))) l 0.

Record Backend := mkBackend {
  bid : nat;
  bcap : Z;
  bqueue : list VPNFrameBatch;
  rttCache : Z;
  carryPending : bool;
  queuedBytes : Z;
  rateBytesPerSec : Z;
  rateSampleBytes : Z;
  rateSampleStart : option Z;
  etaUsec : Z;
  active : bool;
  virtualFinishNS : Z;
  assignedBytes : Z;
  assignedBatches : Z;
  fecAssignedBytes : Z;
  fecAssignedBatches : Z;
  fecFenceGen : Z
}.

Definition newBackend (id : nat) (capacity rtt : Z) : Backend :=
  mkBackend id capacity [] rtt false 0 0 0 None 0 false 0 0 0 0 0 0.

(** Updates of the fields that change together. *)
Definition set_q (q : list VPNFrameBatch) (n : Z) (b : Backend) : Backend :=
  mkBackend (bid b) (bcap b) q (rttCache b) (carryPending b) n (rateBytesPerSec b) (rateSampleBytes b) (rateSampleStart b)
    (etaUsec b) (active b) (virtualFinishNS b) (assignedBytes b) (assignedBatches b) (fecAssignedBytes b) (fecAssignedBatches b) (fecFenceGen b).
Definition set_link (rtt : Z) (carry : bool) (b : Backend) : Backend :=
  mkBackend (bid b) (bcap b) (bqueue b) rtt carry (queuedBytes b) (rateBytesPerSec b) (rateSampleBytes b) (rateSampleStart b)
    (etaUsec b) (active b) (virtualFinishNS b) (assignedBytes b) (assignedBatches b) (fecAssignedBytes b) (fecAssignedBatches b) (fecFenceGen b).
Definition set_rate (rate bytes : Z) (start : option Z) (b : Backend) : Backend :=
  mkBackend (bid b) (bcap b) (bqueue b) (rttCache b) (carryPending b) (queuedBytes b) rate bytes start
    (etaUsec b) (active b) (virtualFinishNS b) (assignedBytes b) (assignedBatches b) (fecAssignedBytes b) (fecAssignedBatches b) (fecFenceGen b).
Definition set_sched (eta : Z) (act : bool) (virt : Z) (b : Backend) : Backend :=
  mkBackend (bid b) (bcap b) (bqueue b) (rttCache b) (carryPending b) (queuedBytes b) (rateBytesPerSec b) (rateSampleBytes b) (rateSampleStart b)
    eta act virt (assignedBytes b) (assignedBatches b) (fecAssignedBytes b) (fecAssignedBatches b) (fecFenceGen b).
Definition set_assigned (ab an fb fn : Z) (b : Backend) : Backend :=
  mkBackend (bid b) (bcap b) (bqueue b) (rttCache b) (carryPending b) (queuedBytes b) (rateBytesPerSec b) (rateSampleBytes b) (rateSampleStart b)
    (etaUsec b) (active b) (virtualFinishNS b) ab an fb fn (fecFenceGen b).
Definition set_fence (g : Z) (b : Backend) : Backend :=
  mkBackend (bid b) (bcap b) (bqueue b) (rttCache b) (carryPending b) (queuedBytes b) (rateBytesPerSec b) (rateSampleBytes b) (rateSampleStart b)
    (etaUsec b) (active b) (virtualFinishNS b) (assignedBytes b) (assignedBatches b) (fecAssignedBytes b) (fecAssignedBatches b) g.

(** ** Queues and their accounting *)

Definition queueLen (b : Backend) : Z := lenZ (bqueue b).
Definition queueCap (b : Backend) : Z := bcap b.
Definition queueHasRoom (b : Backend) : bool := (0 <? queueCap b) && (queueLen b <? queueCap b).

(** The loop of atomicSubSaturating ends with the value that one uncontended turn stores. *)
Definition atomicSubSaturating (old n : Z) : Z := if old =? 0 then 0 else if n <? old then old - n else 0.

Definition addQueuedBytes (n : Z) (b : Backend) : Backend :=
  if n =? 0 then b else set_q (bqueue b) (u64 (queuedBytes b + n)) b.
Definition completeQueuedBytes (n : Z) (b : Backend) : Backend :=
  if n =? 0 then b else set_q (bqueue b) (atomicSubSaturating (queuedBytes b) n) b.

(** tryQueueOwnedBatch on the channel of the production path. *)
Definition tryQueueOwnedBatch (batch : VPNFrameBatch) (b : Backend) : Backend * bool :=
  if queueHasRoom b then (set_q (bqueue b ++ [batch]) (queuedBytes b) b, true) else (b, false).

Definition adaptiveFallbackRateBytesPerSec : Z := 25000000.
Definition adaptiveRateSampleMinBytes : Z := 64 * 1024.
Definition adaptiveRateSampleMaxInterval : Z := 2 * 1000000000.
Definition adaptiveDemandSampleMinInterval : Z := 500 * 1000.
Definition adaptiveUnknownRTTUS : Z := 50000.
Definition adaptiveCarryBonusUS : Z := 150.
Definition adaptiveStickyMinUS : Z := 500.
Definition adaptiveStickyMaxUS : Z := 5000.
Definition backendRTTHysteresisMin : Z := 5000.
Definition maxUint32 : Z := 2 ^ 32 - 1.

(** The delivery-rate estimate; [now] is the clock in nanoseconds. *)
Definition observeDelivered (perSecond : Z -> Z -> Z) (now n : Z) (b : Backend) : Backend :=
  if n =? 0 then b else
  let bytes := u64 (rateSampleBytes b + n) in
  match rateSampleStart b with
  | None => set_rate (rateBytesPerSec b) bytes (Some now) b
  | Some start =>
    if bytes <? adaptiveRateSampleMinBytes then set_rate (rateBytesPerSec b) bytes (Some start) b else
    let elapsed := now - start in
    if adaptiveRateSampleMaxInterval <? elapsed then set_rate (rateBytesPerSec b) 0 (Some now) b else
    if elapsed <? 200 * 1000 then set_rate (rateBytesPerSec b) bytes (Some start) b else
    let inst := perSecond bytes elapsed in
    if inst =? 0 then set_rate (rateBytesPerSec b) bytes (Some start) b else
    let old := rateBytesPerSec b in
    set_rate (if old =? 0 then inst else u64 (u64 (old * 7) + inst) / 8) 0 (Some now) b
  end.

(** ** Quality of a path *)

Definition effectiveRateBytesPerSec (b : Backend) : Z :=
  if rateBytesPerSec b =? 0 then adaptiveFallbackRateBytesPerSec else rateBytesPerSec b.

Definition serviceTimeUS (bytes rate : Z) : Z :=
  if bytes =? 0 then 0 else
  let rate := if rate =? 0 then adaptiveFallbackRateBytesPerSec else rate in
  u64 (bytes * 1000000) / rate.

Definition serviceTimeNS (bytes rate : Z) : Z :=
  if bytes =? 0 then 0 else
  let rate := if rate =? 0 then adaptiveFallbackRateBytesPerSec else rate in
  s64 (u64 (bytes * 1000000000) / rate).

(** The RTT and whether it is still unknown. *)
Definition adaptiveBackendRTT (b : Backend) : Z * bool :=
  if (rttCache b =? 0) || (rttCache b =? adaptiveUnknownRTTUS) then (adaptiveUnknownRTTUS, true) else (rttCache b, false).

Definition minusCarry (b : Backend) (eta : Z) : Z :=
  if carryPending b && (adaptiveCarryBonusUS <? eta) then eta - adaptiveCarryBonusUS else eta.

Definition baseQualityUS (incoming : Z) (b : Backend) : Z :=
  u64 ((adaptiveBackendRTT b).1 / 2 + serviceTimeUS incoming (effectiveRateBytesPerSec b)).

Definition estimatedETAUS (incoming : Z) (b : Backend) : Z :=
  minusCarry b (u64 ((adaptiveBackendRTT b).1 / 2 + serviceTimeUS (u64 (queuedBytes b + incoming)) (effectiveRateBytesPerSec b))).

Definition schedulingETAUS : Z -> Backend -> Z := estimatedETAUS.

Definition addVirtualServiceAtRate (incoming rate : Z) (b : Backend) : Backend :=
  if incoming =? 0 then b
  else set_sched (etaUsec b) (active b) (s64 (virtualFinishNS b + serviceTimeNS incoming rate)) b.

Definition logicalDispatchScoreNS (b : Backend) (rate : Z) : Z :=
  let score := s64 (virtualFinishNS b + serviceTimeNS (queuedBytes b) rate) in
  if carryPending b then s64 (score - adaptiveCarryBonusUS * 1000) else score.

Definition adaptiveActivePathTarget (pressure demandRate eligible : Z) : Z :=
  if eligible <=? 0 then 0 else
  let want :=
    if (256 * 1024 <=? pressure) || (180000000 <=? demandRate) then 4
    else if (96 * 1024 <=? pressure) || (100000000 <=? demandRate) then 3
    else if (24 * 1024 <=? pressure) || (40000000 <=? demandRate) then 2 else 1 in
  if eligible <? want then eligible else want.

Definition adaptiveStickySlackUS (rtt : Z) : Z :=
  let slack := rtt / 16 in
  let slack := if slack <? adaptiveStickyMinUS then adaptiveStickyMinUS else slack in
  if adaptiveStickyMaxUS <? slack then adaptiveStickyMaxUS else slack.

(** ** MinRTT with hysteresis *)

(** The score of a backend, or None when its queue is (nearly) full. *)
Definition backendScore (b : Backend) : option Z :=
  let qLen := queueLen b in
  if (queueCap b =? 0) || (queueCap b - 2 <=? qLen) then None else
  let penalty := if 10 <? qLen then (qLen - 10) * 1000 else 0 in
  let score := rttCache b + penalty in
  Some (if maxUint32 <? score then maxUint32 else score).

Definition findB (i : nat) (bs : list Backend) : option Backend := head (filter (fun b => bid b = i) bs).

Fixpoint minScore (bs : list Backend) (best : option Backend) (m : Z) : option Backend * Z :=
  match bs with
  | [] => (best, m)
  | b :: bs =>
    match backendScore b with
    | None => minScore bs best m
    | Some score => if score <? m then minScore bs (Some b) score else minScore bs best m
    end
  end.

(** pickBackend on a list that is not empty; the result is also the new preferred backend. *)
Definition pickBackend (bs : list Backend) (preferred : option nat) : option nat :=
  match minScore bs None maxUint32 with
  | (None, _) => bid <$> head bs
  | (Some best, m) =>
    match preferred ≫= (fun i => if bool_decide (i = bid best) then None else findB i bs) with
    | None => Some (bid best)
    | Some cur =>
      match backendScore cur with
      | None => Some (bid best)
      | Some s => if s <=? m + Z.max backendRTTHysteresisMin (rttCache cur / 8) then Some (bid cur) else Some (bid best)
      end
    end
  end.

(** The list from the round-robin cursor on. *)
Definition rotated {A} (start : nat) (l : list A) : list A := drop start l ++ take start l.

Definition cursor (next : Z) (bs : list Backend) : nat := Z.to_nat (next mod lenZ bs).

(** pickDataBackendFor: result, new preferred backend and new cursor. *)
Definition pickDataBackendFor (bs : list Backend) (bulk : bool) (preferred : option nat) (dataNext : Z) : option nat * option nat * Z :=
  let best := pickBackend bs preferred in
  if (lenZ bs <? 2) || negb bulk then (best, best, dataNext) else
  match best ≫= (fun i => findB i bs) with
  | None => (best, best, dataNext)
  | Some bb =>
    let slack := Z.max backendRTTHysteresisMin (rttCache bb / 4) in
    let maxRTT := rttCache bb + slack in
    let maxScore := default maxUint32 (backendScore bb) + slack in
    let near b := match backendScore b with Some s => (rttCache b <=? maxRTT) && (s <=? maxScore) | None => false end in
    match filter (fun b => near b = true) (rotated (cursor dataNext bs) bs) with
    | b :: _ => (Some (bid b), best, u32 (dataNext + 1))
    | [] => (best, best, u32 (dataNext + 1))
    end
  end.

Definition multipathStripeBacklog : Z := 64.

Definition pickDataBackend (queued : Z) (bs : list Backend) (preferred : option nat) (dataNext : Z) : option nat * option nat * Z :=
  pickDataBackendFor bs (multipathStripeBacklog <=? queued) preferred dataNext.

Definition scored (b : Backend) : bool := match backendScore b with Some _ => true | None => false end.

(** pickParityBackend: result and new cursor. *)
Definition pickParityBackend (bs : list Backend) (dataBest : option nat) (parityNext : Z) : option nat * Z :=
  match bs with
  | [] => (None, parityNext)
  | _ =>
    let ring := rotated (cursor parityNext bs) bs in
    let other := if 1 <? lenZ bs then head (filter (fun b => Some (bid b) <> dataBest /\ scored b = true) ring) else None in
    let own := dataBest ≫= (fun i => head (filter (fun b => bid b = i /\ scored b = true) bs)) in
    let any := head (filter (fun b => scored b = true) ring) in
    (match other, own, any with
     | Some b, _, _ => Some (bid b)
     | None, Some b, _ => Some (bid b)
     | None, None, Some b => Some (bid b)
     | None, None, None => bid <$> head ring
     end, u32 (parityNext + 1))
  end.

(** ** The adaptive picker *)

(** The queue is full up to the two slots kept in reserve. *)
Definition unhealthy (b : Backend) : bool := (queueCap b =? 0) || (queueCap b - 2 <=? queueLen b).

(** A path without a usable RTT or without a measured rate. *)
Definition fairStart (b : Backend) : bool := (adaptiveBackendRTT b).2 || (rateBytesPerSec b =? 0).

Definition minMeasuredRTT (bs : list Backend) : Z :=
  fold_left (fun m b => if unhealthy b || fairStart b then m
                        else if (adaptiveBackendRTT b).1 <? m then (adaptiveBackendRTT b).1 else m) bs maxUint32.

Definition minRTTOf (bs : list Backend) : Z :=
  let m := minMeasuredRTT bs in if m =? maxUint32 then adaptiveUnknownRTTUS else m.

Definition maxRTTOf (bs : list Backend) : Z :=
  let m := minRTTOf bs in m + Z.max backendRTTHysteresisMin (m / 4).

(** A measured path outside the envelope around the best RTT. *)
Definition tooFar (maxRTT : Z) (b : Backend) : bool := negb (fairStart b) && (maxRTT <? (adaptiveBackendRTT b).1).

Definition referenceRateOf (maxRTT : Z) (bs : list Backend) : Z :=
  fold_left (fun r b => if tooFar maxRTT b then r else if r <? rateBytesPerSec b then rateBytesPerSec b else r)
    bs adaptiveFallbackRateBytesPerSec.

Record backendCandidate := mkCand {
  cid : nat;
  baseUS : Z;
  etaUS : Z;
  rttUS : Z;
  schedRate : Z;
  wasActive : bool;
  virtualNS : Z
}.

Definition consider (minRTT maxRTT ref incoming : Z) (b : Backend) : Backend * option backendCandidate :=
  if unhealthy b || tooFar maxRTT b then (set_sched (etaUsec b) false 0 b, None) else
  let rtt := if fairStart b then minRTT else (adaptiveBackendRTT b).1 in
  let etaRate := if rateBytesPerSec b =? 0 then ref else rateBytesPerSec b in
  let eta := minusCarry b (u64 (rtt / 2 + serviceTimeUS (u64 (queuedBytes b + incoming)) etaRate)) in
  (set_sched eta (active b) (virtualFinishNS b) b,
   Some (mkCand (bid b) (u64 (rtt / 2 + serviceTimeUS incoming adaptiveFallbackRateBytesPerSec)) eta rtt
           adaptiveFallbackRateBytesPerSec (active b) (virtualFinishNS b))).

(** The insertion sort of the candidates; the sorted prefix is kept reversed. *)
Definition before (x y : backendCandidate) : bool :=
  (baseUS x <? baseUS y) || ((baseUS x =? baseUS y) && (rttUS x <? rttUS y)).

Fixpoint siftLeft (x : backendCandidate) (prefix : list backendCandidate) : list backendCandidate :=
  match prefix with
  | y :: r => if before x y then y :: siftLeft x r else x :: prefix
  | [] => [x]
  end.

Definition sortCands (cs : list backendCandidate) : list backendCandidate :=
  rev (fold_left (fun acc x => siftLeft x acc) cs []).

(** The state of the port that the picker writes. *)
Record pick := mkPick { pbs : list Backend; pactive : Z; ppref : option nat; pchosen : option nat }.

Definition onlyActive (i : nat) (b : Backend) : Backend := set_sched (etaUsec b) (bool_decide (bid b = i)) 0 b.

Definition pickSingle (cs : list backendCandidate) (current : option nat) (bs : list Backend) : pick :=
  let best := hd (mkCand 0 0 0 0 0 false 0) cs in
  let chosen := match current ≫= (fun i => head (filter (fun c => cid c = i) cs)) with
                | Some c => if negb (bool_decide (cid c = cid best)) && (baseUS c <=? u64 (baseUS best + adaptiveStickySlackUS (rttUS c)))
                            then cid c else cid best
                | None => cid best
                end in
  mkPick (onlyActive chosen <$> bs) 1 (Some chosen) (Some chosen).

(** The least virtual time of the candidates that were active before, or 0. *)
Definition epochOf (cs : list backendCandidate) : Z :=
  default 0 (fold_left (fun e c => if wasActive c then
                                     match e with Some m => Some (if virtualNS c <? m then virtualNS c else m) | None => Some (virtualNS c) end
                                   else e) cs None).

Definition joinActive (act rest : list backendCandidate) (epoch : Z) (b : Backend) : Backend :=
  match head (filter (fun c => cid c = bid b) act) with
  | Some c => set_sched (etaUsec b) true (if wasActive c then virtualFinishNS b else epoch) b
  | None => if bool_decide (bid b ∈ (cid <$> rest)) then set_sched (etaUsec b) false 0 b else b
  end.

Definition virtOf (bs : list Backend) (c : backendCandidate) : Z := default 0 (virtualFinishNS <$> findB (cid c) bs).

Definition minVirtualOf (bs : list Backend) (act : list backendCandidate) : Z :=
  match act with
  | [] => 0
  | c :: cs => fold_left (fun m c => if virtOf bs c <? m then virtOf bs c else m) cs (virtOf bs c)
  end.

Definition rebase (act : list backendCandidate) (m : Z) (b : Backend) : Backend :=
  if negb (m =? 0) && bool_decide (bid b ∈ (cid <$> act)) then set_sched (etaUsec b) (active b) (s64 (virtualFinishNS b - m)) b else b.

Definition scoreOf (bs : list Backend) (c : backendCandidate) : Z :=
  match findB (cid c) bs with Some b => logicalDispatchScoreNS b (schedRate c) | None => 2 ^ 63 - 1 end.

Fixpoint leastScore (bs : list Backend) (cs : list backendCandidate) (chosen : backendCandidate) : backendCandidate :=
  match cs with
  | [] => chosen
  | c :: cs =>
    let better := (scoreOf bs c <? scoreOf bs chosen) || ((scoreOf bs c =? scoreOf bs chosen) && (rttUS c <? rttUS chosen)) in
    leastScore bs cs (if better then c else chosen)
  end.

Definition pickWFQ (n incoming : Z) (cs : list backendCandidate) (bs : list Backend) : pick :=
  let act := take (Z.to_nat n) cs in
  let bs := joinActive act (drop (Z.to_nat n) cs) (epochOf act) <$> bs in
  let bs := rebase act (minVirtualOf bs act) <$> bs in
  let chosen := leastScore bs (tail act) (hd (mkCand 0 0 0 0 0 false 0) act) in
  mkPick ((fun b => if bool_decide (bid b = cid chosen) then addVirtualServiceAtRate incoming (schedRate chosen) b else b) <$> bs)
    n (Some (cid chosen)) (Some (cid chosen)).

(** pickAdaptiveBackend without the notice to the FEC encoder, which the caller gives. *)
Definition pickAdaptiveBackend (bs : list Backend) (pressure demandRate incoming activePaths : Z) (preferred : option nat) : pick :=
  match bs with
  | [] => mkPick [] 0 preferred None
  | b0 :: _ =>
    let bs := (fun b => set_sched (estimatedETAUS incoming b) (active b) (virtualFinishNS b) b) <$> bs in
    if forallb unhealthy bs then mkPick (onlyActive (bid b0) <$> bs) 1 (Some (bid b0)) (Some (bid b0)) else
    let rs := consider (minRTTOf bs) (maxRTTOf bs) (referenceRateOf (maxRTTOf bs) bs) incoming <$> bs in
    let bs := rs.*1 in
    match sortCands (omap snd rs) with
    | [] => let i := pickBackend bs preferred in mkPick bs activePaths i i
    | cs =>
      let n := adaptiveActivePathTarget pressure demandRate (lenZ cs) in
      if n =? 1 then pickSingle cs preferred bs else pickWFQ n incoming cs bs
    end
  end.

(** ** Facts on the pieces *)

Lemma findB_elem i bs b : findB i bs = Some b -> b ∈ bs /\ bid b = i.
Proof.
  unfold findB. intros H. apply head_Some_elem_of in H. apply list_elem_of_filter in H. tauto.
Qed.

Lemma findB_in bs b : NoDup (bid <$> bs) -> b ∈ bs -> findB (bid b) bs = Some b.
Proof.
  unfold findB. induction bs as [|x bs IH]; intros HN Hb; [by apply elem_of_nil in Hb|].
  rewrite fmap_cons, NoDup_cons in HN. destruct HN as [Hx HN]. rewrite filter_cons. apply elem_of_cons in Hb as [->|Hb].
  - by rewrite decide_True.
  - rewrite decide_False; [by apply IH|]. intros E. apply Hx. rewrite E. by apply list_elem_of_fmap_2.
Qed.

Lemma findB_map f i bs : (forall b, bid (f b) = bid b) -> findB i (f <$> bs) = f <$> findB i bs.
Proof.
  intros Hf. unfold findB. induction bs as [|b bs IH]; [done|]. rewrite fmap_cons, !filter_cons, Hf.
  by destruct (decide (bid b = i)).
Qed.

Lemma siftLeft_perm x l : siftLeft x l ≡ₚ x :: l.
Proof. induction l as [|y l IH]; cbn; [done|]. destruct (before x y); [|done]. rewrite IH. apply Permutation_swap. Qed.

Lemma sortCands_perm cs : sortCands cs ≡ₚ cs.
Proof.
  unfold sortCands. rewrite <- Permutation_rev. rewrite <- (app_nil_r cs) at 2. generalize (@nil backendCandidate).
  induction cs as [|c cs IH]; intros acc; [done|]. cbn [fold_left]. rewrite IH, siftLeft_perm. cbn. by rewrite Permutation_middle.
Qed.

Lemma leastScore_elem bs cs c : leastScore bs cs c ∈ c :: cs.
Proof.
  revert c. induction cs as [|x cs IH]; intros c; [by left|]. cbn [leastScore].
  match goal with |- context [leastScore bs cs ?y] => specialize (IH y) end. destruct (_ || _); set_solver.
Qed.

Lemma leastScore_least bs cs c x : x ∈ c :: cs -> scoreOf bs (leastScore bs cs c) <= scoreOf bs x.
Proof.
  revert c x. induction cs as [|y cs IH]; intros c x Hx; [apply list_elem_of_singleton in Hx as ->; cbn; lia|]. cbn [leastScore].
  destruct ((scoreOf bs y <? scoreOf bs c) || _) eqn:E.
  - assert (scoreOf bs y <= scoreOf bs c) by (apply orb_true_iff in E as [E|E]; lia).
    pose proof (IH y y ltac:(by left)). apply elem_of_cons in Hx as [->|Hx]; [lia|by apply IH].
  - apply orb_false_iff in E as [E _]. pose proof (IH c c ltac:(by left)). apply elem_of_cons in Hx as [->|Hx]; [lia|].
    apply elem_of_cons in Hx as [->|Hx]; [lia|]. apply IH. by right.
Qed.

(** The picker changes what the scheduler owns and nothing else of a backend. *)
Definition schedEq (b b' : Backend) : Prop := b' = set_sched (etaUsec b') (active b') (virtualFinishNS b') b.

Lemma schedEq_refl b : schedEq b b.
Proof. by destruct b. Qed.
Lemma schedEq_trans a b c : schedEq a b -> schedEq b c -> schedEq a c.
Proof. unfold schedEq. intros H1 H2. rewrite H2, H1. done. Qed.
Lemma schedEq_set e a v b : schedEq b (set_sched e a v b).
Proof. done. Qed.
#[export] Hint Resolve schedEq_refl schedEq_set : vpn.

Lemma schedEq_facts b b' : schedEq b b' ->
  bid b' = bid b /\ unhealthy b' = unhealthy b /\ fairStart b' = fairStart b /\ adaptiveBackendRTT b' = adaptiveBackendRTT b /\
  rttCache b' = rttCache b /\ queuedBytes b' = queuedBytes b /\ carryPending b' = carryPending b /\ bqueue b' = bqueue b /\ bcap b' = bcap b.
Proof. intros ->. by destruct b. Qed.

Lemma map_frame (f : Backend -> Backend) bs : (forall b, schedEq b (f b)) -> Forall2 schedEq bs (f <$> bs).
Proof. intros Hf. induction bs; cbn; constructor; auto. Qed.

#[export] Instance schedEq_preorder : PreOrder schedEq.
Proof. split; [exact schedEq_refl|exact schedEq_trans]. Qed.

Lemma onlyActive_frame i b : schedEq b (onlyActive i b).
Proof. done. Qed.
Lemma joinActive_frame act rest e b : schedEq b (joinActive act rest e b).
Proof. unfold joinActive. destruct (head _); [done|]. destruct (bool_decide _); auto with vpn. Qed.
Lemma rebase_frame act m b : schedEq b (rebase act m b).
Proof. unfold rebase. destruct (_ && _); auto with vpn. Qed.
Lemma charge_frame i n rate b : schedEq b (if bool_decide (bid b = i) then addVirtualServiceAtRate n rate b else b).
Proof. unfold addVirtualServiceAtRate. destruct (bool_decide _); [|auto with vpn]. destruct (n =? 0); auto with vpn. Qed.
Lemma consider_frame a b c n x : schedEq x (consider a b c n x).1.
Proof. unfold consider. destruct (_ || _); done. Qed.
#[export] Hint Resolve onlyActive_frame joinActive_frame rebase_frame charge_frame consider_frame : vpn.

Lemma pickSingle_frame cs cur bs : Forall2 schedEq bs (pbs (pickSingle cs cur bs)).
Proof. apply map_frame. auto with vpn. Qed.

Lemma pickWFQ_frame n inc cs bs : Forall2 schedEq bs (pbs (pickWFQ n inc cs bs)).
Proof.
  unfold pickWFQ. cbn [pbs]. etrans; [apply map_frame, joinActive_frame|]. etrans; [apply map_frame, rebase_frame|].
  apply map_frame. auto with vpn.
Qed.

Lemma pick_frame bs pr dr inc ap pref : Forall2 schedEq bs (pbs (pickAdaptiveBackend bs pr dr inc ap pref)).
Proof.
  unfold pickAdaptiveBackend. destruct bs as [|b0 bs0]; [constructor|]. set (bs := b0 :: bs0).
  set (f := fun b => set_sched _ _ _ b). assert (Forall2 schedEq bs (f <$> bs)) as H1 by (apply map_frame; done).
  destruct (forallb unhealthy (f <$> bs)).
  - cbn [pbs]. etrans; [exact H1|]. apply map_frame. auto with vpn.
  - set (g := consider _ _ _ inc). assert (Forall2 schedEq (f <$> bs) (g <$> (f <$> bs)).*1) as H2.
    { rewrite <- list_fmap_compose. apply map_frame. intros b. apply consider_frame. }
    etrans; [exact H1|]. etrans; [exact H2|]. destruct (sortCands _) as [|c cs]; [cbn [pbs]; reflexivity|].
    destruct (_ =? 1); [apply pickSingle_frame|apply pickWFQ_frame].
Qed.

(** ** The candidates *)

Definition usable (maxRTT : Z) (b : Backend) : bool := negb (unhealthy b) && negb (tooFar maxRTT b).

Lemma consider_cases minRTT maxRTT ref inc b :
  if usable maxRTT b
  then exists c, (consider minRTT maxRTT ref inc b).2 = Some c /\ cid c = bid b /\ schedRate c = adaptiveFallbackRateBytesPerSec /\
                 wasActive c = active b /\ virtualNS c = virtualFinishNS b /\
                 active (consider minRTT maxRTT ref inc b).1 = active b /\ virtualFinishNS (consider minRTT maxRTT ref inc b).1 = virtualFinishNS b
  else (consider minRTT maxRTT ref inc b).2 = None /\ active (consider minRTT maxRTT ref inc b).1 = false.
Proof.
  unfold usable, consider. destruct (unhealthy b), (tooFar maxRTT b); cbn; auto. eexists. split_and!; reflexivity.
Qed.

Definition candsOf (minRTT maxRTT ref inc : Z) (bs : list Backend) : list backendCandidate :=
  omap snd (consider minRTT maxRTT ref inc <$> bs).

Lemma candsOf_ids a m r n bs : cid <$> candsOf a m r n bs = bid <$> filter (fun b => usable m b = true) bs.
Proof.
  unfold candsOf. induction bs as [|b bs IH]; [done|]. rewrite fmap_cons. cbn [omap list_omap]. rewrite filter_cons.
  pose proof (consider_cases a m r n b) as H. destruct (usable m b) eqn:E.
  - destruct H as (c & -> & Hc & _). rewrite decide_True by done. cbn. by rewrite Hc, <- IH.
  - destruct H as [-> _]. by rewrite decide_False by done.
Qed.

Lemma candsOf_elem a m r n bs c : c ∈ candsOf a m r n bs ->
  exists b, b ∈ bs /\ usable m b = true /\ (consider a m r n b).2 = Some c.
Proof.
  unfold candsOf. rewrite list_elem_of_omap. intros (x & Hx & Hc). apply list_elem_of_fmap in Hx as (b & -> & Hb).
  exists b. split_and!; [done| |done]. pose proof (consider_cases a m r n b) as H. destruct (usable m b); [done|].
  destruct H as [H _]. congruence.
Qed.

Lemma minMeasured_le bs m b : b ∈ bs -> unhealthy b || fairStart b = false ->
  fold_left (fun m b => if unhealthy b || fairStart b then m
                        else if (adaptiveBackendRTT b).1 <? m then (adaptiveBackendRTT b).1 else m) bs m <= (adaptiveBackendRTT b).1.
Proof.
  assert (forall bs m, fold_left (fun m b => if unhealthy b || fairStart b then m
            else if (adaptiveBackendRTT b).1 <? m then (adaptiveBackendRTT b).1 else m) bs m <= m) as Hle.
  { clear. intros bs. induction bs as [|x bs IH]; intros m; cbn [fold_left]; [lia|]. etrans; [apply IH|].
    destruct (_ || _); [lia|]. destruct (_ <? _) eqn:E; lia. }
  revert m. induction bs as [|x bs IH]; intros m Hb Hm; [by apply elem_of_nil in Hb|]. cbn [fold_left].
  apply elem_of_cons in Hb as [->|Hb]; [|by apply IH]. rewrite Hm. etrans; [apply Hle|]. destruct (_ <? _) eqn:E; lia.
Qed.

Lemma minMeasured_attained bs m : let r := fold_left (fun m b => if unhealthy b || fairStart b then m
            else if (adaptiveBackendRTT b).1 <? m then (adaptiveBackendRTT b).1 else m) bs m in
  r = m \/ exists b, b ∈ bs /\ unhealthy b || fairStart b = false /\ r = (adaptiveBackendRTT b).1.
Proof.
  revert m. induction bs as [|x bs IH]; intros m; cbn [fold_left]; [by left|].
  match goal with |- context [fold_left _ bs ?y] => destruct (IH y) as [H|(b & Hb & H)] end; [|right; exists b; set_solver].
  destruct (unhealthy x || fairStart x) eqn:E; [by left|]. destruct (_ <? m) eqn:E2; [|by left].
  right. exists x. split_and!; [by left|done|done].
Qed.

Lemma measured_rtt b : fairStart b = false -> (adaptiveBackendRTT b).1 = rttCache b.
Proof. unfold fairStart, adaptiveBackendRTT. by destruct ((rttCache b =? 0) || (rttCache b =? adaptiveUnknownRTTUS)). Qed.

(** Somewhere to send: a healthy backend leaves a candidate. *)
Lemma some_usable bs : Forall (fun b => rttCache b < maxUint32) bs -> forallb unhealthy bs = false ->
  exists b, b ∈ bs /\ usable (maxRTTOf bs) b = true.
Proof.
  intros HR Hh. apply not_true_iff_false in Hh. rewrite forallb_forall in Hh.
  assert (exists b, b ∈ bs /\ unhealthy b = false) as (h & Hh1 & Hh2).
  { clear HR. induction bs as [|b bs IH]; [exfalso; apply Hh; intros x []|]. destruct (unhealthy b) eqn:E; [|exists b; set_solver].
    destruct IH as (x & ? & ?); [|exists x; set_solver]. intros H. apply Hh. intros x [<-|Hx]; auto. }
  clear Hh. destruct (fairStart h) eqn:Ef.
  - exists h. split; [done|]. unfold usable, tooFar. by rewrite Hh2, Ef.
  - pose proof (minMeasured_le bs maxUint32 h Hh1 ltac:(by rewrite Hh2, Ef)) as Hle.
    assert ((adaptiveBackendRTT h).1 < maxUint32) as Hlt.
    { rewrite measured_rtt by done. rewrite Forall_forall in HR. by apply HR. }
    destruct (minMeasured_attained bs maxUint32) as [Hm|(b & Hb & Hb1 & Hb2)]; [unfold minMeasuredRTT in *; lia|].
    exists b. split; [done|]. apply orb_false_iff in Hb1 as [Hb1 Hb3]. unfold usable, tooFar. rewrite Hb1, Hb3. cbn.
    unfold maxRTTOf, minRTTOf, minMeasuredRTT. rewrite Hb2. rewrite Hb2 in Hle. destruct (_ =? maxUint32) eqn:E; [lia|].
    apply negb_true_iff, Z.ltb_ge. unfold backendRTTHysteresisMin. lia.
Qed.

(** The envelope around the best measured RTT is one around every measured RTT. *)
Lemma usable_near bs b b' : usable (maxRTTOf bs) b = true -> b' ∈ bs -> unhealthy b' || fairStart b' = false -> rttCache b' < maxUint32 -> 0 <= rttCache b' ->
  fairStart b = true \/ (adaptiveBackendRTT b).1 <= (adaptiveBackendRTT b').1 + Z.max 5000 ((adaptiveBackendRTT b').1 / 4).
Proof.
  intros Hu Hb' Hm Hlt H0. unfold usable, tooFar in Hu. destruct (fairStart b); [by left|right]. cbn in Hu.
  apply andb_true_iff in Hu as [_ Hu]. apply negb_true_iff, Z.ltb_ge in Hu.
  pose proof (minMeasured_le bs maxUint32 b' Hb' Hm) as Hle. fold (minMeasuredRTT bs) in Hle.
  assert ((adaptiveBackendRTT b').1 = rttCache b') as E.
  { apply orb_false_iff in Hm as [_ Hm]. by apply measured_rtt. }
  unfold maxRTTOf, minRTTOf in Hu. destruct (minMeasuredRTT bs =? maxUint32) eqn:Em; [lia|]. rewrite E in *.
  pose proof (Z.div_le_mono _ _ 4 ltac:(lia) Hle). unfold backendRTTHysteresisMin in *. lia.
Qed.

(** What the candidate list is with respect to the backends the loop leaves behind. *)
Record cands_ok (bs : list Backend) (cs : list backendCandidate) : Prop := {
  co_ids : NoDup (bid <$> bs);
  co_nodup : NoDup (cid <$> cs);
  co_backend : forall c, c ∈ cs -> exists b, findB (cid c) bs = Some b /\ wasActive c = active b /\ virtualNS c = virtualFinishNS b /\
                 schedRate c = adaptiveFallbackRateBytesPerSec;
  co_active : forall b, b ∈ bs -> active b = true -> bid b ∈ cid <$> cs
}.

Lemma fmap_frame_ids bs bs' : Forall2 schedEq bs bs' -> bid <$> bs' = bid <$> bs.
Proof. induction 1 as [|b b' bs bs' H _ IH]; [done|]. cbn. destruct (schedEq_facts b b' H) as [-> _]. by f_equal. Qed.

Lemma candsOf_ok a m r n bs : NoDup (bid <$> bs) ->
  cands_ok (consider a m r n <$> bs).*1 (sortCands (candsOf a m r n bs)).
Proof.
  intros HN. set (bs2 := (consider a m r n <$> bs).*1).
  assert (bs2 = (fun b => (consider a m r n b).1) <$> bs) as E by (unfold bs2; by rewrite <- list_fmap_compose).
  assert (forall b, bid (consider a m r n b).1 = bid b) as Hid.
  { intros b. pose proof (consider_frame a m r n b) as H. by apply schedEq_facts in H as [? _]. }
  assert (NoDup (bid <$> bs2)) as HN2.
  { rewrite E, <- list_fmap_compose. erewrite list_fmap_ext; [exact HN|]. intros i x _. apply Hid. }
  split; [done| | |].
  - rewrite sortCands_perm, candsOf_ids. eapply sublist_NoDup; [exact HN|]. apply fmap_sublist, sublist_filter.
  - intros c. rewrite sortCands_perm. intros Hc. apply candsOf_elem in Hc as (b & Hb & Hu & Hc).
    pose proof (consider_cases a m r n b) as H. rewrite Hu in H. destruct H as (c' & Hc' & H1 & H2 & H3 & H4 & H5 & H6).
    rewrite Hc in Hc'. injection Hc' as <-. exists (consider a m r n b).1. rewrite H1, <- (Hid b). split_and!; [|congruence..|done].
    apply findB_in; [done|]. rewrite E. apply list_elem_of_fmap. by exists b.
  - intros b. rewrite E. rewrite list_elem_of_fmap. intros (x & -> & Hx) Ha. rewrite sortCands_perm, candsOf_ids, Hid.
    apply list_elem_of_fmap_2, list_elem_of_filter. split; [|done]. pose proof (consider_cases a m r n x) as H.
    destruct (usable m x); [done|]. destruct H as [_ H]. congruence.
Qed.

Lemma active_count bs ids : NoDup (bid <$> bs) -> NoDup ids -> (forall i, i ∈ ids -> i ∈ bid <$> bs) ->
  (forall b, b ∈ bs -> active b = true <-> bid b ∈ ids) -> length (filter (fun b => active b = true) bs) = length ids.
Proof.
  intros HN HD Hin Ha. rewrite <- (length_fmap bid). apply Permutation_length, NoDup_Permutation; [|done|].
  - eapply sublist_NoDup; [exact HN|]. apply fmap_sublist, sublist_filter.
  - intros i. rewrite list_elem_of_fmap. split.
    + intros (b & -> & Hb). apply list_elem_of_filter in Hb as [Hb1 Hb2]. by apply Ha.
    + intros Hi. specialize (Hin i Hi). apply list_elem_of_fmap in Hin as (b & -> & Hb). exists b. split; [done|].
      apply list_elem_of_filter. split; [by apply Ha|done].
Qed.

Lemma pickSingle_ok bs cs cur : cands_ok bs cs -> cs <> [] ->
  exists i, pickSingle cs cur bs = mkPick (onlyActive i <$> bs) 1 (Some i) (Some i) /\ i ∈ cid <$> cs /\
            length (filter (fun b => active b = true) (onlyActive i <$> bs)) = 1%nat.
Proof.
  intros [H1 H2 H3 H4] Hne. destruct cs as [|c0 cs]; [done|]. unfold pickSingle. cbn [hd].
  match goal with |- context [onlyActive ?x] => set (i := x) end. assert (i ∈ cid <$> c0 :: cs) as Hi.
  { unfold i. destruct (cur ≫= _) as [c|] eqn:E; [|by left]. destruct (_ && _); [|by left].
    apply bind_Some in E as (x & _ & E). apply head_Some_elem_of, list_elem_of_filter in E as [_ E]. by apply list_elem_of_fmap_2. }
  exists i. split_and!; [done|done|]. rewrite (active_count _ [i]); [done| | | |].
  - rewrite (fmap_frame_ids bs); [done|]. apply map_frame. auto with vpn.
  - apply NoDup_singleton.
  - intros j Hj. apply list_elem_of_singleton in Hj as ->. rewrite (fmap_frame_ids bs) by (apply map_frame; auto with vpn).
    apply list_elem_of_fmap in Hi as (c & -> & Hc). destruct (H3 c Hc) as (b & Hb & _). apply findB_elem in Hb as [Hb <-]. by apply list_elem_of_fmap_2.
  - intros b Hb. apply list_elem_of_fmap in Hb as (x & -> & Hx). cbn. rewrite bool_decide_eq_true, list_elem_of_singleton. done.
Qed.

Lemma list_filter_nil_not {A} (P : A -> Prop) `{forall x, Decision (P x)} l x : filter P l = [] -> x ∈ l -> ~ P x.
Proof. intros E Hx HP. assert (x ∈ filter P l) as H1 by (by apply list_elem_of_filter). rewrite E in H1. by apply elem_of_nil in H1. Qed.

Lemma pickWFQ_ok n inc bs cs : cands_ok bs cs -> 1 <= n <= lenZ cs ->
  let r := pickWFQ n inc cs bs in
  pactive r = n /\ ppref r = pchosen r /\ (exists c, pchosen r = Some (cid c) /\ c ∈ take (Z.to_nat n) cs) /\
  length (filter (fun b => active b = true) (pbs r)) = Z.to_nat n.
Proof.
  intros Hok Hn r. set (act := take (Z.to_nat n) cs).
  assert (act <> []) as Hne by (unfold act, lenZ in *; destruct cs, (Z.to_nat n) eqn:E; cbn in *; (lia || done)).
  assert (length act = Z.to_nat n) as Hlen by (unfold act, lenZ in *; rewrite length_take; lia).
  destruct Hok as [H1 H2 H3 H4]. split_and!; [done|done| |].
  - unfold r, pickWFQ. cbn [pchosen]. fold act. eexists. split; [done|]. destruct act as [|c a]; [done|]. cbn [hd tail]. apply leastScore_elem.
  - rewrite <- Hlen, <- (length_fmap cid). apply active_count.
    + rewrite (fmap_frame_ids bs); [done|apply pickWFQ_frame].
    + eapply sublist_NoDup; [exact H2|]. apply fmap_sublist, sublist_take.
    + intros i Hi. rewrite (fmap_frame_ids bs) by apply pickWFQ_frame. apply list_elem_of_fmap in Hi as (c & -> & Hc).
      destruct (H3 c) as (b & Hb & _); [by eapply elem_of_sublist; [|apply sublist_take]|]. apply findB_elem in Hb as [Hb <-]. by apply list_elem_of_fmap_2.
    + unfold r, pickWFQ. cbn [pbs]. fold act. set (chosen := leastScore _ _ _). clearbody chosen. intros b Hb.
      apply list_elem_of_fmap in Hb as (b1 & -> & Hb). apply list_elem_of_fmap in Hb as (b2 & -> & Hb). apply list_elem_of_fmap in Hb as (b3 & -> & Hb).
      match goal with |- context [rebase act ?m ?x] => set (b' := rebase act m x); assert (active b' = active x /\ bid b' = bid x) as [Ha Hi] by
        (unfold b', rebase; by destruct (_ && _)) end.
      assert (forall b i n rate, active (if bool_decide (bid b = i) then addVirtualServiceAtRate n rate b else b) = active b /\
               bid (if bool_decide (bid b = i) then addVirtualServiceAtRate n rate b else b) = bid b) as Hc.
      { intros. unfold addVirtualServiceAtRate. destruct (bool_decide _); [destruct (_ =? 0)|]; done. }
      destruct (Hc b' (cid chosen) inc (schedRate chosen)) as [-> ->]. rewrite Ha, Hi. clear b' Ha Hi Hc chosen.
      unfold joinActive. destruct (head (filter (fun c => cid c = bid b3) act)) as [c|] eqn:E.
      * cbn. split; [|done]. intros _. apply head_Some_elem_of, list_elem_of_filter in E as [<- E]. by apply list_elem_of_fmap_2.
      * assert (bid b3 ∉ cid <$> act) as Hno.
        { intros Hi. apply list_elem_of_fmap in Hi as (c & Hc & Hi). apply head_None in E. apply (list_filter_nil_not (fun c => cid c = bid b3) act c E Hi). done. }
        case_bool_decide as Hr; cbn; [done|]. split; [|done]. intros Ha. exfalso. specialize (H4 b3 Hb Ha).
        rewrite <- (take_drop (Z.to_nat n) cs), fmap_app, elem_of_app in H4. tauto.
Qed.

Definition measured (bs : list Backend) (b : Backend) : Prop := b ∈ bs /\ unhealthy b || fairStart b = false.

Definition etaPass (inc : Z) (b : Backend) : Backend := set_sched (estimatedETAUS inc b) (active b) (virtualFinishNS b) b.

Lemma etaPass_same inc bs : forallb unhealthy (etaPass inc <$> bs) = forallb unhealthy bs /\
  minMeasuredRTT (etaPass inc <$> bs) = minMeasuredRTT bs.
Proof.
  split.
  - induction bs as [|b bs IH]; [done|]. rewrite fmap_cons. cbn [forallb]. by rewrite IH.
  - unfold minMeasuredRTT. generalize maxUint32. induction bs as [|b bs IH]; intros m; [done|]. rewrite fmap_cons. cbn [fold_left]. by rewrite IH.
Qed.

Lemma target_range pr dr n : 1 <= n -> 1 <= adaptiveActivePathTarget pr dr n <= n /\ adaptiveActivePathTarget pr dr n <= 4.
Proof.
  intros Hn. unfold adaptiveActivePathTarget. destruct (n <=? 0) eqn:E; [lia|].
  repeat (destruct (_ || _)); destruct (n <? _) eqn:E2; lia.
Qed.

(** The picker past its guards: what it decides over, and how. *)
Lemma pick_unfold bs pr dr inc ap pref : NoDup (bid <$> bs) -> Forall (fun b => rttCache b < maxUint32) bs -> forallb unhealthy bs = false ->
  exists bs2 cs, cands_ok bs2 cs /\ cs <> [] /\ Forall2 schedEq bs bs2 /\
    (cid <$> cs) ≡ₚ (bid <$> filter (fun b => usable (maxRTTOf bs) b = true) bs) /\
    (forall b, b ∈ bs -> usable (maxRTTOf bs) b = true -> exists b2, b2 ∈ bs2 /\ schedEq b b2 /\ active b2 = active b /\ virtualFinishNS b2 = virtualFinishNS b) /\
    pickAdaptiveBackend bs pr dr inc ap pref =
      let n := adaptiveActivePathTarget pr dr (lenZ cs) in if n =? 1 then pickSingle cs pref bs2 else pickWFQ n inc cs bs2.
Proof.
  intros HN HR Hh. destruct bs as [|b0 bs0]; [done|]. set (bs := b0 :: bs0) in *.
  destruct (etaPass_same inc bs) as [E1 E2]. set (bs1 := etaPass inc <$> bs) in *.
  assert (Forall2 schedEq bs bs1) as HF by (apply map_frame; intros; done).
  assert (NoDup (bid <$> bs1)) as HN1 by (by rewrite (fmap_frame_ids bs)).
  assert (maxRTTOf bs1 = maxRTTOf bs) as EM by (unfold maxRTTOf, minRTTOf; by rewrite E2).
  set (ref := referenceRateOf (maxRTTOf bs1) bs1). set (mn := minRTTOf bs1).
  assert (forall b, usable (maxRTTOf bs) (etaPass inc b) = usable (maxRTTOf bs) b) as HU by done.
  assert (cid <$> sortCands (candsOf mn (maxRTTOf bs1) ref inc bs1) ≡ₚ bid <$> filter (fun b => usable (maxRTTOf bs) b = true) bs) as HP.
  { rewrite sortCands_perm, candsOf_ids, EM. unfold bs1. generalize (maxRTTOf bs). intros M. generalize bs. clear. intros bs. induction bs as [|b bs IH]; [done|].
    rewrite fmap_cons, !filter_cons. change (usable M (etaPass inc b)) with (usable M b). destruct (decide (usable M b = true)); [|done].
    rewrite !fmap_cons. by rewrite IH. }
  exists (consider mn (maxRTTOf bs1) ref inc <$> bs1).*1, (sortCands (candsOf mn (maxRTTOf bs1) ref inc bs1)).
  assert (sortCands (candsOf mn (maxRTTOf bs1) ref inc bs1) <> []) as Hne.
  { destruct (some_usable bs HR Hh) as (b & Hb & Hu). intros E. rewrite E in HP. apply Permutation_nil_l in HP. symmetry in HP. apply fmap_nil_inv in HP.
    by apply (list_filter_nil_not _ _ b HP). }
  split_and!; [by apply candsOf_ok|done| |done| |].
  - etrans; [exact HF|]. rewrite <- list_fmap_compose. apply map_frame. intros b. apply consider_frame.
  - intros b Hb Hu. exists (consider mn (maxRTTOf bs1) ref inc (etaPass inc b)).1. split_and!.
    + rewrite <- list_fmap_compose. apply list_elem_of_fmap. exists (etaPass inc b). split; [done|]. unfold bs1. by apply list_elem_of_fmap_2.
    + etrans; [|apply consider_frame]. done.
    + pose proof (consider_cases mn (maxRTTOf bs1) ref inc (etaPass inc b)) as H. rewrite EM, HU, Hu, <- EM in H. by destruct H as (? & _ & _ & _ & _ & _ & ? & _).
    + pose proof (consider_cases mn (maxRTTOf bs1) ref inc (etaPass inc b)) as H. rewrite EM, HU, Hu, <- EM in H. by destruct H as (? & _ & _ & _ & _ & _ & _ & ?).
  - unfold pickAdaptiveBackend. subst bs. fold (etaPass inc). fold bs1. rewrite E1, Hh. unfold candsOf in Hne |- *. fold mn ref.
    by destruct (sortCands _).
Qed.


(** ** Byte fairness of the active set *)

Lemma fold_min_spec {A} (f : A -> Z) l m : let r := fold_left (fun m x => if f x <? m then f x else m) l m in
  r <= m /\ (forall x, x ∈ l -> r <= f x) /\ (r = m \/ exists x, x ∈ l /\ r = f x).
Proof.
  revert m. induction l as [|y l IH]; intros m; cbn [fold_left]; [split_and!; [lia|by intros x ?%elem_of_nil|by left]|].
  destruct (IH (if f y <? m then f y else m)) as (H1 & H2 & H3). destruct (f y <? m) eqn:E; split_and!; [lia| | |lia| |].
  - intros x [->|Hx]%elem_of_cons; [lia|auto].
  - destruct H3 as [->|(x & Hx & ->)]; right; [exists y|exists x]; set_solver.
  - intros x [->|Hx]%elem_of_cons; [lia|auto].
  - destruct H3 as [->|(x & Hx & ->)]; [by left|right; exists x; set_solver].
Qed.

Lemma minVirtual_spec bs c cs : (forall x, x ∈ c :: cs -> minVirtualOf bs (c :: cs) <= virtOf bs x) /\
  exists x, x ∈ c :: cs /\ minVirtualOf bs (c :: cs) = virtOf bs x.
Proof.
  unfold minVirtualOf. destruct (fold_min_spec (virtOf bs) cs (virtOf bs c)) as (H1 & H2 & H3). split.
  - intros x [->|Hx]%elem_of_cons; auto.
  - destruct H3 as [->|(x & Hx & ->)]; [exists c|exists x]; set_solver.
Qed.

Lemma serviceTimeNS_bytes n : 0 <= n <= 2 ^ 32 -> serviceTimeNS n adaptiveFallbackRateBytesPerSec = 40 * n.
Proof.
  intros Hn. unfold serviceTimeNS, adaptiveFallbackRateBytesPerSec. destruct (n =? 0) eqn:E; [lia|].
  cbn [Z.eqb]. unfold u64. rewrite (Z.mod_small (n * 1000000000)) by lia.
  replace (n * 1000000000 / 25000000) with (40 * n) by (apply Z.div_unique_exact; lia). unfold s64. rewrite Z.mod_small; lia.
Qed.

Lemma s64_small x : - 2 ^ 63 <= x < 2 ^ 63 -> s64 x = x.
Proof. intros H. unfold s64. rewrite Z.mod_small; lia. Qed.

Lemma epoch_zero cs : Forall (fun c => virtualNS c = 0) cs -> epochOf cs = 0.
Proof.
  unfold epochOf. intros H. assert (forall e, default 0 e = 0 -> default 0 (fold_left (fun e c => if wasActive c then
      match e with Some m => Some (if virtualNS c <? m then virtualNS c else m) | None => Some (virtualNS c) end else e) cs e) = 0) as HG; [|by apply HG].
  induction H as [|c cs Hc _ IH]; intros e He; [done|]. cbn [fold_left]. apply IH. destruct (wasActive c); [|done].
  destruct e as [m|]; cbn in *; [|done]. destruct (_ <? _); congruence.
Qed.

Definition drainedB (b : Backend) : Prop := queuedBytes b = 0 /\ carryPending b = false.

(** One choice among drained paths that all belong to the active set: the least debt
    is paid off, and the path that had it is charged for the batch. *)
Lemma wfq_debts bs cs inc : cands_ok bs cs -> cs <> [] -> (forall b, b ∈ bs -> bid b ∈ cid <$> cs) ->
  Forall drainedB bs -> Forall (fun b => 0 <= virtualFinishNS b < 2 ^ 61) bs ->
  Forall (fun b => active b = true) bs \/ Forall (fun b => virtualFinishNS b = 0) bs -> 0 <= inc <= 2 ^ 32 ->
  exists m bmin, bmin ∈ bs /\ virtualFinishNS bmin = m /\ pchosen (pickWFQ (lenZ cs) inc cs bs) = Some (bid bmin) /\
    (forall b, b ∈ bs -> m <= virtualFinishNS b) /\
    Forall2 (fun b b' => schedEq b b' /\ active b' = true /\
               virtualFinishNS b' = virtualFinishNS b - m + (if bool_decide (bid b = bid bmin) then 40 * inc else 0)) bs (pbs (pickWFQ (lenZ cs) inc cs bs)).
Proof.
  intros [H1 H2 H3 H4] Hne Hall HD HV Hact Hinc. destruct cs as [|c0 cs0]; [done|]. set (cs := c0 :: cs0) in *.
  assert (forall b, b ∈ bs -> 0 <= virtualFinishNS b < 2 ^ 61) as HVb by (by apply Forall_forall).
  unfold pickWFQ. replace (Z.to_nat (lenZ cs)) with (length cs) by (unfold lenZ; lia). rewrite firstn_all, drop_all.
  (* joining changes no debt *)
  assert (forall b, b ∈ bs -> joinActive cs [] (epochOf cs) b = set_sched (etaUsec b) true (virtualFinishNS b) b) as HJ.
  { intros b Hb. unfold joinActive. destruct (head (filter (fun c => cid c = bid b) cs)) as [c|] eqn:E.
    - apply head_Some_elem_of, list_elem_of_filter in E as [Ec Hc]. destruct (H3 c Hc) as (b' & Hb' & Hw & Hv & _).
      rewrite Ec, findB_in in Hb' by done. injection Hb' as <-. rewrite Hw. destruct Hact as [Ha|Hz].
      + rewrite Forall_forall in Ha. by rewrite (Ha b Hb).
      + rewrite epoch_zero; [|apply Forall_forall; intros x Hx; destruct (H3 x Hx) as (y & Hy & _ & -> & _); apply findB_elem in Hy as [Hy _];
          rewrite Forall_forall in Hz; by apply Hz]. rewrite Forall_forall in Hz. rewrite (Hz b Hb). by destruct (active b).
    - apply head_None in E. specialize (Hall b Hb). apply list_elem_of_fmap in Hall as (c & Hc & Hi).
      by destruct (list_filter_nil_not (fun c => cid c = bid b) cs c E Hi). }
  set (bs1 := joinActive cs [] (epochOf cs) <$> bs).
  assert (forall c, c ∈ cs -> exists b, b ∈ bs /\ bid b = cid c /\ findB (cid c) bs1 = Some (set_sched (etaUsec b) true (virtualFinishNS b) b)) as HF1.
  { intros c Hc. destruct (H3 c Hc) as (b & Hb & _). exists b. destruct (findB_elem _ _ _ Hb) as [Hb1 Hb2]. split_and!; [done|done|].
    unfold bs1. rewrite findB_map by (intros; by destruct (schedEq_facts _ _ (joinActive_frame cs [] (epochOf cs) b0)) as [? _]). rewrite Hb. cbn. by rewrite HJ. }
  destruct (minVirtual_spec bs1 c0 cs0) as [Hmle (xm & Hxm & Hxe)]. fold cs in Hmle, Hxm, Hxe. set (m := minVirtualOf bs1 cs) in *. clearbody m.
  assert (forall c b, c ∈ cs -> b ∈ bs -> bid b = cid c -> virtOf bs1 c = virtualFinishNS b) as Hvirt.
  { intros c b Hc Hb E. destruct (HF1 c Hc) as (b' & Hb' & E' & Hf). unfold virtOf. rewrite Hf. cbn.
    assert (Some b = Some b') as [= <-]; [|done]. rewrite <- (findB_in bs b), <- (findB_in bs b') by done. congruence. }
  assert (forall b, b ∈ bs -> m <= virtualFinishNS b) as Hmin.
  { intros b Hb. pose proof (Hall b Hb) as Hc. apply list_elem_of_fmap in Hc as (c & E & Hc). rewrite <- (Hvirt c b Hc Hb E). by apply Hmle. }
  assert (0 <= m < 2 ^ 61) as Hm.
  { destruct (HF1 xm Hxm) as (b & Hb & E & _). rewrite Hxe, (Hvirt xm b Hxm Hb E). by apply HVb. }
  assert (forall b, b ∈ bs -> rebase cs m (set_sched (etaUsec b) true (virtualFinishNS b) b) = set_sched (etaUsec b) true (virtualFinishNS b - m) b) as HR.
  { intros b Hb. pose proof (HVb b Hb) as HV1. specialize (Hmin b Hb). unfold rebase. cbn [bid set_sched]. rewrite (bool_decide_true (_ ∈ _)) by auto.
    rewrite andb_true_r. destruct (m =? 0) eqn:E; cbn [negb]; [replace m with 0 by lia; by rewrite Z.sub_0_r|]. cbn. rewrite s64_small by lia. done. }
  set (bs2 := rebase cs m <$> bs1).
  assert (bs2 = (fun b => set_sched (etaUsec b) true (virtualFinishNS b - m) b) <$> bs) as E2.
  { unfold bs2, bs1. rewrite <- list_fmap_compose. apply list_fmap_ext. intros i b Hi. cbn. apply list_elem_of_lookup_2 in Hi. rewrite HJ by done. by apply HR. }
  assert (forall c b, c ∈ cs -> b ∈ bs -> bid b = cid c -> scoreOf bs2 c = virtualFinishNS b - m) as Hscore.
  { intros c b Hc Hb E. unfold scoreOf. rewrite E2, findB_map by done. rewrite <- E, findB_in by done. cbn. unfold logicalDispatchScoreNS. cbn.
    rewrite Forall_forall in HD. destruct (HD b Hb) as [-> ->]. pose proof (HVb b Hb) as HV1. specialize (Hmin b Hb). unfold serviceTimeNS. cbn [Z.eqb].
    rewrite s64_small by lia. lia. }
  cbn [hd tail cs]. fold cs. set (ch := leastScore bs2 cs0 c0). assert (ch ∈ cs) as Hch by apply leastScore_elem.
  destruct (HF1 ch Hch) as (bmin & Hbm & Eid & _). destruct (H3 ch Hch) as (_ & _ & _ & _ & Hrate).
  assert (virtualFinishNS bmin = m) as Evm.
  { destruct (HF1 xm Hxm) as (bx & Hbx & Ex & _). pose proof (leastScore_least bs2 cs0 c0 xm Hxm) as Hle. fold ch in Hle.
    rewrite (Hscore ch bmin), (Hscore xm bx) in Hle by done. rewrite (Hvirt xm bx Hxm Hbx Ex) in Hxe. specialize (Hmin bmin Hbm). lia. }
  exists m, bmin. cbn [pchosen pbs]. split_and!; [done|done|by rewrite Eid|done|]. rewrite E2, <- list_fmap_compose, Hrate.
  apply Forall2_fmap_r, Forall2_same_length_lookup_2; [done|]. intros i b b' Hb Hb'. rewrite Hb in Hb'. injection Hb' as <-.
  apply list_elem_of_lookup_2 in Hb. cbn. rewrite Eid. unfold addVirtualServiceAtRate. cbn.
  pose proof (HVb b Hb) as Hvb. specialize (Hmin b Hb). case_bool_decide as Ed; [|split_and!; [done|done|cbn; lia]].
  destruct (inc =? 0) eqn:E0; cbn; [split_and!; [done|done|lia]|]. rewrite serviceTimeNS_bytes by lia. rewrite s64_small by lia. done.
Qed.

(** A stretch of traffic over one set of paths that are all in use: between two
    batches the writers drain their queues and the environment may change anything but
    the scheduler's own fields (round-trip times, rates, statistics), as long as every
    path stays eligible and the load asks for all of them.  [log] says which path got
    which batch size. *)
Definition envStep (b b1 : Backend) : Prop := bid b1 = bid b /\ active b1 = active b /\ virtualFinishNS b1 = virtualFinishNS b.

Definition eligible (bs : list Backend) : Prop :=
  Forall drainedB bs /\ Forall (fun b => rttCache b < maxUint32) bs /\ Forall (fun b => usable (maxRTTOf bs) b = true) bs.

Inductive fairRun (S : Z) : list Backend -> list (nat * Z) -> Prop :=
| fair_start bs : NoDup (bid <$> bs) -> Forall (fun b => virtualFinishNS b = 0) bs -> fairRun S bs []
| fair_batch bs log bs1 pressure demandRate incoming activePaths preferred i :
    fairRun S bs log -> Forall2 envStep bs bs1 -> eligible bs1 ->
    adaptiveActivePathTarget pressure demandRate (lenZ bs1) = lenZ bs1 -> 2 <= lenZ bs1 -> 0 <= incoming <= S ->
    pchosen (pickAdaptiveBackend bs1 pressure demandRate incoming activePaths preferred) = Some i ->
    fairRun S (pbs (pickAdaptiveBackend bs1 pressure demandRate incoming activePaths preferred)) (log ++ [(i, incoming)]).

Definition bytesOn (i : nat) (log : list (nat * Z)) : Z := foldr (fun e a => (if bool_decide (e.1 = i) then e.2 else 0) + a) 0 log.

Lemma bytesOn_snoc i log e : bytesOn i (log ++ [e]) = bytesOn i log + (if bool_decide (e.1 = i) then e.2 else 0).
Proof. unfold bytesOn. rewrite foldr_app. induction log as [|x log IH]; cbn in *; [lia|]. rewrite IH. lia. Qed.

(** All debts are the bytes sent, in units of 40 ns, less a common offset. *)
Record debts_ok (S : Z) (bs : list Backend) (log : list (nat * Z)) : Prop := {
  db_ids : NoDup (bid <$> bs);
  db_range : Forall (fun b => 0 <= virtualFinishNS b <= 40 * S) bs;
  db_all : Forall (fun b => active b = true) bs \/ Forall (fun b => virtualFinishNS b = 0) bs;
  db_offset : exists c, Forall (fun b => virtualFinishNS b = 40 * bytesOn (bid b) log - c) bs
}.

Lemma Forall_env (P : Backend -> Prop) bs bs1 : (forall b b1, envStep b b1 -> P b -> P b1) -> Forall2 envStep bs bs1 -> Forall P bs -> Forall P bs1.
Proof. intros HP HF HA. induction HF; [constructor|]. apply Forall_cons in HA as [? ?]. constructor; eauto. Qed.

Lemma env_ids bs bs1 : Forall2 envStep bs bs1 -> bid <$> bs1 = bid <$> bs.
Proof. induction 1 as [|b b1 bs bs1 [H _] _ IH]; [done|]. cbn. by rewrite H, IH. Qed.

Lemma debts_env S bs bs1 log : Forall2 envStep bs bs1 -> debts_ok S bs log -> debts_ok S bs1 log.
Proof.
  intros HF [H1 H2 H3 [c H4]]. split.
  - by rewrite (env_ids bs).
  - eapply Forall_env; [|exact HF|exact H2]. intros b b1 (_ & _ & ->). done.
  - destruct H3 as [H3|H3]; [left|right]; (eapply Forall_env; [|exact HF|exact H3]); intros b b1 (_ & Ha & Hv); congruence.
  - exists c. eapply Forall_env; [|exact HF|exact H4]. intros b b1 (-> & _ & ->). done.
Qed.

(** What the picker works on when every backend is eligible. *)
Lemma pick_all bs pr dr inc ap pref : NoDup (bid <$> bs) -> eligible bs -> 2 <= lenZ bs -> adaptiveActivePathTarget pr dr (lenZ bs) = lenZ bs ->
  exists bs2 cs, cands_ok bs2 cs /\ cs <> [] /\ (forall b, b ∈ bs2 -> bid b ∈ cid <$> cs) /\ Forall2 envStep bs bs2 /\ Forall drainedB bs2 /\
    pickAdaptiveBackend bs pr dr inc ap pref = pickWFQ (lenZ cs) inc cs bs2.
Proof.
  intros HN (HD & HR & HU) H2 HT. assert (forallb unhealthy bs = false) as Hh.
  { destruct bs as [|b bs]; [exfalso; unfold lenZ in H2; cbn [length] in H2; lia|]. apply Forall_cons in HU as [Hu _]. cbn. unfold usable in Hu. by destruct (unhealthy b). }
  destruct (pick_unfold bs pr dr inc ap pref HN HR Hh) as (bs2 & cs & Hok & Hne & HF & HP & HA & Hr). exists bs2, cs.
  rewrite (filter_all (fun b => usable (maxRTTOf bs) b = true) bs HU) in HP.
  assert (lenZ cs = lenZ bs) as EL by (apply Permutation_length in HP; rewrite !length_fmap in HP; unfold lenZ; lia).
  split_and!; [done|done| | | |].
  - intros b Hb. rewrite HP, <- (fmap_frame_ids bs bs2 HF). by apply list_elem_of_fmap_2.
  - apply Forall2_same_length_lookup_2; [by eapply Forall2_length|]. intros i b b2 Hb Hb2.
    pose proof (proj1 (schedEq_facts _ _ (Forall2_lookup_lr _ _ _ _ _ _ HF Hb Hb2))) as Eb. apply list_elem_of_lookup_2 in Hb. rewrite Forall_forall in HU.
    destruct (HA b Hb (HU b Hb)) as (b3 & Hb3 & Hs3 & H31 & H32). apply list_elem_of_lookup_2 in Hb2.
    assert (Some b2 = Some b3) as [= ->]; [|split_and!; try done].
    rewrite <- (findB_in bs2 b2), <- (findB_in bs2 b3) by (done || apply Hok).
    apply schedEq_facts in Hs3 as [-> _]. by rewrite Eb.
  - clear -HF HD. induction HF as [|b b2 l l2 Hs _ IH]; [constructor|]. apply Forall_cons in HD as [Hd HD]. constructor; [|auto].
    apply schedEq_facts in Hs as (_ & _ & _ & _ & _ & Hq & Hc & _). destruct Hd. split; congruence.
  - rewrite Hr, EL. cbn zeta. rewrite HT. destruct (lenZ bs =? 1) eqn:E; [lia|done].
Qed.

Lemma debts_step S bs log pr dr inc ap pref i : 0 <= S <= 2 ^ 32 -> debts_ok S bs log -> eligible bs -> 2 <= lenZ bs ->
  adaptiveActivePathTarget pr dr (lenZ bs) = lenZ bs -> 0 <= inc <= S ->
  pchosen (pickAdaptiveBackend bs pr dr inc ap pref) = Some i ->
  debts_ok S (pbs (pickAdaptiveBackend bs pr dr inc ap pref)) (log ++ [(i, inc)]).
Proof.
  intros HS Hd He H2 HT Hinc Hi. destruct (pick_all bs pr dr inc ap pref (db_ids _ _ _ Hd) He H2 HT) as (bs2 & cs & Hok & Hne & Hall & HE & HD & Hr).
  rewrite Hr in Hi |- *. destruct (debts_env S bs bs2 log HE Hd) as [H1 HV H3 [c Hc]].
  destruct (wfq_debts bs2 cs inc Hok Hne Hall HD) as (m & bm & Hbm & Em & Hch & Hmin & HF); [|done|lia|].
  { eapply Forall_impl; [exact HV|]. cbn. lia. }
  rewrite Hch in Hi. injection Hi as <-. set (bs' := pbs _) in *.
  assert (bid <$> bs' = bid <$> bs2) as Eids by (apply fmap_frame_ids, pickWFQ_frame).
  assert (forall b', b' ∈ bs' -> exists b, b ∈ bs2 /\ bid b' = bid b /\ active b' = true /\
            virtualFinishNS b' = virtualFinishNS b - m + (if bool_decide (bid b = bid bm) then 40 * inc else 0)) as Hb'.
  { intros b' Hb'. apply list_elem_of_lookup in Hb' as [k Hk]. destruct (Forall2_lookup_r _ _ _ _ _ HF Hk) as (b & Hb & Hs & Ha & Hv).
    exists b. split_and!; [by eapply list_elem_of_lookup_2|by apply schedEq_facts in Hs as [-> _]|done|done]. }
  rewrite Forall_forall in HV, Hc. split.
  - by rewrite Eids.
  - apply Forall_forall. intros b' (b & Hb & _ & _ & ->)%Hb'. pose proof (HV b Hb) as HVb. pose proof (HV bm Hbm) as HVm. specialize (Hmin b Hb). cbv beta in *.
    case_bool_decide as E; [|lia]. assert (virtualFinishNS b = m); [|lia].
    assert (Some b = Some bm) as [= ->]; [|done]. rewrite <- (findB_in bs2 b), <- (findB_in bs2 bm) by done. congruence.
  - left. apply Forall_forall. intros b' (b & _ & _ & Ha & _)%Hb'. done.
  - exists (c + m). apply Forall_forall. intros b' (b & Hb & Eb & _ & ->)%Hb'. specialize (Hc b Hb). cbn in Hc. rewrite bytesOn_snoc. cbn [fst snd].
    rewrite Eb, Hc. destruct (decide (bid b = bid bm)) as [E|E].
    + rewrite !bool_decide_true by congruence. lia.
    + rewrite !bool_decide_false by congruence. lia.
Qed.


(** ** The other pickers *)

Lemma rotated_perm {A} n (l : list A) : rotated n l ≡ₚ l.
Proof. unfold rotated. rewrite Permutation_app_comm. by rewrite take_drop. Qed.

Lemma head_filter_Some {A} (P : A -> Prop) `{forall x, Decision (P x)} l x : x ∈ l -> P x -> exists y, head (filter P l) = Some y /\ y ∈ l /\ P y.
Proof.
  intros Hx HP. destruct (head (filter P l)) as [y|] eqn:E.
  - exists y. apply head_Some_elem_of, list_elem_of_filter in E. tauto.
  - apply head_None in E. by destruct (list_filter_nil_not P l x E Hx).
Qed.

Lemma scored_healthy b : scored b = negb (unhealthy b).
Proof. unfold scored, backendScore, unhealthy. by destruct ((queueCap b =? 0) || (queueCap b - 2 <=? queueLen b)). Qed.

(** Parity travels apart from the data: with two connections or more, if one other than
    the data path has room, the parity record goes to such a one; failing that, to any
    connection with room; and always to a connection of the port. *)
Theorem parity_avoids_data_path (bs : list Backend) (dataBest : option nat) (parityNext : Z) :
  2 <= lenZ bs ->
  let r := (pickParityBackend bs dataBest parityNext).1 in
  (exists b, b ∈ bs /\ r = Some (bid b)) /\
  (forall b, b ∈ bs -> unhealthy b = false -> exists b', b' ∈ bs /\ unhealthy b' = false /\ r = Some (bid b') /\ (Some (bid b) <> dataBest -> r <> dataBest)).
Proof.
  intros H2 r. assert (bs <> []) as Hne by (intros ->; unfold lenZ in H2; cbn in H2; lia).
  unfold r, pickParityBackend. destruct bs as [|b0 bs0]; [done|]. set (bs := b0 :: bs0) in *. clearbody bs.
  set (ring := rotated _ bs). assert (ring ≡ₚ bs) as HP by apply rotated_perm.
  replace (1 <? lenZ bs) with true by (symmetry; apply Z.ltb_lt; lia). cbn [fst].
  destruct (head (filter (fun b => Some (bid b) <> dataBest /\ scored b = true) ring)) as [o|] eqn:Eo.
  { apply head_Some_elem_of, list_elem_of_filter in Eo as [[Eo1 Eo2] Eo]. rewrite HP in Eo. rewrite scored_healthy in Eo2. apply negb_true_iff in Eo2.
    split; [by exists o|]. intros b _ _. by exists o. }
  assert (forall b, b ∈ bs -> unhealthy b = false -> Some (bid b) = dataBest) as Hdata.
  { intros b Hb Hu. destruct (decide (Some (bid b) = dataBest)) as [|Hd]; [done|]. exfalso. apply head_None in Eo.
    apply (list_filter_nil_not _ ring b Eo); [by rewrite HP|]. split; [done|]. by rewrite scored_healthy, Hu. }
  destruct (dataBest ≫= _) as [w|] eqn:Ew.
  { apply bind_Some in Ew as (x & -> & Ew). apply head_Some_elem_of, list_elem_of_filter in Ew as [[<- Ew1] Ew]. rewrite scored_healthy in Ew1. apply negb_true_iff in Ew1.
    split; [by exists w|]. intros b Hb Hu. exists w. split_and!; try done. intros Hd. by destruct (Hd (Hdata b Hb Hu)). }
  destruct (head (filter (fun b => scored b = true) ring)) as [a|] eqn:Ea.
  { apply head_Some_elem_of, list_elem_of_filter in Ea as [Ea1 Ea]. rewrite HP in Ea. rewrite scored_healthy in Ea1. apply negb_true_iff in Ea1.
    split; [by exists a|]. intros b Hb Hu. exists a. split_and!; try done. intros Hd. by destruct (Hd (Hdata b Hb Hu)). }
  split.
  - destruct ring as [|x rr] eqn:E; [by apply Permutation_nil_l in HP|]. exists x. split; [|done]. rewrite <- HP. by left.
  - intros b Hb Hu. exfalso. apply head_None in Ea. apply (list_filter_nil_not _ ring b Ea); [by rewrite HP|]. by rewrite scored_healthy, Hu.
Qed.

Lemma minScore_elem bs best m : match (minScore bs best m).1 with Some b => b ∈ bs \/ best = Some b | None => best = None end.
Proof.
  revert best m. induction bs as [|x bs IH]; intros best m; cbn [minScore fst]; [by destruct best; auto|].
  destruct (backendScore x) as [s|]; [|specialize (IH best m); destruct (minScore _ _ _).1; set_solver].
  destruct (s <? m).
  - specialize (IH (Some x) s). destruct (minScore _ _ _).1; [destruct IH as [?|[= ->]]; set_solver|done].
  - specialize (IH best m). destruct (minScore _ _ _).1; set_solver.
Qed.

(** pickBackend answers with a backend of the list. *)
Lemma pickBackend_in bs pref : bs <> [] -> exists b, b ∈ bs /\ pickBackend bs pref = Some (bid b).
Proof.
  intros Hne. unfold pickBackend. pose proof (minScore_elem bs None maxUint32) as H. destruct (minScore bs None maxUint32) as [[best|] m]; cbn [fst] in H.
  - assert (best ∈ bs) as Hb by (by destruct H). destruct (pref ≫= _) as [cur|] eqn:E; [|by exists best].
    apply bind_Some in E as (i & _ & E). destruct (bool_decide _); [done|]. apply findB_elem in E as [E _].
    destruct (backendScore cur); [|by exists best]. destruct (_ <=? _); [by exists cur|by exists best].
  - destruct bs as [|b bs]; [done|]. exists b. split; [by left|done].
Qed.

(** The adaptive picker always answers with a backend of the list. *)
Lemma pick_in bs pr dr inc ap pref : NoDup (bid <$> bs) -> bs <> [] ->
  exists i, pchosen (pickAdaptiveBackend bs pr dr inc ap pref) = Some i /\ ppref (pickAdaptiveBackend bs pr dr inc ap pref) = Some i /\ i ∈ bid <$> bs.
Proof.
  intros HN Hne. unfold pickAdaptiveBackend. destruct bs as [|b0 bs0]; [done|]. set (bs := b0 :: bs0) in *. fold (etaPass inc).
  set (bs1 := etaPass inc <$> bs). assert (bid <$> bs1 = bid <$> bs) as E1 by (apply fmap_frame_ids, map_frame; intros; done).
  destruct (forallb unhealthy bs1); [exists (bid b0); cbn; split_and!; [done|done|by left]|].
  set (mn := minRTTOf bs1). set (mx := maxRTTOf bs1). set (ref := referenceRateOf mx bs1). fold (candsOf mn mx ref inc bs1).
  pose proof (candsOf_ok mn mx ref inc bs1 ltac:(by rewrite E1)) as Hok. set (bs2 := (consider mn mx ref inc <$> bs1).*1) in *.
  assert (bid <$> bs2 = bid <$> bs) as E2.
  { rewrite <- E1. apply fmap_frame_ids. unfold bs2. rewrite <- list_fmap_compose. apply map_frame. intros. apply consider_frame. }
  assert (forall c, c ∈ sortCands (candsOf mn mx ref inc bs1) -> cid c ∈ bid <$> bs) as Hin.
  { intros c Hc. destruct (co_backend _ _ Hok c Hc) as (b & Hb & _). apply findB_elem in Hb as [Hb <-]. rewrite <- E2. by apply list_elem_of_fmap_2. }
  destruct (sortCands (candsOf mn mx ref inc bs1)) as [|c cs] eqn:Ec.
  - destruct (pickBackend_in bs2 pref) as (b & Hb & Hp); [intros E; rewrite E in E2; discriminate|]. exists (bid b). cbn [pchosen ppref].
    split_and!; [done|done|]. rewrite <- E2. by apply list_elem_of_fmap_2.
  - set (n := adaptiveActivePathTarget _ _ _). pose proof (target_range pr dr (lenZ (c :: cs)) ltac:(unfold lenZ; cbn; lia)) as Hn. fold n in Hn.
    destruct (n =? 1).
    + destruct (pickSingle_ok bs2 (c :: cs) pref Hok ltac:(done)) as (i & -> & Hi & _). exists i. split_and!; [done|done|].
      apply list_elem_of_fmap in Hi as (x & -> & Hx). by apply Hin.
    + destruct (pickWFQ_ok n inc bs2 (c :: cs) Hok ltac:(lia)) as (_ & H2 & (x & H3 & H4) & _). exists (cid x). rewrite H2, H3. split_and!; [done|done|].
      apply Hin. by eapply elem_of_sublist; [|apply sublist_take].
Qed.

(** ** Witnesses *)

Definition demoPath (i : nat) (rtt : Z) : Backend := set_link rtt false (newBackend i 32 rtt).
Definition demoPaths : list Backend := [demoPath 1 2000; demoPath 2 3000; demoPath 3 90000].
Definition warmPath (i : nat) (rtt rate : Z) : Backend := set_rate rate 0 None (demoPath i rtt).


Lemma parity_avoids_data_path_witness :
  exists b', b' ∈ demoPaths /\ unhealthy b' = false /\ (pickParityBackend demoPaths (Some 2%nat) 1).1 = Some (bid b') /\
    (Some 3%nat <> Some 2%nat -> (pickParityBackend demoPaths (Some 2%nat) 1).1 <> Some 2%nat).
Proof.
  apply (parity_avoids_data_path demoPaths (Some 2%nat) 1 ltac:(vm_compute; discriminate)) with (b := demoPath 3 90000); [|reflexivity].
  unfold demoPaths. set_solver.
Defined.

(** Three batches over two paths, 12,000, 9,000 and 12,000 bytes. *)
Definition fairNext (n : Z) (bs : list Backend) : pick := pickAdaptiveBackend bs 300000 0 n 1 None.
Definition fair0 : list Backend := [demoPath 1 2000; demoPath 2 3000].
Definition fair1 : list Backend := pbs (fairNext 12000 fair0).
Definition fair2 : list Backend := pbs (fairNext 9000 fair1).
Definition fair3 : list Backend := pbs (fairNext 12000 fair2).
Definition fairLog : list (nat * Z) := [(1%nat, 12000); (2%nat, 9000); (2%nat, 12000)].

Lemma fairNext_run n bs log i : fairRun 12000 bs log -> 2 <= lenZ bs <= 4 -> forallb (fun b => (queuedBytes b =? 0) && negb (carryPending b) && (rttCache b <? maxUint32) && usable (maxRTTOf bs) b) bs = true ->
  0 <= n <= 12000 -> pchosen (fairNext n bs) = Some i -> fairRun 12000 (pbs (fairNext n bs)) (log ++ [(i, n)]).
Proof.
  intros HF Hl HE Hn Hi. rewrite forallb_forall in HE. apply (fair_batch 12000 bs log bs 300000 0 n 1 None i); [done| | | |lia|done|done].
  - clear. induction bs; constructor; done.
  - split_and!; apply Forall_forall; intros b Hb; apply list_elem_of_In, HE in Hb; rewrite !andb_true_iff in Hb; destruct Hb as [[[Hb1 Hb2] Hb3] Hb4].
    + split; [lia|by apply negb_true_iff].
    + lia.
    + done.
  - unfold adaptiveActivePathTarget. destruct (lenZ bs <=? 0) eqn:E; [lia|]. cbn [Z.leb orb]. change (256 * 1024 <=? 300000) with true. cbn [orb].
    destruct (lenZ bs <? 4) eqn:E2; lia.
Qed.

