(* ===== verification/TxPort.v ===== *)
(** * Send port (client.go, AsyncPort)

    The aggregating port between the producers (TAP reader or switch) and the physical
    connections: the bounded input queue, the run goroutine that numbers frames, packs
    them into batches, feeds the FEC encoder and hands batches to the connection that
    the scheduler picks, the fence controls in front of data, parity records, epoch
    resets, and the connections' writers.  The run goroutine is a program counter whose
    steps interleave with producers, writers, registrations and resets; the backend
    lock is held from the choice of the path to the last parity record, so
    registrations wait during that time.  Clock readings, measured round-trip times and
    the moment the 5 ms deadline passes are arguments of the steps. *)

From stdpp Require Import base tactics list numbers list_numbers sorting gmap.
From S2P Require Import Prelude Aead Frame FecControl FecEncoder Scheduler.
#[local] Open Scope Z_scope.

Record AsyncPort := mkAsyncPort {
  pch : list bytes;
  pclosed : bool;
  backends : list Backend;
  preferred : option nat;
  encoder : option fecEncoder;
  txSeq : Z;
  exhausted : bool;
  dropped : Z;
  fecTXArmed : bool;
  pParitySent : Z;
  parityNext : Z;
  dataNext : Z;
  inputQueuedBytes : Z;
  inputTotalBytes : Z;
  inputRateBytesPerSec : Z;
  activePaths : Z;
  schedulerPressure : Z;
  demandSampleTotal : Z;
  demandSampleAt : option Z
}.

Definition NewAsyncPort : AsyncPort := mkAsyncPort [] false [] None None 0 false 0 false 0 0 0 0 0 0 0 0 0 None.

Definition set_input (ch : list bytes) (q total : Z) (p : AsyncPort) : AsyncPort :=
  mkAsyncPort ch (pclosed p) (backends p) (preferred p) (encoder p) (txSeq p) (exhausted p) (dropped p) (fecTXArmed p) (pParitySent p) (parityNext p)
    (dataNext p) q total (inputRateBytesPerSec p) (activePaths p) (schedulerPressure p) (demandSampleTotal p) (demandSampleAt p).
Definition set_closed (p : AsyncPort) : AsyncPort :=
  mkAsyncPort (pch p) true (backends p) (preferred p) (encoder p) (txSeq p) (exhausted p) (dropped p) (fecTXArmed p) (pParitySent p) (parityNext p)
    (dataNext p) (inputQueuedBytes p) (inputTotalBytes p) (inputRateBytesPerSec p) (activePaths p) (schedulerPressure p) (demandSampleTotal p) (demandSampleAt p).
Definition set_backends (bs : list Backend) (pref : option nat) (act : Z) (p : AsyncPort) : AsyncPort :=
  mkAsyncPort (pch p) (pclosed p) bs pref (encoder p) (txSeq p) (exhausted p) (dropped p) (fecTXArmed p) (pParitySent p) (parityNext p)
    (dataNext p) (inputQueuedBytes p) (inputTotalBytes p) (inputRateBytesPerSec p) act (schedulerPressure p) (demandSampleTotal p) (demandSampleAt p).
Definition set_encoder (e : option fecEncoder) (a : bool) (p : AsyncPort) : AsyncPort :=
  mkAsyncPort (pch p) (pclosed p) (backends p) (preferred p) e (txSeq p) (exhausted p) (dropped p) a (pParitySent p) (parityNext p)
    (dataNext p) (inputQueuedBytes p) (inputTotalBytes p) (inputRateBytesPerSec p) (activePaths p) (schedulerPressure p) (demandSampleTotal p) (demandSampleAt p).
Definition set_number (s : Z) (x : bool) (p : AsyncPort) : AsyncPort :=
  mkAsyncPort (pch p) (pclosed p) (backends p) (preferred p) (encoder p) s x (dropped p) (fecTXArmed p) (pParitySent p) (parityNext p)
    (dataNext p) (inputQueuedBytes p) (inputTotalBytes p) (inputRateBytesPerSec p) (activePaths p) (schedulerPressure p) (demandSampleTotal p) (demandSampleAt p).
Definition set_parity (sent next data : Z) (p : AsyncPort) : AsyncPort :=
  mkAsyncPort (pch p) (pclosed p) (backends p) (preferred p) (encoder p) (txSeq p) (exhausted p) (dropped p) (fecTXArmed p) sent next
    data (inputQueuedBytes p) (inputTotalBytes p) (inputRateBytesPerSec p) (activePaths p) (schedulerPressure p) (demandSampleTotal p) (demandSampleAt p).
Definition set_demand (rate pressure total : Z) (at_ : option Z) (p : AsyncPort) : AsyncPort :=
  mkAsyncPort (pch p) (pclosed p) (backends p) (preferred p) (encoder p) (txSeq p) (exhausted p) (dropped p) (fecTXArmed p) (pParitySent p) (parityNext p)
    (dataNext p) (inputQueuedBytes p) (inputTotalBytes p) rate (activePaths p) pressure total at_.

Definition dropN (n : Z) (p : AsyncPort) : AsyncPort :=
  if 0 <? n then
    mkAsyncPort (pch p) (pclosed p) (backends p) (preferred p) (encoder p) (txSeq p) (exhausted p) (u64 (dropped p + n)) (fecTXArmed p) (pParitySent p) (parityNext p)
      (dataNext p) (inputQueuedBytes p) (inputTotalBytes p) (inputRateBytesPerSec p) (activePaths p) (schedulerPressure p) (demandSampleTotal p) (demandSampleAt p)
  else p.

Definition inputChanCap : Z := 4096.
Definition MaxBatchBytes : Z := 12 * 1024.

Definition noteInputQueued (n : Z) (p : AsyncPort) : AsyncPort :=
  if 0 <? n then set_input (pch p) (u64 (inputQueuedBytes p + n)) (inputTotalBytes p) p else p.
Definition noteInputDequeued (n : Z) (p : AsyncPort) : AsyncPort :=
  if n <=? 0 then p else set_input (pch p) (atomicSubSaturating (inputQueuedBytes p) n) (inputTotalBytes p) p.

(** The arrival rate of the input. *)
Definition observeInputDemand (perSecond : Z -> Z -> Z) (now : Z) (p : AsyncPort) : AsyncPort :=
  let total := inputTotalBytes p in
  match demandSampleAt p with
  | None => set_demand (inputRateBytesPerSec p) (schedulerPressure p) total (Some now) p
  | Some at_ =>
    let elapsed := now - at_ in
    if elapsed <? adaptiveDemandSampleMinInterval then p else
    let delta := u64 (total - demandSampleTotal p) in
    let inst := if 0 <? elapsed then perSecond delta elapsed else 0 in
    let old := inputRateBytesPerSec p in
    set_demand (if (old =? 0) || (250 * 1000000 <? elapsed) then inst else u64 (u64 (old * 3) + inst) / 4) (schedulerPressure p) total (Some now) p
  end.

Definition schedulerPressureFor (perSecond : Z -> Z -> Z) (now current : Z) (p : AsyncPort) : AsyncPort * Z :=
  let p := observeInputDemand perSecond now p in
  let pressure := fold_left (fun a b => u64 (a + queuedBytes b)) (backends p) (u64 (current + inputQueuedBytes p)) in
  (set_demand (inputRateBytesPerSec p) pressure (demandSampleTotal p) (demandSampleAt p) p, pressure).

(** ** Numbers *)

(** nextSeq: the number, or None when the 32-bit space of the epoch is used up; the
    flag says that the exhaustion handler is started. *)
Definition nextSeq (p : AsyncPort) : AsyncPort * option Z * bool :=
  if txSeq p =? 2 ^ 32 - 1 then (set_number (txSeq p) true p, None, negb (exhausted p))
  else let s := u32 (txSeq p + 1) in (set_number s (exhausted p) p, Some s, false).

(** ** The connections *)

(** The list with the backend of identity [i] replaced. *)
Definition updB (i : nat) (b : Backend) (bs : list Backend) : list Backend := (fun x => if bool_decide (bid x = i) then b else x) <$> bs.

Definition RegisterOwnedBackend (id : nat) (capacity rtt : Z) (p : AsyncPort) : AsyncPort :=
  set_backends (backends p ++ [newBackend id capacity rtt]) (preferred p) (activePaths p) p.

Definition UnregisterOwnedBackend (id : nat) (p : AsyncPort) : AsyncPort :=
  set_backends (filter (fun b => bid b <> id) (backends p)) (if bool_decide (preferred p = Some id) then None else preferred p) (activePaths p) p.

(** One turn of waitForBackendSlot: give up, go on, or sleep and look again. *)
Inductive slot := NoSlot | GotSlot | SleepMore.
Definition waitForBackendSlot (p : AsyncPort) : slot :=
  if pclosed p then NoSlot else
  if match preferred p ≫= (fun i => findB i (backends p)) with Some b => queueHasRoom b | None => false end then GotSlot else
  match backends p with
  | [] => NoSlot
  | bs => if existsb queueHasRoom bs then GotSlot else SleepMore
  end.

(** ** Sending a batch *)

(** The control that must precede data on this backend. *)
Definition fenceFor (enc : option fecEncoder) (b : Backend) : option fecModeControl :=
  match enc ≫= currentModeControl with
  | Some c => if fecFenceGen b <? Generation c then Some c else None
  | None => None
  end.

Definition withFence (c : fecModeControl) (batch : VPNFrameBatch) : VPNFrameBatch :=
  let w := appendOwnedVPNFrame getOwnedVPNFrameBatch (mkFrame 0 (appendFECModeControl [] c)) in
  mkOwned (Frames w ++ Frames batch) (u64 (Bytes w + Bytes batch)).

(** What one attempt did: the batch on the channel (if it got there) and the payload
    of the fence taken from the pool for it. *)
Definition trySend (enc : option fecEncoder) (batch : VPNFrameBatch) (b : Backend) : Backend * option VPNFrameBatch * list bytes :=
  let ctrl := fenceFor enc b in
  let out := match ctrl with Some c => withFence c batch | None => batch end in
  let fence := match ctrl with Some c => [appendFECModeControl [] c] | None => [] end in
  let '(b, ok) := tryQueueOwnedBatch out (addQueuedBytes (Bytes out) b) in
  if ok then
    let b := match ctrl with Some c => set_fence (Generation c) b | None => b end in
    (set_assigned (u64 (assignedBytes b + Bytes batch)) (u64 (assignedBatches b + 1)) (fecAssignedBytes b) (fecAssignedBatches b) b, Some out, fence)
  else (completeQueuedBytes (Bytes out) b, None, fence).

(** tryAll: the preferred backend, then the others in order. *)
Fixpoint tryIDs (enc : option fecEncoder) (batch : VPNFrameBatch) (ids : list nat) (bs : list Backend)
    : list Backend * option (nat * VPNFrameBatch) * list bytes * list bytes :=
  match ids with
  | [] => (bs, None, [], [])
  | i :: ids =>
    match findB i bs with
    | None => tryIDs enc batch ids bs
    | Some b =>
      match trySend enc batch b with
      | (b, Some out, fence) => (updB i b bs, Some (i, out), fence, [])
      | (b, None, fence) =>
        let '(bs, r, made, back) := tryIDs enc batch ids (updB i b bs) in (bs, r, fence ++ made, fence ++ back)
      end
    end
  end.

Definition tryAll (enc : option fecEncoder) (batch : VPNFrameBatch) (best : option nat) (bs : list Backend)
    : list Backend * option (nat * VPNFrameBatch) * list bytes * list bytes :=
  let others := filter (fun i => Some i <> best) (bid <$> bs) in
  tryIDs enc batch (match best with Some i => i :: others | None => others end) bs.

(** sendOwnedFrameTo on a backend of the list. *)
Definition sendOwnedFrameTo (vf : VPNFrame) (b : Backend) : Backend * option VPNFrameBatch :=
  let out := appendOwnedVPNFrame getOwnedVPNFrameBatch vf in
  let '(b, ok) := tryQueueOwnedBatch out (addQueuedBytes (Bytes out) b) in
  if ok then (set_assigned (assignedBytes b) (assignedBatches b) (u64 (fecAssignedBytes b + Bytes out)) (u64 (fecAssignedBatches b + 1)) b, Some out)
  else (completeQueuedBytes (Bytes out) b, None).

(** The encoder over the frames of a batch, with the parity records in order. *)
Fixpoint encodeBatch (fs : list VPNFrame) (e : fecEncoder) : fecEncoder * list bytes :=
  match fs with
  | [] => (e, [])
  | vf :: fs =>
    let '(e, par) := enc_add vf e in
    let '(e, pars) := encodeBatch fs e in
    (e, match par with Some b => b :: pars | None => pars end)
  end.

(** ** The system *)

(** Where the run goroutine is: at the select; with a frame, waiting for a slot; with
    a batch of one frame, in the coalescing sleep; taking [n] more frames from the
    queue; before the dispatch; trying to
    queue the batch ([tried] after the first round); sending the parity records. *)
Inductive runPC :=
| RIdle
| RWait (f : bytes)
| RFirst (batch : VPNFrameBatch)
| RGather (batch : VPNFrameBatch) (n : nat)
| RDispatch (batch : VPNFrameBatch)
| RSend (batch : VPNFrameBatch) (best : option nat) (pars : list bytes) (tried : bool)
| RParity (best : option nat) (pars : list bytes)
| RDone.

(** One batch on the channel of a backend, with the fence generation in force then. *)
Record queued := mkQueued { qid : nat; qbatch : VPNFrameBatch; qgen : Z }.

Record txSys := mkTx {
  port : AsyncPort;
  pc : runPC;
  nextID : nat;
  flight : gmap nat Z;          (* queuedPayload of a connection's writer *)
  handlerCalls : Z;             (* starts of the exhaustion handler *)
  given : list bytes;           (* buffers handed to the port *)
  made : list bytes;            (* buffers it took for parity and fences *)
  returned : list bytes;        (* given back to the pool without loss *)
  lost : list bytes;            (* dropped and counted *)
  spent : list bytes;           (* consumed by a connection's writer *)
  gone : list bytes;            (* left in the channel of a closed connection *)
  elog : list queued            (* everything queued in this epoch, in order *)
}.

Definition tx0 : txSys := mkTx NewAsyncPort RIdle 0 ∅ 0 [] [] [] [] [] [] [].

Definition set_run (p : AsyncPort) (c : runPC) (s : txSys) : txSys :=
  mkTx p c (nextID s) (flight s) (handlerCalls s) (given s) (made s) (returned s) (lost s) (spent s) (gone s) (elog s).
Definition account (g m r l x o : list bytes) (s : txSys) : txSys :=
  mkTx (port s) (pc s) (nextID s) (flight s) (handlerCalls s) (g ++ given s) (m ++ made s) (r ++ returned s) (l ++ lost s) (x ++ spent s) (o ++ gone s) (elog s).
Definition logged (l : list queued) (s : txSys) : txSys :=
  mkTx (port s) (pc s) (nextID s) (flight s) (handlerCalls s) (given s) (made s) (returned s) (lost s) (spent s) (gone s) l.
Definition set_flight (n : nat) (f : gmap nat Z) (s : txSys) : txSys :=
  mkTx (port s) (pc s) n f (handlerCalls s) (given s) (made s) (returned s) (lost s) (spent s) (gone s) (elog s).
Definition called (b : bool) (s : txSys) : txSys :=
  mkTx (port s) (pc s) (nextID s) (flight s) (if b then handlerCalls s + 1 else handlerCalls s) (given s) (made s) (returned s) (lost s) (spent s) (gone s) (elog s).

Definition bufsOf (b : VPNFrameBatch) : list bytes := Data <$> Frames b.

(** WriteOwnedFrame, from any producer. *)
Definition WriteOwnedFrame (frame : bytes) (s : txSys) : txSys :=
  let s := account [frame] [] [] [] [] [] s in
  let p := port s in
  if pclosed p then account [] [] [frame] [] [] [] s else
  let n := lenZ frame in
  let p := noteInputQueued n p in
  let p := if 0 <? n then set_input (pch p) (inputQueuedBytes p) (u64 (inputTotalBytes p + n)) p else p in
  if lenZ (pch p) <? inputChanCap then set_run (set_input (pch p ++ [frame]) (inputQueuedBytes p) (inputTotalBytes p) p) (pc s) s
  else account [] [] [] [frame] [] [] (set_run (dropN 1 (noteInputDequeued n p)) (pc s) s).

(** WriteFrame copies the frame first. *)
Definition WriteFrame (frame : bytes) (s : txSys) : txSys :=
  if pclosed (port s) then s else WriteOwnedFrame (cloneFrame frame).1 s.

Definition curGen (e : option fecEncoder) : Z := match e ≫= currentModeControl with Some c => Generation c | None => 0 end.

(** The frame case of run: a frame from the queue. *)
Definition runTake (s : txSys) : txSys :=
  match pc s, pch (port s) with
  | RIdle, f :: ch =>
    let p := noteInputDequeued (lenZ f) (set_input ch (inputQueuedBytes (port s)) (inputTotalBytes (port s)) (port s)) in
    if (length f =? 0)%nat then account [] [] [f] [] [] [] (set_run p RIdle s) else set_run p (RWait f) s
  | _, _ => s
  end.

(** One look of waitForBackendSlot and, with a slot, the number of the first frame. *)
Definition runWait (s : txSys) : txSys :=
  match pc s with
  | RWait f =>
    match waitForBackendSlot (port s) with
    | SleepMore => s
    | NoSlot => account [] [] [] [f] [] [] (set_run (dropN 1 (port s)) RIdle s)
    | GotSlot =>
      let '(p, q, h) := nextSeq (port s) in
      match q with
      | None => called h (account [] [] [] [f] [] [] (set_run (dropN 1 p) RIdle s))
      | Some q => set_run p (RFirst (appendOwnedVPNFrame getOwnedVPNFrameBatch (mkFrame q f))) s
      end
    end
  | _ => s
  end.

(** After the short sleep: [queueLen := len(p.ch)]. *)
Definition runSnapshot (s : txSys) : txSys :=
  match pc s with RFirst batch => set_run (port s) (RGather batch (length (pch (port s)))) s | _ => s end.

(** One turn of the coalescing loop, or its end. *)
Definition runGather (s : txSys) : txSys :=
  match pc s with
  | RGather batch (S n) =>
    if MaxBatchBytes <=? Bytes batch then set_run (port s) (RDispatch batch) s else
    match pch (port s) with
    | [] => s
    | f :: ch =>
      let p := noteInputDequeued (lenZ f) (set_input ch (inputQueuedBytes (port s)) (inputTotalBytes (port s)) (port s)) in
      if (length f =? 0)%nat then account [] [] [f] [] [] [] (set_run p (RGather batch n) s) else
      let '(p, q, h) := nextSeq p in
      match q with
      | None => called h (account [] [] [] [f] [] [] (set_run (dropN 1 p) (RGather batch n) s))
      | Some q => set_run p (RGather (appendOwnedVPNFrame batch (mkFrame q f)) n) s
      end
    end
  | _ => s
  end.

Definition runGathered (s : txSys) : txSys :=
  match pc s with RGather batch O => set_run (port s) (RDispatch batch) s | _ => s end.

(** dispatchOwnedBatch up to the first attempt: pressure, path, encoder. *)
Definition dispatchOwnedBatch (perSecond : Z -> Z -> Z) (now : Z) (s : txSys) : txSys :=
  match pc s with
  | RDispatch batch =>
    match backends (port s) with
    | [] => account [] [] [] (bufsOf batch) [] [] (set_run (dropN (lenZ (Frames batch)) (port s)) RIdle s)
    | bs =>
      let '(p, pressure) := schedulerPressureFor perSecond now (Bytes batch) (port s) in
      let p := set_encoder (setPhysicalPathCount (lenZ bs) <$> encoder p) (fecTXArmed p) p in
      let r := pickAdaptiveBackend (backends p) pressure (inputRateBytesPerSec p) (Bytes batch) (activePaths p) (preferred p) in
      let p := set_backends (pbs r) (ppref r) (pactive r) p in
      match encoder p with
      | None => set_run p (RSend batch (pchosen r) [] false) s
      | Some e =>
        let '(e, pars) := encodeBatch (Frames batch) e in
        account [] pars [] [] [] [] (set_run (set_encoder (Some e) (multipath e && armed e) p) (RSend batch (pchosen r) pars false) s)
      end
    end
  | _ => s
  end.

(** A round of sendOwnedBatchToAnyFenced. *)
Definition runTry (s : txSys) : txSys :=
  match pc s with
  | RSend batch best pars _ =>
    let p := port s in
    let '(bs, r, made, back) := tryAll (encoder p) batch best (backends p) in
    let p := set_backends bs (preferred p) (activePaths p) p in
    match r with
    | Some (i, out) => logged (elog s ++ [mkQueued i out (curGen (encoder p))]) (account [] made back [] [] [] (set_run p (RParity best pars) s))
    | None => account [] made back [] [] [] (set_run p (RSend batch best pars true) s)
    end
  | _ => s
  end.

(** The deadline of 5 ms has passed without success. *)
Definition runGiveUp (s : txSys) : txSys :=
  match pc s with
  | RSend batch best pars true =>
    account [] [] [] (bufsOf batch) [] [] (set_run (dropN (lenZ (Frames batch)) (port s)) (RParity best pars) s)
  | _ => s
  end.

(** The next parity record, or the end of the dispatch. *)
Definition runParity (s : txSys) : txSys :=
  match pc s with
  | RParity best [] => set_run (port s) RIdle s
  | RParity best (par :: pars) =>
    let p := port s in
    if lenZ (backends p) <? 2 then account [] [] [par] [] [] [] (set_run p (RParity best pars) s) else
    let '(target, next) := pickParityBackend (backends p) best (parityNext p) in
    let p := set_parity (u64 (pParitySent p + 1)) next (dataNext p) p in
    match target ≫= (fun i => findB i (backends p)) with
    | None => account [] [] [] [par] [] [] (set_run (dropN 1 p) (RParity best pars) s)
    | Some b =>
      match sendOwnedFrameTo (mkFrame 0 par) b with
      | (b', Some out) =>
        logged (elog s ++ [mkQueued (bid b) out (curGen (encoder p))])
          (set_run (set_backends (updB (bid b) b' (backends p)) (preferred p) (activePaths p) p) (RParity best pars) s)
      | (b', None) =>
        account [] [] [] [par] [] []
          (set_run (dropN 1 (set_backends (updB (bid b) b' (backends p)) (preferred p) (activePaths p) p)) (RParity best pars) s)
      end
    end
  | _ => s
  end.

(** ResetEpoch, taken up at the select of run. *)
Definition runReset (k : Z) (ic : option innerCipher) (s : txSys) : txSys :=
  match pc s with
  | RIdle =>
    if pclosed (port s) then s else
    let p := set_number 0 false (set_parity (pParitySent (port s)) 0 0 (port s)) in
    let p := set_encoder (if fecMinGroup <=? k then Some (newFECEncoder k ic) else None) false p in
    logged [] (set_run (set_backends (set_fence 0 <$> backends p) (preferred p) (activePaths p) p) RIdle s)
  | _ => s
  end.

Definition runExit (s : txSys) : txSys :=
  match pc s with RIdle => if pclosed (port s) then set_run (port s) RDone s else s | _ => s end.

(** The backend lock is not held by a dispatch. *)
Definition unlocked (c : runPC) : bool := match c with RSend _ _ _ _ | RParity _ _ => false | _ => true end.

Definition register (capacity rtt : Z) (s : txSys) : txSys :=
  if unlocked (pc s) then set_flight (S (nextID s)) (flight s) (set_run (RegisterOwnedBackend (nextID s) capacity rtt (port s)) (pc s) s) else s.

Definition unregister (id : nat) (s : txSys) : txSys :=
  if unlocked (pc s) then
    let left := concat (bufsOf <$> default [] (bqueue <$> findB id (backends (port s)))) in
    set_flight (nextID s) (delete id (flight s)) (account [] [] [] [] [] left (set_run (UnregisterOwnedBackend id (port s)) (pc s) s))
  else s.

(** A connection's writer takes a batch; the payloads are encoded and go back to the pool. *)
Definition writerTake (id : nat) (s : txSys) : txSys :=
  match findB id (backends (port s)) with
  | Some b =>
    match bqueue b with
    | batch :: q =>
      let p := set_backends (updB id (set_q q (queuedBytes b) b) (backends (port s))) (preferred (port s)) (activePaths (port s)) (port s) in
      set_flight (nextID s) (<[id := default 0 (flight s !! id) + Bytes batch]> (flight s)) (account [] [] [] [] (bufsOf batch) [] (set_run p (pc s) s))
    | [] => s
    end
  | None => s
  end.

(** Its TLS write has succeeded. *)
Definition writerDone (perSecond : Z -> Z -> Z) (now : Z) (id : nat) (s : txSys) : txSys :=
  match findB id (backends (port s)) with
  | Some b =>
    let n := default 0 (flight s !! id) in
    let b' := observeDelivered perSecond now n (completeQueuedBytes n b) in
    set_flight (nextID s) (<[id := 0]> (flight s))
      (set_run (set_backends (updB id b' (backends (port s))) (preferred (port s)) (activePaths (port s)) (port s)) (pc s) s)
  | None => s
  end.

(** A new RTT sample or a change of the corked tail. *)
Definition linkChange (id : nat) (rtt : Z) (carry : bool) (s : txSys) : txSys :=
  match findB id (backends (port s)) with
  | Some b => set_run (set_backends (updB id (set_link rtt carry b) (backends (port s))) (preferred (port s)) (activePaths (port s)) (port s)) (pc s) s
  | None => s
  end.

Inductive txOp :=
| TWrite (f : bytes) | TWriteCopy (f : bytes) | TClose
| TRegister (capacity rtt : Z) | TUnregister (id : nat)
| TTake | TWait | TSnapshot | TGather | TGathered | TDispatch (now : Z) | TTry | TGiveUp | TParity | TExit
| TReset (k : Z) (ic : option innerCipher)
| TWriterTake (id : nat) | TWriterDone (now : Z) (id : nat) | TLink (id : nat) (rtt : Z) (carry : bool).

Definition txStep (perSecond : Z -> Z -> Z) (s : txSys) (op : txOp) : txSys :=
  match op with
  | TWrite f => WriteOwnedFrame f s
  | TWriteCopy f => WriteFrame f s
  | TClose => set_run (set_closed (port s)) (pc s) s
  | TRegister c rtt => register c rtt s
  | TUnregister id => unregister id s
  | TTake => runTake s
  | TWait => runWait s
  | TSnapshot => runSnapshot s
  | TGather => runGather s
  | TGathered => runGathered s
  | TDispatch now => dispatchOwnedBatch perSecond now s
  | TTry => runTry s
  | TGiveUp => runGiveUp s
  | TParity => runParity s
  | TExit => runExit s
  | TReset k ic => runReset k ic s
  | TWriterTake id => writerTake id s
  | TWriterDone now id => writerDone perSecond now id s
  | TLink id rtt carry => linkChange id rtt carry s
  end.

Definition txExec (perSecond : Z -> Z -> Z) (ops : list txOp) (s : txSys) : txSys := fold_left (txStep perSecond) ops s.

(** ** Buffers *)

(** A view [f] of the batches, over everything queued on the connections. *)
Definition queuesOf {A} (f : VPNFrameBatch -> list A) (bs : list Backend) : list A := concat ((fun b => concat (f <$> bqueue b)) <$> bs).
Notation queueBufs := (queuesOf bufsOf).

Definition pcBufs (c : runPC) : list bytes :=
  match c with
  | RIdle | RDone => []
  | RWait f => [f]
  | RFirst b | RGather b _ | RDispatch b => bufsOf b
  | RSend b _ pars _ => bufsOf b ++ pars
  | RParity _ pars => pars
  end.

(** Every buffer the port was given or took is in exactly one place. *)
Definition conserved (s : txSys) : Prop :=
  given s ++ made s ≡ₚ returned s ++ lost s ++ spent s ++ gone s ++ pch (port s) ++ pcBufs (pc s) ++ queueBufs (backends (port s)).

Record ids_ok (s : txSys) : Prop := {
  io_nodup : NoDup (bid <$> backends (port s));
  io_fresh : Forall (fun b => (bid b < nextID s)%nat) (backends (port s))
}.

Lemma updB_ids i b bs : bid b = i -> bid <$> updB i b bs = bid <$> bs.
Proof.
  intros Hb. unfold updB. induction bs as [|x bs IH]; [done|]. cbn. rewrite IH. case_bool_decide as E; [|done]. by rewrite Hb, E.
Qed.

Lemma updB_notin i b bs : i ∉ bid <$> bs -> updB i b bs = bs.
Proof.
  unfold updB. induction bs as [|x bs IH]; intros H; [done|]. apply not_elem_of_cons in H as [H1 H2].
  rewrite fmap_cons, bool_decide_false by congruence. by rewrite IH.
Qed.

(** A map over the backends sees an update as the exchange of one element. *)
Lemma updB_exchange i b b' bs : NoDup (bid <$> bs) -> findB i bs = Some b ->
  exists l1 l2, bs = l1 ++ b :: l2 /\ updB i b' bs = l1 ++ b' :: l2.
Proof.
  intros HN Hf. destruct (findB_elem _ _ _ Hf) as [Hb Ei]. apply list_elem_of_split in Hb as (l1 & l2 & ->). exists l1, l2. split; [done|].
  rewrite fmap_app, fmap_cons, NoDup_app, NoDup_cons in HN. destruct HN as (_ & Hd & Hn & _).
  unfold updB. rewrite fmap_app, fmap_cons, bool_decide_true by done. fold (updB i b' l1). fold (updB i b' l2). rewrite !updB_notin; [done| |].
  - by rewrite <- Ei.
  - intros Hi. apply (Hd i Hi). rewrite <- Ei. by left.
Qed.

Lemma queuesOf_updB {A} (f : VPNFrameBatch -> list A) i b b' bs : NoDup (bid <$> bs) -> findB i bs = Some b ->
  queuesOf f (updB i b' bs) ++ concat (f <$> bqueue b) ≡ₚ queuesOf f bs ++ concat (f <$> bqueue b').
Proof.
  intros HN Hf. destruct (updB_exchange i b b' bs HN Hf) as (l1 & l2 & -> & ->). unfold queuesOf.
  rewrite !fmap_app, !fmap_cons, !concat_app. cbn [concat]. solve_Permutation.
Qed.

Lemma queuesOf_same {A} (f : VPNFrameBatch -> list A) i b b' bs : NoDup (bid <$> bs) -> findB i bs = Some b -> bqueue b' = bqueue b -> queuesOf f (updB i b' bs) ≡ₚ queuesOf f bs.
Proof. intros HN Hf E. pose proof (queuesOf_updB f i b b' bs HN Hf) as H. rewrite E in H. by eapply Permutation_app_inv_r. Qed.

Lemma queuesOf_frame {A} (f : VPNFrameBatch -> list A) bs bs' : Forall2 schedEq bs bs' -> queuesOf f bs' = queuesOf f bs.
Proof.
  unfold queuesOf. induction 1 as [|b b' bs bs' H _ IH]; [done|]. cbn. rewrite IH. by destruct (schedEq_facts b b' H) as (_ & _ & _ & _ & _ & _ & _ & -> & _).
Qed.

(** What the counters leave alone. *)
Lemma dropN_fields n p : pch (dropN n p) = pch p /\ backends (dropN n p) = backends p /\ encoder (dropN n p) = encoder p /\
  txSeq (dropN n p) = txSeq p /\ pclosed (dropN n p) = pclosed p /\ exhausted (dropN n p) = exhausted p.
Proof. unfold dropN. by destruct (0 <? n). Qed.
Lemma dequeue_fields n p : let p' := noteInputDequeued n p in pch p' = pch p /\ backends p' = backends p /\ encoder p' = encoder p /\
  txSeq p' = txSeq p /\ pclosed p' = pclosed p /\ exhausted p' = exhausted p.
Proof. unfold noteInputDequeued. by destruct (n <=? 0). Qed.
Lemma enqueue_fields n p : let p' := noteInputQueued n p in pch p' = pch p /\ backends p' = backends p /\ encoder p' = encoder p /\
  txSeq p' = txSeq p /\ pclosed p' = pclosed p /\ exhausted p' = exhausted p.
Proof. unfold noteInputQueued. by destruct (0 <? n). Qed.
Lemma nextSeq_fields p : let p' := (nextSeq p).1.1 in pch p' = pch p /\ backends p' = backends p /\ encoder p' = encoder p /\ pclosed p' = pclosed p.
Proof. unfold nextSeq. by destruct (txSeq p =? 2 ^ 32 - 1). Qed.
Lemma pressure_fields f now n p : let p' := (schedulerPressureFor f now n p).1 in pch p' = pch p /\ backends p' = backends p /\ encoder p' = encoder p /\
  txSeq p' = txSeq p /\ pclosed p' = pclosed p /\ exhausted p' = exhausted p.
Proof. unfold schedulerPressureFor, observeInputDemand. destruct (demandSampleAt p) as [a|]; [|done]. by destruct (now - a <? _). Qed.

Lemma tryQueue_spec batch b : let '(b', ok) := tryQueueOwnedBatch batch b in
  ok = queueHasRoom b /\ b' = if ok then set_q (bqueue b ++ [batch]) (queuedBytes b) b else b.
Proof. unfold tryQueueOwnedBatch. by destruct (queueHasRoom b). Qed.

Lemma addQueued_eq n b : addQueuedBytes n b = set_q (bqueue b) (if n =? 0 then queuedBytes b else u64 (queuedBytes b + n)) b.
Proof. unfold addQueuedBytes. destruct (n =? 0); [by destruct b|done]. Qed.
Lemma completeQueued_eq n b : completeQueuedBytes n b = set_q (bqueue b) (if n =? 0 then queuedBytes b else atomicSubSaturating (queuedBytes b) n) b.
Proof. unfold completeQueuedBytes. destruct (n =? 0); [by destruct b|done]. Qed.

Lemma bufsOf_withFence c batch : bufsOf (withFence c batch) = appendFECModeControl [] c :: bufsOf batch.
Proof. done. Qed.

Lemma trySend_spec enc batch b : let '(b', r, fence) := trySend enc batch b in
  bid b' = bid b /\ bcap b' = bcap b /\
  match r with
  | Some out => queueHasRoom b = true /\ bqueue b' = bqueue b ++ [out] /\ bufsOf out = fence ++ bufsOf batch
  | None => queueHasRoom b = false /\ bqueue b' = bqueue b
  end.
Proof.
  unfold trySend. set (out := match fenceFor enc b with Some c => withFence c batch | None => batch end).
  pose proof (tryQueue_spec out (addQueuedBytes (Bytes out) b)) as H. destruct (tryQueueOwnedBatch _ _) as [b1 ok]. destruct H as [Hok ->].
  rewrite addQueued_eq in *. change (queueHasRoom (set_q ?q ?n b)) with (queueHasRoom (set_q (bqueue b) n b)) in Hok.
  assert (ok = queueHasRoom b) as -> by (by rewrite Hok). destruct (queueHasRoom b); cbn [fst snd].
  - split_and!; [by destruct (fenceFor enc b)|by destruct (fenceFor enc b)|done|by destruct (fenceFor enc b)|]. unfold out.
    destruct (fenceFor enc b); [apply bufsOf_withFence|done].
  - rewrite completeQueued_eq. done.
Qed.

Lemma tryIDs_spec enc batch ids bs : NoDup (bid <$> bs) ->
  let '(bs', r, made, back) := tryIDs enc batch ids bs in
  bid <$> bs' = bid <$> bs /\
  queueBufs bs' ++ back ≡ₚ queueBufs bs ++ made ++ match r with Some _ => bufsOf batch | None => [] end.
Proof.
  revert bs. induction ids as [|i ids IH]; intros bs HN; cbn [tryIDs]; [by rewrite !app_nil_r|].
  destruct (findB i bs) as [b|] eqn:Ef; [|by apply IH]. destruct (findB_elem _ _ _ Ef) as [_ Ei].
  pose proof (trySend_spec enc batch b) as Hs. destruct (trySend enc batch b) as [[b' r] fence]. destruct Hs as (Hid & _ & Hs).
  pose proof (queuesOf_updB bufsOf i b b' bs HN Ef) as HQ. destruct r as [out|].
  - destruct Hs as (_ & Hq & Ho). split; [apply updB_ids; congruence|]. rewrite app_nil_r. rewrite Hq, fmap_app, concat_app in HQ. cbn in HQ.
    rewrite Ho, app_nil_r in HQ. apply (Permutation_app_inv_r (concat (bufsOf <$> bqueue b))). rewrite HQ. solve_Permutation.
  - destruct Hs as [_ Hq]. specialize (IH (updB i b' bs)). destruct (tryIDs enc batch ids (updB i b' bs)) as [[[bs' r] mk] back].
    rewrite updB_ids in IH by congruence. destruct (IH HN) as [IH1 IH2]. split; [done|]. rewrite Hq in HQ. apply Permutation_app_inv_r in HQ.
    rewrite HQ in IH2. trans (fence ++ (queueBufs bs' ++ back)); [solve_Permutation|]. rewrite IH2. solve_Permutation.
Qed.

Lemma tryAll_spec enc batch best bs : NoDup (bid <$> bs) ->
  let '(bs', r, made, back) := tryAll enc batch best bs in
  bid <$> bs' = bid <$> bs /\
  queueBufs bs' ++ back ≡ₚ queueBufs bs ++ made ++ match r with Some _ => bufsOf batch | None => [] end.
Proof. apply tryIDs_spec. Qed.

Lemma sendOwnedFrameTo_spec vf b : let '(b', r) := sendOwnedFrameTo vf b in
  bid b' = bid b /\ bcap b' = bcap b /\ fecFenceGen b' = fecFenceGen b /\
  match r with
  | Some out => queueHasRoom b = true /\ bqueue b' = bqueue b ++ [out] /\ out = appendOwnedVPNFrame getOwnedVPNFrameBatch vf
  | None => queueHasRoom b = false /\ bqueue b' = bqueue b
  end.
Proof.
  unfold sendOwnedFrameTo. set (out := appendOwnedVPNFrame _ _). pose proof (tryQueue_spec out (addQueuedBytes (Bytes out) b)) as H.
  destruct (tryQueueOwnedBatch _ _) as [b1 ok]. destruct H as [Hok ->]. rewrite addQueued_eq in *.
  assert (ok = queueHasRoom b) as -> by (by rewrite Hok). destruct (queueHasRoom b); cbn [fst snd]; [done|]. by rewrite completeQueued_eq.
Qed.

(** *** No buffer is lost track of *)

Definition tx_ok (s : txSys) : Prop := ids_ok s /\ conserved s.

(** The fields of a state built by the updates, without computing counters. *)
Ltac txs := cbn [port pc nextID flight handlerCalls given made returned lost spent gone elog account set_run logged set_flight called
  backends pch pclosed preferred encoder txSeq exhausted set_backends set_encoder set_input set_number set_parity set_demand set_closed pcBufs app].

Lemma bufsOf_append b vf : bufsOf (appendOwnedVPNFrame b vf) = bufsOf b ++ [Data vf].
Proof. unfold bufsOf, appendOwnedVPNFrame. cbn. by rewrite fmap_app. Qed.

Lemma ids_same s s' : bid <$> backends (port s') = bid <$> backends (port s) -> (nextID s <= nextID s')%nat -> ids_ok s -> ids_ok s'.
Proof.
  intros Hb Hn [H1 H2]. split; [by rewrite Hb|]. apply Forall_forall. intros b Hin. rewrite Forall_forall in H2.
  assert (bid b ∈ bid <$> backends (port s)) as Hi by (rewrite <- Hb; by apply list_elem_of_fmap_2).
  apply list_elem_of_fmap in Hi as (x & -> & Hx). specialize (H2 x Hx). cbn in H2. lia.
Qed.

(** An operation that moves one frame out of the input queue or the run goroutine. *)
Lemma tx_write f s : tx_ok s -> tx_ok (WriteOwnedFrame f s).
Proof.
  intros [HI HC]. unfold WriteOwnedFrame. cbn [port account]. destruct (pclosed (port s)).
  - split; [by apply (ids_same s)|]. unfold conserved in *. txs. rewrite HC. solve_Permutation.
  - set (p1 := noteInputQueued (lenZ f) (port s)). destruct (enqueue_fields (lenZ f) (port s)) as (E1 & E2 & _). fold p1 in E1, E2.
    set (p2 := if 0 <? lenZ f then _ else p1). assert (pch p2 = pch (port s) /\ backends p2 = backends (port s)) as [E3 E4] by (unfold p2; destruct (0 <? lenZ f); done).
    clearbody p2. destruct (lenZ (pch p2) <? inputChanCap).
    + split; [apply (ids_same s); txs; by rewrite ?E4|]. unfold conserved in *. txs. rewrite E3, E4, HC. solve_Permutation.
    + destruct (dequeue_fields (lenZ f) p2) as (E5 & E6 & _). destruct (dropN_fields 1 (noteInputDequeued (lenZ f) p2)) as (E7 & E8 & _).
      split; [apply (ids_same s); txs; [by rewrite E8, E6, E4|lia|done]|]. unfold conserved in *. txs. rewrite E7, E8, E5, E6, E3, E4, HC. solve_Permutation.
Qed.

Lemma tx_take s : tx_ok s -> tx_ok (runTake s).
Proof.
  intros [HI HC]. unfold runTake. destruct (pc s) eqn:Ep; try done. destruct (pch (port s)) as [|f ch] eqn:Ec; [done|].
  set (p0 := set_input ch _ _ (port s)). destruct (dequeue_fields (lenZ f) p0) as (E1 & E2 & _). cbn in E1, E2.
  destruct (length f =? 0)%nat.
  - split; [apply (ids_same s); txs; by rewrite ?E2|]. unfold conserved in *. txs. rewrite E1, E2, HC, Ep, Ec. cbn. solve_Permutation.
  - split; [apply (ids_same s); txs; by rewrite ?E2|]. unfold conserved in *. txs. rewrite E1, E2, HC, Ep, Ec. cbn. solve_Permutation.
Qed.

Lemma tx_wait s : tx_ok s -> tx_ok (runWait s).
Proof.
  intros [HI HC]. unfold runWait. destruct (pc s) as [|f| | | | | | ] eqn:Ep; try done. destruct (waitForBackendSlot (port s)); [| |done].
  - destruct (dropN_fields 1 (port s)) as (E1 & E2 & _). split; [apply (ids_same s); txs; by rewrite ?E2|].
    unfold conserved in *. txs. rewrite E1, E2, HC, Ep. cbn. solve_Permutation.
  - destruct (nextSeq_fields (port s)) as (E1 & E2 & _). destruct (nextSeq (port s)) as [[p q] h]. cbn in E1, E2. destruct q as [q|].
    + split; [apply (ids_same s); txs; by rewrite ?E2|]. unfold conserved in *. txs. rewrite E1, E2, HC, Ep. cbn. solve_Permutation.
    + destruct (dropN_fields 1 p) as (E3 & E4 & _). split; [apply (ids_same s); txs; by rewrite ?E4, ?E2|].
      unfold conserved in *. txs. rewrite E3, E4, E1, E2, HC, Ep. cbn. solve_Permutation.
Qed.

Lemma tx_gather s : tx_ok s -> tx_ok (runGather s).
Proof.
  intros [HI HC]. unfold runGather. destruct (pc s) as [| | |batch [|n]| | | | ] eqn:Ep; try done. destruct (MaxBatchBytes <=? Bytes batch).
  { split; [by apply (ids_same s)|]. unfold conserved in *. txs. by rewrite HC, Ep. }
  destruct (pch (port s)) as [|f ch] eqn:Ec; [done|]. set (p0 := set_input ch _ _ (port s)). destruct (dequeue_fields (lenZ f) p0) as (E1 & E2 & _). cbn in E1, E2.
  set (p1 := noteInputDequeued (lenZ f) p0) in *. clearbody p1. destruct (length f =? 0)%nat.
  - split; [apply (ids_same s); txs; by rewrite ?E2|]. unfold conserved in *. txs. rewrite E1, E2, HC, Ep, Ec. cbn. solve_Permutation.
  - destruct (nextSeq_fields p1) as (E3 & E4 & _). destruct (nextSeq p1) as [[p q] h]. cbn in E3, E4. destruct q as [q|].
    + split; [apply (ids_same s); txs; by rewrite ?E4, ?E2|]. unfold conserved in *. txs. rewrite E3, E4, E1, E2, HC, Ep, Ec. txs.
      rewrite bufsOf_append. cbn. solve_Permutation.
    + destruct (dropN_fields 1 p) as (E5 & E6 & _). split; [apply (ids_same s); txs; by rewrite ?E6, ?E4, ?E2|].
      unfold conserved in *. txs. rewrite E5, E6, E3, E4, E1, E2, HC, Ep, Ec. cbn. solve_Permutation.
Qed.

Lemma tx_dispatch f now s : tx_ok s -> tx_ok (dispatchOwnedBatch f now s).
Proof.
  intros [HI HC]. unfold dispatchOwnedBatch. destruct (pc s) as [| | | |batch| | | ] eqn:Ep; try done.
  destruct (backends (port s)) as [|b0 bs0] eqn:Eb.
  - destruct (dropN_fields (lenZ (Frames batch)) (port s)) as (E1 & E2 & _). split; [apply (ids_same s); txs; by rewrite ?E2|].
    unfold conserved in *. txs. rewrite E1, E2, HC, Ep. cbn. solve_Permutation.
  - destruct (pressure_fields f now (Bytes batch) (port s)) as (E1 & E2 & E3 & _). destruct (schedulerPressureFor f now (Bytes batch) (port s)) as [p pr].
    cbn [fst] in *. cbn [backends set_encoder]. set (r := pickAdaptiveBackend _ _ _ _ _ _). pose proof (pick_frame (backends p) pr (inputRateBytesPerSec p) (Bytes batch) (activePaths p) (preferred p)) as HF.
    change (pickAdaptiveBackend _ _ _ _ _ _) with r in HF. clearbody r. cbn [encoder set_backends]. rewrite E2 in HF.
    destruct (setPhysicalPathCount _ <$> encoder p) as [e|]; cbn [encoder set_encoder].
    + destruct (encodeBatch (Frames batch) e) as [e' pars]. split.
      * apply (ids_same s); txs; [by apply fmap_frame_ids|lia|done].
      * unfold conserved in *. txs. rewrite E1, (queuesOf_frame bufsOf _ _ HF). trans (pars ++ (given s ++ made s)); [solve_Permutation|]. rewrite HC, Ep. cbn. solve_Permutation.
    + split; [apply (ids_same s); txs; [by apply fmap_frame_ids|lia|done]|]. unfold conserved in *. txs. rewrite E1, (queuesOf_frame bufsOf _ _ HF), HC, Ep. cbn. solve_Permutation.
Qed.

Lemma tx_try s : tx_ok s -> tx_ok (runTry s).
Proof.
  intros [HI HC]. unfold runTry. destruct (pc s) as [| | | | |batch best pars tried| | ] eqn:Ep; try done.
  pose proof (tryAll_spec (encoder (port s)) batch best (backends (port s)) (io_nodup _ HI)) as HT.
  destruct (tryAll _ _ _ _) as [[[bs r] mk] back]. destruct HT as [H1 H2]. destruct r as [[i out]|].
  - split; [by apply (ids_same s)|]. unfold conserved in *. txs. trans (mk ++ (given s ++ made s)); [solve_Permutation|]. rewrite HC, Ep. cbn.
    trans (returned s ++ lost s ++ spent s ++ gone s ++ pch (port s) ++ pars ++ (queueBufs (backends (port s)) ++ mk ++ bufsOf batch)); [solve_Permutation|].
    rewrite <- H2. solve_Permutation.
  - split; [by apply (ids_same s)|]. rewrite app_nil_r in H2. unfold conserved in *. txs. trans (mk ++ (given s ++ made s)); [solve_Permutation|]. rewrite HC, Ep. cbn.
    trans (returned s ++ lost s ++ spent s ++ gone s ++ pch (port s) ++ bufsOf batch ++ pars ++ (queueBufs (backends (port s)) ++ mk)); [solve_Permutation|].
    rewrite <- H2. solve_Permutation.
Qed.

Lemma tx_parity s : tx_ok s -> tx_ok (runParity s).
Proof.
  intros [HI HC]. unfold runParity. destruct (pc s) as [| | | | | |best [|par pars]| ] eqn:Ep; try done.
  { split; [by apply (ids_same s)|]. unfold conserved in *. txs. by rewrite HC, Ep. }
  destruct (lenZ (backends (port s)) <? 2).
  { split; [by apply (ids_same s)|]. unfold conserved in *. txs. rewrite HC, Ep. cbn. solve_Permutation. }
  destruct (pickParityBackend _ _ _) as [target next]. txs. destruct (target ≫= _) as [b|] eqn:Ef.
  - apply bind_Some in Ef as (i & _ & Ef). destruct (findB_elem _ _ _ Ef) as [_ <-].
    pose proof (sendOwnedFrameTo_spec (mkFrame 0 par) b) as HS. destruct (sendOwnedFrameTo _ b) as [b' r]. destruct HS as (H1 & _ & _ & H2).
    destruct r as [out|].
    + destruct H2 as (_ & H2 & ->). split; [apply (ids_same s); txs; [by apply updB_ids|lia|done]|]. unfold conserved in *. txs.
      pose proof (queuesOf_updB bufsOf (bid b) b b' _ (io_nodup _ HI) Ef) as HQ. rewrite H2, fmap_app, concat_app in HQ. cbn in HQ.
      assert (queueBufs (updB (bid b) b' (backends (port s))) ≡ₚ queueBufs (backends (port s)) ++ [par]) as ->.
      { apply (Permutation_app_inv_r (concat (bufsOf <$> bqueue b))). rewrite HQ. solve_Permutation. }
      rewrite HC, Ep. cbn. solve_Permutation.
    + destruct H2 as [_ H2]. set (p' := set_backends _ _ _ _). destruct (dropN_fields 1 p') as (E1 & E2 & _).
      split; [apply (ids_same s); txs; [rewrite E2; by apply updB_ids|lia|done]|]. unfold conserved in *. txs. rewrite E1, E2. unfold p'. txs.
      rewrite (queuesOf_same bufsOf (bid b) b b' _ (io_nodup _ HI) Ef H2). rewrite HC, Ep. cbn. solve_Permutation.
  - set (p' := set_parity _ _ _ _). destruct (dropN_fields 1 p') as (E1 & E2 & _). split; [apply (ids_same s); txs; by rewrite ?E2|].
    unfold conserved in *. txs. rewrite E1, E2. unfold p'. txs. rewrite HC, Ep. cbn. solve_Permutation.
Qed.

Lemma filter_ids (bs : list Backend) (id : nat) : bid <$> filter (fun b => bid b <> id) bs = filter (fun i => i <> id) (bid <$> bs).
Proof. induction bs as [|b bs IH]; [done|]. rewrite fmap_cons, !filter_cons. destruct (decide (bid b <> id)); cbn; by rewrite IH. Qed.

Lemma queuesOf_filter {A} (f : VPNFrameBatch -> list A) id bs : NoDup (bid <$> bs) ->
  concat (f <$> default [] (bqueue <$> findB id bs)) ++ queuesOf f (filter (fun b => bid b <> id) bs) ≡ₚ queuesOf f bs.
Proof.
  unfold findB. induction bs as [|b bs IH]; intros HN; [done|]. rewrite fmap_cons, NoDup_cons in HN. destruct HN as [Hb HN]. rewrite !filter_cons.
  destruct (decide (bid b = id)) as [E|E].
  - rewrite (decide_False (P := bid b <> id)) by (intros H; done). cbn. rewrite filter_all; [done|]. apply Forall_forall. intros x Hx Ex.
    apply Hb. rewrite E, <- Ex. by apply list_elem_of_fmap_2.
  - rewrite decide_True by done. unfold queuesOf in *. cbn. rewrite <- (IH HN). solve_Permutation.
Qed.

Lemma observe_frame f now n b : exists r x y, observeDelivered f now n b = set_rate r x y b.
Proof.
  unfold observeDelivered. destruct (n =? 0); [exists (rateBytesPerSec b), (rateSampleBytes b), (rateSampleStart b); by destruct b|].
  destruct (rateSampleStart b) as [st|]; [|by eauto]. destruct (_ <? adaptiveRateSampleMinBytes); [by eauto|].
  destruct (adaptiveRateSampleMaxInterval <? _); [by eauto|]. destruct (now - st <? _); [by eauto|]. destruct (_ =? 0); by eauto.
Qed.

Lemma tx_step f op s : tx_ok s -> tx_ok (txStep f s op).
Proof.
  intros Hok. destruct op; cbn [txStep]; auto using tx_write, tx_take, tx_wait, tx_gather, tx_dispatch, tx_try, tx_parity.
  - unfold WriteFrame. destruct (pclosed _); [done|]. by apply tx_write.
  - destruct Hok as [HI HC]. split; [by apply (ids_same s)|done].
  - unfold register. destruct (unlocked _); [|done]. destruct Hok as [[H1 H2] HC]. split; [split|].
    + txs. unfold RegisterOwnedBackend. txs. rewrite fmap_app, NoDup_app. split_and!; [done| |apply NoDup_singleton].
      intros i Hi Hn. cbn in Hn. apply list_elem_of_singleton in Hn as ->. apply list_elem_of_fmap in Hi as (b & E & Hb).
      rewrite Forall_forall in H2. specialize (H2 b Hb). cbn in H2. lia.
    + txs. unfold RegisterOwnedBackend. txs. apply Forall_app. split; [eapply Forall_impl; [exact H2|cbn; lia]|]. constructor; [cbn; lia|constructor].
    + unfold conserved in *. txs. rewrite HC. unfold RegisterOwnedBackend, queuesOf. txs. rewrite fmap_app, concat_app. cbn. solve_Permutation.
  - unfold unregister. destruct (unlocked _); [|done]. destruct Hok as [[H1 H2] HC]. split; [split|].
    + txs. unfold UnregisterOwnedBackend. txs. rewrite filter_ids. by apply NoDup_filter.
    + txs. unfold UnregisterOwnedBackend. txs. apply Forall_forall. intros b Hb. apply list_elem_of_filter in Hb as [_ Hb]. rewrite Forall_forall in H2. by apply H2.
    + unfold conserved in *. txs. rewrite HC. unfold UnregisterOwnedBackend. txs. rewrite <- (queuesOf_filter bufsOf id (backends (port s)) H1) at 1. solve_Permutation.
  - unfold runSnapshot. destruct (pc s) eqn:Ep; try done. destruct Hok as [HI HC]. split; [by apply (ids_same s)|]. unfold conserved in *. txs. by rewrite HC, Ep.
  - unfold runGathered. destruct (pc s) as [| | |batch [|n]| | | | ] eqn:Ep; try done. destruct Hok as [HI HC]. split; [by apply (ids_same s)|]. unfold conserved in *. txs. by rewrite HC, Ep.
  - unfold runGiveUp. destruct (pc s) as [| | | | |batch best pars [|]| | ] eqn:Ep; try done. destruct Hok as [HI HC].
    destruct (dropN_fields (lenZ (Frames batch)) (port s)) as (E1 & E2 & _). split; [apply (ids_same s); txs; by rewrite ?E2|].
    unfold conserved in *. txs. rewrite E1, E2, HC, Ep. cbn. solve_Permutation.
  - unfold runExit. destruct (pc s) eqn:Ep; try done. destruct (pclosed _); [|done]. destruct Hok as [HI HC]. split; [by apply (ids_same s)|]. unfold conserved in *. txs. by rewrite HC, Ep.
  - unfold runReset. destruct (pc s) eqn:Ep; try done. destruct (pclosed _); [done|]. destruct Hok as [HI HC]. split.
    + apply (ids_same s); txs; [|lia|done]. by rewrite <- list_fmap_compose.
    + unfold conserved in *. txs. rewrite HC, Ep. unfold queuesOf. by rewrite <- list_fmap_compose.
  - unfold writerTake. destruct (findB id _) as [b|] eqn:Ef; [|done]. destruct (bqueue b) as [|batch q] eqn:Eq; [done|]. destruct Hok as [HI HC].
    destruct (findB_elem _ _ _ Ef) as [_ Ei]. split; [apply (ids_same s); txs; [by apply updB_ids|lia|done]|]. unfold conserved in *. txs. rewrite HC.
    pose proof (queuesOf_updB bufsOf id b (set_q q (queuedBytes b) b) _ (io_nodup _ HI) Ef) as HQ. rewrite Eq in HQ. cbn in HQ.
    assert (queueBufs (backends (port s)) ≡ₚ queueBufs (updB id (set_q q (queuedBytes b) b) (backends (port s))) ++ bufsOf batch) as ->; [|solve_Permutation].
    apply (Permutation_app_inv_r (concat (bufsOf <$> q))). rewrite <- HQ. solve_Permutation.
  - unfold writerDone. destruct (findB id _) as [b|] eqn:Ef; [|done]. destruct Hok as [HI HC]. destruct (findB_elem _ _ _ Ef) as [_ Ei].
    set (b' := observeDelivered _ _ _ _). assert (bid b' = id /\ bqueue b' = bqueue b) as [E1 E2].
    { unfold b'. destruct (observe_frame f now (default 0 (flight s !! id)) (completeQueuedBytes (default 0 (flight s !! id)) b)) as (r & x & y & ->).
      by rewrite completeQueued_eq. }
    split; [apply (ids_same s); txs; [by apply updB_ids|lia|done]|]. unfold conserved in *. txs. rewrite HC. by rewrite (queuesOf_same bufsOf id b b' _ (io_nodup _ HI) Ef E2).
  - unfold linkChange. destruct (findB id _) as [b|] eqn:Ef; [|done]. destruct Hok as [HI HC]. destruct (findB_elem _ _ _ Ef) as [_ Ei].
    split; [apply (ids_same s); txs; [by apply updB_ids|lia|done]|]. unfold conserved in *. txs. rewrite HC. by rewrite (queuesOf_same bufsOf id b _ _ (io_nodup _ HI) Ef).
Qed.

Lemma tx_exec f ops s : tx_ok s -> tx_ok (txExec f ops s).
Proof. revert s. induction ops as [|op ops IH]; intros s Hs; [done|]. by apply IH, tx_step. Qed.

Lemma tx_ok0 : tx_ok tx0.
Proof. split; [split; [constructor|constructor]|]. vm_compute. constructor. Qed.

(** *** The outcome of an attempt, backend by backend *)

(** Only the byte counter differs. *)
Definition bytesOnly (b b' : Backend) : Prop := b' = set_q (bqueue b) (queuedBytes b') b.

Lemma bytesOnly_refl b : bytesOnly b b.
Proof. by destruct b. Qed.
Lemma bytesOnly_trans a b c : bytesOnly a b -> bytesOnly b c -> bytesOnly a c.
Proof. unfold bytesOnly. intros H1 H2. rewrite H2, H1. done. Qed.
#[export] Instance bytesOnly_preorder : PreOrder bytesOnly.
Proof. split; [exact bytesOnly_refl|exact bytesOnly_trans]. Qed.

Lemma updB_Forall2 (R : Backend -> Backend -> Prop) i b b' bs : Reflexive R -> NoDup (bid <$> bs) -> findB i bs = Some b -> R b b' -> Forall2 R bs (updB i b' bs).
Proof.
  intros HR HN Hf H. destruct (updB_exchange i b b' bs HN Hf) as (l1 & l2 & -> & ->).
  apply Forall2_app; [reflexivity|]. constructor; [done|reflexivity].
Qed.

Lemma trySend_None enc batch b b' fence : trySend enc batch b = (b', None, fence) -> bytesOnly b b'.
Proof.
  unfold trySend. set (out := match fenceFor enc b with Some c => withFence c batch | None => batch end).
  pose proof (tryQueue_spec out (addQueuedBytes (Bytes out) b)) as H. destruct (tryQueueOwnedBatch _ _) as [b1 ok]. destruct H as [_ ->].
  destruct ok; [done|]. intros [= <- _]. rewrite completeQueued_eq, addQueued_eq. done.
Qed.

Lemma trySend_Some enc batch b b' out fence : trySend enc batch b = (b', Some out, fence) ->
  queueHasRoom b = true /\ bid b' = bid b /\ bcap b' = bcap b /\ bqueue b' = bqueue b ++ [out] /\
  match fenceFor enc b with
  | Some c => out = withFence c batch /\ fecFenceGen b' = Generation c
  | None => out = batch /\ fecFenceGen b' = fecFenceGen b
  end.
Proof.
  unfold trySend. set (o := match fenceFor enc b with Some c => withFence c batch | None => batch end).
  pose proof (tryQueue_spec o (addQueuedBytes (Bytes o) b)) as H. destruct (tryQueueOwnedBatch _ _) as [b1 ok]. destruct H as [Hok ->].
  destruct ok; [|done]. intros [= <- <- _]. rewrite addQueued_eq in *. unfold o. destruct (fenceFor enc b); split_and!; done.
Qed.

Lemma tryIDs_outcome enc batch ids bs : NoDup (bid <$> bs) ->
  match tryIDs enc batch ids bs with
  | (bs', Some (i, out), _, _) => exists bs1 b b' fence, Forall2 bytesOnly bs bs1 /\ i ∈ ids /\ findB i bs1 = Some b /\
      trySend enc batch b = (b', Some out, fence) /\ bs' = updB i b' bs1
  | (bs', None, _, _) => Forall2 bytesOnly bs bs' /\ forall i b, i ∈ ids -> findB i bs = Some b -> queueHasRoom b = false
  end.
Proof.
  revert bs. induction ids as [|i ids IH]; intros bs HN; cbn [tryIDs]; [split; [reflexivity|by intros i b ?%elem_of_nil]|].
  destruct (findB i bs) as [b|] eqn:Ef.
  - destruct (trySend enc batch b) as [[b' r] fence] eqn:Es. destruct r as [out|].
    + exists bs, b, b', fence. split_and!; [reflexivity|by left|done|done|done].
    + pose proof (trySend_None _ _ _ _ _ Es) as Hb. assert (bid b' = i) as Hi by (rewrite Hb; by apply findB_elem in Ef as [_ ?]).
      assert (NoDup (bid <$> updB i b' bs)) as HN' by (by rewrite updB_ids). specialize (IH (updB i b' bs) HN').
      assert (Forall2 bytesOnly bs (updB i b' bs)) as HF by (eapply updB_Forall2; eauto using bytesOnly_refl; apply _).
      destruct (tryIDs enc batch ids (updB i b' bs)) as [[[bs' r] mk] back]. destruct r as [[j out]|].
      * destruct IH as (bs1 & c & c' & f & H1 & H2 & H3 & H4 & H5). exists bs1, c, c', f. split_and!; [by etrans|by right|done|done|done].
      * destruct IH as [H1 H2]. split; [by etrans|]. intros j c Hj Hc. apply elem_of_cons in Hj as [->|Hj].
        -- rewrite Ef in Hc. injection Hc as <-. pose proof (trySend_spec enc batch b) as HS. rewrite Es in HS. tauto.
        -- destruct (decide (j = i)) as [->|Hne]; [rewrite Ef in Hc; injection Hc as <-; pose proof (trySend_spec enc batch b) as HS; rewrite Es in HS; tauto|].
           apply (H2 j c Hj). unfold updB. clear -Hc Hne Hi. unfold findB in *. induction bs as [|x bs IHb]; [done|]. rewrite fmap_cons, !filter_cons in *.
           case_bool_decide as E; [rewrite (decide_False (P := bid b' = j)) by congruence; rewrite (decide_False (P := bid x = j)) in Hc by congruence; by apply IHb|].
           destruct (decide (bid x = j)); [done|by apply IHb].
  - specialize (IH bs HN). destruct (tryIDs enc batch ids bs) as [[[bs' r] mk] back]. destruct r as [[j out]|].
    + destruct IH as (bs1 & c & c' & f & H1 & H2 & H3 & H4 & H5). exists bs1, c, c', f. split_and!; [done|by right|done|done|done].
    + destruct IH as [H1 H2]. split; [done|]. intros j c [->|Hj]%elem_of_cons Hc; [congruence|eauto].
Qed.

Lemma bytesOnly_facts b b' : bytesOnly b b' -> bid b' = bid b /\ bqueue b' = bqueue b /\ bcap b' = bcap b /\ fecFenceGen b' = fecFenceGen b /\ queueHasRoom b' = queueHasRoom b.
Proof. intros ->. by destruct b. Qed.

Lemma bytesOnly_ids bs bs' : Forall2 bytesOnly bs bs' -> bid <$> bs' = bid <$> bs.
Proof. induction 1 as [|b b' bs bs' H _ IH]; [done|]. cbn. destruct (bytesOnly_facts b b' H) as [-> _]. by rewrite IH. Qed.

Lemma Forall2_findB (R : Backend -> Backend -> Prop) bs bs' i b' : (forall b b', R b b' -> bid b' = bid b) -> Forall2 R bs bs' -> findB i bs' = Some b' ->
  exists b, findB i bs = Some b /\ R b b'.
Proof.
  intros HR HF. unfold findB. induction HF as [|x x' bs bs' H _ IH]; [done|]. rewrite !filter_cons, (HR x x' H).
  destruct (decide (bid x = i)); [|done]. cbn. intros [= <-]. by exists x.
Qed.

(** What a successful round puts on a channel: the batch, behind the control in force
    if that backend has not carried it yet. *)
Lemma tryAll_outcome enc batch best bs : NoDup (bid <$> bs) ->
  match tryAll enc batch best bs with
  | (bs', Some (i, out), _, _) => exists bs1 b b' fence, Forall2 bytesOnly bs bs1 /\ findB i bs1 = Some b /\
      trySend enc batch b = (b', Some out, fence) /\ bs' = updB i b' bs1
  | (bs', None, _, _) => Forall2 bytesOnly bs bs' /\ Forall (fun b => queueHasRoom b = false) bs
  end.
Proof.
  intros HN. unfold tryAll. set (ids := match best with Some i => _ | None => _ end). pose proof (tryIDs_outcome enc batch ids bs HN) as H.
  destruct (tryIDs enc batch ids bs) as [[[bs' r] mk] back]. destruct r as [[i out]|].
  - destruct H as (bs1 & b & b' & f & H1 & _ & H2). by exists bs1, b, b', f.
  - destruct H as [H1 H2]. split; [done|]. apply Forall_forall. intros b Hb. apply (H2 (bid b) b); [|by apply findB_in].
    unfold ids. assert (bid b ∈ bid <$> bs) as Hi by (by apply list_elem_of_fmap_2). destruct best as [j|].
    + destruct (decide (bid b = j)) as [->|]; [by left|]. right. apply list_elem_of_filter. split; [congruence|done].
    + apply list_elem_of_filter. done.
Qed.

(** ** Numbers on the wire *)

Definition logFrames (l : list queued) : list VPNFrame := concat ((fun x => Frames (qbatch x)) <$> l).
Definition dataSeqs (fs : list VPNFrame) : list Z := filter (fun q => q <> 0) (Seq <$> fs).

Definition pcFrames (c : runPC) : list VPNFrame :=
  match c with RFirst b | RGather b _ | RDispatch b | RSend b _ _ _ => Frames b | _ => [] end.

Record num_inv (s : txSys) : Prop := {
  nu_range : 0 <= txSeq (port s) < 2 ^ 32;
  nu_batch : Seq <$> pcFrames (pc s) = seqZ (txSeq (port s) - lenZ (pcFrames (pc s)) + 1) (lenZ (pcFrames (pc s)));
  nu_fits : lenZ (pcFrames (pc s)) <= txSeq (port s);
  nu_sorted : StronglySorted Z.lt (dataSeqs (logFrames (elog s)));
  nu_below : Forall (fun q => 1 <= q <= txSeq (port s) - lenZ (pcFrames (pc s))) (dataSeqs (logFrames (elog s)))
}.

Lemma num_same s s' : txSeq (port s') = txSeq (port s) -> pcFrames (pc s') = pcFrames (pc s) -> elog s' = elog s -> num_inv s -> num_inv s'.
Proof. intros E1 E2 E3 [H1 H2 H3 H4 H5]. split; rewrite ?E1, ?E2, ?E3; done. Qed.

Lemma dataSeqs_app a b : dataSeqs (a ++ b) = dataSeqs a ++ dataSeqs b.
Proof. unfold dataSeqs. by rewrite fmap_app, filter_app. Qed.

Lemma logFrames_snoc l x : logFrames (l ++ [x]) = logFrames l ++ Frames (qbatch x).
Proof. unfold logFrames. rewrite fmap_app, concat_app. cbn. by rewrite app_nil_r. Qed.

Lemma dataSeqs_batch fs n a : Seq <$> fs = seqZ a n -> 1 <= a -> dataSeqs fs = seqZ a n.
Proof.
  intros E Ha. unfold dataSeqs. rewrite E. apply filter_all, Forall_forall. intros q Hq. apply elem_of_seqZ in Hq. lia.
Qed.

Lemma sorted_app (l1 l2 : list Z) m : StronglySorted Z.lt l1 -> StronglySorted Z.lt l2 -> Forall (fun q => q <= m) l1 -> Forall (fun q => m < q) l2 -> StronglySorted Z.lt (l1 ++ l2).
Proof.
  intros H1 H2 H3 H4. induction H1 as [|x l1 H1 IH Hx]; [done|]. apply Forall_cons in H3 as [Hm H3]. cbn. constructor; [auto|].
  apply Forall_app. split; [done|]. eapply Forall_impl; [exact H4|]. cbn. lia.
Qed.

(** The frames of the batch that a round puts on a channel. *)
Lemma trySend_frames enc batch b b' out fence : trySend enc batch b = (b', Some out, fence) ->
  Frames out = match fenceFor enc b with Some c => mkFrame 0 (appendFECModeControl [] c) :: Frames batch | None => Frames batch end.
Proof. intros H. apply trySend_Some in H as (_ & _ & _ & _ & H). by destruct (fenceFor enc b), H as [-> _]. Qed.

Lemma dataSeqs_sent enc batch b b' out fence : trySend enc batch b = (b', Some out, fence) -> dataSeqs (Frames out) = dataSeqs (Frames batch).
Proof. intros H. rewrite (trySend_frames _ _ _ _ _ _ H). by destruct (fenceFor enc b). Qed.

Lemma nextSeq_spec p : let '(p', q, h) := nextSeq p in 0 <= txSeq p < 2 ^ 32 ->
  match q with
  | Some q => q = txSeq p + 1 /\ txSeq p' = q /\ q < 2 ^ 32
  | None => txSeq p = 2 ^ 32 - 1 /\ txSeq p' = txSeq p
  end.
Proof.
  unfold nextSeq. destruct (txSeq p =? 2 ^ 32 - 1) eqn:E; intros H; [split; [lia|done]|]. cbn [txSeq set_number].
  rewrite u32_small by (widths; lia). split_and!; [done|done|lia].
Qed.

Lemma num_append s p batch q f c : num_inv s -> pcFrames (pc s) = Frames batch -> txSeq p = q -> q = txSeq (port s) + 1 -> q < 2 ^ 32 ->
  pcFrames c = Frames batch ++ [mkFrame q f] -> num_inv (set_run p c s).
Proof.
  intros [H1 H2 H3 H4 H5] Ep E1 E2 E3 Ec. rewrite Ep in *. assert (lenZ (Frames batch ++ [mkFrame q f]) = lenZ (Frames batch) + 1) as EL by (unfold lenZ; rewrite length_app; cbn; lia).
  assert (0 <= lenZ (Frames batch)) by (unfold lenZ; lia). split; cbn [port pc elog set_run]; rewrite ?Ec, ?EL, ?E1; [lia| |lia|done|].
  - rewrite fmap_app, H2. replace (q - (lenZ (Frames batch) + 1) + 1) with (txSeq (port s) - lenZ (Frames batch) + 1) by lia.
    rewrite seqZ_app by lia. f_equal. cbn. rewrite seqZ_cons by lia. rewrite seqZ_nil by lia. f_equal. lia.
  - eapply Forall_impl; [exact H5|]. cbn. lia.
Qed.

Lemma num_write x s : num_inv s -> num_inv (WriteOwnedFrame x s).
Proof.
  intros HN. unfold WriteOwnedFrame. cbn [port account]. destruct (pclosed _); [by apply (num_same s)|].
  set (p2 := if 0 <? lenZ x then _ else _). assert (txSeq p2 = txSeq (port s)) as E by (unfold p2, noteInputQueued; by destruct (0 <? lenZ x)).
  clearbody p2. destruct (_ <? _); [by apply (num_same s)|]. apply (num_same s); txs; [|done..].
  destruct (dequeue_fields (lenZ x) p2) as (_ & _ & _ & E2 & _). destruct (dropN_fields 1 (noteInputDequeued (lenZ x) p2)) as (_ & _ & _ & -> & _). congruence.
Qed.

Lemma num_step f op s : tx_ok s -> num_inv s -> num_inv (txStep f s op).
Proof.
  intros [HI _] HN. assert (0 <= txSeq (port s) < 2 ^ 32) as HR by apply HN.
  destruct op; cbn [txStep].
  - by apply num_write.
  - unfold WriteFrame. destruct (pclosed _); [done|]. by apply num_write.
  - by apply (num_same s).
  - unfold register. destruct (unlocked _); [|done]. by apply (num_same s).
  - unfold unregister. destruct (unlocked _); [|done]. by apply (num_same s).
  - unfold runTake. destruct (pc s) eqn:Ep; try done. destruct (pch (port s)) as [|x ch]; [done|].
    set (p0 := set_input ch _ _ (port s)). destruct (dequeue_fields (lenZ x) p0) as (_ & _ & _ & E & _).
    destruct (length x =? 0)%nat; apply (num_same s); txs; by rewrite ?Ep.
  - unfold runWait. destruct (pc s) as [|x| | | | | | ] eqn:Ep; try done. destruct (waitForBackendSlot (port s)); [| |done].
    + destruct (dropN_fields 1 (port s)) as (_ & _ & _ & E & _). apply (num_same s); txs; by rewrite ?Ep.
    + pose proof (nextSeq_spec (port s)) as HS. destruct (nextSeq (port s)) as [[p q] h]. specialize (HS HR). destruct q as [q|].
      * destruct HS as (Hq & Hp & Hl). apply (num_append s p getOwnedVPNFrameBatch q x); [done|by rewrite Ep|done|done|done|done].
      * destruct HS as [_ HS]. destruct (dropN_fields 1 p) as (_ & _ & _ & E & _). apply (num_same s); txs; rewrite ?Ep; (done || congruence).
  - unfold runSnapshot. destruct (pc s) eqn:Ep; try done. apply (num_same s); txs; by rewrite ?Ep.
  - unfold runGather. destruct (pc s) as [| | |batch [|n]| | | | ] eqn:Ep; try done. destruct (MaxBatchBytes <=? Bytes batch); [apply (num_same s); txs; by rewrite ?Ep|].
    destruct (pch (port s)) as [|x ch]; [done|]. set (p0 := set_input ch _ _ (port s)). destruct (dequeue_fields (lenZ x) p0) as (_ & _ & _ & E & _). cbn [txSeq set_input p0] in E.
    set (p1 := noteInputDequeued (lenZ x) p0) in *. clearbody p1. destruct (length x =? 0)%nat; [apply (num_same s); txs; by rewrite ?Ep|].
    pose proof (nextSeq_spec p1) as HS. destruct (nextSeq p1) as [[p q] h]. rewrite E in HS. specialize (HS HR). destruct q as [q|].
    + destruct HS as (Hq & Hp & Hl). apply (num_append s p batch q x); [done|by rewrite Ep|done|done|done|done].
    + destruct HS as [_ HS]. destruct (dropN_fields 1 p) as (_ & _ & _ & E2 & _). apply (num_same s); txs; rewrite ?Ep; (done || congruence).
  - unfold runGathered. destruct (pc s) as [| | |batch [|n]| | | | ] eqn:Ep; try done. apply (num_same s); txs; by rewrite ?Ep.
  - unfold dispatchOwnedBatch. destruct (pc s) as [| | | |batch| | | ] eqn:Ep; try done. destruct (backends (port s)) as [|b0 bs0].
    + destruct (dropN_fields (lenZ (Frames batch)) (port s)) as (_ & _ & _ & E & _). destruct HN as [H1 H2 H3 H4 H5]. rewrite Ep in *.
      assert (0 <= lenZ (pcFrames (RDispatch batch))) by (unfold lenZ; lia). split; txs; rewrite ?E; try done; [unfold lenZ; cbn; lia|].
      eapply Forall_impl; [exact H5|]. unfold lenZ in *. cbn. lia.
    + destruct (pressure_fields f now (Bytes batch) (port s)) as (_ & _ & _ & E & _). destruct (schedulerPressureFor f now (Bytes batch) (port s)) as [p pr]. cbn [fst] in *.
      cbn zeta. destruct (encoder _) as [e|]; [destruct (encodeBatch _ e)|]; apply (num_same s); txs; by rewrite ?Ep.
  - unfold runTry. destruct (pc s) as [| | | | |batch best pars tried| | ] eqn:Ep; try done.
    pose proof (tryAll_outcome (encoder (port s)) batch best (backends (port s)) (io_nodup _ HI)) as HT.
    destruct (tryAll _ _ _ _) as [[[bs r] mk] back]. destruct r as [[i out]|]; [|apply (num_same s); txs; by rewrite ?Ep].
    destruct HT as (bs1 & b & b' & fence & _ & _ & HT & _). apply dataSeqs_sent in HT. destruct HN as [H1 H2 H3 H4 H5]. rewrite Ep in *. cbn [pcFrames] in *.
    assert (0 <= lenZ (Frames batch)) by (unfold lenZ; lia). rewrite (dataSeqs_batch _ _ _ H2) in HT by lia.
    split; txs; [done|done|unfold lenZ; cbn; lia| |]; rewrite logFrames_snoc, dataSeqs_app; cbn [qbatch]; rewrite HT.
    + apply (sorted_app _ _ (txSeq (port s) - lenZ (Frames batch))); [done|apply seqZ_sorted| |].
      * eapply Forall_impl; [exact H5|]. cbn. lia.
      * apply Forall_forall. intros q Hq. apply elem_of_seqZ in Hq. lia.
    + apply Forall_app. split.
      * eapply Forall_impl; [exact H5|]. cbn. unfold lenZ in *. cbn. lia.
      * apply Forall_forall. intros q Hq. apply elem_of_seqZ in Hq. unfold lenZ in *. cbn. lia.
  - unfold runGiveUp. destruct (pc s) as [| | | | |batch best pars [|]| | ] eqn:Ep; try done.
    destruct (dropN_fields (lenZ (Frames batch)) (port s)) as (_ & _ & _ & E & _). destruct HN as [H1 H2 H3 H4 H5]. rewrite Ep in *.
    assert (0 <= lenZ (pcFrames (RSend batch best pars true))) by (unfold lenZ; lia). split; txs; rewrite ?E; try done; [unfold lenZ; cbn; lia|].
    eapply Forall_impl; [exact H5|]. unfold lenZ in *. cbn. lia.
  - unfold runParity. destruct (pc s) as [| | | | | |best [|par pars]| ] eqn:Ep; try done; [apply (num_same s); txs; by rewrite ?Ep|].
    destruct (lenZ (backends (port s)) <? 2); [apply (num_same s); txs; by rewrite ?Ep|]. destruct (pickParityBackend _ _ _) as [target next].
    txs. destruct (target ≫= _) as [b|] eqn:Ef; [|set (p' := set_parity _ _ _ _); destruct (dropN_fields 1 p') as (_ & _ & _ & E & _); apply (num_same s); txs; by rewrite ?Ep].
    pose proof (sendOwnedFrameTo_spec (mkFrame 0 par) b) as HS. destruct (sendOwnedFrameTo _ b) as [b' r]. destruct HS as (_ & _ & _ & HS). destruct r as [out|].
    + destruct HS as (_ & _ & ->). destruct HN as [H1 H2 H3 H4 H5]. rewrite Ep in *. split; txs; try done; rewrite logFrames_snoc, dataSeqs_app; cbn; rewrite app_nil_r; done.
    + set (p' := set_backends _ _ _ _). destruct (dropN_fields 1 p') as (_ & _ & _ & E & _). apply (num_same s); txs; by rewrite ?Ep.
  - unfold runExit. destruct (pc s) eqn:Ep; try done. destruct (pclosed _); [|done]. apply (num_same s); txs; by rewrite ?Ep.
  - unfold runReset. destruct (pc s) eqn:Ep; try done. destruct (pclosed _); [done|]. split; txs; try done; try constructor; lia.
  - unfold writerTake. destruct (findB id _) as [b|]; [|done]. destruct (bqueue b); [done|]. by apply (num_same s).
  - unfold writerDone. destruct (findB id _) as [b|]; [|done]. by apply (num_same s).
  - unfold linkChange. destruct (findB id _) as [b|]; [|done]. by apply (num_same s).
Qed.

Lemma num_inv0 : num_inv tx0.
Proof. split; cbn; try lia; try constructor; done. Qed.

Lemma exec_both f ops s : tx_ok s -> num_inv s -> tx_ok (txExec f ops s) /\ num_inv (txExec f ops s).
Proof. revert s. induction ops as [|op ops IH]; intros s H1 H2; [done|]. apply IH; [by apply tx_step|by apply num_step]. Qed.

(** *** A numbered frame gets a slot *)

Definition hasRoom (bs : list Backend) : Prop := exists b, b ∈ bs /\ queueHasRoom b = true.

Definition slotKept (s : txSys) : Prop :=
  match pc s with
  | RFirst _ | RGather _ _ | RDispatch _ => hasRoom (backends (port s))
  | RSend _ _ _ tried => hasRoom (backends (port s)) /\ tried = false
  | _ => True
  end.

Definition tight (s : txSys) : Prop := dataSeqs (logFrames (elog s)) ++ (Seq <$> pcFrames (pc s)) = seqZ 1 (txSeq (port s)).

Definition keepsConns (op : txOp) : Prop := match op with TUnregister _ => False | _ => True end.

Lemma room_updB i b b' bs : NoDup (bid <$> bs) -> findB i bs = Some b -> bcap b' = bcap b -> lenZ (bqueue b') <= lenZ (bqueue b) ->
  hasRoom bs -> hasRoom (updB i b' bs).
Proof.
  intros HN Hf Hc Hl (x & Hx & Hr). destruct (updB_exchange i b b' bs HN Hf) as (l1 & l2 & -> & ->).
  apply elem_of_app in Hx as [Hx|[->|Hx]%elem_of_cons]; [exists x; set_solver| |exists x; set_solver].
  exists b'. split; [set_solver|]. unfold queueHasRoom, queueLen, queueCap in *. rewrite Hc. lia.
Qed.

Lemma room_frame bs bs' : Forall2 schedEq bs bs' -> hasRoom bs -> hasRoom bs'.
Proof.
  intros HF (b & Hb & Hr). apply list_elem_of_lookup in Hb as [i Hi]. destruct (Forall2_lookup_l _ _ _ _ _ HF Hi) as (b' & Hb' & HE).
  exists b'. split; [by eapply list_elem_of_lookup_2|]. apply schedEq_facts in HE as (_ & _ & _ & _ & _ & _ & _ & E1 & E2).
  unfold queueHasRoom, queueLen, queueCap in *. by rewrite E1, E2.
Qed.

Lemma slot_room p : waitForBackendSlot p = GotSlot -> hasRoom (backends p).
Proof.
  unfold waitForBackendSlot. destruct (pclosed p); [done|]. destruct (preferred p ≫= _) as [b|] eqn:E.
  - destruct (queueHasRoom b) eqn:Er.
    + intros _. apply bind_Some in E as (i & _ & E). apply findB_elem in E as [E _]. by exists b.
    + destruct (backends p) as [|x bs] eqn:Eb; [done|]. destruct (existsb queueHasRoom (x :: bs)) eqn:Ee; [|done].
      intros _. apply existsb_exists in Ee as (y & Hy & Hr). exists y. by rewrite list_elem_of_In.
  - destruct (backends p) as [|x bs] eqn:Eb; [done|]. destruct (existsb queueHasRoom (x :: bs)) eqn:Ee; [|done].
    intros _. apply existsb_exists in Ee as (y & Hy & Hr). exists y. by rewrite list_elem_of_In.
Qed.

Lemma tight_same s s' : txSeq (port s') = txSeq (port s) -> pcFrames (pc s') = pcFrames (pc s) -> elog s' = elog s -> tight s -> tight s'.
Proof. unfold tight. by intros -> -> ->. Qed.

Lemma tight_append s p batch q f c : num_inv s -> tight s -> pcFrames (pc s) = Frames batch -> txSeq p = q -> q = txSeq (port s) + 1 ->
  pcFrames c = Frames batch ++ [mkFrame q f] -> tight (set_run p c s).
Proof.
  intros HN HT Ep E1 E2 Ec. unfold tight in *. txs. rewrite Ec, E1, fmap_app, app_assoc. rewrite Ep in HT. rewrite HT, E2.
  pose proof (nu_range _ HN). rewrite seqZ_app by lia. f_equal. rewrite seqZ_cons by lia. rewrite seqZ_nil by lia. cbn. f_equal. lia.
Qed.

Lemma slot_step f op s : tx_ok s -> num_inv s -> slotKept s -> tight s -> keepsConns op -> slotKept (txStep f s op) /\ tight (txStep f s op).
Proof.
  intros [HI HC] HN HS HT Hop. pose proof (io_nodup _ HI) as HND. assert (0 <= txSeq (port s) < 2 ^ 32) as HR by apply HN.
  assert (forall x, slotKept (WriteOwnedFrame x s) /\ tight (WriteOwnedFrame x s)) as HW.
  { intros x. unfold WriteOwnedFrame. cbn [port account]. destruct (pclosed _); [done|].
    set (p2 := if 0 <? lenZ x then _ else _). assert (txSeq p2 = txSeq (port s) /\ backends p2 = backends (port s)) as [E1 E2] by (unfold p2, noteInputQueued; by destruct (0 <? lenZ x)).
    clearbody p2. destruct (_ <? _); [split; [unfold slotKept; txs; by rewrite E2|by apply (tight_same s)]|].
    destruct (dequeue_fields (lenZ x) p2) as (_ & F1 & _ & F2 & _). destruct (dropN_fields 1 (noteInputDequeued (lenZ x) p2)) as (_ & F3 & _ & F4 & _).
    split; [unfold slotKept; txs; by rewrite F3, F1, E2|]. apply (tight_same s); txs; [congruence|done..]. }
  destruct op; cbn [txStep].
  - apply HW.
  - unfold WriteFrame. destruct (pclosed _); [done|]. apply HW.
  - done.
  - unfold register. destruct (unlocked _) eqn:Eu; [|done]. split; [|by apply (tight_same s)]. unfold slotKept in *. txs. unfold RegisterOwnedBackend. txs.
    assert (hasRoom (backends (port s)) -> hasRoom (backends (port s) ++ [newBackend (nextID s) capacity rtt])) as HA by (intros (b & Hb & Hr); exists b; set_solver).
    destruct (pc s); auto; discriminate.
  - done.
  - unfold runTake. destruct (pc s) eqn:Ep; try done. destruct (pch (port s)) as [|x ch]; [done|].
    set (p0 := set_input ch _ _ (port s)). destruct (dequeue_fields (lenZ x) p0) as (_ & _ & _ & E & _).
    destruct (length x =? 0)%nat; (split; [done|]); apply (tight_same s); txs; by rewrite ?Ep.
  - unfold runWait. destruct (pc s) as [|x| | | | | | ] eqn:Ep; try done. destruct (waitForBackendSlot (port s)) eqn:Ew; [| |done].
    + destruct (dropN_fields 1 (port s)) as (_ & _ & _ & E & _). split; [done|]. apply (tight_same s); txs; by rewrite ?Ep.
    + pose proof (nextSeq_spec (port s)) as HQ. destruct (nextSeq_fields (port s)) as (_ & EB & _). destruct (nextSeq (port s)) as [[p q] h]. cbn [fst] in EB. specialize (HQ HR). destruct q as [q|].
      * destruct HQ as (Hq & Hp & Hl). split; [unfold slotKept; txs; rewrite EB; by apply slot_room|].
        apply (tight_append s p getOwnedVPNFrameBatch q x); [done|done|by rewrite Ep|done|done|done].
      * destruct HQ as [_ HQ]. destruct (dropN_fields 1 p) as (_ & _ & _ & E & _). split; [done|]. apply (tight_same s); txs; rewrite ?Ep; (done || congruence).
  - unfold runSnapshot. destruct (pc s) eqn:Ep; try done. split; [unfold slotKept in *; txs; by rewrite Ep in HS|]. apply (tight_same s); txs; by rewrite ?Ep.
  - unfold runGather. destruct (pc s) as [| | |batch [|n]| | | | ] eqn:Ep; try done. unfold slotKept in HS. rewrite Ep in HS.
    destruct (MaxBatchBytes <=? Bytes batch); [split; [done|]; apply (tight_same s); txs; by rewrite ?Ep|].
    destruct (pch (port s)) as [|x ch]; [unfold slotKept; by rewrite Ep|]. set (p0 := set_input ch _ _ (port s)). destruct (dequeue_fields (lenZ x) p0) as (_ & EB & _ & E & _).
    cbn [txSeq backends set_input p0] in E, EB. set (p1 := noteInputDequeued (lenZ x) p0) in *. clearbody p1.
    destruct (length x =? 0)%nat; [split; [unfold slotKept; txs; by rewrite EB|]; apply (tight_same s); txs; by rewrite ?Ep|].
    pose proof (nextSeq_spec p1) as HQ. destruct (nextSeq_fields p1) as (_ & EB2 & _). destruct (nextSeq p1) as [[p q] h]. cbn [fst] in EB2. rewrite E in HQ. specialize (HQ HR). destruct q as [q|].
    + destruct HQ as (Hq & Hp & Hl). split; [unfold slotKept; txs; by rewrite EB2, EB|]. apply (tight_append s p batch q x); [done|done|by rewrite Ep|done|done|done].
    + destruct HQ as [_ HQ]. destruct (dropN_fields 1 p) as (_ & EB3 & _ & E2 & _). split; [unfold slotKept; txs; by rewrite EB3, EB2, EB|].
      apply (tight_same s); txs; rewrite ?Ep; (done || congruence).
  - unfold runGathered. destruct (pc s) as [| | |batch [|n]| | | | ] eqn:Ep; try done.
    unfold slotKept in HS. rewrite Ep in HS. split; [done|]. apply (tight_same s); txs; by rewrite ?Ep.
  - unfold dispatchOwnedBatch. destruct (pc s) as [| | | |batch| | | ] eqn:Ep; try done. unfold slotKept in HS. rewrite Ep in HS. destruct (backends (port s)) as [|b0 bs0] eqn:Eb.
    + by destruct HS as (b & Hb%elem_of_nil & _).
    + destruct (pressure_fields f now (Bytes batch) (port s)) as (_ & EB & _ & E & _). destruct (schedulerPressureFor f now (Bytes batch) (port s)) as [p pr]. cbn [fst] in *.
      cbn [backends set_encoder]. pose proof (pick_frame (backends p) pr (inputRateBytesPerSec p) (Bytes batch) (activePaths p) (preferred p)) as HF.
      rewrite EB, Eb in HF. apply room_frame in HF; [|done]. rewrite EB, Eb.
      cbn zeta. destruct (encoder _) as [e|]; [destruct (encodeBatch _ e)|]; (split; [by unfold slotKept; txs|]); apply (tight_same s); txs; by rewrite ?Ep.
  - unfold runTry. destruct (pc s) as [| | | | |batch best pars tried| | ] eqn:Ep; try done. unfold slotKept in HS. rewrite Ep in HS. destruct HS as [(x & Hx & Hr) _].
    pose proof (tryAll_outcome (encoder (port s)) batch best (backends (port s)) HND) as HO.
    destruct (tryAll _ _ _ _) as [[[bs r] mk] back]. destruct r as [[i out]|].
    + split; [done|]. destruct HO as (bs1 & b & b' & fence & _ & _ & HO & _). apply dataSeqs_sent in HO.
      pose proof (nu_batch _ HN) as HB. pose proof (nu_fits _ HN) as HF. unfold tight in *. txs. rewrite Ep in *. cbn [pcFrames] in *. rewrite logFrames_snoc, dataSeqs_app. cbn [qbatch].
      rewrite HO, (dataSeqs_batch _ _ _ HB) by lia. rewrite HB in HT. by rewrite app_nil_r.
    + destruct HO as [_ HO]. rewrite Forall_forall in HO. specialize (HO x Hx). cbn in HO. congruence.
  - unfold runGiveUp. destruct (pc s) as [| | | | |batch best pars [|]| | ] eqn:Ep; try done. unfold slotKept in HS. rewrite Ep in HS. by destruct HS.
  - unfold runParity. destruct (pc s) as [| | | | | |best [|par pars]| ] eqn:Ep; try done; [split; [done|]; apply (tight_same s); txs; by rewrite ?Ep|].
    destruct (lenZ (backends (port s)) <? 2); [split; [done|]; apply (tight_same s); txs; by rewrite ?Ep|]. destruct (pickParityBackend _ _ _) as [target next].
    txs. destruct (target ≫= _) as [b|] eqn:Ef; [|set (p' := set_parity _ _ _ _); destruct (dropN_fields 1 p') as (_ & _ & _ & E & _); split; [done|]; apply (tight_same s); txs; by rewrite ?Ep].
    pose proof (sendOwnedFrameTo_spec (mkFrame 0 par) b) as HO. destruct (sendOwnedFrameTo _ b) as [b' r]. destruct HO as (_ & _ & _ & HO). destruct r as [out|].
    + destruct HO as (_ & _ & ->). split; [done|]. unfold tight in *. txs. rewrite Ep in HT. cbn [pcFrames] in *. rewrite logFrames_snoc, dataSeqs_app. cbn. by rewrite app_nil_r.
    + set (p' := set_backends _ _ _ _). destruct (dropN_fields 1 p') as (_ & _ & _ & E & _). split; [done|]. apply (tight_same s); txs; by rewrite ?Ep.
  - unfold runExit. destruct (pc s) eqn:Ep; try done. destruct (pclosed _); [|done]. split; [done|]. apply (tight_same s); txs; by rewrite ?Ep.
  - unfold runReset. destruct (pc s) eqn:Ep; try done. destruct (pclosed _); [done|]. by split.
  - unfold writerTake. destruct (findB id _) as [b|] eqn:Ef; [|done]. destruct (bqueue b) as [|x q] eqn:Eq; [done|]. split; [|by apply (tight_same s)].
    assert (hasRoom (backends (port s)) -> hasRoom (updB id (set_q q (queuedBytes b) b) (backends (port s)))) as HA.
    { apply (room_updB id b); [done|done|done|]. rewrite Eq. unfold lenZ. cbn. lia. }
    unfold slotKept in *. txs. destruct (pc s); auto. destruct HS. auto.
  - unfold writerDone. destruct (findB id _) as [b|] eqn:Ef; [|done]. split; [|by apply (tight_same s)].
    set (b' := observeDelivered _ _ _ _). assert (bcap b' = bcap b /\ bqueue b' = bqueue b) as [E1 E2].
    { unfold b'. destruct (observe_frame f now (default 0 (flight s !! id)) (completeQueuedBytes (default 0 (flight s !! id)) b)) as (r & x & y & ->). by rewrite completeQueued_eq. }
    assert (hasRoom (backends (port s)) -> hasRoom (updB id b' (backends (port s)))) as HA by (apply (room_updB id b); [done|done|done|rewrite E2; lia]).
    unfold slotKept in *. txs. destruct (pc s); auto. destruct HS. auto.
  - unfold linkChange. destruct (findB id _) as [b|] eqn:Ef; [|done]. split; [|by apply (tight_same s)].
    assert (hasRoom (backends (port s)) -> hasRoom (updB id (set_link rtt carry b) (backends (port s)))) as HA by (apply (room_updB id b); [done|done|done|cbn; lia]).
    unfold slotKept in *. txs. destruct (pc s); auto. destruct HS. auto.
Qed.

(** *** The drop counter *)

Definition drops_ok (s : txSys) : Prop := dropped (port s) = u64 (lenZ (lost s)).

Lemma u64_add a n : 0 <= n -> u64 (u64 a + n) = u64 (a + n).
Proof. intros _. unfold u64. by rewrite Zplus_mod_idemp_l. Qed.

Lemma drops_same s s' : dropped (port s') = dropped (port s) -> lost s' = lost s -> drops_ok s -> drops_ok s'.
Proof. unfold drops_ok. by intros -> ->. Qed.

Lemma drops_more s s' p n l : drops_ok s -> port s' = dropN n p -> dropped p = dropped (port s) -> lost s' = l ++ lost s -> lenZ l = n -> drops_ok s'.
Proof.
  unfold drops_ok. intros HD Ep Ed El En. rewrite Ep, El. unfold dropN. assert (lenZ (l ++ lost s) = lenZ (lost s) + n) as -> by (unfold lenZ in *; rewrite length_app; lia).
  destruct (0 <? n) eqn:E; cbn [dropped]; rewrite Ed, HD; [by apply u64_add; lia|]. assert (n = 0) as -> by (unfold lenZ in *; lia). by rewrite Z.add_0_r.
Qed.

Lemma drops_input n p : dropped (noteInputDequeued n p) = dropped p /\ dropped (noteInputQueued n p) = dropped p.
Proof. unfold noteInputDequeued, noteInputQueued. by destruct (n <=? 0), (0 <? n). Qed.
Lemma drops_nextSeq p : dropped (nextSeq p).1.1 = dropped p.
Proof. unfold nextSeq. by destruct (txSeq p =? 2 ^ 32 - 1). Qed.
Lemma drops_pressure f now n p : dropped (schedulerPressureFor f now n p).1 = dropped p.
Proof. unfold schedulerPressureFor, observeInputDemand. destruct (demandSampleAt p) as [a|]; [|done]. by destruct (now - a <? _). Qed.

Lemma drops_write x s : drops_ok s -> drops_ok (WriteOwnedFrame x s).
Proof.
  intros HD. unfold WriteOwnedFrame. cbn [port account]. destruct (pclosed _); [by apply (drops_same s)|].
  set (p2 := if 0 <? lenZ x then _ else _). assert (dropped p2 = dropped (port s)) as E by (unfold p2, noteInputQueued; by destruct (0 <? lenZ x)).
  clearbody p2. destruct (_ <? _); [by apply (drops_same s)|]. eapply (drops_more s _ _ 1 [x]); [done|reflexivity| |done|done]. by destruct (drops_input (lenZ x) p2) as [-> _].
Qed.

Lemma drops_step f op s : drops_ok s -> drops_ok (txStep f s op).
Proof.
  intros HD. destruct op; cbn [txStep]; try (by apply (drops_same s)).
  - by apply drops_write.
  - unfold WriteFrame. destruct (pclosed _); [done|by apply drops_write].
  - unfold register. destruct (unlocked _); [by apply (drops_same s)|done].
  - unfold unregister. destruct (unlocked _); [by apply (drops_same s)|done].
  - unfold runTake. destruct (pc s); try done. destruct (pch (port s)) as [|x ch]; [done|]. set (p0 := set_input ch _ _ (port s)).
    destruct (drops_input (lenZ x) p0) as [E _]. destruct (length x =? 0)%nat; by apply (drops_same s).
  - unfold runWait. destruct (pc s) as [|x| | | | | | ]; try done. destruct (waitForBackendSlot (port s)); [| |done].
    + by eapply (drops_more s _ _ 1 [x]).
    + pose proof (drops_nextSeq (port s)) as E. destruct (nextSeq (port s)) as [[p q] h]. destruct q; [by apply (drops_same s)|]. by eapply (drops_more s _ p 1 [x]).
  - unfold runSnapshot. destruct (pc s); try done; by apply (drops_same s).
  - unfold runGather. destruct (pc s) as [| | |batch [|n]| | | | ]; try done. destruct (MaxBatchBytes <=? Bytes batch); [by apply (drops_same s)|].
    destruct (pch (port s)) as [|x ch]; [done|]. set (p0 := set_input ch _ _ (port s)). destruct (drops_input (lenZ x) p0) as [E _]. cbn [dropped set_input p0] in E.
    set (p1 := noteInputDequeued (lenZ x) p0) in *. clearbody p1. destruct (length x =? 0)%nat; [by apply (drops_same s)|].
    pose proof (drops_nextSeq p1) as E2. destruct (nextSeq p1) as [[p q] h]. cbn [fst] in E2. destruct q; [by apply (drops_same s); txs; congruence || done|].
    eapply (drops_more s _ p 1 [x]); try done. congruence.
  - unfold runGathered. destruct (pc s) as [| | |batch [|n]| | | | ]; try done; by apply (drops_same s).
  - unfold dispatchOwnedBatch. destruct (pc s) as [| | | |batch| | | ]; try done. destruct (backends (port s)) as [|b0 bs0].
    + eapply (drops_more s _ (port s) (lenZ (Frames batch)) (bufsOf batch)); try done. unfold bufsOf, lenZ. by rewrite length_fmap.
    + pose proof (drops_pressure f now (Bytes batch) (port s)) as E. destruct (schedulerPressureFor f now (Bytes batch) (port s)) as [p pr]. cbn [fst] in *.
      cbn zeta. destruct (encoder _) as [e|]; [destruct (encodeBatch _ e)|]; by apply (drops_same s).
  - unfold runTry. destruct (pc s) as [| | | | |batch best pars tried| | ]; try done. destruct (tryAll _ _ _ _) as [[[bs r] mk] back]. destruct r as [[i out]|]; by apply (drops_same s).
  - unfold runGiveUp. destruct (pc s) as [| | | | |batch best pars [|]| | ]; try done.
    eapply (drops_more s _ (port s) (lenZ (Frames batch)) (bufsOf batch)); try done. unfold bufsOf, lenZ. by rewrite length_fmap.
  - unfold runParity. destruct (pc s) as [| | | | | |best [|par pars]| ]; try done.
    destruct (lenZ (backends (port s)) <? 2); [by apply (drops_same s)|]. destruct (pickParityBackend _ _ _) as [target next].
    txs. destruct (target ≫= _) as [b|]; [|by eapply (drops_more s _ _ 1 [par])]. destruct (sendOwnedFrameTo _ b) as [b' [out|]]; [by apply (drops_same s)|by eapply (drops_more s _ _ 1 [par])].
  - unfold runExit. destruct (pc s); try done. destruct (pclosed _); [by apply (drops_same s)|done].
  - unfold runReset. destruct (pc s); try done. destruct (pclosed _); [done|by apply (drops_same s)].
  - unfold writerTake. destruct (findB id _) as [b|]; [|done]. destruct (bqueue b); [done|]. by apply (drops_same s).
  - unfold writerDone. destruct (findB id _) as [b|]; [|done]. by apply (drops_same s).
  - unfold linkChange. destruct (findB id _) as [b|]; [|done]. by apply (drops_same s).
Qed.

(** ** Properties of buffers and numbers *)

(** C9: Conservation on the send side.  Over any interleaving of producers, the run
    goroutine, connection writers, registrations, disconnects, resets and close, every
    buffer that the port was given or took from the pool is in exactly one place: back
    in the pool, dropped and counted, taken by a connection's writer, left in the
    channel of a closed connection, queued, or in the hands of the run goroutine; the
    drop counter is the number of dropped buffers modulo 2^64. *)
Theorem tx_frames_conserved (perSecond : Z -> Z -> Z) (ops : list txOp) :
  let s := txExec perSecond ops tx0 in
  given s ++ made s ≡ₚ returned s ++ lost s ++ spent s ++ gone s ++ pch (port s) ++ pcBufs (pc s) ++ queueBufs (backends (port s)) /\
  dropped (port s) = u64 (lenZ (lost s)).
Proof.
  intros s. split; [apply (tx_exec perSecond ops tx0 tx_ok0)|]. unfold s. assert (drops_ok tx0) as H by done. revert H. generalize tx0.
  induction ops as [|op ops IH]; intros s0 H0; [exact H0|]. by apply IH, drops_step.
Qed.

(** No number twice.  Over any history the data frames queued on all connections in
    one key epoch carry strictly increasing numbers between 1 and the last one
    assigned, which never wraps: no nonce of the data cipher is used for two frames. *)
Theorem tx_numbers_unique (perSecond : Z -> Z -> Z) (ops : list txOp) :
  let s := txExec perSecond ops tx0 in
  StronglySorted Z.lt (dataSeqs (logFrames (elog s))) /\
  Forall (fun q => 1 <= q <= txSeq (port s)) (dataSeqs (logFrames (elog s))) /\ 0 <= txSeq (port s) < 2 ^ 32.
Proof.
  intros s. destruct (exec_both perSecond ops tx0 tx_ok0 num_inv0) as [_ [H1 H2 H3 H4 H5]]. fold s in H1, H2, H3, H4, H5.
  split_and!; [done| |apply H1|apply H1]. eapply Forall_impl; [exact H5|]. intros q Hq. cbv beta in *. unfold lenZ in *. lia.
Qed.

(** C11: No holes.  From an epoch reset on, as long as no connection is lost, the numbers on
    the connections followed by those in the batch under construction are exactly
    1, 2, 3, ... up to the last one assigned: a frame is only numbered once a slot is
    certain, and overload drops frames before they get a number. *)
Theorem tx_no_holes (perSecond : Z -> Z -> Z) (ops1 ops2 : list txOp) (k : Z) (ic : option innerCipher) :
  let s0 := txExec perSecond ops1 tx0 in
  pc s0 = RIdle -> pclosed (port s0) = false -> Forall keepsConns ops2 ->
  let s := txExec perSecond (TReset k ic :: ops2) s0 in
  dataSeqs (logFrames (elog s)) ++ (Seq <$> pcFrames (pc s)) = seqZ 1 (txSeq (port s)).
Proof.
  intros s0 Hpc Hcl HF s. destruct (exec_both perSecond ops1 tx0 tx_ok0 num_inv0) as [H1 H2]. fold s0 in H1, H2.
  change (tight (txExec perSecond ops2 (txStep perSecond s0 (TReset k ic)))).
  assert (slotKept (txStep perSecond s0 (TReset k ic)) /\ tight (txStep perSecond s0 (TReset k ic))) as [H3 H4].
  { cbn [txStep]. unfold runReset, slotKept, tight. rewrite Hpc, Hcl. by split. }
  pose proof (tx_step perSecond (TReset k ic) s0 H1) as H5. pose proof (num_step perSecond (TReset k ic) s0 H1 H2) as H6.
  revert H3 H4 H5 H6. generalize (txStep perSecond s0 (TReset k ic)). clear -HF. induction HF as [|op ops Hop _ IH]; intros t H3 H4 H5 H6; [done|].
  destruct (slot_step perSecond op t H5 H6 H3 H4 Hop) as [? ?]. apply IH; auto using tx_step, num_step.
Qed.

(** ** Fences in front of data *)

(** The generation of a FEC_MODE control, as the receiver reads it. *)
Definition ctlGen (vf : VPNFrame) : option Z := if Seq vf =? 0 then Generation <$> parseFECModeControl (Data vf) else None.

(** The last control that backend [i] carried in this epoch. *)
Definition lastGen (i : nat) (l : list queued) : Z := default 0 (last (omap ctlGen (logFrames (filter (fun x => qid x = i) l)))).

Lemma lastGen_snoc i l x : lastGen i (l ++ [x]) =
  if bool_decide (qid x = i) then default (lastGen i l) (last (omap ctlGen (Frames (qbatch x)))) else lastGen i l.
Proof.
  unfold lastGen. rewrite filter_app, filter_cons, filter_nil. case_bool_decide as E.
  - rewrite decide_True by done. rewrite logFrames_snoc, omap_app. destruct (last (omap ctlGen (Frames (qbatch x)))) as [g|] eqn:El.
    + apply last_Some in El as [l' ->]. by rewrite app_assoc, last_snoc.
    + apply last_None in El as ->. by rewrite app_nil_r.
  - by rewrite decide_False, app_nil_r by done.
Qed.

Lemma ctlGen_data fs : Forall (fun vf => Seq vf <> 0) fs -> omap ctlGen fs = [].
Proof. induction 1 as [|vf fs H _ IH]; [done|]. cbn. unfold ctlGen at 1. destruct (Z.eqb_spec (Seq vf) 0); done. Qed.

(** What the encoder promises about its controls. *)
Record enc_ctl (N : Z) (e : fecEncoder) : Prop := {
  ec_gen : Generation (control e) = controlGeneration e;
  ec_range : 0 <= controlGeneration e <= N;
  ec_valid : controlGeneration e <> 0 -> N < 2 ^ 64 -> validControl (control e);
  ec_seqs : Forall is_u32 (seqs e)
}.

Lemma enc_ctl_mono N N' e : N <= N' -> enc_ctl N e -> N' < 2 ^ 64 -> enc_ctl N' e.
Proof. intros Hle [H1 H2 H3 H4] HN. split; [done|lia|intros; apply H3; [done|lia]|done]. Qed.

Lemma publish_ctl N op b e : enc_ctl N e -> is_u32 b -> op = fecControlSuspend \/ op = fecControlResume -> N + 1 < 2 ^ 64 -> enc_ctl (N + 1) (publishModeControl op b e).
Proof.
  intros [H1 H2 H3 H4] Hb Hop HN. unfold publishModeControl. destruct ((b =? 0) || _) eqn:E; [split; [done|lia|intros; apply H3; [done|lia]|done]|].
  apply orb_false_iff in E as [E _]. rewrite u64_small by (widths; lia). destruct (controlGeneration e + 1 =? 0) eqn:E2; [lia|].
  split; cbn; [done|lia| |done]. intros _ _. unfold validControl. cbn. split_and!; [widths; lia|lia|done|lia|done].
Qed.

Lemma groupStart_u32 q k : is_u32 (fecGroupStart q k).
Proof. unfold fecGroupStart. destruct (q =? 0); [widths; lia|apply u32_range]. Qed.
Lemma nextGroupStart_u32 q k : is_u32 q -> is_u32 (fecNextGroupStart q k).
Proof. intros Hq. unfold fecNextGroupStart. repeat (destruct (_ =? _) || destruct (_ <? _)); try done; try apply u32_range; widths; lia. Qed.
Lemma firstSeq_u32 e : is_u32 (firstSeqOf e).
Proof. unfold firstSeqOf. destruct (negb _); [apply u32_range|widths; lia]. Qed.

Lemma paths_ctl N n e : enc_ctl N e -> N + 1 < 2 ^ 64 -> enc_ctl (N + 1) (setPhysicalPathCount n e) /\
  controlGeneration e <= controlGeneration (setPhysicalPathCount n e).
Proof.
  intros Hc HN. assert (forall op b e, enc_ctl N e -> N + 1 < 2 ^ 64 -> controlGeneration e <= controlGeneration (publishModeControl op b e)) as Hmono.
  { intros op b x [H1 H2 _ _] Hl. unfold publishModeControl. destruct (_ || _); [lia|]. cbn. rewrite u64_small by (widths; lia). destruct (_ =? 0) eqn:E0; lia. }
  pose proof (enc_ctl_mono N (N + 1) e ltac:(lia) Hc HN) as Hm. pose proof (firstSeq_u32 e) as Hf. unfold setPhysicalPathCount. cbv zeta. fold (firstSeqOf e).
  destruct (Bool.eqb (2 <=? n) (multipath e)); [by split|]. destruct (negb (2 <=? n)).
  - set (e1 := if negb (length (seqs (set_paths false (armed e) e)) =? 0)%nat || _ then enc_reset _ else _).
    assert (enc_ctl N (set_paths false false e1) /\ controlGeneration (set_paths false false e1) = controlGeneration e) as [Hc1 Hg].
    { unfold e1. destruct (_ || _); (split; [|done]); destruct Hc as [H1 H2 H3 H4]; split; cbn; (done || constructor). }
    clearbody e1. destruct (negb (lastSeq e =? 0) || negb (length (seqs e) =? 0)%nat); [|rewrite Hg; split; [|lia]; apply (enc_ctl_mono N); [lia|done|done]]. rewrite <- Hg. split; [|by apply Hmono].
    apply publish_ctl; [done| |by left|done]. destruct (seqs e) as [|q l] eqn:Es; [apply groupStart_u32|].
    pose proof (ec_seqs _ _ Hc) as Hs. rewrite Es in Hs. by apply Forall_cons in Hs as [? _].
  - assert (enc_ctl N (set_paths true false e)) as Hc1 by (destruct Hc as [H1 H2 H3 H4]; by split).
    change (controlGeneration (set_paths true false e)) with (controlGeneration e). destruct (_ =? 0); [split; [apply (enc_ctl_mono N); [lia|done|done]|cbn; lia]|].
    destruct (negb _); [|split; [apply (enc_ctl_mono N); [lia|done|done]|cbn; lia]]. split; [|change (controlGeneration e) with (controlGeneration (set_paths true false e)); by apply Hmono].
    apply publish_ctl; [done| |by right|done]. by apply nextGroupStart_u32.
Qed.

Lemma add_ctl N vf e : is_u32 (Seq vf) -> enc_ctl N e ->
  let '(e', par) := enc_add vf e in enc_ctl N e' /\ control e' = control e /\ controlGeneration e' = controlGeneration e /\
    match par with Some b => byte_at 0 b = controlKindFECParity | None => True end.
Proof.
  intros Hq Hc. destruct Hc as [H1 H2 H3 H4]. unfold enc_add. destruct (length (Data vf) =? 0)%nat; [split_and!; done|].
  set (e1 := if negb (Seq vf =? 0) then set_last (Seq vf) e else e).
  assert (control e1 = control e /\ controlGeneration e1 = controlGeneration e /\ seqs e1 = seqs e) as (E1 & E2 & E3) by (unfold e1; destruct (negb _); done).
  clearbody e1. assert (enc_ctl N e1) as Hc1 by (split; rewrite ?E1, ?E2, ?E3; done). destruct (negb (multipath e1)); [split_and!; done|].
  destruct (negb (armed e1) && _); [split_and!; done|]. set (e2 := enc_push vf _).
  assert (enc_ctl N e2 /\ control e2 = control e /\ controlGeneration e2 = controlGeneration e) as (Hc2 & E4 & E5).
  { split_and!; [|done|done]. split; cbn; rewrite ?E1, ?E2, ?E3; try done. apply Forall_app. split; [done|]. by constructor. }
  clearbody e2. destruct (_ <? _)%nat; [split_and!; done|]. cbn [flushLocked]. split_and!; [|done|done|done].
  destruct Hc2 as [A1 A2 A3 A4]. split; cbn; (done || constructor).
Qed.

Lemma encode_ctl N fs e : Forall (fun vf => is_u32 (Seq vf)) fs -> enc_ctl N e ->
  let '(e', pars) := encodeBatch fs e in enc_ctl N e' /\ control e' = control e /\ controlGeneration e' = controlGeneration e /\
    Forall (fun b => byte_at 0 b = controlKindFECParity) pars.
Proof.
  intros HF. revert e. induction HF as [|vf fs Hv HF IH]; intros e Hc; cbn [encodeBatch]; [done|].
  pose proof (add_ctl N vf e Hv Hc) as HA. destruct (enc_add vf e) as [e1 par]. destruct HA as (Hc1 & A1 & A2 & A3). specialize (IH e1 Hc1).
  destruct (encodeBatch fs e1) as [e2 pars]. destruct IH as (B1 & B2 & B3 & B4). split_and!; [done|congruence|congruence|]. destruct par; [by constructor|done].
Qed.

Lemma curGen_ctl N e : enc_ctl N e -> N < 2 ^ 64 -> curGen (Some e) = controlGeneration e /\
  (controlGeneration e <> 0 -> currentModeControl e = Some (control e)) /\ (controlGeneration e = 0 -> currentModeControl e = None).
Proof.
  intros [H1 H2 H3 H4] HN. unfold curGen, currentModeControl. cbn. rewrite H1. destruct (Z.eqb_spec (controlGeneration e) 0) as [E|E]; [by rewrite E|].
  destruct (H3 E HN) as (_ & _ & _ & Hb & _). destruct (Z.eqb_spec (Boundary (control e)) 0); done.
Qed.

Definition pcPars (c : runPC) : list bytes := match c with RSend _ _ pars _ | RParity _ pars => pars | _ => [] end.

(** A batch with data is behind the control in force on its connection. *)
Definition fenced (l : list queued) : Prop := forall pre x post, l = pre ++ x :: post -> dataSeqs (Frames (qbatch x)) <> [] ->
  lastGen (qid x) (pre ++ [x]) = qgen x /\ Forall (fun vf => Seq vf <> 0) (tail (Frames (qbatch x))).

Record fence_inv (N : Z) (s : txSys) : Prop := {
  fi_enc : match encoder (port s) with Some e => enc_ctl N e | None => True end;
  fi_backends : Forall (fun b => fecFenceGen b = lastGen (bid b) (elog s) /\ 0 <= fecFenceGen b <= curGen (encoder (port s))) (backends (port s));
  fi_log : fenced (elog s);
  fi_ids : Forall (fun x => (qid x < nextID s)%nat) (elog s);
  fi_pars : Forall (fun b => byte_at 0 b = controlKindFECParity) (pcPars (pc s))
}.

Definition keepsFence (b b' : Backend) : Prop := bid b' = bid b /\ fecFenceGen b' = fecFenceGen b.

#[export] Instance keepsFence_preorder : PreOrder keepsFence.
Proof. split; [by intros b|]. intros a b c [? ?] [? ?]. split; congruence. Qed.

Lemma Forall_keeps (P : nat -> Z -> Prop) bs bs' : Forall2 keepsFence bs bs' -> Forall (fun b => P (bid b) (fecFenceGen b)) bs -> Forall (fun b => P (bid b) (fecFenceGen b)) bs'.
Proof. induction 1 as [|b b' bs bs' [H1 H2] _ IH]; intros H; [done|]. apply Forall_cons in H as [Hb H]. constructor; [by rewrite H1, H2|auto]. Qed.

Lemma fence_same N s s' : N + 1 < 2 ^ 64 -> encoder (port s') = encoder (port s) -> Forall2 keepsFence (backends (port s)) (backends (port s')) ->
  elog s' = elog s -> (nextID s <= nextID s')%nat -> pcPars (pc s') ⊆ pcPars (pc s) -> fence_inv N s -> fence_inv (N + 1) s'.
Proof.
  intros HN E1 HF E3 Hn Hp [H1 H2 H3 H4 H5]. split; rewrite ?E1, ?E3; [|by apply (Forall_keeps (fun i g => g = lastGen i (elog s) /\ 0 <= g <= _) (backends (port s)))|done| |].
  - destruct (encoder (port s)); [|done]. apply (enc_ctl_mono N); [lia|done|done].
  - eapply Forall_impl; [exact H4|]. cbn. lia.
  - rewrite !Forall_forall in *. intros b Hb. apply H5. by apply Hp.
Qed.

Lemma schedEq_keeps bs bs' : Forall2 schedEq bs bs' -> Forall2 keepsFence bs bs'.
Proof. intros H. eapply Forall2_impl; [exact H|]. intros b b' ->. split; done. Qed.
Lemma bytesOnly_keeps bs bs' : Forall2 bytesOnly bs bs' -> Forall2 keepsFence bs bs'.
Proof. intros H. eapply Forall2_impl; [exact H|]. intros b b' Hb. destruct (bytesOnly_facts b b' Hb) as (? & _ & _ & ? & _). done. Qed.
Lemma updB_keeps i b b' bs : NoDup (bid <$> bs) -> findB i bs = Some b -> keepsFence b b' -> Forall2 keepsFence bs (updB i b' bs).
Proof. intros HN Hf H. eapply updB_Forall2; eauto. apply _. Qed.

(** One more batch on backend [b], after which its fence generation is that of the
    last control it has carried. *)
Lemma fence_snoc N s bs1 b b' x c : NoDup (bid <$> bs1) -> Forall2 keepsFence (backends (port s)) bs1 -> findB (qid x) bs1 = Some b -> bid b' = bid b ->
  fence_inv N s -> N + 1 < 2 ^ 64 ->
  fecFenceGen b' = default (fecFenceGen b) (last (omap ctlGen (Frames (qbatch x)))) -> 0 <= fecFenceGen b' <= curGen (encoder (port s)) ->
  (dataSeqs (Frames (qbatch x)) <> [] -> fecFenceGen b' = qgen x /\ Forall (fun vf => Seq vf <> 0) (tail (Frames (qbatch x)))) ->
  pcPars c ⊆ pcPars (pc s) -> (qid x < nextID s)%nat ->
  forall s', encoder (port s') = encoder (port s) -> backends (port s') = updB (qid x) b' bs1 -> elog s' = elog s ++ [x] -> nextID s' = nextID s -> pc s' = c ->
  fence_inv (N + 1) s'.
Proof.
  intros HN HF Hf Hid [H1 H2 H3 H4 H5] HB Hg Hr Hd Hp Hx s' E1 E2 E3 E4 E5. destruct (findB_elem _ _ _ Hf) as [Hbin Hbi].
  pose proof (Forall_keeps (fun i g => g = lastGen i (elog s) /\ 0 <= g <= curGen (encoder (port s))) _ _ HF H2) as H2'.
  assert (lastGen (qid x) (elog s ++ [x]) = fecFenceGen b') as Hlast.
  { rewrite lastGen_snoc, bool_decide_true by done. rewrite Forall_forall in H2'. destruct (H2' b Hbin) as [Eb _]. rewrite Hg, Eb, Hbi. done. }
  split; rewrite ?E1, ?E2, ?E3, ?E4, ?E5.
  - destruct (encoder (port s)); [|done]. apply (enc_ctl_mono N); [lia|done|done].
  - destruct (updB_exchange _ b b' bs1 HN Hf) as (l1 & l2 & Eb & ->). rewrite Eb in H2', HN. rewrite Forall_app, Forall_cons in H2'. destruct H2' as (A1 & A2 & A3).
    rewrite fmap_app, fmap_cons, NoDup_app, NoDup_cons in HN. destruct HN as (_ & N1 & N2 & _).
    assert (forall y, y ∈ l1 ++ l2 -> lastGen (bid y) (elog s ++ [x]) = lastGen (bid y) (elog s)) as Hother.
    { intros y Hy. rewrite lastGen_snoc, bool_decide_false; [done|]. rewrite <- Hbi. intros E. apply elem_of_app in Hy as [Hy|Hy].
      - apply (N1 (bid y)); [by apply list_elem_of_fmap_2|]. rewrite E. by left.
      - apply N2. rewrite E. by apply list_elem_of_fmap_2. }
    rewrite Forall_app, Forall_cons. split_and!.
    + rewrite Forall_forall in *. intros y Hy. rewrite Hother by set_solver. by apply A1.
    + by rewrite Hid, Hbi, Hlast.
    + lia.
    + lia.
    + rewrite Forall_forall in *. intros y Hy. rewrite Hother by set_solver. by apply A3.
  - intros pre y post E Hy. destruct post as [|z post' _] using rev_ind.
    + apply app_inj_tail in E as [<- <-]. rewrite Hlast. by apply Hd.
    + rewrite app_comm_cons, app_assoc in E. apply app_inj_tail in E as [E _]. by apply (H3 pre y post').
  - apply Forall_app. split; [done|]. by constructor.
  - rewrite !Forall_forall in *. intros y Hy. apply H5. by apply Hp.
Qed.

Lemma num_batch_nonzero s vf : num_inv s -> vf ∈ pcFrames (pc s) -> is_u32 (Seq vf) /\ Seq vf <> 0.
Proof.
  intros HN Hv. assert (Seq vf ∈ Seq <$> pcFrames (pc s)) as Hq by (by apply list_elem_of_fmap_2). rewrite (nu_batch _ HN) in Hq. apply elem_of_seqZ in Hq.
  pose proof (nu_range _ HN). pose proof (nu_fits _ HN). widths. lia.
Qed.

(** A round that queues the batch. *)
Lemma fence_try N s batch best pars tried : ids_ok s -> num_inv s -> fence_inv N s -> N + 1 < 2 ^ 64 -> pc s = RSend batch best pars tried -> fence_inv (N + 1) (runTry s).
Proof.
  intros HI HN HF HB Ep. unfold runTry. rewrite Ep. pose proof (tryAll_outcome (encoder (port s)) batch best (backends (port s)) (io_nodup _ HI)) as HO.
  destruct (tryAll _ _ _ _) as [[[bs r] mk] back]. destruct r as [[i out]|].
  2:{ destruct HO as [HO _]. apply (fence_same N s); txs; try done; [by apply bytesOnly_keeps|rewrite Ep; done]. }
  destruct HO as (bs1 & b & b' & fence & H1 & H2 & H3 & ->). pose proof (trySend_frames _ _ _ _ _ _ H3) as Hfr.
  apply trySend_Some in H3 as (_ & Hid & _ & _ & H3). destruct (findB_elem _ _ _ H2) as [Hbin Ebi].
  assert (Forall (fun vf => Seq vf <> 0) (Frames batch)) as Hnz.
  { apply Forall_forall. intros vf Hv. apply (num_batch_nonzero s); [done|]. by rewrite Ep. }
  pose proof (Forall_keeps (fun i g => g = lastGen i (elog s) /\ 0 <= g <= curGen (encoder (port s))) _ _ (bytesOnly_keeps _ _ H1) (fi_backends _ _ HF)) as HBs.
  rewrite Forall_forall in HBs. destruct (HBs b Hbin) as [_ Hle].
  assert ((i < nextID s)%nat) as Hfresh.
  { assert (bid b ∈ bid <$> backends (port s)) as Hbb by (rewrite <- (bytesOnly_ids _ _ H1); by apply list_elem_of_fmap_2).
    apply list_elem_of_fmap in Hbb as (y & Ey & Hy). pose proof (io_fresh _ HI) as Hfr2. rewrite Forall_forall in Hfr2. specialize (Hfr2 y Hy). cbn in Hfr2. congruence || (rewrite <- Ebi, Ey; exact Hfr2). }
  assert (fecFenceGen b' = curGen (encoder (port s)) /\ fecFenceGen b' = default (fecFenceGen b) (last (omap ctlGen (Frames out))) /\
          Forall (fun vf => Seq vf <> 0) (tail (Frames out))) as (G1 & G2 & G3).
  { rewrite Hfr. unfold fenceFor in *. pose proof (fi_enc _ _ HF) as He. unfold curGen in *. destruct (encoder (port s)) as [e|]; cbn [mbind option_bind] in *.
    - destruct (curGen_ctl N e He ltac:(lia)) as (_ & C1 & C2). destruct (currentModeControl e) as [c|] eqn:Ec.
      + assert (controlGeneration e <> 0) as Hg by (intros E; by specialize (C2 E)). specialize (C1 Hg). injection C1 as ->. clear C2.
        destruct (fecFenceGen b <? Generation (control e)) eqn:El.
        * destruct H3 as [_ H3]. split_and!; [done| |done]. cbn [omap list_omap]. unfold ctlGen at 1. cbn [Seq Data Z.eqb].
          rewrite parse_append by (apply (ec_valid _ _ He); [done|lia]). cbn [fmap option_fmap option_map]. rewrite ctlGen_data by done. done.
        * destruct H3 as [_ H3]. rewrite ctlGen_data by done. split_and!; [lia|done|]. by destruct (Frames batch); [|apply Forall_cons in Hnz as [_ ?]].
      + destruct H3 as [_ H3]. rewrite ctlGen_data by done. split_and!; [lia|done|]. by destruct (Frames batch); [|apply Forall_cons in Hnz as [_ ?]].
    - destruct H3 as [_ H3]. rewrite ctlGen_data by done. split_and!; [lia|done|]. by destruct (Frames batch); [|apply Forall_cons in Hnz as [_ ?]]. }
  eapply (fence_snoc N s bs1 b b' (mkQueued i out (curGen (encoder (port s)))) (RParity best pars)); txs; cbn [qid qbatch qgen]; try done.
  - rewrite (bytesOnly_ids _ _ H1). apply HI.
  - by apply bytesOnly_keeps.
  - lia.
  - by rewrite Ep.
Qed.

Lemma fence_parity N s : ids_ok s -> fence_inv N s -> N + 1 < 2 ^ 64 -> fence_inv (N + 1) (runParity s).
Proof.
  intros HI HF HB. assert (forall s', pc s' = pc s -> encoder (port s') = encoder (port s) -> True) as _ by done.
  unfold runParity. destruct (pc s) as [| | | | | |best [|par pars]| ] eqn:Ep; try (apply (fence_same N s); txs; try done; reflexivity).
  { apply (fence_same N s); txs; first [done|reflexivity|by rewrite Ep]. }
  assert (byte_at 0 par = controlKindFECParity) as Hpar by (pose proof (fi_pars _ _ HF) as Hp; rewrite Ep in Hp; by apply Forall_cons in Hp as [? _]).
  assert (pars ⊆ pcPars (pc s)) as Hsub by (rewrite Ep; set_solver).
  destruct (lenZ (backends (port s)) <? 2); [apply (fence_same N s); txs; try done; reflexivity|]. destruct (pickParityBackend _ _ _) as [target next]. txs.
  destruct (target ≫= _) as [b|] eqn:Ef.
  2:{ set (p' := set_parity _ _ _ _). destruct (dropN_fields 1 p') as (_ & E2 & E3 & _). apply (fence_same N s); txs; first [done|by rewrite E2]. }
  apply bind_Some in Ef as (i & _ & Ef). destruct (findB_elem _ _ _ Ef) as [Hbin <-].
  pose proof (sendOwnedFrameTo_spec (mkFrame 0 par) b) as HS. destruct (sendOwnedFrameTo _ b) as [b' r]. destruct HS as (S1 & _ & S2 & HS). destruct r as [out|].
  - destruct HS as (_ & _ & ->). pose proof (fi_backends _ _ HF) as HBs. rewrite Forall_forall in HBs. destruct (HBs b Hbin) as [_ Hle].
    eapply (fence_snoc N s (backends (port s)) b b' (mkQueued (bid b) (appendOwnedVPNFrame getOwnedVPNFrameBatch (mkFrame 0 par)) (curGen (encoder (port s)))) (RParity best pars)); txs; cbn [qid qbatch qgen]; try done.
    + apply HI.
    + cbn. unfold ctlGen. cbn [Seq Data Z.eqb]. assert (parseFECModeControl par = None) as ->; [|done]. unfold parseFECModeControl. rewrite Hpar. by rewrite orb_true_r.
    + lia.
    + pose proof (io_fresh _ HI) as Hfr2. rewrite Forall_forall in Hfr2. by apply Hfr2.
  - set (p' := set_backends _ _ _ _). destruct (dropN_fields 1 p') as (_ & E2 & E3 & _). apply (fence_same N s); txs; try done. rewrite E2. apply (updB_keeps _ b); [apply HI|done|by split].
Qed.

Lemma fence_dispatch N f now s : num_inv s -> fence_inv N s -> N + 1 < 2 ^ 64 -> fence_inv (N + 1) (dispatchOwnedBatch f now s).
Proof.
  intros HN HF HB. unfold dispatchOwnedBatch. destruct (pc s) as [| | | |batch| | | ] eqn:Ep; try (apply (fence_same N s); txs; try done; reflexivity).
  destruct (backends (port s)) as [|b0 bs0] eqn:Eb.
  { destruct (dropN_fields (lenZ (Frames batch)) (port s)) as (_ & E2 & E3 & _). apply (fence_same N s); txs; first [done|by rewrite E2|by rewrite Ep]. }
  destruct (pressure_fields f now (Bytes batch) (port s)) as (_ & E2 & E3 & _). destruct (schedulerPressureFor f now (Bytes batch) (port s)) as [p pr]. cbn [fst] in *.
  cbn [backends set_encoder]. set (r := pickAdaptiveBackend _ _ _ _ _ _). pose proof (pick_frame (backends p) pr (inputRateBytesPerSec p) (Bytes batch) (activePaths p) (preferred p)) as HP.
  change (pickAdaptiveBackend _ _ _ _ _ _) with r in HP. clearbody r. rewrite E2 in HP. apply schedEq_keeps in HP. cbn [encoder set_backends]. rewrite E3.
  destruct (encoder (port s)) as [e|] eqn:Ee; cbn [fmap option_fmap option_map].
  2:{ apply (fence_same N s); txs; first [done|by rewrite E3|by rewrite Ep]. }
  pose proof (fi_enc _ _ HF) as He. rewrite Ee in He. destruct (paths_ctl N (lenZ (b0 :: bs0)) e He HB) as [Hc1 Hg1]. set (e1 := setPhysicalPathCount _ e) in *. clearbody e1.
  assert (Forall (fun vf => is_u32 (Seq vf)) (Frames batch)) as Hu.
  { apply Forall_forall. intros vf Hv. apply (num_batch_nonzero s); [done|]. by rewrite Ep. }
  pose proof (encode_ctl (N + 1) (Frames batch) e1 Hu Hc1) as HE. cbn [encoder set_encoder]. destruct (encodeBatch (Frames batch) e1) as [e2 pars]. destruct HE as (Hc2 & _ & Hg2 & Hpars).
  destruct HF as [_ H2 H3 H4 H5]. rewrite Ee in H2. destruct (curGen_ctl N e He ltac:(lia)) as [C1 _]. destruct (curGen_ctl (N + 1) e2 Hc2 ltac:(lia)) as [C2 _].
  split; txs; try done. rewrite C2. apply (Forall_keeps (fun i g => g = lastGen i (elog s) /\ 0 <= g <= controlGeneration e2) (backends (port s))); [done|].
  eapply Forall_impl; [exact H2|]. cbv beta. rewrite C1. intros b [Hb1 Hb2]. split; [done|lia].
Qed.

Lemma fence_step N f op s : tx_ok s -> num_inv s -> fence_inv N s -> 0 <= N -> N + 1 < 2 ^ 64 -> fence_inv (N + 1) (txStep f s op).
Proof.
  intros [HI HC] HN HF HN0 HB. assert (forall s', encoder (port s') = encoder (port s) -> backends (port s') = backends (port s) -> elog s' = elog s -> nextID s' = nextID s ->
    pcPars (pc s') ⊆ pcPars (pc s) -> fence_inv (N + 1) s') as Hsame.
  { intros s' E3 E4 E5 E6 E7. apply (fence_same N s); rewrite ?E3, ?E4, ?E5, ?E6; first [done|lia]. }
  assert (forall x, fence_inv (N + 1) (WriteOwnedFrame x s)) as HW.
  { intros x. unfold WriteOwnedFrame. cbn [port account]. destruct (pclosed _); [by apply Hsame|].
    set (p2 := if 0 <? lenZ x then _ else _). assert (encoder p2 = encoder (port s) /\ backends p2 = backends (port s)) as [E1 E2] by (unfold p2, noteInputQueued; by destruct (0 <? lenZ x)).
    clearbody p2. destruct (_ <? _); [by apply Hsame|]. destruct (dequeue_fields (lenZ x) p2) as (_ & F1 & F2 & _). destruct (dropN_fields 1 (noteInputDequeued (lenZ x) p2)) as (_ & F3 & F4 & _).
    apply Hsame; txs; first [done|congruence]. }
  destruct op; cbn [txStep].
  - apply HW.
  - unfold WriteFrame. destruct (pclosed _); [by apply Hsame|apply HW].
  - by apply Hsame.
  - unfold register. destruct (unlocked _); [|by apply Hsame]. destruct HF as [H1 H2 H3 H4 H5]. split; txs; try done.
    + unfold RegisterOwnedBackend. txs. destruct (encoder (port s)); [|done]. apply (enc_ctl_mono N); [lia|done|done].
    + unfold RegisterOwnedBackend. txs. apply Forall_app. split; [done|]. constructor; [|done]. cbn. unfold lastGen.
      assert (filter (fun x => qid x = nextID s) (elog s) = []) as ->.
      { apply filter_none. eapply Forall_impl; [exact H4|]. cbn. lia. }
      cbn. split; [done|]. unfold curGen. destruct (encoder (port s)) as [e|]; cbn; [|lia]. unfold currentModeControl. destruct (_ || _); [cbn; lia|]. rewrite (ec_gen _ _ H1). pose proof (ec_range _ _ H1). lia.
    + eapply Forall_impl; [exact H4|]. cbn. lia.
  - unfold unregister. destruct (unlocked _); [|by apply Hsame]. destruct HF as [H1 H2 H3 H4 H5]. split; txs; try done; unfold UnregisterOwnedBackend; txs.
    + destruct (encoder (port s)); [|done]. apply (enc_ctl_mono N); [lia|done|done].
    + rewrite Forall_forall in *. intros b Hb. apply list_elem_of_filter in Hb as [_ Hb]. by apply H2.
  - unfold runTake. destruct (pc s) eqn:Ep; try (apply Hsame; txs; rewrite ?Ep; done). destruct (pch (port s)) as [|x ch]; [apply Hsame; txs; rewrite ?Ep; done|].
    set (p0 := set_input ch _ _ (port s)). destruct (dequeue_fields (lenZ x) p0) as (_ & E2 & E3 & _).
    destruct (length x =? 0)%nat; apply Hsame; txs; rewrite ?Ep; first [done|congruence].
  - unfold runWait. destruct (pc s) as [|x| | | | | | ] eqn:Ep; try (apply Hsame; txs; rewrite ?Ep; done). destruct (waitForBackendSlot (port s)); [| |apply Hsame; txs; rewrite ?Ep; done].
    + destruct (dropN_fields 1 (port s)) as (_ & E2 & E3 & _). apply Hsame; txs; rewrite ?Ep; first [done|congruence].
    + destruct (nextSeq_fields (port s)) as (_ & E2 & E3 & _). destruct (nextSeq (port s)) as [[p q] h]. cbn [fst] in *. destruct q; [apply Hsame; txs; rewrite ?Ep; first [done|congruence]|].
      destruct (dropN_fields 1 p) as (_ & E4 & E5 & _). apply Hsame; txs; rewrite ?Ep; first [done|congruence].
  - unfold runSnapshot. destruct (pc s) eqn:Ep; apply Hsame; txs; rewrite ?Ep; done.
  - unfold runGather. destruct (pc s) as [| | |batch [|n]| | | | ] eqn:Ep; try (apply Hsame; txs; rewrite ?Ep; done). destruct (MaxBatchBytes <=? Bytes batch); [apply Hsame; txs; rewrite ?Ep; done|].
    destruct (pch (port s)) as [|x ch]; [apply Hsame; txs; rewrite ?Ep; done|]. set (p0 := set_input ch _ _ (port s)). destruct (dequeue_fields (lenZ x) p0) as (_ & E2 & E3 & _).
    cbn [encoder backends set_input p0] in E2, E3. set (p1 := noteInputDequeued (lenZ x) p0) in *. clearbody p1. destruct (length x =? 0)%nat; [apply Hsame; txs; rewrite ?Ep; first [done|congruence]|].
    destruct (nextSeq_fields p1) as (_ & E4 & E5 & _). destruct (nextSeq p1) as [[p q] h]. cbn [fst] in *. destruct q; [apply Hsame; txs; rewrite ?Ep; first [done|congruence]|].
    destruct (dropN_fields 1 p) as (_ & E6 & E7 & _). apply Hsame; txs; rewrite ?Ep; first [done|congruence].
  - unfold runGathered. destruct (pc s) as [| | |batch [|n]| | | | ] eqn:Ep; apply Hsame; txs; rewrite ?Ep; done.
  - by apply fence_dispatch.
  - destruct (pc s) as [| | | | |batch best pars tried| | ] eqn:Ep; try (unfold runTry; rewrite Ep; apply Hsame; txs; rewrite ?Ep; done). by eapply fence_try.
  - unfold runGiveUp. destruct (pc s) as [| | | | |batch best pars [|]| | ] eqn:Ep; try (apply Hsame; txs; rewrite ?Ep; done).
    destruct (dropN_fields (lenZ (Frames batch)) (port s)) as (_ & E2 & E3 & _). apply Hsame; txs; rewrite ?Ep; first [done|congruence].
  - by apply fence_parity.
  - unfold runExit. destruct (pc s) eqn:Ep; try (apply Hsame; txs; rewrite ?Ep; done). destruct (pclosed _); apply Hsame; txs; rewrite ?Ep; done.
  - unfold runReset. destruct (pc s) eqn:Ep; try (apply Hsame; txs; rewrite ?Ep; done). destruct (pclosed _); [apply Hsame; txs; rewrite ?Ep; done|]. split; txs.
    + destruct (fecMinGroup <=? k); [|done]. split; cbn; [done|lia|done|constructor].
    + apply Forall_fmap, Forall_forall. intros b _. cbn. split; [done|]. destruct (fecMinGroup <=? k); cbn; lia.
    + by intros [|? pre] x post E.
    + constructor.
    + constructor.
  - unfold writerTake. destruct (findB id _) as [b|] eqn:Ef; [|by apply Hsame]. destruct (bqueue b); [by apply Hsame|]. apply (fence_same N s); txs; try done. by apply (updB_keeps _ b); [apply HI|..].
  - unfold writerDone. destruct (findB id _) as [b|] eqn:Ef; [|by apply Hsame]. apply (fence_same N s); txs; try done. apply (updB_keeps _ b); [apply HI|done|].
    destruct (observe_frame f now (default 0 (flight s !! id)) (completeQueuedBytes (default 0 (flight s !! id)) b)) as (r & x & y & ->). by rewrite completeQueued_eq.
  - unfold linkChange. destruct (findB id _) as [b|] eqn:Ef; [|by apply Hsame]. apply (fence_same N s); txs; try done. by apply (updB_keeps _ b); [apply HI|..].
Qed.

Lemma fence_inv0 : fence_inv 0 tx0.
Proof. split; cbn; try done; try constructor. all: by destruct pre. Qed.

Lemma fence_exec f ops N s : tx_ok s -> num_inv s -> fence_inv N s -> 0 <= N -> N + lenZ ops < 2 ^ 64 -> fence_inv (N + lenZ ops) (txExec f ops s).
Proof.
  revert N s. induction ops as [|op ops IH]; intros N s H1 H2 H3 H4 H5; [unfold lenZ; cbn; by rewrite Z.add_0_r|].
  assert (lenZ (op :: ops) = 1 + lenZ ops) as EL by (unfold lenZ; cbn; lia). rewrite EL in *. rewrite Z.add_assoc. assert (0 <= lenZ ops) by (unfold lenZ; lia).
  cbn. apply IH; [by apply tx_step|by apply num_step|apply fence_step; [done|done|done|lia|lia]|lia|lia].
Qed.

(** C13: Fences come first.  Over any history of the port, every batch of data on a
    connection is preceded on that connection, in the same epoch, by the FEC_MODE
    control that was in force when the batch was queued (or by none, if none had been
    published), and the control, when it travels in the batch itself, is its first
    frame: a connection that joins late or was passed over never carries data of a mode
    that its receiver has not been told. *)
Theorem fence_precedes_data (perSecond : Z -> Z -> Z) (ops : list txOp) (pre post : list queued) (x : queued) :
  lenZ ops < 2 ^ 64 -> elog (txExec perSecond ops tx0) = pre ++ x :: post -> dataSeqs (Frames (qbatch x)) <> [] ->
  lastGen (qid x) (pre ++ [x]) = qgen x /\ Forall (fun vf => Seq vf <> 0) (tail (Frames (qbatch x))).
Proof.
  intros HL HE Hd. destruct (fence_exec perSecond ops 0 tx0 tx_ok0 num_inv0 fence_inv0 ltac:(lia) ltac:(lia)) as [_ _ HF _ _].
  by apply (HF pre x post).
Qed.

(** What the port was given and took only grows. *)
Lemma total_step f op s : exists g m, given (txStep f s op) = g ++ given s /\ made (txStep f s op) = m ++ made s.
Proof.
  assert (forall s', given s' = given s -> made s' = made s -> exists g m, given s' = g ++ given s /\ made s' = m ++ made s) as H0 by (intros s' -> ->; by exists [], []).
  assert (forall x, exists g m, given (WriteOwnedFrame x s) = g ++ given s /\ made (WriteOwnedFrame x s) = m ++ made s) as HW.
  { intros x. exists [x], []. unfold WriteOwnedFrame. cbn [port account]. destruct (pclosed _); [done|]. by destruct (_ <? _). }
  destruct op; cbn [txStep]; try (by apply H0).
  - apply HW.
  - unfold WriteFrame. destruct (pclosed _); [by apply H0|apply HW].
  - unfold register. destruct (unlocked _); by apply H0.
  - unfold unregister. destruct (unlocked _); by apply H0.
  - unfold runTake. destruct (pc s), (pch (port s)); try (by apply H0). by destruct (length _ =? 0)%nat; apply H0.
  - unfold runWait. destruct (pc s); try (by apply H0). destruct (waitForBackendSlot _); try (by apply H0). destruct (nextSeq _) as [[p [q|]] h]; by apply H0.
  - unfold runSnapshot. destruct (pc s); by apply H0.
  - unfold runGather. destruct (pc s) as [| | |batch [|n]| | | | ]; try (by apply H0). destruct (_ <=? _); [by apply H0|]. destruct (pch (port s)); [by apply H0|].
    destruct (length _ =? 0)%nat; [by apply H0|]. destruct (nextSeq _) as [[p [q|]] h]; by apply H0.
  - unfold runGathered. destruct (pc s) as [| | |batch [|n]| | | | ]; by apply H0.
  - unfold dispatchOwnedBatch. destruct (pc s); try (by apply H0). destruct (backends (port s)); [by apply H0|]. destruct (schedulerPressureFor _ _ _ _) as [p pr]. cbn zeta.
    destruct (encoder _) as [e|]; [|by apply H0]. destruct (encodeBatch _ e) as [e' pars]. by exists [], pars.
  - unfold runTry. destruct (pc s); try (by apply H0). destruct (tryAll _ _ _ _) as [[[bs r] mk] back]. exists [], mk. by destruct r as [[i out]|].
  - unfold runGiveUp. destruct (pc s) as [| | | | |batch best pars [|]| | ]; by apply H0.
  - unfold runParity. destruct (pc s) as [| | | | | |best [|par pars]| ]; try (by apply H0). destruct (_ <? 2); [by apply H0|]. destruct (pickParityBackend _ _ _) as [target next]. txs.
    destruct (target ≫= _); [|by apply H0]. destruct (sendOwnedFrameTo _ _) as [b' [out|]]; by apply H0.
  - unfold runExit. destruct (pc s); try (by apply H0). by destruct (pclosed _); apply H0.
  - unfold runReset. destruct (pc s); try (by apply H0). by destruct (pclosed _); apply H0.
  - unfold writerTake. destruct (findB id _) as [b|]; [|by apply H0]. destruct (bqueue b); by apply H0.
  - unfold writerDone. destruct (findB id _) as [b|]; by apply H0.
  - unfold linkChange. destruct (findB id _) as [b|]; by apply H0.
Qed.

Lemma given_mono f op s : given s ⊆ given (txStep f s op).
Proof. destruct (total_step f op s) as (g & m & -> & _). set_solver. Qed.

(** ** Where the frames come from *)

Definition pcGiven (c : runPC) : list bytes :=
  match c with RWait f => [f] | RFirst b | RGather b _ | RDispatch b => bufsOf b | _ => [] end.

Definition from_given (s : txSys) : Prop := pch (port s) ++ pcGiven (pc s) ⊆ given s.

Lemma from_given_step f op s : from_given s -> from_given (txStep f s op).
Proof.
  intros H. pose proof (given_mono f op s) as HM. unfold from_given in *.
  assert (forall s', given s' = given (txStep f s op) -> pch (port s') ++ pcGiven (pc s') ⊆ pch (port s) ++ pcGiven (pc s) ->
    pch (port s') ++ pcGiven (pc s') ⊆ given s') as Hs by (intros s' -> Hx; set_solver).
  assert (forall x, given s ⊆ given (WriteOwnedFrame x s) -> pch (port (WriteOwnedFrame x s)) ++ pcGiven (pc (WriteOwnedFrame x s)) ⊆ given (WriteOwnedFrame x s)) as HW.
  { intros x _. unfold WriteOwnedFrame. cbn [port account]. destruct (pclosed _); [txs; set_solver|]. set (p2 := if 0 <? lenZ x then _ else _).
    assert (pch p2 = pch (port s)) as E by (unfold p2, noteInputQueued; by destruct (0 <? lenZ x)). clearbody p2. destruct (_ <? _); txs; [rewrite E; set_solver|].
    destruct (dequeue_fields (lenZ x) p2) as (F1 & _). destruct (dropN_fields 1 (noteInputDequeued (lenZ x) p2)) as (F2 & _). rewrite F2, F1, E. set_solver. }
  destruct op; cbn [txStep] in *; try (apply Hs; [done|done]).
  - by apply HW.
  - unfold WriteFrame in *. destruct (pclosed _); [done|by apply HW].
  - apply Hs; [done|]. unfold register. by destruct (unlocked _).
  - apply Hs; [done|]. unfold unregister. by destruct (unlocked _).
  - apply Hs; [done|]. unfold runTake. destruct (pc s) eqn:Ep; try by rewrite Ep. destruct (pch (port s)) as [|x ch] eqn:Ec; [by rewrite Ep, Ec|].
    set (p0 := set_input ch _ _ (port s)). destruct (dequeue_fields (lenZ x) p0) as (E1 & _). destruct (length x =? 0)%nat; txs; rewrite E1; unfold p0; txs; cbn [pcGiven]; set_solver.
  - apply Hs; [done|]. unfold runWait. destruct (pc s) as [|x| | | | | | ] eqn:Ep; try by rewrite Ep. destruct (waitForBackendSlot (port s)); [| |by rewrite Ep].
    + destruct (dropN_fields 1 (port s)) as (E1 & _). txs. rewrite E1. cbn [pcGiven]. set_solver.
    + destruct (nextSeq_fields (port s)) as (E1 & _). destruct (nextSeq (port s)) as [[p [q|]] h]; cbn [fst] in E1; txs; [rewrite E1; cbn; set_solver|].
      destruct (dropN_fields 1 p) as (E2 & _). rewrite E2, E1. cbn [pcGiven]. set_solver.
  - apply Hs; [done|]. unfold runSnapshot. destruct (pc s) eqn:Ep; txs; rewrite ?Ep; done.
  - apply Hs; [done|]. unfold runGather. destruct (pc s) as [| | |batch [|n]| | | | ] eqn:Ep; try by rewrite Ep. destruct (_ <=? _); [txs; done|].
    destruct (pch (port s)) as [|x ch] eqn:Ec; [by rewrite Ep, Ec|]. set (p0 := set_input ch _ _ (port s)). destruct (dequeue_fields (lenZ x) p0) as (E1 & _). change (pch p0) with ch in E1.
    set (p1 := noteInputDequeued (lenZ x) p0) in *. clearbody p1. destruct (length x =? 0)%nat; [txs; rewrite E1; cbn [pcGiven]; set_solver|].
    destruct (nextSeq_fields p1) as (E2 & _). destruct (nextSeq p1) as [[p [q|]] h]; cbn [fst] in E2; txs; cbn [pcGiven]; [rewrite E2, E1, bufsOf_append; cbn; set_solver|].
    destruct (dropN_fields 1 p) as (E3 & _). rewrite E3, E2, E1. set_solver.
  - apply Hs; [done|]. unfold runGathered. destruct (pc s) as [| | |batch [|n]| | | | ] eqn:Ep; txs; rewrite ?Ep; done.
  - apply Hs; [done|]. unfold dispatchOwnedBatch. destruct (pc s) as [| | | |batch| | | ] eqn:Ep; try by rewrite Ep. destruct (backends (port s)) eqn:Eb.
    { destruct (dropN_fields (lenZ (Frames batch)) (port s)) as (E1 & _). txs. rewrite E1. cbn [pcGiven]. set_solver. }
    destruct (pressure_fields f now (Bytes batch) (port s)) as (E1 & _). destruct (schedulerPressureFor f now (Bytes batch) (port s)) as [p pr]. cbn [fst] in E1. cbn zeta.
    destruct (encoder _) as [e|]; [destruct (encodeBatch _ e) as [e' pars]|]; txs; cbn [pcGiven]; rewrite E1; set_solver.
  - apply Hs; [done|]. unfold runTry. destruct (pc s) eqn:Ep; try by rewrite Ep. destruct (tryAll _ _ _ _) as [[[bs r] mk] back]. by destruct r as [[i out]|].
  - apply Hs; [done|]. unfold runGiveUp. destruct (pc s) as [| | | | |batch best pars [|]| | ] eqn:Ep; try by rewrite Ep. destruct (dropN_fields (lenZ (Frames batch)) (port s)) as (E1 & _). txs. by rewrite E1.
  - apply Hs; [done|]. unfold runParity. destruct (pc s) as [| | | | | |best [|par pars]| ] eqn:Ep; try (txs; rewrite ?Ep; done). destruct (_ <? 2); [done|].
    destruct (pickParityBackend _ _ _) as [target next]. txs. assert (forall p, pch (dropN 1 p) = pch p) as HD by (intros p; apply dropN_fields).
    destruct (target ≫= _); [|txs; by rewrite HD]. destruct (sendOwnedFrameTo _ _) as [b' [out|]]; txs; by rewrite ?HD.
  - apply Hs; [done|]. unfold runExit. destruct (pc s) eqn:Ep; try by rewrite Ep. destruct (pclosed _); txs; by rewrite ?Ep.
  - apply Hs; [done|]. unfold runReset. destruct (pc s) eqn:Ep; try by rewrite Ep. destruct (pclosed _); txs; by rewrite ?Ep.
  - apply Hs; [done|]. unfold writerTake. destruct (findB id _) as [b|]; [|done]. by destruct (bqueue b).
  - apply Hs; [done|]. unfold writerDone. by destruct (findB id _).
  - apply Hs; [done|]. unfold linkChange. by destruct (findB id _).
Qed.

(** ** Parity on the wire *)

(** The encoder of the port runs as the abstract encoder on the events that the
    dispatches give it. *)

Lemma encode_run fs r : Seq <$> fs = seqZ (lenZ (rdata r) + 1) (lenZ fs) ->
  let '(e, pars) := encodeBatch fs (renc r) in
  let r' := fold_left encStep (EvFrame ∘ Data <$> fs) r in
  renc r' = e /\ rdata r' = rdata r ++ (Data <$> fs) /\ (rparity r').*2 = (rparity r).*2 ++ pars.
Proof.
  revert r. induction fs as [|vf fs IH]; intros r Hq; cbn [encodeBatch]; [cbn; by rewrite !app_nil_r|].
  assert (lenZ (vf :: fs) = lenZ fs + 1) as EL by (unfold lenZ; cbn; lia). rewrite EL in Hq. assert (0 <= lenZ fs) by (unfold lenZ; lia).
  rewrite seqZ_cons in Hq by lia. cbn in Hq. injection Hq as Hv Hq. cbn [fmap list_fmap fold_left].
  assert (encStep r (EvFrame (Data vf)) = let '(e, p) := enc_add vf (renc r) in mkRun e (rdata r ++ [Data vf])
    (match p with Some b => rparity r ++ [(lenZ (rdata r) + 1 - ek (renc r) + 1, b)] | None => rparity r end) (rfence r)) as E1.
  { unfold encStep. rewrite <- Hv. by destruct vf. }
  change ((EvFrame ∘ Data) vf) with (EvFrame (Data vf)). rewrite E1. destruct (enc_add vf (renc r)) as [e par]. set (r1 := mkRun e _ _ _). specialize (IH r1).
  change (renc r1) with e in IH. destruct (encodeBatch fs e) as [e' pars]. destruct IH as (I1 & I2 & I3).
  { rewrite Hq. unfold r1. cbn [rdata]. f_equal; [|lia]. unfold lenZ. rewrite length_app. cbn. lia. }
  split_and!; [done|rewrite I2; cbn; by rewrite <- app_assoc|]. rewrite I3. unfold r1. cbn [rparity]. destruct par; [|done]. rewrite fmap_app. cbn. by rewrite <- app_assoc.
Qed.

Definition unencoded (c : runPC) : list VPNFrame := match c with RFirst b | RGather b _ | RDispatch b => Frames b | _ => [] end.
Definition sending (c : runPC) : list VPNFrame := match c with RSend b _ _ _ => Frames b | _ => [] end.

Definition inData (data : list bytes) (vf : VPNFrame) : Prop := Seq vf <> 0 -> data !! Z.to_nat (Seq vf - 1) = Some (Data vf).
Definition isParity (vf : VPNFrame) : Prop := Seq vf = 0 /\ byte_at 0 (Data vf) = controlKindFECParity.

Record par_run (src : list bytes) (N : Z) (s : txSys) (r : encRun) (evs : list encEvent) : Prop := {
  pr_events : Forall okEvent evs /\ lenZ evs <= N + lenZ (rdata r) /\ lenZ (filter isFrame evs) = lenZ (rdata r);
  pr_enc : encoder (port s) = Some (renc r);
  pr_len : lenZ (rdata r) = txSeq (port s) - lenZ (unencoded (pc s));
  pr_nonempty : Forall (fun vf => Data vf <> []) (unencoded (pc s));
  pr_data : Forall (inData (rdata r)) (logFrames (elog s) ++ sending (pc s));
  pr_pars : Forall (fun b => b ∈ (rparity r).*2) (pcPars (pc s));
  pr_log : Forall (fun vf => isParity vf -> Data vf ∈ (rparity r).*2) (logFrames (elog s));
  pr_src : Forall (fun f => f ∈ src) (rdata r)
}.

Definition waitOk (c : runPC) : Prop := match c with RWait x => x <> [] | _ => True end.

Definition par_inv (k : Z) (ic : option innerCipher) (src : list bytes) (N : Z) (s : txSys) : Prop := waitOk (pc s) /\ exists evs, par_run src N s (encExec k ic evs) evs.

Lemma par_same k ic src N s s' : (waitOk (pc s) -> waitOk (pc s')) -> encoder (port s') = encoder (port s) -> txSeq (port s') = txSeq (port s) -> elog s' = elog s ->
  unencoded (pc s') = unencoded (pc s) -> sending (pc s') ⊆ sending (pc s) -> pcPars (pc s') ⊆ pcPars (pc s) ->
  par_inv k ic src N s -> par_inv k ic src (N + 1) s'.
Proof.
  intros E0 E1 E2 E3 E4 E5 E6 [Hw (evs & [[A1 [A2 A3]] B C D E F G HS])]. split; [auto|]. exists evs. split; rewrite ?E1, ?E2, ?E3, ?E4; try done.
  - split_and!; [done|lia|done].
  - rewrite Forall_forall in *. intros vf Hv. apply E. set_solver.
  - rewrite Forall_forall in *. intros b Hb. apply F. by apply E6.
Qed.

Lemma par_append k ic src N s p c q x : par_inv k ic src N s -> encoder p = encoder (port s) -> txSeq p = q -> q = txSeq (port s) + 1 -> x <> [] ->
  unencoded c = unencoded (pc s) ++ [mkFrame q x] -> sending c = [] -> pcPars c = [] -> waitOk c -> par_inv k ic src (N + 1) (set_run p c s).
Proof.
  intros [_ (evs & [[A1 [A2 A3]] B C D E F G HS])] E1 E2 E3 Hx E4 E5 E6 Hw. split; [done|]. exists evs. split; txs; rewrite ?E1, ?E2, ?E4, ?E5, ?E6; try done.
  - split_and!; [done|lia|done].
  - unfold lenZ in *. rewrite length_app. cbn. lia.
  - apply Forall_app. split; [done|]. by constructor.
  - apply Forall_app in E as [E _]. apply Forall_app. by split.
Qed.

Lemma par_sent k ic src N s batch best pars tried : ids_ok s -> num_inv s -> pc s = RSend batch best pars tried -> par_inv k ic src N s -> par_inv k ic src (N + 1) (runTry s).
Proof.
  intros HI HN Ep HP. unfold runTry. rewrite Ep. pose proof (tryAll_outcome (encoder (port s)) batch best (backends (port s)) (io_nodup _ HI)) as HO.
  destruct (tryAll _ _ _ _) as [[[bs r] mk] back]. destruct r as [[i out]|]; [|apply (par_same k ic src N s); txs; rewrite ?Ep; done].
  destruct HO as (bs1 & b & b' & fence & _ & _ & H3 & _). apply trySend_frames in H3.
  destruct HP as [_ (evs & [[A1 [A2 A3]] B C D E F G HS])]. rewrite Ep in *. split; [done|]. exists evs. split; txs; try done.
  - split_and!; [done|lia|done].
  - cbn [sending]. rewrite app_nil_r, logFrames_snoc. cbn [qbatch sending] in *. rewrite H3. apply Forall_app in E as [E1 E2]. apply Forall_app. split; [done|].
    destruct (fenceFor _ _); [|done]. constructor; [by intros H|done].
  - rewrite logFrames_snoc. cbn [qbatch]. apply Forall_app. split; [done|]. rewrite H3. apply Forall_app in E as [_ E2].
    assert (Forall (fun vf => isParity vf -> Data vf ∈ (rparity (encExec k ic evs)).*2) (Frames batch)) as HB.
    { apply Forall_forall. intros vf Hv [H0 _]. destruct (num_batch_nonzero s vf HN); [by rewrite Ep|done]. }
    destruct (fenceFor _ _); [|done]. constructor; [by intros [_ Hc]|done].
Qed.

Lemma par_dispatch k ic src N f now s : num_inv s -> pcGiven (pc s) ⊆ src -> par_inv k ic src N s -> (forall b, pc s = RDispatch b -> backends (port s) <> []) ->
  par_inv k ic src (N + 1) (dispatchOwnedBatch f now s).
Proof.
  intros HN Hsrc HP Hc. unfold dispatchOwnedBatch. destruct (pc s) as [| | | |batch| | | ] eqn:Ep; try (apply (par_same k ic src N s); txs; rewrite ?Ep; done).
  specialize (Hc batch eq_refl). destruct (backends (port s)) as [|b0 bs0] eqn:Eb; [done|]. clear Hc.
  destruct (pressure_fields f now (Bytes batch) (port s)) as (_ & _ & E3 & E4 & _). destruct (schedulerPressureFor f now (Bytes batch) (port s)) as [p pr]. cbn [fst] in *.
  cbn [backends set_encoder]. set (r := pickAdaptiveBackend _ _ _ _ _ _). clearbody r. cbn [encoder set_backends set_encoder]. rewrite E3.
  destruct HP as [_ (evs & [[A1 [A2 A3]] B C D E F G HS])]. rewrite B. rewrite Ep in C, D, E. cbn [fmap option_fmap option_map unencoded sending] in *.
  set (n := lenZ (b0 :: bs0)). set (r1 := encStep (encExec k ic evs) (EvPaths n)).
  change (setPhysicalPathCount n (renc (encExec k ic evs))) with (renc r1). pose proof (encode_run (Frames batch) r1) as HR.
  destruct (encodeBatch (Frames batch) (renc r1)) as [e pars]. destruct HR as (R1 & R2 & R3).
  { change (rdata r1) with (rdata (encExec k ic evs)). pose proof (nu_batch _ HN) as HB. rewrite Ep in HB. cbn [pcFrames] in HB. rewrite HB, C. f_equal. }
  change (rdata r1) with (rdata (encExec k ic evs)) in R2. change (rparity r1) with (rparity (encExec k ic evs)) in R3.
  set (evs' := evs ++ EvPaths n :: (EvFrame ∘ Data <$> Frames batch)).
  assert (encExec k ic evs' = fold_left encStep (EvFrame ∘ Data <$> Frames batch) r1) as ER by (unfold evs', encExec; by rewrite fold_left_app).
  split; [done|]. exists evs'. rewrite ER. assert (lenZ (rdata (encExec k ic evs) ++ (Data <$> Frames batch)) = lenZ (rdata (encExec k ic evs)) + lenZ (Frames batch)) as EL by (unfold lenZ; rewrite length_app, length_fmap; lia).
  split; txs; rewrite ?R1, ?R2, ?R3, ?E4; cbn [unencoded sending pcPars]; try done.
  - split_and!.
    + apply Forall_app. split; [done|]. constructor; [done|]. apply Forall_fmap. eapply Forall_impl; [exact D|]. done.
    + rewrite EL. unfold evs', lenZ in *. rewrite length_app. cbn [length]. rewrite length_fmap. lia.
    + rewrite EL, <- A3. unfold evs'. rewrite filter_app, filter_cons_False by (intros []).
      assert (filter isFrame (EvFrame ∘ Data <$> Frames batch) = (EvFrame ∘ Data <$> Frames batch)) as ->; [|unfold lenZ; rewrite length_app, length_fmap; lia].
      apply filter_all, Forall_fmap, Forall_forall. done.
  - rewrite EL. unfold lenZ in *. cbn. lia.
  - apply Forall_app in E as [E _]. apply Forall_app. split.
    + eapply Forall_impl; [exact E|]. intros vf Hv Hz. apply lookup_app_l_Some. by apply Hv.
    + apply Forall_forall. intros vf Hv _. apply list_elem_of_lookup in Hv as [j Hj].
      pose proof (nu_batch _ HN) as HB. rewrite Ep in HB. cbn [pcFrames] in HB. assert ((Seq <$> Frames batch) !! j = Some (Seq vf)) as Hs by (by rewrite list_lookup_fmap, Hj).
      rewrite HB in Hs. apply lookup_seqZ in Hs as [Hs1 Hs2]. assert (0 <= lenZ (rdata (encExec k ic evs))) by (unfold lenZ; lia).
      rewrite lookup_app_r by (unfold lenZ in *; lia). rewrite list_lookup_fmap. replace (Z.to_nat (Seq vf - 1) - length (rdata (encExec k ic evs)))%nat with j by (unfold lenZ in *; lia). by rewrite Hj.
  - apply Forall_forall. intros b Hb. set_solver.
  - eapply Forall_impl; [exact G|]. intros vf Hv Hi. specialize (Hv Hi). set_solver.
  - apply Forall_app. split; [done|]. apply Forall_forall. intros x Hx. apply Hsrc. exact Hx.
Qed.

Lemma par_parity k ic src N s : par_inv k ic src N s -> par_inv k ic src (N + 1) (runParity s).
Proof.
  intros HP. unfold runParity. destruct (pc s) as [| | | | | |best [|par pars]| ] eqn:Ep; try (apply (par_same k ic src N s); txs; rewrite ?Ep; done).
  assert (pars ⊆ pcPars (pc s)) as Hsub by (rewrite Ep; set_solver).
  destruct (lenZ (backends (port s)) <? 2); [apply (par_same k ic src N s); txs; rewrite ?Ep; cbn; set_solver|]. destruct (pickParityBackend _ _ _) as [target next]. txs.
  assert (forall p, encoder p = encoder (port s) -> txSeq p = txSeq (port s) -> par_inv k ic src (N + 1) (account [] [] [] [par] [] [] (set_run (dropN 1 p) (RParity best pars) s))) as Hdrop.
  { intros p H1 H2. destruct (dropN_fields 1 p) as (_ & _ & E3 & E4 & _). apply (par_same k ic src N s); txs; rewrite ?Ep; first [done|congruence|cbn; set_solver]. }
  destruct (target ≫= _) as [b|]; [|by apply Hdrop].
  pose proof (sendOwnedFrameTo_spec (mkFrame 0 par) b) as HS. destruct (sendOwnedFrameTo _ b) as [b' r]. destruct HS as (_ & _ & _ & HS). destruct r as [out|]; [|by apply Hdrop].
  destruct HS as (_ & _ & ->). destruct HP as [_ (evs & [[A1 [A2 A3]] B C D E F G HS])]. rewrite Ep in *. split; [done|]. exists evs. split; txs; try done.
  - split_and!; [done|lia|done].
  - cbn [sending] in *. rewrite app_nil_r in *. rewrite logFrames_snoc. apply Forall_app. split; [done|]. cbn. constructor; [by intros H|constructor].
  - cbn [pcPars] in *. by apply Forall_cons in F as [_ ?].
  - rewrite logFrames_snoc. apply Forall_app. split; [done|]. cbn. constructor; [|constructor]. intros _. cbn. cbn [pcPars] in F. by apply Forall_cons in F as [? _].
Qed.

(** Operations of one epoch; a dispatch finds a connection. *)
Fixpoint covered (f : Z -> Z -> Z) (ops : list txOp) (s : txSys) : Prop :=
  match ops with
  | [] => True
  | op :: ops => match op with TDispatch _ => (forall b, pc s = RDispatch b -> backends (port s) <> []) | TReset _ _ => False | _ => True end /\ covered f ops (txStep f s op)
  end.

Lemma par_step k ic src N f op s : tx_ok s -> num_inv s -> from_given s -> given s ⊆ src -> par_inv k ic src N s -> covered f [op] s -> par_inv k ic src (N + 1) (txStep f s op).
Proof.
  intros [HI _] HN Hfg Hsrc HP [Hc _]. assert (0 <= txSeq (port s) < 2 ^ 32) as HR by apply HN.
  assert (forall s', (waitOk (pc s) -> waitOk (pc s')) -> encoder (port s') = encoder (port s) -> txSeq (port s') = txSeq (port s) -> elog s' = elog s ->
    unencoded (pc s') = unencoded (pc s) -> sending (pc s') ⊆ sending (pc s) -> pcPars (pc s') ⊆ pcPars (pc s) -> par_inv k ic src (N + 1) s') as Hsame.
  { intros s' ? ? ? ? ? ? ?. by apply (par_same k ic src N s). }
  assert (forall x, par_inv k ic src (N + 1) (WriteOwnedFrame x s)) as HW.
  { intros x. unfold WriteOwnedFrame. cbn [port account]. destruct (pclosed _); [by apply Hsame|].
    set (p2 := if 0 <? lenZ x then _ else _). assert (encoder p2 = encoder (port s) /\ txSeq p2 = txSeq (port s)) as [E1 E2] by (unfold p2, noteInputQueued; by destruct (0 <? lenZ x)).
    clearbody p2. destruct (_ <? _); [by apply Hsame|]. destruct (dequeue_fields (lenZ x) p2) as (_ & _ & F1 & F2 & _). destruct (dropN_fields 1 (noteInputDequeued (lenZ x) p2)) as (_ & _ & F3 & F4 & _).
    apply Hsame; txs; first [done|congruence]. }
  destruct op; cbn [txStep].
  - apply HW.
  - unfold WriteFrame. destruct (pclosed _); [by apply Hsame|apply HW].
  - by apply Hsame.
  - unfold register. destruct (unlocked _); by apply Hsame.
  - unfold unregister. destruct (unlocked _); by apply Hsame.
  - unfold runTake. destruct (pc s) eqn:Ep; try (apply Hsame; txs; rewrite ?Ep; done). destruct (pch (port s)) as [|x ch]; [apply Hsame; txs; rewrite ?Ep; done|].
    set (p0 := set_input ch _ _ (port s)). destruct (dequeue_fields (lenZ x) p0) as (_ & _ & E2 & E3 & _).
    destruct (length x =? 0)%nat eqn:El; apply Hsame; txs; rewrite ?Ep; try done. cbn. intros _ ->. done.
  - unfold runWait. destruct (pc s) as [|x| | | | | | ] eqn:Ep; try (apply Hsame; txs; rewrite ?Ep; done). destruct (waitForBackendSlot (port s)); [| |apply Hsame; txs; rewrite ?Ep; done].
    + destruct (dropN_fields 1 (port s)) as (_ & _ & E2 & E3 & _). apply Hsame; txs; rewrite ?Ep; done.
    + pose proof (nextSeq_spec (port s)) as HQ. destruct (nextSeq_fields (port s)) as (_ & _ & E5 & _). destruct (nextSeq (port s)) as [[p q] h]. cbn [fst] in *. specialize (HQ HR). destruct q as [q|].
      * destruct HQ as (Hq & Hp & Hl). destruct HP as [Hw HP]. apply (par_append k ic src N s p _ q x); try done; [by rewrite Ep in Hw|by rewrite Ep].
      * destruct HQ as [_ HQ]. destruct (dropN_fields 1 p) as (_ & _ & E6 & E7 & _). apply Hsame; txs; rewrite ?Ep; first [done|congruence].
  - unfold runSnapshot. destruct (pc s) eqn:Ep; apply Hsame; txs; rewrite ?Ep; done.
  - unfold runGather. destruct (pc s) as [| | |batch [|n]| | | | ] eqn:Ep; try (apply Hsame; txs; rewrite ?Ep; done). destruct (MaxBatchBytes <=? Bytes batch); [apply Hsame; txs; rewrite ?Ep; done|].
    destruct (pch (port s)) as [|x ch]; [apply Hsame; txs; rewrite ?Ep; done|]. set (p0 := set_input ch _ _ (port s)). destruct (dequeue_fields (lenZ x) p0) as (_ & _ & E2 & E3 & _).
    cbn [encoder txSeq set_input p0] in E2, E3. set (p1 := noteInputDequeued (lenZ x) p0) in *. clearbody p1. destruct (length x =? 0)%nat eqn:El; [apply Hsame; txs; rewrite ?Ep; done|].
    pose proof (nextSeq_spec p1) as HQ. destruct (nextSeq_fields p1) as (_ & _ & E5 & _). destruct (nextSeq p1) as [[p q] h]. cbn [fst] in *. rewrite E3 in HQ. specialize (HQ HR). destruct q as [q|].
    + destruct HQ as (Hq & Hp & Hl). apply (par_append k ic src N s p _ q x); try done; [congruence|by intros ->|by rewrite Ep].
    + destruct HQ as [_ HQ]. destruct (dropN_fields 1 p) as (_ & _ & E6 & E7 & _). apply Hsame; txs; rewrite ?Ep; first [done|congruence].
  - unfold runGathered. destruct (pc s) as [| | |batch [|n]| | | | ] eqn:Ep; apply Hsame; txs; rewrite ?Ep; done.
  - apply par_dispatch; try done. unfold from_given in Hfg. set_solver.
  - destruct (pc s) as [| | | | |batch best pars tried| | ] eqn:Ep; try (unfold runTry; rewrite Ep; apply Hsame; txs; rewrite ?Ep; done). by eapply par_sent.
  - unfold runGiveUp. destruct (pc s) as [| | | | |batch best pars [|]| | ] eqn:Ep; try (apply Hsame; txs; rewrite ?Ep; done).
    destruct (dropN_fields (lenZ (Frames batch)) (port s)) as (_ & _ & E2 & E3 & _). apply Hsame; txs; rewrite ?Ep; cbn; first [done|set_solver].
  - by apply par_parity.
  - unfold runExit. destruct (pc s) eqn:Ep; try (apply Hsame; txs; rewrite ?Ep; done). destruct (pclosed _); apply Hsame; txs; rewrite ?Ep; done.
  - done.
  - unfold writerTake. destruct (findB id _) as [b|]; [|by apply Hsame]. destruct (bqueue b); by apply Hsame.
  - unfold writerDone. destruct (findB id _) as [b|]; by apply Hsame.
  - unfold linkChange. destruct (findB id _) as [b|]; by apply Hsame.
Qed.

Lemma par_exec k ic f ops N s : tx_ok s -> num_inv s -> from_given s -> covered f ops s ->
  let s' := txExec f ops s in given s ⊆ given s' /\ num_inv s' /\ forall src, given s' ⊆ src -> par_inv k ic src N s -> par_inv k ic src (N + lenZ ops) s'.
Proof.
  revert N s. induction ops as [|op ops IH]; intros N s H1 H2 H3 H4; [unfold lenZ; cbn; rewrite Z.add_0_r; done|]. destruct H4 as [H4 H5]. cbv zeta in *.
  assert (lenZ (op :: ops) = 1 + lenZ ops) as -> by (unfold lenZ; cbn; lia). rewrite Z.add_assoc. cbn [txExec fold_left].
  destruct (IH (N + 1) (txStep f s op)) as (I1 & I2 & I3); [by apply tx_step|by apply num_step|by apply from_given_step|done|].
  pose proof (given_mono f op s). split_and!; [by etrans|done|]. intros src Hsrc HP. apply I3; [done|]. apply par_step; try done. etrans; [|exact Hsrc]. by etrans.
Qed.

(** The frames of an epoch: there is one list of non-empty payloads, all handed to the
    port, such that the wire carries these under their numbers, and parity of complete
    aligned groups of them. *)
Record wireOf (K : Z) (ic : option innerCipher) (s : txSys) (data : list bytes) : Prop := {
  wo_data : Forall (inData data) (logFrames (elog s));
  wo_parity : Forall (fun vf => isParity vf -> exists g, aligned K g /\ 1 <= g /\ g + K - 1 <= lenZ data /\
                Data vf = parityPayload ic g (slice (Z.to_nat (g - 1)) (Z.to_nat (g - 1 + K)) data)) (logFrames (elog s));
  wo_given : Forall (fun f => f ∈ given s) data;
  wo_nonempty : Forall (fun f => f <> []) data;
  wo_length : lenZ data <= txSeq (port s);
  wo_range : Forall (fun vf => 0 <= Seq vf) (logFrames (elog s))
}.

Lemma encExec_nonempty k ic evs : Forall okEvent evs -> Forall (fun f => f <> []) (rdata (encExec k ic evs)).
Proof.
  intros HF. unfold encExec. assert (Forall (fun f : bytes => f <> []) (rdata (run0 k ic))) as H by constructor. revert H. generalize (run0 k ic).
  induction HF as [|ev evs Hev _ IH]; intros r Hr; [done|]. cbn [fold_left]. apply IH. destruct ev as [n|x]; [done|]. cbn. destruct (enc_add _ _) as [e p]. cbn.
  apply Forall_app. split; [done|]. by constructor.
Qed.

Lemma wire_of_epoch perSecond ops1 ops2 k ic :
  let s0 := txExec perSecond ops1 tx0 in
  pc s0 = RIdle -> pclosed (port s0) = false -> fecMinGroup <= k -> lenZ ops2 < 2 ^ 63 ->
  covered perSecond ops2 (txStep perSecond s0 (TReset k ic)) ->
  let s := txExec perSecond (TReset k ic :: ops2) s0 in exists data, wireOf (clampFecGroup k) ic s data /\ txSeq (port s) < 2 ^ 32.
Proof.
  intros s0 Hpc Hcl Hk HL HC s. destruct (exec_both perSecond ops1 tx0 tx_ok0 num_inv0) as [H1 H2]. fold s0 in H1, H2.
  assert (from_given s0) as H3.
  { unfold s0. assert (from_given tx0) as H by (unfold from_given; cbn; set_solver). revert H. generalize tx0. clear. induction ops1 as [|op ops IH]; intros t Ht; [done|]. by apply IH, from_given_step. }
  set (s1 := txStep perSecond s0 (TReset k ic)) in *.
  assert (forall src, par_inv k ic src 0 s1) as HP.
  { intros src. unfold s1. cbn [txStep]. unfold runReset. rewrite Hpc, Hcl. split; [done|]. exists []. split; txs; cbn; try done; try constructor; try done.
    apply Z.leb_le in Hk. by rewrite Hk. }
  destruct (par_exec k ic perSecond ops2 0 s1 (tx_step _ _ _ H1) (num_step _ _ _ H1 H2) (from_given_step _ _ _ H3) HC) as (_ & HN & HE).
  change (txExec perSecond ops2 s1) with s in *. destruct (HE (given s) ltac:(done) (HP _)) as [_ (evs & [[A1 [A2 A3]] B C D E F G HS])].
  pose proof (nu_range _ HN) as Hr. assert (lenZ (rdata (encExec k ic evs)) < 2 ^ 32) as Hd by (unfold lenZ in *; lia).
  destruct (encExec_inv k ic evs) as (pre & cur & from & til & []); [split_and!; [done|lia|lia]|].
  exists (rdata (encExec k ic evs)). split; [|lia]. apply Forall_app in E as [E _]. split; [done| |done|by apply encExec_nonempty|unfold lenZ in *; lia|].
  2:{ apply Forall_forall. intros vf Hv. destruct (decide (Seq vf = 0)) as [->|Hz]; [lia|]. pose proof (nu_below _ HN) as HB. rewrite Forall_forall in HB.
      destruct (HB (Seq vf)); [|lia]. apply list_elem_of_filter. split; [done|]. by apply list_elem_of_fmap_2. }
  eapply Forall_impl; [exact G|]. intros vf Hv Hi. specialize (Hv Hi).
  apply list_elem_of_fmap in Hv as ([g p] & Ep & Hv). rewrite Forall_forall in r_par. destruct (r_par _ Hv) as (P1 & P2 & P3 & P4). cbn [fst snd] in *.
  exists g. split_and!; [done|done| |by rewrite Ep]. rewrite r_data. unfold lenZ in *. rewrite length_app. lia.
Qed.

(** C12: Parity matches what was sent.  In an epoch whose dispatches always find a
    connection, whatever connections come and go and whatever is dropped, there is one
    list of payloads handed to the port such that every data frame on any connection
    carries the payload of its number, and every parity record on any connection is the
    parity of K consecutive payloads that start at a group boundary. *)
Theorem tx_parity_sound (perSecond : Z -> Z -> Z) (ops1 ops2 : list txOp) (k : Z) (ic : option innerCipher) :
  let s0 := txExec perSecond ops1 tx0 in
  pc s0 = RIdle -> pclosed (port s0) = false -> fecMinGroup <= k -> lenZ ops2 < 2 ^ 63 ->
  covered perSecond ops2 (txStep perSecond s0 (TReset k ic)) ->
  let s := txExec perSecond (TReset k ic :: ops2) s0 in
  let K := clampFecGroup k in
  exists data, Forall (fun f => f ∈ given s) data /\ Forall (inData data) (logFrames (elog s)) /\
    Forall (fun vf => isParity vf -> exists g, aligned K g /\ 1 <= g /\ g + K - 1 <= lenZ data /\
              Data vf = parityPayload ic g (slice (Z.to_nat (g - 1)) (Z.to_nat (g - 1 + K)) data)) (logFrames (elog s)).
Proof.
  intros s0 Hpc Hcl Hk HL HC s K. destruct (wire_of_epoch perSecond ops1 ops2 k ic Hpc Hcl Hk HL HC) as (data & [] & _). by exists data.
Qed.

(** ** Byte accounting of the connections *)

Definition sumLen (l : list bytes) : Z := foldr (fun x a => lenZ x + a) 0 l.

Lemma sumLen_app a b : sumLen (a ++ b) = sumLen a + sumLen b.
Proof. induction a as [|x a IH]; cbn; [done|]. unfold sumLen in *. cbn. rewrite IH. lia. Qed.
Lemma sumLen_nonneg l : 0 <= sumLen l.
Proof. induction l as [|x l IH]; cbn; [lia|]. unfold sumLen, lenZ in *. cbn. lia. Qed.
#[export] Instance sumLen_perm : Proper ((≡ₚ) ==> eq) sumLen.
Proof. intros a b H. induction H; cbn; unfold sumLen in *; cbn in *; lia. Qed.

Definition batchOk (b : VPNFrameBatch) : Prop := Bytes b = sumLen (bufsOf b).
Definition inFlight (s : txSys) (i : nat) : Z := default 0 (flight s !! i).
Definition queueLenBytes (b : Backend) : Z := sumLen (concat (bufsOf <$> bqueue b)).

Definition pcBatch (c : runPC) : Prop := match c with RFirst b | RGather b _ | RDispatch b | RSend b _ _ _ => batchOk b | _ => True end.

Record bytes_inv (s : txSys) : Prop := {
  by_queues : Forall (fun b => Forall batchOk (bqueue b)) (backends (port s));
  by_pc : pcBatch (pc s);
  by_count : Forall (fun b => queuedBytes b = queueLenBytes b + inFlight s (bid b)) (backends (port s));
  by_flight : forall i, 0 <= inFlight s i <= sumLen (spent s);
  by_fresh : forall i, (nextID s <= i)%nat -> flight s !! i = None
}.

Definition total (s : txSys) : Z := sumLen (given s ++ made s).

Lemma queue_le bs b : b ∈ bs -> queueLenBytes b <= sumLen (queueBufs bs).
Proof.
  intros Hb. apply list_elem_of_split in Hb as (l1 & l2 & ->). unfold queuesOf, queueLenBytes. rewrite fmap_app, fmap_cons, concat_app. cbn [concat]. rewrite !sumLen_app.
  pose proof (sumLen_nonneg (concat ((fun b => concat (bufsOf <$> bqueue b)) <$> l1))). pose proof (sumLen_nonneg (concat ((fun b => concat (bufsOf <$> bqueue b)) <$> l2))). lia.
Qed.

(** The bytes of a backend and those in the run goroutine's hands are part of what the
    port was given. *)
Lemma bytes_bound s b : conserved s -> bytes_inv s -> b ∈ backends (port s) -> 0 <= queuedBytes b /\ queuedBytes b + sumLen (pcBufs (pc s)) <= total s.
Proof.
  intros HC HB Hb. pose proof (by_count _ HB) as H1. rewrite Forall_forall in H1. rewrite (H1 b Hb). pose proof (by_flight _ HB (bid b)). pose proof (queue_le _ b Hb).
  pose proof (sumLen_nonneg (concat (bufsOf <$> bqueue b))). unfold queueLenBytes in *. unfold total. unfold conserved in HC. rewrite HC, !sumLen_app.
  pose proof (sumLen_nonneg (returned s)). pose proof (sumLen_nonneg (lost s)). pose proof (sumLen_nonneg (gone s)). pose proof (sumLen_nonneg (pch (port s))). lia.
Qed.

Lemma bytes_same s s' : Forall2 (fun b b' => bid b' = bid b /\ bqueue b' = bqueue b /\ queuedBytes b' = queuedBytes b) (backends (port s)) (backends (port s')) ->
  pcBatch (pc s') -> flight s' = flight s -> spent s' = spent s -> nextID s' = nextID s -> bytes_inv s -> bytes_inv s'.
Proof.
  intros HF Hp E1 E2 E3 [H1 H2 H3 H4 H5]. split; unfold inFlight in *; rewrite ?E1, ?E2, ?E3; try done.
  - clear -HF H1. induction HF as [|b b' l l' (_ & E & _) _ IH]; [done|]. apply Forall_cons in H1 as [? ?]. constructor; [by rewrite E|auto].
  - clear -HF H3. induction HF as [|b b' l l' (F1 & F2 & F3) _ IH]; [done|]. apply Forall_cons in H3 as [? ?]. constructor; [|auto]. unfold queueLenBytes. by rewrite F1, F2, F3.
Qed.

Lemma same_refl bs : Forall2 (fun b b' => bid b' = bid b /\ bqueue b' = bqueue b /\ queuedBytes b' = queuedBytes b) bs bs.
Proof. induction bs; constructor; done. Qed.

Lemma batchOk_append b vf : batchOk b -> sumLen (bufsOf b) + lenZ (Data vf) < 2 ^ 64 -> batchOk (appendOwnedVPNFrame b vf).
Proof.
  unfold batchOk. intros Hb Hl. rewrite bufsOf_append, sumLen_app. cbn [Bytes appendOwnedVPNFrame]. rewrite Hb. pose proof (sumLen_nonneg (bufsOf b)).
  assert (sumLen [Data vf] = lenZ (Data vf)) as -> by (unfold sumLen; cbn; lia). unfold lenZ in *. rewrite u64_small; [lia|widths; lia].
Qed.

Lemma length_control c : lenZ (appendFECModeControl [] c) = 16.
Proof. unfold appendFECModeControl, lenZ. cbn [app length]. rewrite !length_app, !length_be_enc. done. Qed.

Lemma withFence_bytes c batch : batchOk batch -> sumLen (bufsOf batch) + 16 < 2 ^ 64 -> batchOk (withFence c batch) /\ Bytes (withFence c batch) = 16 + Bytes batch.
Proof.
  intros Hb Hl. pose proof (sumLen_nonneg (bufsOf batch)) as Hn. assert (Bytes (withFence c batch) = 16 + Bytes batch) as E.
  { unfold withFence. cbn [Bytes appendOwnedVPNFrame getOwnedVPNFrameBatch Data]. rewrite length_control. rewrite Hb. rewrite (u64_small (0 + 16)) by (widths; lia). rewrite u64_small; [lia|widths; lia]. }
  split; [|done]. unfold batchOk. rewrite E, bufsOf_withFence. unfold sumLen. cbn [foldr]. rewrite length_control. unfold batchOk in Hb. rewrite Hb. done.
Qed.

Lemma queue_undo q n : 0 <= q -> 0 < n -> q + n < 2 ^ 64 -> atomicSubSaturating (u64 (q + n)) n = q.
Proof. intros. rewrite u64_small by (widths; lia). unfold atomicSubSaturating. destruct (_ =? 0) eqn:E; [lia|]. destruct (n <? q + n) eqn:E2; lia. Qed.

(** An attempt adds the bytes of what it queues, or nothing. *)
Lemma trySend_bytes enc batch b : batchOk batch -> 0 <= queuedBytes b -> queuedBytes b + Bytes batch + 16 < 2 ^ 64 ->
  let '(b', r, _) := trySend enc batch b in
  match r with Some out => batchOk out /\ queuedBytes b' = queuedBytes b + Bytes out | None => queuedBytes b' = queuedBytes b end.
Proof.
  intros Hb Hq Hl. pose proof (sumLen_nonneg (bufsOf batch)) as Hn. assert (Bytes batch = sumLen (bufsOf batch)) as EB by done.
  unfold trySend. set (out := match fenceFor enc b with Some c => withFence c batch | None => batch end).
  assert (batchOk out /\ Bytes batch <= Bytes out <= Bytes batch + 16) as [Ho Hob].
  { unfold out. destruct (fenceFor enc b) as [c|]; [|split; [done|lia]]. destruct (withFence_bytes c batch Hb ltac:(lia)) as [? ->]. split; [done|lia]. }
  pose proof (tryQueue_spec out (addQueuedBytes (Bytes out) b)) as H. destruct (tryQueueOwnedBatch _ _) as [b1 ok]. destruct H as [_ ->].
  rewrite addQueued_eq. destruct ok.
  - split; [done|]. assert (forall x, queuedBytes (match fenceFor enc b with Some c => set_fence (Generation c) x | None => x end) = queuedBytes x) as E by (intros x; by destruct (fenceFor enc b)).
    cbn [queuedBytes set_assigned]. rewrite E. cbn. destruct (Bytes out =? 0) eqn:E0; [lia|]. rewrite u64_small; [done|widths; lia].
  - rewrite completeQueued_eq. cbn. destruct (Bytes out =? 0) eqn:E0; [done|]. apply queue_undo; lia.
Qed.

Lemma updB_self i b bs : NoDup (bid <$> bs) -> findB i bs = Some b -> updB i b bs = bs.
Proof. intros HN Hf. by destruct (updB_exchange i b b bs HN Hf) as (l1 & l2 & -> & ->). Qed.

(** Without overflow a failed attempt leaves no trace. *)
Lemma tryIDs_exact enc batch ids bs : NoDup (bid <$> bs) -> batchOk batch -> Forall (fun b => 0 <= queuedBytes b /\ queuedBytes b + Bytes batch + 16 < 2 ^ 64) bs ->
  match tryIDs enc batch ids bs with
  | (bs', Some (i, out), _, _) => exists b b' fence, findB i bs = Some b /\ trySend enc batch b = (b', Some out, fence) /\ bs' = updB i b' bs
  | (bs', None, _, _) => bs' = bs
  end.
Proof.
  intros HN Hb HF. induction ids as [|i ids IH]; cbn [tryIDs]; [done|]. destruct (findB i bs) as [b|] eqn:Ef; [|exact IH].
  destruct (trySend enc batch b) as [[b' r] fence] eqn:Es. destruct r as [out|]; [by exists b, b', fence|].
  assert (b' = b) as ->.
  { pose proof (trySend_None _ _ _ _ _ Es) as Ho. destruct (findB_elem _ _ _ Ef) as [Hbin _]. rewrite Forall_forall in HF. destruct (HF b Hbin) as [Q1 Q2].
    pose proof (trySend_bytes enc batch b Hb Q1 Q2) as HT. rewrite Es in HT. unfold bytesOnly in Ho. rewrite Ho, HT. by destruct b. }
  rewrite (updB_self i b bs HN Ef). destruct (tryIDs enc batch ids bs) as [[[bs' r] mk] back]. exact IH.
Qed.

Lemma updB_Forall (P : Backend -> Prop) i b b' bs : NoDup (bid <$> bs) -> findB i bs = Some b -> Forall P bs -> P b' -> Forall P (updB i b' bs).
Proof.
  intros HN Hf HF Hb. destruct (updB_exchange i b b' bs HN Hf) as (l1 & l2 & -> & ->). apply Forall_app in HF as [H1 H2]. apply Forall_cons in H2 as [_ H2].
  apply Forall_app. split; [done|]. by constructor.
Qed.

Lemma count_update (fl : gmap nat Z) i b b' v bs : NoDup (bid <$> bs) -> findB i bs = Some b -> bid b' = bid b ->
  Forall (fun b => queuedBytes b = queueLenBytes b + default 0 (fl !! bid b)) bs -> queuedBytes b' = queueLenBytes b' + v ->
  Forall (fun b => queuedBytes b = queueLenBytes b + default 0 (<[i := v]> fl !! bid b)) (updB i b' bs).
Proof.
  intros HN Hf Hid HF Hb. destruct (findB_elem _ _ _ Hf) as [_ Ei]. destruct (updB_exchange i b b' bs HN Hf) as (l1 & l2 & -> & ->).
  rewrite fmap_app, fmap_cons, NoDup_app, NoDup_cons in HN. destruct HN as (_ & N1 & N2 & _). apply Forall_app in HF as [A1 A2]. apply Forall_cons in A2 as [_ A2].
  assert (forall y, y ∈ l1 ++ l2 -> bid y <> i) as Hoth.
  { intros y Hy E. apply elem_of_app in Hy as [Hy|Hy]; [apply (N1 (bid y)); [by apply list_elem_of_fmap_2|rewrite E, Ei; by left]|]. apply N2. rewrite Ei, <- E. by apply list_elem_of_fmap_2. }
  apply Forall_app. split; [|constructor].
  - rewrite Forall_forall in *. intros y Hy. rewrite (A1 y Hy). by rewrite lookup_insert_ne by (intros E; apply (Hoth y); [set_solver|done]).
  - by rewrite Hid, Ei, lookup_insert_eq.
  - rewrite Forall_forall in *. intros y Hy. rewrite (A2 y Hy). by rewrite lookup_insert_ne by (intros E; apply (Hoth y); [set_solver|done]).
Qed.

(** A backend that gains a batch, with everything else as it was. *)
Lemma bytes_enqueue s s' i b b' out c : ids_ok s -> bytes_inv s -> findB i (backends (port s)) = Some b -> bid b' = bid b -> bqueue b' = bqueue b ++ [out] ->
  batchOk out -> queuedBytes b' = queuedBytes b + Bytes out -> pcBatch c ->
  backends (port s') = updB i b' (backends (port s)) -> pc s' = c -> flight s' = flight s -> spent s' = spent s -> nextID s' = nextID s -> bytes_inv s'.
Proof.
  intros HI [H1 H2 H3 H4 H5] Hf Ei Eq Ho En Hc E1 E2 E3 E4 E5. destruct (findB_elem _ _ _ Hf) as [Hbin _].
  split; unfold inFlight in *; rewrite ?E1, ?E2, ?E3, ?E4, ?E5; try done.
  - apply (updB_Forall _ i b); [apply HI|done|done|]. rewrite Eq. apply Forall_app. split; [rewrite Forall_forall in H1; by apply H1|by constructor].
  - apply (updB_Forall _ i b); [apply HI|done|done|]. rewrite Forall_forall in H3. rewrite En, Ei, (H3 b Hbin). unfold queueLenBytes. rewrite Eq, fmap_app, concat_app, sumLen_app.
    cbn [fmap list_fmap concat]. rewrite app_nil_r. unfold batchOk in Ho. rewrite Ho. lia.
Qed.

Lemma bytes_try s : tx_ok s -> bytes_inv s -> total s < 2 ^ 63 -> bytes_inv (runTry s).
Proof.
  intros [HI HC] HB HT. unfold runTry. destruct (pc s) as [| | | | |batch best pars tried| | ] eqn:Ep; try done.
  pose proof (by_pc _ HB) as Hp. rewrite Ep in Hp. cbn in Hp.
  assert (Forall (fun b => 0 <= queuedBytes b /\ queuedBytes b + Bytes batch + 16 < 2 ^ 64) (backends (port s))) as HF.
  { apply Forall_forall. intros b Hb. destruct (bytes_bound s b HC HB Hb) as [B1 B2]. rewrite Ep in B2. cbn [pcBufs] in B2. rewrite sumLen_app in B2.
    pose proof (sumLen_nonneg pars). unfold batchOk in Hp. lia. }
  pose proof (tryIDs_exact (encoder (port s)) batch (match best with Some i => i :: filter (fun j => Some j <> best) (bid <$> backends (port s)) | None => filter (fun j => Some j <> best) (bid <$> backends (port s)) end) _ (io_nodup _ HI) Hp HF) as HO.
  unfold tryAll. destruct (tryIDs _ _ _ _) as [[[bs r] mk] back]. destruct r as [[i out]|].
  - destruct HO as (b & b' & fence & H1 & H2 & ->). destruct (findB_elem _ _ _ H1) as [Hbin _]. rewrite Forall_forall in HF. destruct (HF b Hbin) as [Q1 Q2].
    pose proof (trySend_bytes (encoder (port s)) batch b Hp Q1 Q2) as HS. rewrite H2 in HS. destruct HS as [S1 S2]. apply trySend_Some in H2 as (_ & T1 & _ & T2 & _).
    by apply (bytes_enqueue s _ i b b' out (RParity best pars)).
  - subst bs. apply (bytes_same s); txs; try done. apply same_refl.
Qed.

Lemma bytes_parity s : tx_ok s -> bytes_inv s -> total s < 2 ^ 63 -> bytes_inv (runParity s).
Proof.
  intros [HI HC] HB HT. unfold runParity. destruct (pc s) as [| | | | | |best [|par pars]| ] eqn:Ep; try done; [apply (bytes_same s); txs; try done; apply same_refl|].
  destruct (lenZ (backends (port s)) <? 2); [apply (bytes_same s); txs; try done; apply same_refl|]. destruct (pickParityBackend _ _ _) as [target next]. txs.
  assert (forall p, backends p = backends (port s) -> bytes_inv (account [] [] [] [par] [] [] (set_run (dropN 1 p) (RParity best pars) s))) as Hdrop.
  { intros p H1. destruct (dropN_fields 1 p) as (_ & E2 & _). apply (bytes_same s); txs; try done. rewrite E2, H1. apply same_refl. }
  destruct (target ≫= _) as [b|] eqn:Ef; [|by apply Hdrop]. apply bind_Some in Ef as (i & _ & Ef). destruct (findB_elem _ _ _ Ef) as [Hbin <-].
  destruct (bytes_bound s b HC HB Hbin) as [B1 B2]. rewrite Ep in B2. cbn [pcBufs] in B2. assert (sumLen (par :: pars) = lenZ par + sumLen pars) as E by done. rewrite E in B2.
  pose proof (sumLen_nonneg pars). assert (0 <= lenZ par) by (unfold lenZ; lia).
  set (out := appendOwnedVPNFrame getOwnedVPNFrameBatch (mkFrame 0 par)).
  assert (Bytes out = lenZ par /\ batchOk out) as [EB Ho].
  { unfold out, batchOk. cbn [Bytes appendOwnedVPNFrame getOwnedVPNFrameBatch Data]. rewrite u64_small by (widths; lia). split; [lia|]. unfold sumLen. cbn. lia. }
  pose proof (sendOwnedFrameTo_spec (mkFrame 0 par) b) as HS. unfold sendOwnedFrameTo in *. fold out in HS |- *.
  pose proof (tryQueue_spec out (addQueuedBytes (Bytes out) b)) as HQ. destruct (tryQueueOwnedBatch _ _) as [b1 ok]. destruct HQ as [_ ->]. rewrite addQueued_eq in *. destruct ok.
  - destruct HS as (S1 & _ & _ & _ & S2 & _). eapply (bytes_enqueue s _ (bid b) b _ out (RParity best pars)); [done|done|done|exact S1|exact S2|done| |done|txs; reflexivity|done..].
    cbn [queuedBytes set_assigned set_q]. destruct (Bytes out =? 0) eqn:E0; [lia|]. rewrite u64_small; [done|widths; lia].
  - assert (completeQueuedBytes (Bytes out) (set_q (bqueue b) (if Bytes out =? 0 then queuedBytes b else u64 (queuedBytes b + Bytes out)) b) = b) as ->.
    { rewrite completeQueued_eq. cbn [queuedBytes set_q bqueue]. destruct (Bytes out =? 0) eqn:E0; [by destruct b|]. rewrite queue_undo by lia. by destruct b. }
    rewrite (updB_self (bid b) b) by (done || apply HI). by apply Hdrop.
Qed.

Lemma bytes_write x s : bytes_inv s -> bytes_inv (WriteOwnedFrame x s).
Proof.
  intros HB. assert (pcBatch (pc s)) as Hp by apply HB. unfold WriteOwnedFrame. cbn [port account]. destruct (pclosed _); [apply (bytes_same s); txs; try done; apply same_refl|].
  set (p2 := if 0 <? lenZ x then _ else _). assert (backends p2 = backends (port s)) as E by (unfold p2, noteInputQueued; by destruct (0 <? lenZ x)). clearbody p2.
  destruct (_ <? _); [apply (bytes_same s); txs; try done; rewrite E; apply same_refl|]. destruct (dequeue_fields (lenZ x) p2) as (_ & F1 & _). destruct (dropN_fields 1 (noteInputDequeued (lenZ x) p2)) as (_ & F3 & _).
  apply (bytes_same s); txs; try done. rewrite F3, F1, E. apply same_refl.
Qed.

Lemma bytes_step f op s : tx_ok s -> bytes_inv s -> total s < 2 ^ 63 -> bytes_inv (txStep f s op).
Proof.
  intros Hok HB HT. pose proof Hok as [HI HC]. assert (pcBatch (pc s)) as Hp by apply HB.
  assert (forall s', backends (port s') = backends (port s) -> pcBatch (pc s') -> flight s' = flight s -> spent s' = spent s -> nextID s' = nextID s -> bytes_inv s') as Hsame.
  { intros s' E ? ? ? ?. apply (bytes_same s); try done. rewrite E. apply same_refl. }
  assert (forall x, x ∈ pch (port s) -> forall b, sumLen (bufsOf b) <= sumLen (pcBufs (pc s)) -> sumLen (bufsOf b) + lenZ x < 2 ^ 64) as Hroom.
  { intros x Hx b Hb. unfold total in HT. unfold conserved in HC. rewrite HC, !sumLen_app in HT. apply list_elem_of_split in Hx as (l1 & l2 & E). rewrite E in HT. rewrite sumLen_app in HT.
    assert (sumLen (x :: l2) = lenZ x + sumLen l2) as E2 by done. rewrite E2 in HT. pose proof (sumLen_nonneg (returned s)). pose proof (sumLen_nonneg (lost s)). pose proof (sumLen_nonneg (spent s)).
    pose proof (sumLen_nonneg (gone s)). pose proof (sumLen_nonneg l1). pose proof (sumLen_nonneg l2). pose proof (sumLen_nonneg (queueBufs (backends (port s)))). lia. }
  destruct op; cbn [txStep].
  - by apply bytes_write.
  - unfold WriteFrame. destruct (pclosed _); [done|by apply bytes_write].
  - by apply Hsame.
  - unfold register. destruct (unlocked _); [|done]. destruct HB as [H1 H2 H3 H4 H5]. split; txs; try done; unfold RegisterOwnedBackend; txs.
    + apply Forall_app. split; [done|]. constructor; [|done]. constructor.
    + apply Forall_app. split; [done|]. constructor; [|done]. unfold inFlight. txs. cbn [bid newBackend queuedBytes]. by rewrite H5 by lia.
    + intros i Hi. apply H5. lia.
  - unfold unregister. destruct (unlocked _); [|done]. destruct HB as [H1 H2 H3 H4 H5]. split; txs; try done; unfold UnregisterOwnedBackend; txs.
    + rewrite Forall_forall in *. intros b Hb. apply list_elem_of_filter in Hb as [_ Hb]. by apply H1.
    + rewrite Forall_forall in *. intros b Hb. apply list_elem_of_filter in Hb as [Hn Hb]. rewrite (H3 b Hb). unfold inFlight. txs. by rewrite lookup_delete_ne.
    + intros i. specialize (H4 i). unfold inFlight in *. txs. destruct (decide (i = id)) as [->|]; [rewrite lookup_delete_eq; cbn; pose proof (sumLen_nonneg (spent s)); lia|by rewrite lookup_delete_ne].
    + intros i Hi. destruct (decide (i = id)) as [->|]; [by rewrite lookup_delete_eq|]. rewrite lookup_delete_ne by done. by apply H5.
  - unfold runTake. destruct (pc s) eqn:Ep; try done. destruct (pch (port s)) as [|x ch]; [done|]. set (p0 := set_input ch _ _ (port s)). destruct (dequeue_fields (lenZ x) p0) as (_ & E2 & _).
    destruct (length x =? 0)%nat; apply Hsame; txs; rewrite ?Ep; done.
  - unfold runWait. destruct (pc s) as [|x| | | | | | ] eqn:Ep; try done. destruct (waitForBackendSlot (port s)); [| |done].
    + destruct (dropN_fields 1 (port s)) as (_ & E2 & _). apply Hsame; txs; rewrite ?Ep; done.
    + destruct (nextSeq_fields (port s)) as (_ & E2 & _). destruct (nextSeq (port s)) as [[p q] h]. cbn [fst] in *. destruct q.
      * apply Hsame; txs; try done. cbn [pcBatch]. apply batchOk_append; [done|]. cbn [Data]. unfold bufsOf, getOwnedVPNFrameBatch. cbn [Frames fmap list_fmap]. unfold total, conserved in *.
        rewrite HC, Ep, !sumLen_app in HT. cbn [pcBufs] in HT. unfold sumLen at 6 in HT. cbn [foldr] in HT. pose proof (sumLen_nonneg (returned s)). pose proof (sumLen_nonneg (lost s)). pose proof (sumLen_nonneg (spent s)).
        pose proof (sumLen_nonneg (gone s)). pose proof (sumLen_nonneg (pch (port s))). pose proof (sumLen_nonneg (queueBufs (backends (port s)))). unfold sumLen at 1. cbn [foldr]. lia.
      * destruct (dropN_fields 1 p) as (_ & E4 & _). apply Hsame; txs; first [done|congruence].
  - unfold runSnapshot. destruct (pc s) eqn:Ep; try done. by apply Hsame.
  - unfold runGather. destruct (pc s) as [| | |batch [|n]| | | | ] eqn:Ep; try done. destruct (MaxBatchBytes <=? Bytes batch); [by apply Hsame|].
    destruct (pch (port s)) as [|x ch] eqn:Ec; [done|]. set (p0 := set_input ch _ _ (port s)). destruct (dequeue_fields (lenZ x) p0) as (_ & E2 & _). cbn [backends set_input p0] in E2.
    set (p1 := noteInputDequeued (lenZ x) p0) in *. clearbody p1. destruct (length x =? 0)%nat; [by apply Hsame|].
    destruct (nextSeq_fields p1) as (_ & E4 & _). destruct (nextSeq p1) as [[p q] h]. cbn [fst] in *. destruct q.
    + apply Hsame; txs; first [done|congruence|idtac]. cbn [pcBatch] in *. apply batchOk_append; [done|]. apply Hroom; [by left|]. cbn [pcBufs]. lia.
    + destruct (dropN_fields 1 p) as (_ & E6 & _). apply Hsame; txs; first [done|congruence].
  - unfold runGathered. destruct (pc s) as [| | |batch [|n]| | | | ] eqn:Ep; try done. by apply Hsame.
  - unfold dispatchOwnedBatch. destruct (pc s) as [| | | |batch| | | ] eqn:Ep; try done. destruct (backends (port s)) as [|b0 bs0] eqn:Eb.
    + destruct (dropN_fields (lenZ (Frames batch)) (port s)) as (_ & E2 & _). apply Hsame; txs; first [done|congruence].
    + destruct (pressure_fields f now (Bytes batch) (port s)) as (_ & E2 & _). destruct (schedulerPressureFor f now (Bytes batch) (port s)) as [p pr]. cbn [fst] in *. cbn [backends set_encoder].
      pose proof (pick_frame (backends p) pr (inputRateBytesPerSec p) (Bytes batch) (activePaths p) (preferred p)) as HP. rewrite E2 in HP |- *.
      assert (Forall2 (fun b b' => bid b' = bid b /\ bqueue b' = bqueue b /\ queuedBytes b' = queuedBytes b) (backends (port s)) (pbs (pickAdaptiveBackend (backends (port s)) pr (inputRateBytesPerSec p) (Bytes batch) (activePaths p) (preferred p)))) as HP'.
      { eapply Forall2_impl; [exact HP|]. intros b b' HE. apply schedEq_facts in HE. tauto. }
      cbn zeta. destruct (encoder _) as [e|]; [destruct (encodeBatch _ e)|]; by apply (bytes_same s).
  - by apply bytes_try.
  - unfold runGiveUp. destruct (pc s) as [| | | | |batch best pars [|]| | ] eqn:Ep; try done. destruct (dropN_fields (lenZ (Frames batch)) (port s)) as (_ & E2 & _). by apply Hsame.
  - by apply bytes_parity.
  - unfold runExit. destruct (pc s) eqn:Ep; try done. destruct (pclosed _); [by apply Hsame|done].
  - unfold runReset. destruct (pc s) eqn:Ep; try done. destruct (pclosed _); [done|]. apply (bytes_same s); txs; try done. clear. induction (backends (port s)); constructor; done.
  - unfold writerTake. destruct (findB id _) as [b|] eqn:Ef; [|done]. destruct (bqueue b) as [|batch q] eqn:Eq; [done|]. destruct (findB_elem _ _ _ Ef) as [Hbin Ei].
    destruct HB as [H1 H2 H3 H4 H5]. pose proof H1 as H1b. pose proof H3 as H3b. rewrite Forall_forall in H1b, H3b. specialize (H1b b Hbin). specialize (H3b b Hbin). cbv beta in *. rewrite Eq in H1b. apply Forall_cons in H1b as [Hbo Hbq].
    assert (Bytes batch = sumLen (bufsOf batch)) as EB by done. pose proof (sumLen_nonneg (bufsOf batch)). pose proof (H4 id) as H4i.
    split; txs; try done.
    + apply (updB_Forall _ id b); [apply HI|done|done|done].
    + unfold inFlight. txs. apply (count_update _ id b); [apply HI|done|done|done|].
      unfold inFlight, queueLenBytes in *. cbn [bqueue queuedBytes set_q]. rewrite H3b, Eq, Ei. cbn [fmap list_fmap concat]. rewrite sumLen_app. lia.
    + intros i. rewrite sumLen_app. specialize (H4 i). unfold inFlight in *. txs. destruct (decide (i = id)) as [->|]; [rewrite lookup_insert_eq; cbn; lia|rewrite lookup_insert_ne by done; lia].
    + intros i Hi. pose proof (io_fresh _ HI) as Hfr. rewrite Forall_forall in Hfr. specialize (Hfr b Hbin). cbv beta in Hfr. rewrite lookup_insert_ne by lia. by apply H5.
  - unfold writerDone. destruct (findB id _) as [b|] eqn:Ef; [|done]. destruct (findB_elem _ _ _ Ef) as [Hbin Ei]. destruct HB as [H1 H2 H3 H4 H5].
    pose proof H1 as H1b. pose proof H3 as H3b. rewrite Forall_forall in H1b, H3b. specialize (H1b b Hbin). specialize (H3b b Hbin). cbv beta in *. pose proof (H4 id) as H4i.
    fold (inFlight s id). destruct (observe_frame f now (inFlight s id) (completeQueuedBytes (inFlight s id) b)) as (r & x & y & ->). rewrite completeQueued_eq. split; txs; try done.
    + apply (updB_Forall _ id b); [apply HI|done|done|done].
    + unfold inFlight at 1. txs. apply (count_update _ id b); [apply HI|done|done|done|]. unfold queueLenBytes in *. cbn [bqueue queuedBytes set_q set_rate]. rewrite Ei in H3b.
      pose proof (sumLen_nonneg (concat (bufsOf <$> bqueue b))). destruct (inFlight s id =? 0) eqn:E0; [lia|]. unfold atomicSubSaturating. destruct (queuedBytes b =? 0) eqn:E1; [lia|]. destruct (_ <? _) eqn:E2; lia.
    + intros i. specialize (H4 i). unfold inFlight in *. txs. destruct (decide (i = id)) as [->|]; [rewrite lookup_insert_eq; cbn; lia|by rewrite lookup_insert_ne].
    + intros i Hi. pose proof (io_fresh _ HI) as Hfr. rewrite Forall_forall in Hfr. specialize (Hfr b Hbin). cbv beta in Hfr. rewrite lookup_insert_ne by lia. by apply H5.
  - unfold linkChange. destruct (findB id _) as [b|] eqn:Ef; [|done]. apply (bytes_same s); txs; try done.
    destruct (updB_exchange id b (set_link rtt carry b) _ (io_nodup _ HI) Ef) as (l1 & l2 & -> & ->). apply Forall2_app; [apply same_refl|]. constructor; [done|apply same_refl].
Qed.

Lemma total_mono f op s : total s <= total (txStep f s op).
Proof.
  destruct (total_step f op s) as (g & m & E1 & E2). unfold total. rewrite E1, E2, !sumLen_app. pose proof (sumLen_nonneg g). pose proof (sumLen_nonneg m). lia.
Qed.

(** Exact accounting.  As long as the port has handled less than 2^63 bytes, the byte
    counter that the scheduler reads of a connection is exactly the bytes in its queue
    plus those its writer has taken and not yet reported written: failed attempts,
    fences, parity records, resets and the departure of other connections leave no
    trace in it. *)
Theorem queued_bytes_exact (perSecond : Z -> Z -> Z) (ops : list txOp) :
  let s := txExec perSecond ops tx0 in
  sumLen (given s ++ made s) < 2 ^ 63 ->
  Forall (fun b => queuedBytes b = sumLen (concat (bufsOf <$> bqueue b)) + default 0 (flight s !! bid b)) (backends (port s)).
Proof.
  intros s HT. assert (bytes_inv s) as [_ _ H _ _]; [|exact H]. unfold s in *. clear s. change (total (txExec perSecond ops tx0) < 2 ^ 63) in HT.
  assert (bytes_inv tx0) as H0 by (split; cbn; try done; try constructor; unfold inFlight; by rewrite ?lookup_empty).
  revert HT. generalize tx_ok0 H0. generalize tx0. clear H0. induction ops as [|op ops IH]; intros t H1 H2 HT; [done|]. apply IH; [by apply tx_step| |done].
  apply bytes_step; [done|done|]. assert (total t <= total (txExec perSecond (op :: ops) t)); [|lia]. clear. revert t op. induction ops as [|o ops IH]; intros t op; cbn; [apply total_mono|].
  etrans; [apply total_mono|]. apply IH.
Qed.

(** ** Witnesses *)

(** Nine turns of the run goroutine take one frame from the queue to a connection. *)
Definition oneBatch (now : Z) : list txOp := [TTake; TWait; TSnapshot; TGathered; TDispatch now; TTry; TParity].
Definition demoQuot (bytes ns : Z) : Z := if ns =? 0 then 0 else bytes * 1000000000 / ns.
Definition demoSend : list txOp :=
  [TRegister 32 2000; TRegister 32 3000; TWrite [1; 2]] ++ oneBatch 1 ++ [TWrite [3]] ++ oneBatch 2 ++ [TParity; TWriterTake 0; TWrite [4; 4]] ++ oneBatch 3.

Lemma tx_no_holes_witness :
  let s := txExec demoQuot (TReset 2 None :: demoSend) tx0 in
  dataSeqs (logFrames (elog s)) ++ (Seq <$> pcFrames (pc s)) = seqZ 1 (txSeq (port s)).
Proof. apply (tx_no_holes demoQuot [] demoSend 2 None); [reflexivity|reflexivity|repeat constructor]. Defined.

Definition demoFence : list txOp :=
  TReset 2 None :: demoSend ++ [TUnregister 1; TWrite [5]] ++ oneBatch 4 ++ [TParity; TRegister 32 1000; TWrite [6]] ++ oneBatch 5.

Lemma fence_precedes_data_witness :
  match elog (txExec demoQuot demoFence tx0) with
  | [a; b; c; d; x; y] => lastGen (qid x) ([a; b; c; d] ++ [x]) = qgen x /\ Forall (fun vf => Seq vf <> 0) (tail (Frames (qbatch x)))
  | _ => False
  end.
Proof.
  destruct (elog (txExec demoQuot demoFence tx0)) as [|a [|b [|c [|d [|x [|y [|z l]]]]]]] eqn:E; try (exfalso; vm_compute in E; discriminate E).
  apply (fence_precedes_data demoQuot demoFence [a; b; c; d] [y] x); [vm_compute; reflexivity|exact E|]. vm_compute in E. injection E as <- <- <- <- <- <-. vm_compute. discriminate.
Defined.

Lemma tx_parity_sound_witness :
  let s := txExec demoQuot (TReset 2 None :: demoSend) tx0 in
  exists data, Forall (fun f => f ∈ given s) data /\ Forall (inData data) (logFrames (elog s)) /\
    Forall (fun vf => isParity vf -> exists g, aligned 2 g /\ 1 <= g /\ g + 2 - 1 <= lenZ data /\
              Data vf = parityPayload None g (slice (Z.to_nat (g - 1)) (Z.to_nat (g - 1 + 2)) data)) (logFrames (elog s)).
Proof.
  apply (tx_parity_sound demoQuot [] demoSend 2 None); [reflexivity|reflexivity|unfold fecMinGroup; lia|vm_compute; reflexivity|].
  repeat (split; [first [exact I|intros ? _; vm_compute; discriminate]|]). exact I.
Defined.

Lemma queued_bytes_exact_witness :
  let s := txExec demoQuot (TReset 2 None :: demoSend) tx0 in
  Forall (fun b => queuedBytes b = sumLen (concat (bufsOf <$> bqueue b)) + default 0 (flight s !! bid b)) (backends (port s)).
Proof. apply (queued_bytes_exact demoQuot (TReset 2 None :: demoSend)). vm_compute. reflexivity. Defined.
