(* ===== verification/Tunnel.v ===== *)
(** * The tunnel end to end (client.go, fec.go, rx_batch.go, buffer.go)

    The send port of one side and the receive path of the other, composed: the frames on
    the sender's connections are what the receiver's worker processes, in any order and
    any selection, in batches, through the FEC decoder and the reorder buffer to the
    delivery goroutine. *)

From stdpp Require Import base tactics list numbers list_numbers gmap sorting.
From S2P Require Import Prelude Aead Frame FecControl FecEncoder FecDecoder Recovery Reorder RxWorker Scheduler TxPort.
#[local] Open Scope Z_scope.

(** ** The receiver of one epoch *)

(** The worker's working state, what the callback got, and whether a batch failed. *)
Record rxSide := mkRx { racc : rxAcc; rgot : list bytes; rfailed : bool }.

Inductive rxAct :=
| RxBatch (clk : nat -> Z) (tc : nat -> bool) (frames : list VPNFrame)
| RxExpire (tc : bool) (now now' : Z)
| RxDeliver.

Definition rxAct_step (r : rxSide) (act : rxAct) : rxSide :=
  match act with
  | RxBatch clk tc frames =>
    let '(a, e) := processFrames clk tc 0 false frames (racc r) in mkRx a (rgot r) (rfailed r || bool_decide (is_Some e))
  | RxExpire tc now now' =>
    let '(rb, fr) := ExpireGapActor tc now now' (arb (racc r)) in
    mkRx (mkAcc rb (adec (racc r)) (afreed (racc r) ++ fr) (arec (racc r))) (rgot r) (rfailed r)
  | RxDeliver =>
    match outWorkerStep true (arb (racc r)) with
    | None => r
    | Some (rb, out, fr) => mkRx (mkAcc rb (adec (racc r)) (afreed (racc r) ++ fr) (arec (racc r))) (rgot r ++ out) (rfailed r)
    end
  end.

Definition rxSide0 (k : Z) (ic : option innerCipher) (owned : bool) : rxSide :=
  mkRx (mkAcc (newActorReorderBuffer owned) (Some (NewFECDecoder k ic false)) [] []) [] false.

Definition rxRun (k : Z) (ic : option innerCipher) (owned : bool) (acts : list rxAct) : rxSide :=
  fold_left rxAct_step acts (rxSide0 k ic owned).

Definition actFrames (act : rxAct) : list VPNFrame := match act with RxBatch _ _ frames => frames | _ => [] end.

(** The event a frame is for the decoder. *)
Definition evOf (vf : VPNFrame) : decEvent := if Seq vf =? 0 then DControl (Data vf) else DData (Seq vf) (Data vf).

(** The payload of a number. *)
Definition payloadOf (data : list bytes) (q : Z) : bytes := default [0] (data !! Z.to_nat (q - 1)).

Lemma payloadOf_sent data q f : sentAs data q f -> payloadOf data q = f.
Proof. intros [_ H]. unfold payloadOf. by rewrite H. Qed.

Lemma payloadOf_nonempty data q : Forall (fun f => f <> []) data -> payloadOf data q <> [].
Proof.
  intros HF. unfold payloadOf. destruct (data !! _) as [f|] eqn:E; [|done]. cbn. rewrite Forall_lookup in HF. by apply (HF _ _ E).
Qed.

(** ** Integrity *)

Section Integrity.
Context (ic : option innerCipher) `{!CipherOk ic}.
Variables (K : Z) (data : list bytes).
Hypothesis HK : 2 <= K <= 64.
Hypothesis Hn : lenZ data < 2 ^ 31.
Hypothesis Hfr : Forall (fun f => f <> [] /\ lenZ f + Z.of_nat (tagLen ic) < 2 ^ 32) data.

Let payload := payloadOf data.

Lemma payload_ne q : payload q <> [].
Proof using Hfr. apply payloadOf_nonempty. eapply Forall_impl; [exact Hfr|]. by intros f [? _]. Qed.

Lemma Hn32 : lenZ data + K <= 2 ^ 32.
Proof using HK Hn. lia. Qed.

(** The reorder buffer holds and has put out frames under their own numbers. *)
Definition faithful (out : list bytes) (rb : ReorderBuffer) : Prop :=
  exists ins L, ordered 1 payload (mkRRun rb out []) ins L /\ Forall (fun q => 1 <= q <= lenZ data) ins.

Lemma faithful_of r : (exists ins L, ordered 1 payload r ins L /\ Forall (fun q => 1 <= q <= lenZ data) ins) -> faithful (rout r) (rrb r).
Proof using. intros (ins & L & [] & HF). exists ins, L. split; [by constructor|done]. Qed.

Lemma faithful_insert out now q f rb : faithful out rb -> sentAs data q f -> faithful out (InsertActorBuffered now q (Some f) rb).1.
Proof using HK Hn Hfr.
  intros (ins & L & HO & HF) Hq. rewrite <- (payloadOf_sent data q f Hq). fold payload. destruct Hq as [Hq1 Hq2]. apply lookup_lt_Some in Hq2.
  assert (inRange 1 q) as Hr by (unfold inRange, lenZ in *; lia).
  destruct (step_insert 1 payload ltac:(lia) payload_ne _ _ _ now q HO Hr) as [L' H]. cbn [rstep rrb rout] in H.
  destruct (InsertActorBuffered now q (Some (payload q)) rb) as [rb' fr] eqn:E. cbn [fst]. apply (faithful_of (mkRRun rb' out ([] ++ fr))).
  exists (ins ++ [q]), L'. split; [exact H|]. apply Forall_app. split; [done|]. constructor; [unfold lenZ; lia|constructor].
Qed.

Lemma faithful_flush out tc rb : faithful out rb -> faithful out (FlushActor tc rb).1.
Proof using.
  intros (ins & L & HO & HF). destruct (step_flush 1 payload _ _ _ tc HO) as [L' H]. cbn [rstep rrb rout] in H.
  destruct (FlushActor tc rb) as [rb' fr]. cbn [fst]. apply (faithful_of (mkRRun rb' out ([] ++ fr))). by exists ins, L'.
Qed.

Definition accOk (out : list bytes) (a : rxAcc) : Prop := faithful out (arb a) /\ exists d, adec a = Some d /\ dec_sound ic K data d.

Lemma accOk_buffer out now q f a : accOk out a -> sentAs data q f -> accOk out (bufferFrame now q f a).
Proof using HK Hn Hfr.
  intros [H1 H2] Hq. unfold bufferFrame. pose proof (faithful_insert out now q f (arb a) H1 Hq) as H. by destruct (InsertActorBuffered _ _ _ _).
Qed.

Lemma accOk_flush out tc a : accOk out a -> accOk out (flushRun tc a).
Proof using. intros [H1 H2]. unfold flushRun. pose proof (faithful_flush out tc (arb a) H1) as H. by destruct (FlushActor _ _). Qed.

Lemma accOk_insert out now1 now2 q f rec a : accOk out a -> sentAs data q f -> (forall q' f', rec = Some (q', f') -> sentAs data q' f') ->
  accOk out (insertOriginalAndRecovery now1 now2 q f rec a).
Proof using HK Hn Hfr.
  intros Ha Hq Hrec. unfold insertOriginalAndRecovery. destruct rec as [[q' f']|]; [|by apply accOk_buffer]. specialize (Hrec q' f' eq_refl).
  destruct (q' <? q); [by apply accOk_buffer, Hq; apply accOk_buffer|]. destruct (q <? q'); [by apply accOk_buffer, Hrec; apply accOk_buffer|].
  by pose proof (accOk_buffer out now1 q f a Ha Hq).
Qed.

Lemma accOk_data out now1 now2 vf a : accOk out a -> Seq vf <> 0 -> honest ic K data (evOf vf) -> accOk out (processData now1 now2 vf a).
Proof using HK Hn Hfr CipherOk0.
  intros [H1 (d & Hd & Hs)] Hz Hev. unfold evOf in Hev. apply Z.eqb_neq in Hz as Hz'. rewrite Hz' in Hev. unfold processData. rewrite Hd.
  destruct (data_sound ic K data HK Hn32 Hfr (ExpectedSeqActor (arb a)) (Seq vf) (Data vf) d Hs Hev) as [S1 S2].
  destruct (OnDataActor _ _ _ d) as [d' rec]. destruct Hev as [|Hev]; [done|]. apply accOk_insert; [|done|by intros q' f' ->; apply S2]. split; [done|by exists d'].
Qed.

Lemma accOk_control out now tc vf a : accOk out a -> Seq vf = 0 -> honest ic K data (evOf vf) -> accOk out (processControl now tc vf a).1.
Proof using HK Hn Hfr CipherOk0.
  intros [H1 (d & Hd & Hs)] Hz Hev. unfold evOf in Hev. apply Z.eqb_eq in Hz as Hz'. rewrite Hz' in Hev. unfold processControl. rewrite Hd.
  destruct (decStep_sound ic K data HK Hn32 Hfr (ExpectedSeqActor (arb a)) _ d Hs Hev) as [S1 S2]. cbn [decStep fst snd] in S1, S2.
  destruct (OnControlActorWithScratch _ _ d) as [d' [[[q f]|]|e]]; cbn [fst snd] in *; [|by split; [|exists d']..].
  apply accOk_flush, accOk_buffer; [|by apply S2]. by split; [|exists d'].
Qed.

Lemma accOk_frames out clk tc frames : forall i run a, accOk out a -> Forall (fun vf => honest ic K data (evOf vf)) frames ->
  accOk out (processFrames clk tc i run frames a).1.
Proof using HK Hn Hfr CipherOk0.
  induction frames as [|vf frames IH]; intros i run a Ha HF; cbn [processFrames].
  { destruct run; [by apply accOk_flush|done]. }
  apply Forall_cons_1 in HF as [Hv HF]. destruct (Z.eqb_spec (Seq vf) 0) as [Hz|Hz]; [|by apply IH; [apply accOk_data|]].
  assert (accOk out (if run then flushRun (tc (2 * i)%nat) a else a)) as Ha' by (destruct run; [by apply accOk_flush|done]).
  set (a' := if run then _ else a) in *. clearbody a'. pose proof (accOk_control out (clk (2 * i)%nat) (tc (2 * i + 1)%nat) vf a' Ha' Hz Hv) as H.
  destruct (processControl _ _ vf a') as [a2 [e|]]; [exact H|by apply IH].
Qed.

Lemma accOk_step r act : accOk (rgot r) (racc r) -> Forall (fun vf => honest ic K data (evOf vf)) (actFrames act) ->
  accOk (rgot (rxAct_step r act)) (racc (rxAct_step r act)).
Proof using HK Hn Hfr CipherOk0.
  intros Ha HF. destruct act as [clk tc frames|tc now now'|]; cbn [rxAct_step actFrames] in *.
  - pose proof (accOk_frames (rgot r) clk tc frames 0 false (racc r) Ha HF) as H. by destruct (processFrames _ _ _ _ _ _).
  - destruct Ha as [(ins & L & HO & HI) Hd]. destruct (step_expire 1 payload ltac:(lia) _ _ _ tc now now' HO) as [L' H]. cbn [rstep rrb rout] in H.
    destruct (ExpireGapActor _ _ _ _) as [rb' fr]. split; [|exact Hd]. apply (faithful_of (mkRRun rb' (rgot r) ([] ++ fr))). by exists ins, L'.
  - destruct Ha as [(ins & L & HO & HI) Hd]. pose proof (step_output 1 payload payload_ne _ _ _ HO) as H. cbn [rstep rrb rout] in H.
    destruct (outWorkerStep true (arb (racc r))) as [[[rb' out] fr]|]; [|by split; [exists ins, L|]].
    split; [|exact Hd]. apply (faithful_of (mkRRun rb' (rgot r ++ out) ([] ++ fr))). by exists ins, L.
Qed.

(** What reaches the callback was sent, in order. *)
Lemma delivered_sent owned acts : Forall (fun act => Forall (fun vf => honest ic K data (evOf vf)) (actFrames act)) acts ->
  exists L, StronglySorted Z.lt L /\ Forall2 (sentAs data) L (rgot (rxRun K ic owned acts)).
Proof using HK Hn Hfr CipherOk0.
  intros HF. assert (accOk (rgot (rxSide0 K ic owned)) (racc (rxSide0 K ic owned))) as H0.
  { split; [|by eexists; split; [done|apply new_sound]]. exists [], []. split; [|constructor]. constructor; [by apply new_ok| |done|constructor|constructor].
    intros s f Hs. exfalso. unfold at_seq in Hs. destruct (_ && _); [|done]. apply ringAt_Some in Hs. cbn [rrb rxSide0 racc arb newActorReorderBuffer newReorder ring] in Hs.
    by apply lookup_replicate in Hs as [[=] _]. }
  assert (accOk (rgot (rxRun K ic owned acts)) (racc (rxRun K ic owned acts))) as H1.
  { unfold rxRun. revert H0. generalize (rxSide0 K ic owned). induction HF as [|act acts Hact _ IH]; intros r Hr; [done|]. by apply IH, accOk_step. }
  destruct H1 as [(ins & L & [_ _ O3 O4 O5] & HI) _]. unfold stream in O3. cbn [rout rrb] in O3. symmetry in O3. apply fmap_app_inv in O3 as (L1 & L2 & E & _ & ->).
  exists L1. split; [by apply StronglySorted_app_1_l in O4|]. rewrite E. apply Forall_app in O5 as [O5 _]. clear -O5 HI. rewrite Forall_forall in HI.
  induction O5 as [|q L [_ Hq] _ IH]; constructor; [|done]. specialize (HI q Hq). cbv beta in HI. split; [lia|]. unfold payload, payloadOf.
  destruct (lookup_lt_is_Some_2 data (Z.to_nat (q - 1))) as [f ->]; [unfold lenZ in HI; lia|done].
Qed.
End Integrity.

(** C1: End-to-end integrity.  A sender's port runs an epoch of fewer than 2^31 numbers
    and of frames below 2^32 bytes:
    any interleaving of writes, connections coming and going, congestion and drops, in
    which every dispatch finds a connection (else a number is used up and the parity of
    its group is wrong: see dropped_number_corrupts).  A receiver processes frames from
    its connections, in any selection, order, multiplicity and batching, with gap timers
    and deliveries in between.  The frames handed to the receiver's device are
    payloads that were handed to the sender's port, under strictly increasing numbers, and
    these numbers are the ones the frames carry on the wire: nothing is altered,
    invented, repeated or put out of order, whatever FEC recovers. *)
Theorem tunnel_integrity (perSecond : Z -> Z -> Z) (ops1 ops2 : list txOp) (k : Z) (ic : option innerCipher) (owned : bool) (acts : list rxAct) :
  let s0 := txExec perSecond ops1 tx0 in
  CipherOk ic -> pc s0 = RIdle -> pclosed (port s0) = false -> fecMinGroup <= k -> lenZ ops2 < 2 ^ 63 ->
  covered perSecond ops2 (txStep perSecond s0 (TReset k ic)) ->
  let s := txExec perSecond (TReset k ic :: ops2) s0 in
  txSeq (port s) < 2 ^ 31 -> Forall (fun f => lenZ f + Z.of_nat (tagLen ic) < 2 ^ 32) (given s) ->
  Forall (fun act => Forall (fun vf => vf ∈ logFrames (elog s)) (actFrames act)) acts ->
  exists data L, Forall (fun f => f ∈ given s) data /\ Forall (inData data) (logFrames (elog s)) /\
    StronglySorted Z.lt L /\ Forall2 (sentAs data) L (rgot (rxRun (clampFecGroup k) ic owned acts)).
Proof.
  intros s0 Hok Hpc Hcl Hk HL HC s Hseq Hsz HA. destruct (wire_of_epoch perSecond ops1 ops2 k ic Hpc Hcl Hk HL HC) as (data & [W1 W2 W3 W4 W5 W6] & _). fold s0 in W1, W2, W3, W5, W6. fold s in W1, W2, W3, W5, W6.
  assert (2 <= clampFecGroup k <= 64) as HK by (unfold clampFecGroup, fecMinGroup, fecMaxGroup in *; repeat case_match; lia).
  assert (Forall (fun f => f <> [] /\ lenZ f + Z.of_nat (tagLen ic) < 2 ^ 32) data) as Hfr.
  { rewrite Forall_forall in *. intros f Hf. split; [by apply W4|by apply Hsz, W3]. }
  destruct (delivered_sent ic (clampFecGroup k) data HK ltac:(lia) Hfr owned acts) as (L & L1 & L2); [|by exists data, L].
  eapply Forall_impl; [exact HA|]. intros act Hact. eapply Forall_impl; [exact Hact|]. intros vf Hvf. rewrite Forall_forall in W1, W2. specialize (W1 vf Hvf). specialize (W2 vf Hvf).
  cbv beta in W1, W2. unfold evOf. destruct (Z.eqb_spec (Seq vf) 0) as [Hz|Hz]; cbn [honest].
  - intros Hb. by apply W2.
  - right. split; [|by apply W1]. rewrite Forall_forall in W6. specialize (W6 vf Hvf). cbv beta in W6. lia.
Qed.

(** ** Repair *)

(** The delivery goroutine keeps up and no gap outlives its timer. *)
Fixpoint keepsUp (acts : list rxAct) (r : rxSide) : Prop :=
  match acts with
  | [] => True
  | act :: acts =>
    match act with
    | RxBatch _ _ frames => (length (outChan (arb (racc r))) + 2 * length frames + 1 <= reorderOutQueue)%nat
    | RxExpire _ now _ => gapExpired now (arb (racc r)) = false
    | RxDeliver => True
    end /\ keepsUp acts (rxAct_step r act)
  end.

Section Repair.
Context (ic : option innerCipher) `{!CipherOk ic}.
Variables (K : Z) (data : list bytes) (owned : bool).
Hypothesis HK : 2 <= K <= 64.
Hypothesis Hn : 0 < lenZ data <= Z.of_nat fecMaxPendingGroups * K.
Hypothesis Hfr : Forall (fun f => f <> [] /\ lenZ f + Z.of_nat (tagLen ic) < 2 ^ 32) data.

Let payload := payloadOf data.
Let dec0 := NewFECDecoder K ic false.

Lemma HN : 0 < lenZ data <= 65535 /\ 1 + lenZ data <= 2 ^ 32 - 1.
Proof using HK Hn. unfold fecMaxPendingGroups in Hn. lia. Qed.

(** After the frames [pre]: the decoder saw exactly these, and the buffer everything
    that arrived or was recovered. *)
Record repaired (pre : list VPNFrame) (out : list bytes) (a : rxAcc) (evs : list (Z * decEvent)) (seen : list Z) (n : Z) : Prop := {
  rp_dec : adec a = Some (decExec dec0 evs);
  rp_evs : evs.*2 = evOf <$> pre;
  rp_rec : arec a = decRecs dec0 evs;
  rp_plain : Forall (fun e => plain ic K data e.2) evs;
  rp_buf : caught_up 1 payload out seen n (arb a);
  rp_seen : forall q, q ∈ seen <-> q ∈ filter (fun q => q <> 0) (Seq <$> pre) \/ q ∈ (arec a).*1
}.

Definition onCourse (pre : list VPNFrame) (out : list bytes) (a : rxAcc) : Prop :=
  match pre with
  | [] => a = racc (rxSide0 K ic owned) /\ out = []
  | _ => exists evs seen n, repaired pre out a evs seen n
  end.

Lemma sound_of evs : Forall (fun e => plain ic K data e.2) evs -> dec_sound ic K data (decExec dec0 evs).
Proof using HK Hn Hfr CipherOk0.
  intros HF. apply (decExec_sound ic K data HK (data_bound K data HK ltac:(lia)) Hfr). eapply Forall_impl; [exact HF|]. intros e. apply plain_honest.
Qed.

Lemma sent_range q f : sentAs data q f -> 1 <= q < 1 + lenZ data /\ f = payload q.
Proof using.
  intros Hq. split; [|symmetry; by apply payloadOf_sent]. destruct Hq as [Hq1 Hq2]. apply lookup_lt_Some in Hq2. unfold lenZ. lia.
Qed.

Lemma caught_buffer out now q f seen n a : caught_up 1 payload out seen n (arb a) -> sentAs data q f ->
  exists n', caught_up 1 payload out (seen ++ [q]) n' (arb (bufferFrame now q f a)) /\ outChan (arb (bufferFrame now q f a)) = outChan (arb a).
Proof using HK Hn.
  intros HC Hq. apply sent_range in Hq as [Hq ->]. destruct (caught_up_step 1 (lenZ data) payload ltac:(lia) HN out now q seen n (arb a) HC Hq) as (n' & H1 & H2).
  exists n'. unfold bufferFrame. by destruct (InsertActorBuffered _ _ _ _).
Qed.

Lemma caught_insert out now1 now2 q f rec seen n a : caught_up 1 payload out seen n (arb a) -> sentAs data q f ->
  (forall q' f', rec = Some (q', f') -> sentAs data q' f') ->
  let a' := insertOriginalAndRecovery now1 now2 q f rec a in
  exists seen' n', caught_up 1 payload out seen' n' (arb a') /\ outChan (arb a') = outChan (arb a) /\
    forall x, x ∈ seen' <-> x ∈ seen \/ x = q \/ x ∈ (option_list rec).*1.
Proof using HK Hn.
  intros HC Hq Hrec a'. assert (forall (l : list Z) x y, x ∈ l ++ [y] <-> x ∈ l \/ x = y) as Hin by (intros l x y; by rewrite elem_of_app, list_elem_of_singleton).
  unfold a', insertOriginalAndRecovery. destruct rec as [[q' f']|].
  2:{ destruct (caught_buffer out now1 q f seen n a HC Hq) as (n' & H1 & H2). exists (seen ++ [q]), n'. split_and!; [done|done|]. intros x. rewrite Hin. cbn. rewrite elem_of_nil. tauto. }
  specialize (Hrec q' f' eq_refl). cbn [option_list fmap list_fmap fst]. destruct (Z.ltb_spec q' q).
  { destruct (caught_buffer out now1 q' f' seen n a HC Hrec) as (n1 & H1 & H2). destruct (caught_buffer out now2 q f _ n1 _ H1 Hq) as (n2 & H3 & H4).
    exists ((seen ++ [q']) ++ [q]), n2. split_and!; [done|congruence|]. intros x. rewrite !Hin. cbn. rewrite list_elem_of_singleton. tauto. }
  destruct (caught_buffer out now1 q f seen n a HC Hq) as (n1 & H1 & H2). destruct (Z.ltb_spec q q').
  { destruct (caught_buffer out now2 q' f' _ n1 _ H1 Hrec) as (n2 & H3 & H4). exists ((seen ++ [q]) ++ [q']), n2. split_and!; [done|congruence|].
    intros x. rewrite !Hin. cbn. rewrite list_elem_of_singleton. tauto. }
  exists (seen ++ [q]), n1. split_and!; [done|done|]. intros x. rewrite Hin. cbn. rewrite list_elem_of_singleton. assert (q' = q) as -> by lia. tauto.
Qed.

(** The first frame is the first of the epoch. *)
Lemma caught_start now1 now2 f rec a : arb a = newActorReorderBuffer owned -> sentAs data 1 f ->
  (forall q' f', rec = Some (q', f') -> sentAs data q' f') ->
  let a' := insertOriginalAndRecovery now1 now2 1 f rec a in
  exists seen' n', caught_up 1 payload [] seen' n' (arb a') /\ outChan (arb a') = [] /\ forall x, x ∈ seen' <-> x = 1 \/ x ∈ (option_list rec).*1.
Proof using HK Hn.
  intros Ha H1 Hrec a'. assert (exists n, caught_up 1 payload [] [1] n (arb (bufferFrame now1 1 f a)) /\ outChan (arb (bufferFrame now1 1 f a)) = []) as (n & C1 & C2).
  { apply sent_range in H1 as [_ ->]. unfold bufferFrame. rewrite Ha. destruct (caught_up_first 1 (lenZ data) payload ltac:(lia) HN now1 owned) as (n & C1 & C2).
    exists n. by destruct (InsertActorBuffered _ _ _ _). }
  unfold a', insertOriginalAndRecovery. destruct rec as [[q' f']|].
  2:{ exists [1], n. split_and!; [done|done|]. intros x. cbn. rewrite list_elem_of_singleton, elem_of_nil. tauto. }
  specialize (Hrec q' f' eq_refl). pose proof Hrec as [Hq' _]. destruct (Z.ltb_spec q' 1); [lia|]. destruct (Z.ltb_spec 1 q').
  - destruct (caught_buffer [] now2 q' f' _ n _ C1 Hrec) as (n2 & H3 & H4). exists ([1] ++ [q']), n2. split_and!; [done|congruence|].
    intros x. cbn. rewrite elem_of_cons, list_elem_of_singleton. tauto.
  - exists [1], n. split_and!; [done|done|]. intros x. cbn. rewrite !list_elem_of_singleton. assert (q' = 1) as -> by lia. tauto.
Qed.

Lemma buffer_dec now q f a : adec (bufferFrame now q f a) = adec a.
Proof using. unfold bufferFrame. by destruct (InsertActorBuffered _ _ _ _). Qed.

Lemma insert_dec now1 now2 q f rec a : adec (insertOriginalAndRecovery now1 now2 q f rec a) = adec a.
Proof using. unfold insertOriginalAndRecovery. destruct rec as [[q' f']|]; [|apply buffer_dec]. repeat case_match; cbn; by rewrite ?buffer_dec. Qed.

Lemma recovered_sent p ev evs q f : Forall (fun e => plain ic K data e.2) evs -> plain ic K data ev ->
  (decStep (decExec dec0 evs) (p, ev)).2 = Some (q, f) -> sentAs data q f.
Proof using HK Hn Hfr CipherOk0.
  intros HF Hev. apply (decStep_sound ic K data HK (data_bound K data HK ltac:(lia)) Hfr p ev _ (sound_of evs HF)). by apply plain_honest.
Qed.

Lemma repaired_data pre out now1 now2 vf a : onCourse pre out a -> (pre = [] -> Seq vf = 1) -> Seq vf <> 0 -> plain ic K data (evOf vf) ->
  let a' := processData now1 now2 vf a in onCourse (pre ++ [vf]) out a' /\ outChan (arb a') = outChan (arb a).
Proof using HK Hn Hfr CipherOk0.
  intros Ha Hfirst Hz Hev a'. set (ev := evOf vf) in *. assert (ev = DData (Seq vf) (Data vf)) as Eev by (unfold ev, evOf; by destruct (Z.eqb_spec (Seq vf) 0)).
  assert (sentAs data (Seq vf) (Data vf)) as Hq by (by rewrite Eev in Hev).
  assert (exists evs seen n, (pre = [] -> evs = [] /\ out = [] /\ a = racc (rxSide0 K ic owned)) /\ (pre <> [] -> repaired pre out a evs seen n) /\
    adec a = Some (decExec dec0 evs) /\ evs.*2 = evOf <$> pre /\ arec a = decRecs dec0 evs /\ Forall (fun e => plain ic K data e.2) evs) as (evs & seen & n & H1 & H2 & H3 & H4 & H5 & H6).
  { destruct pre as [|v pre]; [destruct Ha as [-> ->]; exists [], [], 0; split_and!; try done; constructor|].
    destruct Ha as (evs & seen & n & HR). pose proof HR as []. by exists evs, seen, n. }
  unfold a', processData. rewrite H3. set (p := ExpectedSeqActor (arb a)).
  pose proof (recovered_sent p ev evs) as Hrec. assert (decStep (decExec dec0 evs) (p, ev) = OnDataActor p (Seq vf) (Data vf) (decExec dec0 evs)) as ES by (by rewrite Eev).
  assert (decExec dec0 (evs ++ [(p, ev)]) = (decStep (decExec dec0 evs) (p, ev)).1) as EX by (unfold decExec; by rewrite fold_left_app).
  pose proof (decRecs_snoc dec0 evs (p, ev)) as ER. rewrite ES in *. destruct (OnDataActor p (Seq vf) (Data vf) (decExec dec0 evs)) as [d' rec]. cbn [fst snd] in *.
  set (a1 := setDec (Some d') rec a). assert (forall q' f', rec = Some (q', f') -> sentAs data q' f') as Hrec' by (intros q' f'; by apply Hrec).
  assert (exists seen' n', caught_up 1 payload out seen' n' (arb (insertOriginalAndRecovery now1 now2 (Seq vf) (Data vf) rec a1)) /\
    outChan (arb (insertOriginalAndRecovery now1 now2 (Seq vf) (Data vf) rec a1)) = outChan (arb a) /\
    forall x, x ∈ seen' <-> (x ∈ filter (fun q => q <> 0) (Seq <$> pre) \/ x ∈ (arec a).*1) \/ x = Seq vf \/ x ∈ (option_list rec).*1) as (seen' & n' & C1 & C2 & C3).
  { destruct pre as [|v pre].
    - destruct (H1 eq_refl) as (-> & -> & ->). clear H1 H2. assert (Seq vf = 1) as E1 by auto. rewrite E1 in *.
      destruct (caught_start now1 now2 (Data vf) rec a1 eq_refl Hq Hrec') as (seen' & n' & C1 & C2 & C3).
      exists seen', n'. split_and!; [done|done|]. intros x. rewrite C3. cbn. rewrite elem_of_nil. tauto.
    - destruct (H2 ltac:(done)) as [_ _ _ _ R5 R6]. destruct (caught_insert out now1 now2 (Seq vf) (Data vf) rec seen n a1 R5 Hq Hrec') as (seen' & n' & C1 & C2 & C3).
      exists seen', n'. split_and!; [done|done|]. intros x. rewrite C3, R6. done. }
  split; [|done]. assert (onCourse (pre ++ [vf]) out = fun a => exists evs seen n, repaired (pre ++ [vf]) out a evs seen n) as -> by (by destruct pre).
  exists (evs ++ [(p, ev)]), seen', n'. split.
  - rewrite insert_dec, EX. done.
  - rewrite !fmap_app, H4. done.
  - rewrite insert_rec, ER, <- H5. done.
  - apply Forall_app. split; [done|]. by constructor.
  - done.
  - intros x. rewrite C3, insert_rec. unfold a1. cbn [arec setDec]. rewrite !fmap_app, filter_app, !elem_of_app. cbn [fmap list_fmap].
    rewrite filter_cons_True, elem_of_cons by done. cbn. rewrite elem_of_nil. tauto.
Qed.

Lemma control_parity p s ms d : OnControlActorWithScratch p (parityPayload ic s ms) d =
  let '(d', r) := OnParityActorWithScratch p (parityPayload ic s ms) d in (d', inl r).
Proof using.
  unfold OnControlActorWithScratch, parseControlKind. rewrite parityPayload_eq. cbn [app]. change (u8 controlKindFECParity) with controlKindFECParity. cbn [orb].
  by destruct (OnParityActorWithScratch _ _ _).
Qed.

Lemma onCourse_some pre out a : pre <> [] -> onCourse pre out a <-> exists evs seen n, repaired pre out a evs seen n.
Proof using. by destruct pre. Qed.

Lemma repaired_control pre out now tc vf a : pre <> [] -> onCourse pre out a -> Seq vf = 0 -> plain ic K data (evOf vf) ->
  (length (outChan (arb a)) < reorderOutQueue)%nat -> rpending (arb a) = [] ->
  let '(a', e) := processControl now tc vf a in
  e = None /\ onCourse (pre ++ [vf]) out a' /\ (length (outChan (arb a')) <= S (length (outChan (arb a))))%nat /\ rpending (arb a') = [].
Proof using HK Hn Hfr CipherOk0.
  intros Hpre Ha Hz Hev Hroom Hpend. rewrite onCourse_some in Ha by done. destruct Ha as (evs & seen & n & [R1 R2 R3 R4 R5 R6]).
  set (ev := evOf vf) in *. assert (ev = DControl (Data vf)) as Eev by (unfold ev, evOf; by rewrite Hz).
  unfold processControl. rewrite R1. set (p := ExpectedSeqActor (arb a)).
  pose proof (recovered_sent p ev evs) as Hrec. assert (decExec dec0 (evs ++ [(p, ev)]) = (decStep (decExec dec0 evs) (p, ev)).1) as EX by (unfold decExec; by rewrite fold_left_app).
  pose proof (decRecs_snoc dec0 evs (p, ev)) as ER. rewrite Eev in EX, ER, Hrec. cbn [decStep fst snd] in EX, ER, Hrec.
  rewrite Eev in Hev. cbn [plain] in Hev. destruct Hev as (s & S1 & S2 & S3 & S4).
  rewrite S4 in *. rewrite control_parity in *. destruct (OnParityActorWithScratch p _ (decExec dec0 evs)) as [d' rec]. cbn [fst snd] in *.
  assert (forall x, x ∈ filter (fun q => q <> 0) (Seq <$> pre ++ [vf]) <-> x ∈ filter (fun q => q <> 0) (Seq <$> pre)) as Hseq.
  { intros x. rewrite fmap_app, filter_app, elem_of_app. cbn [fmap list_fmap]. rewrite filter_cons_False by (rewrite Hz; tauto). cbn. rewrite elem_of_nil. tauto. }
  assert (Forall (fun e => plain ic K data e.2) (evs ++ [(p, ev)])) as HP.
  { apply Forall_app. split; [done|]. constructor; [|constructor]. rewrite Eev. exists s. cbn [snd]. rewrite ?S4. split_and!; done. }
  assert ((evs ++ [(p, ev)]).*2 = evOf <$> pre ++ [vf]) as HE by (by rewrite !fmap_app, R2).
  destruct rec as [[q f]|].
  - assert (sentAs data q f) as Hq by (apply Hrec; [done|exists s; split_and!; done|done]).
    set (a1 := giveBack _ _). destruct (caught_buffer out now q f seen n a1 R5 Hq) as (n' & C1 & C2). set (a2 := bufferFrame now q f a1) in *.
    assert (adec a2 = Some d' /\ arec a2 = arec a ++ [(q, f)]) as [D1 D2] by (unfold a2; rewrite buffer_dec, buffer_rec; done). clearbody a2.
    destruct (caught_up_flush 1 payload out tc _ _ _ C1) as (F1 & F2 & F3); [by rewrite C2|]. rewrite C2 in F2.
    unfold flushRun. destruct (FlushActor tc (arb a2)) as [rb fr]. cbn [fst arb] in *. split; [done|]. split; [|by split].
    apply onCourse_some; [by destruct pre|]. exists (evs ++ [(p, ev)]), (seen ++ [q]), n'. split; cbn [adec arec arb]; try done.
    + by rewrite D1, Eev, EX.
    + rewrite D2, Eev, ER, R3. done.
    + intros x. rewrite Hseq, D2, fmap_app, !elem_of_app, R6. cbn. tauto.
  - split; [done|]. split; [|by cbn; auto]. apply onCourse_some; [by destruct pre|]. exists (evs ++ [(p, ev)]), seen, n. split; cbn [adec arec arb giveBack setDec]; try done.
    + by rewrite Eev, EX.
    + rewrite Eev, ER, R3. done.
    + intros x. rewrite Hseq, fmap_app, elem_of_app, R6. cbn. rewrite elem_of_nil. tauto.
Qed.

Lemma repaired_flush pre out tc a : pre <> [] -> onCourse pre out a -> (length (outChan (arb a)) < reorderOutQueue)%nat ->
  let a' := flushRun tc a in onCourse pre out a' /\ (length (outChan (arb a')) <= S (length (outChan (arb a))))%nat /\ rpending (arb a') = [].
Proof using.
  intros Hpre Ha Hroom a'. rewrite onCourse_some in * by done. destruct Ha as (evs & seen & n & [R1 R2 R3 R4 R5 R6]).
  destruct (caught_up_flush 1 payload out tc _ _ _ R5 Hroom) as (F1 & F2 & F3). unfold a', flushRun. destruct (FlushActor tc (arb a)) as [rb fr]. cbn [fst arb] in *.
  split; [|done]. by exists evs, seen, n.
Qed.

Lemma repaired_frames clk tc out frames : forall i run pre a, onCourse pre out a -> (run = true -> pre <> []) -> (run = false -> rpending (arb a) = []) ->
  (pre = [] -> head (Seq <$> frames) = None \/ head (Seq <$> frames) = Some 1) -> Forall (fun vf => plain ic K data (evOf vf)) frames ->
  (length (outChan (arb a)) + 2 * length frames + 1 <= reorderOutQueue)%nat ->
  let '(a', e) := processFrames clk tc i run frames a in e = None /\ onCourse (pre ++ frames) out a' /\ rpending (arb a') = [].
Proof using HK Hn Hfr CipherOk0.
  induction frames as [|vf frames IH]; intros i run pre a Ha Hrun Hpend Hfirst HF Hroom; cbn [processFrames].
  { rewrite app_nil_r. destruct run; [|by split_and!; auto]. destruct (repaired_flush pre out (tc (2 * i)%nat) a) as (F1 & _ & F3); [auto|done|cbn in Hroom; lia|]. by split_and!. }
  apply Forall_cons_1 in HF as [Hv HF]. cbn [length] in Hroom. destruct (Z.eqb_spec (Seq vf) 0) as [Hz|Hz].
  - assert (pre <> []) as Hpre by (intros E; destruct (Hfirst E) as [H|H]; cbn in H; [done|congruence]).
    assert (onCourse pre out (if run then flushRun (tc (2 * i)%nat) a else a) /\ (length (outChan (arb (if run then flushRun (tc (2 * i)%nat) a else a))) <= S (length (outChan (arb a))))%nat /\
      rpending (arb (if run then flushRun (tc (2 * i)%nat) a else a)) = []) as (H1 & H2 & H3) by (destruct run; [apply repaired_flush; auto; lia|split_and!; [done|lia|auto]]).
    set (a1 := if run then _ else a) in *. clearbody a1.
    pose proof (repaired_control pre out (clk (2 * i)%nat) (tc (2 * i + 1)%nat) vf a1 Hpre H1 Hz Hv ltac:(lia) H3) as HC.
    destruct (processControl _ _ vf a1) as [a2 e]. destruct HC as (-> & C1 & C2 & C3). specialize (IH (S i) false (pre ++ [vf]) a2 C1).
    rewrite <- app_assoc in IH. apply IH; try done; [|lia]. by destruct pre.
  - destruct (repaired_data pre out (clk (2 * i)%nat) (clk (2 * i + 1)%nat) vf a Ha) as [D1 D2]; [|done|done|].
    { intros E. destruct (Hfirst E) as [H|H]; cbn in H; [done|congruence]. }
    specialize (IH (S i) true (pre ++ [vf]) _ D1). rewrite <- app_assoc in IH. apply IH; try done; [by destruct pre|by destruct pre|rewrite D2; lia].
Qed.

Lemma repaired_acts acts : forall pre r, onCourse pre (rgot r) (racc r) -> rpending (arb (racc r)) = [] -> rfailed r = false ->
  Forall (fun vf => plain ic K data (evOf vf)) (concat (actFrames <$> acts)) -> keepsUp acts r ->
  (pre = [] -> head (Seq <$> concat (actFrames <$> acts)) = Some 1 \/ concat (actFrames <$> acts) = []) ->
  let r' := fold_left rxAct_step acts r in
  onCourse (pre ++ concat (actFrames <$> acts)) (rgot r') (racc r') /\ rpending (arb (racc r')) = [] /\ rfailed r' = false.
Proof using HK Hn Hfr CipherOk0.
  induction acts as [|act acts IH]; intros pre r Ha Hpend Hfail HF HU Hfirst; [cbn; by rewrite app_nil_r|].
  destruct HU as [HU1 HU2]. rewrite fmap_cons in *. cbn [concat fold_left] in *. apply Forall_app in HF as [HF1 HF2].
  assert (forall pre', pre' = pre ++ actFrames act -> onCourse pre' (rgot (rxAct_step r act)) (racc (rxAct_step r act)) -> rpending (arb (racc (rxAct_step r act))) = [] ->
    rfailed (rxAct_step r act) = false -> let r' := fold_left rxAct_step acts (rxAct_step r act) in
    onCourse (pre ++ actFrames act ++ concat (actFrames <$> acts)) (rgot r') (racc r') /\ rpending (arb (racc r')) = [] /\ rfailed r' = false) as Hgo.
  { intros pre' -> G1 G2 G3. rewrite app_assoc. apply IH; try done. intros E. apply app_eq_nil in E as [E1 E2]. rewrite E2 in Hfirst. by apply Hfirst. }
  destruct act as [clk tc frames|tc now now'|].
  - cbn [rxAct_step actFrames] in *. pose proof (repaired_frames clk tc (rgot r) frames 0 false pre (racc r) Ha ltac:(done) ltac:(done)) as H.
    destruct (processFrames clk tc 0 false frames (racc r)) as [a' e]. destruct H as (-> & H1 & H2); [|done|done|].
    + intros E. destruct (Hfirst E) as [H|H]; destruct frames; cbn in *; auto; done.
    + apply (Hgo (pre ++ frames)); try done. cbn. by rewrite Hfail.
  - assert (rxAct_step r (RxExpire tc now now') = r) as Er.
    { cbn. unfold ExpireGapActor. rewrite HU1, orb_true_r, app_nil_r. by destruct r as [[] ? ?]. }
    rewrite Er in *. apply (Hgo pre); [by rewrite app_nil_r|done..].
  - cbn [rxAct_step actFrames] in *. destruct (outWorkerStep true (arb (racc r))) as [[[rb' out] fr]|] eqn:EO; [|apply (Hgo pre); [by rewrite app_nil_r|done..]].
    destruct pre as [|v pre]; [destruct Ha as [Ha _]; rewrite Ha in EO; discriminate|]. destruct Ha as (evs & seen & n & [R1 R2 R3 R4 R5 R6]).
    assert (forall q, payload q <> []) as Hpay by (intros q; apply payloadOf_nonempty; eapply Forall_impl; [exact Hfr|]; by intros f [? _]).
    destruct (caught_up_output 1 payload _ _ _ _ _ _ _ Hpay R5 EO) as [O1 O2]. apply (Hgo (v :: pre)); [by rewrite app_nil_r| |cbn; congruence|done].
    by exists evs, seen, n.
Qed.

Lemma recs_sent evs : Forall (fun e => plain ic K data e.2) evs -> Forall (fun r => sentAs data r.1 r.2) (decRecs dec0 evs).
Proof using HK Hn Hfr CipherOk0.
  induction evs as [|[p ev] evs IH] using rev_ind; intros HF; [constructor|]. apply Forall_app in HF as [HF He]. apply Forall_cons_1 in He as [He _].
  rewrite decRecs_snoc. apply Forall_app. split; [by apply IH|]. destruct (decStep _ _).2 as [[q f]|] eqn:E; [|constructor]. constructor; [|constructor].
  by apply (recovered_sent p ev evs).
Qed.

(** Everything that arrived or can be repaired is seen. *)
Lemma seen_all pre out a evs seen n : repaired pre out a evs seen n -> (forall q, 1 <= q <= lenZ data -> q ∈ Seq <$> pre \/ repairable ic K data (evOf <$> pre) q) ->
  forall q, q ∈ seen <-> 1 <= q < 1 + lenZ data.
Proof using HK Hn Hfr CipherOk0.
  intros [R1 R2 R3 R4 R5 R6] Hall q. rewrite R6, R3. pose proof (recs_sent evs R4) as HS. rewrite Forall_forall in HS. rewrite Forall_forall in R4. split.
  - intros [Hq|Hq].
    + apply list_elem_of_filter in Hq as [Hz Hq]. apply list_elem_of_fmap in Hq as (vf & -> & Hvf). assert (evOf vf ∈ evs.*2) as He by (rewrite R2; by apply list_elem_of_fmap_2).
      apply list_elem_of_fmap in He as (e & Ee & He). specialize (R4 e He). cbv beta in R4. rewrite <- Ee in R4. unfold evOf in R4. apply Z.eqb_neq in Hz. rewrite Hz in R4.
      by apply sent_range in R4 as [? _].
    + apply list_elem_of_fmap in Hq as ([q' f] & -> & Hq). specialize (HS _ Hq). by apply sent_range in HS as [? _].
  - intros Hq. destruct (Hall q ltac:(lia)) as [Hin|Hrep]; [left; apply list_elem_of_filter; split; [lia|done]|].
    destruct (decide (q ∈ Seq <$> pre)) as [Hin|Hno]; [left; apply list_elem_of_filter; split; [lia|done]|]. right.
    destruct (lookup_lt_is_Some_2 data (Z.to_nat (q - 1))) as [f Hf]; [unfold lenZ in Hq; lia|]. apply list_elem_of_fmap. exists (q, f). split; [done|].
    apply (lost_recovered ic K data HK ltac:(lia) Hfr); [by apply Forall_forall|split; [lia|done]| |by rewrite R2].
    intros g Hg. rewrite R2 in Hg. apply list_elem_of_fmap in Hg as (vf & Ev & Hvf). unfold evOf in Ev. destruct (Z.eqb_spec (Seq vf) 0); [done|]. injection Ev as -> ->.
    apply Hno. by apply list_elem_of_fmap_2.
Qed.
End Repair.

(** C2: Loss repair end to end.  Of the frames and parity records of an epoch (up to 512
    groups of K) the receiver gets a selection, in any order, repeated at will and cut
    into any batches; the first number comes first, every number either arrives or is
    the only one missing of a complete group whose parity arrives, the delivery
    goroutine keeps up and no gap timer expires.  Then no batch fails, every payload
    that was sent has been handed on, exactly once and in order, and nothing is held
    back. *)
Theorem tunnel_repairs (ic : option innerCipher) (K : Z) (data : list bytes) (owned : bool) (acts : list rxAct) :
  CipherOk ic -> 2 <= K <= 64 -> 0 < lenZ data <= Z.of_nat fecMaxPendingGroups * K ->
  Forall (fun f => f <> [] /\ lenZ f + Z.of_nat (tagLen ic) < 2 ^ 32) data ->
  let frames := concat (actFrames <$> acts) in
  head (Seq <$> frames) = Some 1 -> Forall (fun vf => plain ic K data (evOf vf)) frames ->
  (forall q, 1 <= q <= lenZ data -> q ∈ Seq <$> frames \/ repairable ic K data (evOf <$> frames) q) ->
  keepsUp acts (rxSide0 K ic owned) ->
  let r := rxRun K ic owned acts in
  rfailed r = false /\ rgot r ++ concat (concat (outChan (arb (racc r)))) = data /\ buffered (arb (racc r)) = 0.
Proof.
  intros Hok HK Hn Hfr frames Hhead HF Hall HU r.
  destruct (repaired_acts ic K data owned HK Hn Hfr acts [] (rxSide0 K ic owned)) as (H1 & H2 & H3); [done|done|done|done|done|by left|].
  change (fold_left rxAct_step acts (rxSide0 K ic owned)) with r in H1, H2, H3. fold frames in H1. cbn [app] in H1. split; [done|]. assert (frames <> []) as Hne by (by intros E; rewrite E in Hhead).
  rewrite onCourse_some in H1 by done. destruct H1 as (evs & seen & n & HR).
  pose proof (seen_all ic K data HK Hn Hfr _ _ _ _ _ _ HR Hall) as Hseen. destruct HR as [_ _ _ _ R5 _].
  destruct (caught_up_complete 1 (lenZ data) (payloadOf data) ltac:(lia) (HN K data HK Hn) _ _ _ _ R5 Hseen) as [-> HB]. split; [|done].
  pose proof (u_out _ _ _ _ _ _ R5) as HO. rewrite H2 in HO. cbn in HO. rewrite app_nil_r in HO. rewrite HO.
  symmetry. apply list_eq. intros i. rewrite list_lookup_fmap. destruct (data !! i) as [f|] eqn:E.
  - pose proof (lookup_lt_Some _ _ _ E). rewrite lookup_seqZ_lt by (unfold lenZ; lia). cbn. unfold payloadOf. replace (Z.to_nat (1 + Z.of_nat i - 1)) with i by lia. by rewrite E.
  - apply lookup_ge_None in E. by rewrite lookup_seqZ_ge by (unfold lenZ; lia).
Qed.

(** ** A numbered batch without a connection *)

(** Both connections are lost while frame 2 is being batched: the dispatch drops it after
    it was numbered, and the encoder never hears of it.  With two new connections the
    open group goes on with frame 3, so the parity for numbers 1 and 2 covers frames 1
    and 3, and the receiver recovers number 2 as the payload of frame 3: the second
    frame is lost and the third is delivered twice. *)
Definition droppedNumber : list txOp :=
  [TRegister 32 50000; TRegister 32 50000; TReset 2 None; TWrite [10]; TTake; TWait; TSnapshot; TGathered; TDispatch 0; TTry; TParity;
   TWrite [20]; TTake; TWait; TSnapshot; TGathered; TUnregister 0; TUnregister 1; TDispatch 0; TRegister 32 50000; TRegister 32 50000;
   TWrite [30]; TTake; TWait; TSnapshot; TGathered; TDispatch 0; TTry; TParity; TParity].

Lemma dropped_number_corrupts :
  let s := txExec (fun _ _ => 0) droppedNumber tx0 in
  let frames := logFrames (elog s) in
  TxPort.lost s = [[20]] /\
  rgot (rxRun 2 None true [RxBatch (fun _ => 0) (fun _ => false) frames; RxDeliver; RxDeliver]) = [[10]; [30]; [30]].
Proof. vm_compute. by split. Qed.

(** ** Witnesses *)

Definition demoWire : list VPNFrame := logFrames (elog (txExec demoQuot (TReset 2 None :: demoSend) (txExec demoQuot [] tx0))).
Definition demoActs (w : list VPNFrame) : list rxAct :=
  [RxBatch (fun _ => 0) (fun _ => false) w; RxDeliver; RxBatch (fun _ => 5) (fun _ => false) (reverse w); RxDeliver].

Lemma demoActs_from (w : list VPNFrame) : Forall (fun act => Forall (fun vf => vf ∈ w) (actFrames act)) (demoActs w).
Proof.
  assert (Forall (fun vf => vf ∈ w) w) as H by (by apply Forall_forall). repeat constructor; [exact H|]. cbn [actFrames]. by rewrite Forall_reverse.
Qed.

Lemma tunnel_integrity_witness :
  let s := txExec demoQuot (TReset 2 None :: demoSend) tx0 in
  exists data L, Forall (fun f => f ∈ given s) data /\ Forall (inData data) (logFrames (elog s)) /\
    StronglySorted Z.lt L /\ Forall2 (sentAs data) L (rgot (rxRun (clampFecGroup 2) None true (demoActs demoWire))).
Proof.
  apply (tunnel_integrity demoQuot [] demoSend 2 None true (demoActs demoWire)); [apply _|reflexivity|reflexivity|unfold fecMinGroup; lia|vm_compute; reflexivity| | | |].
  - repeat (split; [first [exact I|intros ? _; vm_compute; discriminate]|]). exact I.
  - vm_compute. reflexivity.
  - apply (bool_decide_unpack _). vm_compute. exact I.
  - cbv zeta. unfold demoWire. apply demoActs_from.
Defined.

Definition repairData : list bytes := [[1]; [2; 2]; [3]; [4]].
Definition repairActs : list rxAct :=
  [RxBatch (fun _ => 0) (fun _ => false) [mkFrame 1 [1]; mkFrame 4 [4]; mkFrame 0 (parityPayload None 1 [[1]; [2; 2]])];
   RxDeliver; RxBatch (fun _ => 7) (fun _ => false) [mkFrame 1 [1]; mkFrame 0 (parityPayload None 3 [[3]; [4]])]].

Lemma tunnel_repairs_witness :
  let r := rxRun 2 None true repairActs in
  rfailed r = false /\ rgot r ++ concat (concat (outChan (arb (racc r)))) = repairData /\ buffered (arb (racc r)) = 0.
Proof.
  apply (tunnel_repairs None 2 repairData true repairActs); [apply _|lia|vm_compute; split; [reflexivity|discriminate]|repeat constructor; done|reflexivity| | |].
  - cbn [repairActs fmap list_fmap actFrames concat app]. repeat (apply Forall_cons; split); try apply Forall_nil_2; cbn;
      first [split; [lia|reflexivity]|exists 1; split_and!; [done|lia|done|reflexivity]|exists 3; split_and!; [done|lia|done|reflexivity]].
  - intros q Hq. change (lenZ repairData) with 4 in Hq. assert (q = 1 \/ q = 2 \/ q = 3 \/ q = 4) as [->|[->|[->| ->]]] by lia.
    + left. cbn. set_solver.
    + right. split_and!; [done|cbn; set_solver|]. intros q' f' [H1 H2] H3 Hne. pose proof (lookup_lt_Some _ _ _ H2) as Hl. cbn in Hl.
      assert (q' = 1 \/ q' = 3 \/ q' = 4) as [->|[->| ->]] by lia; [injection H2 as <-; cbn; set_solver|done|done].
    + right. split_and!; [done|cbn; set_solver|]. intros q' f' [H1 H2] H3 Hne. pose proof (lookup_lt_Some _ _ _ H2) as Hl. cbn in Hl.
      assert (q' = 1 \/ q' = 2 \/ q' = 4) as [->|[->| ->]] by lia; [done|done|injection H2 as <-; cbn; set_solver].
    + left. cbn. set_solver.
  - vm_compute. repeat split; lia.
Defined.
