(* ===== verification/Conn.v ===== *)
(** * The loops of a physical connection (client.go, server.go)

    The writer goroutine of a connection drains the channel of its backend, seals and
    frames the batches, pads the tail and writes; a timer makes it write heartbeats.
    The reader takes frames off the stream, opens them and hands them to the receive
    path: to a producer of the session's worker, or, with one connection, straight to
    the FEC decoder and the reorder buffer.  Client and server run the same loops; the
    server also checks before each frame that the session's epoch is still the
    connection's.

    TLS is a byte stream: what the writer has written is what the peer's reader is given,
    in chunks.  Random offsets into the padding pool are arguments of a turn. *)

From stdpp Require Import base tactics list numbers strings gmap.
From S2P Require Import Prelude Aead Padding Frame FecControl FecDecoder Reorder RxWorker Scheduler.
#[local] Open Scope Z_scope.

(** ** The writer *)

Definition maxTLSWriteBatchBytes : Z := streamTLSBatchSoftLimit.

(** The local variables of one turn: buffer, packets, start of the last record,
    payload bytes taken off the queue, totals by kind. *)
Record sendBuf := mkSend { wbuf : bytes; wpackets : Z; wlast : Z; wqueued : Z; wtotals : txFrameTotals }.
Definition emptySend : sendBuf := mkSend [] 0 (-1) 0 totals_zero.

Definition appendBatch (ic : option innerCipher) (b : VPNFrameBatch) (w : sendBuf) : sendBuf :=
  let '(buf, n, last, tot) := appendOwnedVPNFrameBatchStreamWithScratch (wbuf w) (Frames b) ic (wtotals w) in
  mkSend buf (wpackets w + Z.of_nat n) (if 0 <=? last then last else wlast w) (u64 (wqueued w + Bytes b)) tot.

(** [polls]: the batches that the non-blocking receives find; what the size limit
    leaves stays in the channel. *)
Fixpoint drainBatches (ic : option innerCipher) (b : VPNFrameBatch) (polls : list VPNFrameBatch) (w : sendBuf)
    : sendBuf * list VPNFrameBatch :=
  let w := appendBatch ic b w in
  if maxTLSWriteBatchBytes <=? lenZ (wbuf w) then (w, polls) else
  match polls with [] => (w, []) | b :: polls => drainBatches ic b polls w end.

Definition totals_record (s t : txFrameTotals) : txFrameTotals :=
  mkTotals (u64 (DataFrames t + DataFrames s)) (u64 (ParityFrames t + ParityFrames s)) (u64 (ControlFrames t + ControlFrames s))
           (u64 (DataWireBytes t + DataWireBytes s)) (u64 (ParityWireBytes t + ParityWireBytes s)).

(** A connection's writer: the channel, the stream written so far, the counters it adds
    to, and the payload bytes it reported as delivered.  [wsent] records the frames written,
    heartbeats included; no operation reads it. *)
Record connWriter := mkWriter {
  wqueue : list VPNFrameBatch;
  wwire : bytes;
  wTxBytes : Z;
  wTxPackets : Z;
  wwritten : txFrameTotals;
  wpad : padStats;
  wdelivered : Z;
  wdead : bool;
  wsent : list VPNFrame
}.

Definition writer0 (ps : padStats) : connWriter := mkWriter [] [] 0 0 totals_zero ps 0 false [].

Inductive writerEv :=
| WrTurn (arrived : list VPNFrameBatch) (off : nat) (modes : list string) (cut : option nat)
| WrKeepAlive (r : Z) (off : nat) (cut : option nat).

Section Writer.
Variables (ic : option innerCipher) (limit : Z) (pool : bytes).

(** A turn on the channel; [arrived] reaches it in time for the turn, [modes] are the
    padding modes set while it runs, [cut] is how far a failing write got. *)
Definition writeTurn (arrived : list VPNFrameBatch) (off : nat) (modes : list string) (cut : option nat) (w : connWriter) : connWriter :=
  match wqueue w ++ arrived with
  | [] => w
  | b :: polls =>
    let padEpoch := padStatsEpoch (wpad w) in
    let '(sb, rest) := drainBatches ic b polls emptySend in
    let ps := fold_left (fun p m => (setPadMode m p).1) modes (wpad w) in
    let '(buf, tailPad) := padStreamBatchTail (padModeCode ps) pool off (wbuf sb) (wlast sb) limit in
    let frames := concat (Frames <$> take (length (b :: polls) - length rest) (b :: polls)) in
    match cut with
    | None =>
      mkWriter rest (wwire w ++ buf) (u64 (wTxBytes w + lenZ buf)) (u64 (wTxPackets w + wpackets sb)) (totals_record (wtotals sb) (wwritten w))
               (recordPadBytesAt (lenZ buf) tailPad padEpoch ps) (u64 (wdelivered w + wqueued sb)) false (wsent w ++ frames)
    | Some n => mkWriter rest (wwire w ++ take n buf) (wTxBytes w) (wTxPackets w) (wwritten w) ps (wdelivered w) true (wsent w ++ frames)
    end
  end.

Definition keepAliveTurn (r : Z) (off : nat) (cut : option nat) (w : connWriter) : connWriter :=
  let '(buf, _) := appendPaddedFrame (padModeCode (wpad w)) limit r pool off [] (mkFrame 0 []) None in
  mkWriter (wqueue w) (wwire w ++ match cut with None => buf | Some n => take n buf end) (wTxBytes w) (wTxPackets w) (wwritten w) (wpad w)
           (wdelivered w) (bool_decide (is_Some cut)) (wsent w ++ [mkFrame 0 []]).

Definition writerStep (w : connWriter) (ev : writerEv) : connWriter :=
  if wdead w then w else
  match ev with
  | WrTurn arrived off modes cut => writeTurn arrived off modes cut w
  | WrKeepAlive r off cut => keepAliveTurn r off cut w
  end.

Definition writerExec (evs : list writerEv) (w : connWriter) : connWriter := fold_left writerStep evs w.
End Writer.

(** ** The reader *)

(** What the loop needs of the receive path: a control record, which it may refuse, a
    data frame, and the moment when no further frame is buffered. *)
Class RxPath (S : Type) := {
  rx_control : bytes -> S -> S * option rxErr;
  rx_data : Z -> bytes -> S -> S;
  rx_idle : S -> S
}.

Record rdStats := mkRdStats { batchBytes : Z; batchPackets : Z; rxBytesTotal : Z; rxPacketsTotal : Z }.

Definition flushRxStats (st : rdStats) : rdStats :=
  if batchPackets st =? 0 then st else
  mkRdStats 0 0 (u64 (rxBytesTotal st + batchBytes st)) (u64 (rxPacketsTotal st + batchPackets st)).

Definition countFrame (wire : Z) (ready : bool) (st : rdStats) : rdStats :=
  let st := mkRdStats (u64 (batchBytes st + wire)) (u64 (batchPackets st + 1)) (rxBytesTotal st) (rxPacketsTotal st) in
  if (64 <=? batchPackets st) || negb ready then flushRxStats st else st.

Inductive rdStop :=
| StopRead (e : readErr)
| StopLength (n : Z)
| StopStale                          (* the session has a newer epoch *)
| StopControlWithoutFEC
| StopControl (e : rxErr).

(** What the session says when a frame is taken: its epoch is the connection's, and it
    has a decoder.  On the client the first is always so. *)
Record rdView := mkView { vCurrent : bool; vFEC : bool }.

Record connReader (S : Type) := mkReader { rscan : FrameScanner; rpath : S; rstats : rdStats; rfreed : list bytes }.
Arguments mkReader {S}.
Arguments rscan {S}.
Arguments rpath {S}.
Arguments rstats {S}.
Arguments rfreed {S}.

Section Reader.
Context {S : Type} `{RxPath S}.
Variable ic : option innerCipher.

Definition idleUnless (ready : bool) (p : S) : S := if ready then p else rx_idle p.

(** One turn of the loop; [None] goes on. *)
Definition readTurn (v : rdView) (c : connReader S) : connReader S * option rdStop :=
  match ReadFrame (rscan c) with
  | None => (c, None)
  | Some (ReadFailed e, s) => (mkReader s (rpath c) (rstats c) (rfreed c), Some (StopRead e))
  | Some (BadLength n, s) => (mkReader s (rpath c) (rstats c) (rfreed c), Some (StopLength n))
  | Some (Got None _, s) => (mkReader s (rpath c) (flushRxStats (rstats c)) (rfreed c), None)
  | Some (Got (Some f) seq, s) =>
    if negb (vCurrent v) then (mkReader s (rpath c) (rstats c) (rfreed c ++ [f]), Some StopStale) else
    let ready := BufferedFrameReady s in
    let st := countFrame (lastWireSize s) ready (rstats c) in
    match openScanned ic (Some f) seq with
    | inr _ => (mkReader s (rpath c) st (rfreed c ++ [f]), None)
    | inl plain =>
      if seq =? 0 then
        if negb (vFEC v) then (mkReader s (rpath c) st (rfreed c ++ [plain]), Some StopControlWithoutFEC) else
        let '(p, e) := rx_control plain (rpath c) in
        match e with
        | Some e => (mkReader s p st (rfreed c), Some (StopControl e))
        | None => (mkReader s (idleUnless ready p) st (rfreed c), None)
        end
      else (mkReader s (idleUnless ready (rx_data seq plain (rpath c))) st (rfreed c), None)
    end
  end.

(** The deferred calls of the loop. *)
Definition readEnd (c : connReader S) : connReader S := mkReader (rscan c) (rx_idle (rpath c)) (flushRxStats (rstats c)) (rfreed c).

Fixpoint readerRun (vs : list rdView) (c : connReader S) : connReader S * option rdStop :=
  match vs with
  | [] => (c, None)
  | v :: vs => let '(c, e) := readTurn v c in
               match e with Some _ => (readEnd c, e) | None => readerRun vs c end
  end.
End Reader.

Definition reader0 {S} (chunks : reader) (p : S) : connReader S :=
  mkReader (NewFrameScanner chunks) p (mkRdStats 0 0 0 0) [].

(** *** The two receive paths *)

(** A producer of the session's worker: Push takes controls and data alike. *)
Definition producerPath (pid : nat) : RxPath rxSys := {|
  rx_control := fun f s => (Push pid 0 (Some f) s, None);
  rx_data := fun seq f s => Push pid seq (Some f) s;
  rx_idle := Flush pid
|}.

(** One connection: the decoder and the reorder buffer, called in place.  [clk] and
    [tc] give the clock and the selects of the calls into the buffer, counted by
    [dcalls]. *)
Record directRx := mkDirect { drb : ReorderBuffer; ddec : option fecDecoder; dfreed : list bytes; dcalls : nat }.

Section Direct.
Variables (clk : nat -> Z) (tc : nat -> bool).

Definition directInsert (seq : Z) (frame : bytes) (d : directRx) : directRx :=
  let '(rb, _, fr) := Insert (tc (dcalls d)) (clk (dcalls d)) seq (Some frame) (drb d) in
  mkDirect rb (ddec d) (dfreed d ++ fr) (S (dcalls d)).

#[local] Instance directSink : ReorderSink directRx := {| sink_insert := directInsert; sink_progress := fun d => ExpectedSeqActor (drb d) |}.

Definition setDirectDec (dw : fecDecoder * directRx) : directRx :=
  mkDirect (drb dw.2) (Some dw.1) (dfreed dw.2) (dcalls dw.2).

Definition directPath : RxPath directRx := {|
  rx_control := fun f d =>
    match ddec d with
    | None => (mkDirect (drb d) None (dfreed d ++ [f]) (dcalls d), Some RXControlWithoutFEC)
    | Some dec =>
      let '(dw, e) := OnControlWithScratch f (dec, d) in
      let d := setDirectDec dw in (mkDirect (drb d) (ddec d) (dfreed d ++ [f]) (dcalls d), RXControl <$> e)
    end;
  rx_data := fun seq f d =>
    directInsert seq f (match ddec d with Some dec => setDirectDec (OnData seq f (dec, d)) | None => d end);
  rx_idle := fun d => d
|}.
End Direct.

(** ** What the writer puts on the stream *)

Abbreviation framesOf := (fun bs : list VPNFrameBatch => concat (Frames <$> bs)).

Definition records (ic : option innerCipher) (rs : list (VPNFrame * bytes)) : bytes :=
  concat ((fun r => frameRecord ic r.1 r.2) <$> rs).

Lemma records_app ic a b : records ic (a ++ b) = records ic a ++ records ic b.
Proof. unfold records. by rewrite fmap_app, concat_app. Qed.

Definition bare (vfs : list VPNFrame) : list (VPNFrame * bytes) := (fun v => (v, [])) <$> vfs.

Lemma bare_fst vfs : (bare vfs).*1 = vfs.
Proof. unfold bare. rewrite <- list_fmap_compose. apply list_fmap_id. Qed.

Lemma appendBatch_spec ic b w : let w' := appendBatch ic b w in
  wbuf w' = wbuf w ++ records ic (bare (Frames b)) /\ wpackets w' = wpackets w + lenZ (Frames b) /\
  (Frames b = [] -> wlast w' = wlast w) /\
  (forall init v, Frames b = init ++ [v] -> wlast w' = lenZ (wbuf w ++ records ic (bare init))).
Proof.
  unfold appendBatch, appendOwnedVPNFrameBatchStreamWithScratch. pose proof (appendStreamLoop_spec (Frames b) (wbuf w) ic (-1) (wtotals w)) as HS.
  destruct (appendStreamLoop _ _ _ _ _) as [[buf last] tot]. destruct HS as [-> HL]. cbn [wbuf wpackets wlast].
  assert (forall vfs, records ic (bare vfs) = concat ((fun vf => frameRecord ic vf []) <$> vfs)) as Hr.
  { intros vfs. unfold records, bare. by rewrite <- list_fmap_compose. }
  rewrite Hr. split; [done|]. split; [done|]. destruct (Frames b) as [|v0 vs] eqn:EF.
  - subst last. cbn. split; [done|]. intros init v E. by destruct init.
  - split; [done|]. intros init v E. destruct HL as (init' & v' & E' & ->). rewrite E in E'. apply app_inj_tail in E' as [<- <-].
    rewrite Hr. unfold lenZ. by rewrite (proj2 (Z.leb_le 0 _)) by lia.
Qed.

(** Where the last record of the buffer starts. *)
Definition lastStart (ic : option innerCipher) (base : bytes) (fs : list VPNFrame) (dflt last : Z) : Prop :=
  (fs = [] -> last = dflt) /\ (forall init v, fs = init ++ [v] -> last = lenZ (base ++ records ic (bare init))).

Lemma lastStart_app ic base f1 f2 d l1 l2 : lastStart ic base f1 d l1 -> lastStart ic (base ++ records ic (bare f1)) f2 l1 l2 ->
  lastStart ic base (f1 ++ f2) d l2.
Proof.
  intros [A1 A2] [B1 B2]. split.
  - intros E. apply app_nil in E as [E1 E2]. rewrite B1, A1; auto.
  - intros init v E. destruct f2 as [|x f2] using rev_ind.
    + rewrite app_nil_r in E. rewrite B1 by done. by apply (A2 _ v).
    + clear IHf2. rewrite app_assoc in E. apply app_inj_tail in E as [<- <-]. rewrite (B2 f2 x) by done.
      unfold bare. by rewrite fmap_app, records_app, app_assoc.
Qed.

Lemma drain_spec ic : forall polls b w sb rest, drainBatches ic b polls w = (sb, rest) ->
  exists taken, b :: polls = taken ++ rest /\ wbuf sb = wbuf w ++ records ic (bare (framesOf taken)) /\
    wpackets sb = wpackets w + lenZ (framesOf taken) /\ lastStart ic (wbuf w) (framesOf taken) (wlast w) (wlast sb).
Proof.
  induction polls as [|b2 polls IH]; intros b w sb rest; cbn [drainBatches];
    destruct (appendBatch_spec ic b w) as (A1 & A2 & A3 & A4); destruct (maxTLSWriteBatchBytes <=? _).
  1-3: intros [= <- <-]; exists [b]; cbn [fmap list_fmap concat]; rewrite ?app_nil_r; split_and!; [done|exact A1|exact A2|by split].
  - intros H. apply IH in H as (taken & E & H1 & H2 & H3). exists (b :: taken). cbn [app fmap list_fmap concat]. rewrite E. split; [done|].
    unfold bare in *. rewrite fmap_app, records_app. rewrite H1, A1, <- app_assoc. split; [done|]. split; [unfold lenZ in *; rewrite length_app; lia|].
    apply (lastStart_app ic (wbuf w) _ _ _ (wlast (appendBatch ic b w))); [by split|]. unfold bare. by rewrite <- A1.
Qed.

(** The tail padding goes to the last record of the turn. *)
Lemma turn_records ic mode pool off limit fs last :
  lastStart ic [] fs (-1) last -> Z.of_nat off + 512 <= lenZ pool ->
  exists rs, (padStreamBatchTail mode pool off (records ic (bare fs)) last limit).1 = records ic rs /\ rs.*1 = fs /\ Forall (fun r => is_u16 (lenZ r.2)) rs.
Proof.
  intros [H1 H2] Hoff. destruct fs as [|v init _] using rev_ind.
  { rewrite (H1 eq_refl). exists []. unfold padStreamBatchTail. cbn. by repeat case_match. }
  rewrite (H2 init v eq_refl). cbn [app]. unfold bare at 1. rewrite fmap_app, records_app. fold (bare init). cbn [fmap list_fmap].
  set (pre := records ic (bare init)). unfold records at 1. cbn [fmap list_fmap concat fst snd]. rewrite app_nil_r.
  destruct (padStreamBatchTail_spec mode pool off (pre ++ frameRecord ic v []) pre _ _ _ limit eq_refl Hoff) as (pad & HP & Hl). rewrite HP. cbn [fst].
  exists (bare init ++ [(v, pad)]). rewrite records_app. unfold records at 2. cbn [fmap list_fmap concat fst snd]. rewrite app_nil_r.
  split; [done|]. rewrite fmap_app, bare_fst. split; [done|]. apply Forall_app. split.
  - unfold bare. apply Forall_fmap, Forall_true. intros x. cbn. widths. unfold lenZ. cbn. lia.
  - constructor; [|constructor]. cbn. widths. unfold lenZ in *. lia.
Qed.

(** *** Histories of the writer *)

Definition evArrived (ev : writerEv) : list VPNFrameBatch := match ev with WrTurn a _ _ _ => a | WrKeepAlive _ _ _ => [] end.
Definition arrived (evs : list writerEv) : list VPNFrameBatch := concat (evArrived <$> evs).

(** The padding of a turn lies inside the pool, and its write succeeds. *)
Definition evOk (pool : bytes) (ev : writerEv) : Prop :=
  match ev with
  | WrTurn _ off _ cut => Z.of_nat off + 512 <= lenZ pool /\ cut = None
  | WrKeepAlive _ _ cut => cut = None
  end.

Definition isFrame (v : VPNFrame) : bool := negb (length (Data v) =? 0)%nat.
Definition dataRecs (rs : list (VPNFrame * bytes)) : list (VPNFrame * bytes) := filter (fun r => isFrame r.1 = true) rs.

(** The stream is a sequence of records: the batches in the order of the channel, with
    heartbeats in between; the counters count the records that are not heartbeats. *)
Record wrote (ic : option innerCipher) (bs : list VPNFrameBatch) (rs : list (VPNFrame * bytes)) (w : connWriter) : Prop := {
  wr_wire : wwire w = records ic rs;
  wr_sent : rs.*1 = wsent w;
  wr_pads : Forall (fun r => is_u16 (lenZ r.2)) rs;
  wr_beats : Forall (fun v => isFrame v = false -> v = mkFrame 0 []) (wsent w);
  wr_frames : framesOf bs = filter (fun v => isFrame v = true) (wsent w) ++ framesOf (wqueue w);
  wr_bytes : wTxBytes w = u64 (lenZ (records ic (dataRecs rs)));
  wr_packets : wTxPackets w = u64 (lenZ (dataRecs rs));
  wr_alive : wdead w = false
}.

Lemma beat_pad mode limit r : 0 <= currentPadLength mode 0 limit r <= 118.
Proof.
  destruct mode; cbn [currentPadLength]; [lia|]. unfold padBucket, padBuckets. cbn [padBucketLoop].
  destruct (0 <? limit) eqn:E1; cbn [andb]; [|vm_compute; split; discriminate]. destruct (limit <=? 10 + 0) eqn:E2; [lia|].
  destruct (limit <? 128) eqn:E3; [|vm_compute; split; discriminate]. destruct (10 + 0 <? limit) eqn:E4; [|lia]. cbn [Z.add]. apply Z.ltb_lt in E3, E4. lia.
Qed.

Lemma isFrame_true v : isFrame v = true <-> Data v <> [].
Proof. unfold isFrame. by destruct (Data v). Qed.

Lemma frames_kept vfs : Forall (fun v => Data v <> []) vfs -> filter (fun v => isFrame v = true) vfs = vfs.
Proof. intros HF. apply filter_all. eapply Forall_impl; [exact HF|]. intros v Hv. by apply isFrame_true. Qed.

Lemma dataRecs_app a b : dataRecs (a ++ b) = dataRecs a ++ dataRecs b.
Proof. apply filter_app. Qed.

Lemma dataRecs_kept rs : Forall (fun v => Data v <> []) rs.*1 -> dataRecs rs = rs.
Proof.
  intros HF. apply filter_all. apply Forall_forall. intros r Hr. apply isFrame_true. rewrite Forall_forall in HF. apply HF. by apply list_elem_of_fmap_2.
Qed.

Lemma dataRecs_fst rs : (dataRecs rs).*1 = filter (fun v => isFrame v = true) rs.*1.
Proof.
  unfold dataRecs. induction rs as [|r rs IH]; [done|]. rewrite filter_cons, fmap_cons, filter_cons. by destruct (decide _); [rewrite fmap_cons, IH|].
Qed.

Lemma u64_add_l a b : u64 (u64 a + b) = u64 (a + b).
Proof. unfold u64. by rewrite Zplus_mod_idemp_l. Qed.

Section History.
Variables (ic : option innerCipher) (limit : Z) (pool : bytes).

Lemma wrote_turn bs rs w a off modes : wrote ic bs rs w -> Z.of_nat off + 512 <= lenZ pool ->
  Forall (fun v => Data v <> []) (framesOf (bs ++ a)) ->
  exists rs', wrote ic (bs ++ a) (rs ++ rs') (writeTurn ic limit pool a off modes None w).
Proof using.
  intros [W1 W2 W3 W8 W4 W5 W6 W7] Hoff HF. unfold writeTurn. rewrite fmap_app, concat_app in HF.
  assert (framesOf (wqueue w ++ a) = framesOf (wqueue w) ++ framesOf a) as Hq by (by rewrite fmap_app, concat_app).
  destruct (wqueue w ++ a) as [|b polls] eqn:EQ.
  { apply app_nil in EQ as [EQ ->]. exists []. rewrite !app_nil_r. by split. }
  destruct (drainBatches ic b polls emptySend) as [sb rest] eqn:ED. destruct (drain_spec ic _ _ _ _ _ ED) as (taken & ET & D1 & D2 & D3).
  cbn [emptySend wbuf wpackets wlast app] in D1, D2, D3. set (ps := fold_left _ _ _). clearbody ps.
  destruct (turn_records ic (padModeCode ps) pool off limit _ _ D3 Hoff) as (rs' & R1 & R2 & R3). rewrite <- D1 in R1.
  assert (take (length (b :: polls) - length rest) (b :: polls) = taken) as ->.
  { rewrite ET, length_app, Nat.add_sub. apply take_app_length. }
  destruct (padStreamBatchTail _ _ _ _ _ _) as [buf tp]. cbn [fst] in R1. subst buf.
  assert (framesOf (bs ++ a) = filter (fun v => isFrame v = true) (wsent w) ++ framesOf taken ++ framesOf rest) as HE.
  { rewrite fmap_app, concat_app, W4, <- app_assoc, <- Hq, ET, fmap_app, concat_app. done. }
  assert (Forall (fun v => Data v <> []) (framesOf taken)) as HT.
  { rewrite <- concat_app, <- fmap_app, HE in HF. apply Forall_app in HF as [_ HF]. by apply Forall_app in HF as [HF _]. }
  assert (dataRecs rs' = rs') as HD by (apply dataRecs_kept; by rewrite R2).
  exists rs'. split; cbn [wwire wsent wqueue wTxBytes wTxPackets wdead]; auto.
  - by rewrite records_app, W1.
  - by rewrite fmap_app, W2, R2.
  - by apply Forall_app.
  - apply Forall_app. split; [done|]. eapply Forall_impl; [exact HT|]. intros v Hv E. apply isFrame_true in Hv. congruence.
  - rewrite filter_app, (frames_kept _ HT), <- app_assoc. exact HE.
  - rewrite W5, u64_add_l, dataRecs_app, records_app, HD. f_equal. unfold lenZ. rewrite length_app. lia.
  - rewrite W6, u64_add_l, dataRecs_app, HD, D2. f_equal. rewrite <- R2. unfold lenZ. rewrite length_app, length_fmap. lia.
Qed.

Lemma wrote_beat bs rs w r off : wrote ic bs rs w -> exists rs', wrote ic bs (rs ++ rs') (keepAliveTurn limit pool r off None w).
Proof using.
  intros [W1 W2 W3 W8 W4 W5 W6 W7]. unfold keepAliveTurn, appendPaddedFrame. cbn [Data length Seq Z.of_nat encTagLen Z.eqb negb andb Nat.add].
  pose proof (beat_pad (padModeCode (wpad w)) limit r) as Hp. set (n := currentPadLength _ _ _ _) in *. set (pad := poolPadding pool off (Z.to_nat n)).
  assert (lenZ pad <= 118) as Hl.
  { unfold pad, poolPadding, lenZ, slice. rewrite length_take. lia. }
  exists [(mkFrame 0 [], pad)]. split; cbn [wwire wsent wqueue wTxBytes wTxPackets wdead]; auto.
  - rewrite records_app, W1. f_equal. unfold records. cbn. by rewrite app_nil_r.
  - by rewrite fmap_app, W2.
  - apply Forall_app. split; [done|]. constructor; [|constructor]. cbn. widths. unfold lenZ in *. lia.
  - apply Forall_app. split; [done|]. by constructor.
  - rewrite filter_app, app_nil_r. exact W4.
  - by rewrite dataRecs_app, app_nil_r.
  - by rewrite dataRecs_app, app_nil_r.
Qed.

Lemma wrote_exec evs : forall bs rs w, wrote ic bs rs w -> Forall (evOk pool) evs -> Forall (fun v => Data v <> []) (framesOf (bs ++ arrived evs)) ->
  exists rs', wrote ic (bs ++ arrived evs) (rs ++ rs') (writerExec ic limit pool evs w).
Proof using.
  induction evs as [|ev evs IH]; intros bs rs w HW HE HF; cbn [writerExec fold_left arrived fmap list_fmap concat] in *.
  { exists []. by rewrite !app_nil_r. }
  apply Forall_cons_1 in HE as [H1 HE]. fold (arrived evs) in *. rewrite app_assoc in *.
  assert (exists rs1, wrote ic (bs ++ evArrived ev) (rs ++ rs1) (writerStep ic limit pool w ev)) as [rs1 H2].
  { unfold writerStep. rewrite (wr_alive _ _ _ _ HW). destruct ev as [a off modes cut|r off cut]; cbn [evArrived evOk] in *.
    - destruct H1 as [Hoff ->]. apply wrote_turn; [done|done|]. rewrite fmap_app, concat_app in HF. by apply Forall_app in HF as [HF _].
    - subst cut. rewrite app_nil_r. by apply wrote_beat. }
  destruct (IH _ _ _ H2 HE HF) as [rs2 H3]. exists (rs1 ++ rs2). by rewrite app_assoc.
Qed.

Lemma wrote_run evs ps : Forall (evOk pool) evs -> Forall (fun v => Data v <> []) (framesOf (arrived evs)) ->
  exists rs, wrote ic (arrived evs) rs (writerExec ic limit pool evs (writer0 ps)).
Proof using. intros HE HF. destruct (wrote_exec evs [] [] (writer0 ps)) as [rs H]; [by split|done|done|by exists rs]. Qed.
End History.

(** ** What the reader hands on *)

Section Feed.
Context {S : Type} `{RxPath S}.

(** Frames handed to the receive path in order, each with or without the idle call
    after it; the first refused control ends it. *)
Fixpoint feed (fs : list (VPNFrame * bool)) (p : S) : S * option rxErr :=
  match fs with
  | [] => (p, None)
  | (v, idle) :: fs =>
    let '(p, e) := if Seq v =? 0 then rx_control (Data v) p else (rx_data (Seq v) (Data v) p, None) in
    match e with Some _ => (p, e) | None => feed fs (if idle then rx_idle p else p) end
  end.

Definition okView : rdView := mkView true true.

Definition bytesTotal (st : rdStats) : Z := u64 (rxBytesTotal st + batchBytes st).
Definition packetsTotal (st : rdStats) : Z := u64 (rxPacketsTotal st + batchPackets st).

Lemma u64_add_r a b : u64 (a + u64 b) = u64 (a + b).
Proof using. unfold u64. by rewrite Zplus_mod_idemp_r. Qed.

Lemma u64_idem a : u64 (u64 a) = u64 a.
Proof using. unfold u64. by rewrite Zmod_mod. Qed.

Lemma flush_totals st : bytesTotal (flushRxStats st) = bytesTotal st /\ packetsTotal (flushRxStats st) = packetsTotal st.
Proof using.
  unfold flushRxStats, bytesTotal, packetsTotal. destruct (batchPackets st =? 0); [done|]. cbn. by rewrite !Z.add_0_r, !u64_idem.
Qed.

Lemma count_totals wire ready st : bytesTotal (countFrame wire ready st) = u64 (bytesTotal st + wire) /\
  packetsTotal (countFrame wire ready st) = u64 (packetsTotal st + 1).
Proof using.
  unfold countFrame. set (st1 := mkRdStats _ _ _ _). assert (bytesTotal st1 = u64 (bytesTotal st + wire) /\ packetsTotal st1 = u64 (packetsTotal st + 1)) as [E1 E2].
  { unfold bytesTotal, packetsTotal, st1. cbn. rewrite !u64_add_l, !u64_add_r. split; f_equal; lia. }
  destruct (_ || _); [|done]. destruct (flush_totals st1) as [-> ->]. done.
Qed.

(** The reader at a record boundary. *)
Record atRecord (rest : bytes) (c : connReader S) : Prop := {
  ar_wf : scan_wf (rscan c);
  ar_clean : clean (rd (rscan c));
  ar_max : maxDataLen (rscan c) = maxWireDataLen;
  ar_rest : pendingStream (rscan c) = rest
}.

Variable ic : option innerCipher.
Context `{!CipherOk ic}.

(** What the loop has done with the records [rs]. *)
Record readSo (rs : list (VPNFrame * bytes)) (c c' : connReader S) (p' : S) : Prop := {
  so_path : rpath c' = p';
  so_freed : rfreed c' = rfreed c;
  so_bytes : bytesTotal (rstats c') = u64 (bytesTotal (rstats c) + lenZ (records ic (dataRecs rs)));
  so_packets : packetsTotal (rstats c') = u64 (packetsTotal (rstats c) + lenZ (dataRecs rs))
}.

Lemma u64_total st : u64 (bytesTotal st) = bytesTotal st /\ u64 (packetsTotal st) = packetsTotal st.
Proof using. unfold bytesTotal, packetsTotal. by rewrite !u64_idem. Qed.

(** One record that is not a heartbeat. *)
Lemma read_frame v pad rest c : atRecord (frameRecord ic v pad ++ rest) c -> sendable ic maxWireDataLen v -> is_u16 (lenZ pad) -> Data v <> [] ->
  exists s st idle, (rest = [] -> idle = true) /\ atRecord rest (mkReader s (rpath c) st (rfreed c)) /\
    bytesTotal st = u64 (bytesTotal (rstats c) + lenZ (frameRecord ic v pad)) /\ packetsTotal st = u64 (packetsTotal (rstats c) + 1) /\
    readTurn ic okView c =
      let '(p, e) := if Seq v =? 0 then rx_control (Data v) (rpath c) else (rx_data (Seq v) (Data v) (rpath c), None) in
      match e with
      | Some e => (mkReader s p st (rfreed c), Some (StopControl e))
      | None => (mkReader s (if idle then rx_idle p else p) st (rfreed c), None)
      end.
Proof using CipherOk0.
  intros [A1 A2 A3 A4] Hs Hp Hv. destruct (read_record ic maxWireDataLen v pad rest (rscan c)) as (s & HR & W1 & C1 & P1 & M1 & L1); auto; [unfold maxWireDataLen; lia|].
  assert (openScanned ic (frameOf (wirePayload ic v)) (Seq v) = inl (Data v)) as HO by (apply openScanned_wire; [done|destruct Hs; unfold maxWireDataLen in *; lia]).
  pose proof (length_wirePayload ic v _) as HL. unfold readTurn. rewrite HR.
  destruct (wirePayload ic v) as [|x pl] eqn:EW; [exfalso; destruct (Data v); [done|cbn in HL; lia]|]. cbn [frameOf] in *. rewrite HO. cbn [okView vCurrent vFEC negb].
  set (ready := BufferedFrameReady s). destruct (count_totals (lastWireSize s) ready (rstats c)) as [E1 E2].
  exists s, (countFrame (lastWireSize s) ready (rstats c)), (negb ready). split_and!.
  - intros Hr. unfold ready, BufferedFrameReady. assert (available s = 0%nat) as ->; [|done]. rewrite Hr in P1. unfold pendingStream in P1. apply app_nil in P1 as [P1 _].
    rewrite available_drop, P1. done.
  - by split.
  - by rewrite E1, L1.
  - exact E2.
  - destruct (Seq v =? 0); [destruct (rx_control (Data v) (rpath c)) as [p [e|]]|]; unfold idleUnless; by destruct ready.
Qed.

Lemma read_beat v pad rest c : atRecord (frameRecord ic v pad ++ rest) c -> sendable ic maxWireDataLen v -> is_u16 (lenZ pad) -> Data v = [] ->
  exists s, atRecord rest (mkReader s (rpath c) (flushRxStats (rstats c)) (rfreed c)) /\
    readTurn ic okView c = (mkReader s (rpath c) (flushRxStats (rstats c)) (rfreed c), None).
Proof using CipherOk0.
  intros [A1 A2 A3 A4] Hs Hp Hv. destruct (read_record ic maxWireDataLen v pad rest (rscan c)) as (s & HR & W1 & C1 & P1 & M1 & L1); auto; [unfold maxWireDataLen; lia|].
  assert (wirePayload ic v = []) as EW by (unfold wirePayload; rewrite Hv; cbn; by rewrite andb_false_r).
  exists s. unfold readTurn. rewrite HR, EW. by split.
Qed.

(** A stream of records is handed on frame by frame, in order. *)
Lemma read_records rs : forall rest c, atRecord (records ic rs ++ rest) c ->
  Forall (fun r => sendable ic maxWireDataLen r.1 /\ is_u16 (lenZ r.2)) rs ->
  exists idles, length idles = length (dataRecs rs) /\
    (rest = [] -> forall r, last rs = Some r -> Data r.1 <> [] -> last idles = Some true) /\
    match feed (zip (dataRecs rs).*1 idles) (rpath c) with
    | (p', None) => exists c', readerRun ic (replicate (length rs) okView) c = (c', None) /\ readSo rs c c' p' /\ atRecord rest c'
    | (p', Some e) => exists c', readerRun ic (replicate (length rs) okView) c = (c', Some (StopControl e)) /\ rpath c' = rx_idle p'
    end.
Proof using CipherOk0.
  induction rs as [|[v pad] rs IH]; intros rest c HA HF.
  { exists []. split_and!; [done|done|]. cbn. exists c. split_and!; [done| |done]. destruct (u64_total (rstats c)). split; auto; by rewrite Z.add_0_r. }
  apply Forall_cons_1 in HF as [[Hs Hp] HF]. unfold records in HA. rewrite fmap_cons in HA. cbn [concat fst snd] in *. fold (records ic rs) in HA. rewrite <- app_assoc in HA.
  cbn [length replicate readerRun]. destruct (decide (Data v = [])) as [Hv|Hv].
  - destruct (read_beat v pad _ c HA Hs Hp Hv) as (s & A1 & ->). destruct (IH _ _ A1 HF) as (idles & I1 & I2 & I3).
    assert (dataRecs ((v, pad) :: rs) = dataRecs rs) as ED by (unfold dataRecs, isFrame; rewrite filter_cons_False; [done|]; cbn; by rewrite Hv).
    rewrite ED. exists idles. split; [done|]. split.
    { intros Hr r Hl Hd. destruct rs; [injection Hl as <-; done|]. by apply (I2 Hr r). }
    cbn [rpath] in I3. destruct (feed _ _) as [p' [e|]]; [done|]. destruct I3 as (c' & R1 & [S1 S2 S3 S4] & R3). exists c'. split; [done|]. split; [|done].
    cbn [rpath rfreed rstats] in *. destruct (flush_totals (rstats c)) as [-> ->] in S3, S4. split; rewrite ?ED; auto.
  - destruct (read_frame v pad _ c HA Hs Hp Hv) as (s & st & idle & F1 & F2 & F3 & F4 & ->).
    assert (dataRecs ((v, pad) :: rs) = (v, pad) :: dataRecs rs) as ED by (unfold dataRecs; rewrite filter_cons_True; [done|]; by apply isFrame_true).
    rewrite ED. set (step := if Seq v =? 0 then _ else _). destruct (match step with (p, None) => true | _ => false end) eqn:Estep.
    + destruct step as [p [|]] eqn:Es; [done|]. destruct (IH rest (mkReader s (if idle then rx_idle p else p) st (rfreed c))) as (idles & I1 & I2 & I3); [by destruct F2|done|].
      exists (idle :: idles). split; [cbn; by rewrite I1|]. split.
      { intros Hr r Hl Hd. destruct rs as [|r' rs]; [destruct idles; [|done]; cbn; by rewrite F1|]. specialize (I2 Hr r Hl Hd). by destruct idles. }
      cbn [fmap list_fmap zip_with feed fst]. fold step. rewrite Es. cbn [rpath] in I3. destruct (feed _ _) as [p' [e|]]; [done|].
      destruct I3 as (c' & R1 & [S1 S2 S3 S4] & R3). exists c'. split; [done|]. split; [|done]. cbn [rstats rfreed] in *.
      rewrite F3, u64_add_l in S3. rewrite F4, u64_add_l in S4. split; auto.
      * rewrite S3, ED. f_equal. unfold records. rewrite fmap_cons. cbn [concat fst snd]. unfold lenZ. rewrite length_app. lia.
      * rewrite S4, ED. f_equal. unfold lenZ. cbn [length]. lia.
    + destruct step as [p [e|]] eqn:Es; [|done]. exists (idle :: replicate (length (dataRecs rs)) true). split; [cbn; by rewrite length_replicate|]. split.
      { intros Hr r Hl Hd. destruct rs as [|r' rs]; [cbn; by rewrite F1|]. rewrite last_cons_cons in Hl. apply last_Some in Hl as [l El].
        rewrite El, dataRecs_app, length_app. unfold dataRecs at 2. rewrite filter_cons_True by (by apply isFrame_true). cbn [length filter].
        rewrite Nat.add_comm. cbn [Nat.add replicate]. rewrite last_cons_cons. change (true :: replicate ?n true) with (replicate (Datatypes.S n) true).
        rewrite replicate_S_end. by rewrite last_snoc. }
      cbn [fmap list_fmap zip_with feed fst]. fold step. rewrite Es. eexists. split; [done|]. done.
Qed.

(** The stream ends inside a record, or where the next one would begin. *)
Lemma read_cut v pad part missing c : atRecord part c -> part ++ missing = frameRecord ic v pad -> missing <> [] ->
  sendable ic maxWireDataLen v -> is_u16 (lenZ pad) ->
  exists c', readTurn ic okView c = (c', Some (StopRead EOF)) /\ rpath c' = rpath c /\ rstats c' = rstats c /\ rfreed c' = rfreed c.
Proof using CipherOk0.
  intros [A1 A2 A3 A4] HP Hm [Hs Hl] Hp. pose proof (length_wirePayload ic v _) as HL. pose proof (encTagLen_le ic v) as HT.
  assert (lenZ (wirePayload ic v) <= maxWireDataLen) as HW by (unfold lenZ; rewrite HL; lia). unfold maxWireDataLen in HW.
  unfold frameRecord in HP. rewrite <- HL, <- A4 in HP. unfold readTurn, ReadFrame.
  destruct (readLoop_cut (Z.of_nat (length (wirePayload ic v))) (Seq v) (wirePayload ic v) pad missing (Datatypes.S (Datatypes.S (readerSize (rd (rscan c)))))
    eq_refl ltac:(unfold lenZ in *; widths; lia) Hs Hp Hm
    {| rd := rd (rscan c); sbuf := sbuf (rscan c); scap := scap (rscan c); offset := offset (rscan c); maxDataLen := maxDataLen (rscan c); lastWireSize := 0 |}) as [s' HR].
  1-3: done.
  { cbn [maxDataLen]. rewrite A3. exact HW. }
  { cbn [rd]. lia. }
  rewrite HR. by eexists.
Qed.
End Feed.

Lemma readerRun_app {S} `{RxPath S} ic vs1 : forall vs2 c, readerRun ic (vs1 ++ vs2) c =
  let '(c, e) := readerRun ic vs1 c in match e with Some _ => (c, e) | None => readerRun ic vs2 c end.
Proof.
  induction vs1 as [|v vs1 IH]; intros vs2 c; cbn [app readerRun]; [done|]. destruct (readTurn ic v c) as [c' [e|]]; [done|]. apply IH.
Qed.

Lemma start_at {S} chunks (p : S) : clean chunks -> atRecord (concat chunks.*1) (reader0 chunks p).
Proof. intros Hc. split; [unfold scan_wf; cbn; lia|done|done|]. unfold pendingStream. cbn. done. Qed.

(** The records of [rs] that are whole in the first [n] bytes of their stream. *)
Fixpoint wholeRecords (ic : option innerCipher) (n : nat) (rs : list (VPNFrame * bytes)) : list (VPNFrame * bytes) :=
  match rs with
  | [] => []
  | r :: rs => let k := length (frameRecord ic r.1 r.2) in if (k <=? n)%nat then r :: wholeRecords ic (n - k) rs else []
  end.

(** A beginning of a stream of records: its whole records and the beginning of one. *)
Lemma records_prefix ic rs : forall P, P `prefix_of` records ic rs ->
  exists part missing r, wholeRecords ic (length P) rs `prefix_of` rs /\ P = records ic (wholeRecords ic (length P) rs) ++ part /\ missing <> [] /\
    part ++ missing = frameRecord ic r.1 r.2 /\ (r = (mkFrame 0 [], []) \/ r ∈ rs).
Proof.
  induction rs as [|r rs IH]; intros P HP.
  - apply prefix_nil_inv in HP as ->. exists [], (frameRecord ic (mkFrame 0 []) []), (mkFrame 0 [], []). split_and!; [done|done|done|done|by left].
  - unfold records in HP. rewrite fmap_cons in HP. cbn [concat] in HP. fold (records ic rs) in HP. cbn [wholeRecords]. destruct (Nat.leb_spec (length (frameRecord ic r.1 r.2)) (length P)) as [Hl|Hl].
    + destruct HP as [k HP]. assert (P = frameRecord ic r.1 r.2 ++ drop (length (frameRecord ic r.1 r.2)) P) as EP.
      { rewrite <- (take_drop (length (frameRecord ic r.1 r.2)) P) at 1. f_equal. rewrite <- (take_app_le P k) by done. rewrite <- HP. by rewrite take_app_length. }
      rewrite <- length_drop. set (P' := drop _ P) in *. clearbody P'. destruct (IH P') as (part & missing & r' & [k1 H1] & H2 & H3 & H4 & H5).
      { exists k. rewrite EP, <- app_assoc in HP. by apply app_inv_head in HP. }
      exists part, missing, r'. split; [exists k1; cbn [app]; by rewrite <- H1|]. split.
      { rewrite EP at 1. rewrite H2 at 1. unfold records. rewrite fmap_cons. cbn [concat]. by rewrite app_assoc. }
      split_and!; [done|done|]. destruct H5 as [->|H5]; [by left|right; by constructor].
    + exists P, (drop (length P) (frameRecord ic r.1 r.2)), r. split; [apply prefix_nil|]. split; [done|]. split.
      { intros E. apply (f_equal length) in E. rewrite length_drop in E. change (length (@nil Z)) with 0%nat in E. lia. }
      split; [|right; by constructor]. destruct HP as [k HP]. rewrite <- (take_drop (length P) (frameRecord ic r.1 r.2)) at 2. f_equal.
      assert (take (length P) (frameRecord ic r.1 r.2 ++ records ic rs) = P) as E by (rewrite HP; apply take_app_length). rewrite take_app_le in E by lia. done.
Qed.

(** ** Writer and reader together *)

Lemma sendable_beat ic : (tagLen ic <= aeadTagSize)%nat -> sendable ic maxWireDataLen (mkFrame 0 []).
Proof. intros Ht. split; [cbn; widths; lia|]. unfold aeadTagSize, maxWireDataLen in *. cbn [Data length]. lia. Qed.

Lemma wrote_sendable ic bs rs w : (tagLen ic <= aeadTagSize)%nat -> wrote ic bs rs w -> Forall (fun v => sendable ic maxWireDataLen v /\ Data v <> []) (framesOf bs) ->
  Forall (fun r => sendable ic maxWireDataLen r.1 /\ is_u16 (lenZ r.2)) rs.
Proof.
  intros Ht [_ W2 W3 W4 W5 _ _ _] HF. rewrite W5 in HF. apply Forall_app in HF as [HF _]. rewrite Forall_forall in HF. rewrite Forall_forall in W3. rewrite Forall_forall in W4.
  apply Forall_forall. intros r Hr. split; [|by apply W3].
  assert (r.1 ∈ wsent w) as Hi by (rewrite <- W2; by apply list_elem_of_fmap_2). destruct (isFrame r.1) eqn:E.
  - by apply HF, list_elem_of_filter.
  - rewrite (W4 _ Hi E). by apply sendable_beat.
Qed.

Lemma wrote_fs ic bs rs w : wrote ic bs rs w -> (dataRecs rs).*1 = filter (fun v => isFrame v = true) (wsent w).
Proof. intros [_ W2 _ _ _ _ _ _]. by rewrite dataRecs_fst, W2. Qed.

(** The whole stream, read record by record. *)
Lemma stream_read {S : Type} `{RxPath S} ic limit pool evs ps chunks (p : S) :
  CipherOk ic -> (tagLen ic <= aeadTagSize)%nat -> Forall (evOk pool) evs ->
  Forall (fun v => sendable ic maxWireDataLen v /\ Data v <> []) (framesOf (arrived evs)) ->
  let w := writerExec ic limit pool evs (writer0 ps) in
  clean chunks -> concat chunks.*1 = wwire w ->
  let fs := filter (fun v => isFrame v = true) (wsent w) in
  framesOf (arrived evs) = fs ++ framesOf (wqueue w) /\
  exists idles, length idles = length fs /\ (forall v, last (wsent w) = Some v -> Data v <> [] -> last idles = Some true) /\
    forall p', feed (zip fs idles) p = (p', None) ->
    exists c, readerRun ic (replicate (length (wsent w)) okView) (reader0 chunks p) = (c, None) /\
      rpath c = p' /\ rfreed c = [] /\ pendingStream (rscan c) = [] /\
      bytesTotal (rstats c) = wTxBytes w /\ packetsTotal (rstats c) = wTxPackets w.
Proof.
  intros Hok Ht HE HF w Hc HW fs. destruct (wrote_run ic limit pool evs ps HE) as [rs HR]; [by eapply Forall_impl; [exact HF|]; intros v []|]. fold w in HR.
  split; [apply HR|]. pose proof (start_at chunks p Hc) as HA. rewrite HW, (wr_wire _ _ _ _ HR), <- (app_nil_r (records ic rs)) in HA.
  destruct (read_records ic rs [] (reader0 chunks p) HA (wrote_sendable _ _ _ _ Ht HR HF)) as (idles & I1 & I2 & I3).
  assert (length rs = length (wsent w)) as HL by (rewrite <- (wr_sent _ _ _ _ HR); by rewrite length_fmap).
  pose proof (wrote_fs _ _ _ _ HR) as Efs. fold fs in Efs. exists idles. split; [by rewrite I1, <- Efs, length_fmap|]. split.
  { intros v Hl Hv. rewrite <- (wr_sent _ _ _ _ HR), fmap_last in Hl. destruct (last rs) as [r|] eqn:El; [|done]. injection Hl as <-. by apply (I2 eq_refl r). }
  intros p' Hfeed. rewrite Efs in I3. cbn [rpath reader0] in I3. rewrite Hfeed, HL in I3. destruct I3 as (c & R1 & [S1 S2 S3 S4] & [_ _ _ R4]).
  exists c. cbn [reader0 rfreed rstats bytesTotal packetsTotal] in *. rewrite S3, S4, (wr_bytes _ _ _ _ HR), (wr_packets _ _ _ _ HR). done.
Qed.

(** *** Into the queue of the worker *)

Section Producer.
Variables (pid : nat) (fec : option nat) (g : Z).

(** The producer of the connection holds [left], and the worker is open. *)
Record producing (left : list VPNFrame) (s : rxSys) : Prop := {
  pr_prod : sprods s !! pid = Some (mkProducer fec g (match left with [] => None | _ => Some left end));
  pr_cap : (length left < rxSessionBatchCap)%nat;
  pr_open : sclosing s = false
}.

Definition queued (bs : list (list VPNFrame)) : list rxSessionWork := (fun b => WBatch (mkRxBatch b fec g)) <$> bs.

(** [s'] has queued the batches [bs] and holds [left']; before, it held [left] and was
    given [fs]. *)
Record passedOn (fs left : list VPNFrame) (s : rxSys) (bs : list (list VPNFrame)) (left' : list VPNFrame) (s' : rxSys) : Prop := {
  po_prod : producing left' s';
  po_frames : left ++ fs = concat bs ++ left';
  po_size : Forall (fun b => (0 < length b <= rxSessionBatchCap)%nat) bs;
  po_wait : swaiting s' = swaiting s ++ queued bs;
  po_queue : squeue s' = squeue s;
  po_gen : sgeneration s' = sgeneration s
}.

Lemma passed_refl left s : producing left s -> passedOn [] left s [] left s.
Proof using. intros HP. split; auto; by rewrite app_nil_r. Qed.

Lemma passed_trans f1 f2 left s b1 l1 s1 b2 l2 s2 : passedOn f1 left s b1 l1 s1 -> passedOn f2 l1 s1 b2 l2 s2 -> passedOn (f1 ++ f2) left s (b1 ++ b2) l2 s2.
Proof using.
  intros [A1 A2 A3 A4 A5 A6] [B1 B2 B3 B4 B5 B6]. split; [done| | | |congruence|congruence].
  - by rewrite app_assoc, A2, <- app_assoc, B2, concat_app, app_assoc.
  - by apply Forall_app.
  - unfold queued. by rewrite B4, A4, fmap_app, app_assoc.
Qed.

Lemma flush_passes left s : producing left s -> exists bs, passedOn [] left s bs [] (Flush pid s).
Proof using.
  intros HP. pose proof HP as [P1 P2 P3]. destruct left as [|v left].
  { exists []. unfold Flush. rewrite P1. by apply passed_refl. }
  exists [v :: left]. unfold Flush. rewrite P1. unfold enqueue. cbn [set_prods sclosing]. rewrite P3. split; cbn [set_chan set_prods sprods sclosing swaiting squeue sgeneration]; auto.
  - split; [|cbn; unfold rxSessionBatchCap; lia|done]. cbn [set_chan set_prods sprods]. by rewrite lookup_insert_eq.
  - cbn [concat]. by rewrite !app_nil_r.
  - apply Forall_singleton. cbn [length] in *. lia.
Qed.

Lemma push_passes left s q f : producing left s -> exists bs left', passedOn [mkFrame q f] left s bs left' (Push pid q (Some f) s).
Proof using.
  intros [P1 P2 P3]. unfold Push. rewrite P1. cbn [pbatch pfec pgeneration]. set (frames := default [] _ ++ _).
  assert (frames = left ++ [mkFrame q f]) as Ef by (unfold frames; by destruct left). set (s1 := set_prods _ _ s).
  assert (sprods s1 !! pid = Some (mkProducer fec g (Some frames))) as L1 by (unfold s1; cbn [set_prods sprods]; by rewrite lookup_insert_eq).
  assert (length frames = Datatypes.S (length left)) as EL by (rewrite Ef, length_app; cbn; lia). destruct (length frames =? rxSessionBatchCap)%nat eqn:E.
  - exists [frames], []. unfold Flush. rewrite L1. destruct frames as [|v fr] eqn:EF; [done|]. unfold enqueue. cbn [set_prods sclosing s1]. rewrite P3. apply Nat.eqb_eq in E.
    split; cbn [set_chan set_prods sprods sclosing swaiting squeue sgeneration s1]; auto.
    + split; [|cbn; unfold rxSessionBatchCap; lia|done]. cbn [set_chan set_prods sprods]. by rewrite lookup_insert_eq.
    + cbn [concat]. by rewrite !app_nil_r, <- Ef.
    + apply Forall_singleton. cbn [length] in *. lia.
  - exists [], frames. apply Nat.eqb_neq in E. split; cbn [s1 set_prods swaiting squeue sgeneration]; auto; [|by rewrite app_nil_r].
    split; [rewrite L1; by destruct frames|unfold rxSessionBatchCap in *; lia|done].
Qed.

Lemma idle_passes (i : bool) left s : producing left s -> exists bs left', passedOn [] left s bs left' (if i then Flush pid s else s) /\ (i = true -> left' = []).
Proof using.
  intros HP. destruct i; [|exists [], left; split; [by apply passed_refl|done]]. destruct (flush_passes left s HP) as [bs Hb]. by exists bs, [].
Qed.

Lemma feed_passes fs : forall idles left s, length idles = length fs -> producing left s ->
  exists bs left' s', feed (H := producerPath pid) (zip fs idles) s = (s', None) /\ passedOn fs left s bs left' s' /\ (last idles = Some true -> left' = []).
Proof using.
  induction fs as [|v fs IH]; intros idles left s HL HP; destruct idles as [|i idles]; try done.
  { exists [], left, s. split_and!; [done|by apply passed_refl|done]. }
  cbn [zip_with feed]. change (@rx_control rxSys (producerPath pid)) with (fun (f : bytes) (s : rxSys) => (Push pid 0 (Some f) s, @None rxErr)).
  change (@rx_data rxSys (producerPath pid)) with (fun (q : Z) (f : bytes) (s : rxSys) => Push pid q (Some f) s). change (@rx_idle rxSys (producerPath pid)) with (Flush pid).
  assert ((if Seq v =? 0 then (Push pid 0 (Some (Data v)) s, None) else (Push pid (Seq v) (Some (Data v)) s, None)) = (Push pid (Seq v) (Some (Data v)) s, @None rxErr)) as E.
  { destruct (Z.eqb_spec (Seq v) 0) as [->|]; done. }
  cbv beta. rewrite E. destruct (push_passes left s (Seq v) (Data v) HP) as (b1 & l1 & H1). destruct (idle_passes i l1 _ (po_prod _ _ _ _ _ _ H1)) as (b2 & l2 & H2 & H3).
  destruct (IH idles l2 _ ltac:(by injection HL) (po_prod _ _ _ _ _ _ H2)) as (b3 & l3 & s3 & F1 & F2 & F3). exists (b1 ++ b2 ++ b3), l3, s3. split; [done|]. split.
  - pose proof (passed_trans _ _ _ _ _ _ _ _ _ _ H1 (passed_trans _ _ _ _ _ _ _ _ _ _ H2 F2)) as HT. cbn [app] in HT. by destruct v.
  - intros Hl. destruct idles as [|i2 idles]; [|by apply F3]. injection Hl as ->. destruct fs; [|done]. injection F1 as <-. specialize (H3 eq_refl). subst l2.
    destruct F2 as [_ F2 _ _ _ _]. cbn in F2. symmetry in F2. by apply app_nil in F2 as [_ ->].
Qed.
End Producer.

(** C3: A connection loses, alters and reorders nothing.  The batches that a send port
    puts on a connection, sealed, framed, padded, mixed with heartbeats and written in
    whatever turns, reach the peer's receive path frame by frame in the order of the
    channel, however the transport cuts the stream; the receive path is told that it is
    idle after the last frame, unless a heartbeat follows it; and the byte and packet
    counters of the two ends agree. *)
Theorem connection_lossless {S : Type} `{RxPath S} (ic : option innerCipher) (limit : Z) (pool : bytes) (evs : list writerEv) (ps : padStats)
    (chunks : reader) (p : S) :
  CipherOk ic -> (tagLen ic <= aeadTagSize)%nat -> Forall (evOk pool) evs ->
  Forall (fun v => sendable ic maxWireDataLen v /\ Data v <> []) (framesOf (arrived evs)) ->
  let w := writerExec ic limit pool evs (writer0 ps) in
  clean chunks -> concat chunks.*1 = wwire w ->
  let fs := filter (fun v => isFrame v = true) (wsent w) in
  framesOf (arrived evs) = fs ++ framesOf (wqueue w) /\
  exists idles, length idles = length fs /\ (forall v, last (wsent w) = Some v -> Data v <> [] -> last idles = Some true) /\
    forall p', feed (zip fs idles) p = (p', None) ->
    exists c, readerRun ic (replicate (length (wsent w)) okView) (reader0 chunks p) = (c, None) /\
      rpath c = p' /\ rfreed c = [] /\ pendingStream (rscan c) = [] /\
      bytesTotal (rstats c) = wTxBytes w /\ packetsTotal (rstats c) = wTxPackets w.
Proof. apply stream_read. Qed.

(** From channel to worker.  With a receive worker on the other side, what a send
    port puts on the connection and the writer takes ends up, in order, in batches of
    at most 16 in the worker's queue, under the decoder and the generation of the
    connection; if the last record is not a heartbeat, nothing stays behind in the
    connection's partial batch. *)
Theorem connection_to_worker (pid : nat) (fec : option nat) (g : Z) (ic : option innerCipher) (limit : Z) (pool : bytes) (evs : list writerEv)
    (ps : padStats) (chunks : reader) (s : rxSys) :
  CipherOk ic -> (tagLen ic <= aeadTagSize)%nat -> Forall (evOk pool) evs ->
  Forall (fun v => sendable ic maxWireDataLen v /\ Data v <> []) (framesOf (arrived evs)) ->
  let w := writerExec ic limit pool evs (writer0 ps) in
  clean chunks -> concat chunks.*1 = wwire w -> producing pid fec g [] s ->
  exists c bs left, readerRun (H := producerPath pid) ic (replicate (length (wsent w)) okView) (reader0 chunks s) = (c, None) /\
    swaiting (rpath c) = swaiting s ++ queued fec g bs /\ Forall (fun b => (0 < length b <= rxSessionBatchCap)%nat) bs /\
    framesOf (arrived evs) = concat bs ++ left ++ framesOf (wqueue w) /\
    (forall v, last (wsent w) = Some v -> Data v <> [] -> left = []).
Proof.
  intros Hok Ht HE HF w Hc HW HP. destruct (stream_read (H := producerPath pid) ic limit pool evs ps chunks s Hok Ht HE HF Hc HW) as (E & idles & I1 & I2 & I3).
  fold w in E, I2, I3. set (fs := filter _ _) in *. destruct (feed_passes pid fec g fs idles [] s I1 HP) as (bs & left & s' & F1 & F2 & F3).
  destruct (I3 s' F1) as (c & C1 & C2 & _). exists c, bs, left. rewrite C2, E. pose proof F2 as [_ P2 P3 P4 _ _]. cbn [app] in P2. rewrite P2, app_assoc.
  split_and!; auto. intros v Hv Hd. apply F3, (I2 v Hv Hd).
Qed.

(** C4: A connection that dies delivers exactly what arrived whole.  The wire is a
    sequence of records, one per frame or heartbeat sent.  Wherever the stream is cut,
    inside a record, between records, or not at all, the reader hands on the frames of
    all the records that are whole in the bytes that arrived, in order and no others,
    reports the end of the stream, and tells the receive path that it is idle, so that
    nothing stays in a partial batch.  (When the receive path refuses a control frame,
    the connection stops there instead.) *)
Theorem connection_cut {S : Type} `{RxPath S} (ic : option innerCipher) (limit : Z) (pool : bytes) (evs : list writerEv) (ps : padStats)
    (chunks : reader) (p : S) :
  CipherOk ic -> (tagLen ic <= aeadTagSize)%nat -> Forall (evOk pool) evs -> Forall (fun v => sendable ic maxWireDataLen v /\ Data v <> []) (framesOf (arrived evs)) ->
  let w := writerExec ic limit pool evs (writer0 ps) in
  clean chunks -> concat chunks.*1 `prefix_of` wwire w ->
  exists rs, rs.*1 = wsent w /\ records ic rs = wwire w /\
    let fs := filter (fun v => isFrame v = true) (wholeRecords ic (length (concat chunks.*1)) rs).*1 in
    fs `prefix_of` framesOf (arrived evs) /\
    exists idles, length idles = length fs /\
      forall p' n, (length (wsent w) < n)%nat -> feed (zip fs idles) p = (p', None) ->
      exists c, readerRun ic (replicate n okView) (reader0 chunks p) = (c, Some (StopRead EOF)) /\ rpath c = rx_idle p' /\ rfreed c = [].
Proof.
  intros Hok Ht HE HF w Hc HW. destruct (wrote_run ic limit pool evs ps HE) as [rs HR]; [by eapply Forall_impl; [exact HF|]; intros v []|]. fold w in HR.
  pose proof (wrote_sendable _ _ _ _ Ht HR HF) as Hrs. exists rs. split; [apply HR|]. split; [symmetry; apply HR|].
  rewrite (wr_wire _ _ _ _ HR) in HW. destruct (records_prefix ic rs _ HW) as (part & missing & r & Hpre & EP & Hm & Hpart & Hr).
  rewrite <- dataRecs_fst. set (rs1 := wholeRecords _ _ rs) in *. clearbody rs1. destruct Hpre as [rs2 ->].
  pose proof (start_at chunks p Hc) as HA. rewrite EP in HA. assert (sendable ic maxWireDataLen r.1 /\ is_u16 (lenZ r.2)) as [Hr1 Hr2].
  { destruct Hr as [->|Hr]; [split; [by apply sendable_beat|cbn; widths; unfold lenZ; cbn; lia]|]. rewrite Forall_forall in Hrs. by apply Hrs. }
  pose proof Hrs as Hrs'. apply Forall_app in Hrs' as [Hrs1 _]. destruct (read_records ic rs1 part (reader0 chunks p) HA Hrs1) as (idles & I1 & _ & I3).
  split. { rewrite (wr_frames _ _ _ _ HR), <- (wrote_fs _ _ _ _ HR), dataRecs_app, fmap_app, <- app_assoc. by eexists. }
  exists idles. split; [by rewrite length_fmap|]. intros p' n Hn Hfeed. cbn [rpath reader0] in I3. rewrite Hfeed in I3. destruct I3 as (c & R1 & [S1 S2 _ _] & RA).
  destruct (read_cut ic r.1 r.2 part missing c RA Hpart Hm Hr1 Hr2) as (c' & T1 & T2 & T3 & T4).
  assert (length rs1 < n)%nat as Hn1 by (rewrite <- (wr_sent _ _ _ _ HR), length_fmap, length_app in Hn; lia).
  replace n with (length rs1 + Datatypes.S (n - length rs1 - 1))%nat by lia. rewrite replicate_add, readerRun_app, R1. cbn [replicate readerRun]. rewrite T1.
  eexists. split; [done|]. cbn [readEnd rpath rfreed]. rewrite T2, T4, S1, S2. done.
Qed.

(** ** What the loops do not do *)

Definition demoPS : padStats := mkPadStats PadBucket 0 0 0.
Definition demoPool2 : bytes := zeros 700.
Definition demoTurn (fs : list VPNFrame) : writerEv := WrTurn [mkOwned fs (vpnFrameBatchBytes fs)] 3 [] None.
Definition demoWriter (evs : list writerEv) : connWriter := writerExec (Some demoCipher) 1400 demoPool2 evs (writer0 demoPS).

(** The worker with the producer of one connection. *)
Definition demoRx : rxSys := NewProducer 0 None (newRXSessionWorker true ∅).

(** A frame that is read together with the heartbeat after it stays in the partial batch
    of its connection: the loop flushes after a frame when nothing else is buffered, and
    not after a heartbeat. *)
Lemma heartbeat_strands_frame :
  let w := demoWriter [demoTurn [mkFrame 1 [10; 20; 30]]; WrKeepAlive 0 0 None] in
  let '(c, e) := readerRun (H := producerPath 0) (Some demoCipher) (replicate 2 okView) (reader0 [(wwire w, None)] demoRx) in
  e = None /\ pendingStream (rscan c) = [] /\ swaiting (rpath c) = [] /\
  sprods (rpath c) !! 0%nat = Some (mkProducer None 1 (Some [mkFrame 1 [10; 20; 30]])).
Proof. vm_compute. done. Qed.

(** The totals by kind leave out the padding of the tail: here
    fifty records of 226 bytes make 11,300 bytes of data in a longer write. *)
Lemma written_excludes_padding :
  let w := demoWriter [demoTurn (replicate 50 (mkFrame 1 (zeros 200)))] in
  wTxBytes w = lenZ (wwire w) /\ DataWireBytes (wwritten w) = 11300 /\ DataWireBytes (wwritten w) < wTxBytes w.
Proof. vm_compute. done. Qed.

(** ** Witnesses *)

Definition demoEvs : list writerEv :=
  [demoTurn [mkFrame 1 [10; 20; 30]; mkFrame 2 [7]]; WrKeepAlive 0 5 None; demoTurn [mkFrame 0 [1; 2]; mkFrame 3 [9]]].
Definition demoStream : bytes := wwire (demoWriter demoEvs).
Definition cutAt (n m : nat) (b : bytes) : reader := [(take n b, None); (take m (drop n b), None); (drop (n + m) b, None)].

Lemma demo_frames_ok : Forall (fun v => sendable (Some demoCipher) maxWireDataLen v /\ Data v <> []) (framesOf (arrived demoEvs)).
Proof.
  change (framesOf (arrived demoEvs)) with [mkFrame 1 [10; 20; 30]; mkFrame 2 [7]; mkFrame 0 [1; 2]; mkFrame 3 [9]].
  repeat (apply Forall_cons; split; [split; [split; [split; vm_compute; congruence|vm_compute; congruence]|done]|]). by apply Forall_nil.
Qed.

Lemma demo_evs_ok : Forall (evOk demoPool2) demoEvs.
Proof. by repeat constructor. Qed.

Lemma cutAt_clean n m b : clean (cutAt n m b) /\ concat (cutAt n m b).*1 = b.
Proof. split; [by repeat constructor|]. cbn. by rewrite app_nil_r, <- drop_drop, !take_drop. Qed.

Lemma connection_lossless_witness : exists idles : list bool, length idles = 4%nat /\ last idles = Some true.
Proof.
  destruct (connection_lossless (H := producerPath 0) (Some demoCipher) 1400 demoPool2 demoEvs demoPS (cutAt 5 40 demoStream) demoRx) as (_ & idles & I1 & I2 & _).
  - apply _.
  - apply (bool_decide_unpack _); vm_compute; exact I.
  - exact demo_evs_ok.
  - exact demo_frames_ok.
  - apply cutAt_clean.
  - apply cutAt_clean.
  - exists idles. split; [rewrite I1; vm_compute; reflexivity|]. apply (I2 (mkFrame 3 [9])); [vm_compute; reflexivity|done].
Defined.

Lemma connection_to_worker_witness : exists (bs : list (list VPNFrame)), concat bs = [mkFrame 1 [10; 20; 30]; mkFrame 2 [7]; mkFrame 0 [1; 2]; mkFrame 3 [9]].
Proof.
  destruct (connection_to_worker 0 None 1 (Some demoCipher) 1400 demoPool2 demoEvs demoPS (cutAt 5 40 demoStream) demoRx) as (c & bs & left & _ & _ & _ & E & HL).
  - apply _.
  - apply (bool_decide_unpack _); vm_compute; exact I.
  - exact demo_evs_ok.
  - exact demo_frames_ok.
  - apply cutAt_clean.
  - apply cutAt_clean.
  - split; [reflexivity|apply (bool_decide_unpack _); vm_compute; exact I|reflexivity].
  - exists bs. rewrite (HL (mkFrame 3 [9])) in E; [|vm_compute; reflexivity|done].
    assert (wqueue (writerExec (Some demoCipher) 1400 demoPool2 demoEvs (writer0 demoPS)) = []) as Eq by (vm_compute; reflexivity). rewrite Eq in E. cbn [fmap list_fmap concat app] in E.
    rewrite app_nil_r in E. rewrite <- E. reflexivity.
Defined.

Lemma connection_cut_witness : exists rs, rs.*1 = wsent (demoWriter demoEvs) /\
  (filter (fun v => isFrame v = true) (wholeRecords (Some demoCipher) 200 rs).*1) `prefix_of` framesOf (arrived demoEvs).
Proof.
  destruct (connection_cut (H := producerPath 0) (Some demoCipher) 1400 demoPool2 demoEvs demoPS [(take 200 demoStream, None)] demoRx) as (rs & H1 & _ & H2 & _).
  - apply _.
  - apply (bool_decide_unpack _); vm_compute; exact I.
  - exact demo_evs_ok.
  - exact demo_frames_ok.
  - by repeat constructor.
  - exists (drop 200 demoStream). cbn [fmap list_fmap concat fst]. rewrite app_nil_r. symmetry. apply take_drop.
  - exists rs. split; [exact H1|]. assert (length (concat [(take 200 demoStream, @None readErr)].*1) = 200%nat) as E by (vm_compute; reflexivity). rewrite E in H2. exact H2.
Defined.
