(* ===== verification/Nonce.v ===== *)
(** * Keys and numbers together (client.go, AsyncPort with the connections' writers)

    The send port numbers the frames and its connections' writers encrypt them, each
    with the cipher that its own handshake installed ([icTx], derived from the salt of
    that answer).  A pair of a salt and a number is a nonce under one key, so the pairs
    that the writers seal must never repeat.  Here the port of TxPort.v runs with the
    salt of every registered connection, and the pairs are collected as the writers
    take batches from their channels. *)

From stdpp Require Import base tactics list numbers list_numbers sorting gmap.
From S2P Require Import Prelude Aead Frame FecControl FecEncoder Scheduler TxPort.
#[local] Open Scope Z_scope.

(** The numbers of a batch that the data cipher seals: control records (number 0) and
    empty payloads are not encrypted with it. *)
Definition sealsFrame (vf : VPNFrame) : bool := negb (Seq vf =? 0) && negb (length (Data vf) =? 0)%nat.
Definition sealedSeqs (b : VPNFrameBatch) : list Z := Seq <$> filter (fun vf => sealsFrame vf = true) (Frames b).

Record nonceSys := mkNonce {
  ntx : txSys;
  salts : gmap nat bytes;          (* the salt of the connection behind a backend *)
  epochSalt : bytes;               (* the salt that came with the last reset *)
  oldSalts : list bytes;           (* those of earlier resets *)
  nsealed : list (bytes * Z)        (* what the writers have sealed *)
}.

(** One step: a step of the port; the reset of a new session together with its salt;
    the registration of a connection whose handshake brought a salt; a writer that
    takes a batch and encrypts it. *)
Inductive nonceOp :=
| NPort (op : txOp)
| NSession (salt : bytes) (k : Z) (ic : option innerCipher)
| NConnect (salt : bytes) (capacity rtt : Z)
| NWriter (id : nat).

Definition writerSeals (id : nat) (s : nonceSys) : list (bytes * Z) :=
  match salts s !! id, findB id (backends (port (ntx s))) with
  | Some salt, Some b => match bqueue b with batch :: _ => pair salt <$> sealedSeqs batch | [] => [] end
  | _, _ => []
  end.

Definition nonceStep (f : Z -> Z -> Z) (s : nonceSys) (op : nonceOp) : nonceSys :=
  match op with
  | NPort op => mkNonce (txStep f (ntx s) op) (salts s) (epochSalt s) (oldSalts s) (nsealed s)
  | NSession salt k ic =>
    if match pc (ntx s) with RIdle => negb (pclosed (port (ntx s))) | _ => false end
    then mkNonce (runReset k ic (ntx s)) (salts s) salt (epochSalt s :: oldSalts s) (nsealed s) else s
  | NConnect salt c rtt =>
    mkNonce (register c rtt (ntx s)) (if unlocked (pc (ntx s)) then <[nextID (ntx s) := salt]> (salts s) else salts s) (epochSalt s) (oldSalts s) (nsealed s)
  | NWriter id => mkNonce (writerTake id (ntx s)) (salts s) (epochSalt s) (oldSalts s) (nsealed s ++ writerSeals id s)
  end.
Definition nonceExec (f : Z -> Z -> Z) (ops : list nonceOp) (s : nonceSys) : nonceSys := fold_left (nonceStep f) ops s.

(** The start of a session: no connection yet, the salt of the first answer. *)
Definition nonce0 (salt : bytes) : nonceSys := mkNonce tx0 ∅ salt [] [].

(** The steps that the port itself may take between those that carry a salt. *)
Definition plainOp (op : txOp) : bool := match op with TReset _ _ | TRegister _ _ | TWriterTake _ => false | _ => true end.

(** What keeps a key with its numbers: the numbering restarts only when no connection
    of the previous salt is registered and with a salt never used before, and a
    connection that joins carries the salt of the running session. *)
Definition disciplined (s : nonceSys) (op : nonceOp) : bool :=
  match op with
  | NPort op => plainOp op
  | NSession salt _ _ => bool_decide (backends (port (ntx s)) = []) && bool_decide (salt ∉ epochSalt s :: oldSalts s)
  | NConnect salt _ _ => bool_decide (salt = epochSalt s)
  | NWriter _ => true
  end.
Fixpoint disciplinedRun (f : Z -> Z -> Z) (s : nonceSys) (ops : list nonceOp) : bool :=
  match ops with [] => true | op :: ops => disciplined s op && disciplinedRun f (nonceStep f s op) ops end.

(** ** What a step does to the queues and to the log *)

Definition batchSeqs (b : VPNFrameBatch) : list Z := dataSeqs (Frames b).
Definition queuedSeqs (s : txSys) : list Z := queuesOf batchSeqs (backends (port s)).
Definition loggedSeqs (s : txSys) : list Z := dataSeqs (logFrames (elog s)).

Lemma sealed_sub b : sealedSeqs b ⊆+ batchSeqs b.
Proof.
  unfold sealedSeqs, batchSeqs, dataSeqs. apply sublist_submseteq. induction (Frames b) as [|vf fs IH]; [constructor|].
  rewrite fmap_cons, !filter_cons. assert (sealsFrame vf = true -> Seq vf <> 0) as Hs by (unfold sealsFrame; destruct (Z.eqb_spec (Seq vf) 0); done).
  destruct (decide (sealsFrame vf = true)) as [E|E], (decide (Seq vf <> 0)) as [E'|E']; cbn; try (by constructor); [|done]. by destruct E'; apply Hs.
Qed.

Definition idsOf (s : txSys) : list nat := bid <$> backends (port s).

(** The step leaves the log alone, queues nothing new and registers nothing. *)
Definition quiet (s s' : txSys) : Prop := loggedSeqs s' = loggedSeqs s /\ queuedSeqs s' ⊆+ queuedSeqs s /\ idsOf s' ⊆ idsOf s.

Lemma quiet_same s s' : elog s' = elog s -> backends (port s') = backends (port s) -> quiet s s'.
Proof. intros E1 E2. unfold quiet, loggedSeqs, queuedSeqs, idsOf. by rewrite E1, E2. Qed.

(** The step appends what it queues to the log. *)
Definition grows (s s' : txSys) : Prop :=
  exists new, loggedSeqs s' = loggedSeqs s ++ new /\ queuedSeqs s' ⊆+ queuedSeqs s ++ new /\ idsOf s' ⊆ idsOf s.

Lemma quiet_grows s s' : quiet s s' -> grows s s'.
Proof. intros (E & H & Hi). exists []. by rewrite !app_nil_r. Qed.
#[local] Hint Resolve quiet_grows quiet_same : nonce.

Lemma trySend_queue enc batch b : let '(b', r, _) := trySend enc batch b in
  concat (batchSeqs <$> bqueue b') = concat (batchSeqs <$> bqueue b) ++ match r with Some _ => batchSeqs batch | None => [] end.
Proof.
  pose proof (trySend_spec enc batch b) as HS. destruct (trySend enc batch b) as [[b' r] fence] eqn:E. destruct HS as (_ & _ & HS). destruct r as [out|].
  - destruct HS as (_ & -> & _). rewrite fmap_app, concat_app. cbn. rewrite app_nil_r. f_equal. apply (dataSeqs_sent _ _ _ _ _ _ E).
  - destruct HS as [_ ->]. by rewrite app_nil_r.
Qed.

Lemma tryIDs_queue enc batch ids bs : NoDup (bid <$> bs) ->
  let '(bs', r, _, _) := tryIDs enc batch ids bs in
  queuesOf batchSeqs bs' ≡ₚ queuesOf batchSeqs bs ++ match r with Some _ => batchSeqs batch | None => [] end.
Proof.
  revert bs. induction ids as [|i ids IH]; intros bs HN; cbn [tryIDs]; [by rewrite app_nil_r|].
  destruct (findB i bs) as [b|] eqn:Ef; [|by apply IH]. destruct (findB_elem _ _ _ Ef) as [_ Ei].
  pose proof (trySend_queue enc batch b) as Hq. pose proof (trySend_spec enc batch b) as Hs. destruct (trySend enc batch b) as [[b' r] fence].
  destruct Hs as (Hid & _ & _). pose proof (queuesOf_updB batchSeqs i b b' bs HN Ef) as HQ. rewrite Hq in HQ. destruct r as [out|].
  - apply (Permutation_app_inv_r (concat (batchSeqs <$> bqueue b))). rewrite HQ. solve_Permutation.
  - rewrite app_nil_r in HQ. apply Permutation_app_inv_r in HQ. specialize (IH (updB i b' bs)).
    destruct (tryIDs enc batch ids (updB i b' bs)) as [[[bs' r] mk] back]. rewrite updB_ids in IH by congruence. rewrite (IH HN). by rewrite HQ.
Qed.

Lemma try_grows s : tx_ok s -> grows s (runTry s).
Proof.
  intros [HI _]. unfold runTry. destruct (pc s) as [| | | | |batch best pars tried| | ] eqn:Ep; auto with nonce.
  pose proof (tryIDs_queue (encoder (port s)) batch (match best with Some i => i :: filter (fun j => Some j <> best) (bid <$> backends (port s)) | None => filter (fun j => Some j <> best) (bid <$> backends (port s)) end) (backends (port s)) (io_nodup _ HI)) as HQ.
  pose proof (tryAll_outcome (encoder (port s)) batch best (backends (port s)) (io_nodup _ HI)) as HT.
  pose proof (tryAll_spec (encoder (port s)) batch best (backends (port s)) (io_nodup _ HI)) as HB. unfold tryAll in *.
  destruct (tryIDs _ _ _ _) as [[[bs r] mk] back]. destruct HB as [HB _]. destruct r as [[i out]|].
  - destruct HT as (bs1 & b & b' & fence & _ & _ & HT & _). apply dataSeqs_sent in HT. exists (batchSeqs batch). unfold loggedSeqs, queuedSeqs, idsOf. txs. split_and!.
    + rewrite logFrames_snoc, dataSeqs_app. cbn [qbatch]. by rewrite HT.
    + by rewrite HQ.
    + by rewrite HB.
  - apply quiet_grows. unfold quiet, queuedSeqs, idsOf. txs. by rewrite HQ, app_nil_r, HB.
Qed.

Lemma parity_grows s : tx_ok s -> grows s (runParity s).
Proof.
  intros [HI _]. unfold runParity. destruct (pc s) as [| | | | | |best [|par pars]| ] eqn:Ep; auto with nonce.
  destruct (lenZ (backends (port s)) <? 2); [auto with nonce|]. destruct (pickParityBackend _ _ _) as [target next]. txs.
  destruct (target ≫= _) as [b|] eqn:Ef.
  - apply bind_Some in Ef as (i & _ & Ef). destruct (findB_elem _ _ _ Ef) as [_ <-].
    pose proof (sendOwnedFrameTo_spec (mkFrame 0 par) b) as HS. destruct (sendOwnedFrameTo _ b) as [b' r]. destruct HS as (Hb & _ & _ & HS).
    assert (bid <$> updB (bid b) b' (backends (port s)) = idsOf s) as HB by (by apply updB_ids).
    apply quiet_grows. pose proof (queuesOf_updB batchSeqs (bid b) b b' _ (io_nodup _ HI) Ef) as HQ. destruct r as [out|].
    + destruct HS as (_ & HS & ->). rewrite HS, fmap_app, concat_app in HQ. cbn in HQ. rewrite app_nil_r in HQ. apply Permutation_app_inv_r in HQ.
      unfold quiet, loggedSeqs, queuedSeqs, idsOf. txs. rewrite HB. split_and!; [|by rewrite HQ|done]. rewrite logFrames_snoc, dataSeqs_app. cbn. by rewrite app_nil_r.
    + destruct HS as [_ HS]. rewrite HS in HQ. apply Permutation_app_inv_r in HQ. set (p' := set_backends _ _ _ _).
      destruct (dropN_fields 1 p') as (_ & E2 & _). unfold quiet, queuedSeqs, idsOf. txs. rewrite E2. unfold p'. txs. by rewrite HQ, HB.
  - apply quiet_grows, quiet_same; txs; [done|]. set (p' := set_parity _ _ _ _). by destruct (dropN_fields 1 p') as (_ & -> & _).
Qed.

Lemma dispatch_grows f now s : grows s (dispatchOwnedBatch f now s).
Proof.
  apply quiet_grows. unfold dispatchOwnedBatch. destruct (pc s) as [| | | |batch| | | ] eqn:Ep; auto with nonce.
  destruct (backends (port s)) as [|b0 bs0] eqn:Eb.
  - apply quiet_same; [done|]. txs. by destruct (dropN_fields (lenZ (Frames batch)) (port s)) as (_ & -> & _).
  - rewrite <- Eb. destruct (pressure_fields f now (Bytes batch) (port s)) as (_ & E2 & _). destruct (schedulerPressureFor f now (Bytes batch) (port s)) as [p pr].
    cbn [fst] in *. cbn [backends set_encoder]. set (r := pickAdaptiveBackend _ _ _ _ _ _).
    pose proof (pick_frame (backends p) pr (inputRateBytesPerSec p) (Bytes batch) (activePaths p) (preferred p)) as HF.
    change (pickAdaptiveBackend _ _ _ _ _ _) with r in HF. clearbody r. cbn [encoder set_backends]. rewrite E2 in HF.
    destruct (setPhysicalPathCount _ <$> encoder p) as [e|]; cbn [encoder set_encoder]; [destruct (encodeBatch (Frames batch) e) as [e' pars]|];
      (unfold quiet, queuedSeqs, idsOf; txs; rewrite (queuesOf_frame batchSeqs _ _ HF), (fmap_frame_ids _ _ HF); done).
Qed.

Lemma write_quiet x s : quiet s (WriteOwnedFrame x s).
Proof.
  unfold WriteOwnedFrame. cbn [port account]. destruct (pclosed _); [by apply quiet_same|].
  set (p2 := if 0 <? lenZ x then _ else _). assert (backends p2 = backends (port s)) as E by (unfold p2, noteInputQueued; by destruct (0 <? lenZ x)).
  clearbody p2. destruct (_ <? _); [by apply quiet_same|]. apply quiet_same; [done|]. txs.
  destruct (dequeue_fields (lenZ x) p2) as (_ & E2 & _). destruct (dropN_fields 1 (noteInputDequeued (lenZ x) p2)) as (_ & -> & _). congruence.
Qed.

Lemma input_quiet s : quiet s (runTake s) /\ quiet s (runWait s) /\ quiet s (runGather s).
Proof.
  split_and!.
  - unfold runTake. destruct (pc s); auto with nonce. destruct (pch (port s)) as [|x ch]; [auto with nonce|].
    set (p0 := set_input ch _ _ (port s)). destruct (dequeue_fields (lenZ x) p0) as (_ & E & _). destruct (length x =? 0)%nat; apply quiet_same; txs; done.
  - unfold runWait. destruct (pc s); auto with nonce. destruct (waitForBackendSlot (port s)); [| |auto with nonce].
    + apply quiet_same; [done|]. txs. by destruct (dropN_fields 1 (port s)) as (_ & -> & _).
    + destruct (nextSeq_fields (port s)) as (_ & E & _). destruct (nextSeq (port s)) as [[p q] h]. cbn in E. destruct q; apply quiet_same; txs; rewrite ?(proj1 (proj2 (dropN_fields 1 p))); congruence.
  - unfold runGather. destruct (pc s) as [| | |batch [|n]| | | | ]; auto with nonce. destruct (MaxBatchBytes <=? Bytes batch); [by apply quiet_same|].
    destruct (pch (port s)) as [|x ch]; [auto with nonce|]. set (p0 := set_input ch _ _ (port s)). destruct (dequeue_fields (lenZ x) p0) as (_ & E & _).
    change (backends p0) with (backends (port s)) in E. set (p1 := noteInputDequeued (lenZ x) p0) in *. clearbody p1. destruct (length x =? 0)%nat; [by apply quiet_same|].
    destruct (nextSeq_fields p1) as (_ & E2 & _). destruct (nextSeq p1) as [[p q] h]. cbn in E2. destruct q; apply quiet_same; txs; rewrite ?(proj1 (proj2 (dropN_fields 1 p))); congruence.
Qed.

(** A connection's counters change, its queue does not. *)
Lemma upd_quiet s s' id b b' : tx_ok s -> findB id (backends (port s)) = Some b -> bqueue b' = bqueue b -> bid b' = bid b ->
  elog s' = elog s -> backends (port s') = updB id b' (backends (port s)) -> quiet s s'.
Proof.
  intros [HI _] Ef Eq Eb E1 E2. destruct (findB_elem _ _ _ Ef) as [_ Ei]. unfold quiet, loggedSeqs, queuedSeqs, idsOf. rewrite E1, E2, updB_ids by congruence.
  by rewrite (queuesOf_same batchSeqs id b b' _ (io_nodup _ HI) Ef Eq).
Qed.

Lemma plain_grows f op s : tx_ok s -> plainOp op = true -> grows s (txStep f s op).
Proof.
  intros Hok Hp. destruct (input_quiet s) as (H1 & H2 & H3). destruct op; cbn [txStep] in *; try done; auto using write_quiet, try_grows, parity_grows, dispatch_grows with nonce.
  - unfold WriteFrame. destruct (pclosed _); auto using write_quiet with nonce.
  - unfold unregister. destruct (unlocked _); [|auto with nonce]. apply quiet_grows. split; [done|]. unfold queuedSeqs, UnregisterOwnedBackend. txs.
    split; [rewrite <- (queuesOf_filter batchSeqs id (backends (port s)) (io_nodup _ (proj1 Hok))); by apply submseteq_inserts_l|].
    unfold idsOf. txs. rewrite filter_ids. intros i Hi. by apply list_elem_of_filter in Hi as [_ Hi].
  - unfold runSnapshot. destruct (pc s); auto with nonce.
  - unfold runGathered. destruct (pc s) as [| | |batch [|n]| | | | ]; auto with nonce.
  - unfold runGiveUp. destruct (pc s) as [| | | | |batch best pars [|]| | ]; auto with nonce. apply quiet_grows, quiet_same; [done|]. txs.
    by destruct (dropN_fields (lenZ (Frames batch)) (port s)) as (_ & -> & _).
  - unfold runExit. destruct (pc s); auto with nonce. destruct (pclosed _); auto with nonce.
  - unfold writerDone. destruct (findB id _) as [b|] eqn:Ef; [|auto with nonce]. apply quiet_grows.
    set (b' := observeDelivered _ _ _ _). assert (bqueue b' = bqueue b /\ bid b' = bid b) as [E1 E2]; [|by apply (upd_quiet s _ id b b')]. unfold b'.
    destruct (observe_frame f now (default 0 (flight s !! id)) (completeQueuedBytes (default 0 (flight s !! id)) b)) as (r & x & y & ->). by rewrite completeQueued_eq.
  - unfold linkChange. destruct (findB id _) as [b|] eqn:Ef; [|auto with nonce]. apply quiet_grows. by apply (upd_quiet s _ id b (set_link rtt carry b)).
Qed.

Lemma writer_takes id s : tx_ok s ->
  match findB id (backends (port s)) with
  | Some b => match bqueue b with batch :: _ => queuedSeqs s ≡ₚ batchSeqs batch ++ queuedSeqs (writerTake id s) | [] => writerTake id s = s end
  | None => writerTake id s = s
  end /\ loggedSeqs (writerTake id s) = loggedSeqs s /\ idsOf (writerTake id s) = idsOf s.
Proof.
  intros [HI _]. unfold writerTake. destruct (findB id (backends (port s))) as [b|] eqn:Ef; [|done]. destruct (findB_elem _ _ _ Ef) as [_ Ei].
  destruct (bqueue b) as [|batch q] eqn:Eq; [done|]. unfold queuedSeqs, idsOf. txs. split_and!; [|done|by apply updB_ids].
  pose proof (queuesOf_updB batchSeqs id b (set_q q (queuedBytes b) b) _ (io_nodup _ HI) Ef) as HQ. rewrite Eq in HQ. cbn in HQ.
  apply (Permutation_app_inv_r (concat (batchSeqs <$> q))). rewrite <- HQ. solve_Permutation.
Qed.

(** ** No pair twice *)

(** The numbers sealed with the salt of the running session. *)
Definition curSealed (s : nonceSys) : list Z := snd <$> filter (fun p => p.1 = epochSalt s) (nsealed s).

Record nonce_inv (s : nonceSys) : Prop := {
  ni_tx : tx_ok (ntx s);
  ni_num : num_inv (ntx s);
  ni_salts : Forall (fun i => salts s !! i = Some (epochSalt s)) (idsOf (ntx s));
  ni_cur : curSealed s ++ queuedSeqs (ntx s) ⊆+ loggedSeqs (ntx s);
  ni_used : Forall (fun p => p.1 ∈ epochSalt s :: oldSalts s) (nsealed s);
  ni_nodup : NoDup (nsealed s)
}.

Lemma sub_NoDup {A} (l k : list A) : l ⊆+ k -> NoDup k -> NoDup l.
Proof. intros (k' & ->)%submseteq_Permutation H. by apply NoDup_app in H as [H _]. Qed.

Lemma sorted_NoDup (l : list Z) : StronglySorted Z.lt l -> NoDup l.
Proof. induction 1 as [|x l H IH Hx]; constructor; [|done]. intros Hin. rewrite Forall_forall in Hx. specialize (Hx x Hin). lia. Qed.

Lemma logged_NoDup s : num_inv s -> NoDup (loggedSeqs s).
Proof. intros H. apply sorted_NoDup, H. Qed.

(** A step of the port that leaves salts and sealed pairs alone. *)
Lemma port_inv s tx : nonce_inv s -> tx_ok tx -> num_inv tx -> grows (ntx s) tx ->
  nonce_inv (mkNonce tx (salts s) (epochSalt s) (oldSalts s) (nsealed s)).
Proof.
  intros [H1 H2 H3 H4 H5 H6] Hok Hnum (new & El & Hq & Hi). split; cbn; try done.
  - apply Forall_forall. intros i Hin. rewrite Forall_forall in H3. auto.
  - change (curSealed (mkNonce tx _ _ _ _)) with (curSealed s). rewrite El. trans (curSealed s ++ queuedSeqs (ntx s) ++ new); [by apply submseteq_app|].
    rewrite (assoc_L (++)). by apply submseteq_app.
Qed.

Lemma session_inv f s salt k ic : nonce_inv s -> disciplined s (NSession salt k ic) = true -> nonce_inv (nonceStep f s (NSession salt k ic)).
Proof.
  intros [H1 H2 H3 H4 H5 H6] HD. cbn in HD. apply andb_true_iff in HD as [HB HS]. apply bool_decide_eq_true in HB, HS. cbn [nonceStep].
  destruct (pc (ntx s)) eqn:Ep; try done. destruct (pclosed (port (ntx s))) eqn:Ec; [done|]. cbn [negb].
  assert (tx_ok (runReset k ic (ntx s)) /\ num_inv (runReset k ic (ntx s))) as [Hok Hnum]
    by (split; [apply (tx_step f (TReset k ic))|apply (num_step f (TReset k ic))]; done).
  assert (backends (port (runReset k ic (ntx s))) = []) as EB by (unfold runReset; rewrite Ep, Ec; txs; by rewrite HB).
  split; cbn [ntx salts epochSalt oldSalts nsealed]; try done.
  - unfold idsOf. by rewrite EB.
  - unfold curSealed, queuedSeqs, idsOf. rewrite EB. cbn [epochSalt nsealed]. rewrite filter_none; [apply submseteq_nil_l|].
    eapply Forall_impl; [exact H5|]. cbn. intros p Hp E. apply HS. congruence.
  - eapply Forall_impl; [exact H5|]. cbn. intros p Hp. set_solver.
Qed.

Lemma connect_inv f s salt c rtt : nonce_inv s -> disciplined s (NConnect salt c rtt) = true -> nonce_inv (nonceStep f s (NConnect salt c rtt)).
Proof.
  intros [H1 H2 H3 H4 H5 H6] HD. cbn in HD. apply bool_decide_eq_true in HD as ->.
  pose proof (tx_step f (TRegister c rtt) _ H1) as Hok. pose proof (num_step f (TRegister c rtt) _ H1 H2) as Hnum. cbn [txStep nonceStep] in *.
  unfold register in *. destruct (unlocked (pc (ntx s))); [|by split]. split; cbn [ntx salts epochSalt oldSalts nsealed]; try done.
  - unfold idsOf, RegisterOwnedBackend. txs. rewrite fmap_app. apply Forall_app. split; [|cbn; rewrite Forall_singleton; by rewrite lookup_insert_eq].
    apply Forall_forall. intros i Hi. rewrite Forall_forall in H3. rewrite lookup_insert_ne; [by apply H3|]. intros <-.
    apply list_elem_of_fmap in Hi as (b & E & Hb). destruct H1 as [[_ HF] _]. rewrite Forall_forall in HF. specialize (HF b Hb). cbn in HF. lia.
  - change (curSealed (mkNonce _ _ _ _ _)) with (curSealed s). unfold queuedSeqs, queuesOf, RegisterOwnedBackend. txs. rewrite fmap_app, concat_app. cbn. rewrite app_nil_r. exact H4.
Qed.

(** What a writer seals is new under the key of the session. *)
Lemma writer_inv f s id : nonce_inv s -> nonce_inv (nonceStep f s (NWriter id)).
Proof.
  intros [H1 H2 H3 H4 H5 H6]. pose proof (tx_step f (TWriterTake id) _ H1) as Hok. pose proof (num_step f (TWriterTake id) _ H1 H2) as Hnum.
  cbn [txStep nonceStep] in *. destruct (writer_takes id (ntx s) H1) as (HW & HL & HI). unfold writerSeals.
  destruct (findB id (backends (port (ntx s)))) as [b|] eqn:Ef; [|rewrite HW; destruct (salts s !! id); rewrite app_nil_r; by split].
  destruct (findB_elem _ _ _ Ef) as [Hb Ei]. assert (salts s !! id = Some (epochSalt s)) as ->.
  { rewrite Forall_forall in H3. apply H3. rewrite <- Ei. by apply list_elem_of_fmap_2. }
  destruct (bqueue b) as [|batch q]; [rewrite HW, app_nil_r; by split|]. set (new := sealedSeqs batch).
  assert (curSealed s ++ new ++ queuedSeqs (writerTake id (ntx s)) ⊆+ loggedSeqs (ntx s)) as Hsub.
  { etrans; [|exact H4]. rewrite HW. apply submseteq_app; [done|]. apply submseteq_app; [apply sealed_sub|done]. }
  pose proof (sub_NoDup _ _ Hsub (logged_NoDup _ H2)) as HN. rewrite (assoc_L (++)), NoDup_app in HN. destruct HN as [HN _].
  rewrite NoDup_app in HN. destruct HN as (_ & Hdisj & HNnew).
  split; cbn [ntx salts epochSalt oldSalts nsealed]; try done.
  - by rewrite HI.
  - rewrite HL. unfold curSealed. cbn [epochSalt nsealed]. rewrite filter_app, fmap_app, (filter_all _ (pair _ <$> _)) by (apply Forall_fmap, Forall_true; done).
    rewrite <- list_fmap_compose, <- (assoc_L (++)). change (snd ∘ pair (epochSalt s)) with (fun x : Z => x). rewrite list_fmap_id. exact Hsub.
  - apply Forall_app. split; [done|]. apply Forall_fmap, Forall_true. intros x. cbn. left.
  - rewrite NoDup_app. split_and!; [done| |by apply NoDup_fmap_2; [intros ?? [= ]|]].
    intros [salt q'] Hp Hn. apply list_elem_of_fmap in Hn as (x & [= -> ->] & Hx). apply (Hdisj x); [|done].
    unfold curSealed. apply list_elem_of_fmap. exists (epochSalt s, x). split; [done|]. by apply list_elem_of_filter.
Qed.

Lemma nonce_step f s op : nonce_inv s -> disciplined s op = true -> nonce_inv (nonceStep f s op).
Proof.
  intros H HD. destruct op as [op|salt k ic|salt c rtt|id]; [|by apply session_inv|by apply connect_inv|by apply writer_inv].
  apply port_inv; [done|apply tx_step, H|apply num_step; apply H|apply plain_grows; [apply H|exact HD]].
Qed.

Lemma nonce_inv0 salt : nonce_inv (nonce0 salt).
Proof. split; cbn; [exact tx_ok0|exact num_inv0|constructor|done|constructor|constructor]. Qed.

(** C10: No nonce twice.  Whenever the numbering is only restarted with a fresh salt and
    after the connections of the previous salt are gone, and connections join with the
    salt of the running session, the writers of all connections together never seal two
    frames with the same salt and number, over any interleaving of producers, the run
    goroutine, writers, connects, disconnects and session changes. *)
Theorem nonces_unique (f : Z -> Z -> Z) (salt : bytes) (ops : list nonceOp) :
  disciplinedRun f (nonce0 salt) ops = true -> NoDup (nsealed (nonceExec f ops (nonce0 salt))).
Proof.
  assert (forall s, nonce_inv s -> disciplinedRun f s ops = true -> nonce_inv (nonceExec f ops s)) as H.
  { induction ops as [|op ops IH]; intros s Hs HD; [done|]. cbn in HD. apply andb_true_iff in HD as [HD1 HD2]. apply IH; [by apply nonce_step|done]. }
  intros HD. apply (H _ (nonce_inv0 salt) HD).
Qed.

(** One frame through the run goroutine, from the producer to a channel. *)
Definition sendOne (x : bytes) : list nonceOp := NPort <$> [TWrite x; TTake; TWait; TSnapshot; TGathered; TDispatch 0; TTry; TParity].
Definition sameRate (d e : Z) : Z := d.

(** Two sessions, the first connection gone before the second one starts. *)
Definition demoSessions : list nonceOp :=
  [NConnect [1] 32 50000] ++ sendOne [7] ++ sendOne [8] ++ [NWriter 0; NPort (TUnregister 0); NSession [2] 4 None; NConnect [2] 32 50000] ++
  sendOne [9] ++ [NWriter 1].

Lemma nonces_unique_witness :
  disciplinedRun sameRate (nonce0 [1]) demoSessions = true /\ nsealed (nonceExec sameRate demoSessions (nonce0 [1])) = [([1], 1); ([2], 1)] /\
  NoDup (nsealed (nonceExec sameRate demoSessions (nonce0 [1]))).
Proof. split; [by vm_compute|]. split; [by vm_compute|]. apply (nonces_unique sameRate [1] demoSessions). by vm_compute. Defined.

(** *** A connection that outlives its session

    The handshake of the client restarts the numbering of the shared port when the
    answer names a new session (ResetEpoch), but leaves the other connections of the
    old session registered: their writers go on with the cipher of the old salt.  A
    frame of the new numbering that the scheduler gives to such a connection is sealed
    under a key and a number that were used before. *)
Definition demoOutlived : list nonceOp :=
  [NConnect [1] 32 50000] ++ sendOne [7] ++ [NWriter 0; NSession [2] 4 None; NConnect [2] 32 50000] ++ sendOne [8] ++ [NWriter 0].

Lemma old_connection_repeats_nonce :
  nsealed (nonceExec sameRate demoOutlived (nonce0 [1])) = [([1], 1); ([1], 1)].
Proof. by vm_compute. Qed.
