(* ===== verification/Cork.v ===== *)
(** * Batch corking (tls_batch_cork.go)

    The writer of a connection corks its TCP socket before a batch, so that the last,
    partial segment of one batch can be completed by the next one; a timer uncorks it
    after a small part of the round-trip time.  The machine shares its state between
    the writer (BeforeWrite), the timer goroutine (flushTimer) and the end of the
    connection (Close); the mutex makes each of them one step.  The runtime's timer is
    in two parts, as in Go: the moment it is set to, and, once it has gone off, the
    goroutine that has yet to take the mutex; Stop and Reset only reach the former.
    The socket option is part of the state, and every setsockopt takes its outcome as
    an argument: a call that fails leaves the option as it was. *)

From stdpp Require Import base tactics list numbers list_numbers sorting.
From S2P Require Import Prelude.
#[local] Open Scope Z_scope.

Definition tlsBatchCorkRTTThreshold : Z := 1000000.
Definition tlsBatchCorkMaxDelay : Z := 150 * 1000.
Definition corkFallbackMSS : Z := 1440.

(** Durations in nanoseconds: the time a partial segment is held, unless corking is
    off for this path. *)
Definition tlsBatchCorkPolicyForRTT (rtt : Z) : Z * bool :=
  if rtt <=? 0 then (tlsBatchCorkMaxDelay, true) else
  if rtt <? tlsBatchCorkRTTThreshold then (0, false) else
  let d := rtt `quot` 8 in
  (if tlsBatchCorkMaxDelay <? d then tlsBatchCorkMaxDelay else d, true).

Record tlsBatchCork := mkCork {
  carryState : option bool;       (* what the scheduler reads, once bound *)
  delay : Z;
  mss : Z;
  noop : bool;
  enabled : bool;
  corked : bool;
  cclosed : bool;
  progress : Z;
  deadline : option Z;            (* None: the zero time *)
  timerArmed : bool;
  fireAt : option Z;              (* the runtime's timer *)
  firing : nat;                   (* flushTimer goroutines that wait for the mutex *)
  sock : bool                     (* TCP_CORK of the socket *)
}.

(** newTLSBatchCork: [tcp] is the MSS and the round-trip time of the socket below the
    TLS connection, if there is one. *)
Definition newTLSBatchCork (tcp : option (option Z * Z)) : tlsBatchCork :=
  match tcp with
  | None => mkCork None tlsBatchCorkMaxDelay corkFallbackMSS true false false false 0 None false None 0 false
  | Some (m, rtt) =>
    let ms := match m with Some m => if 256 <=? m then m else corkFallbackMSS | None => corkFallbackMSS end in
    let '(d, en) := tlsBatchCorkPolicyForRTT rtt in
    if en then mkCork None d ms false true false false 0 None false None 0 false
    else mkCork None tlsBatchCorkMaxDelay ms true false false false 0 None false None 0 false
  end.

Definition set_carry (v : bool) (c : tlsBatchCork) : tlsBatchCork :=
  mkCork (Some v) (delay c) (mss c) (noop c) (enabled c) (corked c) (cclosed c) (progress c) (deadline c) (timerArmed c) (fireAt c) (firing c) (sock c).
Definition set_flags (en co cl : bool) (c : tlsBatchCork) : tlsBatchCork :=
  mkCork (carryState c) (delay c) (mss c) (noop c) en co cl (progress c) (deadline c) (timerArmed c) (fireAt c) (firing c) (sock c).
Definition set_hold (p : Z) (d : option Z) (c : tlsBatchCork) : tlsBatchCork :=
  mkCork (carryState c) (delay c) (mss c) (noop c) (enabled c) (corked c) (cclosed c) p d (timerArmed c) (fireAt c) (firing c) (sock c).
Definition set_timer (a : bool) (f : option Z) (n : nat) (c : tlsBatchCork) : tlsBatchCork :=
  mkCork (carryState c) (delay c) (mss c) (noop c) (enabled c) (corked c) (cclosed c) (progress c) (deadline c) a f n (sock c).
Definition set_sock (b : bool) (c : tlsBatchCork) : tlsBatchCork :=
  mkCork (carryState c) (delay c) (mss c) (noop c) (enabled c) (corked c) (cclosed c) (progress c) (deadline c) (timerArmed c) (fireAt c) (firing c) b.

Definition BindCarryState (c : tlsBatchCork) : tlsBatchCork := set_carry (corked c) c.
Definition publishCarryLocked (v : bool) (c : tlsBatchCork) : tlsBatchCork :=
  match carryState c with Some _ => set_carry v c | None => c end.

Definition setCork (ok on : bool) (c : tlsBatchCork) : tlsBatchCork := if ok then set_sock on c else c.

(** time.Until, cut off at zero. *)
Definition remainingAt (now : Z) (c : tlsBatchCork) : Z := match deadline c with Some d => Z.max 0 (d - now) | None => 0 end.

Definition ensureTimerLocked (now : Z) (c : tlsBatchCork) : tlsBatchCork :=
  if negb (enabled c) || negb (corked c) || cclosed c || timerArmed c then c
  else set_timer true (Some (now + remainingAt now c)) (firing c) c.

Definition BeforeWrite (now n : Z) (ok : bool) (c : tlsBatchCork) : tlsBatchCork :=
  if (n <=? 0) || noop c then c else
  if negb (enabled c) || cclosed c then c else
  if negb (corked c) && negb ok then publishCarryLocked false (set_flags false (corked c) (cclosed c) c) else
  let c := if corked c then c
           else set_hold 0 (Some (now + delay c)) (publishCarryLocked true (set_flags (enabled c) true (cclosed c) (setCork ok true c))) in
  let p := progress c + n in
  let c := if mss c <=? p then set_hold (p `rem` mss c) (Some (now + delay c)) c
           else match deadline c with None => set_hold p (Some (now + delay c)) c | Some d => set_hold p (Some d) c end in
  ensureTimerLocked now c.

(** The timer goes off: its goroutine starts. *)
Definition timerFires (now : Z) (c : tlsBatchCork) : tlsBatchCork :=
  match fireAt c with
  | Some t => if t <=? now then set_timer (timerArmed c) None (S (firing c)) c else c
  | None => c
  end.

(** flushTimer, in one of those goroutines. *)
Definition flushTimer (now : Z) (ok : bool) (c : tlsBatchCork) : tlsBatchCork :=
  match firing c with
  | O => c
  | S n =>
    let c := set_timer (timerArmed c) (fireAt c) n c in
    if negb (timerArmed c) || negb (enabled c) || negb (corked c) || cclosed c then c else
    if 0 <? remainingAt now c then set_timer (timerArmed c) (Some (now + remainingAt now c)) (firing c) c else
    let c := set_hold 0 None (set_timer false (fireAt c) (firing c) c) in
    if ok then publishCarryLocked false (set_flags (enabled c) false (cclosed c) (setCork ok false c))
    else publishCarryLocked false (set_flags false (corked c) (cclosed c) c)
  end.

Definition Close (ok : bool) (c : tlsBatchCork) : tlsBatchCork :=
  if noop c || cclosed c then c else
  let c := set_flags (enabled c) (corked c) true c in
  let c := set_timer false (if timerArmed c then None else fireAt c) (firing c) c in
  let c := if enabled c && corked c then setCork ok false c else c in
  set_hold 0 None (publishCarryLocked false (set_flags (enabled c) false (cclosed c) c)).

Inductive corkOp := KWrite (n : Z) (ok : bool) | KFire | KFlush (ok : bool) | KClose (ok : bool).

(** The machine of a connection: made and bound to the backend's flag before its writer
    starts. *)
Definition connCork (tcp : option (option Z * Z)) : tlsBatchCork := BindCarryState (newTLSBatchCork tcp).

(** A step at a time of the clock. *)
Definition corkStep (c : tlsBatchCork) (op : Z * corkOp) : tlsBatchCork :=
  let '(now, op) := op in
  match op with
  | KWrite n ok => BeforeWrite now n ok c
  | KFire => timerFires now c
  | KFlush ok => flushTimer now ok c
  | KClose ok => Close ok c
  end.
Definition corkExec (ops : list (Z * corkOp)) (c : tlsBatchCork) : tlsBatchCork := fold_left corkStep ops c.

(** The clock does not go back. *)
Fixpoint clocked (t : Z) (ops : list (Z * corkOp)) : bool :=
  match ops with [] => true | (now, _) :: ops => (t <=? now) && clocked now ops end.
Fixpoint lastTime (t : Z) (ops : list (Z * corkOp)) : Z := match ops with [] => t | (now, _) :: ops => lastTime now ops end.

(** ** The invariant *)

(** The flushes under way: the timer, or a goroutine that it started. *)
Definition pendingFlushes (c : tlsBatchCork) : nat := ((if fireAt c then 1 else 0) + firing c)%nat.

Record cork_ok (t : Z) (c : tlsBatchCork) : Prop := {
  ck_mss : 256 <= mss c;
  ck_delay : 0 < delay c <= tlsBatchCorkMaxDelay;
  ck_progress : 0 <= progress c < mss c;
  ck_noop : noop c = true -> enabled c = false /\ corked c = false /\ sock c = false;
  (* the published flag *)
  ck_carry : carryState c = Some (enabled c && corked c);
  (* the socket *)
  ck_sock : enabled c = true -> cclosed c = false -> sock c = corked c;
  (* one flush is under way for a corked socket, none needed otherwise *)
  ck_armed : cclosed c = false -> timerArmed c = true -> pendingFlushes c = 1%nat /\ enabled c = true /\ corked c = true;
  ck_unarmed : cclosed c = false -> timerArmed c = false -> pendingFlushes c = 0%nat;
  ck_corked : cclosed c = false -> enabled c = true -> corked c = true -> timerArmed c = true;
  (* and not later than the deadline, itself at most one delay away *)
  ck_deadline : cclosed c = false -> timerArmed c = true -> exists d, deadline c = Some d /\ d <= t + delay c /\ forall u, fireAt c = Some u -> u <= d;
  ck_closed : cclosed c = true -> corked c = false /\ timerArmed c = false
}.

Lemma policy_bounds rtt : let '(d, en) := tlsBatchCorkPolicyForRTT rtt in
  (en = false <-> 0 < rtt < tlsBatchCorkRTTThreshold) /\ (en = true -> 125 * 1000 <= d <= tlsBatchCorkMaxDelay /\ (0 < rtt -> 8 * d <= rtt)).
Proof.
  unfold tlsBatchCorkPolicyForRTT, tlsBatchCorkRTTThreshold, tlsBatchCorkMaxDelay. destruct (Z.leb_spec rtt 0); [split; [split; [done|lia]|lia]|].
  destruct (Z.ltb_spec rtt 1000000); [split; [split; [lia|done]|done]|]. rewrite Z.quot_div_nonneg by lia.
  pose proof (Z.mul_div_le rtt 8). pose proof (Z.div_le_lower_bound rtt 8 125000).
  destruct (Z.ltb_spec (150 * 1000) (rtt / 8)); (split; [split; [done|lia]|]); intros _; split; lia.
Qed.

Lemma conn_ok t tcp : cork_ok t (connCork tcp).
Proof.
  assert (0 < tlsBatchCorkMaxDelay <= tlsBatchCorkMaxDelay) by (unfold tlsBatchCorkMaxDelay; lia). unfold connCork, BindCarryState, newTLSBatchCork. destruct tcp as [[m rtt]|].
  - set (ms := match m with Some _ => _ | None => _ end). assert (256 <= ms).
    { unfold ms, corkFallbackMSS. destruct m as [m|]; [|lia]. destruct (Z.leb_spec 256 m); lia. }
    pose proof (policy_bounds rtt) as HP. destruct (tlsBatchCorkPolicyForRTT rtt) as [d [|]]; split; cbn; try done; try lia; destruct HP as [_ HP]; specialize (HP eq_refl); lia.
  - unfold corkFallbackMSS. split; cbn; try done; lia.
Qed.

Lemma ok_later t t' c : t <= t' -> cork_ok t c -> cork_ok t' c.
Proof.
  intros Ht [H1 H2 H3 H4 H5 H6 H7 H8 H9 H10 H11]. split; try done. intros Hc Ha. destruct (H10 Hc Ha) as (d & E & Hd & Hu). exists d. split_and!; [done|lia|done].
Qed.

(** The fields of a state built by the updates. *)
Ltac cks := cbn [carryState delay mss noop enabled corked cclosed progress deadline timerArmed fireAt firing sock
  set_carry set_flags set_hold set_timer set_sock setCork negb andb orb fst snd] in *.

Lemma publishCarry_fields v c : let c' := publishCarryLocked v c in
  delay c' = delay c /\ mss c' = mss c /\ noop c' = noop c /\ enabled c' = enabled c /\ corked c' = corked c /\ cclosed c' = cclosed c /\
  progress c' = progress c /\ deadline c' = deadline c /\ timerArmed c' = timerArmed c /\ fireAt c' = fireAt c /\ firing c' = firing c /\ sock c' = sock c /\
  (carryState c <> None -> carryState c' = Some v).
Proof. unfold publishCarryLocked. destruct (carryState c) eqn:E; cbn; by split_and!. Qed.

(** Name the machine after a publication by its fields. *)
Ltac published := match goal with |- context [publishCarryLocked ?v ?c] =>
  destruct (publishCarry_fields v c) as (E1 & E2 & E3 & E4 & E5 & E6 & E7 & E8 & E9 & E10 & E11 & E12 & E13); set (c0 := publishCarryLocked v c) in *; clearbody c0 end; cks.

(** What a write does to a machine that is corked, or has just been. *)
Lemma hold_ok t n c : cork_ok t c -> noop c = false -> enabled c = true -> cclosed c = false -> 0 < n ->
  (corked c = true \/ corked c = false /\ timerArmed c = false) -> forall c1, c1 = (if corked c then c else set_hold 0 (Some (t + delay c)) (publishCarryLocked true (set_flags true true false (set_sock true c)))) ->
  let p := progress c1 + n in
  cork_ok t (ensureTimerLocked t (if mss c1 <=? p then set_hold (p `rem` mss c1) (Some (t + delay c1)) c1
           else match deadline c1 with None => set_hold p (Some (t + delay c1)) c1 | Some d => set_hold p (Some d) c1 end)).
Proof.
  intros [H1 H2 H3 H4 H5 H6 H7 H8 H9 H10 H11] Hn He Hc Hpos Hco c1 ->. destruct (corked c) eqn:Eco.
  - specialize (H9 Hc He eq_refl). rewrite He in H5. destruct (H7 Hc H9) as (HP & _ & _). destruct (H10 Hc H9) as (d & Ed & Hd & Hu). cbn zeta. unfold ensureTimerLocked. rewrite Ed.
    destruct (Z.leb_spec (mss c) (progress c + n)); cks; rewrite He, Eco, Hc, H9; cks; split; cks; rewrite ?Hn, ?He, ?Eco, ?Hc, ?H9; try done; auto; try lia.
    + rewrite Z.rem_mod_nonneg by lia. apply Z.mod_pos_bound. lia.
    + intros _ _. exists (t + delay c). split_and!; [done|lia|]. intros u Eu. specialize (Hu u Eu). lia.
    + intros _ _. by exists d.
  - destruct Hco as [Hco|[_ Ha]]; [done|]. specialize (H8 Hc Ha). unfold pendingFlushes in H8.
    published. cbn zeta. unfold ensureTimerLocked.
    destruct (Z.leb_spec (mss c0) (0 + n)); cks; rewrite E4, E5, E6, E9, Ha; cks; split; unfold pendingFlushes; cks; rewrite ?E1, ?E2, ?E3, ?E4, ?E5, ?E6, ?E12; try done; try lia.
    all: try (by apply E13; rewrite H5). all: try (intros Hx; congruence).
    1: rewrite Z.rem_mod_nonneg by lia; apply Z.mod_pos_bound; lia.
    all: intros _ _; exists (t + delay c); split_and!; [done|lia|]; unfold remainingAt; cks; intros u Eu; injection Eu as Eu; lia.
Qed.

Lemma write_ok t n ok c : cork_ok t c -> cork_ok t (BeforeWrite t n ok c).
Proof.
  intros Hok. unfold BeforeWrite. destruct (Z.leb_spec n 0); [done|]. destruct (noop c) eqn:En; [done|]. cks.
  destruct (enabled c) eqn:Ee; [|done]. destruct (cclosed c) eqn:Ec; [done|]. cks. pose proof Hok as [H1 H2 H3 H4 H5 H6 H7 H8 H9 H10 H11].
  assert (timerArmed c = true -> corked c = true) as HA by (intros Ha; by destruct (H7 Ec Ha) as (_ & _ & ?)).
  destruct (corked c) eqn:Eco; cks.
  - pose proof (hold_ok t n c Hok En Ee Ec ltac:(lia) ltac:(by left) c) as HH. rewrite Eco in HH. by apply HH.
  - assert (timerArmed c = false) as Ha by (destruct (timerArmed c); [by specialize (HA eq_refl)|done]). destruct ok; cks.
    + refine (hold_ok t n c Hok En Ee Ec H (or_intror (conj Eco Ha)) (set_hold 0 (Some (t + delay c)) (publishCarryLocked true (set_flags true true false (set_sock true c)))) _).
      by rewrite Eco.
    + published. split; unfold pendingFlushes; rewrite ?E1, ?E2, ?E3, ?E4, ?E5, ?E6, ?E7, ?E8, ?E9, ?E10, ?E11, ?E12, ?Ha, ?En; try done; [by apply E13; rewrite H5|]. by intros _ _; apply H8.
Qed.

Lemma fires_ok t c : cork_ok t c -> cork_ok t (timerFires t c).
Proof.
  intros Hok. unfold timerFires. destruct (fireAt c) as [u|] eqn:Ef; [|done]. destruct (u <=? t); [|done].
  destruct Hok as [H1 H2 H3 H4 H5 H6 H7 H8 H9 H10 H11]. unfold pendingFlushes in *. rewrite Ef in *. split; unfold pendingFlushes; cks; try done.
  intros Hc Ha. destruct (H10 Hc Ha) as (d & Ed & Hd & _). by exists d.
Qed.

Lemma flush_ok t ok c : cork_ok t c -> cork_ok t (flushTimer t ok c).
Proof.
  intros Hok. unfold flushTimer. destruct (firing c) as [|n] eqn:Ef; [done|]. pose proof Hok as [H1 H2 H3 H4 H5 H6 H7 H8 H9 H10 H11]. unfold pendingFlushes in *. rewrite Ef in *.
  cks. destruct (cclosed c) eqn:Ec.
  { rewrite !orb_true_r. split; cks; rewrite ?Ec; done. }
  destruct (timerArmed c) eqn:Ea; [|specialize (H8 eq_refl eq_refl); lia]. destruct (H7 eq_refl eq_refl) as (HP & He & Hco). rewrite He, Hco in *. cks.
  assert (fireAt c = None /\ n = 0%nat) as [Efi ->] by (destruct (fireAt c); [lia|split; [done|lia]]).
  destruct (H10 eq_refl eq_refl) as (d & Ed & Hd & Hu). change (remainingAt t (set_timer _ _ _ c)) with (remainingAt t c). unfold remainingAt. rewrite Ed.
  destruct (Z.ltb_spec 0 (Z.max 0 (d - t))).
  - split; unfold pendingFlushes; cks; rewrite ?Ec, ?He, ?Hco, ?Ed; try done; try lia. intros _ _. exists d. split_and!; [done|lia|]. intros u Eu. injection Eu as Eu. lia.
  - assert (noop c = true -> False) as Hnn by (intros Hn; by destruct (H4 Hn)). destruct ok; cks.
    + published. split; unfold pendingFlushes; rewrite ?E1, ?E2, ?E3, ?E4, ?E5, ?E6, ?E7, ?E8, ?E9, ?E10, ?E11, ?E12, ?Ec, ?He, ?Efi; try done; try lia; try (by apply E13; rewrite H5).
    + published. split; unfold pendingFlushes; rewrite ?E1, ?E2, ?E3, ?E4, ?E5, ?E6, ?E7, ?E8, ?E9, ?E10, ?E11, ?E12, ?Ec, ?Hco, ?Efi; try done; try lia; try (by apply E13; rewrite H5).
Qed.

Lemma close_ok t ok c : cork_ok t c -> cork_ok t (Close ok c).
Proof.
  intros Hok. unfold Close. destruct (noop c) eqn:En; [done|]. destruct (cclosed c) eqn:Ec; [done|]. cks. pose proof Hok as [H1 H2 H3 H4 H5 H6 H7 H8 H9 H10 H11].
  set (c1 := if enabled c && corked c then _ else _). assert (mss c1 = mss c /\ delay c1 = delay c /\ noop c1 = false /\ enabled c1 = enabled c /\ timerArmed c1 = false /\ cclosed c1 = true /\ carryState c1 = carryState c) as (F1 & F2 & F3 & F4 & F5 & F6 & F7)
    by (unfold c1; destruct (enabled c && corked c), ok; by cks). clearbody c1.
  published. split; cks; rewrite ?E1, ?E2, ?E3, ?E4, ?E5, ?E6, ?E9, ?F1, ?F2, ?F3, ?F4, ?F5, ?F6; try done; try lia. rewrite andb_false_r. apply E13. rewrite F7. by rewrite H5.
Qed.

Lemma cork_step t now op c : t <= now -> cork_ok t c -> cork_ok now (corkStep c (now, op)).
Proof. intros Ht Hok. apply (ok_later t now) in Hok; [|done]. destruct op; cbn [corkStep]; auto using write_ok, fires_ok, flush_ok, close_ok. Qed.

Lemma cork_exec ops t c : clocked t ops = true -> cork_ok t c -> cork_ok (lastTime t ops) (corkExec ops c).
Proof.
  revert t c. induction ops as [|[now op] ops IH]; intros t c HC Hok; [done|]. cbn in HC. apply andb_true_iff in HC as [Ht HC]. apply IH; [done|].
  apply (cork_step t); [lia|done].
Qed.

(** The cork never sticks and never lies.  Over any sequence of writes, timer
    expiries, flushes that come late, failing socket calls and the close, the flag that
    the scheduler reads is exactly "corking is on and the socket is corked"; an open,
    corked socket has exactly one flush under way, set for no later than the deadline,
    which is at most 150 microseconds after the current time; and once closed the
    machine is uncorked and ignores flushes that were already started. *)
Theorem cork_invariant (tcp : option (option Z * Z)) (t : Z) (ops : list (Z * corkOp)) : clocked t ops = true ->
  let c := corkExec ops (connCork tcp) in
  carryState c = Some (enabled c && corked c) /\
  (enabled c = true -> cclosed c = false -> sock c = corked c) /\
  (enabled c = true -> cclosed c = false -> corked c = true -> pendingFlushes c = 1%nat /\
     exists d, deadline c = Some d /\ d <= lastTime t ops + tlsBatchCorkMaxDelay /\ forall u, fireAt c = Some u -> u <= d) /\
  (cclosed c = true -> corked c = false /\ forall now ok, sock (flushTimer now ok c) = sock c) /\
  0 <= progress c < mss c.
Proof.
  intros HC c. pose proof (cork_exec ops t _ HC (conn_ok t tcp)) as [H1 H2 H3 H4 H5 H6 H7 H8 H9 H10 H11]. fold c in H1, H2, H3, H4, H5, H6, H7, H8, H9, H10, H11.
  split_and!; [done|done| | |lia|lia].
  - intros He Hc Hco. specialize (H9 Hc He Hco). destruct (H7 Hc H9) as [? _]. split; [done|]. destruct (H10 Hc H9) as (d & ? & ? & ?). exists d. split_and!; [done|lia|done].
  - intros Hc. split; [by apply H11|]. intros now ok. unfold flushTimer. destruct (firing c); [done|]. cks. by rewrite Hc, !orb_true_r.
Qed.

(** *** The tail is released *)

(** The timer and its goroutines run, with successful socket calls; the writer pauses. *)
Definition timerOnly (op : Z * corkOp) : bool := match op.2 with KFire | KFlush true => true | _ => false end.

(** Either still held with the same deadline, or released. *)
Definition heldUntil (d : Z) (c : tlsBatchCork) : Prop :=
  enabled c = true /\ cclosed c = false /\ sock c = corked c /\ (corked c = true -> deadline c = Some d /\ timerArmed c = true /\ pendingFlushes c = 1%nat).

Lemma held_step d op c : timerOnly op = true -> heldUntil d c -> heldUntil d (corkStep c op).
Proof.
  intros Hop (H1 & H2 & H3 & H4). destruct op as [now [n ok| |ok|ok]]; try done; cbn [corkStep].
  - unfold timerFires. destruct (fireAt c) as [u|] eqn:Ef; [|done]. destruct (u <=? now); [|done]. unfold heldUntil, pendingFlushes in *. rewrite Ef in H4. by cks.
  - destruct ok; [|done]. unfold flushTimer. destruct (firing c) as [|m] eqn:Ef; [done|]. cks. unfold pendingFlushes in H4. rewrite H1, H2, Ef in *.
    destruct (corked c) eqn:Ec; cks.
    + destruct (H4 eq_refl) as (Hd & Ha & HP). rewrite Ha. assert (fireAt c = None /\ m = 0%nat) as [Efi ->] by (destruct (fireAt c); [lia|split; [done|lia]]). cks.
      destruct (0 <? remainingAt now _); [unfold heldUntil, pendingFlushes; cks; split_and!; congruence || done|]. published. unfold heldUntil. rewrite E4, E5, E6, E12. by split_and!.
    + rewrite orb_true_r. unfold heldUntil. cks. rewrite Ec. by split_and!.
Qed.

Lemma held_exec d ops c : Forall (fun op => timerOnly op = true) ops -> heldUntil d c -> heldUntil d (corkExec ops c).
Proof. revert c. induction ops as [|op ops IH]; intros c HF H; [done|]. apply Forall_cons in HF as [H1 H2]. apply IH; [done|]. by apply held_step. Qed.

Lemma corkExec_app a b c : corkExec (a ++ b) c = corkExec b (corkExec a c).
Proof. apply fold_left_app. Qed.

Definition released (c : tlsBatchCork) : Prop := enabled c = true /\ cclosed c = false /\ corked c = false.

Lemma released_stays op c : timerOnly op = true -> released c -> released (corkStep c op).
Proof.
  destruct op as [now [n ok| |[|]|ok]]; intros Hop (X1 & X2 & X3); try done; cbn [corkStep]; unfold timerFires, flushTimer.
  - destruct (fireAt c) as [u|]; [|done]. by destruct (u <=? now).
  - destruct (firing c); [done|]. cks. by rewrite X1, X2, X3, orb_true_r.
Qed.

(** The goroutine of the timer, at a time past the deadline. *)
Lemma flush_releases now d c : firing c = 1%nat -> enabled c = true -> corked c = true -> cclosed c = false -> timerArmed c = true ->
  deadline c = Some d -> d <= now -> released (flushTimer now true c).
Proof.
  intros P1 P2 P3 P4 P5 P6 Hd. unfold flushTimer. rewrite P1. cks. rewrite P5, P2, P3, P4. cks. unfold remainingAt. cks. rewrite P6.
  destruct (Z.ltb_spec 0 (Z.max 0 (d - now))); [lia|]. published. unfold released. by rewrite E4, E5, E6.
Qed.

(** C28: The tail of a batch is never held for longer than its deadline.  From any state
    that an open connection with corking enabled can reach with its socket corked, however
    often the timer has gone off early and its goroutine was late, once the timer and its
    goroutine have run at a time past the deadline, and the call that uncorks succeeds,
    the socket is uncorked and the scheduler sees it.  (A call that fails turns corking
    off for the connection and leaves the socket as it is.) *)
Theorem cork_released (tcp : option (option Z * Z)) (t now : Z) (ops late : list (Z * corkOp)) :
  clocked t ops = true -> let c := corkExec ops (connCork tcp) in
  enabled c = true -> cclosed c = false -> corked c = true ->
  clocked (lastTime t ops) late = true -> Forall (fun op => timerOnly op = true) late ->
  lastTime (lastTime t ops) late <= now -> (forall d, deadline c = Some d -> d <= now) ->
  let c' := corkExec (late ++ [(now, KFire); (now, KFlush true)]) c in
  sock c' = false /\ carryState c' = Some false.
Proof.
  intros HC c He Hc Hco HL HF Hnow Hd. pose proof (cork_exec ops t _ HC (conn_ok t tcp)) as Hok. fold c in Hok.
  pose proof (cork_exec late _ c HL Hok) as Hok2. assert (exists d, heldUntil d c /\ d <= now) as (d & Hheld & Hdn).
  { destruct Hok as [H1 H2 H3 H4 H5 H6 H7 H8 H9 H10 H11]. specialize (H9 Hc He Hco). destruct (H10 Hc H9) as (d & Ed & _). exists d. split; [|by apply Hd].
    unfold heldUntil. split_and!; [done..|by apply H6|]. intros _. split_and!; [done|done|by apply H7]. }
  pose proof (held_exec d late c HF Hheld) as (G1 & G2 & G3 & G4). rewrite corkExec_app. set (c1 := corkExec late c) in *.
  intros c'. assert (cork_ok now c') as Hok3.
  { unfold c'. cbn [corkExec fold_left]. apply (cork_step now); [lia|]. by apply (cork_step _ now KFire c1 Hnow). }
  assert (released c') as (F1 & F2 & F3).
  { unfold c'. cbn [corkExec fold_left corkStep]. destruct (corked c1) eqn:Eco1.
    - destruct (G4 eq_refl) as (Ed & Ea & HP). unfold pendingFlushes in HP.
      unfold timerFires. destruct (fireAt c1) as [u|] eqn:Ef; [|apply (flush_releases now d); done || lia].
      destruct Hok2 as [_ _ _ _ _ _ _ _ _ H10 _]. destruct (H10 G2 Ea) as (d' & Ed' & _ & Hu). specialize (Hu u Ef). assert (d' = d) as -> by congruence.
      destruct (Z.leb_spec u now); [|lia]. apply (flush_releases now d); cks; done || lia.
    - apply (released_stays (now, KFlush true)); [done|]. by apply (released_stays (now, KFire)). }
  destruct Hok3 as [_ _ _ _ H5 H6 _ _ _ _ _]. rewrite (H6 F1 F2), H5, F1, F3. done.
Qed.

(** A path of 2 ms: two writes, the timer goes off before the second one's deadline. *)
Definition demoCork : list (Z * corkOp) := [(0, KWrite 500 true); (100000, KWrite 1000 true); (150000, KFire); (150000, KFlush true)].

Lemma cork_invariant_witness : let c := corkExec demoCork (connCork (Some (Some 1440, 2000000))) in
  clocked 0 demoCork = true /\ enabled c = true /\ cclosed c = false /\ corked c = true /\ carryState c = Some (enabled c && corked c) /\ pendingFlushes c = 1%nat.
Proof.
  destruct (cork_invariant (Some (Some 1440, 2000000)) 0 demoCork) as (H1 & _ & H3 & _); [by vm_compute|].
  split_and!; [by vm_compute..|exact H1|apply H3; by vm_compute].
Defined.

Lemma cork_released_witness :
  let c' := corkExec ([(160000, KFire)] ++ [(250000, KFire); (250000, KFlush true)]) (corkExec demoCork (connCork (Some (Some 1440, 2000000)))) in
  sock c' = false /\ carryState c' = Some false.
Proof.
  refine (cork_released (Some (Some 1440, 2000000)) 0 250000 demoCork [(160000, KFire)] _ _ _ _ _ _ _ _).
  1-5: vm_compute; reflexivity.
  - by apply Forall_singleton.
  - by vm_compute.
  - intros d Hd. vm_compute in Hd. injection Hd as <-. done.
Defined.
