(* ===== verification/VSwitch.v ===== *)
(** * The server's learning switch (server.go, VSwitch)

    Ports, the MAC table in 16 shards, source-address protection, flooding under a
    token bucket per port, ageing.  Port objects are values with an identity; a frame
    written to a port is an output of the operation.  Time is in nanoseconds and
    tokens are counted in units of 10^-9, which makes the refill exact where the code
    computes it in float64. *)

From stdpp Require Import base tactics list numbers gmap strings fin_maps sorting.
From S2P Require Import Prelude.
#[local] Open Scope Z_scope.

Notation macKey := bytes (only parsing).
Definition macZero : macKey := zeros 6.
Definition ShardCount : nat := 16.

(** A port object: [pOwned] when it also has WriteOwnedFrame. *)
Record Port := mkPort { pUid : nat; pID : string; pOwned : bool }.
#[export] Instance Port_eq_dec : EqDecision Port.
Proof. solve_decision. Defined.

Record macEntry := mkEntry { eportID : string; eport : option Port; updatedTick : Z; static : bool }.

Record floodBudget := mkBudget { tokens : Z; lastRefill : Z }.

Record VSwitch := mkVS {
  ports : gmap string Port;
  shards : list (gmap macKey macEntry);
  coarseSec : Z;
  purgeTicks : Z;
  trustedPort : string;
  spoofDrops : Z;
  floodBudgets : gmap string floodBudget;
  floodDrops : Z
}.

Definition nano : Z := 1000000000.
Definition floodBurst : Z := 8192 * nano.
Definition floodRatePerSec : Z := 16384.
Definition maxAgeSec : Z := 1800.
Definition refreshTicks : Z := 5.

Definition NewVSwitch (trusted : string) : VSwitch := mkVS ∅ (replicate ShardCount ∅) 1 0 trusted 0 ∅ 0.

Definition set_ports (ps : gmap string Port) (vs : VSwitch) : VSwitch :=
  mkVS ps (shards vs) (coarseSec vs) (purgeTicks vs) (trustedPort vs) (spoofDrops vs) (floodBudgets vs) (floodDrops vs).
Definition set_shards (sh : list (gmap macKey macEntry)) (vs : VSwitch) : VSwitch :=
  mkVS (ports vs) sh (coarseSec vs) (purgeTicks vs) (trustedPort vs) (spoofDrops vs) (floodBudgets vs) (floodDrops vs).
Definition set_clock (sec ticks : Z) (vs : VSwitch) : VSwitch :=
  mkVS (ports vs) (shards vs) sec ticks (trustedPort vs) (spoofDrops vs) (floodBudgets vs) (floodDrops vs).
Definition set_drops (spoof : Z) (fb : gmap string floodBudget) (fd : Z) (vs : VSwitch) : VSwitch :=
  mkVS (ports vs) (shards vs) (coarseSec vs) (purgeTicks vs) (trustedPort vs) spoof fb fd.

Definition dropSpoof (vs : VSwitch) : VSwitch := set_drops (u64 (spoofDrops vs + 1)) (floodBudgets vs) (floodDrops vs) vs.

(** FNV-1 over the six bytes. *)
Definition getShardIdx (mac : macKey) : nat :=
  Z.to_nat (fold_left (fun h b => Z.lxor (u32 (h * 16777619)) b) mac 2166136261 mod Z.of_nat ShardCount).

Definition macLookup (vs : VSwitch) (mac : macKey) : option macEntry := shards vs !! getShardIdx mac ≫= (.!! mac).
Definition macInsert (mac : macKey) (e : macEntry) (vs : VSwitch) : VSwitch :=
  set_shards (alter <[mac := e]> (getShardIdx mac) (shards vs)) vs.
(** The loops over all shards that delete entries. *)
Definition macFilter (P : macKey -> macEntry -> bool) (vs : VSwitch) : VSwitch :=
  set_shards (filter (fun me => P me.1 me.2 = true) <$> shards vs) vs.

Definition expired (now : Z) (e : macEntry) : bool := negb (static e) && (maxAgeSec <? u64 (now - updatedTick e)).

Definition purgeExpiredMACsAt (now : Z) (vs : VSwitch) : VSwitch := macFilter (fun _ e => negb (expired now e)) vs.

(** One tick of the coarse clock. *)
Definition runCoarseClockAndPurge (vs : VSwitch) : VSwitch :=
  let now := u64 (coarseSec vs + 1) in
  let ticks := u32 (purgeTicks vs + 1) in
  if ticks <? 300 then set_clock now ticks vs
  else purgeExpiredMACsAt now (set_clock now 0 vs).

Definition AddPort (p : Port) (vs : VSwitch) : VSwitch := set_ports (<[pID p := p]> (ports vs)) vs.

Definition AddStaticMAC (portID : string) (mac : macKey) (vs : VSwitch) : VSwitch :=
  if bool_decide (mac = macZero) then vs else
  macInsert mac (mkEntry portID (ports vs !! portID) 0 true) vs.

(** The code takes the locks of the ports, the budgets and the shards one after the other;
    here the removal is one step. *)
Definition RemovePort (portID : string) (vs : VSwitch) : VSwitch :=
  let vs := set_ports (delete portID (ports vs)) vs in
  let vs := set_drops (spoofDrops vs) (delete portID (floodBudgets vs)) (floodDrops vs) vs in
  macFilter (fun _ e => bool_decide (eportID e <> portID)) vs.

(** ** Flooding *)

Definition allowFlood (now : Z) (src : string) (vs : VSwitch) : VSwitch * bool :=
  match floodBudgets vs !! src with
  | None => (set_drops (spoofDrops vs) (<[src := mkBudget (floodBurst - nano) now]> (floodBudgets vs)) (floodDrops vs) vs, true)
  | Some b =>
    let elapsed := now - lastRefill b in
    let b := if 0 <? elapsed then mkBudget (Z.min floodBurst (tokens b + elapsed * floodRatePerSec)) now else b in
    let ok := negb (tokens b <? nano) in
    let b := if ok then mkBudget (tokens b - nano) (lastRefill b) else b in
    (set_drops (spoofDrops vs) (<[src := b]> (floodBudgets vs)) (floodDrops vs) vs, ok)
  end.

(** What becomes of a frame: the WriteFrame calls (the callee copies) and the port
    whose WriteOwnedFrame took the buffer. *)
Record outcome := mkOutcome { copies : list Port; handed : option Port }.
Definition nothing : outcome := mkOutcome [] None.

Definition flood (now : Z) (exclude : string) (vs : VSwitch) : VSwitch * outcome :=
  let go vs := (vs, mkOutcome (snd <$> filter (fun kp => kp.1 <> exclude) (map_to_list (ports vs))) None) in
  if bool_decide (exclude = trustedPort vs) then go vs else
  let '(vs, ok) := allowFlood now exclude vs in
  if ok then go vs else (set_drops (spoofDrops vs) (floodBudgets vs) (u64 (floodDrops vs + 1)) vs, nothing).

(** ** processFrame *)

Definition dstMAC (frame : bytes) : macKey := slice 0 6 frame.
Definition srcMAC (frame : bytes) : macKey := slice 6 12 frame.

Inductive verdict := Spoofed | Pass | Learn (nowTick : Z).

(** The first look at the source address, under the read lock. *)
Definition dynamicCheck (src : string) (mac : macKey) (vs : VSwitch) : verdict :=
  let nowTick := coarseSec vs in
  let entry := macLookup vs mac in
  let staticElsewhere := match entry with Some e => static e && bool_decide (eportID e <> src) | None => false end in
  let needUpdate := match entry with
                    | None => true
                    | Some e => negb (static e) &&
                                (bool_decide (eportID e <> src) || (refreshTicks <? u64 (nowTick - updatedTick e)))
                    end in
  if staticElsewhere then (if bool_decide (src <> trustedPort vs) then Spoofed else Pass)
  else if needUpdate then Learn nowTick else Pass.

Definition checkSource (src : string) (mac : macKey) (registered : option macKey) (vs : VSwitch) : verdict :=
  match registered with
  | Some r => if bool_decide (r <> macZero) then (if bool_decide (mac = r) then Pass else Spoofed)
              else dynamicCheck src mac vs
  | None => dynamicCheck src mac vs
  end.

(** The update under the write lock, with its second check; the flag says whether
    the frame goes on. *)
Definition learn (src : string) (mac : macKey) (nowTick : Z) (vs : VSwitch) : VSwitch * bool :=
  let learnedPort := ports vs !! src in
  match macLookup vs mac with
  | Some e =>
    if static e && bool_decide (eportID e <> src) then
      if bool_decide (src <> trustedPort vs) then (dropSpoof vs, false) else (vs, true)
    else (macInsert mac (mkEntry src learnedPort nowTick (static e)) vs, true)
  | None => (macInsert mac (mkEntry src learnedPort nowTick false) vs, true)
  end.

(** A frame for a known address. *)
Definition writeTo (owned : bool) (p : Port) : outcome :=
  if owned && pOwned p then mkOutcome [] (Some p) else mkOutcome [p] None.

Definition forward (now : Z) (src : string) (dst : macKey) (owned : bool) (vs : VSwitch) : VSwitch * outcome :=
  let entry := if Z.land (byte_at 0 dst) 1 =? 1 then None else macLookup vs dst in
  match entry with
  | Some e =>
    let target := eportID e in
    if bool_decide (target = ""%string) then flood now src vs else
    if bool_decide (target = src) then (vs, nothing) else
    match eport e with
    | Some p => (vs, writeTo owned p)
    | None => (vs, match ports vs !! target with Some p => writeTo owned p | None => nothing end)
    end
  | None => flood now src vs
  end.

Definition processFrame (validateMAC : option (string -> macKey -> bool)) (now : Z) (src : string) (frame : bytes) (owned : bool)
    (registered : option macKey) (vs : VSwitch) : VSwitch * outcome :=
  if (length frame <? 14)%nat then (vs, nothing) else
  let mac := srcMAC frame in
  match checkSource src mac registered vs with
  | Spoofed => (dropSpoof vs, nothing)
  | Pass => forward now src (dstMAC frame) owned vs
  | Learn nowTick =>
    if match validateMAC with Some v => negb (v src mac) | None => false end then (dropSpoof vs, nothing) else
    let '(vs, go) := learn src mac nowTick vs in
    if go then forward now src (dstMAC frame) owned vs else (vs, nothing)
  end.

(** The four entry points. *)
Definition ProcessFrame v now src frame := processFrame v now src frame false None.
Definition ProcessSessionFrame v now src mac frame := processFrame v now src frame false (Some mac).
Definition ProcessOwnedSessionFrame v now src mac frame := processFrame v now src frame true (Some mac).
Definition ProcessOwnedFrame v now src frame := processFrame v now src frame true None.

(** An owned buffer that no port took is given back on return. *)
Definition givenBack (owned : bool) (o : outcome) : bool := owned && bool_decide (handed o = None).

(** ** The sharded table is a map *)

Record vs_wf (vs : VSwitch) : Prop := {
  vw_len : length (shards vs) = ShardCount;
  vw_ports : forall id p, ports vs !! id = Some p -> pID p = id;
  vw_cached : forall mac e p, macLookup vs mac = Some e -> eport e = Some p -> ports vs !! eportID e = Some p
}.

Lemma getShardIdx_lt mac : (getShardIdx mac < ShardCount)%nat.
Proof. unfold getShardIdx, ShardCount. pose proof (Z.mod_pos_bound (fold_left (fun h b => Z.lxor (u32 (h * 16777619)) b) mac 2166136261) 16). lia. Qed.

Lemma macLookup_insert vs mac e mac' : length (shards vs) = ShardCount ->
  macLookup (macInsert mac e vs) mac' = if decide (mac' = mac) then Some e else macLookup vs mac'.
Proof.
  intros HL. unfold macLookup, macInsert. cbn [set_shards shards]. pose proof (getShardIdx_lt mac) as Hi.
  destruct (lookup_lt_is_Some_2 (shards vs) (getShardIdx mac)) as [sh Hsh]; [lia|].
  destruct (decide (getShardIdx mac' = getShardIdx mac)) as [E|E].
  - rewrite E, list_lookup_alter_eq, Hsh. cbn. case_decide; subst; [by rewrite lookup_insert_eq|by rewrite lookup_insert_ne].
  - rewrite list_lookup_alter_ne by done. case_decide; [congruence|done].
Qed.

Lemma macLookup_filter P vs mac :
  macLookup (macFilter P vs) mac = match macLookup vs mac with Some e => if P mac e then Some e else None | None => None end.
Proof.
  unfold macLookup, macFilter. cbn [set_shards shards]. rewrite list_lookup_fmap.
  destruct (shards vs !! getShardIdx mac) as [sh|]; [|done]. cbn. rewrite map_lookup_filter.
  destruct (sh !! mac) as [e|]; [|done]. cbn. destruct (P mac e) eqn:E; case_guard; cbn; congruence.
Qed.

Lemma tbl_insert_wf mac e vs : vs_wf vs -> (forall p, eport e = Some p -> ports vs !! eportID e = Some p) -> vs_wf (macInsert mac e vs).
Proof.
  intros [HL HP HC] He. split; [cbn; by rewrite length_alter|done|].
  intros m x p. rewrite macLookup_insert by done. case_decide; [|by eauto]. intros [= <-]. by eauto.
Qed.

Lemma filter_wf P vs : vs_wf vs -> vs_wf (macFilter P vs).
Proof.
  intros [HL HP HC]. split; [cbn; by rewrite length_fmap|done|].
  intros m x p. rewrite macLookup_filter. destruct (macLookup vs m) as [e|] eqn:E; [|done]. destruct (P m e); [|done].
  intros [= <-]. by eauto.
Qed.

Lemma frame_wf vs vs' : shards vs' = shards vs -> ports vs' = ports vs -> vs_wf vs -> vs_wf vs'.
Proof. intros E1 E2 [HL HP HC]. split; unfold macLookup in *; rewrite ?E1, ?E2; eauto. Qed.

(** ** Histories *)

(** [VLearn] is the second half of a frame whose check came earlier: other
    operations may run in between. *)
Inductive vop :=
| VAddPort (p : Port)
| VRemovePort (id : string)
| VAddStatic (id : string) (mac : macKey)
| VTick
| VLearn (src : string) (mac : macKey) (nowTick : Z)
| VFrame (validate : option (string -> macKey -> bool)) (now : Z) (src : string) (frame : bytes) (owned : bool) (registered : option macKey).

Definition vstep (vs : VSwitch) (op : vop) : VSwitch :=
  match op with
  | VAddPort p => AddPort p vs
  | VRemovePort id => RemovePort id vs
  | VAddStatic id mac => AddStaticMAC id mac vs
  | VTick => runCoarseClockAndPurge vs
  | VLearn src mac tick => (learn src mac tick vs).1
  | VFrame v now src frame owned reg => (processFrame v now src frame owned reg vs).1
  end.
Definition vexec (ops : list vop) (vs : VSwitch) : VSwitch := fold_left vstep ops vs.

(** Port names are unique: the server removes a port before it registers another
    one under the same name. *)
Fixpoint freshPorts (vs : VSwitch) (ops : list vop) : Prop :=
  match ops with
  | [] => True
  | op :: ops => match op with VAddPort p => ports vs !! pID p = None | _ => True end /\ freshPorts (vstep vs op) ops
  end.

(** A frame changes the table only by learning its source. *)
Lemma allowFlood_frame now src vs : shards (allowFlood now src vs).1 = shards vs /\ ports (allowFlood now src vs).1 = ports vs.
Proof. unfold allowFlood. by destruct (floodBudgets vs !! src). Qed.

Lemma flood_frame now src vs : shards (flood now src vs).1 = shards vs /\ ports (flood now src vs).1 = ports vs.
Proof.
  unfold flood. destruct (bool_decide _); [done|]. pose proof (allowFlood_frame now src vs) as H.
  destruct (allowFlood now src vs) as [vs1 [|]]; exact H.
Qed.

Lemma forward_frame now src dst owned vs : shards (forward now src dst owned vs).1 = shards vs /\ ports (forward now src dst owned vs).1 = ports vs.
Proof.
  unfold forward. destruct (if _ =? 1 then None else _) as [e|]; [|apply flood_frame]. destruct (bool_decide _); [apply flood_frame|].
  destruct (bool_decide _); [done|]. by destruct (eport e).
Qed.

(** The table after a frame: unchanged, or the source learnt after its checks. *)
Definition learnable (v : option (string -> macKey -> bool)) (src : string) (mac : macKey) (reg : option macKey) : Prop :=
  (reg = None \/ reg = Some macZero) /\ match v with Some f => f src mac = true | None => True end.

Lemma processFrame_table v now src frame owned reg vs :
  let vs' := (processFrame v now src frame owned reg vs).1 in
  (shards vs' = shards vs /\ ports vs' = ports vs) \/
  (exists tick, learnable v src (srcMAC frame) reg /\
    shards vs' = shards (learn src (srcMAC frame) tick vs).1 /\ ports vs' = ports (learn src (srcMAC frame) tick vs).1).
Proof.
  unfold processFrame. destruct (_ <? 14)%nat; [by left|].
  destruct (checkSource src (srcMAC frame) reg vs) as [| |tick] eqn:EC; [by left|left; apply forward_frame|].
  destruct (match v with Some f => _ | None => _ end) eqn:EV; [by left|]. right. exists tick.
  assert (learnable v src (srcMAC frame) reg) as HL.
  { split; [|destruct v; [by apply negb_false_iff|done]]. unfold checkSource in EC. destruct reg as [r|]; [|by left].
    destruct (bool_decide_reflect (r <> macZero)) as [|Hn]; [|right; f_equal; by apply dec_stable]. by destruct (bool_decide _). }
  split; [done|]. destruct (learn src (srcMAC frame) tick vs) as [vs1 [|]]; [apply forward_frame|done].
Qed.

Lemma learn_wf src mac tick vs : vs_wf vs -> vs_wf (learn src mac tick vs).1.
Proof.
  intros H. unfold learn. destruct (macLookup vs mac) as [e|].
  - destruct (static e && _); [destruct (bool_decide _); [by apply (frame_wf vs)|done]|]. by apply tbl_insert_wf.
  - by apply tbl_insert_wf.
Qed.

Lemma remove_lookup id vs mac : macLookup (RemovePort id vs) mac =
  match macLookup vs mac with Some e => if bool_decide (eportID e <> id) then Some e else None | None => None end.
Proof. unfold RemovePort. by rewrite macLookup_filter. Qed.

Lemma remove_wf id vs : vs_wf vs -> vs_wf (RemovePort id vs).
Proof.
  intros [HL HP HC]. split.
  - cbn. by rewrite length_fmap.
  - intros i p. change (ports (RemovePort id vs)) with (delete id (ports vs)). rewrite lookup_delete_Some. intros [_ ?]. by apply HP.
  - intros m x p. change (ports (RemovePort id vs)) with (delete id (ports vs)). rewrite remove_lookup.
    destruct (macLookup vs m) as [e|] eqn:E; [|done]. destruct (bool_decide_reflect (eportID e <> id)); [|done].
    intros [= <-] Hp. rewrite lookup_delete_ne by congruence. by eauto.
Qed.

Lemma vstep_wf vs op : vs_wf vs -> match op with VAddPort p => ports vs !! pID p = None | _ => True end -> vs_wf (vstep vs op).
Proof.
  intros Hwf Hf. destruct op as [p|id|id mac| |src mac tick|v now src frame owned reg]; cbn [vstep].
  - destruct Hwf as [HL HP HC]. split; [done| |].
    + intros i q. cbn. rewrite lookup_insert_Some. intros [[<- <-]|[_ ?]]; [done|by apply HP].
    + intros m e q Hm Hq. cbn. pose proof (HC m e q Hm Hq) as Hr. rewrite lookup_insert_ne by congruence. done.
  - by apply remove_wf.
  - unfold AddStaticMAC. destruct (bool_decide _); [done|]. by apply tbl_insert_wf.
  - unfold runCoarseClockAndPurge. destruct (_ <? 300); [by apply (frame_wf vs)|]. apply filter_wf. by apply (frame_wf vs).
  - by apply learn_wf.
  - destruct (processFrame_table v now src frame owned reg vs) as [[H1 H2]|(tick & _ & H1 & H2)].
    + by apply (frame_wf vs).
    + eapply frame_wf; [exact H1|exact H2|]. by apply learn_wf.
Qed.

Lemma vexec_wf ops : forall vs, vs_wf vs -> freshPorts vs ops -> vs_wf (vexec ops vs).
Proof. induction ops as [|op ops IH]; intros vs Hwf Hf; [done|]. destruct Hf. apply IH; [by apply vstep_wf|done]. Qed.

Lemma new_lookup trusted mac : macLookup (NewVSwitch trusted) mac = None.
Proof.
  unfold macLookup. cbn [NewVSwitch shards]. destruct (replicate ShardCount ∅ !! getShardIdx mac) as [sh|] eqn:E; [|done].
  by apply lookup_replicate in E as [-> _].
Qed.

Lemma new_vs_wf trusted : vs_wf (NewVSwitch trusted).
Proof. split; [done|done|]. intros m e p. by rewrite new_lookup. Qed.

(** ** Static entries *)

Definition staticAt (vs : VSwitch) (id : string) (mac : macKey) : Prop :=
  exists e, macLookup vs mac = Some e /\ static e = true /\ eportID e = id.

(** Operations other than the registration of the same address and the removal of
    its port. *)
Definition sparesStatic (id : string) (mac : macKey) (op : vop) : Prop :=
  match op with VRemovePort i => i <> id | VAddStatic _ m => m <> mac | _ => True end.

Lemma frame_lookup vs vs' mac : shards vs' = shards vs -> macLookup vs' mac = macLookup vs mac.
Proof. unfold macLookup. by intros ->. Qed.

Lemma staticAt_learn id mac src m tick vs : vs_wf vs -> staticAt vs id mac -> staticAt (learn src m tick vs).1 id mac.
Proof.
  intros Hwf (e & He & Hs & Hid). unfold learn. destruct (decide (m = mac)) as [-> |Hm].
  - rewrite He, Hs. cbn [andb]. destruct (bool_decide_reflect (eportID e <> src)) as [|Hn].
    + destruct (bool_decide _); by exists e.
    + exists (mkEntry src (ports vs !! src) tick true). cbn [fst]. rewrite macLookup_insert by apply Hwf.
      rewrite decide_True by done. split_and!; [done|done|]. cbn. rewrite <- Hid. symmetry. by apply dec_stable.
  - assert (forall x, staticAt (macInsert m x vs) id mac) as HI.
    { intros x. exists e. rewrite macLookup_insert by apply Hwf. by rewrite decide_False by congruence. }
    destruct (macLookup vs m) as [x|]; [|apply HI]. destruct (_ && _); [|apply HI]. destruct (bool_decide _); by exists e.
Qed.

Lemma staticAt_step id mac vs op : vs_wf vs -> sparesStatic id mac op -> staticAt vs id mac -> staticAt (vstep vs op) id mac.
Proof.
  intros Hwf Hop HS. pose proof HS as (e & He & Hs & Hid).
  destruct op as [p|i|i m| |src m tick|v now src frame owned reg]; cbn [vstep sparesStatic] in *.
  - by exists e.
  - exists e. rewrite remove_lookup, He. rewrite bool_decide_true by congruence. done.
  - unfold AddStaticMAC. destruct (bool_decide _); [done|]. exists e. rewrite macLookup_insert by apply Hwf.
    by rewrite decide_False by congruence.
  - unfold runCoarseClockAndPurge. destruct (_ <? 300); [by exists e|]. exists e. unfold purgeExpiredMACsAt.
    rewrite macLookup_filter. change (macLookup (set_clock _ _ vs) mac) with (macLookup vs mac). rewrite He. unfold expired. by rewrite Hs.
  - by apply staticAt_learn.
  - destruct (processFrame_table v now src frame owned reg vs) as [[H1 H2]|(tick & _ & H1 & H2)].
    + exists e. by rewrite (frame_lookup _ _ _ H1).
    + destruct (staticAt_learn id mac src (srcMAC frame) tick vs Hwf HS) as (e' & ? & ?). exists e'. by rewrite (frame_lookup _ _ _ H1).
Qed.

Lemma staticAt_exec id mac ops : forall vs, vs_wf vs -> freshPorts vs ops -> Forall (sparesStatic id mac) ops ->
  staticAt vs id mac -> staticAt (vexec ops vs) id mac.
Proof.
  induction ops as [|op ops IH]; intros vs Hwf Hf HF HS; [done|]. destruct Hf. apply Forall_cons_1 in HF as [? ?].
  apply IH; [by apply vstep_wf|done|done|]. by apply staticAt_step.
Qed.

(** Where a frame may go. *)
Definition written (o : outcome) : list Port := option_list (handed o) ++ copies o.

Lemma written_writeTo owned p : written (writeTo owned p) = [p].
Proof. unfold writeTo. by destruct (owned && pOwned p). Qed.

Lemma forward_known now src dst owned vs e : vs_wf vs -> Z.land (byte_at 0 dst) 1 <> 1 -> macLookup vs dst = Some e -> eportID e <> ""%string ->
  Forall (fun p => pID p = eportID e) (written (forward now src dst owned vs).2).
Proof.
  intros Hwf Hu He Hne. unfold forward. destruct (_ =? 1) eqn:E; [apply Z.eqb_eq in E; done|]. rewrite He.
  rewrite bool_decide_false by done. destruct (bool_decide _); [constructor|].
  destruct (eport e) as [p|] eqn:Ep; cbn [snd].
  - rewrite written_writeTo. constructor; [|done]. by eapply vw_ports, vw_cached.
  - destruct (ports vs !! eportID e) as [p|] eqn:Eq; [|constructor]. rewrite written_writeTo. constructor; [|done]. by eapply vw_ports.
Qed.

(** C26: A registered address cannot be taken over.  From the moment a session's MAC
    is pinned to its port until that port is removed (or the address is registered
    again), through any history of ports, frames with any source address from any
    port, half-done learning and ageing, the table keeps the address on that port, and
    a unicast frame for it goes to that port or nowhere. *)
Theorem static_mac_not_hijacked (trusted id : string) (mac : macKey) (ops1 ops2 : list vop)
    (v : option (string -> macKey -> bool)) (now : Z) (src : string) (frame : bytes) (owned : bool) (reg : option macKey) :
  let ops := ops1 ++ VAddStatic id mac :: ops2 in
  let vs := vexec ops (NewVSwitch trusted) in
  mac <> macZero -> id <> ""%string -> freshPorts (NewVSwitch trusted) ops -> Forall (sparesStatic id mac) ops2 ->
  dstMAC frame = mac -> Z.land (byte_at 0 mac) 1 <> 1 ->
  staticAt vs id mac /\ Forall (fun p => pID p = id) (written (processFrame v now src frame owned reg vs).2).
Proof.
  intros ops vs Hm Hid Hf HF Hd Hu. pose proof (vexec_wf ops _ (new_vs_wf trusted) Hf) as Hwf. fold vs in Hwf.
  assert (staticAt vs id mac) as HS.
  { unfold vs, ops in *. clear vs ops Hwf. revert Hf. generalize (NewVSwitch trusted) (new_vs_wf trusted).
    induction ops1 as [|op ops1 IH]; intros vs Hwf [H1 H2]; [|apply (IH (vstep vs op)); [by apply vstep_wf|done]].
    cbn [app vexec fold_left]. apply staticAt_exec; [by apply vstep_wf|done|done|].
    eexists. cbn [vstep]. unfold AddStaticMAC. rewrite bool_decide_false by done. rewrite macLookup_insert by apply Hwf.
    rewrite decide_True by done. by split_and!. }
  split; [done|]. assert (forall vs', vs_wf vs' -> staticAt vs' id mac -> Forall (fun p => pID p = id) (written (forward now src (dstMAC frame) owned vs').2)) as HFW.
  { intros vs' Hwf' (e & He & _ & He2). rewrite Hd. rewrite <- He2. apply forward_known; [done|done|done|congruence]. }
  unfold processFrame. destruct (_ <? 14)%nat; [constructor|]. destruct (checkSource _ _ _ _) as [| |tick]; [constructor|by apply HFW|].
  destruct (match v with Some f => _ | None => _ end); [constructor|].
  pose proof (learn_wf src (srcMAC frame) tick vs Hwf) as Hw. pose proof (staticAt_learn id mac src (srcMAC frame) tick vs Hwf HS) as Hs'.
  destruct (learn src (srcMAC frame) tick vs) as [vs1 [|]]; [by apply HFW|constructor].
Qed.

(** Ports that may be written to, and the single hand-over. *)
Record sound_write (vs : VSwitch) (src : string) (owned : bool) (o : outcome) : Prop := {
  sw_live : Forall (fun p => ports vs !! pID p = Some p /\ pID p <> src) (written o);
  sw_once : forall p, handed o = Some p -> owned = true /\ copies o = []
}.

Lemma sound_nothing vs src owned : sound_write vs src owned nothing.
Proof. split; [constructor|done]. Qed.

Lemma sound_writeTo vs src owned p : ports vs !! pID p = Some p -> pID p <> src -> sound_write vs src owned (writeTo owned p).
Proof.
  intros H1 H2. split; [rewrite written_writeTo; by repeat constructor|]. intros q. unfold writeTo.
  destruct owned; cbn [andb]; [|done]. destruct (pOwned p); [by intros [= <-]|done].
Qed.

Lemma sound_flood now src owned vs : vs_wf vs -> sound_write vs src owned (flood now src vs).2.
Proof.
  intros Hwf. assert (sound_write vs src owned (mkOutcome (snd <$> filter (fun kp => kp.1 <> src) (map_to_list (ports vs))) None)) as HQ.
  { split; [|done]. apply Forall_fmap, Forall_forall. intros [k p] Hin. apply list_elem_of_filter in Hin as [Hne Hin].
    apply elem_of_map_to_list in Hin. cbn in *. by rewrite (vw_ports _ Hwf _ _ Hin). }
  unfold flood. destruct (bool_decide _); [done|]. pose proof (allowFlood_frame now src vs) as [_ HA].
  destruct (allowFlood now src vs) as [vs1 [|]]; cbn [fst snd] in *; [by rewrite HA|apply sound_nothing].
Qed.

Lemma sound_forward now src dst owned vs : vs_wf vs -> sound_write vs src owned (forward now src dst owned vs).2.
Proof.
  intros Hwf. unfold forward. destruct (if _ =? 1 then None else _) as [e|] eqn:EL; [|by apply sound_flood].
  assert (macLookup vs dst = Some e) as He by (by destruct (_ =? 1)).
  destruct (bool_decide _); [by apply sound_flood|]. destruct (bool_decide_reflect (eportID e = src)) as [|Hne]; [apply sound_nothing|].
  destruct (eport e) as [p|] eqn:Ep; cbn [snd].
  - pose proof (vw_cached _ Hwf _ _ _ He Ep) as Hp. pose proof (vw_ports _ Hwf _ _ Hp). apply sound_writeTo; congruence.
  - destruct (ports vs !! eportID e) as [p|] eqn:Eq; [|apply sound_nothing]. pose proof (vw_ports _ Hwf _ _ Eq). apply sound_writeTo; congruence.
Qed.

Lemma learn_ports src mac tick vs : ports (learn src mac tick vs).1 = ports vs.
Proof. unfold learn. destruct (macLookup vs mac) as [e|]; [|done]. destruct (_ && _); [|done]. by destruct (bool_decide _). Qed.

(** Frames go to live ports only and never back: whatever the history, every port
    a frame is written to is registered in the switch at that moment, under another
    name than the frame's source; the buffer is handed over at most once, and only if
    it was owned. *)
Theorem writes_to_live_ports (trusted : string) (ops : list vop)
    (v : option (string -> macKey -> bool)) (now : Z) (src : string) (frame : bytes) (owned : bool) (reg : option macKey) :
  freshPorts (NewVSwitch trusted) ops ->
  let vs := vexec ops (NewVSwitch trusted) in
  let o := (processFrame v now src frame owned reg vs).2 in
  Forall (fun p => ports vs !! pID p = Some p /\ pID p <> src) (written o) /\
  (forall p, handed o = Some p -> owned = true /\ copies o = []).
Proof.
  intros Hf vs o. pose proof (vexec_wf ops _ (new_vs_wf trusted) Hf) as Hwf. fold vs in Hwf. clearbody vs.
  assert (sound_write vs src owned o) as [? ?]; [|done].
  unfold o, processFrame. destruct (_ <? 14)%nat; [apply sound_nothing|].
  destruct (checkSource _ _ _ _) as [| |tick]; [apply sound_nothing|by apply sound_forward|].
  destruct (match v with Some f => _ | None => _ end); [apply sound_nothing|].
  pose proof (learn_wf src (srcMAC frame) tick vs Hwf) as Hw. pose proof (learn_ports src (srcMAC frame) tick vs) as Hp.
  destruct (learn src (srcMAC frame) tick vs) as [vs1 [|]]; [|apply sound_nothing]. cbn [fst] in *.
  destruct (sound_forward now src (dstMAC frame) owned vs1 Hw). rewrite Hp in *. by split.
Qed.

(** ** Where entries come from *)

Definition teaches (mac : macKey) (src : string) (op : vop) : Prop :=
  match op with
  | VLearn s m _ => s = src /\ m = mac
  | VFrame v _ s frame _ reg => s = src /\ srcMAC frame = mac /\ learnable v s mac reg
  | _ => False
  end.
Definition registers (mac : macKey) (id : string) (op : vop) : Prop :=
  match op with VAddStatic i m => i = id /\ m = mac /\ mac <> macZero | _ => False end.

Definition explained (ops : list vop) (vs : VSwitch) : Prop := forall mac e, macLookup vs mac = Some e ->
  if static e then exists op, op ∈ ops /\ registers mac (eportID e) op else exists op, op ∈ ops /\ teaches mac (eportID e) op.

Lemma explained_mono ops op vs vs' : explained ops vs -> (forall mac e, macLookup vs' mac = Some e -> macLookup vs mac = Some e) ->
  explained (ops ++ [op]) vs'.
Proof.
  intros H Hsub mac e He. specialize (H mac e (Hsub _ _ He)).
  destruct (static e), H as (o & Ho & HT); exists o; (split; [apply elem_of_app; by left|done]).
Qed.

Lemma explained_learn ops op src mac tick vs : vs_wf vs -> explained ops vs -> teaches mac src op ->
  explained (ops ++ [op]) (learn src mac tick vs).1.
Proof.
  intros Hwf H Ht. assert (forall x, eportID x = src -> (static x = true -> exists e, macLookup vs mac = Some e /\ static e = true /\ eportID e = src) ->
    explained (ops ++ [op]) (macInsert mac x vs)) as HI.
  { intros x Hx Hst m e. rewrite macLookup_insert by apply Hwf. case_decide as Hm; [|by intros; eapply explained_mono; eauto].
    intros [= <-]. subst m. destruct (static x) eqn:Es.
    - destruct (Hst eq_refl) as (e0 & E1 & E2 & E3). specialize (H mac e0 E1). rewrite E2, E3 in H. rewrite Hx.
      destruct H as (o & Ho & Hr). exists o. split; [apply elem_of_app; by left|done].
    - exists op. split; [apply elem_of_app; right; by left|]. by rewrite Hx. }
  unfold learn. destruct (macLookup vs mac) as [e|] eqn:E; [|by apply HI].
  destruct (static e) eqn:Es; cbn [andb]; [|by apply HI].
  destruct (bool_decide_reflect (eportID e <> src)) as [|Hn].
  - destruct (bool_decide _); by apply (explained_mono _ _ vs).
  - apply HI; [done|]. intros _. exists e. split_and!; auto. by apply dec_stable.
Qed.

Lemma explained_step ops op vs : vs_wf vs -> explained ops vs -> explained (ops ++ [op]) (vstep vs op).
Proof.
  intros Hwf H. destruct op as [p|i|i m| |src m tick|v now src frame owned reg]; cbn [vstep].
  - by apply (explained_mono _ _ vs).
  - apply (explained_mono _ _ vs); [done|]. intros mac e. rewrite remove_lookup. destruct (macLookup vs mac); [|done]. by destruct (bool_decide _).
  - unfold AddStaticMAC. destruct (bool_decide_reflect (m = macZero)) as [|Hz]; [by apply (explained_mono _ _ vs)|].
    intros mac e. rewrite macLookup_insert by apply Hwf. case_decide as Hm; [|by intros; eapply explained_mono; eauto].
    intros [= <-]. cbn. exists (VAddStatic i m). split; [apply elem_of_app; right; by left|]. cbn. by subst.
  - unfold runCoarseClockAndPurge. destruct (_ <? 300); [by apply (explained_mono _ _ vs)|]. apply (explained_mono _ _ vs); [done|].
    intros mac e. unfold purgeExpiredMACsAt. rewrite macLookup_filter. change (macLookup (set_clock _ _ vs) mac) with (macLookup vs mac).
    destruct (macLookup vs mac); [|done]. by destruct (negb _).
  - by apply explained_learn.
  - destruct (processFrame_table v now src frame owned reg vs) as [[H1 _]|(tick & HL & H1 & _)].
    + apply (explained_mono _ _ vs); [done|]. intros mac e. by rewrite (frame_lookup _ _ _ H1).
    + intros mac e. rewrite (frame_lookup _ _ _ H1). by apply explained_learn.
Qed.

(** Every table entry has a cause: a static entry was registered for that port,
    and a dynamic one was learnt from a frame that carried the address as its source,
    came in on that port without a registered MAC, and passed the validation.  In
    particular an authenticated session with a registered MAC never adds an entry. *)
Theorem table_provenance (trusted : string) (ops : list vop) (mac : macKey) (e : macEntry) :
  freshPorts (NewVSwitch trusted) ops -> macLookup (vexec ops (NewVSwitch trusted)) mac = Some e ->
  if static e then exists op, op ∈ ops /\ registers mac (eportID e) op else exists op, op ∈ ops /\ teaches mac (eportID e) op.
Proof.
  intros Hf. assert (forall ops0 vs, vs_wf vs -> freshPorts vs ops -> explained ops0 vs -> explained (ops0 ++ ops) (vexec ops vs)) as HG.
  { clear Hf. induction ops as [|op ops IH]; intros ops0 vs Hwf Hf HE; [by rewrite app_nil_r|]. destruct Hf.
    replace (ops0 ++ op :: ops) with ((ops0 ++ [op]) ++ ops) by by rewrite <- app_assoc.
    apply IH; [by apply vstep_wf|done|]. by apply explained_step. }
  apply (HG [] _ (new_vs_wf trusted) Hf). intros m x. by rewrite new_lookup.
Qed.

(** ** The flood budget *)

(** Flood requests of several ports, in time order: the grants. *)
Fixpoint grants (vs : VSwitch) (reqs : list (Z * string)) : list (Z * string) :=
  match reqs with
  | [] => []
  | (now, src) :: reqs => let '(vs, ok) := allowFlood now src vs in (if ok then [(now, src)] else []) ++ grants vs reqs
  end.

Definition grantsOf (src : string) (vs : VSwitch) (reqs : list (Z * string)) : Z :=
  lenZ (filter (fun r => r.2 = src) (grants vs reqs)).

Lemma allowFlood_other now src src' vs : src' <> src -> floodBudgets (allowFlood now src' vs).1 !! src = floodBudgets vs !! src.
Proof. intros H. unfold allowFlood. destruct (floodBudgets vs !! src'); cbn; by rewrite lookup_insert_ne. Qed.

(** One request against the bucket: what it grants is covered by the tokens. *)
Lemma allowFlood_tokens now src vs b : floodBudgets vs !! src = Some b -> lastRefill b <= now -> 0 <= tokens b <= floodBurst ->
  exists b', floodBudgets (allowFlood now src vs).1 !! src = Some b' /\ lastRefill b' = now /\ 0 <= tokens b' <= floodBurst /\
    (if (allowFlood now src vs).2 then nano else 0) + tokens b' <= tokens b + floodRatePerSec * (now - lastRefill b).
Proof.
  intros Hb Hl Ht. unfold allowFlood. rewrite Hb. set (b1 := if 0 <? _ then _ else b).
  assert (lastRefill b1 = now /\ 0 <= tokens b1 <= floodBurst /\ tokens b1 <= tokens b + floodRatePerSec * (now - lastRefill b)) as (H1 & H2 & H3).
  { unfold b1, floodRatePerSec. destruct (0 <? now - lastRefill b) eqn:E; cbn [tokens lastRefill]; [|lia].
    unfold floodBurst, nano in *. split_and!; lia. }
  destruct (tokens b1 <? nano) eqn:E; cbn [negb fst snd set_drops floodBudgets]; rewrite lookup_insert_eq.
  - exists b1. split_and!; auto; lia.
  - exists (mkBudget (tokens b1 - nano) (lastRefill b1)). cbn. unfold nano in *. split_and!; auto; lia.
Qed.

Lemma grants_bound src T reqs : forall vs b, floodBudgets vs !! src = Some b -> 0 <= tokens b <= floodBurst ->
  StronglySorted Z.le (lastRefill b :: reqs.*1) -> Forall (fun r => r.1 <= T) reqs -> lastRefill b <= T ->
  nano * grantsOf src vs reqs <= tokens b + floodRatePerSec * (T - lastRefill b).
Proof.
  unfold grantsOf. induction reqs as [|[now s] reqs IH]; intros vs b Hb Ht HS HT Hl.
  { unfold lenZ, floodRatePerSec. cbn. lia. }
  rewrite fmap_cons in HS. apply StronglySorted_inv in HS as [HS HS0]. apply Forall_cons_1 in HS0 as [Hle HS0].
  apply StronglySorted_inv in HS as [HS HS1]. apply Forall_cons_1 in HT as [Hnow HT]. cbn [fst] in *. cbn [grants].
  destruct (decide (s = src)) as [-> |Hne].
  - destruct (allowFlood_tokens now src vs b Hb Hle Ht) as (b' & B1 & B2 & B3 & B4).
    destruct (allowFlood now src vs) as [vs' ok]. cbn [fst snd] in *.
    specialize (IH vs' b' B1 B3). rewrite B2 in IH. rewrite filter_app. unfold lenZ in *. rewrite length_app.
    assert (length (filter (fun r : Z * string => r.2 = src) (if ok then [(now, src)] else [])) = if ok then 1%nat else 0%nat) as ->
      by (destruct ok; [by rewrite filter_cons_True|done]).
    rewrite Nat2Z.inj_add, Z.mul_add_distr_l. unfold floodRatePerSec in *.
    specialize (IH ltac:(by constructor) HT Hnow). destruct ok; lia.
  - pose proof (allowFlood_other now src s vs Hne) as HO. destruct (allowFlood now s vs) as [vs' ok]. cbn [fst] in HO.
    rewrite filter_app. replace (filter _ (if ok then [(now, s)] else [])) with (@nil (Z * string))
      by (destruct ok; [by rewrite filter_cons_False|done]).
    apply IH; [by rewrite HO|done|by constructor|done|done].
Qed.

(** The flood budget holds: of the broadcasts and unknown unicasts that a port
    sends from its first one (at t0) until T, at most 8192 + 16384 per second are
    flooded, however the requests of other ports are interleaved. *)
Theorem flood_rate_bounded (vs : VSwitch) (src : string) (t0 T : Z) (reqs : list (Z * string)) :
  floodBudgets vs !! src = None -> StronglySorted Z.le (t0 :: reqs.*1) -> Forall (fun r => r.1 <= T) reqs -> t0 <= T ->
  nano * grantsOf src vs ((t0, src) :: reqs) <= 8192 * nano + 16384 * (T - t0).
Proof.
  intros Hn HS HT Ht. unfold grantsOf. cbn [grants]. unfold allowFlood at 1. rewrite Hn. cbn [fst snd].
  cbn [app]. rewrite filter_cons_True by done. set (vs' := set_drops _ _ _ vs).
  pose proof (grants_bound src T reqs vs' (mkBudget (floodBurst - nano) t0)) as HG.
  unfold grantsOf, floodRatePerSec, lenZ in *. cbn [length tokens lastRefill] in *. rewrite Nat2Z.inj_succ.
  unfold floodBurst in *. unfold nano in *. specialize (HG ltac:(apply lookup_insert_eq) ltac:(lia) HS HT Ht). lia.
Qed.

(** ** Ageing *)

Definition ticks (n : nat) (vs : VSwitch) : VSwitch := Nat.iter n runCoarseClockAndPurge vs.

(** Between two ticks: the clock, the countdown, and what is left of an entry. *)
Lemma tick_spec vs mac : 0 <= coarseSec vs < 2 ^ 63 -> 0 <= purgeTicks vs < 300 ->
  let vs' := runCoarseClockAndPurge vs in
  coarseSec vs' = coarseSec vs + 1 /\
  purgeTicks vs' = (if purgeTicks vs =? 299 then 0 else purgeTicks vs + 1) /\
  macLookup vs' mac = match macLookup vs mac with
                      | Some e => if (purgeTicks vs =? 299) && expired (coarseSec vs + 1) e then None else Some e
                      | None => None
                      end.
Proof.
  intros Hc Hp. unfold runCoarseClockAndPurge. rewrite u64_small, u32_small by (widths; lia).
  destruct (purgeTicks vs =? 299) eqn:E; destruct (purgeTicks vs + 1 <? 300) eqn:E1; try lia; cbn [andb].
  - split_and!; [done|done|]. unfold purgeExpiredMACsAt. rewrite macLookup_filter.
    change (macLookup (set_clock _ _ vs) mac) with (macLookup vs mac). destruct (macLookup vs mac) as [e|]; [|done]. by destruct (expired _ e).
  - split_and!; [done|done|]. change (macLookup (set_clock _ _ vs) mac) with (macLookup vs mac). by destruct (macLookup vs mac).
Qed.

Lemma ticks_spec mac e n : forall vs, macLookup vs mac = Some e -> 0 <= coarseSec vs -> 0 <= purgeTicks vs < 300 ->
  0 <= updatedTick e <= coarseSec vs -> coarseSec vs + Z.of_nat n < 2 ^ 63 ->
  coarseSec (ticks n vs) = coarseSec vs + Z.of_nat n /\ purgeTicks (ticks n vs) = (purgeTicks vs + Z.of_nat n) mod 300 /\
  (macLookup (ticks n vs) mac = Some e \/ static e = false /\ macLookup (ticks n vs) mac = None) /\
  (static e = false -> (exists m, (0 < m <= n)%nat /\ (purgeTicks vs + Z.of_nat m) mod 300 = 0 /\ 1800 < coarseSec vs + Z.of_nat m - updatedTick e) ->
   macLookup (ticks n vs) mac = None).
Proof.
  intros vs He Hc Hp Hu Hb. induction n as [|n IH].
  { cbn. rewrite !Z.add_0_r, Z.mod_small by lia. split_and!; auto. intros _ (m & ? & _). lia. }
  destruct IH as (I1 & I2 & I3 & I4); [lia|]. change (ticks (S n) vs) with (runCoarseClockAndPurge (ticks n vs)).
  pose proof (Z.mod_pos_bound (purgeTicks vs + Z.of_nat n) 300 ltac:(lia)) as HM.
  destruct (tick_spec (ticks n vs) mac) as (T1 & T2 & T3); [rewrite I1; lia|rewrite I2; lia|].
  rewrite T1, T2, T3, I1, I2. rewrite Nat2Z.inj_succ.
  assert ((if (purgeTicks vs + Z.of_nat n) mod 300 =? 299 then 0 else (purgeTicks vs + Z.of_nat n) mod 300 + 1) = (purgeTicks vs + Z.succ (Z.of_nat n)) mod 300) as HE.
  { replace (purgeTicks vs + Z.succ (Z.of_nat n)) with (purgeTicks vs + Z.of_nat n + 1) by lia.
    rewrite (Z.add_mod _ 1) by lia. rewrite (Z.mod_small 1) by lia.
    destruct ((purgeTicks vs + Z.of_nat n) mod 300 =? 299) eqn:E.
    - apply Z.eqb_eq in E. by rewrite E.
    - symmetry. apply Z.mod_small. lia. }
  split_and!; [lia|done| |].
  - destruct I3 as [-> |[Hs ->]]; [|by right]. destruct (_ && expired _ e) eqn:E; [|by left]. right. split; [|done].
    apply andb_true_iff in E as [_ E]. unfold expired in E. by destruct (static e).
  - intros Hs (m & Hm & Hz & Hage). destruct (decide (m = S n)) as [-> |Hmn].
    + destruct I3 as [-> |[_ ->]]; [|done]. rewrite Nat2Z.inj_succ in Hz, Hage. rewrite <- HE in Hz.
      destruct ((purgeTicks vs + Z.of_nat n) mod 300 =? 299); [|lia]. unfold expired. rewrite Hs. cbn [negb andb]. rewrite u64_small by (widths; lia).
      unfold maxAgeSec. destruct (1800 <? _) eqn:E2; [done|lia].
    + rewrite (I4 Hs); [done|]. exists m. split_and!; auto; lia.
Qed.

(** Ageing: a dynamic entry that is not refreshed is gone at the latest 2100
    seconds (30 minutes and one purge period) after it was learnt; a static entry
    stays. *)
Theorem mac_ages_out (vs : VSwitch) (mac : macKey) (e : macEntry) (n : nat) :
  macLookup vs mac = Some e -> 0 <= coarseSec vs -> 0 <= purgeTicks vs < 300 -> 0 <= updatedTick e <= coarseSec vs ->
  coarseSec vs + Z.of_nat n < 2 ^ 63 ->
  if static e then macLookup (ticks n vs) mac = Some e
  else 2100 < coarseSec vs + Z.of_nat n - updatedTick e -> (300 <= n)%nat -> macLookup (ticks n vs) mac = None.
Proof.
  intros He Hc Hp Hu Hb. destruct (ticks_spec mac e n vs He Hc Hp Hu Hb) as (_ & _ & H1 & H2).
  destruct (static e); [destruct H1 as [?|[? _]]; done|]. intros Hage Hn. apply H2; [done|].
  pose proof (Z.mod_pos_bound (purgeTicks vs + Z.of_nat n) 300 ltac:(lia)) as HM.
  exists (n - Z.to_nat ((purgeTicks vs + Z.of_nat n) mod 300))%nat. split_and!; [lia|lia| |lia].
  rewrite Nat2Z.inj_sub by lia. rewrite Z2Nat.id by lia.
  replace (_ + (_ - _)) with (purgeTicks vs + Z.of_nat n - (purgeTicks vs + Z.of_nat n) mod 300) by lia.
  rewrite Zminus_mod_idemp_r, Z.sub_diag. done.
Qed.

(** ** Witnesses *)

Definition demoMac : macKey := [2; 0; 0; 0; 0; 9].
Definition demoEth (dst src : macKey) : bytes := dst ++ src ++ [8; 0; 1].
Definition demoVops : list vop :=
  [VAddPort (mkPort 1 "s1" true); VAddPort (mkPort 2 "s2" true); VAddStatic "s1" demoMac; VTick;
   VFrame None 0 "s2" (demoEth (replicate 6 255) demoMac) true None; VLearn "s2" demoMac 7;
   VFrame None 0 "s2" (demoEth (replicate 6 255) [2; 0; 0; 0; 0; 5]) true None].

Lemma static_mac_not_hijacked_witness :
  let vs := vexec demoVops (NewVSwitch "TAP_LOCAL") in
  staticAt vs "s1" demoMac /\
  Forall (fun p => pID p = "s1"%string) (written (processFrame None 9 "s2" (demoEth demoMac [2; 0; 0; 0; 0; 5]) true None vs).2).
Proof.
  apply (static_mac_not_hijacked "TAP_LOCAL" "s1" demoMac (take 2 demoVops) (drop 3 demoVops) None 9 "s2"
           (demoEth demoMac [2; 0; 0; 0; 0; 5]) true None); try done; by repeat constructor.
Defined.

Lemma writes_to_live_ports_witness :
  let vs := vexec demoVops (NewVSwitch "TAP_LOCAL") in
  let o := (processFrame None 9 "s2" (demoEth demoMac [2; 0; 0; 0; 0; 5]) true None vs).2 in
  Forall (fun p => ports vs !! pID p = Some p /\ pID p <> "s2"%string) (written o) /\
  (forall p, handed o = Some p -> true = true /\ copies o = []).
Proof. apply (writes_to_live_ports "TAP_LOCAL" demoVops None 9 "s2" (demoEth demoMac [2; 0; 0; 0; 0; 5]) true None). by vm_compute. Defined.

Lemma table_provenance_witness : exists op, op ∈ demoVops /\ teaches [2; 0; 0; 0; 0; 5] "s2" op.
Proof.
  apply (table_provenance "TAP_LOCAL" demoVops [2; 0; 0; 0; 0; 5] (mkEntry "s2" (Some (mkPort 2 "s2" true)) 2 false)); by vm_compute.
Defined.

Lemma flood_rate_bounded_witness :
  nano * grantsOf "s2" (NewVSwitch "TAP_LOCAL") ((5, "s2"%string) :: [(6, "s1"%string); (7, "s2"%string)]) <= 8192 * nano + 16384 * (7 - 5).
Proof.
  apply (flood_rate_bounded (NewVSwitch "TAP_LOCAL") "s2" 5 7 [(6, "s1"%string); (7, "s2"%string)]); [done| | |lia].
  - repeat (apply SSorted_cons || apply SSorted_nil || apply Forall_cons_2 || apply Forall_nil_2); cbn; lia.
  - repeat (apply Forall_cons_2 || apply Forall_nil_2); cbn; lia.
Defined.

Lemma mac_ages_out_witness : macLookup (ticks 2101 (vexec demoVops (NewVSwitch "TAP_LOCAL"))) [2; 0; 0; 0; 0; 5] = None.
Proof.
  apply (mac_ages_out (vexec demoVops (NewVSwitch "TAP_LOCAL")) [2; 0; 0; 0; 0; 5] (mkEntry "s2" (Some (mkPort 2 "s2" true)) 2 false) 2101);
    vm_compute; try (split; discriminate); try done; lia.
Defined.
