(* ===== verification/Guards.v ===== *)
(** * Admission guards of the server (server.go)

    The connection limiter of the listener, the budget of failed PSK checks per
    remote host, and the ban list.  Hosts are the strings net.SplitHostPort returns
    (or the whole address when it fails); times are in nanoseconds, ban expiries in
    milliseconds. *)

From stdpp Require Import base tactics list numbers gmap strings sorting.
From S2P Require Import Prelude.
#[local] Open Scope Z_scope.

(** ** connectionLimiter *)

Definition maxAcceptedConnections : Z := 256.
Definition maxConnectionsPerIP : Z := 16.

Record connectionLimiter := mkLimiter { ltotal : Z; lbyIP : gmap string Z }.

(** A missing key of a Go map reads as zero. *)
Definition byIP (l : connectionLimiter) (host : string) : Z := default 0 (lbyIP l !! host).

Definition acquire (host : string) (l : connectionLimiter) : connectionLimiter * bool :=
  if (maxAcceptedConnections <=? ltotal l) || (maxConnectionsPerIP <=? byIP l host) then (l, false) else
  (mkLimiter (ltotal l + 1) (<[host := byIP l host + 1]> (lbyIP l)), true).

Definition release (host : string) (l : connectionLimiter) : connectionLimiter :=
  mkLimiter (ltotal l - 1)
            (if byIP l host <=? 1 then delete host (lbyIP l) else <[host := byIP l host - 1]> (lbyIP l)).

(** The listener: an accepted connection is released once, when it ends. *)
Inductive limEvent := LAccept (host : string) | LEnd (i : nat).

Definition limStep (s : connectionLimiter * list string) (ev : limEvent) : connectionLimiter * list string :=
  let '(l, open) := s in
  match ev with
  | LAccept host => let '(l, ok) := acquire host l in (l, if ok then host :: open else open)
  | LEnd i => match open !! i with Some host => (release host l, delete i open) | None => s end
  end.
Definition limExec (evs : list limEvent) : connectionLimiter * list string := fold_left limStep evs (mkLimiter 0 ∅, []).

Definition countOf (host : string) (open : list string) : Z := lenZ (filter (fun h => h = host) open).

Record lim_inv (s : connectionLimiter * list string) : Prop := {
  li_total : ltotal s.1 = lenZ s.2;
  li_host : forall h, byIP s.1 h = countOf h s.2;
  li_keys : forall h n, lbyIP s.1 !! h = Some n -> 0 < n;
  li_max : lenZ s.2 <= maxAcceptedConnections;
  li_maxIP : forall h, countOf h s.2 <= maxConnectionsPerIP
}.

Lemma countOf_cons h host open : countOf h (host :: open) = (if decide (host = h) then 1 else 0) + countOf h open.
Proof. unfold countOf, lenZ. rewrite filter_cons. case_decide; [|done]. cbn [length]. lia. Qed.

Lemma countOf_delete h host open i : open !! i = Some host -> countOf h (delete i open) = countOf h open - (if decide (host = h) then 1 else 0).
Proof.
  intros Hi. pose proof (delete_Permutation _ _ _ Hi) as HP.
  assert (countOf h open = countOf h (host :: delete i open)) as ->.
  { unfold countOf, lenZ. by rewrite HP at 1. }
  rewrite countOf_cons. lia.
Qed.

Lemma limStep_inv s ev : lim_inv s -> lim_inv (limStep s ev).
Proof.
  destruct s as [l open]. intros [H1 H2 H3 H4 H5]. cbn [fst snd] in *. destruct ev as [host|i]; cbn [limStep].
  - unfold acquire. destruct ((_ <=? _) || _) eqn:E; [by split|]. apply orb_false_iff in E as [E1 E2].
    assert (lenZ (host :: open) = lenZ open + 1) as HL by (unfold lenZ; cbn [length]; lia).
    split; cbn [fst snd ltotal lbyIP].
    + lia.
    + intros h. rewrite countOf_cons, <- !H2. unfold byIP at 1. cbn [lbyIP]. case_decide as Hd.
      * subst h. rewrite lookup_insert_eq. cbn. lia.
      * by rewrite lookup_insert_ne by done.
    + intros h n. rewrite lookup_insert_Some. intros [[<- <-]|[_ ?]]; [|by eauto]. unfold byIP.
      destruct (lbyIP l !! host) as [m|] eqn:Em; cbn; [|lia]. specialize (H3 _ _ Em). lia.
    + unfold maxAcceptedConnections in *. lia.
    + intros h. rewrite countOf_cons. case_decide as Hd; [subst h; rewrite <- H2; lia|]. apply H5.
  - destruct (open !! i) as [host|] eqn:Ei; [|by split].
    assert (lenZ open = lenZ (delete i open) + 1) as HL.
    { unfold lenZ. rewrite (length_delete open i) by eauto. apply lookup_lt_Some in Ei. lia. }
    assert (forall h, 0 <= countOf h (delete i open)) as Hpos by (intros; unfold countOf, lenZ; lia).
    pose proof (countOf_delete host host open i Ei) as Hc. rewrite decide_True in Hc by done. specialize (Hpos host).
    split; cbn [fst snd release ltotal lbyIP].
    + lia.
    + intros h. rewrite (countOf_delete h host) by done. rewrite <- H2. unfold byIP at 1. cbn [release lbyIP]. case_decide as Hd.
      * subst h. destruct (byIP l host <=? 1) eqn:E; [rewrite lookup_delete_eq|rewrite lookup_insert_eq]; cbn; rewrite H2 in *; lia.
      * destruct (byIP l host <=? 1); [rewrite lookup_delete_ne by done|rewrite lookup_insert_ne by done]; unfold byIP; lia.
    + intros h n. destruct (byIP l host <=? 1) eqn:E; [rewrite lookup_delete_Some|rewrite lookup_insert_Some].
      * intros [_ ?]; by eauto.
      * intros [[<- <-]|[_ ?]]; [lia|by eauto].
    + lia.
    + intros h. rewrite (countOf_delete h host) by done. specialize (H5 h). case_decide; lia.
Qed.

(** The connection limiter: at every moment at most 256 connections are open and
    at most 16 per host, the counters are exactly the numbers of open connections, and
    no entry is kept for a host without one. *)
Theorem limiter_exact (evs : list limEvent) :
  let '(l, open) := limExec evs in
  ltotal l = lenZ open /\ lenZ open <= 256 /\
  (forall host, byIP l host = countOf host open /\ countOf host open <= 16) /\
  (forall host, is_Some (lbyIP l !! host) -> host ∈ open).
Proof.
  assert (lim_inv (limExec evs)) as HI.
  { unfold limExec. assert (lim_inv (mkLimiter 0 ∅, [])) as H0 by (split; cbn; try done; intros; by rewrite ?lookup_empty in *).
    revert H0. generalize (mkLimiter 0 ∅, @nil string). induction evs as [|ev evs IH]; intros s Hs; [done|]. by apply IH, limStep_inv. }
  destruct (limExec evs) as [l open]. destruct HI as [H1 H2 H3 H4 H5]. cbn [fst snd] in *. split_and!; auto.
  intros host [n Hn]. specialize (H3 _ _ Hn). specialize (H2 host). unfold byIP in H2. rewrite Hn in H2. cbn in H2.
  destruct (filter (fun h => h = host) open) as [|x rest] eqn:E.
  - unfold countOf, lenZ in H2. rewrite E in H2. cbn in H2. lia.
  - assert (x ∈ filter (fun h => h = host) open) as Hx by (rewrite E; by left). apply list_elem_of_filter in Hx as [-> ?]. done.
Qed.

(** ** Failed PSK checks *)

Record pskFailBucket := mkBucket { pcount : Z; pfirst : Z }.

Definition pskFailLimit : Z := 5.
Definition pskFailWindow : Z := 60 * 1000000000.
Definition pskFailEntryMax : nat := 1024.
Definition pskFailBucketTTL : Z := 10 * pskFailWindow.

Abbreviation pskTable := (gmap string pskFailBucket).

(** [now1] is read for the clean-up, [now2] for the bucket. *)
Definition pskFailExceeded (now1 now2 : Z) (remote : string) (t : pskTable) : pskTable * bool :=
  let t := if (pskFailEntryMax <? size t)%nat
           then filter (fun kb => now1 - pfirst kb.2 <= pskFailBucketTTL) t else t in
  match t !! remote with
  | Some b =>
    if pskFailWindow <? now2 - pfirst b then (<[remote := mkBucket 1 now2]> t, false)
    else (<[remote := mkBucket (pcount b + 1) (pfirst b)]> t, pskFailLimit <? pcount b + 1)
  | None => (<[remote := mkBucket 1 now2]> t, false)
  end.

(** Failed checks over time: those that are not cut off at once. *)
Fixpoint tolerated (t : pskTable) (fails : list (Z * Z * string)) : list (Z * string) :=
  match fails with
  | [] => []
  | (now1, now2, host) :: fails =>
    let '(t, exceeded) := pskFailExceeded now1 now2 host t in
    (if exceeded then [] else [(now2, host)]) ++ tolerated t fails
  end.
Definition toleratedOf (host : string) (t : pskTable) (fails : list (Z * Z * string)) : Z :=
  lenZ (filter (fun r => r.2 = host) (tolerated t fails)).

(** Clock readings in order. *)
Fixpoint clockFrom (t0 : Z) (fails : list (Z * Z * string)) : Prop :=
  match fails with [] => True | (now1, now2, _) :: fails => t0 <= now1 <= now2 /\ clockFrom now2 fails end.

(** What is left of the budget of a host at [t]: what its window still allows, and
    five for each later window. *)
Definition allowance (T : Z) (host : string) (t : pskTable) (now : Z) : Z :=
  match t !! host with
  | Some b => if pskFailWindow <? now - pfirst b then pskFailLimit * (1 + (T - now) / pskFailWindow)
              else Z.max 0 (pskFailLimit - pcount b) + pskFailLimit * Z.max 0 ((T - pfirst b) / pskFailWindow)
  | None => pskFailLimit * (1 + (T - now) / pskFailWindow)
  end.

Lemma allowance_later T host t now now' : now <= now' <= T -> allowance T host t now' <= allowance T host t now.
Proof.
  intros H. unfold allowance, pskFailLimit. assert ((T - now') / pskFailWindow <= (T - now) / pskFailWindow) as HD.
  { apply Z.div_le_mono; unfold pskFailWindow; lia. }
  destruct (t !! host) as [b|]; [|lia]. destruct (pskFailWindow <? now' - pfirst b) eqn:E1, (pskFailWindow <? now - pfirst b) eqn:E2; try lia.
  assert (1 + (T - now') / pskFailWindow <= (T - pfirst b) / pskFailWindow); [|lia].
  rewrite <- (Z.div_add_l 1 pskFailWindow) by (unfold pskFailWindow; lia). apply Z.div_le_mono; unfold pskFailWindow in *; lia.
Qed.

(** The clean-up only forgets windows that are over. *)
Lemma allowance_cleanup T host now1 now t : now1 <= now ->
  allowance T host (filter (fun kb => now1 - pfirst kb.2 <= pskFailBucketTTL) t) now = allowance T host t now.
Proof.
  intros H. unfold allowance. destruct (t !! host) as [b|] eqn:E.
  - destruct (decide (now1 - pfirst b <= pskFailBucketTTL)) as [Hd|Hd].
    + assert (filter (fun kb => now1 - pfirst kb.2 <= pskFailBucketTTL) t !! host = Some b) as ->; [|done].
      by apply map_lookup_filter_Some.
    + assert (filter (fun kb => now1 - pfirst kb.2 <= pskFailBucketTTL) t !! host = None) as ->.
      { apply map_lookup_filter_None. right. intros x Hx. rewrite E in Hx. by injection Hx as <-. }
      destruct (pskFailWindow <? now - pfirst b) eqn:E1; [done|]. unfold pskFailBucketTTL, pskFailWindow in *. lia.
  - assert (filter (fun kb => now1 - pfirst kb.2 <= pskFailBucketTTL) t !! host = None) as ->; [|done].
    apply map_lookup_filter_None. by left.
Qed.

Lemma allowance_insert T host h b t now : h <> host -> allowance T host (<[h := b]> t) now = allowance T host t now.
Proof. intros H. unfold allowance. by rewrite lookup_insert_ne. Qed.

Lemma pskFail_step T host now1 now2 h t t0 : t0 <= now1 -> now1 <= now2 <= T ->
  let '(t', exceeded) := pskFailExceeded now1 now2 h t in
  (if exceeded then 0 else if decide (h = host) then 1 else 0) + allowance T host t' now2 <= allowance T host t t0.
Proof.
  intros H0 H12. pose proof (allowance_later T host t t0 now2 ltac:(lia)) as HL. revert HL. generalize (allowance T host t t0). intros lim HL.
  unfold pskFailExceeded. set (t1 := if (_ <? _)%nat then _ else t).
  assert (allowance T host t now2 = allowance T host t1 now2) as HE by (unfold t1; destruct (_ <? _)%nat; [by rewrite allowance_cleanup by lia|done]).
  rewrite HE in HL. clear HE.
  clearbody t1. clear t. destruct (decide (h = host)) as [-> |Hne].
  2:{ destruct (t1 !! h) as [b|]; [destruct (_ <? _); [|destruct (_ <? pcount b + 1)]|]; rewrite allowance_insert by done; lia. }
  assert (allowance T host (<[host := mkBucket 1 now2]> t1) now2 + 1 <= pskFailLimit * (1 + (T - now2) / pskFailWindow)) as HN.
  { unfold allowance. rewrite lookup_insert_eq. cbn [pfirst pcount]. rewrite Z.sub_diag. unfold pskFailLimit. cbn [Z.ltb].
    destruct (pskFailWindow <? 0) eqn:E; [unfold pskFailWindow in E; lia|].
    pose proof (Z.div_pos (T - now2) pskFailWindow ltac:(lia) ltac:(unfold pskFailWindow; lia)). lia. }
  unfold allowance in HL. destruct (t1 !! host) as [b|]; [|lia]. destruct (pskFailWindow <? now2 - pfirst b) eqn:E; [lia|].
  unfold allowance. rewrite lookup_insert_eq. cbn [pfirst pcount]. rewrite E. unfold pskFailLimit in *. destruct (5 <? pcount b + 1) eqn:E1; lia.
Qed.

(** Guessing is limited per host: of the failed PSK checks that one remote host
    causes between t0 and T, at most five per started minute get a tar-pit answer; the
    rest are cut off, however the failures of other hosts are interleaved and however
    often the table is cleaned up. *)
Theorem pskfail_budget (host : string) (fails : list (Z * Z * string)) (t0 T : Z) :
  clockFrom t0 fails -> Forall (fun f => f.1.2 <= T) fails -> t0 <= T ->
  toleratedOf host ∅ fails <= 5 * (1 + (T - t0) / pskFailWindow).
Proof.
  intros HC HT Ht. change (5 * _) with (allowance T host ∅ t0). revert t0 HC Ht. generalize (∅ : pskTable).
  unfold toleratedOf. induction fails as [|[[now1 now2] h] fails IH]; intros t t0 HC Ht; cbn [tolerated].
  { unfold lenZ. cbn. unfold allowance, pskFailLimit, pskFailWindow. destruct (t !! host) as [b|].
    - destruct (_ <? _) eqn:E; [pose proof (Z.div_pos (T - t0) (60 * 1000000000))|]; lia.
    - pose proof (Z.div_pos (T - t0) (60 * 1000000000)). lia. }
  destruct HC as [[H1 H2] HC]. apply Forall_cons_1 in HT as [HT0 HT]. cbn [fst snd] in HT0.
  pose proof (pskFail_step T host now1 now2 h t t0 H1 ltac:(lia)) as HS.
  destruct (pskFailExceeded now1 now2 h t) as [t' ex]. specialize (IH HT t' now2 HC HT0).
  rewrite filter_app. unfold lenZ in *. rewrite length_app.
  assert (Z.of_nat (length (filter (fun r : Z * string => r.2 = host) (if ex then [] else [(now2, h)]))) =
          if ex then 0 else if decide (h = host) then 1 else 0) as HL.
  { destruct ex; [done|]. rewrite filter_cons. cbn [snd]. by case_decide. }
  lia.
Qed.

(** ** The ban list *)

Definition unixMilli (t : Z) : Z := t / 1000000.

Abbreviation banTable := (gmap string Z).

Definition banEntry (now : Z) (id : string) (ttl : Z) (b : banTable) : banTable * bool :=
  if bool_decide (id = ""%string) then (b, false) else
  (<[id := if ttl <=? 0 then 0 else unixMilli (now + ttl)]> b, true).

Definition Unban (id : string) (b : banTable) : banTable := delete id b.

Definition IsBanned (now : Z) (id : string) (b : banTable) : banTable * bool :=
  if bool_decide (id = ""%string) then (b, false) else
  match b !! id with
  | None => (b, false)
  | Some exp => if (0 <? exp) && (exp <=? unixMilli now) then (delete id b, false) else (b, true)
  end.

(** The snapshot: remaining seconds, 0 for a permanent ban. *)
Definition BanList (now : Z) (b : banTable) : banTable * gmap string Z :=
  let nowMs := unixMilli now in
  (filter (fun ie => ie.2 = 0 \/ nowMs < ie.2) b,
   (fun exp => if exp =? 0 then 0 else (exp - nowMs) / 1000) <$> filter (fun ie => ie.2 = 0 \/ nowMs < ie.2) b).

Inductive banOp := BBan (now : Z) (id : string) (ttl : Z) | BUnban (id : string) | BQuery (now : Z) (id : string) | BList (now : Z).

Definition banStep (b : banTable) (op : banOp) : banTable :=
  match op with
  | BBan now id ttl => (banEntry now id ttl b).1
  | BUnban id => Unban id b
  | BQuery now id => (IsBanned now id b).1
  | BList now => (BanList now b).1
  end.

(** Operations that neither renew nor lift the ban of [id], at times up to [t]. *)
Definition banNeutral (id : string) (t : Z) (op : banOp) : Prop :=
  match op with BBan _ i _ => i <> id | BUnban i => i <> id | BQuery now _ => now <= t | BList now => now <= t end.

Lemma unixMilli_mono a b : a <= b -> unixMilli a <= unixMilli b.
Proof. intros. apply Z.div_le_mono; lia. Qed.

Definition banLive (exp now : Z) : Prop := exp = 0 \/ unixMilli now < exp.

(** Until it is over, the ban of [id] survives every neutral operation; afterwards it
    is there or already cleared. *)
Lemma banStep_keeps id t exp b op : 0 <= exp -> banNeutral id t op ->
  (banLive exp t -> b !! id = Some exp -> banStep b op !! id = Some exp) /\
  (b !! id = Some exp \/ b !! id = None -> banStep b op !! id = Some exp \/ banStep b op !! id = None).
Proof.
  intros He Hop. destruct op as [now i ttl|i|now i|now]; cbn [banStep banNeutral] in *.
  - unfold banEntry. destruct (bool_decide _); cbn [fst]; [auto|]. rewrite lookup_insert_ne by done. auto.
  - unfold Unban. rewrite lookup_delete_ne by done. auto.
  - unfold IsBanned. destruct (bool_decide _); cbn [fst]; [auto|]. destruct (b !! i) as [e|] eqn:E; cbn [fst]; [|auto].
    destruct ((0 <? e) && _) eqn:E1; cbn [fst]; [|auto]. destruct (decide (i = id)) as [-> |Hne].
    + rewrite lookup_delete_eq. split; [|auto]. intros Hl Hb. rewrite E in Hb. injection Hb as ->. exfalso.
      pose proof (unixMilli_mono now t Hop). unfold banLive in Hl. apply andb_true_iff in E1 as [? ?]. lia.
    + rewrite lookup_delete_ne by done. auto.
  - cbn [BanList fst]. split.
    + intros Hl Hb. apply map_lookup_filter_Some. split; [done|]. cbn. destruct Hl as [->|Hl]; [by left|]. right.
      pose proof (unixMilli_mono now t Hop). lia.
    + intros Hb. rewrite map_lookup_filter. destruct Hb as [-> | ->]; cbn; [|by right]. case_guard; cbn; auto.
Qed.

(** A ban lasts exactly as long as it says: after Ban(id, ttl), whatever else is
    banned, lifted, listed or queried in between, IsBanned(id) is true for ever if
    ttl <= 0, and otherwise until the millisecond of its expiry and false from then on. *)
Theorem ban_duration (b : banTable) (id : string) (now0 ttl t : Z) (ops : list banOp) :
  id <> ""%string -> 0 <= now0 -> 0 <= unixMilli (now0 + ttl) - 1 \/ ttl <= 0 -> Forall (banNeutral id t) ops ->
  (IsBanned t id (fold_left banStep ops (banEntry now0 id ttl b).1)).2 = (ttl <=? 0) || (unixMilli t <? unixMilli (now0 + ttl)).
Proof.
  intros Hid H0 Hexp HF. unfold banEntry. rewrite bool_decide_false by done. cbn [fst].
  set (exp := if ttl <=? 0 then 0 else unixMilli (now0 + ttl)).
  assert (0 <= exp /\ (exp = 0 <-> ttl <= 0)) as [He He0] by (unfold exp; destruct (ttl <=? 0) eqn:E; lia).
  assert ((ttl <=? 0) || (unixMilli t <? unixMilli (now0 + ttl)) = bool_decide (banLive exp t)) as ->.
  { unfold banLive, exp. destruct (ttl <=? 0) eqn:E; cbn [orb]; [by rewrite bool_decide_true by auto|].
    destruct (_ <? _) eqn:E2; [rewrite bool_decide_true by lia|rewrite bool_decide_false by lia]; done. }
  set (b1 := <[id := exp]> b). assert (b1 !! id = Some exp) as Hb by apply lookup_insert_eq. clearbody b1 exp.
  assert ((banLive exp t -> fold_left banStep ops b1 !! id = Some exp) /\ (fold_left banStep ops b1 !! id = Some exp \/ fold_left banStep ops b1 !! id = None)) as [H1 H2].
  { assert (banLive exp t -> b1 !! id = Some exp) as A1 by auto. assert (b1 !! id = Some exp \/ b1 !! id = None) as A2 by auto. clear Hb.
    revert b1 A1 A2. induction HF as [|op ops Hop HF IH]; intros b1 A1 A2; [auto|].
    destruct (banStep_keeps id t exp b1 op He Hop) as [K1 K2]. apply IH; auto. }
  unfold IsBanned. rewrite bool_decide_false by done. destruct (bool_decide_reflect (banLive exp t)) as [Hl|Hl].
  - rewrite (H1 Hl). unfold banLive in Hl. destruct ((0 <? exp) && _) eqn:E; [|done]. lia.
  - destruct H2 as [-> | ->]; [|done]. unfold banLive in Hl. destruct ((0 <? exp) && _) eqn:E; [done|]. lia.
Qed.

(** ** Witnesses *)

Lemma pskfail_budget_witness :
  toleratedOf "h" ∅ ((fun i => (i, i, "h"%string)) <$> seqZ 0 20) <= 5 * (1 + (19 - 0) / pskFailWindow).
Proof.
  apply (pskfail_budget "h" ((fun i => (i, i, "h"%string)) <$> seqZ 0 20) 0 19); [..|lia].
  - vm_compute. repeat split; discriminate.
  - apply (bool_decide_unpack _). vm_compute. exact I.
Defined.

Lemma ban_duration_witness :
  (IsBanned 3000000 "id" (fold_left banStep [BQuery 2 "id"; BUnban "x"; BList 1000] (banEntry 1000000 "id" 5000000 ∅).1)).2 = true.
Proof.
  rewrite (ban_duration ∅ "id" 1000000 5000000 3000000 [BQuery 2 "id"; BUnban "x"; BList 1000]); [reflexivity|done|lia| |].
  - left. vm_compute. discriminate.
  - repeat (apply Forall_cons_2 || apply Forall_nil_2); cbn; lia || done.
Defined.
