(* ===== verification/Ident.v ===== *)
(** * Identifiers of a handshake (utils.go, server.go)

    MAC addresses, client ids, client instances and session tokens as the server
    parses and validates them.  Go strings are byte sequences; a [range] loop over a
    string decodes UTF-8, with U+FFFD for each invalid byte. *)

From stdpp Require Import base tactics list numbers strings.
From S2P Require Import Prelude Aead.
#[local] Open Scope Z_scope.

Definition isHexDigit (c : Z) : bool :=
  (48 <=? c) && (c <=? 57) || (97 <=? c) && (c <=? 102) || (65 <=? c) && (c <=? 70).

Definition hexVal (c : Z) : option Z :=
  if (48 <=? c) && (c <=? 57) then Some (c - 48)
  else if (97 <=? c) && (c <=? 102) then Some (c - 87)
  else if (65 <=? c) && (c <=? 70) then Some (c - 55)
  else None.

(** strings.Split by one byte. *)
Fixpoint splitOn (c : Z) (s : bytes) : list bytes :=
  match s with
  | [] => [[]]
  | x :: s => if x =? c then [] :: splitOn c s
              else match splitOn c s with [] => [[x]] | p :: ps => (x :: p) :: ps end
  end.

(** strconv.ParseUint(p, 16, 8) of a two-byte part. *)
Definition parsePart (p : bytes) : option Z :=
  match p with
  | [a; b] => match hexVal a, hexVal b with Some x, Some y => Some (16 * x + y) | _, _ => None end
  | _ => None
  end.

Definition parseMACKey (s : bytes) : option bytes :=
  let parts := splitOn 58 s in
  if (length parts =? 6)%nat then mapM parsePart parts else None.

Definition hexDigit (x : Z) : Z := if x <? 10 then 48 + x else 87 + x.
Definition fmtByte (b : Z) : bytes := [hexDigit (b / 16); hexDigit (b mod 16)].
Fixpoint joinColon (ps : list bytes) : bytes :=
  match ps with [] => [] | [p] => p | p :: ps => p ++ 58 :: joinColon ps end.
Definition fmtMAC (m : bytes) : bytes := joinColon (fmtByte <$> m).

(** encoding/hex.  Texts that are only compared are strings. *)
Definition hexEncode (s : bytes) : bytes := concat (fmtByte <$> s).
Fixpoint bytes_str (b : bytes) : string :=
  match b with [] => EmptyString | x :: b => String (Ascii.ascii_of_N (Z.to_N x)) (bytes_str b) end.

(** The digest of a PSK that stands for it on the wire, over SHA-256. *)
Definition pskKey (sha256 : bytes -> bytes) (psk : string) : bytes := sha256 (str_bytes psk).
Definition hashPSK (sha256 : bytes -> bytes) (psk : string) : string := bytes_str (hexEncode (pskKey sha256 psk)).

Definition isValidMACString (s : bytes) : bool :=
  match parseMACKey s with
  | None => false
  | Some m => negb (bool_decide (m = zeros 6)) && (Z.land (byte_at 0 m) 1 =? 0)
  end.

Definition isInstanceByte (c : Z) : bool :=
  (48 <=? c) && (c <=? 57) || (97 <=? c) && (c <=? 122) || (65 <=? c) && (c <=? 90) || (c =? 45).
Definition isValidClientInstance (s : bytes) : bool :=
  (16 <=? length s)%nat && (length s <=? 64)%nat && forallb isInstanceByte s.

Definition validSessionTokenFormat (token : bytes) : bool := (length token =? 64)%nat && forallb isHexDigit token.

(** ** range over a string *)

Definition contByte (b : Z) : bool := Z.land b 192 =? 128.

(** The rune at the front of a non-empty string and its width. *)
Definition decodeRune (s : bytes) : Z * nat :=
  match s with
  | [] => (65533, 1%nat)
  | a :: s =>
    if a <? 128 then (a, 1%nat) else
    match s with
    | b :: s' =>
      if (194 <=? a) && (a <? 224) && contByte b then (Z.land a 31 * 64 + Z.land b 63, 2%nat) else
      match s' with
      | c :: s'' =>
        let r3 := Z.land a 15 * 4096 + Z.land b 63 * 64 + Z.land c 63 in
        if (224 <=? a) && (a <? 240) && contByte b && contByte c && (2048 <=? r3) && negb ((55296 <=? r3) && (r3 <=? 57343))
        then (r3, 3%nat) else
        match s'' with
        | d :: _ =>
          let r4 := Z.land a 7 * 262144 + Z.land b 63 * 4096 + Z.land c 63 * 64 + Z.land d 63 in
          if (240 <=? a) && (a <? 248) && contByte b && contByte c && contByte d && (65536 <=? r4) && (r4 <=? 1114111)
          then (r4, 4%nat) else (65533, 1%nat)
        | [] => (65533, 1%nat)
        end
      | [] => (65533, 1%nat)
      end
    | [] => (65533, 1%nat)
    end
  end.

(** The (index, rune) pairs of the loop; [skip] bytes belong to the last rune. *)
Fixpoint runes (i : nat) (skip : nat) (s : bytes) : list (nat * Z) :=
  match s with
  | [] => []
  | a :: s' => match skip with
               | S k => runes (S i) k s'
               | O => let '(r, w) := decodeRune s in (i, r) :: runes (S i) (w - 1) s'
               end
  end.

Definition isDashIndex (i : nat) : bool := (i =? 8)%nat || (i =? 13)%nat || (i =? 18)%nat || (i =? 23)%nat.

Definition idRuneOk (ir : nat * Z) : bool := if isDashIndex ir.1 then ir.2 =? 45 else isHexDigit (u8 ir.2).
Definition isValidClientID (id : bytes) : bool := (length id =? 36)%nat && forallb idRuneOk (runes 0 0 id).

(** ** Round trip of MAC addresses *)

Lemma hexVal_hexDigit x : 0 <= x < 16 -> hexVal (hexDigit x) = Some x.
Proof.
  intros H. unfold hexVal, hexDigit. destruct (x <? 10) eqn:E;
    repeat (match goal with |- context [if ?b then _ else _] => destruct b eqn:? end); f_equal; lia.
Qed.

Lemma parsePart_fmtByte b : is_u8 b -> parsePart (fmtByte b) = Some b.
Proof.
  intros Hb. unfold fmtByte, parsePart. pose proof (Z.mod_pos_bound b 16 ltac:(lia)).
  assert (0 <= b / 16 < 16) by (split; [apply Z.div_pos|apply Z.div_lt_upper_bound]; widths; lia).
  rewrite !hexVal_hexDigit by lia. f_equal. pose proof (Z.div_mod b 16). lia.
Qed.

Lemma hexDigit_not_colon x : 0 <= x < 16 -> hexDigit x =? 58 = false.
Proof. intros. unfold hexDigit. destruct (x <? 10) eqn:E; lia. Qed.

Lemma splitOn_part c p s : Forall (fun x => x =? c = false) p -> splitOn c (p ++ c :: s) = p :: splitOn c s.
Proof.
  induction 1 as [|x p Hx HF IH]; cbn [app splitOn].
  - by rewrite Z.eqb_refl.
  - by rewrite Hx, IH.
Qed.

Lemma splitOn_last c p : Forall (fun x => x =? c = false) p -> splitOn c p = [p].
Proof. induction 1 as [|x p Hx HF IH]; cbn [splitOn]; [done|]. by rewrite Hx, IH. Qed.

Lemma splitOn_join ps : ps <> [] -> Forall (Forall (fun x => x =? 58 = false)) ps -> splitOn 58 (joinColon ps) = ps.
Proof.
  intros Hne HF. induction HF as [|p ps Hp HF IH]; [done|]. destruct ps as [|q ps].
  - cbn. by apply splitOn_last.
  - change (joinColon (p :: q :: ps)) with (p ++ 58 :: joinColon (q :: ps)). rewrite splitOn_part by done. f_equal. by apply IH.
Qed.

(** MAC addresses survive the trip through text: every six-byte address is
    parsed back from the form the server stores it in, so two different addresses never
    share a text form. *)
Theorem mac_roundtrip (m : bytes) : length m = 6%nat -> Forall is_u8 m -> parseMACKey (fmtMAC m) = Some m.
Proof.
  intros Hl HF. unfold parseMACKey, fmtMAC. rewrite splitOn_join.
  - rewrite length_fmap, Hl. cbn [Nat.eqb]. clear Hl.
    induction HF as [|b m Hb HF IH]; [done|]. cbn [fmap list_fmap mapM]. rewrite parsePart_fmtByte by done. cbn. by rewrite IH.
  - destruct m; [done|discriminate].
  - apply Forall_fmap. eapply Forall_impl; [exact HF|]. intros b Hb. cbn. unfold fmtByte.
    pose proof (Z.mod_pos_bound b 16 ltac:(lia)).
    assert (0 <= b / 16 < 16) by (split; [apply Z.div_pos|apply Z.div_lt_upper_bound]; widths; lia).
    repeat constructor; by apply hexDigit_not_colon.
Qed.

(** ** Client ids *)

Definition uuidShape (id : bytes) : Prop :=
  length id = 36%nat /\ forall i c, id !! i = Some c -> if isDashIndex i then c = 45 else isHexDigit c = true.

Lemma runes_ascii id : forall i, Forall (fun c => 0 <= c < 128) id -> runes i 0 id = imap (fun j c => ((i + j)%nat, c)) id.
Proof.
  induction id as [|c id IH]; intros i HF; [done|]. apply Forall_cons_1 in HF as [Hc HF].
  assert (decodeRune (c :: id) = (c, 1%nat)) as HD by (cbn [decodeRune]; destruct (c <? 128) eqn:E; [done|lia]).
  change (runes i 0 (c :: id)) with (let '(r, w) := decodeRune (c :: id) in (i, r) :: runes (S i) (w - 1) id). rewrite HD.
  rewrite Nat.sub_diag, IH by done. rewrite imap_cons. rewrite Nat.add_0_r. f_equal. apply imap_ext. intros j x _. cbn. by rewrite Nat.add_succ_r.
Qed.

(** On ASCII input the client id check is exactly the shape of a UUID: 36 bytes,
    dashes at 8, 13, 18 and 23, hex digits everywhere else. *)
Theorem isValidClientID_ascii (id : bytes) : Forall (fun c => 0 <= c < 128) id -> isValidClientID id = true <-> uuidShape id.
Proof.
  intros HF. unfold isValidClientID, uuidShape. rewrite andb_true_iff, Nat.eqb_eq, runes_ascii by done.
  apply and_iff_compat_l. rewrite forallb_forall. split.
  - intros H i c Hi. assert (idRuneOk (i, c) = true) as Ho.
    { apply H. apply list_elem_of_In, list_elem_of_lookup. exists i. by rewrite list_lookup_imap, Hi. }
    unfold idRuneOk in Ho. cbn in Ho. destruct (isDashIndex i); [lia|].
    unfold u8 in Ho. rewrite Z.mod_small in Ho; [done|]. pose proof (Forall_lookup_1 _ _ _ _ HF Hi). cbn in *. lia.
  - intros H [i c] Hin. apply list_elem_of_In, list_elem_of_lookup in Hin as [j Hj]. rewrite list_lookup_imap in Hj.
    destruct (id !! j) as [x|] eqn:E; [|done]. cbn in Hj. injection Hj as <- <-. specialize (H j x E).
    unfold idRuneOk. cbn [fst snd Nat.add]. destruct (isDashIndex j); [lia|].
    unfold u8. rewrite Z.mod_small; [done|]. pose proof (Forall_lookup_1 _ _ _ _ HF E). cbn in *. lia.
Qed.

(** "LLLL" with U+0141 (L with stroke) for A: its low byte is the code of the digit. *)
Definition strokeID : bytes :=
  [197; 129; 197; 129; 197; 129; 197; 129; 45; 65; 65; 65; 65; 45; 65; 65; 65; 65; 45; 65; 65; 65; 65; 45;
   65; 65; 65; 65; 65; 65; 65; 65; 65; 65; 65; 65].

(** Outside ASCII the check is weaker than a UUID: it looks at the low byte of a
    rune only, and accepts an id with letters that are not hex digits. *)
Theorem isValidClientID_accepts_non_hex : isValidClientID strokeID = true /\ strokeID !! 0%nat = Some 197 /\ isHexDigit 197 = false.
Proof. by vm_compute. Qed.

(** ** Witnesses *)

Lemma mac_roundtrip_witness : parseMACKey (fmtMAC [2; 0; 171; 255; 16; 9]) = Some [2; 0; 171; 255; 16; 9].
Proof. apply (mac_roundtrip [2; 0; 171; 255; 16; 9]); [reflexivity|]. repeat constructor; done. Defined.

Definition demoID : bytes := str_bytes "01234567-89ab-cdef-0123-456789ABCDEF".

Lemma isValidClientID_ascii_witness : uuidShape demoID.
Proof.
  apply (isValidClientID_ascii demoID); [|vm_compute; reflexivity].
  apply (bool_decide_unpack _). vm_compute. exact I.
Defined.
