(* ===== verification/Session.v ===== *)
(** * Handshakes and the lifecycle of sessions (server.go)

    The checks of handleConnection, the two-phase resume token, key epochs, the
    address pools, the retention timer, kick and ban.  A handshake is three steps, with
    those of other connections in between: the snapshot of the configuration, the
    checks against it, and the section of handleConnection that holds the server's lock.

    SHA-256 and the UUIDv5 of a client id are parameters, random values are arguments,
    and addresses are numbers: a request field holds the address that net.ParseIP
    reads from it, if it is one of that family.  Sessions are compared by identity
    ([sUid]) as the code compares pointers. *)

From stdpp Require Import base tactics list numbers gmap strings sorting.
From S2P Require Import Prelude Aead FecControl VSwitch Guards Ident.
#[local] Open Scope Z_scope.

(** ** Address pools *)

Record ipNet := mkNet { nbase : Z; nsize : Z }.
Definition netContains (n : ipNet) (ip : Z) : bool := (nbase n <=? ip) && (ip <? nbase n + nsize n).
Definition getFirstIP (n : ipNet) : Z := nbase n + 1.

(** The scan for a free host address. *)
Fixpoint allocLoop (fuel : nat) (n : ipNet) (used : gset Z) (ip : Z) : option Z :=
  match fuel with
  | O => None
  | S fuel =>
    if netContains n ip then
      if bool_decide (ip ∉ used) && negb (ip mod 256 =? 0) && negb (ip mod 256 =? 255) then Some ip
      else allocLoop fuel n used (ip + 1)
    else None
  end.

Definition allocScan (n : ipNet) (used : gset Z) : option (Z * gset Z) :=
  match allocLoop (Z.to_nat (nsize n)) n used (nbase n) with Some ip => Some (ip, {[ip]} ∪ used) | None => None end.

Definition alloc (req : option Z) (n : ipNet) (used : gset Z) : option (Z * gset Z) :=
  match req with
  | Some ip => if netContains n ip && bool_decide (ip ∉ used) then Some (ip, {[ip]} ∪ used) else allocScan n used
  | None => allocScan n used
  end.

(** ** Sessions *)

Record ClientSession := mkSession {
  sUid : nat;
  sIPv4 : Z;
  sIPv6 : Z;
  sMAC : bytes;                  (* canonical text *)
  macBin : bytes;
  sFecEncK : Z;
  sEncAlgo : Z;
  sEncrypt : bool;
  sSaltA : bytes;
  sSaltB : bytes;
  sPskHash : string;
  sInstanceID : string;
  sEpoch : Z;
  sResumeToken : string;
  sPendingToken : string;
  sActiveConns : Z;
  sTimer : bool;                 (* destroyTimer != nil *)
  sConns : gmap nat Z            (* connInfo -> its epoch *)
}.

Definition set_token (cur pend : string) (s : ClientSession) : ClientSession :=
  mkSession (sUid s) (sIPv4 s) (sIPv6 s) (sMAC s) (macBin s) (sFecEncK s) (sEncAlgo s) (sEncrypt s) (sSaltA s) (sSaltB s)
            (sPskHash s) (sInstanceID s) (sEpoch s) cur pend (sActiveConns s) (sTimer s) (sConns s).
Definition set_conns (active : Z) (timer : bool) (conns : gmap nat Z) (s : ClientSession) : ClientSession :=
  mkSession (sUid s) (sIPv4 s) (sIPv6 s) (sMAC s) (macBin s) (sFecEncK s) (sEncAlgo s) (sEncrypt s) (sSaltA s) (sSaltB s)
            (sPskHash s) (sInstanceID s) (sEpoch s) (sResumeToken s) (sPendingToken s) active timer conns.
Definition set_epoch (instance : string) (epoch : Z) (saltA saltB : bytes) (s : ClientSession) : ClientSession :=
  mkSession (sUid s) (sIPv4 s) (sIPv6 s) (sMAC s) (macBin s) (sFecEncK s) (sEncAlgo s) (sEncrypt s) saltA saltB
            (sPskHash s) instance epoch (sResumeToken s) (sPendingToken s) (sActiveConns s) (sTimer s) (sConns s).

Definition acceptSessionResumeToken (s : ClientSession) (presented : string) : ClientSession * bool :=
  if verifyRandomSessionToken (sResumeToken s) presented then (s, true) else
  if negb (bool_decide (sPendingToken s = ""%string)) && verifyRandomSessionToken (sPendingToken s) presented
  then (set_token (sPendingToken s) "" s, true) else (s, false).

(** [fresh] is the outcome of newSessionToken. *)
Definition ensurePendingResumeToken (fresh : option string) (s : ClientSession) : ClientSession * bool :=
  if negb (bool_decide (sPendingToken s = ""%string)) then (s, true) else
  match fresh with Some t => (set_token (sResumeToken s) t s, true) | None => (s, false) end.

Definition responseResumeToken (s : ClientSession) : string :=
  if bool_decide (sPendingToken s = ""%string) then sResumeToken s else sPendingToken s.

(** [ciphersOk]: the four AEADs of the new epoch could be built. *)
Definition rotateSessionEpochLocked (instance : string) (saltA saltB : bytes) (ciphersOk : bool) (s : ClientSession)
    : ClientSession * bool :=
  if sEncrypt s && negb ciphersOk then (s, false) else
  (set_conns 0 (sTimer s) (sConns s) (set_epoch instance (u64 (sEpoch s + 1)) saltA saltB s), true).

(** ** The server *)

Record Server := mkServer {
  svPsk : string;
  svEncrypt : bool;
  svEncAlgo : Z;
  svMinEnc : Z;
  svFecMin : Z;
  svFecMax : Z;
  svMaxSessions : Z;
  v4Net : ipNet;
  v6Net : ipNet;
  usedV4 : gset Z;
  usedV6 : gset Z;
  activeClients : gmap string ClientSession;
  macToIP : gmap bytes (Z * Z);
  svBanned : banTable;
  svPskFail : gmap string pskFailBucket;
  vswitch : VSwitch;
  nextUid : nat;                 (* sessions created so far *)
  fecRejected : Z
}.

Definition set_clients (m : gmap string ClientSession) (sv : Server) : Server :=
  mkServer (svPsk sv) (svEncrypt sv) (svEncAlgo sv) (svMinEnc sv) (svFecMin sv) (svFecMax sv) (svMaxSessions sv) (v4Net sv) (v6Net sv)
           (usedV4 sv) (usedV6 sv) m (macToIP sv) (svBanned sv) (svPskFail sv) (vswitch sv) (nextUid sv) (fecRejected sv).
Definition set_pool (u4 u6 : gset Z) (m : gmap bytes (Z * Z)) (vs : VSwitch) (uid : nat) (sv : Server) : Server :=
  mkServer (svPsk sv) (svEncrypt sv) (svEncAlgo sv) (svMinEnc sv) (svFecMin sv) (svFecMax sv) (svMaxSessions sv) (v4Net sv) (v6Net sv)
           u4 u6 (activeClients sv) m (svBanned sv) (svPskFail sv) vs uid (fecRejected sv).
Definition set_guards (b : banTable) (f : gmap string pskFailBucket) (rej : Z) (sv : Server) : Server :=
  mkServer (svPsk sv) (svEncrypt sv) (svEncAlgo sv) (svMinEnc sv) (svFecMin sv) (svFecMax sv) (svMaxSessions sv) (v4Net sv) (v6Net sv)
           (usedV4 sv) (usedV6 sv) (activeClients sv) (macToIP sv) b f (vswitch sv) (nextUid sv) rej.

Definition assignIPsLocked (req4 req6 : option Z) (sv : Server) : option (Z * Z * gset Z * gset Z) :=
  match alloc req4 (v4Net sv) (usedV4 sv) with
  | None => None
  | Some (ip4, u4) =>
    match alloc req6 (v6Net sv) (usedV6 sv) with
    | None => None
    | Some (ip6, u6) => Some (ip4, ip6, u4, u6)
    end
  end.

Definition macToIPCleanLocked (mac : bytes) (ip : Z) (m : gmap bytes (Z * Z)) : gmap bytes (Z * Z) :=
  match m !! mac with Some (b4, _) => if b4 =? ip then delete mac m else m | None => m end.

Definition destroySessionLocked (s : ClientSession) (clientID : string) (sv : Server) : Server :=
  match activeClients sv !! clientID with
  | Some cur =>
    if (sUid cur =? sUid s)%nat then
      set_clients (delete clientID (activeClients sv))
        (set_pool (usedV4 sv ∖ {[sIPv4 s]}) (usedV6 sv ∖ {[sIPv6 s]}) (macToIPCleanLocked (sMAC s) (sIPv4 s) (macToIP sv))
                  (RemovePort clientID (vswitch sv)) (nextUid sv) sv)
    else sv
  | None => sv
  end.

Definition validateSrcMAC (sv : Server) (src : string) (mac : bytes) : bool :=
  match activeClients sv !! src with
  | Some s => if bool_decide (macBin s = macZero) then true else bool_decide (macBin s = mac)
  | None => true
  end.

(** ** The handshake *)

Record HandshakeReq := mkReq {
  qVersion : Z;
  qInstance : string;
  qClientID : string;
  qPSK : string;
  qMAC : string;
  qIPv4 : option Z;
  qIPv6 : option Z;
  qFEC : bool;
  qFecGroup : Z;
  qEncrypt : bool;
  qEncAlgo : Z;
  qToken : string
}.

Inductive refusal :=
| PSKBudget | PSKMismatch | EncryptMismatch | BelowMinEnc | WrongCipher | NoClientID | BadClientID | BadMAC
| BadVersion | BadFecGroup | BadInstance | UnderivedID | Banned
| MACMismatch | CipherChange | BadToken | RotateFailed | TokenFailed | TooManyConns | TooManySessions | PoolExhausted.

(** Refusals that hold the connection in the tar pit; the others close it. *)
Definition tarpit (r : refusal) : bool :=
  match r with PSKMismatch | EncryptMismatch | Banned | MACMismatch | BadToken | TooManySessions | PoolExhausted => true | _ => false end.

(** What handleConnection copies of the configuration before the checks. *)
Record authSnap := mkSnap { snPsk : string; snEncrypt : bool; snEncAlgo : Z; snMinEnc : Z; snFecMin : Z; snFecMax : Z }.
Definition snapOf (sv : Server) : authSnap := mkSnap (svPsk sv) (svEncrypt sv) (svEncAlgo sv) (svMinEnc sv) (svFecMin sv) (svFecMax sv).

Section Handshake.
Variable sha256 : bytes -> bytes.
Variable deriveID : bytes -> string -> string.      (* UUIDv5 of MAC text and PSK *)

(** The checks before the lock.  Only the PSK failures, the counter of refused groups and
    the ban table are the server's; each is touched once, under a lock of its own. *)
Definition checkRequest (a : authSnap) (now1 now2 : Z) (remote : string) (q : HandshakeReq) (sv : Server) : Server * option refusal :=
  if negb (bool_decide (qPSK q = hashPSK sha256 (snPsk a))) then
    let '(f, exceeded) := pskFailExceeded now1 now2 remote (svPskFail sv) in
    (set_guards (svBanned sv) f (fecRejected sv) sv, Some (if exceeded then PSKBudget else PSKMismatch)) else
  if negb (Bool.eqb (qEncrypt q) (snEncrypt a)) then (sv, Some EncryptMismatch) else
  if snEncrypt a && (0 <? snMinEnc a) && negb (isInnerAEADAlgo (qEncAlgo q)) then (sv, Some BelowMinEnc) else
  if snEncrypt a && negb (qEncAlgo q =? snEncAlgo a) then (sv, Some WrongCipher) else
  if bool_decide (qClientID q = ""%string) then (sv, Some NoClientID) else
  if negb (isValidClientID (str_bytes (qClientID q))) then (sv, Some BadClientID) else
  if negb (isValidMACString (str_bytes (qMAC q))) then (sv, Some BadMAC) else
  if negb (qVersion q =? protocolVersion) then (sv, Some BadVersion) else
  if qFEC q && ((qFecGroup q <? snFecMin a) || (snFecMax a <? qFecGroup q))
  then (set_guards (svBanned sv) (svPskFail sv) (u64 (fecRejected sv + 1)) sv, Some BadFecGroup) else
  if negb (isValidClientInstance (str_bytes (qInstance q))) then (sv, Some BadInstance) else
  let mac := fmtMAC (default macZero (parseMACKey (str_bytes (qMAC q)))) in
  if negb (bool_decide (qClientID q = deriveID mac (snPsk a))) then (sv, Some UnderivedID) else
  let '(b, banned) := IsBanned now2 (qClientID q) (svBanned sv) in
  let sv := set_guards b (svPskFail sv) (fecRejected sv) sv in
  (sv, if banned then Some Banned else None).

(** Random values and failures of one handshake. *)
Record hsEnv := mkEnv { eSaltA : bytes; eSaltB : bytes; eCiphersOk : bool; eToken : option string }.

(** An existing session with the same PSK: token and epoch. *)
Definition resumeSession (env : hsEnv) (q : HandshakeReq) (s : ClientSession) : ClientSession * option refusal :=
  if negb (sEncAlgo s =? qEncAlgo q) then (s, Some CipherChange) else
  if negb (bool_decide (sInstanceID s = qInstance q)) then
    let '(s, ok) := acceptSessionResumeToken s (qToken q) in
    if negb ok then (s, Some BadToken) else
    let '(s, ok) := rotateSessionEpochLocked (qInstance q) (eSaltA env) (eSaltB env) (eCiphersOk env) s in
    if negb ok then (s, Some RotateFailed) else
    let '(s, ok) := ensurePendingResumeToken (eToken env) s in
    (s, if ok then None else Some TokenFailed)
  else if negb (bool_decide (sPendingToken s = ""%string)) && verifyRandomSessionToken (sPendingToken s) (qToken q)
  then (set_token (sPendingToken s) "" s, None) else (s, None).

(** The session gains a physical connection. *)
Definition joinSession (s : ClientSession) : ClientSession * option refusal :=
  let s := set_conns (sActiveConns s) false (sConns s) s in
  if maxConnectionsPerIP <=? sActiveConns s then (s, Some TooManyConns) else
  (set_conns (sActiveConns s + 1) (sTimer s) (sConns s) s, None).

Definition createSession (a : authSnap) (env : hsEnv) (mac : bytes) (q : HandshakeReq) (bind : option (Z * Z)) (sv : Server)
    : Server * (ClientSession + refusal) :=
  if (0 <? svMaxSessions sv) && (svMaxSessions sv <=? Z.of_nat (size (activeClients sv))) then (sv, inr TooManySessions) else
  let req4 := match bind with Some (b4, _) => Some b4 | None => qIPv4 q end in
  let req6 := match bind with Some (_, b6) => Some b6 | None => qIPv6 q end in
  match assignIPsLocked req4 req6 sv with
  | None => (sv, inr PoolExhausted)
  | Some (ip4, ip6, u4, u6) =>
    match (if validSessionTokenFormat (str_bytes (qToken q)) then Some (qToken q) else eToken env) with
    | None => (sv, inr TokenFailed)
    | Some token =>
      let bin := default macZero (parseMACKey mac) in
      let s := mkSession (nextUid sv) ip4 ip6 mac bin (if qFEC q then qFecGroup q else 0)
                 (if snEncrypt a then snEncAlgo a else encAlgoNone) (snEncrypt a) (eSaltA env) (eSaltB env)
                 (hashPSK sha256 (snPsk a)) (qInstance q) 1 token "" 1 false ∅ in
      let vs := AddStaticMAC (qClientID q) bin (AddPort (mkPort (nextUid sv) (qClientID q) true) (vswitch sv)) in
      (set_pool u4 u6 (<[mac := (ip4, ip6)]> (macToIP sv)) vs (S (nextUid sv)) sv, inl s)
    end
  end.

(** The connection is entered in the registry of the session. *)
Definition registerConn (conn : nat) (s : ClientSession) : ClientSession :=
  set_conns (sActiveConns s) (sTimer s) (<[conn := sEpoch s]> (sConns s)) s.

Record hsReply := mkReply { rToken : string; rEpoch : Z; rIPv4 : Z; rIPv6 : Z; rEncAlgo : Z; rSaltA : bytes; rSaltB : bytes; rUid : nat; rFecK : Z; rEncrypt : bool }.
Definition replyOf (s : ClientSession) : hsReply :=
  mkReply (responseResumeToken s) (sEpoch s) (sIPv4 s) (sIPv6 s) (sEncAlgo s) (sSaltA s) (sSaltB s) (sUid s) (sFecEncK s) (sEncrypt s).

Definition accept (conn : nat) (id : string) (s : ClientSession) (sv : Server) : Server * (hsReply + refusal) :=
  (set_clients (<[id := registerConn conn s]> (activeClients sv)) sv, inl (replyOf s)).

(** The section under the server's lock; of the configuration it reads the limit of
    sessions afresh. *)
Definition lockedHandshake (a : authSnap) (env : hsEnv) (conn : nat) (q : HandshakeReq) (sv : Server) : Server * (hsReply + refusal) :=
  let id := qClientID q in
  let mac := fmtMAC (default macZero (parseMACKey (str_bytes (qMAC q)))) in
  let bind := macToIP sv !! mac in
  let create sv := let '(sv, r) := createSession a env mac q bind sv in
                   match r with inr e => (sv, inr e) | inl s => accept conn id s sv end in
  match activeClients sv !! id with
  | None => create sv
  | Some s =>
    if negb (bool_decide (mac = sMAC s)) then (sv, inr MACMismatch) else
    if negb (bool_decide (sPskHash s = hashPSK sha256 (snPsk a))) then create (destroySessionLocked s id sv) else
    let '(s, e) := resumeSession env q s in
    let sv := set_clients (<[id := s]> (activeClients sv)) sv in
    match e with
    | Some e => (sv, inr e)
    | None =>
      let '(s, e) := joinSession s in
      let sv := set_clients (<[id := s]> (activeClients sv)) sv in
      match e with Some e => (sv, inr e) | None => accept conn id s sv end
    end
  end.
End Handshake.

(** ** The end of a connection, the timer, kick, ban, exhausted numbers *)

(** The deferred clean-up of handleConnection. *)
Definition connEnd (conn : nat) (uid : nat) (epoch : Z) (id : string) (sv : Server) : Server :=
  match activeClients sv !! id with
  | Some s =>
    if (sUid s =? uid)%nat then
      let s := set_conns (sActiveConns s) (sTimer s) (delete conn (sConns s)) s in
      let s := if epoch =? sEpoch s then
                 let n := sActiveConns s - 1 in set_conns n (sTimer s || (n <=? 0)) (sConns s) s
               else s in
      set_clients (<[id := s]> (activeClients sv)) sv
    else sv
  | None => sv
  end.

(** The callback of the retention timer, also when Stop came too late for it. *)
Definition timerFires (uid : nat) (id : string) (sv : Server) : Server :=
  match activeClients sv !! id with
  | Some s => if (sUid s =? uid)%nat && (sActiveConns s <=? 0) then destroySessionLocked s id sv else sv
  | None => sv
  end.

Definition kickSession (uid : nat) (id : string) (sv : Server) : Server :=
  match activeClients sv !! id with
  | Some s => if (sUid s =? uid)%nat then destroySessionLocked s id sv else sv
  | None => sv
  end.

Definition Ban (now : Z) (id : string) (ttl : Z) (sv : Server) : Server :=
  let '(b, ok) := banEntry now id ttl (svBanned sv) in
  let sv := set_guards b (svPskFail sv) (fecRejected sv) sv in
  if negb ok then sv else match activeClients sv !! id with Some s => kickSession (sUid s) id sv | None => sv end.

(** The handler of an exhausted sequence space. *)
Definition sequenceExhausted (uid : nat) (id : string) (instance : string) (sv : Server) : Server :=
  match activeClients sv !! id with
  | Some s => if (sUid s =? uid)%nat
              then set_clients (<[id := set_epoch instance (sEpoch s) (sSaltA s) (sSaltB s) s]> (activeClients sv)) sv
              else sv
  | None => sv
  end.

(** ApplyConfig: the fields the handshake reads. *)
Definition ApplyConfig (psk : string) (enc : bool) (encAlgo minEnc maxSessions fmin fmax : Z) (sv : Server) : Server :=
  mkServer psk enc encAlgo minEnc fmin fmax maxSessions (v4Net sv) (v6Net sv)
           (usedV4 sv) (usedV6 sv) (activeClients sv) (macToIP sv) (svBanned sv) (svPskFail sv) (vswitch sv) (nextUid sv) (fecRejected sv).

Definition tapPortID : string := "TAP_LOCAL".

Definition newServer (psk : string) (enc : bool) (encAlgo minEnc maxSessions fmin fmax : Z) (n4 n6 : ipNet) : Server :=
  mkServer psk enc encAlgo minEnc fmin fmax maxSessions n4 n6 {[getFirstIP n4]} {[getFirstIP n6]} ∅ ∅ ∅ ∅
           (AddPort (mkPort 0 tapPortID true) (NewVSwitch tapPortID)) 1 0.

(** ** Histories of a server *)

(** How far a connection is in its handshake, with the snapshot it works on. *)
Inductive hsStage := HBegun (a : authSnap) (q : HandshakeReq) | HChecked (a : authSnap) (q : HandshakeReq).

(** [live]: the connections whose handler is still running, with the session, the
    epoch and the client id they were accepted under.  [flying]: those in the middle of
    a handshake. *)
Record world := mkWorld { srv : Server; live : gmap nat (nat * Z * string); flying : gmap nat hsStage }.
Definition world0 (sv : Server) : world := mkWorld sv ∅ ∅.
Definition set_srv (sv : Server) (w : world) : world := mkWorld sv (live w) (flying w).

Inductive svOp :=
| SBegin (conn : nat) (q : HandshakeReq)
| SCheck (now1 now2 : Z) (remote : string) (conn : nat)
| SLock (env : hsEnv) (conn : nat)
| SConnEnd (conn : nat)
| STimer (uid : nat) (id : string)
| SKick (uid : nat) (id : string)
| SBan (now : Z) (id : string) (ttl : Z)
| SUnban (id : string)
| SExhausted (uid : nat) (id instance : string)
| SConfig (psk : string) (enc : bool) (encAlgo minEnc maxSessions fmin fmax : Z)
| SFrame (now : Z) (src : string) (frame : bytes) (owned : bool) (reg : option bytes)
| STick.

Definition set_switch (vs : VSwitch) (sv : Server) : Server :=
  set_pool (usedV4 sv) (usedV6 sv) (macToIP sv) vs (nextUid sv) sv.

Section World.
Variable sha256 : bytes -> bytes.
Variable deriveID : bytes -> string -> string.

(** The locked section of the handshake of a connection, and what it decides. *)
Definition lockStep (env : hsEnv) (conn : nat) (w : world) : world * option (hsReply + refusal) :=
  match flying w !! conn with
  | Some (HChecked a q) =>
    let '(sv, r) := lockedHandshake sha256 a env conn q (srv w) in
    (mkWorld sv (match r with inl rep => <[conn := (rUid rep, rEpoch rep, qClientID q)]> (live w) | inr _ => live w end) (delete conn (flying w)), Some r)
  | _ => (w, None)
  end.

Definition svStep (w : world) (op : svOp) : world :=
  let sv := srv w in
  match op with
  | SBegin conn q =>
    match live w !! conn, flying w !! conn with
    | None, None => mkWorld sv (live w) (<[conn := HBegun (snapOf sv) q]> (flying w))
    | _, _ => w
    end
  | SCheck now1 now2 remote conn =>
    match flying w !! conn with
    | Some (HBegun a q) =>
      let '(sv, e) := checkRequest sha256 deriveID a now1 now2 remote q sv in
      mkWorld sv (live w) (match e with Some _ => delete conn (flying w) | None => <[conn := HChecked a q]> (flying w) end)
    | _ => w
    end
  | SLock env conn => (lockStep env conn w).1
  | SConnEnd conn =>
    match live w !! conn with
    | Some (uid, epoch, id) => mkWorld (connEnd conn uid epoch id sv) (delete conn (live w)) (flying w)
    | None => w
    end
  | STimer uid id => set_srv (timerFires uid id sv) w
  | SKick uid id => set_srv (kickSession uid id sv) w
  | SBan now id ttl => set_srv (Ban now id ttl sv) w
  | SUnban id => set_srv (set_guards (Unban id (svBanned sv)) (svPskFail sv) (fecRejected sv) sv) w
  | SExhausted uid id inst => set_srv (sequenceExhausted uid id inst sv) w
  | SConfig psk enc ea me ms fmin fmax => set_srv (ApplyConfig psk enc ea me ms fmin fmax sv) w
  | SFrame now src frame owned reg =>
    set_srv (set_switch (processFrame (Some (validateSrcMAC sv)) now src frame owned reg (vswitch sv)).1 sv) w
  | STick => set_srv (set_switch (runCoarseClockAndPurge (vswitch sv)) sv) w
  end.

Definition svExec (ops : list svOp) (w : world) : world := fold_left svStep ops w.
End World.

(** ** Address allocation *)

Definition hostIP (ip : Z) : Prop := ip mod 256 <> 0 /\ ip mod 256 <> 255.

Lemma allocLoop_spec fuel n used : forall ip,
  match allocLoop fuel n used ip with
  | Some r => ip <= r /\ netContains n r = true /\ r ∉ used /\ hostIP r
  | None => forall x, ip <= x < ip + Z.of_nat fuel -> netContains n ip = true -> netContains n x = true -> hostIP x -> x ∈ used
  end.
Proof.
  induction fuel as [|fuel IH]; intros ip; cbn [allocLoop]; [lia|].
  destruct (netContains n ip) eqn:E; [|congruence]. destruct (bool_decide (ip ∉ used) && _ && _) eqn:E1.
  - rewrite !andb_true_iff, !negb_true_iff, !Z.eqb_neq in E1. destruct E1 as [[E1 E2] E3]. apply bool_decide_eq_true in E1. by split_and!.
  - specialize (IH (ip + 1)). destruct (allocLoop fuel n used (ip + 1)) as [r|]; [destruct IH as (? & ? & ? & ?); split_and!; auto; lia|].
    intros x Hx _ Hn Hh. destruct (decide (x = ip)) as [-> |Hne].
    + destruct (decide (ip ∈ used)); [done|]. exfalso. unfold hostIP in Hh. rewrite bool_decide_true in E1 by done. cbn [andb] in E1.
      apply andb_false_iff in E1 as [E1|E1]; apply negb_false_iff, Z.eqb_eq in E1; lia.
    + apply IH; auto; [lia|]. unfold netContains in *. lia.
Qed.

Lemma alloc_spec req n used : 0 <= nsize n ->
  match alloc req n used with
  | Some (ip, used') => ip ∉ used /\ netContains n ip = true /\ used' = {[ip]} ∪ used
  | None => forall x, netContains n x = true -> hostIP x -> x ∈ used
  end.
Proof.
  intros Hs. assert (match allocScan n used with Some (ip, used') => ip ∉ used /\ netContains n ip = true /\ used' = {[ip]} ∪ used
    | None => forall x, netContains n x = true -> hostIP x -> x ∈ used end) as HS.
  { unfold allocScan. pose proof (allocLoop_spec (Z.to_nat (nsize n)) n used (nbase n)) as H. destruct (allocLoop _ n used _) as [ip|].
    - destruct H as (_ & ? & ? & _). by split_and!.
    - intros x Hx. apply H; auto; unfold netContains in *; lia. }
  unfold alloc. destruct req as [ip|]; [|done]. destruct (netContains n ip && _) eqn:E; [|done].
  apply andb_true_iff in E as [E1 E2]. apply bool_decide_eq_true in E2. by split_and!.
Qed.

(** ** Who a session is *)

Record same_id (s s' : ClientSession) : Prop := {
  si_uid : sUid s' = sUid s;
  si_ip4 : sIPv4 s' = sIPv4 s;
  si_ip6 : sIPv6 s' = sIPv6 s;
  si_mac : sMAC s' = sMAC s;
  si_bin : macBin s' = macBin s
}.

#[export] Instance same_id_pre : PreOrder same_id.
Proof. split; [by intros s|]. intros a b c [] []. split; congruence. Qed.

Lemma resume_same_id env q s : same_id s (resumeSession env q s).1.
Proof.
  unfold resumeSession, acceptSessionResumeToken, rotateSessionEpochLocked, ensurePendingResumeToken.
  destruct (negb (sEncAlgo s =? _)); [done|]. destruct (negb (bool_decide (sInstanceID s = _))).
  - destruct (verifyRandomSessionToken (sResumeToken s) _).
    + destruct (sEncrypt s && _); [done|]. cbn. destruct (negb (bool_decide _)); [done|]. by destruct (eToken env).
    + destruct (negb (bool_decide _) && _); [|done]. cbn. destruct (sEncrypt s && _); [done|]. cbn. by destruct (eToken env).
  - by destruct (negb (bool_decide _) && _).
Qed.

Lemma join_same_id s : same_id s (joinSession s).1.
Proof. unfold joinSession. by destruct (_ <=? _). Qed.

(** The address pools, the registry and the switch agree. *)
Record pool_inv (sv : Server) : Prop := {
  pi_used4 : forall ip, ip ∈ usedV4 sv <-> ip = getFirstIP (v4Net sv) \/ exists id s, activeClients sv !! id = Some s /\ sIPv4 s = ip;
  pi_used6 : forall ip, ip ∈ usedV6 sv <-> ip = getFirstIP (v6Net sv) \/ exists id s, activeClients sv !! id = Some s /\ sIPv6 s = ip;
  pi_inj : forall i1 i2 s1 s2, activeClients sv !! i1 = Some s1 -> activeClients sv !! i2 = Some s2 ->
           sIPv4 s1 = sIPv4 s2 \/ sIPv6 s1 = sIPv6 s2 \/ sUid s1 = sUid s2 -> i1 = i2;
  pi_gw : forall id s, activeClients sv !! id = Some s -> sIPv4 s <> getFirstIP (v4Net sv) /\ sIPv6 s <> getFirstIP (v6Net sv);
  pi_uid : forall id s, activeClients sv !! id = Some s -> (sUid s < nextUid sv)%nat;
  pi_ports : forall id, is_Some (ports (vswitch sv) !! id) <-> id = tapPortID \/ is_Some (activeClients sv !! id);
  pi_tap : activeClients sv !! tapPortID = None;
  pi_wf : vs_wf (vswitch sv);
  pi_size : 0 <= nsize (v4Net sv) /\ 0 <= nsize (v6Net sv)
}.

(** Steps that keep the identities keep the pools. *)
Lemma pool_frame sv sv' : pool_inv sv ->
  usedV4 sv' = usedV4 sv -> usedV6 sv' = usedV6 sv -> v4Net sv' = v4Net sv -> v6Net sv' = v6Net sv ->
  (forall id, option_Forall2 same_id (activeClients sv !! id) (activeClients sv' !! id)) -> nextUid sv' = nextUid sv ->
  ports (vswitch sv') = ports (vswitch sv) -> vs_wf (vswitch sv') -> pool_inv sv'.
Proof.
  intros [P1 P2 P3 P4 P5 P6 P7 P8 P9] U4 U6 N4 N6 HS HU HP HW.
  assert (forall id s', activeClients sv' !! id = Some s' -> exists s, activeClients sv !! id = Some s /\ same_id s s') as HB.
  { intros id s' H. specialize (HS id). rewrite H in HS. inversion HS; subst. eauto. }
  assert (forall id s, activeClients sv !! id = Some s -> exists s', activeClients sv' !! id = Some s' /\ same_id s s') as HA.
  { intros id s H. specialize (HS id). rewrite H in HS. inversion HS; subst. eauto. }
  split; rewrite ?U4, ?U6, ?N4, ?N6, ?HU, ?HP; auto.
  - intros ip. rewrite P1. apply or_iff_compat_l. split; intros (id & s & H & <-).
    + destruct (HA _ _ H) as (s' & ? & []). eauto.
    + destruct (HB _ _ H) as (s' & ? & []). eauto.
  - intros ip. rewrite P2. apply or_iff_compat_l. split; intros (id & s & H & <-).
    + destruct (HA _ _ H) as (s' & ? & []). eauto.
    + destruct (HB _ _ H) as (s' & ? & []). eauto.
  - intros i1 i2 s1 s2 H1 H2 HE. destruct (HB _ _ H1) as (t1 & ? & [A1 A2 A3 _ _]). destruct (HB _ _ H2) as (t2 & ? & [B1 B2 B3 _ _]).
    apply (P3 i1 i2 t1 t2); auto. rewrite <- A1, <- A2, <- A3, <- B1, <- B2, <- B3. done.
  - intros id s H. destruct (HB _ _ H) as (t & Ht & [_ -> -> _ _]). by eapply P4.
  - intros id s H. destruct (HB _ _ H) as (t & Ht & [-> _ _ _ _]). by eapply P5.
  - intros id. rewrite P6. apply or_iff_compat_l. specialize (HS id). destruct HS; by rewrite ?is_Some_alt.
  - specialize (HS tapPortID). rewrite P7 in HS. by inversion HS.
Qed.

Lemma same_clients_refl (m : gmap string ClientSession) id : option_Forall2 same_id (m !! id) (m !! id).
Proof. destruct (m !! id); by constructor. Qed.

Lemma same_clients_set (m : gmap string ClientSession) id s s' : m !! id = Some s -> same_id s s' ->
  forall i, option_Forall2 same_id (m !! i) (<[id := s']> m !! i).
Proof.
  intros H HS i. destruct (decide (id = i)) as [<-|Hne].
  - rewrite lookup_insert_eq, H. by constructor.
  - rewrite lookup_insert_ne by done. apply same_clients_refl.
Qed.

Lemma pool_set sv id s s' : pool_inv sv -> activeClients sv !! id = Some s -> same_id s s' ->
  pool_inv (set_clients (<[id := s']> (activeClients sv)) sv).
Proof. intros HP H HS. apply (pool_frame sv); auto; [|apply HP]. by apply (same_clients_set _ _ s). Qed.

Lemma pool_destroy sv id s : pool_inv sv -> activeClients sv !! id = Some s -> pool_inv (destroySessionLocked s id sv).
Proof.
  intros HP H. unfold destroySessionLocked. rewrite H, Nat.eqb_refl. destruct HP as [P1 P2 P3 P4 P5 P6 P7 P8 P9].
  destruct (P4 _ _ H) as [G4 G6].
  assert (forall i t, delete id (activeClients sv) !! i = Some t <-> i <> id /\ activeClients sv !! i = Some t) as HD
    by (intros; rewrite lookup_delete_Some; intuition congruence).
  split; cbn [set_clients set_pool activeClients usedV4 usedV6 v4Net v6Net vswitch nextUid].
  - intros ip. rewrite elem_of_difference, elem_of_singleton, P1. split.
    + intros [[-> |(i & t & Ht & <-)] Hne]; [by left|]. right. exists i, t. rewrite HD. split_and!; auto. intros ->. congruence.
    + intros [-> |(i & t & Ht & <-)]; [split; [by left|congruence]|]. apply HD in Ht as [Hne Ht]. split; [right; eauto|].
      intros E. apply Hne, (P3 i id t s); auto.
  - intros ip. rewrite elem_of_difference, elem_of_singleton, P2. split.
    + intros [[-> |(i & t & Ht & <-)] Hne]; [by left|]. right. exists i, t. rewrite HD. split_and!; auto. intros ->. congruence.
    + intros [-> |(i & t & Ht & <-)]; [split; [by left|congruence]|]. apply HD in Ht as [Hne Ht]. split; [right; eauto|].
      intros E. apply Hne, (P3 i id t s); auto.
  - intros i1 i2 s1 s2 H1 H2. apply HD in H1 as [_ ?], H2 as [_ ?]. by eapply P3.
  - intros i t Ht. apply HD in Ht as [_ ?]. by eapply P4.
  - intros i t Ht. apply HD in Ht as [_ ?]. by eapply P5.
  - intros i. change (ports (RemovePort id (vswitch sv))) with (delete id (ports (vswitch sv))). destruct (decide (i = id)) as [-> |Hne].
    + rewrite !lookup_delete_eq. split; [by intros [? ?]|]. intros [-> |[? ?]]; congruence.
    + rewrite !lookup_delete_ne by done. apply P6.
  - rewrite lookup_delete_None. auto.
  - by apply remove_wf.
  - done.
Qed.

Lemma valid_not_tap : isValidClientID (str_bytes tapPortID) = false.
Proof. by vm_compute. Qed.

Lemma create_spec sha256 a env mac q bind sv : pool_inv sv ->
  match createSession sha256 a env mac q bind sv with
  | (sv', inr _) => sv' = sv
  | (sv', inl s) => sIPv4 s ∉ usedV4 sv /\ sIPv6 s ∉ usedV6 sv /\ sUid s = nextUid sv /\ sMAC s = mac /\ macBin s = default macZero (parseMACKey mac) /\
      sEpoch s = 1 /\ sActiveConns s = 1 /\ sTimer s = false /\ sConns s = ∅ /\ sPendingToken s = ""%string /\ sInstanceID s = qInstance q /\
      sPskHash s = hashPSK sha256 (snPsk a) /\
      activeClients sv' = activeClients sv /\ usedV4 sv' = {[sIPv4 s]} ∪ usedV4 sv /\ usedV6 sv' = {[sIPv6 s]} ∪ usedV6 sv /\
      nextUid sv' = S (nextUid sv) /\ v4Net sv' = v4Net sv /\ v6Net sv' = v6Net sv /\ svPsk sv' = svPsk sv /\
      (0 < svMaxSessions sv -> Z.of_nat (size (activeClients sv)) < svMaxSessions sv) /\ svMaxSessions sv' = svMaxSessions sv /\
      vswitch sv' = AddStaticMAC (qClientID q) (macBin s) (AddPort (mkPort (nextUid sv) (qClientID q) true) (vswitch sv))
  end.
Proof.
  intros HP. unfold createSession. destruct ((0 <? svMaxSessions sv) && _) eqn:EM; [done|].
  unfold assignIPsLocked. set (r4 := match bind with Some _ => _ | None => qIPv4 q end). set (r6 := match bind with Some _ => _ | None => qIPv6 q end).
  pose proof (alloc_spec r4 (v4Net sv) (usedV4 sv) (proj1 (pi_size _ HP))) as H4. destruct (alloc r4 _ _) as [[ip4 u4]|]; [|done].
  pose proof (alloc_spec r6 (v6Net sv) (usedV6 sv) (proj2 (pi_size _ HP))) as H6. destruct (alloc r6 _ _) as [[ip6 u6]|]; [|done].
  destruct H4 as (A1 & _ & ->). destruct H6 as (B1 & _ & ->).
  destruct (if validSessionTokenFormat _ then _ else _) as [token|]; [|done]. cbn. split_and!; auto. lia.
Qed.

Lemma pool_create sha256 a env mac q bind sv sv' s conn : pool_inv sv -> createSession sha256 a env mac q bind sv = (sv', inl s) ->
  activeClients sv !! qClientID q = None -> qClientID q <> tapPortID ->
  pool_inv (set_clients (<[qClientID q := registerConn conn s]> (activeClients sv')) sv').
Proof.
  intros HP HC Hn Ht. pose proof (create_spec sha256 a env mac q bind sv HP) as HS. rewrite HC in HS.
  destruct HS as (A4 & A6 & AU & _ & _ & _ & _ & _ & _ & _ & _ & _ & AC & U4 & U6 & NU & N4 & N6 & _ & _ & _ & VS).
  destruct HP as [P1 P2 P3 P4 P5 P6 P7 P8 P9]. set (id := qClientID q) in *. set (s' := registerConn conn s).
  assert (sIPv4 s' = sIPv4 s /\ sIPv6 s' = sIPv6 s /\ sUid s' = sUid s) as (S4 & S6 & SU) by done. clearbody s'.
  assert (ports (vswitch sv') = <[id := mkPort (nextUid sv) id true]> (ports (vswitch sv))) as HPo.
  { rewrite VS. unfold AddStaticMAC. by destruct (bool_decide _). }
  assert (forall i t, <[id := s']> (activeClients sv) !! i = Some t <-> i = id /\ t = s' \/ i <> id /\ activeClients sv !! i = Some t) as HI.
  { intros i t. rewrite lookup_insert_Some. intuition congruence. }
  split; cbn [set_clients activeClients usedV4 usedV6 v4Net v6Net vswitch nextUid]; rewrite ?AC, ?U4, ?U6, ?NU, ?N4, ?N6; auto.
  - intros ip. rewrite elem_of_union, elem_of_singleton, P1. split.
    + intros [-> |[-> |(i & t & Hi & <-)]]; [right; exists id, s'; rewrite HI; auto|by left|].
      right. exists i, t. rewrite HI. split; [|done]. right. split; [congruence|done].
    + intros [-> |(i & t & Hi & <-)]; [auto|]. apply HI in Hi as [[-> ->]|[_ Hi]]; [left; congruence|]. right. right. eauto.
  - intros ip. rewrite elem_of_union, elem_of_singleton, P2. split.
    + intros [-> |[-> |(i & t & Hi & <-)]]; [right; exists id, s'; rewrite HI; auto|by left|].
      right. exists i, t. rewrite HI. split; [|done]. right. split; [congruence|done].
    + intros [-> |(i & t & Hi & <-)]; [auto|]. apply HI in Hi as [[-> ->]|[_ Hi]]; [left; congruence|]. right. right. eauto.
  - assert (forall i t, activeClients sv !! i = Some t -> ~ (sIPv4 t = sIPv4 s' \/ sIPv6 t = sIPv6 s' \/ sUid t = sUid s')) as HX.
    { intros i t Hi [E|[E|E]].
      - apply A4. apply P1. right. exists i, t. split; congruence.
      - apply A6. apply P2. right. exists i, t. split; congruence.
      - pose proof (P5 _ _ Hi). lia. }
    intros i1 i2 s1 s2 H1 H2 HE. apply HI in H1 as [[-> ->]|[_ H1]], H2 as [[-> ->]|[_ H2]].
    + done.
    + exfalso. eapply HX; [exact H2|]. intuition congruence.
    + exfalso. eapply HX; [exact H1|]. intuition congruence.
    + by eapply P3.
  - intros i t Hi. apply HI in Hi as [[-> ->]|[_ Hi]]; [|by eapply P4]. rewrite S4, S6. split; intros E.
    + apply A4, P1. by left.
    + apply A6, P2. by left.
  - intros i t Hi. apply HI in Hi as [[-> ->]|[_ Hi]]; [lia|]. pose proof (P5 _ _ Hi). lia.
  - intros i. rewrite HPo. destruct (decide (i = id)) as [-> |Hne]; [rewrite !lookup_insert_eq|rewrite !lookup_insert_ne by done; apply P6].
    split; [intros _; right; eauto|eauto].
  - rewrite lookup_insert_ne by done. done.
  - rewrite VS. unfold AddStaticMAC. assert (vs_wf (AddPort (mkPort (nextUid sv) id true) (vswitch sv))) as HW.
    { apply (vstep_wf (vswitch sv) (VAddPort (mkPort (nextUid sv) id true)) P8). cbn [pID].
      destruct (ports (vswitch sv) !! id) eqn:E; [|done]. exfalso. destruct (proj1 (P6 id)) as [?|[t ?]]; [eauto|done|congruence]. }
    destruct (bool_decide _); [done|]. by apply tbl_insert_wf.
Qed.

(** What a request that passes the checks looks like, against the snapshot [a]. *)
Record admissible (sha256 : bytes -> bytes) (deriveID : bytes -> string -> string) (q : HandshakeReq) (a : authSnap) : Prop := {
  ad_psk : qPSK q = hashPSK sha256 (snPsk a);
  ad_encrypt : qEncrypt q = snEncrypt a;
  ad_floor : snEncrypt a = true -> 0 < snMinEnc a -> isInnerAEADAlgo (qEncAlgo q) = true;
  ad_cipher : snEncrypt a = true -> qEncAlgo q = snEncAlgo a;
  ad_id : isValidClientID (str_bytes (qClientID q)) = true;
  ad_mac : isValidMACString (str_bytes (qMAC q)) = true;
  ad_version : qVersion q = protocolVersion;
  ad_fec : qFEC q = true -> snFecMin a <= qFecGroup q <= snFecMax a;
  ad_instance : isValidClientInstance (str_bytes (qInstance q)) = true;
  ad_derived : qClientID q = deriveID (fmtMAC (default macZero (parseMACKey (str_bytes (qMAC q))))) (snPsk a)
}.

Section Properties.
Variable sha256 : bytes -> bytes.
Variable deriveID : bytes -> string -> string.

(** The checks pass exactly for an admissible request of a client that is not banned. *)
Lemma checkRequest_spec a now1 now2 remote q sv :
  let '(sv', e) := checkRequest sha256 deriveID a now1 now2 remote q sv in
  (exists b f r, sv' = set_guards b f r sv /\ (b = svBanned sv \/ b = (IsBanned now2 (qClientID q) (svBanned sv)).1)) /\
  (e = None <-> admissible sha256 deriveID q a /\ (IsBanned now2 (qClientID q) (svBanned sv)).2 = false).
Proof.
  unfold checkRequest. assert (exists b f r, sv = set_guards b f r sv /\ (b = svBanned sv \/ b = (IsBanned now2 (qClientID q) (svBanned sv)).1)) as Hid by (destruct sv; do 3 eexists; by split; [|left]).
  destruct (bool_decide_reflect (qPSK q = hashPSK sha256 (snPsk a))) as [H1|H1]; cbn [negb].
  2:{ destruct (pskFailExceeded _ _ _ _) as [f ex]. split; [do 3 eexists; by split; [|left]|]. split; [done|]. by intros [[] _]. }
  destruct (Bool.eqb_spec (qEncrypt q) (snEncrypt a)) as [H2|H2]; cbn [negb]; [|split; [done|]; split; [done|]; by intros [[] _]].
  destruct (snEncrypt a && (0 <? snMinEnc a) && negb _) eqn:E3.
  { split; [done|]. split; [done|]. intros [[_ _ F _ _ _ _ _ _ _] _]. rewrite !andb_true_iff, negb_true_iff, Z.ltb_lt in E3. destruct E3 as [[E3 E4] E5]. rewrite F in E5; done. }
  destruct (snEncrypt a && negb (qEncAlgo q =? snEncAlgo a)) eqn:E4.
  { split; [done|]. split; [done|]. intros [[_ _ _ F _ _ _ _ _ _] _]. rewrite andb_true_iff, negb_true_iff, Z.eqb_neq in E4. destruct E4 as [E4 E5]. by rewrite F in E5. }
  destruct (bool_decide_reflect (qClientID q = ""%string)) as [H5|H5].
  { split; [done|]. split; [done|]. intros [[_ _ _ _ F _ _ _ _ _] _]. by rewrite H5 in F. }
  destruct (isValidClientID (str_bytes (qClientID q))) eqn:E6; cbn [negb]; [|split; [done|]; split; [done|]; intros [[] _]; congruence].
  destruct (isValidMACString (str_bytes (qMAC q))) eqn:E7; cbn [negb]; [|split; [done|]; split; [done|]; intros [[] _]; congruence].
  destruct (Z.eqb_spec (qVersion q) protocolVersion) as [H8|H8]; cbn [negb]; [|split; [done|]; split; [done|]; by intros [[] _]].
  destruct (qFEC q && _) eqn:E9.
  { split; [do 3 eexists; by split; [|left]|]. split; [done|]. intros [[_ _ _ _ _ _ _ F _ _] _]. apply andb_true_iff in E9 as [E9 E10]. specialize (F E9). lia. }
  destruct (isValidClientInstance _) eqn:E10; cbn [negb]; [|split; [done|]; split; [done|]; intros [[] _]; congruence].
  destruct (bool_decide_reflect (qClientID q = deriveID (fmtMAC (default macZero (parseMACKey (str_bytes (qMAC q))))) (snPsk a))) as [H11|H11]; cbn [negb]; [|split; [done|]; split; [done|]; by intros [[] _]].
  destruct (IsBanned now2 (qClientID q) (svBanned sv)) as [b banned]. split; [do 3 eexists; by split; [|right]|]. cbn [snd]. destruct banned; split; try done; [by intros [_ ?]|].
  intros _. split; [|done]. split; auto.
  - intros He Hm. rewrite He, (proj2 (Z.ltb_lt _ _) Hm) in E3. by apply negb_false_iff.
  - intros He. rewrite He in E4. by apply negb_false_iff, Z.eqb_eq in E4.
  - intros He. rewrite He in E9. cbn in E9. lia.
Qed.

Lemma checked_guards a now1 now2 remote q sv sv' e : checkRequest sha256 deriveID a now1 now2 remote q sv = (sv', e) -> exists b f r, sv' = set_guards b f r sv.
Proof. intros HC. pose proof (checkRequest_spec a now1 now2 remote q sv) as HS. rewrite HC in HS. destruct HS as [(b & f & r & -> & _) _]. eauto. Qed.

(** Handshakes in flight: not yet accepted, and admissible once they are checked. *)
Record fly_inv (w : world) : Prop := {
  fl_live : forall c st, flying w !! c = Some st -> live w !! c = None;
  fl_ok : forall c a q, flying w !! c = Some (HChecked a q) -> admissible sha256 deriveID q a
}.

Lemma fly_step w op : fly_inv w -> fly_inv (svStep sha256 deriveID w op).
Proof.
  intros [F1 F2]. destruct op as [conn q|now1 now2 remote conn|env conn|conn| | | | | | | |]; cbn [svStep]; try by split.
  - destruct (live w !! conn) eqn:El; [by split|]. destruct (flying w !! conn) eqn:Ef; [by split|]. split; cbn [flying live].
    + intros c st Hc. apply lookup_insert_Some in Hc as [[<- <-]|[_ Hc]]; [done|by eapply F1].
    + intros c a q' Hc. apply lookup_insert_Some in Hc as [[_ [=]]|[_ Hc]]. by eapply F2.
  - destruct (flying w !! conn) as [[a q|a q]|] eqn:Ef; [|by split..]. pose proof (checkRequest_spec a now1 now2 remote q (srv w)) as HS.
    destruct (checkRequest _ _ _ _ _ _ _ _) as [sv' e]. destruct HS as [_ HS]. split; cbn [flying live]; intros c; destruct e as [e|].
    + intros st Hc. apply lookup_delete_Some in Hc as [_ Hc]. by eapply F1.
    + intros st Hc. apply lookup_insert_Some in Hc as [[<- <-]|[_ Hc]]; by eapply F1.
    + intros a' q' Hc. apply lookup_delete_Some in Hc as [_ Hc]. by eapply F2.
    + intros a' q' Hc. apply lookup_insert_Some in Hc as [[_ [= <- <-]]|[_ Hc]]; [by apply HS|by eapply F2].
  - unfold lockStep. destruct (flying w !! conn) as [[a q|a q]|] eqn:Ef; [by split| |by split]. destruct (lockedHandshake _ _ _ _ _ _) as [sv' r]. split; cbn [fst flying live].
    + intros c st Hc. apply lookup_delete_Some in Hc as [Hne Hc]. destruct r; [rewrite lookup_insert_ne by done|]; by eapply F1.
    + intros c a' q' Hc. apply lookup_delete_Some in Hc as [_ Hc]. by eapply F2.
  - destruct (live w !! conn) as [[[uid ep] id]|]; [|by split]. split; cbn [flying live]; [|done]. intros c st Hc. rewrite lookup_delete_None. right. by eapply F1.
Qed.

Lemma fly_exec ops : forall w, fly_inv w -> fly_inv (svExec sha256 deriveID ops w).
Proof. induction ops as [|op ops IH]; intros w HF; [done|]. cbn [svExec fold_left]. by apply IH, fly_step. Qed.

Lemma fly_new sv : fly_inv (world0 sv).
Proof. split; intros c; cbn; intros; by rewrite lookup_empty in *. Qed.

Lemma pool_guards sv b f r : pool_inv sv -> pool_inv (set_guards b f r sv).
Proof. intros HP. apply (pool_frame sv); auto; [|apply HP]. intros id. apply same_clients_refl. Qed.

Lemma set_clients_twice m1 m2 sv : set_clients m2 (set_clients m1 sv) = set_clients m2 sv.
Proof. done. Qed.

(** The locked section, by cases: refused without a trace on the identities, the
    session continued, or a session created in a state without that client. *)
Lemma locked_cases a env conn q sv : pool_inv sv -> qClientID q <> tapPortID ->
  let '(sv', r) := lockedHandshake sha256 a env conn q sv in pool_inv sv'.
Proof.
  intros HP Ht. unfold lockedHandshake. set (mac := fmtMAC _). set (bind := macToIP sv !! mac). clearbody bind.
  assert (forall sv0, pool_inv sv0 -> activeClients sv0 !! qClientID q = None ->
    let '(sv', r) := (let '(sv1, r) := createSession sha256 a env mac q bind sv0 in
                      match r with inr e => (sv1, inr e) | inl s => accept conn (qClientID q) s sv1 end) in pool_inv sv') as HC.
  { intros sv0 HP0 Hn. pose proof (create_spec sha256 a env mac q bind sv0 HP0) as HS.
    destruct (createSession _ _ _ _ _ _ sv0) as [sv1 [s|e]] eqn:E; [|by subst]. cbn [accept]. by eapply pool_create. }
  destruct (activeClients sv !! qClientID q) as [s|] eqn:E; [|by apply HC].
  destruct (negb (bool_decide (mac = _))); [done|]. destruct (negb (bool_decide (sPskHash s = _))).
  { apply HC; [by apply pool_destroy|]. unfold destroySessionLocked. rewrite E, Nat.eqb_refl. cbn. apply lookup_delete_eq. }
  pose proof (resume_same_id env q s) as HR. destruct (resumeSession env q s) as [s1 [e|]]; cbn [fst] in HR.
  { by apply (pool_set sv _ s). }
  pose proof (join_same_id s1) as HJ. destruct (joinSession s1) as [s2 [e|]]; cbn [fst] in HJ; cbn [accept set_clients activeClients].
  - rewrite insert_insert_eq. apply (pool_set sv _ s); auto. by etransitivity.
  - rewrite !insert_insert_eq. apply (pool_set sv _ s); auto. transitivity s1; [done|]. by transitivity s2.
Qed.

Lemma pool_step w op : fly_inv w -> pool_inv (srv w) -> pool_inv (srv (svStep sha256 deriveID w op)).
Proof.
  intros HF HP. destruct op as [conn q|now1 now2 remote conn|env conn|conn|uid id|uid id|now id ttl|id|uid id inst|psk enc ea me ms fmin fmax|now src frame owned reg|]; cbn [svStep].
  - destruct (live w !! conn); [done|]. by destruct (flying w !! conn).
  - destruct (flying w !! conn) as [[a q|a q]|]; [|done..]. destruct (checkRequest _ _ _ _ _ _ _ _) as [sv' e] eqn:EC.
    destruct (checked_guards _ _ _ _ _ _ _ _ EC) as (b & f & r & ->). by apply pool_guards.
  - unfold lockStep. destruct (flying w !! conn) as [[a q|a q]|] eqn:Ef; [done| |done]. destruct (fl_ok _ HF _ _ _ Ef) as [_ _ _ _ Hid _ _ _ _ _].
    pose proof (locked_cases a env conn q (srv w) HP) as HL. destruct (lockedHandshake _ _ _ _ _ _) as [sv' rep]. apply HL. intros E. rewrite E, valid_not_tap in Hid. done.
  - destruct (live w !! conn) as [[[uid ep] id]|]; [|done]. unfold connEnd. cbn [srv].
    destruct (activeClients (srv w) !! id) as [s|] eqn:E; [|done]. destruct (_ =? uid)%nat; [|done]. apply (pool_set _ _ s); auto.
    by destruct (ep =? _).
  - unfold timerFires. cbn [set_srv srv]. destruct (activeClients (srv w) !! id) as [s|] eqn:E; [|done]. destruct (_ && _); [|done]. by apply pool_destroy.
  - unfold kickSession. cbn [set_srv srv]. destruct (activeClients (srv w) !! id) as [s|] eqn:E; [|done]. destruct (_ =? uid)%nat; [|done]. by apply pool_destroy.
  - unfold Ban. cbn [set_srv srv]. destruct (banEntry _ _ _ _) as [b ok]. destruct (negb ok); [by apply pool_guards|].
    set (sv1 := set_guards _ _ _ _). assert (pool_inv sv1) as HP1 by by apply pool_guards. clearbody sv1.
    destruct (activeClients sv1 !! id) as [s|] eqn:E; [|done]. unfold kickSession. rewrite E, Nat.eqb_refl. by apply pool_destroy.
  - by apply pool_guards.
  - unfold sequenceExhausted. cbn [set_srv srv]. destruct (activeClients (srv w) !! id) as [s|] eqn:E; [|done]. destruct (_ =? uid)%nat; [|done].
    by apply (pool_set _ _ s).
  - apply (pool_frame (srv w)); auto; [|apply HP]. intros id. apply same_clients_refl.
  - cbn [set_srv srv]. pose proof (vstep_wf (vswitch (srv w)) (VFrame (Some (validateSrcMAC (srv w))) now src frame owned reg) (pi_wf _ HP) I) as HW.
    apply (pool_frame (srv w)); auto; [intros id; apply same_clients_refl|].
    destruct (processFrame_table (Some (validateSrcMAC (srv w))) now src frame owned reg (vswitch (srv w))) as [[_ H]|(tick & _ & _ & H)]; [done|].
    cbn [set_switch set_pool vswitch]. by rewrite H, learn_ports.
  - cbn [set_srv srv]. pose proof (vstep_wf (vswitch (srv w)) VTick (pi_wf _ HP) I) as HW.
    apply (pool_frame (srv w)); auto; [intros id; apply same_clients_refl|]. cbn [set_switch set_pool vswitch].
    unfold runCoarseClockAndPurge. by destruct (_ <? 300).
Qed.

Lemma pool_exec ops : forall w, fly_inv w -> pool_inv (srv w) -> pool_inv (srv (svExec sha256 deriveID ops w)).
Proof. induction ops as [|op ops IH]; intros w HF HP; [done|]. cbn [svExec fold_left]. apply IH; [by apply fly_step|by apply pool_step]. Qed.

Lemma pool_new psk enc ea me ms fmin fmax n4 n6 : 0 <= nsize n4 -> 0 <= nsize n6 -> pool_inv (newServer psk enc ea me ms fmin fmax n4 n6).
Proof.
  intros H4 H6. split; cbn [newServer activeClients usedV4 usedV6 v4Net v6Net vswitch nextUid]; try done.
  - intros ip. rewrite elem_of_singleton. split; [auto|]. intros [?|(? & ? & H & _)]; [done|]. by rewrite lookup_empty in H.
  - intros ip. rewrite elem_of_singleton. split; [auto|]. intros [?|(? & ? & H & _)]; [done|]. by rewrite lookup_empty in H.
  - intros id. cbn [AddPort set_ports ports pID NewVSwitch]. destruct (decide (id = tapPortID)) as [-> |Hne].
    + rewrite lookup_insert_eq. split; [auto|eauto].
    + rewrite lookup_insert_ne by done. rewrite !lookup_empty. split; [by intros [? ?]|]. intros [?|[? ?]]; done.
  - apply (vstep_wf (NewVSwitch tapPortID) (VAddPort (mkPort 0 tapPortID true)) (new_vs_wf tapPortID)). done.
Qed.
End Properties.

(** C22: The address pools are exact.  Over any history of handshakes, ended
    connections, timers, kicks, bans, exhausted numbers and configuration changes, no
    two sessions share an IPv4 or an IPv6 address or use the gateway's, an address is
    marked used exactly when it is the gateway's or that of a living session, and the
    switch has exactly the ports of the living sessions and of the TAP. *)
Theorem address_pool_exact (sha256 : bytes -> bytes) (deriveID : bytes -> string -> string)
    (psk : string) (enc : bool) (ea me ms fmin fmax : Z) (n4 n6 : ipNet) (ops : list svOp) :
  0 <= nsize n4 -> 0 <= nsize n6 ->
  let sv := srv (svExec sha256 deriveID ops (world0 (newServer psk enc ea me ms fmin fmax n4 n6))) in
  (forall i1 i2 s1 s2, activeClients sv !! i1 = Some s1 -> activeClients sv !! i2 = Some s2 ->
     sIPv4 s1 = sIPv4 s2 \/ sIPv6 s1 = sIPv6 s2 -> i1 = i2) /\
  (forall ip, ip ∈ usedV4 sv <-> ip = getFirstIP (v4Net sv) \/ exists id s, activeClients sv !! id = Some s /\ sIPv4 s = ip) /\
  (forall ip, ip ∈ usedV6 sv <-> ip = getFirstIP (v6Net sv) \/ exists id s, activeClients sv !! id = Some s /\ sIPv6 s = ip) /\
  (forall id s, activeClients sv !! id = Some s -> sIPv4 s <> getFirstIP (v4Net sv) /\ sIPv6 s <> getFirstIP (v6Net sv)) /\
  (forall id, is_Some (ports (vswitch sv) !! id) <-> id = tapPortID \/ is_Some (activeClients sv !! id)).
Proof.
  intros H4 H6 sv. assert (pool_inv sv) as [P1 P2 P3 P4 P5 P6 P7 P8 P9] by (apply pool_exec; [by apply fly_new|by apply pool_new]).
  split_and!; auto. intros i1 i2 s1 s2 A B C. eapply P3; eauto. tauto.
Qed.

(** ** Connections and the retention timer *)

Definition currentConns (s : ClientSession) : Z := Z.of_nat (size (filter (fun ce => ce.2 = sEpoch s) (sConns s))).

Record ses_ok (n : Z) (lv : gmap nat (nat * Z * string)) (id : string) (s : ClientSession) : Prop := {
  k_live : forall c e, sConns s !! c = Some e <-> lv !! c = Some (sUid s, e, id);
  k_epoch : 1 <= sEpoch s <= n + 1;
  k_le : forall c e, sConns s !! c = Some e -> e <= sEpoch s;
  k_count : sActiveConns s = currentConns s;
  k_max : sActiveConns s <= maxConnectionsPerIP;
  k_timer : 0 < sActiveConns s \/ sTimer s = true
}.

Record conn_inv (n : Z) (w : world) : Prop := {
  c_ses : forall id s, activeClients (srv w) !! id = Some s -> ses_ok n (live w) id s;
  c_uid : forall c u e i, live w !! c = Some (u, e, i) -> (u < nextUid (srv w))%nat
}.

Lemma resume_conns env q s s' e : is_Some (eToken env) -> 0 <= sEpoch s < 2 ^ 64 - 1 -> resumeSession env q s = (s', e) ->
  sConns s' = sConns s /\ sTimer s' = sTimer s /\
  (sEpoch s' = sEpoch s /\ sActiveConns s' = sActiveConns s \/ e = None /\ sEpoch s' = sEpoch s + 1 /\ sActiveConns s' = 0).
Proof.
  intros [t Ht] Hep. unfold resumeSession, rotateSessionEpochLocked, ensurePendingResumeToken. rewrite Ht.
  destruct (negb (sEncAlgo s =? _)); [intros [= <- <-]; auto|]. destruct (negb (bool_decide (sInstanceID s = _))).
  2:{ destruct (negb (bool_decide _) && _); intros [= <- <-]; cbn; auto. }
  destruct (acceptSessionResumeToken s (qToken q)) as [s1 ok] eqn:EA.
  assert (sConns s1 = sConns s /\ sTimer s1 = sTimer s /\ sEpoch s1 = sEpoch s /\ sActiveConns s1 = sActiveConns s) as (A1 & A2 & A3 & A4).
  { unfold acceptSessionResumeToken in EA. destruct (verifyRandomSessionToken _ _); [by injection EA as <- <-|].
    destruct (_ && _); by injection EA as <- <-. }
  destruct (negb ok); [intros [= <- <-]; rewrite A1, A2, A3, A4; auto|].
  destruct (sEncrypt s1 && _); cbn; [intros [= <- <-]; rewrite A1, A2, A3, A4; auto|].
  rewrite A3, u64_small by (widths; lia).
  destruct (negb (bool_decide _)); cbn; intros [= <- <-]; cbn; rewrite ?A1, ?A2; auto 8.
Qed.

Lemma current_rotated s s' : sConns s' = sConns s -> sEpoch s' = sEpoch s + 1 ->
  (forall c e, sConns s !! c = Some e -> e <= sEpoch s) -> currentConns s' = 0.
Proof.
  intros H1 H2 H3. unfold currentConns. rewrite H1, H2. rewrite map_empty_filter_2; [by rewrite map_size_empty|].
  intros c e Hc. cbn. specialize (H3 c e Hc). lia.
Qed.

Lemma current_ext s s' : sConns s' = sConns s -> sEpoch s' = sEpoch s -> currentConns s' = currentConns s.
Proof. unfold currentConns. by intros -> ->. Qed.

Lemma current_register conn s : sConns s !! conn = None -> currentConns (registerConn conn s) = currentConns s + 1.
Proof.
  intros H. unfold currentConns, registerConn. cbn [set_conns sConns sEpoch]. rewrite map_filter_insert_True by done.
  rewrite map_size_insert_None; [lia|]. apply map_lookup_filter_None. by left.
Qed.

Lemma size_filter_delete (m : gmap nat Z) (P : nat * Z -> Prop) `{!forall x, Decision (P x)} c e : m !! c = Some e ->
  Z.of_nat (size (filter P (delete c m))) = Z.of_nat (size (filter P m)) - (if decide (P (c, e)) then 1 else 0).
Proof.
  intros Hc. rewrite map_filter_delete. case_decide as HP.
  - assert (filter P m !! c = Some e) as Hf by (by apply map_lookup_filter_Some). rewrite map_size_delete, Hf.
    assert (size (filter P m) <> 0%nat) by (apply map_size_non_empty_iff; intros E; rewrite E, lookup_empty in Hf; done). cbn. lia.
  - rewrite delete_id; [lia|]. apply map_lookup_filter_None. right. intros x Hx. rewrite Hc in Hx. by injection Hx as <-.
Qed.

Section Connections.
Variable sha256 : bytes -> bytes.

(** Entries of other clients are untouched when a connection of [id] comes or goes. *)
Lemma ses_live_other n lv id s c x : ses_ok n lv id s ->
  (forall e, lv !! c <> Some (sUid s, e, id)) -> (forall e, x <> (sUid s, e, id)) -> ses_ok n (<[c := x]> lv) id s.
Proof.
  intros [K1 K2 K3 K4 K5 K6] H1 H2. split; auto. intros c' e. rewrite K1. destruct (decide (c = c')) as [<-|Hne].
  - rewrite lookup_insert_eq. split; [intros E; by apply H1 in E|]. intros [= ->]. by destruct (H2 e).
  - by rewrite lookup_insert_ne.
Qed.

Lemma ses_live_delete n lv id s c : ses_ok n lv id s -> (forall e, lv !! c <> Some (sUid s, e, id)) -> ses_ok n (delete c lv) id s.
Proof.
  intros [K1 K2 K3 K4 K5 K6] H1. split; auto. intros c' e. rewrite K1. destruct (decide (c = c')) as [<-|Hne].
  - rewrite lookup_delete_eq. split; [intros E; by apply H1 in E|done].
  - by rewrite lookup_delete_ne.
Qed.

Lemma ses_mono n n' lv id s : ses_ok n lv id s -> n <= n' -> ses_ok n' lv id s.
Proof. intros [K1 K2 K3 K4 K5 K6] H. split; auto. lia. Qed.

(** A client's own connection is accepted. *)
Lemma ses_accept n lv id s conn : ses_ok n lv id s -> sActiveConns s < maxConnectionsPerIP -> lv !! conn = None ->
  ses_ok n (<[conn := (sUid s, sEpoch s, id)]> lv) id
    (registerConn conn (set_conns (sActiveConns s + 1) false (sConns s) s)).
Proof.
  intros [K1 K2 K3 K4 K5 K6] Hlt Hn. set (s1 := set_conns _ _ _ s).
  assert (sConns s1 !! conn = None) as Hc.
  { change (sConns s1) with (sConns s). destruct (sConns s !! conn) as [e|] eqn:E; [|done]. apply K1 in E. congruence. }
  split; auto.
  - intros c e. cbn [registerConn set_conns sConns sEpoch sUid s1]. destruct (decide (conn = c)) as [<-|Hne].
    + rewrite !lookup_insert_eq. split; [intros [= ->]|intros [= ->]]; done.
    + rewrite !lookup_insert_ne by done. apply K1.
  - intros c e. cbn [registerConn set_conns sConns sEpoch s1]. rewrite lookup_insert_Some. intros [[<- <-]|[_ ?]]; [lia|by eapply K3].
  - rewrite current_register by done. cbn [registerConn set_conns sActiveConns s1]. rewrite (current_ext s s1) by done. lia.
  - cbn [registerConn set_conns sActiveConns s1]. lia.
  - left. cbn [registerConn set_conns sActiveConns s1]. rewrite K4. unfold currentConns. lia.
Qed.

Lemma ses_refused n lv id s s' : ses_ok n lv id s -> same_id s s' -> sConns s' = sConns s -> sEpoch s' = sEpoch s ->
  sActiveConns s' = sActiveConns s -> (0 < sActiveConns s \/ sTimer s' = true) -> ses_ok n lv id s'.
Proof.
  intros [K1 K2 K3 K4 K5 K6] [U _ _ _ _] H1 H2 H3 H4. split; rewrite ?U, ?H1, ?H2, ?H3; auto. by rewrite (current_ext s).
Qed.

(** A session that goes on: refused, or with one connection more. *)
Lemma ses_resume n lv id s env q conn : ses_ok n lv id s -> is_Some (eToken env) -> 0 <= n < 2 ^ 64 - 2 -> lv !! conn = None ->
  let '(s1, e1) := resumeSession env q s in
  match e1 with
  | Some _ => ses_ok (n + 1) lv id s1
  | None => let '(s2, e2) := joinSession s1 in
            match e2 with
            | Some _ => ses_ok (n + 1) lv id s2
            | None => ses_ok (n + 1) (<[conn := (sUid s2, sEpoch s2, id)]> lv) id (registerConn conn s2)
            end
  end.
Proof.
  intros HK Ht Hn Hc. pose proof HK as [K1 K2 K3 K4 K5 K6]. pose proof (resume_same_id env q s) as HS.
  destruct (resumeSession env q s) as [s1 e1] eqn:ER. cbn [fst] in HS. pose proof HS as [HU _ _ _ _].
  destruct (resume_conns env q s s1 e1 Ht ltac:(lia) ER) as (R1 & R2 & R3).
  assert (e1 = None -> ses_ok (n + 1) lv id (set_conns (sActiveConns s1) true (sConns s1) s1)) as HJ.
  { intros ->. destruct R3 as [[R3 R4]|(_ & R3 & R4)].
    - apply (ses_refused (n + 1) lv id s); [apply (ses_mono n); [done|lia]|by destruct HS|done|done|done|by right].
    - split; cbn [set_conns sConns sEpoch sActiveConns sTimer sUid]; rewrite ?R1, ?R3, ?R4, ?HU; auto; try lia.
      + intros c e Hx. apply K3 in Hx. lia.
      + rewrite (current_ext s1) by done. by rewrite (current_rotated s s1).
      + unfold maxConnectionsPerIP. lia. }
  destruct e1 as [e1|].
  { destruct R3 as [[R3 R4]|[? _]]; [|done]. apply (ses_refused (n + 1) lv id s); auto; [apply (ses_mono n); [done|lia]|]. by rewrite R2. }
  specialize (HJ eq_refl). unfold joinSession. cbn [set_conns sActiveConns sTimer sConns].
  destruct (maxConnectionsPerIP <=? sActiveConns s1) eqn:EM.
  - eapply ses_refused; [exact HJ|done|done|done|done|]. cbn. unfold maxConnectionsPerIP in EM. left. lia.
  - apply (ses_accept (n + 1) lv id _ conn HJ); [|done]. cbn. lia.
Qed.

(** The other clients, when a connection of [id] is accepted. *)
Lemma others_accept n w id (m : gmap string ClientSession) conn u e : conn_inv n w -> live w !! conn = None ->
  (forall i s, i <> id -> m !! i = Some s -> activeClients (srv w) !! i = Some s) ->
  forall i s, i <> id -> m !! i = Some s -> ses_ok n (<[conn := (u, e, id)]> (live w)) i s.
Proof.
  intros HC Hn Hm i s Hi Hs. apply ses_live_other; [by apply HC, Hm|congruence|]. intros x [= _ _ ?]. congruence.
Qed.

Lemma conn_locked n w fl a env conn q : pool_inv (srv w) -> conn_inv n w -> is_Some (eToken env) -> 0 <= n < 2 ^ 64 - 2 -> live w !! conn = None ->
  let '(sv', r) := lockedHandshake sha256 a env conn q (srv w) in
  conn_inv (n + 1) (mkWorld sv' (match r with inl rep => <[conn := (rUid rep, rEpoch rep, qClientID q)]> (live w) | inr _ => live w end) fl).
Proof.
  intros HP HC Ht Hn Hl. unfold lockedHandshake. set (mac := fmtMAC _). set (bind := macToIP (srv w) !! mac). clearbody bind.
  set (id := qClientID q) in *.
  assert (forall sv0, pool_inv sv0 -> nextUid sv0 = nextUid (srv w) ->
    (forall i s, activeClients sv0 !! i = Some s -> i <> id /\ activeClients (srv w) !! i = Some s) ->
    let '(sv', r) := (let '(sv1, r) := createSession sha256 a env mac q bind sv0 in
                      match r with inr e => (sv1, inr e) | inl s => accept conn id s sv1 end) in
    conn_inv (n + 1) (mkWorld sv' (match r with inl rep => <[conn := (rUid rep, rEpoch rep, id)]> (live w) | inr _ => live w end) fl)) as HCr.
  { intros sv0 HP0 HU0 HA. pose proof (create_spec sha256 a env mac q bind sv0 HP0) as HS.
    destruct (createSession _ _ _ _ _ _ sv0) as [sv1 [s|e]].
    - destruct HS as (_ & _ & AU & _ & _ & E1 & C1 & T1 & CC & _ & _ & _ & AC & _ & _ & NU & _).
      cbn [accept replyOf rUid rEpoch]. split; cbn [srv live set_clients activeClients nextUid]; rewrite ?AC.
      + intros i t Hi. destruct (decide (i = id)) as [-> |Hne].
        * rewrite lookup_insert_eq in Hi. injection Hi as <-. rewrite E1.
          assert (forall c e, live w !! c <> Some (sUid s, e, id)) as Hfresh.
          { intros c e Hx. apply (c_uid _ _ HC) in Hx. lia. }
          split; cbn [registerConn set_conns sConns sEpoch sUid sActiveConns sTimer]; rewrite ?CC, ?E1, ?C1, ?T1; try lia.
          -- intros c e. destruct (decide (conn = c)) as [<-|Hc].
             ++ rewrite !lookup_insert_eq. split; [intros [= <-]|intros [= <-]]; done.
             ++ rewrite !lookup_insert_ne by done. rewrite lookup_empty. split; [done|]. intros Hx. by apply Hfresh in Hx.
          -- intros c e. rewrite lookup_insert_Some, lookup_empty. intros [[_ <-]|[_ ?]]; [lia|done].
          -- rewrite current_register by (by rewrite CC). unfold currentConns. rewrite CC, map_filter_empty, map_size_empty. done.
          -- unfold maxConnectionsPerIP. lia.
        * rewrite lookup_insert_ne in Hi by done. apply (ses_mono n); [|lia].
          eapply (others_accept n w id (activeClients sv0)); eauto. intros j x _ Hj. by apply HA.
      + intros c u e i. rewrite NU, HU0. rewrite lookup_insert_Some. intros [[_ [= <- _ _]]|[_ Hx]]; [lia|].
        apply (c_uid _ _ HC) in Hx. lia.
    - subst sv1. split; cbn [srv live].
      + intros i t Hi. apply (ses_mono n); [|lia]. by apply HC, HA.
      + intros c u e0 i Hx. rewrite HU0. by eapply c_uid. }
  destruct (activeClients (srv w) !! id) as [s|] eqn:E.
  2:{ apply HCr; auto. intros i s Hi. split; [congruence|done]. }
  assert (conn_inv (n + 1) (mkWorld (srv w) (live w) fl)) as HC1.
  { split; [|apply HC]. intros i t Hi. apply (ses_mono n); [|lia]. by apply HC. }
  destruct (negb (bool_decide (mac = _))); [done|]. destruct (negb (bool_decide (sPskHash s = _))).
  { apply HCr; [by apply pool_destroy|unfold destroySessionLocked; by rewrite E, Nat.eqb_refl|].
    unfold destroySessionLocked. rewrite E, Nat.eqb_refl. cbn. intros i t. rewrite lookup_delete_Some. intuition congruence. }
  pose proof (ses_resume n (live w) id s env q conn (c_ses _ _ HC _ _ E) Ht Hn Hl) as HR. pose proof (resume_same_id env q s) as HI.
  destruct (resumeSession env q s) as [s1 [e1|]]; cbn [fst] in HI.
  { split; [|apply HC]. cbn [srv live set_clients activeClients]. intros i t Hi.
    rewrite lookup_insert_Some in Hi. destruct Hi as [[<- <-]|[? Hi]]; [done|]. by apply (c_ses _ _ HC1). }
  pose proof (join_same_id s1) as HJ. destruct (joinSession s1) as [s2 [e2|]]; cbn [fst] in HJ; cbn [accept set_clients activeClients].
  - rewrite insert_insert_eq. split; [|apply HC]. cbn [srv live set_clients activeClients]. intros i t Hi.
    rewrite lookup_insert_Some in Hi. destruct Hi as [[<- <-]|[? Hi]]; [done|]. by apply (c_ses _ _ HC1).
  - rewrite !insert_insert_eq. split; cbn [srv live set_clients activeClients nextUid replyOf rUid rEpoch].
    + intros i t Hi. rewrite lookup_insert_Some in Hi. destruct Hi as [[<- <-]|[Hne Hi]]; [done|].
      eapply (others_accept (n + 1) (mkWorld (srv w) (live w) fl) id (activeClients (srv w))); eauto.
    + intros c u e i. rewrite lookup_insert_Some. intros [[_ [= <- _ _]]|[_ Hx]]; [|by eapply c_uid].
      destruct HI as [HI _ _ _ _], HJ as [HJ _ _ _ _]. rewrite HJ, HI. by eapply pi_uid.
Qed.

Lemma conn_destroy n w id s : pool_inv (srv w) -> conn_inv n w -> activeClients (srv w) !! id = Some s ->
  conn_inv n (set_srv (destroySessionLocked s id (srv w)) w).
Proof.
  intros HP HC E. unfold destroySessionLocked. rewrite E, Nat.eqb_refl. split; [|apply HC].
  cbn [set_srv srv live set_clients set_pool activeClients]. intros i t. rewrite lookup_delete_Some. intros [_ ?]. by apply HC.
Qed.

Lemma conn_end n w conn uid ep id : conn_inv n w -> live w !! conn = Some (uid, ep, id) ->
  conn_inv n (mkWorld (connEnd conn uid ep id (srv w)) (delete conn (live w)) (flying w)).
Proof.
  intros HC Hl. assert (forall i s, activeClients (srv w) !! i = Some s -> (i <> id \/ sUid s <> uid) -> ses_ok n (delete conn (live w)) i s) as HO.
  { intros i s Hi Hne. apply ses_live_delete; [by apply HC|]. intros e. rewrite Hl. intros [= -> _ ->]. by destruct Hne. }
  unfold connEnd. destruct (activeClients (srv w) !! id) as [s|] eqn:E.
  2:{ split; cbn [srv live]; [|intros c u e i Hx; apply lookup_delete_Some in Hx as [_ Hx]; by eapply c_uid].
      intros i t Hi. apply HO; [done|left; congruence]. }
  destruct (Nat.eqb_spec (sUid s) uid) as [<-|Hu].
  2:{ split; cbn [srv live]; [|intros c u e i Hx; apply lookup_delete_Some in Hx as [_ Hx]; by eapply c_uid].
      intros i t Hi. apply HO; [done|]. destruct (decide (i = id)) as [-> |]; [right; congruence|by left]. }
  pose proof (c_ses _ _ HC _ _ E) as [K1 K2 K3 K4 K5 K6]. apply K1 in Hl as Hc.
  pose proof (size_filter_delete (sConns s) (fun ce => ce.2 = sEpoch s) conn ep Hc) as HS. cbn [snd] in HS.
  split; cbn [srv live set_clients activeClients]; [|intros c u e i Hx; apply lookup_delete_Some in Hx as [_ Hx]; by eapply c_uid].
  intros i t Hi. rewrite lookup_insert_Some in Hi. destruct Hi as [[<- <-]|[Hne Hi]]; [|apply HO; auto].
  assert (forall c e, delete conn (sConns s) !! c = Some e <-> delete conn (live w) !! c = Some (sUid s, e, id)) as HL.
  { intros c e. rewrite !lookup_delete_Some. by rewrite K1. }
  assert (forall c e, delete conn (sConns s) !! c = Some e -> e <= sEpoch s) as HE.
  { intros c e Hx. apply lookup_delete_Some in Hx as [_ Hx]. by eapply K3. }
  unfold currentConns in K4. cbn [set_conns sEpoch]. destruct (Z.eqb_spec ep (sEpoch s)) as [He|He].
  - rewrite decide_True in HS by done. split; cbn [set_conns sConns sEpoch sUid sActiveConns sTimer]; auto; unfold currentConns; cbn [set_conns sConns sEpoch]; try lia.
  - rewrite decide_False in HS by done. split; cbn [set_conns sConns sEpoch sUid sActiveConns sTimer]; auto. unfold currentConns. cbn [set_conns sConns sEpoch]. lia.
Qed.
End Connections.

Section Lifecycle.
Variable sha256 : bytes -> bytes.
Variable deriveID : bytes -> string -> string.

(** The random source works. *)
Definition tokenOk (op : svOp) : Prop := match op with SLock env _ => is_Some (eToken env) | _ => True end.

Lemma conn_frame n w w' : conn_inv n w -> activeClients (srv w') = activeClients (srv w) -> nextUid (srv w') = nextUid (srv w) -> live w' = live w -> conn_inv n w'.
Proof. intros [H1 H2] E1 E2 E3. split; rewrite ?E1, ?E2, ?E3; auto. Qed.

Lemma conn_mono n n' w : conn_inv n w -> n <= n' -> conn_inv n' w.
Proof. intros [H1 H2] H. split; auto. intros i s Hi. by apply (ses_mono n), H; apply H1. Qed.

Lemma conn_step n w op : fly_inv sha256 deriveID w -> pool_inv (srv w) -> conn_inv n w -> tokenOk op -> 0 <= n < 2 ^ 64 - 2 ->
  conn_inv (n + 1) (svStep sha256 deriveID w op).
Proof.
  intros HF HP HC0 Hop Hn. assert (conn_inv (n + 1) w) as HC by (apply (conn_mono n); [done|lia]).
  destruct op as [conn q|now1 now2 remote conn|env conn|conn|uid id|uid id|now id ttl|id|uid id inst|psk enc ea me ms fmin fmax|now src frame owned reg|]; cbn [svStep tokenOk] in *.
  - destruct (live w !! conn); [done|]. destruct (flying w !! conn); [done|]. by apply (conn_frame _ w).
  - destruct (flying w !! conn) as [[a q|a q]|]; [|done..]. destruct (checkRequest _ _ _ _ _ _ _ _) as [sv' e] eqn:EC.
    destruct (checked_guards _ _ _ _ _ _ _ _ _ _ EC) as (b & f & r & ->). by apply (conn_frame _ w).
  - unfold lockStep. destruct (flying w !! conn) as [[a q|a q]|] eqn:Ef; [done| |done]. pose proof (conn_locked sha256 n w (delete conn (flying w)) a env conn q HP HC0 Hop Hn (fl_live _ _ _ HF _ _ Ef)) as HL.
    by destruct (lockedHandshake _ _ _ _ _ _) as [sv' rep].
  - destruct (live w !! conn) as [[[uid ep] id]|] eqn:El; [|done]. by apply conn_end.
  - unfold timerFires. destruct (activeClients (srv w) !! id) as [s|] eqn:E; [|by destruct w]. destruct (_ && _); [|by destruct w]. by apply conn_destroy.
  - unfold kickSession. destruct (activeClients (srv w) !! id) as [s|] eqn:E; [|by destruct w]. destruct (_ =? uid)%nat; [|by destruct w]. by apply conn_destroy.
  - unfold Ban. destruct (banEntry _ _ _ _) as [b ok]. destruct (negb ok); [by apply (conn_frame _ w)|].
    set (sv1 := set_guards _ _ _ _). assert (conn_inv (n + 1) (set_srv sv1 w)) as HC1 by by apply (conn_frame _ w).
    assert (pool_inv sv1) as HP1 by by apply pool_guards. clearbody sv1.
    destruct (activeClients sv1 !! id) as [s|] eqn:E; [|done]. unfold kickSession. rewrite E, Nat.eqb_refl.
    by apply (conn_destroy (n + 1) (set_srv sv1 w)).
  - by apply (conn_frame _ w).
  - unfold sequenceExhausted. destruct (activeClients (srv w) !! id) as [s|] eqn:E; [|by destruct w]. destruct (_ =? uid)%nat; [|by destruct w].
    split; [|apply HC]. cbn [set_srv srv live set_clients activeClients]. intros i t Hi. rewrite lookup_insert_Some in Hi.
    destruct Hi as [[<- <-]|[_ Hi]]; [|by apply HC]. by destruct (c_ses _ _ HC _ _ E).
  - by apply (conn_frame _ w).
  - by apply (conn_frame _ w).
  - by apply (conn_frame _ w).
Qed.

Lemma conn_exec ops : forall n w, fly_inv sha256 deriveID w -> pool_inv (srv w) -> conn_inv n w -> Forall tokenOk ops -> 0 <= n -> n + lenZ ops < 2 ^ 64 - 2 ->
  conn_inv (n + lenZ ops) (svExec sha256 deriveID ops w).
Proof.
  induction ops as [|op ops IH]; intros n w HY HP HC HF Hn HL.
  { unfold lenZ. cbn. by rewrite Z.add_0_r. }
  assert (lenZ (op :: ops) = 1 + lenZ ops) as HE by (unfold lenZ; cbn [length]; lia). rewrite HE in *.
  assert (0 <= lenZ ops) by (unfold lenZ; lia). apply Forall_cons_1 in HF as [Hop HF]. rewrite Z.add_assoc. cbn [svExec fold_left].
  apply IH; [by apply fly_step|by apply pool_step|by apply conn_step; [..|lia]|done|lia|lia].
Qed.
End Lifecycle.

(** C25: Connections are counted exactly and no session is orphaned.  Over any
    history (with a working random source), the connection count of a living session
    is the number of its running connections of the current key epoch, at most 16, and
    a session that has none is always on the retention timer that will destroy it. *)
Theorem session_not_orphaned (sha256 : bytes -> bytes) (deriveID : bytes -> string -> string)
    (psk : string) (enc : bool) (ea me ms fmin fmax : Z) (n4 n6 : ipNet) (ops : list svOp) (id : string) (s : ClientSession) :
  0 <= nsize n4 -> 0 <= nsize n6 -> Forall tokenOk ops -> lenZ ops < 2 ^ 63 ->
  let w := svExec sha256 deriveID ops (world0 (newServer psk enc ea me ms fmin fmax n4 n6)) in
  activeClients (srv w) !! id = Some s ->
  sActiveConns s = currentConns s /\ sActiveConns s <= 16 /\ (0 < sActiveConns s \/ sTimer s = true) /\
  (forall c e, sConns s !! c = Some e <-> live w !! c = Some (sUid s, e, id)).
Proof.
  intros H4 H6 HF HL w Hs. assert (conn_inv (0 + lenZ ops) w) as HC.
  { apply conn_exec; [by apply fly_new|by apply pool_new| |done|lia|lia]. split; cbn; intros; by rewrite ?lookup_empty in *. }
  destruct (c_ses _ _ HC _ _ Hs). auto.
Qed.

(** ** Who may continue a session *)

Definition tokenMatches (s : ClientSession) (t : string) : Prop :=
  String.length t = 64%nat /\ (t = sResumeToken s \/ t = sPendingToken s /\ t <> ""%string).

Lemma verify_spec a b : verifyRandomSessionToken a b = true <-> String.length b = 64%nat /\ a = b.
Proof.
  unfold verifyRandomSessionToken. rewrite !andb_true_iff, !Nat.eqb_eq, bool_decide_eq_true.
  split; [intros ([? ?] & ->); auto|intros [? ->]; auto].
Qed.

Lemma accept_spec s t : let '(s', ok) := acceptSessionResumeToken s t in
  (ok = true <-> tokenMatches s t) /\ same_id s s' /\ sEpoch s' = sEpoch s /\ sEncAlgo s' = sEncAlgo s /\
  (ok = true -> sResumeToken s' = t /\ (sPendingToken s' = ""%string \/ t = sResumeToken s /\ s' = s)).
Proof.
  unfold acceptSessionResumeToken, tokenMatches. destruct (verifyRandomSessionToken (sResumeToken s) t) eqn:E1.
  { apply verify_spec in E1 as [E1 <-]. split; [split; auto|]. split_and!; try done. intros _. auto. }
  assert (~ (String.length t = 64%nat /\ sResumeToken s = t)) as N1 by (rewrite <- verify_spec; congruence).
  destruct (bool_decide_reflect (sPendingToken s = ""%string)) as [Hp|Hp]; cbn [negb andb].
  { split_and!; try done; split; [done|]. intros (A & [->|[-> B]]); [by destruct N1|done]. }
  destruct (verifyRandomSessionToken (sPendingToken s) t) eqn:E2.
  - apply verify_spec in E2 as [E2 E3]. split; [split; [intros _|done]; split; [done|]; right; split; congruence|].
    split_and!; auto; done.
  - assert (~ (String.length t = 64%nat /\ sPendingToken s = t)) as N2 by (rewrite <- verify_spec; congruence).
    split_and!; try done; split; [done|]. intros (A & [->|[-> B]]); [by destruct N1|by destruct N2].
Qed.

Lemma resume_accepted env q s s' : resumeSession env q s = (s', None) ->
  sEncAlgo s = qEncAlgo q /\
  (sInstanceID s = qInstance q /\ sEpoch s' = sEpoch s /\ sSaltA s' = sSaltA s /\ sSaltB s' = sSaltB s \/
   tokenMatches s (qToken q) /\ sEpoch s' = u64 (sEpoch s + 1) /\ sSaltA s' = eSaltA env /\ sSaltB s' = eSaltB env /\ sInstanceID s' = qInstance q).
Proof.
  unfold resumeSession. destruct (Z.eqb_spec (sEncAlgo s) (qEncAlgo q)) as [Ha|]; cbn [negb]; [|done].
  destruct (bool_decide_reflect (sInstanceID s = qInstance q)) as [Hi|]; cbn [negb].
  { destruct (_ && _); intros [= <-]; split; auto. }
  pose proof (accept_spec s (qToken q)) as HA. destruct (acceptSessionResumeToken s (qToken q)) as [s1 ok].
  destruct HA as (A1 & _ & A3 & _ & _). destruct ok; cbn [negb]; [|done].
  unfold rotateSessionEpochLocked. destruct (sEncrypt s1 && _); [done|]. cbn [negb]. unfold ensurePendingResumeToken. cbn [set_conns set_epoch sPendingToken].
  destruct (negb (bool_decide _)); [|destruct (eToken env) as [t|]; [|done]]; intros [= <-]; cbn; rewrite A3; split; auto; right; split_and!; auto; by apply A1.
Qed.

(** C16: A session belongs to its client.  An accepted handshake works on the configuration
    [snapOf sv0] it copied, was checked in a state [sv1] of the server and decided in a
    state [sv2], with anything in between.  It proves the PSK of that configuration, has
    the encryption setting and the cipher of it, is of a client that was not banned when
    it was checked, and carries the id derived from its MAC; and if a session of that
    id and PSK exists, it continues that very session only under the same MAC and cipher,
    and either from the same client process or with the current or the pending resume
    token, in which case the key epoch and both salts are new. *)
Theorem handshake_authenticates (sha256 : bytes -> bytes) (deriveID : bytes -> string -> string)
    (now1 now2 : Z) (remote : string) (env : hsEnv) (conn : nat) (q : HandshakeReq) (sv0 sv1 sv1' sv2 sv2' : Server) (rep : hsReply) (s : ClientSession) :
  checkRequest sha256 deriveID (snapOf sv0) now1 now2 remote q sv1 = (sv1', None) ->
  lockedHandshake sha256 (snapOf sv0) env conn q sv2 = (sv2', inl rep) ->
  admissible sha256 deriveID q (snapOf sv0) /\ (IsBanned now2 (qClientID q) (svBanned sv1)).2 = false /\
  (activeClients sv2 !! qClientID q = Some s -> sPskHash s = hashPSK sha256 (svPsk sv0) ->
   rUid rep = sUid s /\ fmtMAC (default macZero (parseMACKey (str_bytes (qMAC q)))) = sMAC s /\ sEncAlgo s = qEncAlgo q /\
   (sInstanceID s = qInstance q /\ rEpoch rep = sEpoch s \/
    tokenMatches s (qToken q) /\ rEpoch rep = u64 (sEpoch s + 1) /\ rSaltA rep = eSaltA env /\ rSaltB rep = eSaltB env)).
Proof.
  intros HC HL. pose proof (checkRequest_spec sha256 deriveID (snapOf sv0) now1 now2 remote q sv1) as HS. rewrite HC in HS. destruct HS as [_ HS].
  destruct (proj1 HS eq_refl) as [HA HB]. split; [done|]. split; [done|]. intros Hs Hp. unfold lockedHandshake in HL. rewrite Hs in HL.
  destruct (bool_decide_reflect (fmtMAC (default macZero (parseMACKey (str_bytes (qMAC q)))) = sMAC s)) as [Hm|]; cbn [negb] in HL; [|done].
  rewrite bool_decide_true in HL by done. cbn [negb] in HL.
  pose proof (resume_same_id env q s) as [HI _ _ _ _]. destruct (resumeSession env q s) as [s1 [e|]] eqn:ER; [done|]. cbn [fst] in HI.
  apply resume_accepted in ER as [Ha Hr]. unfold joinSession in HL. cbn [set_conns sActiveConns] in HL.
  destruct (maxConnectionsPerIP <=? sActiveConns s1); [done|]. cbn in HL. injection HL as _ <-. cbn. split_and!; auto.
  destruct Hr as [(? & ? & ? & ?)|(? & ? & ? & ? & ?)]; [left|right]; auto.
Qed.

(** ** The two-phase token *)

(** An attempt of the client to continue its session: the instance it runs as, the
    random values of the server, and whether the answer reaches the client. *)
Record attempt := mkAttempt { aInstance : string; aEnv : hsEnv; aDelivered : bool }.

Definition clientReq (s : ClientSession) (inst token : string) : HandshakeReq :=
  mkReq protocolVersion inst "" "" "" None None false 0 (sEncrypt s) (sEncAlgo s) token.

(** The session and the token the client holds; [None] when an attempt is refused. *)
Fixpoint clientRun (s : ClientSession) (token : string) (atts : list attempt) : option (ClientSession * string) :=
  match atts with
  | [] => Some (s, token)
  | a :: atts =>
    match resumeSession (aEnv a) (clientReq s (aInstance a) token) s with
    | (s', None) => clientRun s' (if aDelivered a then responseResumeToken s' else token) atts
    | (_, Some _) => None
    end
  end.

Definition envOk (e : hsEnv) : Prop := eCiphersOk e = true /\ exists t, eToken e = Some t /\ String.length t = 64%nat.

Record token_inv (s : ClientSession) (token : string) : Prop := {
  ti_match : tokenMatches s token;
  ti_cur : String.length (sResumeToken s) = 64%nat;
  ti_pend : sPendingToken s <> ""%string -> String.length (sPendingToken s) = 64%nat
}.

Lemma response_inv s : String.length (sResumeToken s) = 64%nat -> (sPendingToken s <> ""%string -> String.length (sPendingToken s) = 64%nat) ->
  tokenMatches s (responseResumeToken s).
Proof.
  intros H1 H2. unfold responseResumeToken, tokenMatches. destruct (bool_decide_reflect (sPendingToken s = ""%string)); split; auto.
Qed.

Lemma token_step s token a : token_inv s token -> envOk (aEnv a) ->
  exists s', resumeSession (aEnv a) (clientReq s (aInstance a) token) s = (s', None) /\
    sEncAlgo s' = sEncAlgo s /\ sEncrypt s' = sEncrypt s /\ token_inv s' token /\ token_inv s' (responseResumeToken s').
Proof.
  intros [T1 T2 T3] (Hc & t & Ht & Htl). assert (forall s', String.length (sResumeToken s') = 64%nat ->
    (sPendingToken s' <> ""%string -> String.length (sPendingToken s') = 64%nat) -> tokenMatches s' token ->
    token_inv s' token /\ token_inv s' (responseResumeToken s')) as Hfin.
  { intros s' A B C. split; split; auto. by apply response_inv. }
  unfold resumeSession. cbn [clientReq qEncAlgo qInstance qToken]. rewrite Z.eqb_refl. cbn [negb].
  destruct (bool_decide_reflect (sInstanceID s = aInstance a)); cbn [negb].
  - destruct (negb (bool_decide (sPendingToken s = ""%string)) && _) eqn:E; eexists; (split; [reflexivity|]); (split; [done|]); (split; [done|]); apply Hfin; auto.
    + cbn. apply andb_true_iff in E as [_ E]. apply verify_spec in E as [E <-]. done.
    + intros Hx. by destruct Hx.
    + apply andb_true_iff in E as [_ E]. apply verify_spec in E as [E <-]. split; [done|]. by left.
  - pose proof (accept_spec s token) as HA. destruct (acceptSessionResumeToken s token) as [s1 ok] eqn:EA. destruct HA as (A1 & _ & _ & _ & A5).
    assert (ok = true) as -> by by apply A1. cbn [negb]. destruct (A5 eq_refl) as [A6 A7].
    assert (sEncAlgo s1 = sEncAlgo s /\ sEncrypt s1 = sEncrypt s) as [E1 E2].
    { unfold acceptSessionResumeToken in EA. destruct (verifyRandomSessionToken _ _); [by injection EA as <-|]. destruct (_ && _); by injection EA as <-. }
    unfold rotateSessionEpochLocked. rewrite Hc, andb_false_r. cbn [negb]. unfold ensurePendingResumeToken. cbn [set_conns set_epoch sPendingToken].
    rewrite Ht. destruct T1 as [T1 _].
    destruct (bool_decide_reflect (sPendingToken s1 = ""%string)) as [Hp|Hp]; cbn [negb]; eexists; (split; [reflexivity|]); (split; [done|]); (split; [done|]);
      apply Hfin; cbn; auto; try congruence.
    + split; [done|]. left. cbn. done.
    + intros _. destruct A7 as [A7|[_ ->]]; [done|]. auto.
    + split; [done|]. left. cbn. done.
Qed.

(** A client is never locked out of its session by lost answers.  Starting from
    any session whose current or pending token the client holds, however often it
    restarts, reconnects, and loses the server's answer, every attempt is accepted, and
    afterwards it still holds the current or the pending token. *)
Theorem token_rollover_no_lockout (s : ClientSession) (token : string) (atts : list attempt) :
  token_inv s token -> Forall (fun a => envOk (aEnv a)) atts ->
  exists s' token', clientRun s token atts = Some (s', token') /\ tokenMatches s' token'.
Proof.
  intros HT HF. revert s token HT. induction HF as [|a atts Ha HF IH]; intros s token HT; cbn [clientRun].
  { exists s, token. split; [done|apply HT]. }
  destruct (token_step s token a HT Ha) as (s' & -> & _ & _ & H1 & H2). apply IH. by destruct (aDelivered a).
Qed.

(** ** Sessions and the switch *)

Lemma hexVal_range c v : hexVal c = Some v -> 0 <= v < 16.
Proof. unfold hexVal. repeat case_match; intros; simplify_eq; lia. Qed.

Lemma parseMACKey_shape s m : parseMACKey s = Some m -> length m = 6%nat /\ Forall is_u8 m.
Proof.
  unfold parseMACKey. destruct (length (splitOn 58 s) =? 6)%nat eqn:E; [|done]. apply Nat.eqb_eq in E. intros H.
  apply mapM_Some_1 in H. split; [by rewrite <- (Forall2_length _ _ _ H)|]. clear E.
  induction H as [|p v ps m Hp HF IH]; constructor; [|done]. unfold parsePart in Hp.
  destruct p as [|a [|b [|]]]; try done. destruct (hexVal a) as [x|] eqn:Ea; [|done]. destruct (hexVal b) as [y|] eqn:Eb; [|done].
  injection Hp as <-. apply hexVal_range in Ea, Eb. widths. lia.
Qed.

Section Pinned.
Variable sha256 : bytes -> bytes.
Variable deriveID : bytes -> string -> string.
Variable psk : string.

Record pin_inv (sv : Server) : Prop := {
  n_psk : svPsk sv = psk;
  n_own : forall id s, activeClients sv !! id = Some s ->
    id = deriveID (sMAC s) psk /\ sMAC s = fmtMAC (macBin s) /\ macBin s <> macZero /\ staticAt (vswitch sv) id (macBin s)
}.

Lemma pin_clients sv m : pin_inv sv -> (forall id s, m !! id = Some s -> exists t, activeClients sv !! id = Some t /\ same_id t s) ->
  pin_inv (set_clients m sv).
Proof.
  intros [H1 H2] Hm. split; [done|]. intros id s Hs. destruct (Hm _ _ Hs) as (t & Ht & [_ _ _ Hmac Hbin]).
  cbn [set_clients vswitch]. rewrite Hmac, Hbin. by apply H2.
Qed.

Lemma pin_set sv id s s' : pin_inv sv -> activeClients sv !! id = Some s -> same_id s s' ->
  pin_inv (set_clients (<[id := s']> (activeClients sv)) sv).
Proof.
  intros HN H HS. apply pin_clients; [done|]. intros i t. rewrite lookup_insert_Some. intros [[<- <-]|[_ Ht]]; [by exists s|]. exists t. by split.
Qed.

Lemma pin_destroy sv id s : pool_inv sv -> pin_inv sv -> activeClients sv !! id = Some s -> pin_inv (destroySessionLocked s id sv).
Proof.
  intros HP [N1 N2] H. unfold destroySessionLocked. rewrite H, Nat.eqb_refl. split; [done|].
  cbn [set_clients set_pool activeClients vswitch]. intros i t. rewrite lookup_delete_Some. intros [Hne Ht].
  destruct (N2 _ _ Ht) as (A & B & C & D). split_and!; auto.
  apply (staticAt_step i (macBin t) (vswitch sv) (VRemovePort id)); [apply HP|cbn; congruence|done].
Qed.

Lemma pin_create a env q bind sv sv' s conn : pool_inv sv -> pin_inv sv -> admissible sha256 deriveID q a -> snPsk a = psk ->
  let mac := fmtMAC (default macZero (parseMACKey (str_bytes (qMAC q)))) in
  createSession sha256 a env mac q bind sv = (sv', inl s) -> activeClients sv !! qClientID q = None ->
  pin_inv (set_clients (<[qClientID q := registerConn conn s]> (activeClients sv')) sv').
Proof.
  intros HP [N1 N2] [_ _ _ _ Hv Hmac _ _ _ Hid] Ha mac HC Hn. pose proof (create_spec sha256 a env mac q bind sv HP) as HS. rewrite HC in HS.
  destruct HS as (_ & _ & _ & SM & SB & _ & _ & _ & _ & _ & _ & _ & AC & _ & _ & _ & _ & _ & PS & _ & _ & VS).
  unfold isValidMACString in Hmac. fold mac in Hid. destruct (parseMACKey (str_bytes (qMAC q))) as [m|] eqn:Em; [|done].
  apply andb_true_iff in Hmac as [Hz _]. apply negb_true_iff, bool_decide_eq_false in Hz.
  assert (mac = fmtMAC m) as Hm by done. clearbody mac. rewrite Hm in SB, SM, Hid.
  destruct (parseMACKey_shape _ _ Em) as [Hl Hu].  rewrite (mac_roundtrip m Hl Hu) in SB. cbn in SB. rewrite Ha in Hid.
  set (id := qClientID q) in *. set (vs1 := AddPort (mkPort (nextUid sv) id true) (vswitch sv)) in *.
  assert (ports (vswitch sv) !! id = None) as Hp.
  { destruct (ports (vswitch sv) !! id) eqn:E; [|done]. destruct (proj1 (pi_ports _ HP id)) as [Ht|[? ?]]; [eauto| |congruence].
    by rewrite Ht, valid_not_tap in Hv. }
  assert (vs_wf vs1) as HW by (by apply (vstep_wf (vswitch sv) (VAddPort (mkPort (nextUid sv) id true)) (pi_wf _ HP))).
  split; [cbn; congruence|]. cbn [set_clients activeClients vswitch]. rewrite AC, VS, SB.
  intros i t. rewrite lookup_insert_Some. intros [[<- <-]|[Hne Ht]].
  - cbn [registerConn set_conns sMAC macBin]. rewrite SM, SB. split_and!; auto. eexists.
    unfold AddStaticMAC. rewrite bool_decide_false by done. rewrite macLookup_insert by apply HW. rewrite decide_True by done. by split_and!.
  - destruct (N2 _ _ Ht) as (A & B & C & D). split_and!; auto.
    apply (staticAt_step i (macBin t) vs1 (VAddStatic id m)); [done| |by apply (staticAt_step i (macBin t) (vswitch sv) (VAddPort (mkPort (nextUid sv) id true))); [apply HP|..]].
    cbn. intros ->. apply Hne. rewrite A, B. done.
Qed.

Lemma pin_locked a env conn q sv : pool_inv sv -> pin_inv sv -> admissible sha256 deriveID q a -> snPsk a = psk ->
  pin_inv (lockedHandshake sha256 a env conn q sv).1.
Proof.
  intros HP HN HA Hpa. unfold lockedHandshake. set (bind := macToIP sv !! _). clearbody bind.
  assert (forall sv0, pool_inv sv0 -> pin_inv sv0 -> activeClients sv0 !! qClientID q = None ->
    pin_inv (let '(sv1, r) := createSession sha256 a env (fmtMAC (default macZero (parseMACKey (str_bytes (qMAC q))))) q bind sv0 in
             match r with inr e => (sv1, inr e) | inl s => accept conn (qClientID q) s sv1 end).1) as HC.
  { intros sv0 HP0 HN0 Hn. pose proof (create_spec sha256 a env (fmtMAC (default macZero (parseMACKey (str_bytes (qMAC q))))) q bind sv0 HP0) as HS.
    destruct (createSession _ _ _ _ _ _ sv0) as [sv1 [s|e]] eqn:E; [|by subst]. cbn [accept fst]. by eapply pin_create. }
  destruct (activeClients sv !! qClientID q) as [s|] eqn:E; [|by apply HC].
  destruct (negb (bool_decide (_ = sMAC s))); [done|]. destruct (negb (bool_decide (sPskHash s = _))).
  { apply HC; [by apply pool_destroy|by apply pin_destroy|]. unfold destroySessionLocked. rewrite E, Nat.eqb_refl. cbn. apply lookup_delete_eq. }
  pose proof (resume_same_id env q s) as HR. destruct (resumeSession env q s) as [s1 [e|]]; cbn [fst] in HR.
  { by apply (pin_set sv _ s). }
  pose proof (join_same_id s1) as HJ. destruct (joinSession s1) as [s2 [e|]]; cbn [fst] in HJ; cbn [accept set_clients activeClients fst].
  - rewrite insert_insert_eq. apply (pin_set sv _ s); auto. by etransitivity.
  - rewrite !insert_insert_eq. apply (pin_set sv _ s); auto. transitivity s1; [done|]. by transitivity s2.
Qed.

Definition keepsPSK (op : svOp) : Prop := match op with SConfig p _ _ _ _ _ _ => p = psk | _ => True end.

Lemma pin_frame sv sv' : pin_inv sv -> svPsk sv' = psk -> activeClients sv' = activeClients sv ->
  (forall id mac, staticAt (vswitch sv) id mac -> staticAt (vswitch sv') id mac) -> pin_inv sv'.
Proof.
  intros [N1 N2] H1 H2 H3. split; [done|]. intros id s. rewrite H2. intros Hs. destruct (N2 _ _ Hs) as (A & B & C & D). split_and!; auto.
Qed.

(** The handshakes in flight work on that PSK, too. *)
Definition flySnaps (P : authSnap -> Prop) (w : world) : Prop :=
  forall c st, flying w !! c = Some st -> P (match st with HBegun a _ | HChecked a _ => a end).

Lemma snaps_step P w op : flySnaps P w -> P (snapOf (srv w)) -> flySnaps P (svStep sha256 deriveID w op).
Proof.
  intros HF HP. destruct op as [conn q|now1 now2 remote conn|env conn|conn| | | | | | | |]; cbn [svStep]; try done.
  - destruct (live w !! conn); [done|]. destruct (flying w !! conn); [done|]. intros c st Hc. cbn [flying] in Hc. apply lookup_insert_Some in Hc as [[_ <-]|[_ Hc]]; [done|by eapply HF].
  - destruct (flying w !! conn) as [[a q|a q]|] eqn:Ef; [|done..]. destruct (checkRequest _ _ _ _ _ _ _ _) as [sv' [e|]]; intros c st Hc; cbn [flying] in Hc.
    + apply lookup_delete_Some in Hc as [_ Hc]. by eapply HF.
    + apply lookup_insert_Some in Hc as [[_ <-]|[_ Hc]]; [by apply (HF _ _ Ef)|by eapply HF].
  - unfold lockStep. destruct (flying w !! conn) as [[a q|a q]|]; [done| |done]. destruct (lockedHandshake _ _ _ _ _ _) as [sv' r]. intros c st Hc. cbn [fst flying] in Hc.
    apply lookup_delete_Some in Hc as [_ Hc]. by eapply HF.
  - by destruct (live w !! conn) as [[[uid ep] id]|].
Qed.

Lemma pin_step w op : fly_inv sha256 deriveID w -> flySnaps (fun a => snPsk a = psk) w -> pool_inv (srv w) -> pin_inv (srv w) -> keepsPSK op ->
  pin_inv (srv (svStep sha256 deriveID w op)).
Proof.
  intros HF HY HP HN Hop. pose proof (n_psk _ HN) as Hpsk.
  destruct op as [conn q|now1 now2 remote conn|env conn|conn|uid id|uid id|now id ttl|id|uid id inst|p enc ea me ms fmin fmax|now src frame owned reg|]; cbn [svStep keepsPSK] in *.
  - destruct (live w !! conn); [done|]. by destruct (flying w !! conn).
  - destruct (flying w !! conn) as [[a q|a q]|]; [|done..]. destruct (checkRequest _ _ _ _ _ _ _ _) as [sv' e] eqn:EC.
    destruct (checked_guards _ _ _ _ _ _ _ _ _ _ EC) as (b & f & r & ->). by apply (pin_frame (srv w)).
  - unfold lockStep. destruct (flying w !! conn) as [[a q|a q]|] eqn:Ef; [done| |done]. pose proof (pin_locked a env conn q (srv w) HP HN (fl_ok _ _ _ HF _ _ _ Ef) (HY _ _ Ef)) as HL.
    by destruct (lockedHandshake _ _ _ _ _ _) as [sv' rep].
  - destruct (live w !! conn) as [[[uid ep] id]|]; [|done]. unfold connEnd. cbn [srv].
    destruct (activeClients (srv w) !! id) as [s|] eqn:E; [|done]. destruct (_ =? uid)%nat; [|done]. apply (pin_set _ _ s); auto. by destruct (ep =? _).
  - unfold timerFires. cbn [set_srv srv]. destruct (activeClients (srv w) !! id) as [s|] eqn:E; [|done]. destruct (_ && _); [|done]. by apply pin_destroy.
  - unfold kickSession. cbn [set_srv srv]. destruct (activeClients (srv w) !! id) as [s|] eqn:E; [|done]. destruct (_ =? uid)%nat; [|done]. by apply pin_destroy.
  - unfold Ban. cbn [set_srv srv]. destruct (banEntry _ _ _ _) as [b ok]. destruct (negb ok); [by apply (pin_frame (srv w))|].
    set (sv1 := set_guards _ _ _ _). assert (pool_inv sv1) as HP1 by by apply pool_guards.
    assert (pin_inv sv1) as HN1 by by apply (pin_frame (srv w)). clearbody sv1.
    destruct (activeClients sv1 !! id) as [s|] eqn:E; [|done]. unfold kickSession. rewrite E, Nat.eqb_refl. by apply pin_destroy.
  - by apply (pin_frame (srv w)).
  - unfold sequenceExhausted. cbn [set_srv srv]. destruct (activeClients (srv w) !! id) as [s|] eqn:E; [|done]. destruct (_ =? uid)%nat; [|done]. by apply (pin_set _ _ s).
  - by apply (pin_frame (srv w)).
  - apply (pin_frame (srv w)); auto. intros id mac.
    apply (staticAt_step id mac (vswitch (srv w)) (VFrame (Some (validateSrcMAC (srv w))) now src frame owned reg) (pi_wf _ HP)). exact I.
  - apply (pin_frame (srv w)); auto. intros id mac. apply (staticAt_step id mac (vswitch (srv w)) VTick (pi_wf _ HP)). exact I.
Qed.
End Pinned.

(** C21: Every living session owns its MAC in the switch.  Under one PSK, through any
    history of handshakes, disconnects, timers, kicks, bans and frames with arbitrary
    source addresses, the registered MAC of a living session is pinned to that
    session's port, and a unicast frame for it is written to that port or dropped. *)
Theorem session_mac_pinned (sha256 : bytes -> bytes) (deriveID : bytes -> string -> string)
    (psk : string) (enc : bool) (ea me ms fmin fmax : Z) (n4 n6 : ipNet) (ops : list svOp) (id : string) (s : ClientSession)
    (now : Z) (src : string) (owned : bool) :
  0 <= nsize n4 -> 0 <= nsize n6 -> Forall (keepsPSK psk) ops ->
  let sv := srv (svExec sha256 deriveID ops (world0 (newServer psk enc ea me ms fmin fmax n4 n6))) in
  activeClients sv !! id = Some s -> id <> ""%string -> Z.land (byte_at 0 (macBin s)) 1 <> 1 ->
  staticAt (vswitch sv) id (macBin s) /\ Forall (fun p => pID p = id) (written (forward now src (macBin s) owned (vswitch sv)).2).
Proof.
  intros H4 H6 HF. set (w0 := world0 _). intros sv Hs Hid Hu.
  assert (pool_inv sv /\ pin_inv deriveID psk sv) as [HP [_ HN]].
  { assert (fly_inv sha256 deriveID w0 /\ flySnaps (fun a => snPsk a = psk) w0 /\ pool_inv (srv w0) /\ pin_inv deriveID psk (srv w0)) as H0.
    { split; [apply fly_new|]. split; [intros c st Hc; cbn in Hc; by rewrite lookup_empty in Hc|]. split; [by apply pool_new|]. split; [done|]. intros i t. cbn. by rewrite lookup_empty. }
    subst sv. clear Hs. revert H0. generalize w0. induction HF as [|op ops Hop HF IH]; intros w (HY & HS & HP & HN); [done|].
    cbn [svExec fold_left]. apply IH. split; [by apply fly_step|]. split; [apply snaps_step; [done|apply HN]|]. split; [by apply pool_step|by eapply pin_step]. }
  destruct (HN _ _ Hs) as (_ & _ & _ & HS). split; [done|]. destruct HS as (e & He & _ & He2). rewrite <- He2.
  apply forward_known; [apply HP|done|done|congruence].
Qed.

(** ** A concrete server *)

(** A stand-in for SHA-256: the text itself, cut to 32 bytes. *)
Definition demoSha (b : bytes) : bytes := (fun x => x mod 256) <$> take 32 (b ++ zeros 32).
Definition demoHashPSK (p : string) : string := hashPSK demoSha p.
Definition demoDerive (mac : bytes) (p : string) : string := "01234567-89ab-cdef-0123-456789abcdef".
Definition demoTok (c : string) : string :=
  String.append c "123456789abcdef0123456789abcdef0123456789abcdef0123456789abcdef"%string.
Definition demoWorld : world := world0 (newServer "pw" true encAlgoGCM 1 8 2 64 (mkNet 167772160 256) (mkNet 4096 256)).

(** The three steps of a handshake in a row. *)
Definition demoHandshake (now : Z) (env : hsEnv) (conn : nat) (q : HandshakeReq) : list svOp := [SBegin conn q; SCheck now now "h" conn; SLock env conn].
Definition demoEnv (t : option string) : hsEnv := mkEnv [1; 1] [2; 2] true t.
Definition demoReq (inst token : string) : HandshakeReq :=
  mkReq 3 inst (demoDerive [] "") (demoHashPSK "pw") "02:00:00:00:00:09" None None true 8 true encAlgoGCM token.
Definition demoInst1 : string := "aaaaaaaaaaaaaaaa".
Definition demoInst2 : string := "bbbbbbbbbbbbbbbb".

(** A client connects, its process restarts, and the server cannot draw a token for
    the new epoch; then the old connection ends. *)
Definition orphanOps : list svOp :=
  demoHandshake 0 (demoEnv (Some (demoTok "a"))) 1 (demoReq demoInst1 "") ++
  demoHandshake 1 (demoEnv None) 2 (demoReq demoInst2 (demoTok "a")) ++ [SConnEnd 1].

(** Without the random source a session can be orphaned: when the next token
    cannot be drawn after the key epoch was rotated, the session is left without a
    connection and without a retention timer, with its addresses taken. *)
Theorem token_failure_orphans_session :
  let w := svExec demoSha demoDerive orphanOps demoWorld in
  live w = ∅ /\
  exists s, activeClients (srv w) !! demoDerive [] "" = Some s /\ sActiveConns s = 0 /\ sConns s = ∅ /\ sTimer s = false /\ sIPv4 s ∈ usedV4 (srv w).
Proof. split; [by vm_compute|]. eexists. split; [vm_compute; reflexivity|]. split_and!; [reflexivity..|]. apply (bool_decide_unpack _). vm_compute. exact I. Qed.

(** A ban does not reach a handshake that has passed the checks: the client gets its
    session although it is banned by then, and keeps it, for the check comes with a
    handshake only. *)
Definition banRaceOps : list svOp :=
  [SBegin 1 (demoReq demoInst1 ""); SCheck 0 0 "h" 1; SBan 5 (demoDerive [] "") 0; SLock (demoEnv (Some (demoTok "a"))) 1].
Theorem ban_misses_handshake :
  let w := svExec demoSha demoDerive banRaceOps demoWorld in
  (IsBanned 6 (demoDerive [] "") (svBanned (srv w))).2 = true /\
  match activeClients (srv w) !! demoDerive [] "" with Some s => sActiveConns s = 1 | None => False end.
Proof. split; [by vm_compute|]. vm_compute. reflexivity. Qed.

(** ** Witnesses *)

Definition demoOps1 : list svOp :=
  [SBegin 1 (demoReq demoInst1 ""); SBegin 2 (demoReq demoInst2 (demoTok "a")); SCheck 1 1 "h" 2; SCheck 1 1 "h" 1;
   SLock (demoEnv (Some (demoTok "a"))) 1; SLock (demoEnv (Some (demoTok "b"))) 2;
   SConnEnd 1; SConnEnd 2; SFrame 5 tapPortID (replicate 6 255 ++ [2; 0; 0; 0; 0; 9] ++ [8; 0]) true None].
Definition demoSession : ClientSession :=
  mkSession 1 167772162 4098 (str_bytes "02:00:00:00:00:09") [2; 0; 0; 0; 0; 9] 8 encAlgoGCM true [1; 1] [2; 2] (demoHashPSK "pw") demoInst2 2
            (demoTok "a") (demoTok "b") 0 true ∅.

Lemma demo_active : activeClients (srv (svExec demoSha demoDerive demoOps1 demoWorld)) !! demoDerive [] "" = Some demoSession.
Proof. vm_compute. reflexivity. Defined.

Lemma address_pool_exact_witness : sIPv4 demoSession ∈ usedV4 (srv (svExec demoSha demoDerive demoOps1 demoWorld)).
Proof.
  destruct (address_pool_exact demoSha demoDerive "pw" true encAlgoGCM 1 8 2 64 (mkNet 167772160 256) (mkNet 4096 256) demoOps1)
    as (_ & H4 & _); [cbn; lia|cbn; lia|].
  apply (proj2 (H4 (sIPv4 demoSession))). right. exists (demoDerive [] ""), demoSession. split; [exact demo_active|reflexivity].
Defined.

Lemma session_not_orphaned_witness : sActiveConns demoSession = currentConns demoSession /\ (0 < sActiveConns demoSession \/ sTimer demoSession = true).
Proof.
  destruct (session_not_orphaned demoSha demoDerive "pw" true encAlgoGCM 1 8 2 64 (mkNet 167772160 256) (mkNet 4096 256) demoOps1
    (demoDerive [] "") demoSession) as (H1 & _ & H2 & _).
  - cbn. lia.
  - cbn. lia.
  - repeat constructor; cbn; eauto.
  - vm_compute. reflexivity.
  - exact demo_active.
  - split; [exact H1|exact H2].
Defined.

Lemma handshake_authenticates_witness :
  let sv := srv (svExec demoSha demoDerive (demoHandshake 0 (demoEnv (Some (demoTok "a"))) 1 (demoReq demoInst1 "")) demoWorld) in
  match lockedHandshake demoSha (snapOf sv) (demoEnv (Some (demoTok "b"))) 2 (demoReq demoInst2 (demoTok "a")) sv, activeClients sv !! demoDerive [] "" with
  | (_, inl rep), Some s => rEpoch rep = 2 /\ admissible demoSha demoDerive (demoReq demoInst2 (demoTok "a")) (snapOf sv)
  | _, _ => False
  end.
Proof.
  intros sv. destruct (lockedHandshake demoSha (snapOf sv) (demoEnv (Some (demoTok "b"))) 2 (demoReq demoInst2 (demoTok "a")) sv) as [sv' [rep|e]] eqn:E;
    [|vm_compute in E; discriminate].
  destruct (activeClients sv !! demoDerive [] "") as [s|] eqn:Es; [|vm_compute in Es; discriminate].
  destruct (handshake_authenticates demoSha demoDerive 1 1 "h" (demoEnv (Some (demoTok "b"))) 2 (demoReq demoInst2 (demoTok "a")) sv sv
    (checkRequest demoSha demoDerive (snapOf sv) 1 1 "h" (demoReq demoInst2 (demoTok "a")) sv).1 sv sv' rep s) as [HA _].
  - vm_compute. reflexivity.
  - exact E.
  - split; [|exact HA]. vm_compute in E. by injection E as _ <-.
Defined.

Lemma token_rollover_no_lockout_witness :
  exists s' token', clientRun demoSession (demoTok "a") [mkAttempt demoInst1 (demoEnv (Some (demoTok "c"))) false;
    mkAttempt demoInst2 (demoEnv (Some (demoTok "d"))) true; mkAttempt demoInst1 (demoEnv (Some (demoTok "e"))) false] = Some (s', token') /\ tokenMatches s' token'.
Proof.
  apply (token_rollover_no_lockout demoSession (demoTok "a")).
  - split; [split; [reflexivity|by left]|reflexivity|reflexivity].
  - repeat constructor; eexists; split; reflexivity.
Defined.

Lemma session_mac_pinned_witness :
  let sv := srv (svExec demoSha demoDerive demoOps1 demoWorld) in
  staticAt (vswitch sv) (demoDerive [] "") [2; 0; 0; 0; 0; 9] /\
  Forall (fun p => pID p = demoDerive [] "") (written (forward 9 tapPortID [2; 0; 0; 0; 0; 9] true (vswitch sv)).2).
Proof.
  apply (session_mac_pinned demoSha demoDerive "pw" true encAlgoGCM 1 8 2 64 (mkNet 167772160 256) (mkNet 4096 256) demoOps1
    (demoDerive [] "") demoSession 9 tapPortID true).
  - cbn. lia.
  - cbn. lia.
  - repeat constructor.
  - exact demo_active.
  - discriminate.
  - vm_compute. discriminate.
Defined.
