(* ===== verification/SesTypes.v ===== *)
(** * What holds of every session of a server (server.go)

    A rule for properties of single sessions: what creation establishes and the
    operations on a session preserve holds of every session through every history of the
    server.  With it, the types of a session's fields: cipher and salts, FEC group,
    tokens, MAC. *)

From stdpp Require Import base tactics list numbers gmap strings.
From S2P Require Import Prelude Aead FecControl VSwitch Guards Ident Session.
#[local] Open Scope Z_scope.

(** ** The rule *)

Section Each.
Variable sha256 : bytes -> bytes.
Variable deriveID : bytes -> string -> string.

(** [cfg]: the configurations the server may have, as a handshake copies them; [envOK]: the random values of a
    handshake; [P]: the property of a session under its id. *)
Variables (cfg : authSnap -> Prop) (envOK : hsEnv -> Prop) (P : string -> ClientSession -> Prop).

Definition opOK (op : svOp) : Prop :=
  match op with
  | SLock env _ => envOK env
  | SConfig psk enc ea me ms fmin fmax => cfg (mkSnap psk enc ea me fmin fmax)
  | _ => True
  end.

Hypothesis Hresume : forall env q id s, envOK env -> P id s -> P id (resumeSession env q s).1.
Hypothesis Hconns : forall a t m id s, P id s -> P id (set_conns a t m s).
Hypothesis Hexhaust : forall inst id s, P id s -> P id (set_epoch inst (sEpoch s) (sSaltA s) (sSaltB s) s).
Hypothesis Hcreate : forall a env q bind sv sv' s, cfg a -> envOK env -> admissible sha256 deriveID q a ->
  createSession sha256 a env (fmtMAC (default macZero (parseMACKey (str_bytes (qMAC q))))) q bind sv = (sv', inl s) -> P (qClientID q) s.

Record each (sv : Server) : Prop := {
  ea_cfg : cfg (snapOf sv);
  ea_all : forall id s, activeClients sv !! id = Some s -> P id s
}.

Lemma each_frame sv sv' : each sv -> snapOf sv' = snapOf sv -> (forall id s, activeClients sv' !! id = Some s -> P id s \/ activeClients sv !! id = Some s) -> each sv'.
Proof using. intros [H1 H2] Hc H. split; [by rewrite Hc|]. intros id s Hs. destruct (H _ _ Hs); auto. Qed.

Lemma each_set sv id s : each sv -> P id s -> each (set_clients (<[id := s]> (activeClients sv)) sv).
Proof using. intros HE HP. apply (each_frame sv); [done|done|]. cbn. intros i t. rewrite lookup_insert_Some. intros [[<- <-]|[_ Ht]]; auto. Qed.

Lemma each_destroy sv id s : each sv -> each (destroySessionLocked s id sv).
Proof using.
  intros HE. unfold destroySessionLocked. destruct (activeClients sv !! id) as [cur|]; [|done]. destruct (_ =? _)%nat; [|done].
  apply (each_frame sv); [done|done|]. cbn. intros i t. rewrite lookup_delete_Some. intros [_ Ht]; auto.
Qed.

Lemma create_frame a env mac q bind sv sv' r : createSession sha256 a env mac q bind sv = (sv', r) ->
  activeClients sv' = activeClients sv /\ snapOf sv' = snapOf sv /\ svBanned sv' = svBanned sv.
Proof using.
  unfold createSession. destruct (_ && _); [by intros [= <- <-]|]. destruct (assignIPsLocked _ _ sv) as [[[[ip4 ip6] u4] u6]|]; [|by intros [= <- <-]].
  destruct (if validSessionTokenFormat _ then _ else _) as [token|]; by intros [= <- <-].
Qed.

Lemma each_locked a env conn q sv : each sv -> cfg a -> envOK env -> admissible sha256 deriveID q a -> each (lockedHandshake sha256 a env conn q sv).1.
Proof using Hresume Hconns Hcreate.
  intros HE Ha Henv HA. unfold lockedHandshake. set (mac := fmtMAC _). set (bind := macToIP sv !! mac). clearbody bind.
  assert (forall sv0, each sv0 ->
    each (let '(sv1, r) := createSession sha256 a env mac q bind sv0 in match r with inr e => (sv1, inr e) | inl s => accept conn (qClientID q) s sv1 end).1) as HC.
  { intros sv0 HE0. destruct (createSession sha256 a env mac q bind sv0) as [sv1 r] eqn:EC. destruct (create_frame _ _ _ _ _ _ _ _ EC) as (F1 & F2 & _).
    assert (each sv1) as HE1 by (apply (each_frame sv0); [done|done|]; intros i t; rewrite F1; auto).
    destruct r as [s|e]; [|done]. cbn [accept fst]. apply each_set; [done|]. apply Hconns. by apply (Hcreate a env q bind sv0 sv1 s). }
  destruct (activeClients sv !! qClientID q) as [s|] eqn:E; [|by apply HC]. destruct (negb (bool_decide (mac = _))); [done|]. destruct (negb (bool_decide (sPskHash s = _))).
  { by apply HC, each_destroy. }
  pose proof (Hresume env q (qClientID q) s Henv (ea_all _ HE _ _ E)) as HR. destruct (resumeSession env q s) as [s1 e1]; cbn [fst] in HR.
  assert (each (set_clients (<[qClientID q := s1]> (activeClients sv)) sv)) as HE1 by by apply each_set. destruct e1 as [e1|]; [done|].
  assert (P (qClientID q) (joinSession s1).1) as HJ by (unfold joinSession; destruct (_ <=? _); cbn [fst]; by repeat apply Hconns).
  destruct (joinSession s1) as [s2 e2]; cbn [fst] in HJ. set (sv1 := set_clients _ sv) in *. clearbody sv1.
  assert (each (set_clients (<[qClientID q := s2]> (activeClients sv1)) sv1)) as HE2 by by apply each_set. destruct e2 as [e2|]; [done|].
  cbn [accept fst]. apply each_set; [done|]. by apply Hconns.
Qed.

Lemma each_step w op : fly_inv sha256 deriveID w -> flySnaps cfg w -> each (srv w) -> opOK op -> each (srv (svStep sha256 deriveID w op)).
Proof using Hresume Hconns Hexhaust Hcreate.
  intros HF HY HE Hop. assert (forall b f r, each (set_guards b f r (srv w))) as HG by (intros b f r; apply (each_frame (srv w)); [done|done|]; auto).
  destruct op as [conn q|now1 now2 remote conn|env conn|conn|uid id|uid id|now id ttl|id|uid id inst|psk enc ea me ms fmin fmax|now src frame owned reg|]; cbn [svStep opOK] in *.
  - destruct (live w !! conn); [done|]. by destruct (flying w !! conn).
  - destruct (flying w !! conn) as [[a q|a q]|]; [|done..]. destruct (checkRequest _ _ _ _ _ _ _ _) as [sv' e] eqn:EC.
    destruct (checked_guards _ _ _ _ _ _ _ _ _ _ EC) as (b & f & r & ->). apply HG.
  - unfold lockStep. destruct (flying w !! conn) as [[a q|a q]|] eqn:Ef; [done| |done]. pose proof (each_locked a env conn q (srv w) HE (HY _ _ Ef) Hop (fl_ok _ _ _ HF _ _ _ Ef)) as HL.
    by destruct (lockedHandshake _ _ _ _ _ _) as [sv' rep].
  - destruct (live w !! conn) as [[[uid ep] id]|]; [|done]. unfold connEnd. cbn [srv]. destruct (activeClients (srv w) !! id) as [s|] eqn:E; [|done].
    destruct (_ =? uid)%nat; [|done]. apply each_set; [done|]. pose proof (ea_all _ HE _ _ E). destruct (ep =? _); by repeat apply Hconns.
  - unfold timerFires. cbn [set_srv srv]. destruct (activeClients (srv w) !! id) as [s|]; [|done]. destruct (_ && _); [|done]. by apply each_destroy.
  - unfold kickSession. cbn [set_srv srv]. destruct (activeClients (srv w) !! id) as [s|]; [|done]. destruct (_ =? uid)%nat; [|done]. by apply each_destroy.
  - unfold Ban. cbn [set_srv srv]. destruct (banEntry _ _ _ _) as [b ok]. destruct (negb ok); [apply HG|]. set (sv1 := set_guards _ _ _ _). assert (each sv1) as HE1 by apply HG. clearbody sv1.
    destruct (activeClients sv1 !! id) as [s|] eqn:E; [|done]. unfold kickSession. rewrite E, Nat.eqb_refl. by apply each_destroy.
  - apply HG.
  - unfold sequenceExhausted. cbn [set_srv srv]. destruct (activeClients (srv w) !! id) as [s|] eqn:E; [|done]. destruct (_ =? uid)%nat; [|done]. apply each_set; [done|]. by apply Hexhaust, (ea_all _ HE).
  - destruct HE as [_ HE]. by split.
  - apply (each_frame (srv w)); [done|done|]. auto.
  - apply (each_frame (srv w)); [done|done|]. auto.
Qed.

Lemma each_exec ops : forall w, fly_inv sha256 deriveID w -> flySnaps cfg w -> each (srv w) -> Forall opOK ops -> each (srv (svExec sha256 deriveID ops w)).
Proof using Hresume Hconns Hexhaust Hcreate.
  induction ops as [|op ops IH]; intros w HF HY HE HO; [done|]. apply Forall_cons_1 in HO as [H1 HO]. cbn [svExec fold_left].
  apply IH; [by apply fly_step|apply snaps_step; [done|apply HE]|by apply each_step|done].
Qed.

Lemma each_new psk enc ea me ms fmin fmax n4 n6 : cfg (snapOf (newServer psk enc ea me ms fmin fmax n4 n6)) -> each (newServer psk enc ea me ms fmin fmax n4 n6).
Proof using. intros Hc. split; [done|]. intros id s. cbn. by rewrite lookup_empty. Qed.
End Each.

(** ** The types of a session *)

(** A configuration that passes validation, as far as sessions depend on it. *)
Definition cfgTyped (a : authSnap) : Prop :=
  (snEncrypt a = true -> isInnerAEADAlgo (snEncAlgo a) = true) /\ fecMinGroup <= snFecMin a /\ snFecMax a <= fecMaxGroup.

Definition isSalt (b : bytes) : Prop := length b = encSaltSize /\ Forall is_u8 b.

(** The random source gives 8-byte salts and 32-byte tokens in hex. *)
Definition envTyped (env : hsEnv) : Prop :=
  isSalt (eSaltA env) /\ isSalt (eSaltB env) /\ (forall t, eToken env = Some t -> String.length t = 64%nat).

Record ses_typed (id : string) (s : ClientSession) : Prop := {
  ty_id : isValidClientID (str_bytes id) = true;
  ty_mac : parseMACKey (sMAC s) = Some (macBin s) /\ isValidMACString (sMAC s) = true;
  ty_enc : sEncrypt s = isInnerAEADAlgo (sEncAlgo s) /\ (sEncrypt s = false -> sEncAlgo s = encAlgoNone);
  ty_salts : isSalt (sSaltA s) /\ isSalt (sSaltB s);
  ty_fec : sFecEncK s = 0 \/ fecMinGroup <= sFecEncK s <= fecMaxGroup;
  ty_token : String.length (sResumeToken s) = 64%nat;
  ty_pending : sPendingToken s = ""%string \/ String.length (sPendingToken s) = 64%nat
}.

Lemma length_str_bytes t : length (str_bytes t) = String.length t.
Proof. unfold str_bytes. rewrite length_fmap. induction t as [|a t IH]; [done|]. cbn. by rewrite IH. Qed.

Lemma typed_token id s cur pend : ses_typed id s -> String.length cur = 64%nat -> (pend = ""%string \/ String.length pend = 64%nat) -> ses_typed id (set_token cur pend s).
Proof. intros [] H1 H2. by split. Qed.

Lemma typed_epoch inst e a b id s : ses_typed id s -> isSalt a -> isSalt b -> ses_typed id (set_epoch inst e a b s).
Proof. intros [] H1 H2. by split. Qed.

Lemma typed_conns n t m id s : ses_typed id s -> ses_typed id (set_conns n t m s).
Proof. intros []. by split. Qed.

Lemma typed_accept id s t : ses_typed id s -> ses_typed id (acceptSessionResumeToken s t).1.
Proof.
  intros HT. unfold acceptSessionResumeToken. destruct (verifyRandomSessionToken _ _); [done|]. destruct (_ && _) eqn:E; [|done]. cbn [fst].
  apply andb_true_iff in E as [E _]. apply negb_true_iff, bool_decide_eq_false in E. apply typed_token; auto. by destruct (ty_pending _ _ HT).
Qed.

Lemma typed_pending id s fresh : ses_typed id s -> (forall t, fresh = Some t -> String.length t = 64%nat) -> ses_typed id (ensurePendingResumeToken fresh s).1.
Proof.
  intros HT Hf. unfold ensurePendingResumeToken. destruct (negb _); [done|]. destruct fresh as [t|]; [|done]. cbn [fst]. apply typed_token; auto. apply HT.
Qed.

Lemma typed_resume env q id s : envTyped env -> ses_typed id s -> ses_typed id (resumeSession env q s).1.
Proof.
  intros (Ea & Eb & Et) HT. unfold resumeSession. destruct (negb (sEncAlgo s =? _)); [done|]. destruct (negb (bool_decide (sInstanceID s = _))).
  - pose proof (typed_accept id s (qToken q) HT) as H1. destruct (acceptSessionResumeToken s (qToken q)) as [s1 ok]. cbn [fst] in H1. destruct ok; cbn [negb]; [|done].
    unfold rotateSessionEpochLocked. destruct (sEncrypt s1 && _); [done|]. cbn [negb]. set (s2 := set_conns _ _ _ _).
    assert (ses_typed id s2) as H2 by (by apply typed_conns, typed_epoch). clearbody s2. pose proof (typed_pending id s2 (eToken env) H2 Et) as H3.
    destruct (ensurePendingResumeToken (eToken env) s2) as [s3 ok]. by destruct ok.
  - destruct (_ && _) eqn:E; [|done]. cbn [fst]. apply andb_true_iff in E as [E _]. apply negb_true_iff, bool_decide_eq_false in E. apply typed_token; auto. by destruct (ty_pending _ _ HT).
Qed.

Lemma typed_create sha256 deriveID a env q bind sv sv' s : cfgTyped a -> envTyped env -> admissible sha256 deriveID q a ->
  createSession sha256 a env (fmtMAC (default macZero (parseMACKey (str_bytes (qMAC q))))) q bind sv = (sv', inl s) -> ses_typed (qClientID q) s.
Proof.
  intros (C1 & C2 & C3) (Ea & Eb & Et) [_ _ _ Hci Hid Hmac _ Hfec _ _]. unfold createSession. destruct (_ && _); [done|].
  destruct (assignIPsLocked _ _ sv) as [[[[ip4 ip6] u4] u6]|]; [|done]. destruct (if validSessionTokenFormat _ then _ else _) as [token|] eqn:ET; [|done]. intros [= <- <-].
  unfold isValidMACString in Hmac. destruct (parseMACKey (str_bytes (qMAC q))) as [m|] eqn:Em; [|done]. change (default macZero (Some m)) with m. destruct (parseMACKey_shape _ _ Em) as [Hl Hu].
  pose proof (mac_roundtrip m Hl Hu) as Hm. split; cbn [sMAC macBin sEncrypt sEncAlgo sSaltA sSaltB sFecEncK sResumeToken sPendingToken]; auto.
  - rewrite Hm. cbn. split; [done|]. unfold isValidMACString. by rewrite Hm.
  - destruct (snEncrypt a); [|done]. split; [symmetry; auto|done].
  - destruct (qFEC q); [right; specialize (Hfec eq_refl); lia|by left].
  - destruct (validSessionTokenFormat _) eqn:EV; [|by apply Et]. injection ET as <-. unfold validSessionTokenFormat in EV. apply andb_true_iff in EV as [EV _].
    apply Nat.eqb_eq in EV. by rewrite length_str_bytes in EV.
Qed.

(** The ciphers and group sizes that a configuration change may set. *)
Definition configOk (op : svOp) : Prop :=
  match op with
  | SLock env _ => envTyped env
  | SConfig psk enc ea me _ fmin fmax => cfgTyped (mkSnap psk enc ea me fmin fmax)
  | _ => True
  end.

Lemma typed_exec sha256 deriveID ops sv : each cfgTyped ses_typed sv -> Forall configOk ops -> each cfgTyped ses_typed (srv (svExec sha256 deriveID ops (world0 sv))).
Proof.
  intros HE HF. apply (each_exec sha256 deriveID cfgTyped envTyped ses_typed).
  - intros env q id s. apply typed_resume.
  - intros a t m id s. apply typed_conns.
  - intros inst id s HT. apply typed_epoch; [done|apply HT|apply HT].
  - intros a env q bind sv1 sv' s. apply typed_create.
  - apply fly_new.
  - intros c st Hc. cbn in Hc. by rewrite lookup_empty in Hc.
  - exact HE.
  - eapply Forall_impl; [exact HF|]. intros op. destruct op; cbn; auto.
Qed.


(** ** Witness *)

Definition typedSalt (x : Z) : bytes := replicate 8 x.
Definition typedEnv (t : option string) : hsEnv := mkEnv (typedSalt 1) (typedSalt 2) true t.
Definition typedOps : list svOp :=
  demoHandshake 0 (typedEnv (Some (demoTok "1"))) 0%nat (demoReq demoInst1 "") ++ [SConnEnd 0%nat] ++
  demoHandshake 0 (typedEnv (Some (demoTok "2"))) 1%nat (demoReq demoInst2 (demoTok "1")).

Lemma typedEnv_ok c : String.length (demoTok c) = 64%nat -> envTyped (typedEnv (Some (demoTok c))).
Proof. intros Hc. split; [split; [done|by repeat constructor]|]. split; [split; [done|by repeat constructor]|]. by intros t [= <-]. Qed.

