(* ===== verification/Client.v ===== *)
(** * The client's session logic (client.go, client_state.go)

    What a client sends in a handshake, what it demands of the answer, how an accepted
    answer moves its session (keys, FEC, numbering, receive epoch), the identity file that
    lets a restarted process continue its session, and the reconnect loop's timing.

    The identity file holds the JSON text of a clientState; the model keeps the record.
    sessionMu and stateMu serialise what the model does in one step: the part of
    dialAndServe between the response checks and the unlock, refreshSessionStateFromDisk,
    and the two halves of persistSessionState.  The effects on other components (worker,
    decoder, send port, reorder buffer) are the list an accepted answer returns. *)

From stdpp Require Import base tactics list numbers gmap strings.
From S2P Require Import Prelude Aead FecControl Ident Guards Session.
#[local] Open Scope Z_scope.

(** ** hex.DecodeString and EncodeToString *)

Fixpoint hexDecode (s : bytes) : option bytes :=
  match s with
  | [] => Some []
  | [_] => None
  | a :: b :: s =>
    match hexVal a, hexVal b, hexDecode s with Some x, Some y, Some r => Some (16 * x + y :: r) | _, _, _ => None end
  end.


(** ** Configuration and messages *)

(** The fields of the live configuration that the handshake uses. *)
Record liveConfig := mkLive {
  lPsk : string;
  lReqV4 : option Z;
  lReqV6 : option Z;
  lFecMode : bool;
  lFecGroup : Z;
  lEncrypt : bool;
  lEncAlgo : Z;
  lMinEnc : Z;
  lConns : Z
}.

Record HandshakeResp := mkResp {
  pVersion : Z;
  pEpoch : Z;
  pSuccess : bool;
  pSessionID : string;
  pFEC : bool;
  pFecGroup : Z;
  pEncrypt : bool;
  pEncAlgo : Z;
  pEncSalt : bytes;              (* hex text, c2s *)
  pEncSalt2 : bytes;             (* hex text, s2c *)
  pToken : string;
  pIPv4 : string;
  pIPv6 : string;
  pGwV4 : string;
  pGwV6 : string
}.

Record clientState := mkCState { stClientID : string; stMAC : string; stSessionID : string; stToken : string; stEpoch : Z }.
Definition cstate0 : clientState := mkCState "" "" "" "" 0.

(** The identity file: absent, unreadable or not JSON, or a state. *)
Inductive stateDisk := DAbsent | DBroken | DState (st : clientState).

(** [None] is an error; a missing file is no error. *)
Definition loadClientState (path : bool) (d : stateDisk) : option (option clientState) :=
  if negb path then Some None else
  match d with DAbsent => Some None | DBroken => None | DState st => Some (Some st) end.

(** The write goes to a temporary file that is renamed: on failure the old file stays. *)
Definition saveClientState (path : bool) (st : clientState) (ok : bool) (d : stateDisk) : stateDisk * bool :=
  if negb path then (d, true) else if ok then (DState st, true) else (d, false).

(** ** The client *)

(** The FEC decoder it holds: group size, cipher, static single path. *)
Record decoderRef := mkDecRef { drK : Z; drCipher : option innerCipher; drSingle : bool }.

Record Client := mkClient {
  cID : string;
  cMAC : string;
  cPath : bool;                  (* stateFile != "" *)
  cSession : string;             (* serverSessionID *)
  cToken : string;
  cEpoch : Z;
  cState : option clientState;
  cFecNegotiated : Z;
  cFecAlgo : Z;
  cFecSaltKey : bytes;
  cFecDec : option decoderRef;
  cEncAlgo : Z;
  cWorker : bool;                (* rxWorker != nil *)
  cInstance : string
}.

Definition set_session (sid token : string) (epoch : Z) (c : Client) : Client :=
  mkClient (cID c) (cMAC c) (cPath c) sid token epoch (cState c) (cFecNegotiated c) (cFecAlgo c) (cFecSaltKey c) (cFecDec c) (cEncAlgo c) (cWorker c) (cInstance c).
Definition set_cstate (st : option clientState) (c : Client) : Client :=
  mkClient (cID c) (cMAC c) (cPath c) (cSession c) (cToken c) (cEpoch c) st (cFecNegotiated c) (cFecAlgo c) (cFecSaltKey c) (cFecDec c) (cEncAlgo c) (cWorker c) (cInstance c).
Definition set_fec (k algo : Z) (key : bytes) (dec : option decoderRef) (c : Client) : Client :=
  mkClient (cID c) (cMAC c) (cPath c) (cSession c) (cToken c) (cEpoch c) (cState c) k algo key dec (cEncAlgo c) (cWorker c) (cInstance c).
Definition set_enc (algo : Z) (c : Client) : Client :=
  mkClient (cID c) (cMAC c) (cPath c) (cSession c) (cToken c) (cEpoch c) (cState c) (cFecNegotiated c) (cFecAlgo c) (cFecSaltKey c) (cFecDec c) algo (cWorker c) (cInstance c).
Definition set_instance (inst : string) (c : Client) : Client :=
  mkClient (cID c) (cMAC c) (cPath c) (cSession c) (cToken c) (cEpoch c) (cState c) (cFecNegotiated c) (cFecAlgo c) (cFecSaltKey c) (cFecDec c) (cEncAlgo c) (cWorker c) inst.

(** NewClient, as far as the session goes: the identity is fixed, the session of the
    file is taken over if it belongs to it.  A file that cannot be read counts as none. *)
Definition NewClient (path : bool) (id mac inst : string) (conns : Z) (d : stateDisk) : Client :=
  let st := default cstate0 (default None (loadClientState path d)) in
  let c := mkClient id mac path "" "" 0 (Some st) 0 encAlgoNone [] None encAlgoNone (negb (conns =? 1)) inst in
  if bool_decide (stClientID st = id) && negb (bool_decide (stSessionID st = ""%string))
  then set_session (stSessionID st) (stToken st) (stEpoch st) c else c.

(** The handler of an exhausted sequence space (the reconnect itself is the loop's). *)
Definition onExhausted (inst : string) (c : Client) : Client := set_instance inst c.

(** *** The request *)

Section Request.
Variable sha256 : bytes -> bytes.

Definition buildRequest (lv : liveConfig) (c : Client) : HandshakeReq :=
  mkReq protocolVersion (cInstance c) (cID c) (hashPSK sha256 (lPsk lv)) (cMAC c) (lReqV4 lv) (lReqV6 lv)
        (lFecMode lv) (if lFecMode lv then clampFecGroup (lFecGroup lv) else 0)
        (lEncrypt lv) (if lEncrypt lv then lEncAlgo lv else encAlgoNone) (cToken c).
End Request.

(** *** The answer *)

Inductive respErr := Rejected | WrongVersion | EncryptionMismatch | CipherMismatch | InvalidSalts | CipherInit | BelowMin.

(** What an accepted answer makes other components do, in order. *)
Inductive clientEff :=
| EAdvanceReset (dec : option decoderRef)        (* rxWorker.AdvanceEpochAndReset(fecDec) *)
| EDecReset
| EAttachFEC (k : Z) (ic : option innerCipher)   (* numbering restarts under a new encoder *)
| EResetTx                                       (* txPort.ResetEpoch(0, nil) *)
| EResetReorder.

(** The ciphers of the connection and whether its reader takes controls. *)
Record connKeys := mkKeys { kTx : option innerCipher; kRx : option innerCipher; kFecTx : option innerCipher; kFecRx : option innerCipher; kAlgo : Z; kUseFec : bool }.

Section Answer.
Variable sha256 : bytes -> bytes.
Variables newGCM newChaCha newXChaCha : bytes -> option AEAD.

Definition cipher (psk : string) (slt : bytes) (dom : domain) (al : Z) : option innerCipher :=
  match newInnerCipherDomainForAlgo sha256 newGCM newChaCha newXChaCha psk slt dom al with inl c => Some c | inr _ => None end.

(** The inner encryption of the connection. *)
Definition negotiateCiphers (lv : liveConfig) (p : HandshakeResp) : connKeys + respErr :=
  if negb (lEncrypt lv) then inl (mkKeys None None None None encAlgoNone false) else
  if negb (pEncAlgo p =? lEncAlgo lv) then inr CipherMismatch else
  match hexDecode (pEncSalt p), hexDecode (pEncSalt2 p) with
  | Some a, Some b =>
    if negb (length a =? encSaltSize)%nat || negb (length b =? encSaltSize)%nat then inr InvalidSalts else
    match cipher (lPsk lv) a DomData (pEncAlgo p), cipher (lPsk lv) b DomData (pEncAlgo p) with
    | Some tx, Some rx =>
      inl (mkKeys (Some tx) (Some rx) (cipher (lPsk lv) a DomFEC (pEncAlgo p)) (cipher (lPsk lv) b DomFEC (pEncAlgo p)) (pEncAlgo p) false)
    | _, _ => inr CipherInit
    end
  | _, _ => inr InvalidSalts
  end.

(** The section under sessionMu, and the resets right after it. *)
Definition adoptSession (lv : liveConfig) (p : HandshakeResp) (ks : connKeys) (c : Client) : Client * list clientEff * connKeys :=
  let neg := if lFecMode lv && (cFecNegotiated c =? 0) && (fecMinGroup <=? pFecGroup p) then pFecGroup p else cFecNegotiated c in
  let isNew := negb (bool_decide (cSession c = pSessionID p)) || negb (cEpoch c =? pEpoch p) in
  let e1 := if isNew && cWorker c then [EAdvanceReset (cFecDec c)] else [] in
  let useFec := lFecMode lv && (0 <? neg) in
  let rebuild := useFec && (bool_decide (cFecDec c = None) || negb (cFecAlgo c =? kAlgo ks) || negb (bool_decide (cFecSaltKey c = pEncSalt p))) in
  let e2 := if rebuild then (if negb (bool_decide (cFecDec c = None)) && negb (cWorker c) then [EDecReset] else []) ++ [EAttachFEC neg (kFecTx ks)] else [] in
  let dec := if rebuild then Some (mkDecRef neg (kFecRx ks) (lConns lv =? 1)) else cFecDec c in
  let c := set_fec neg (if rebuild then kAlgo ks else cFecAlgo c) (if rebuild then pEncSalt p else cFecSaltKey c) dec c in
  let c := set_session (pSessionID p) (pToken p) (pEpoch p) (set_enc (kAlgo ks) c) in
  let e3 := if isNew then (if useFec then [] else [EResetTx]) ++ (if cWorker c then [] else [EResetReorder]) else [] in
  (c, e1 ++ e2 ++ e3, mkKeys (kTx ks) (kRx ks) (kFecTx ks) (kFecRx ks) (kAlgo ks) useFec).

(** [None]: the answer is not JSON. *)
Definition acceptResponse (lv : liveConfig) (resp : option HandshakeResp) (c : Client) : (Client * list clientEff * connKeys) + respErr :=
  match resp with
  | None => inr Rejected
  | Some p =>
    if negb (pSuccess p) then inr Rejected else
    if negb (pVersion p =? protocolVersion) then inr WrongVersion else
    if negb (Bool.eqb (pEncrypt p) (lEncrypt lv)) then inr EncryptionMismatch else
    match negotiateCiphers lv p with
    | inr e => inr e
    | inl ks =>
      if (0 <? lMinEnc lv) && negb (isInnerAEADAlgo (kAlgo ks)) then inr BelowMin else
      inl (adoptSession lv p ks c)
    end
  end.
End Answer.

(** *** The identity file *)

Definition refreshSessionStateFromDisk (d : stateDisk) (c : Client) : Client :=
  if negb (cPath c) then c else
  match loadClientState (cPath c) d with
  | Some (Some st) =>
    if negb (bool_decide (stClientID st = cID c)) || bool_decide (stSessionID st = ""%string) || bool_decide (stToken st = ""%string) then c else
    if negb (bool_decide (stSessionID st = cSession c)) then c else
    if stEpoch st <? cEpoch c then c else
    if (stEpoch st =? cEpoch c) && bool_decide (stToken st = cToken c) then c else
    set_cstate (Some st) (set_session (stSessionID st) (stToken st) (stEpoch st) c)
  | _ => c
  end.

(** The first half of persistSessionState, under sessionMu: whether the answer is still
    the current session. *)
Definition persistCurrent (sid token : string) (epoch : Z) (c : Client) : bool :=
  cPath c && negb (negb (bool_decide (cSession c = ""%string)) &&
    (negb (bool_decide (sid = cSession c)) || negb (epoch =? cEpoch c) || negb (bool_decide (token = cToken c)))).

(** The second half, under stateMu.  The record that c.state points to is updated in place
    before the write, so it changes even when the write fails. *)
Definition persistWrite (sid token : string) (epoch : Z) (ok : bool) (c : Client) (d : stateDisk) : Client * stateDisk :=
  let newer := match loadClientState (cPath c) d with
               | Some (Some st) =>
                 if bool_decide (stClientID st = cID c) && bool_decide (stSessionID st = sid) &&
                    ((epoch <? stEpoch st) || (stEpoch st =? epoch) && negb (bool_decide (stToken st = ""%string)) && negb (bool_decide (stToken st = token)))
                 then Some st else None
               | _ => None
               end in
  match newer with
  | Some st => (set_cstate (Some st) c, d)
  | None =>
    let st := default cstate0 (cState c) in
    if bool_decide (stClientID st = cID c) && bool_decide (stSessionID st = sid) && (epoch <? stEpoch st) then (c, d) else
    let st' := mkCState (cID c) (stMAC st) sid token epoch in
    let c' := match cState c with Some _ => set_cstate (Some st') c | None => c end in
    let '(d, saved) := saveClientState (cPath c) st' ok d in
    (if saved then set_cstate (Some st') c else c', d)
  end.

(** persistSessionState when nothing comes between its halves. *)
Definition persistSessionState (sid token : string) (epoch : Z) (ok : bool) (c : Client) (d : stateDisk) : Client * stateDisk :=
  if persistCurrent sid token epoch c then persistWrite sid token epoch ok c d else (c, d).

(** ** The reconnect loop *)

Definition reconnectBackoffBase : Z := 1000000000.
Definition reconnectBackoffMax : Z := 3 * 1000000000.
Definition reconnectBackoffReset : Z := 30 * 1000000000.
Definition reconnectFastFailMax : Z := 1000000000.

(** [draw n] is rand.Int64N(n). *)
Definition reconnectBackoffDelay (draw : Z -> Z) (attempt : Z) : Z :=
  let d := s64 (Z.shiftl reconnectBackoffBase (Z.min attempt 5)) in
  let d := if (reconnectBackoffMax <? d) || (d <=? 0) then reconnectBackoffMax else d in
  let third := d / 3 in
  let delay := 2 * third + draw (2 * third) in
  if reconnectBackoffMax <? delay then reconnectBackoffMax else delay.

(** One round after a connection has ended: how long it was up, whether it failed, how
    long the call took; what woke the wait (the force generation it sees). *)
Record loopState := mkLoop { attempts : Z; seenGen : Z }.
Inductive wake := WakeTimer | WakeChan (gen : Z) | WakePoll (gen : Z).

Definition loopRound (draw : Z -> Z) (linked : Z) (failed : bool) (took : Z) (w : wake) (l : loopState) : loopState * Z :=
  let a := if reconnectBackoffReset <=? linked then 0 else if failed && (took <? reconnectFastFailMax) then 0 else attempts l in
  let delay := reconnectBackoffDelay draw a in
  let l := mkLoop (a + 1) (seenGen l) in
  (match w with
   | WakeTimer => l
   | WakeChan g | WakePoll g => if g =? seenGen l then l else mkLoop 0 g
   end, delay).

(** ** Hex *)

Lemma hexDecode_encode b : Forall is_u8 b -> hexDecode (hexEncode b) = Some b.
Proof.
  induction 1 as [|x b Hx HF IH]; [done|]. unfold hexEncode in *. cbn [fmap list_fmap concat fmtByte app hexDecode].
  pose proof (parsePart_fmtByte x Hx) as HP. unfold parsePart, fmtByte in HP. destruct (hexVal (hexDigit (x / 16))) as [u|]; [|done].
  destruct (hexVal (hexDigit (x mod 16))) as [v|]; [|done]. rewrite IH. by injection HP as ->.
Qed.

(** ** Accepting an answer *)

Section Accept.
Variable sha256 : bytes -> bytes.
Variables newGCM newChaCha newXChaCha : bytes -> option AEAD.
Notation accept_ := (acceptResponse sha256 newGCM newChaCha newXChaCha).
Notation cipher_ := (cipher sha256 newGCM newChaCha newXChaCha).

Lemma cipher_inv psk slt dom al c : cipher_ psk slt dom al = Some c -> algo c = al /\ salt c = slt /\ Overhead (aead c) = aeadTagSize.
Proof using.
  unfold cipher. destruct (newInnerCipherDomainForAlgo _ _ _ _ _ _ _ _) as [c'|] eqn:E; [|done]. intros [= ->]. unfold newInnerCipherDomainForAlgo in E.
  destruct dom; [| |done]; (destruct (negb _); [done|]); (destruct (algoLabel al) as [[l n]|]; [|done]); (destruct (newPrimitive _ _ _ _ _) as [a|]; [|done]);
    (destruct (negb (Overhead a =? aeadTagSize)%nat) eqn:EO; [done|]); injection E as <-; cbn; (split; [done|]); (split; [done|]); by apply negb_false_iff, Nat.eqb_eq in EO.
Qed.

(** What an accepted answer was. *)
Record accepted (lv : liveConfig) (p : HandshakeResp) (ks : connKeys) : Prop := {
  ac_success : pSuccess p = true;
  ac_version : pVersion p = protocolVersion;
  ac_encrypt : pEncrypt p = lEncrypt lv;
  ac_plain : lEncrypt lv = false -> kTx ks = None /\ kRx ks = None /\ kAlgo ks = encAlgoNone;
  ac_sealed : lEncrypt lv = true -> exists a b tx rx, hexDecode (pEncSalt p) = Some a /\ hexDecode (pEncSalt2 p) = Some b /\ length a = encSaltSize /\ length b = encSaltSize /\
    kTx ks = Some tx /\ kRx ks = Some rx /\ cipher_ (lPsk lv) a DomData (lEncAlgo lv) = Some tx /\ cipher_ (lPsk lv) b DomData (lEncAlgo lv) = Some rx /\ kAlgo ks = lEncAlgo lv;
  ac_min : 0 < lMinEnc lv -> isInnerAEADAlgo (kAlgo ks) = true
}.

Lemma negotiate_inv lv p ks : negotiateCiphers sha256 newGCM newChaCha newXChaCha lv p = inl ks ->
  (lEncrypt lv = false -> kTx ks = None /\ kRx ks = None /\ kAlgo ks = encAlgoNone) /\
  (lEncrypt lv = true -> exists a b tx rx, hexDecode (pEncSalt p) = Some a /\ hexDecode (pEncSalt2 p) = Some b /\ length a = encSaltSize /\ length b = encSaltSize /\
    kTx ks = Some tx /\ kRx ks = Some rx /\ cipher_ (lPsk lv) a DomData (lEncAlgo lv) = Some tx /\ cipher_ (lPsk lv) b DomData (lEncAlgo lv) = Some rx /\ kAlgo ks = lEncAlgo lv).
Proof using.
  unfold negotiateCiphers. destruct (lEncrypt lv); cbn [negb]; [|by intros [= <-]]. destruct (Z.eqb_spec (pEncAlgo p) (lEncAlgo lv)) as [->|]; cbn [negb]; [|done].
  destruct (hexDecode (pEncSalt p)) as [a|]; [|done]. destruct (hexDecode (pEncSalt2 p)) as [b|]; [|done]. destruct (negb _ || negb _) eqn:El; [done|].
  apply orb_false_elim in El as [E1 E2]. apply negb_false_iff, Nat.eqb_eq in E1, E2. destruct (cipher_ (lPsk lv) a DomData _) as [tx|] eqn:Ht; [|done].
  destruct (cipher_ (lPsk lv) b DomData _) as [rx|] eqn:Hr; [|done]. intros [= <-]. split; [done|]. intros _. exists a, b, tx, rx. by split_and!.
Qed.

Lemma accept_inv lv resp c c' effs ks : accept_ lv resp c = inl (c', effs, ks) ->
  exists p ks0, resp = Some p /\ negotiateCiphers sha256 newGCM newChaCha newXChaCha lv p = inl ks0 /\ adoptSession lv p ks0 c = (c', effs, ks) /\ accepted lv p ks.
Proof using.
  unfold acceptResponse. destruct resp as [p|]; [|done]. destruct (pSuccess p) eqn:E1; cbn [negb]; [|done]. destruct (Z.eqb_spec (pVersion p) protocolVersion) as [E2|]; cbn [negb]; [|done].
  destruct (negb (Bool.eqb _ _)) eqn:E3; [done|]. apply negb_false_iff, eqb_prop in E3. destruct (negotiateCiphers _ _ _ _ lv p) as [ks0|] eqn:EN; [|done].
  destruct (_ && _) eqn:E4; [done|]. intros EA. assert (adoptSession lv p ks0 c = (c', effs, ks)) as HA by congruence. exists p, ks0. split; [done|]. split; [done|]. split; [done|]. destruct (negotiate_inv _ _ _ EN) as [N1 N2].
  unfold adoptSession in HA. injection HA as _ _ <-. split; auto. cbn [kAlgo]. intros Hm. apply andb_false_iff in E4 as [E4|E4]; [lia|]. by apply negb_false_iff in E4.
Qed.

(** The session a client is in after an answer. *)
Lemma adopt_session lv p ks c c' effs ks' : adoptSession lv p ks c = (c', effs, ks') ->
  cSession c' = pSessionID p /\ cToken c' = pToken p /\ cEpoch c' = pEpoch p /\ cID c' = cID c /\ cPath c' = cPath c /\ cState c' = cState c /\ cInstance c' = cInstance c /\
  cMAC c' = cMAC c /\ kFecTx ks' = kFecTx ks /\ kFecRx ks' = kFecRx ks.
Proof using. unfold adoptSession. intros [= <- _ <-]. by split_and!. Qed.
End Accept.

(** C19: A client never runs weaker than it is configured.  If it accepts an answer, the
    answer is a success of its protocol version and of its encryption setting; with
    encryption, both ciphers are of exactly the configured algorithm, keyed by its PSK
    and by the 8-byte salts of the two directions; with a minimum strength, there is
    an authenticated cipher; and it takes over session, epoch and token of the answer. *)
Theorem client_no_downgrade (sha : bytes -> bytes) (ng nc nx : bytes -> option AEAD) (lv : liveConfig) (resp : option HandshakeResp)
    (c c' : Client) (effs : list clientEff) (ks : connKeys) :
  acceptResponse sha ng nc nx lv resp c = inl (c', effs, ks) ->
  exists p, resp = Some p /\ accepted sha ng nc nx lv p ks /\ cSession c' = pSessionID p /\ cToken c' = pToken p /\ cEpoch c' = pEpoch p /\
    (lEncrypt lv = true -> exists tx rx, kTx ks = Some tx /\ kRx ks = Some rx /\ algo tx = lEncAlgo lv /\ algo rx = lEncAlgo lv).
Proof.
  intros HA. destruct (accept_inv _ _ _ _ _ _ _ _ _ _ HA) as (p & ks0 & -> & _ & Hs & Hp). destruct (adopt_session _ _ _ _ _ _ _ Hs) as (S1 & S2 & S3 & _).
  exists p. split_and!; auto. intros He. destruct (ac_sealed _ _ _ _ _ _ _ Hp He) as (a & b & tx & rx & _ & _ & _ & _ & Ht & Hr & Ct & Cr & _).
  exists tx, rx. apply cipher_inv in Ct as (? & _). apply cipher_inv in Cr as (? & _). by split_and!.
Qed.

(** ** The identity file *)

(** The identity file does not roll back.  A write for this client replaces a state of
    the same session only by one of the same or a later epoch, and within an epoch it
    keeps the token that is there; a failed write leaves the file as it was. *)
Theorem state_file_no_rollback (sid token : string) (epoch : Z) (ok : bool) (c : Client) (st : clientState) :
  stClientID st = cID c ->
  let '(c', d') := persistWrite sid token epoch ok c (DState st) in
  exists st', d' = DState st' /\ (ok = false -> st' = st) /\
    (stSessionID st' = stSessionID st -> stEpoch st <= stEpoch st' /\ (stEpoch st' = stEpoch st -> stToken st <> ""%string -> stToken st' = stToken st)).
Proof.
  intros Hid. unfold persistWrite, loadClientState, saveClientState. destruct (cPath c); cbn [negb].
  2:{ match goal with |- context [if ?b then (c, DState st) else _] => destruct b end; [by exists st|]. by exists st. }
  rewrite (bool_decide_true (stClientID st = cID c)) by done. destruct (bool_decide_reflect (stSessionID st = sid)) as [Hs|Hs]; cbn [andb].
  - destruct ((epoch <? stEpoch st) || _) eqn:E; [by exists st|]. apply orb_false_elim in E as [E1 E2]. match goal with |- context [if ?b then (c, DState st) else _] => destruct b end; [by exists st|]. destruct ok; [|by exists st].
    eexists. split; [done|]. split; [done|]. cbn. intros _. split; [lia|]. intros -> Ht. rewrite Z.eqb_refl, (bool_decide_false (stToken st = ""%string)) in E2 by done. cbn [negb andb] in E2.
    apply negb_false_iff, bool_decide_eq_true in E2. done.
  - match goal with |- context [if ?b then (c, DState st) else _] => destruct b end; [by exists st|]. destruct ok; [|by exists st]. eexists. split; [done|]. split; [done|]. cbn. intros E. congruence.
Qed.

(** Taking over the file never goes back within the session. *)
Lemma refresh_forward d c : let c' := refreshSessionStateFromDisk d c in
  c' = c \/ cSession c' = cSession c /\ cEpoch c <= cEpoch c' /\ exists st, d = DState st /\ stClientID st = cID c /\ cToken c' = stToken st /\ cEpoch c' = stEpoch st /\
    c' = set_cstate (Some st) (set_session (cSession c) (stToken st) (stEpoch st) c) /\ stSessionID st = cSession c.
Proof.
  unfold refreshSessionStateFromDisk. destruct (cPath c) eqn:EP; cbn [negb]; [|by left]. unfold loadClientState. cbn [negb]. destruct d as [| |st]; [by left|by left|].
  destruct (_ || _ || _) eqn:E1; [by left|]. destruct (bool_decide_reflect (stSessionID st = cSession c)) as [Hs|]; cbn [negb]; [|by left].
  destruct (stEpoch st <? cEpoch c) eqn:E2; [by left|]. destruct (_ && _); [by left|]. apply orb_false_elim in E1 as [E1 _]. apply orb_false_elim in E1 as [E1 _].
  apply negb_false_iff, bool_decide_eq_true in E1. right. cbn. split; [done|]. split; [lia|]. exists st. rewrite Hs. by split_and!.
Qed.

(** ** The delay before a reconnect *)

(** The delay is bounded and grows.  The wait before reconnect attempt n is between
    two thirds and four thirds of a base that doubles from one second and stops at
    three, and never above three seconds. *)
Theorem reconnect_delay_bounds (draw : Z -> Z) (attempt : Z) :
  0 <= attempt -> (forall n, 0 < n -> 0 <= draw n < n) ->
  let base := if attempt =? 0 then 1000000000 else if attempt =? 1 then 2000000000 else 3000000000 in
  2 * (base / 3) <= reconnectBackoffDelay draw attempt <= Z.min (4 * (base / 3)) 3000000000.
Proof.
  intros Ha Hd base. unfold reconnectBackoffDelay, reconnectBackoffMax, reconnectBackoffBase.
  assert ((if (3 * 1000000000 <? s64 (Z.shiftl 1000000000 (Z.min attempt 5))) || (s64 (Z.shiftl 1000000000 (Z.min attempt 5)) <=? 0)
           then 3 * 1000000000 else s64 (Z.shiftl 1000000000 (Z.min attempt 5))) = base) as ->.
  { unfold base. assert (attempt = 0 \/ attempt = 1 \/ attempt = 2 \/ attempt = 3 \/ attempt = 4 \/ 5 <= attempt) as [-> |[-> |[-> |[-> |[-> |H]]]]] by lia; try reflexivity.
    rewrite Z.min_r by lia. destruct (Z.eqb_spec attempt 0); [lia|]. destruct (Z.eqb_spec attempt 1); [lia|]. reflexivity. }
  assert (base = 1000000000 \/ base = 2000000000 \/ base = 3000000000) as Hb by (unfold base; destruct (attempt =? 0); [auto|]; destruct (attempt =? 1); auto).
  clearbody base. specialize (Hd (2 * (base / 3))). destruct Hb as [-> |[-> | ->]];
    [change (1000000000 / 3) with 333333333 in *|change (2000000000 / 3) with 666666666 in *|change (3000000000 / 3) with 1000000000 in *];
    specialize (Hd ltac:(lia)); match goal with |- context [if ?b then _ else _] => destruct b eqn:E end; lia.
Qed.

(** ** A concrete client *)

Definition demoMake (_ : bytes) : option AEAD := Some demoAEAD.
Definition demoAccept : liveConfig -> option HandshakeResp -> Client -> (Client * list clientEff * connKeys) + respErr :=
  acceptResponse demoHash demoMake demoMake demoMake.
Definition demoLive (fec : bool) (k : Z) : liveConfig := mkLive "pw" None None fec k true encAlgoGCM 1 2.
Definition demoSalt (x : Z) : bytes := hexEncode (replicate 8 x).
Definition demoAnswer (sid : string) (epoch x k : Z) (token : string) : HandshakeResp :=
  mkResp protocolVersion epoch true sid (0 <? k) k true encAlgoGCM (demoSalt x) (demoSalt (x + 1)) token "10.0.0.2/24" "fd00::2/64" "10.0.0.1" "fd00::1".
Definition demoClient : Client := NewClient true "id" "02:00:00:00:00:01" "inst" 2 DAbsent.

(** The effects and the client after a list of answers, each under a configuration. *)
Fixpoint demoRun (l : list (liveConfig * HandshakeResp)) (c : Client) : Client * list (list clientEff) :=
  match l with
  | [] => (c, [])
  | (lv, p) :: l => match demoAccept lv (Some p) c with
                    | inl (c, e, _) => let '(c, es) := demoRun l c in (c, e :: es)
                    | inr _ => (c, [])
                    end
  end.

Definition restarts (e : clientEff) : bool := match e with EAttachFEC _ _ | EResetTx => true | _ => false end.

(** The group size of the first session outlives it: after the server is restarted with
    sessions of group size 16, the client still decodes and encodes groups of 8. *)
Lemma fec_group_is_sticky :
  let '(c, _) := demoRun [(demoLive true 8, demoAnswer "s1" 1 1 8 "t"); (demoLive true 16, demoAnswer "s2" 1 3 16 "t")] demoClient in
  cSession c = "s2"%string /\ (drK <$> cFecDec c) = Some 8.
Proof. vm_compute. done. Qed.

(** Numbering restarts without a new key when FEC is switched on in a running session. *)
Lemma fec_switch_restarts_numbering :
  let a := demoAnswer "s1" 1 1 8 "t" in
  let '(c, es) := demoRun [(demoLive false 8, a); (demoLive true 8, a)] demoClient in
  existsb restarts <$> es = [true; true] /\ cSession c = "s1"%string /\ cEpoch c = 1.
Proof. vm_compute. done. Qed.

(** An answer of an older epoch that arrives late takes the client back, and the next
    answer of the newer epoch restarts the numbering under keys that were in use. *)
Lemma late_answer_restarts_numbering :
  let '(_, es) := demoRun [(demoLive true 8, demoAnswer "s1" 3 5 8 "t"); (demoLive true 8, demoAnswer "s1" 2 3 8 "t"); (demoLive true 8, demoAnswer "s1" 3 5 8 "t")] demoClient in
  existsb restarts <$> es = [true; true; true].
Proof. vm_compute. done. Qed.

(** The two halves of persistSessionState hold different locks: a write whose check
    passed before another session was adopted and written replaces it in the file. *)
Lemma late_write_overwrites_newer_session :
  let '(c1, _) := demoRun [(demoLive true 8, demoAnswer "s1" 4 1 8 "t1")] demoClient in
  let ok1 := persistCurrent "s1" "t1" 4 c1 in
  let '(c2, _) := demoRun [(demoLive true 8, demoAnswer "s2" 1 3 8 "t2")] c1 in
  let '(c3, d3) := persistSessionState "s2" "t2" 1 true c2 DAbsent in
  let '(_, d4) := persistWrite "s1" "t1" 4 true c3 d3 in
  ok1 = true /\ d3 = DState (mkCState "id" "" "s2" "t2" 1) /\ d4 = DState (mkCState "id" "" "s1" "t1" 4).
Proof. vm_compute. done. Qed.

Lemma client_no_downgrade_witness :
  exists p, Some (demoAnswer "s1" 1 1 8 "t") = Some p /\ cSession (demoRun [(demoLive true 8, demoAnswer "s1" 1 1 8 "t")] demoClient).1 = pSessionID p.
Proof.
  destruct (demoAccept (demoLive true 8) (Some (demoAnswer "s1" 1 1 8 "t")) demoClient) as [[[c' effs] ks]|] eqn:E; [|vm_compute in E; discriminate E].
  destruct (client_no_downgrade demoHash demoMake demoMake demoMake (demoLive true 8) (Some (demoAnswer "s1" 1 1 8 "t")) demoClient c' effs ks E) as (p & H1 & _ & H2 & _).
  exists p. split; [exact H1|]. cbn [demoRun]. rewrite E. exact H2.
Defined.

Lemma state_file_no_rollback_witness :
  let st := mkCState "id" "" "s1" "t1" 4 in
  let '(_, d') := persistWrite "s1" "t0" 3 true demoClient (DState st) in exists st', d' = DState st' /\ stEpoch st <= stEpoch st'.
Proof.
  cbv zeta. pose proof (state_file_no_rollback "s1" "t0" 3 true demoClient (mkCState "id" "" "s1" "t1" 4) eq_refl) as H.
  destruct (persistWrite "s1" "t0" 3 true demoClient (DState (mkCState "id" "" "s1" "t1" 4))) as [c' d'] eqn:E. destruct H as (st' & H1 & _ & H2). exists st'. split; [exact H1|]. apply H2.
  vm_compute in E. injection E as _ E. rewrite <- E in H1. injection H1 as <-. reflexivity.
Defined.

Lemma reconnect_delay_bounds_witness : 2000000000 <= reconnectBackoffDelay (fun n => n / 2) 7 <= 3000000000.
Proof. apply (reconnect_delay_bounds (fun n => n / 2) 7); [lia|]. intros n Hn. split; [apply Z.div_pos|apply Z.div_lt]; lia. Defined.
