(* ===== verification/Agreement.v ===== *)
(** * Client and server together (client.go, server.go)

    The handshake of Client.v against the one of Session.v: both sides end up with the
    same keys, and a client that crashes at any point of any attempt finds its session
    again. *)

From stdpp Require Import base tactics list numbers gmap strings.
From S2P Require Import Prelude Aead FecControl VSwitch Guards Ident Session SesTypes Client.
#[local] Open Scope Z_scope.

(** ** The answer on the wire and the keys of the server *)

Definition handshakeEncSalts (al : Z) (a b : bytes) : bytes * bytes :=
  if negb (isInnerAEADAlgo al) then ([], []) else (hexEncode a, hexEncode b).

Section Server.
(** The UUID of a session, the text forms of its addresses and of the gateways. *)
Variables (sidOf : nat -> string) (addrText : Z -> string) (gw4 gw6 : string).

Definition sendResp (q : HandshakeReq) (rep : hsReply) : HandshakeResp :=
  let '(s1, s2) := handshakeEncSalts (rEncAlgo rep) (rSaltA rep) (rSaltB rep) in
  mkResp protocolVersion (rEpoch rep) true (sidOf (rUid rep)) (qFEC q) (rFecK rep) (rEncrypt rep) (rEncAlgo rep) s1 s2 (rToken rep)
         (addrText (rIPv4 rep)) (addrText (rIPv6 rep)) gw4 gw6.
End Server.

Section Keys.
Variable sha256 : bytes -> bytes.
Variables newGCM newChaCha newXChaCha : bytes -> option AEAD.

(** The ciphers of a session on the server: it sends under salt B and receives under A. *)
Definition serverKeys (psk : string) (rep : hsReply) : connKeys :=
  let mk := cipher sha256 newGCM newChaCha newXChaCha psk in
  if rEncrypt rep then
    mkKeys (mk (rSaltB rep) DomData (rEncAlgo rep)) (mk (rSaltA rep) DomData (rEncAlgo rep))
           (mk (rSaltB rep) DomFEC (rEncAlgo rep)) (mk (rSaltA rep) DomFEC (rEncAlgo rep)) (rEncAlgo rep) (0 <? rFecK rep)
  else mkKeys None None None None encAlgoNone (0 <? rFecK rep).
End Keys.

(** ** The digest of the PSK *)

Lemma bytes_str_inj a : forall b, Forall is_u8 a -> Forall is_u8 b -> bytes_str a = bytes_str b -> a = b.
Proof.
  induction a as [|x a IH]; intros [|y b] Ha Hb E; try done. apply Forall_cons_1 in Ha as [Hx Ha]. apply Forall_cons_1 in Hb as [Hy Hb]. cbn [bytes_str] in E.
  injection E as E1 E2. rewrite (IH b Ha Hb E2). apply (f_equal Ascii.N_of_ascii) in E1. widths. rewrite !Ascii.N_ascii_embedding in E1 by lia. f_equal. lia.
Qed.

Lemma hexEncode_u8 b : Forall is_u8 b -> Forall is_u8 (hexEncode b).
Proof.
  intros HF. unfold hexEncode. apply Forall_concat, Forall_fmap. eapply Forall_impl; [exact HF|]. intros x Hx. cbn. unfold fmtByte, hexDigit. widths.
  pose proof (Z.mod_pos_bound x 16 ltac:(lia)). pose proof (Z.div_pos x 16 ltac:(lia) ltac:(lia)). pose proof (Z.div_lt_upper_bound x 16 16 ltac:(lia) ltac:(lia)).
  repeat (apply Forall_cons; split); [| |by apply Forall_nil]; destruct (_ <? 10); lia.
Qed.

(** Two PSKs with one digest text have one digest. *)
Lemma hashPSK_inj sha p1 p2 : (forall b, Forall is_u8 (sha b)) -> hashPSK sha p1 = hashPSK sha p2 -> sha (str_bytes p1) = sha (str_bytes p2).
Proof.
  intros Hu HE. unfold hashPSK, pskKey in HE. apply bytes_str_inj in HE; [|by apply hexEncode_u8..].
  pose proof (hexDecode_encode (sha (str_bytes p1)) (Hu _)) as H1. pose proof (hexDecode_encode (sha (str_bytes p2)) (Hu _)) as H2. rewrite HE in H1. congruence.
Qed.

(** ** What an accepted handshake answers *)

Lemma resume_keeps env q s s' : resumeSession env q s = (s', None) ->
  sEncAlgo s' = sEncAlgo s /\ sFecEncK s' = sFecEncK s /\ sEncAlgo s = qEncAlgo q /\ sPskHash s' = sPskHash s /\ sEncrypt s' = sEncrypt s.
Proof.
  intros H. destruct (resume_accepted _ _ _ _ H) as [Ha _]. revert H. unfold resumeSession, acceptSessionResumeToken, rotateSessionEpochLocked, ensurePendingResumeToken.
  rewrite Ha, Z.eqb_refl. cbn [negb]. repeat case_match; intros [= <-]; simplify_eq; cbn; auto 8.
Qed.

Lemma locked_reply sha a env conn q sv sv' rep : lockedHandshake sha a env conn q sv = (sv', inl rep) ->
  exists s, rep = replyOf s /\ activeClients sv' !! qClientID q = Some (registerConn conn s) /\
    (sEncAlgo s = qEncAlgo q \/ sEncAlgo s = (if snEncrypt a then snEncAlgo a else encAlgoNone)) /\
    (activeClients sv !! qClientID q = None -> sFecEncK s = if qFEC q then qFecGroup q else 0).
Proof.
  unfold lockedHandshake. set (mac := fmtMAC _). set (bind := macToIP sv !! mac). clearbody bind.
  assert (forall sv0 sv1 rep0,
    (let '(sv1, r) := createSession sha a env mac q bind sv0 in match r with inr e => (sv1, inr e) | inl s => accept conn (qClientID q) s sv1 end) = (sv1, inl rep0) ->
    exists s, rep0 = replyOf s /\ activeClients sv1 !! qClientID q = Some (registerConn conn s) /\ sEncAlgo s = (if snEncrypt a then snEncAlgo a else encAlgoNone) /\
      sFecEncK s = if qFEC q then qFecGroup q else 0) as HC.
  { intros sv0 sv1 rep0. unfold createSession. destruct (_ && _); [done|]. destruct (assignIPsLocked _ _ sv0) as [[[[ip4 ip6] u4] u6]|]; [|done].
    destruct (if validSessionTokenFormat _ then _ else _) as [token|]; [|done]. cbn [accept]. intros [= <- <-]. eexists. split; [done|]. cbn [set_clients activeClients]. by rewrite lookup_insert_eq. }
  destruct (activeClients sv !! qClientID q) as [s|] eqn:E.
  - destruct (negb (bool_decide (mac = _))); [done|]. destruct (negb (bool_decide (sPskHash s = _))).
    { intros HL. apply HC in HL as (s' & H1 & H2 & H3 & H4). exists s'. split_and!; auto. }
    destruct (resumeSession env q s) as [s1 [e|]] eqn:ER; [done|]. destruct (resume_keeps _ _ _ _ ER) as (K1 & K2 & K3 & _).
    unfold joinSession. destruct (_ <=? _); [done|]. cbn [accept]. intros [= <- <-]. eexists. split; [done|]. cbn [set_clients activeClients]. rewrite lookup_insert_eq. split; [done|].
    split; [left; cbn; congruence|done].
  - intros HL. apply HC in HL as (s' & H1 & H2 & H3 & H4). exists s'. split_and!; auto.
Qed.

Lemma typed_unconns n t m id s : ses_typed id (set_conns n t m s) -> ses_typed id s.
Proof. intros []. by split. Qed.

(** The session behind an answer is well-typed and has the cipher that was asked for. *)
Lemma handshake_reply sha deriveID a env conn q sv sv' rep :
  each cfgTyped ses_typed sv -> cfgTyped a -> envTyped env -> admissible sha deriveID q a -> (qEncrypt q = false -> qEncAlgo q = encAlgoNone) ->
  lockedHandshake sha a env conn q sv = (sv', inl rep) ->
  exists s, rep = replyOf s /\ ses_typed (qClientID q) s /\ sEncAlgo s = qEncAlgo q /\
    (activeClients sv !! qClientID q = None -> sFecEncK s = if qFEC q then qFecGroup q else 0).
Proof.
  intros HE Ha Henv HA Hn HL. pose proof (each_locked sha deriveID cfgTyped envTyped ses_typed typed_resume typed_conns (typed_create sha deriveID) a env conn q sv HE Ha Henv HA) as HT.
  rewrite HL in HT. cbn [fst] in HT. destruct (locked_reply _ _ _ _ _ _ _ _ HL) as (s & -> & H1 & H2 & H3). exists s. split; [done|].
  split; [by apply (ea_all _ _ _ HT) in H1 as H1%typed_unconns|]. split; [|done]. destruct H2 as [?|H2]; [done|]. rewrite H2. destruct (snEncrypt a) eqn:Es.
  - symmetry. by apply (ad_cipher _ _ _ _ HA).
  - symmetry. apply Hn. rewrite (ad_encrypt _ _ _ _ HA). done.
Qed.

(** ** Agreement *)

Section Agree.
Variable sha256 : bytes -> bytes.
Variables newGCM newChaCha newXChaCha : bytes -> option AEAD.
(** SHA-256 gives 32 bytes and the constructors accept keys of their size. *)
Hypothesis Hsha : forall b, length (sha256 b) = 32%nat.
Hypothesis Hctor : forall al l n key, algoLabel al = Some (l, n) -> length key = n ->
  exists a, newPrimitive newGCM newChaCha newXChaCha al key = Some a /\ Overhead a = aeadTagSize.

Lemma cipher_total psk slt dom al : length slt = encSaltSize -> isInnerAEADAlgo al = true -> (dom = DomData \/ dom = DomFEC) ->
  is_Some (cipher sha256 newGCM newChaCha newXChaCha psk slt dom al).
Proof using Hsha Hctor.
  intros Hs Ha Hd. unfold cipher, newInnerCipherDomainForAlgo. rewrite Hs, Nat.eqb_refl. cbn [negb].
  assert (exists l n, algoLabel al = Some (l, n) /\ (n <= 32)%nat) as (l & n & HL & Hn).
  { unfold isInnerAEADAlgo, isGCMAlgo, encAlgoGCM, encAlgoGCM128, encAlgoChaCha20, encAlgoXChaCha20 in Ha.
    assert (al = 2 \/ al = 4 \/ al = 5 \/ al = 6) as [-> |[-> |[-> | ->]]] by lia; (do 2 eexists; split; [reflexivity|lia]). }
  rewrite HL. destruct (Hctor al l n (take n (sha256 (str_bytes (String.append psk (domainLabel dom l))))) HL) as (a & H1 & H2); [rewrite length_take, Hsha; lia|].
  destruct Hd as [-> | ->]; rewrite H1, H2, Nat.eqb_refl; cbn [negb]; eauto.
Qed.

(** An answer with well-typed salts gives the client the server's keys, swapped. *)
Lemma negotiate_agrees lv psk rep sid at4 gw4 gw6 q : lPsk lv = psk -> rEncrypt rep = lEncrypt lv ->
  (lEncrypt lv = true -> rEncAlgo rep = lEncAlgo lv /\ isInnerAEADAlgo (lEncAlgo lv) = true) -> isSalt (rSaltA rep) -> isSalt (rSaltB rep) ->
  let sk := serverKeys sha256 newGCM newChaCha newXChaCha psk rep in
  exists ks, negotiateCiphers sha256 newGCM newChaCha newXChaCha lv (sendResp sid at4 gw4 gw6 q rep) = inl ks /\
    kTx ks = kRx sk /\ kRx ks = kTx sk /\ kFecTx ks = kFecRx sk /\ kFecRx ks = kFecTx sk /\ (lEncrypt lv = true -> kAlgo ks = lEncAlgo lv).
Proof using Hsha Hctor.
  intros Hp He Ha [A1 A2] [B1 B2] sk. unfold sk, serverKeys, negotiateCiphers. rewrite He. destruct (lEncrypt lv); cbn [negb]; [|by eexists].
  destruct (Ha eq_refl) as [Ea Ei]. unfold sendResp, handshakeEncSalts. rewrite Ea, Ei. cbn [negb pEncAlgo pEncSalt pEncSalt2]. rewrite Z.eqb_refl. cbn [negb].
  rewrite !hexDecode_encode by done. rewrite A1, B1, Nat.eqb_refl. cbn [negb orb]. rewrite Hp.
  destruct (cipher_total psk (rSaltA rep) DomData (lEncAlgo lv) A1 Ei ltac:(auto)) as [tx Et]. destruct (cipher_total psk (rSaltB rep) DomData (lEncAlgo lv) B1 Ei ltac:(auto)) as [rx Er].
  rewrite Et, Er. eexists. split; [done|]. by split_and!.
Qed.
End Agree.

Lemma resp_fields sidOf addrText gw4 gw6 q r : let p := sendResp sidOf addrText gw4 gw6 q r in
  pSuccess p = true /\ pVersion p = protocolVersion /\ pEncrypt p = rEncrypt r /\ pSessionID p = sidOf (rUid r) /\ pEpoch p = rEpoch r /\ pToken p = rToken r /\ pFecGroup p = rFecK r.
Proof. intros p. unfold p, sendResp. by destruct (handshakeEncSalts _ _ _). Qed.

(** The answer for a well-typed session with the cipher of the client is accepted. *)
Lemma answer_accepted sha ng nc nx sidOf addrText gw4 gw6 lv c q id s :
  (forall b, length (sha b) = 32%nat) ->
  (forall al l n key, algoLabel al = Some (l, n) -> length key = n -> exists a, newPrimitive ng nc nx al key = Some a /\ Overhead a = aeadTagSize) ->
  (lEncrypt lv = true -> isInnerAEADAlgo (lEncAlgo lv) = true) -> (0 < lMinEnc lv -> lEncrypt lv = true) ->
  ses_typed id s -> sEncAlgo s = (if lEncrypt lv then lEncAlgo lv else encAlgoNone) ->
  let p := sendResp sidOf addrText gw4 gw6 q (replyOf s) in let sk := serverKeys sha ng nc nx (lPsk lv) (replyOf s) in
  exists ks, acceptResponse sha ng nc nx lv (Some p) c = inl (adoptSession lv p ks c) /\
    kTx ks = kRx sk /\ kRx ks = kTx sk /\ kFecTx ks = kFecRx sk /\ kFecRx ks = kFecTx sk.
Proof.
  intros Hsha Hctor Hal Hmin HT Ea p sk. destruct (ty_enc _ _ HT) as [Te _].
  assert (sEncrypt s = lEncrypt lv) as Ee by (rewrite Te, Ea; destruct (lEncrypt lv); [by apply Hal|done]).
  destruct (negotiate_agrees sha ng nc nx Hsha Hctor lv (lPsk lv) (replyOf s) sidOf addrText gw4 gw6 q eq_refl Ee) as (ks & N1 & N2 & N3 & N4 & N5 & N6); [|apply HT|apply HT|].
  { intros E. cbn [replyOf rEncAlgo]. rewrite Ea, E. split; [done|by apply Hal]. }
  fold p in N1. exists ks. split; [|by split_and!]. unfold acceptResponse. rewrite N1. destruct (resp_fields sidOf addrText gw4 gw6 q (replyOf s)) as (R1 & R2 & R3 & _). fold p in R1, R2, R3.
  rewrite R1, R2, R3, Z.eqb_refl. cbn [negb replyOf rEncrypt]. rewrite Ee, eqb_reflx. cbn [negb].
  assert ((0 <? lMinEnc lv) && negb (isInnerAEADAlgo (kAlgo ks)) = false) as ->; [|done].
  destruct (0 <? lMinEnc lv) eqn:Em; [|done]. apply Z.ltb_lt in Em. specialize (Hmin Em). rewrite (N6 Hmin), (Hal Hmin). done.
Qed.

(** C17: Both ends agree.  Suppose the server has typed sessions and configuration, and that
    the PSKs of the two ends do not collide under SHA-256.  If a handshake passes the
    checks against the configuration it copied ([sv0]) and is accepted in whatever state
    ([sv2]) the server is in by then, the client accepts the answer, and each
    direction is sealed under one and the same cipher at both ends, for data and for
    parity; the client is in the server's session and epoch and holds the token the
    server expects; and if the session is new and the client has neither a decoder nor
    a negotiated group size yet, both use the same FEC group size. *)
Theorem handshake_agreement (sha : bytes -> bytes) (ng nc nx : bytes -> option AEAD) (deriveID : bytes -> string -> string)
    (sidOf : nat -> string) (addrText : Z -> string) (gw4 gw6 : string) (now1 now2 : Z) (remote : string) (env : hsEnv) (conn : nat)
    (lv : liveConfig) (c : Client) (sv0 sv1 sv1' sv2 sv2' : Server) (rep : hsReply) :
  (forall b, length (sha b) = 32%nat /\ Forall is_u8 (sha b)) ->
  (forall al l n key, algoLabel al = Some (l, n) -> length key = n -> exists a, newPrimitive ng nc nx al key = Some a /\ Overhead a = aeadTagSize) ->
  (sha (str_bytes (lPsk lv)) = sha (str_bytes (svPsk sv0)) -> lPsk lv = svPsk sv0) ->
  cfgTyped (snapOf sv0) -> each cfgTyped ses_typed sv2 -> envTyped env ->
  (lEncrypt lv = true -> isInnerAEADAlgo (lEncAlgo lv) = true) -> (0 < lMinEnc lv -> lEncrypt lv = true) ->
  let q := buildRequest sha lv c in
  checkRequest sha deriveID (snapOf sv0) now1 now2 remote q sv1 = (sv1', None) ->
  lockedHandshake sha (snapOf sv0) env conn q sv2 = (sv2', inl rep) ->
  let sk := serverKeys sha ng nc nx (svPsk sv0) rep in
  exists c' effs ks, acceptResponse sha ng nc nx lv (Some (sendResp sidOf addrText gw4 gw6 q rep)) c = inl (c', effs, ks) /\
    kTx ks = kRx sk /\ kRx ks = kTx sk /\ kFecTx ks = kFecRx sk /\ kFecRx ks = kFecTx sk /\
    cSession c' = sidOf (rUid rep) /\ cEpoch c' = rEpoch rep /\ cToken c' = rToken rep /\
    (lFecMode lv = true -> cFecNegotiated c = 0 -> cFecDec c = None -> activeClients sv2 !! cID c = None ->
     cFecDec c' = Some (mkDecRef (rFecK rep) (kFecTx sk) (lConns lv =? 1)) /\ EAttachFEC (rFecK rep) (kFecRx sk) ∈ effs /\ kUseFec ks = kUseFec sk).
Proof.
  intros Hsha Hctor Hcol Hcfg HE Henv Hal Hmin q HC HL sk. pose proof (checkRequest_spec sha deriveID (snapOf sv0) now1 now2 remote q sv1) as HS. rewrite HC in HS.
  destruct (proj1 (proj2 HS) eq_refl) as [HA _]. assert (qEncrypt q = false -> qEncAlgo q = encAlgoNone) as Hq by (cbn; by destruct (lEncrypt lv)).
  destruct (handshake_reply sha deriveID _ _ _ _ _ _ _ HE Hcfg Henv HA Hq HL) as (s & -> & HT & Ea & Hfec).
  assert (lPsk lv = svPsk sv0) as Hp by (apply Hcol, hashPSK_inj; [intros b; apply Hsha|apply HA]). unfold sk. rewrite <- Hp. cbn [q buildRequest qEncAlgo] in Ea.
  destruct (answer_accepted sha ng nc nx sidOf addrText gw4 gw6 lv c q _ s (fun b => proj1 (Hsha b)) Hctor Hal Hmin HT Ea) as (ks & -> & N2 & N3 & N4 & N5).
  destruct (resp_fields sidOf addrText gw4 gw6 q (replyOf s)) as (_ & _ & _ & R4 & R5 & R6 & R7). set (p := sendResp _ _ _ _ _ _) in *. clearbody p.
  set (sk' := serverKeys _ _ _ _ _ _) in *.
  destruct (adoptSession lv p ks c) as [[c' effs] ks'] eqn:EA. destruct (adopt_session _ _ _ _ _ _ _ EA) as (S1 & S2 & S3 & _ & _ & _ & _ & _ & S4 & S5).
  exists c', effs, ks'. split; [done|]. assert (kTx ks' = kTx ks /\ kRx ks' = kRx ks) as [S6 S7] by (unfold adoptSession in EA; by injection EA as _ _ <-).
  rewrite S1, S2, S3, S4, S5, S6, S7. split_and!; auto. intros Hf Hn Hd Hnew. specialize (Hfec Hnew). cbn [q buildRequest qFEC qFecGroup] in Hfec. rewrite Hf in Hfec.
  assert (fecMinGroup <= pFecGroup p) as Hk by (rewrite R7; cbn; rewrite Hfec; unfold clampFecGroup, fecMinGroup, fecMaxGroup; repeat case_match; lia).
  unfold adoptSession in EA. rewrite Hf, Hn, Hd in EA. cbn [andb Z.eqb] in EA. rewrite (proj2 (Z.leb_le _ _) Hk) in EA.
  assert (0 <? pFecGroup p = true) as Hpos by (apply Z.ltb_lt; unfold fecMinGroup in Hk; lia). rewrite Hpos in EA. cbn [andb orb] in EA.
  rewrite (bool_decide_true (None = None)) in EA by done. cbn [orb negb andb] in EA. injection EA as <- <- <-. cbn [cFecDec set_session set_enc set_fec kUseFec].
  rewrite <- R7, N4, N5. split; [done|]. split; [|unfold sk', serverKeys; destruct (rEncrypt _); cbn [kUseFec]; by rewrite <- R7].
  apply elem_of_app. right. by constructor.
Qed.

(** ** Crashes *)

#[export] Instance authSnap_eq : EqDecision authSnap.
Proof. solve_decision. Defined.

(** The time that a session without connections is kept. *)
Definition sessionRetention : Z := 120 * 1000000000.

(** What becomes of an attempt that the server has accepted: the answer is lost; the
    client takes it and is killed before the identity file is written; or the file is
    written.  A crash gives the instance of the next process. *)
Inductive fate :=
| FLost (crash : option string)
| FKilled (inst : string)
| FSaved (crash : option string).

(** An attempt to connect: the configuration of the client, the connection, when and from
    where it is checked, what others do to the server before the check and before the
    lock (with the times), the random values of the server, and the fate. *)
Record try := mkTry { tLive : liveConfig; tConn : nat; tRemote : string; tNow : Z; tOps1 : list (Z * svOp); tOps2 : list (Z * svOp); tEnv : hsEnv; tFate : fate }.

(** Something happens to the server; the client goes on as another instance because its
    sequence numbers are used up; the client attempts to connect. *)
Inductive crashEv :=
| CServer (now : Z) (op : svOp)
| CExhausted (inst : string)
| CTry (t : try).

(** [xArmed]: since when the retention timer of the client's session runs. *)
Record crashSys := mkCrash { xWorld : world; xArmed : option Z; xClient : Client; xDisk : stateDisk }.

Section Crashes.
Variable sha : bytes -> bytes.
Variables ng nc nx : bytes -> option AEAD.
Variable deriveID : bytes -> string -> string.
Variables (sidOf : nat -> string) (addrText : Z -> string) (gw4 gw6 : string).

(** A new process with the same identity, started on the file that is there. *)
Definition reboot (lv : liveConfig) (crash : option string) (d : stateDisk) (c : Client) : Client :=
  match crash with Some inst => NewClient (cPath c) (cID c) (cMAC c) inst (lConns lv) d | None => c end.

Definition retained (id : string) (w : world) : bool := match activeClients (srv w) !! id with Some s => sTimer s | None => false end.
Definition expired (now : Z) (armed : option Z) : bool := match armed with Some a => a + sessionRetention <=? now | None => false end.

(** An operation of the server at a time.  The timer of [id] fires only when it is due. *)
Definition timedStep (id : string) (st : world * option Z) (x : Z * svOp) : world * option Z :=
  let due := match x.2 with STimer _ i => negb (bool_decide (i = id)) || expired x.1 st.2 | _ => true end in
  let w := if due then svStep sha deriveID st.1 x.2 else st.1 in
  (w, if retained id w then (if retained id st.1 then st.2 else Some x.1) else None).

(** The attempt up to the lock. *)
Definition tryBefore (id : string) (q : HandshakeReq) (t : try) (st : world * option Z) : world * option Z :=
  let st := fold_left (timedStep id) (tOps1 t) (svStep sha deriveID st.1 (SBegin (tConn t) q), st.2) in
  fold_left (timedStep id) (tOps2 t) (svStep sha deriveID st.1 (SCheck (tNow t) (tNow t) (tRemote t) (tConn t)), st.2).

(** One attempt; [None] when the server refuses it or the client does not accept the
    answer. *)
Definition tryStep (t : try) (x : crashSys) : option crashSys :=
  let d := xDisk x in
  let c := refreshSessionStateFromDisk d (xClient x) in
  let q := buildRequest sha (tLive t) c in
  let '(w, armed) := tryBefore (cID c) q t (xWorld x, xArmed x) in
  match lockStep sha (tEnv t) (tConn t) w with
  | (w, Some (inl rep)) =>
    let armed := if retained (cID c) w then armed else None in
    match tFate t with
    | FLost crash => Some (mkCrash w armed (reboot (tLive t) crash d c) d)
    | FKilled inst => Some (mkCrash w armed (reboot (tLive t) (Some inst) d c) d)
    | FSaved crash =>
      match acceptResponse sha ng nc nx (tLive t) (Some (sendResp sidOf addrText gw4 gw6 q rep)) c with
      | inl (c, _, _) =>
        let '(c, d) := persistSessionState (sidOf (rUid rep)) (rToken rep) (rEpoch rep) true c d in
        Some (mkCrash w armed (reboot (tLive t) crash d c) d)
      | inr _ => None
      end
    end
  | _ => None
  end.

Definition crashStep (e : crashEv) (x : crashSys) : option crashSys :=
  match e with
  | CServer now op => let '(w, armed) := timedStep (cID (xClient x)) (xWorld x, xArmed x) (now, op) in Some (mkCrash w armed (xClient x) (xDisk x))
  | CExhausted inst => Some (mkCrash (xWorld x) (xArmed x) (onExhausted inst (xClient x)) (xDisk x))
  | CTry t => tryStep t x
  end.

Fixpoint crashRun (es : list crashEv) (x : crashSys) : option crashSys :=
  match es with [] => Some x | e :: es => match crashStep e x with Some x => crashRun es x | None => None end end.

(** *** What the runs are like *)

(** An operation that leaves the client [id] alone: no kick, no ban, no change of the
    settings [a], no other handshake in its name or on its connection.  The end of one of
    its connections, its timer and its exhausted numbers are allowed. *)
Definition bystander (id : string) (a : authSnap) (conn : option nat) (op : svOp) : bool :=
  match op with
  | SBegin _ q => negb (bool_decide (qClientID q = id))
  | SCheck _ _ _ c | SLock _ c => negb (bool_decide (conn = Some c))
  | SKick _ i | SBan _ i _ => negb (bool_decide (i = id))
  | SConfig psk enc ea me _ fmin fmax => bool_decide (mkSnap psk enc ea me fmin fmax = a)
  | SConnEnd _ | STimer _ _ | SUnban _ | SExhausted _ _ _ | SFrame _ _ _ _ _ | STick => true
  end.

(** Operations of bystanders, none of them at a time when the timer of [id] has expired. *)
Fixpoint opsFit (id : string) (a : authSnap) (conn : option nat) (ops : list (Z * svOp)) (st : world * option Z) : bool :=
  match ops with
  | [] => true
  | x :: ops => negb (expired x.1 st.2) && bystander id a conn x.2 && opsFit id a conn ops (timedStep id st x)
  end.

(** The connection of an attempt is a new one, and the process that attempts it has fewer
    than 16 counted connections in the session. *)
Definition evFit (a : authSnap) (e : crashEv) (x : crashSys) : bool :=
  match e with
  | CServer now op => opsFit (cID (xClient x)) a None [(now, op)] (xWorld x, xArmed x)
  | CExhausted _ => true
  | CTry t =>
    let c := refreshSessionStateFromDisk (xDisk x) (xClient x) in
    let id := cID c in let q := buildRequest sha (tLive t) c in
    let w1 := svStep sha deriveID (xWorld x) (SBegin (tConn t) q) in
    let st1 := fold_left (timedStep id) (tOps1 t) (w1, xArmed x) in
    let w2 := svStep sha deriveID st1.1 (SCheck (tNow t) (tNow t) (tRemote t) (tConn t)) in
    bool_decide (live (xWorld x) !! tConn t = None) && negb (bool_decide (is_Some (flying (xWorld x) !! tConn t))) &&
    opsFit id a (Some (tConn t)) (tOps1 t) (w1, xArmed x) && opsFit id a (Some (tConn t)) (tOps2 t) (w2, st1.2) &&
    match activeClients (srv (tryBefore id q t (xWorld x, xArmed x)).1) !! id with
    | Some s => negb (bool_decide (sInstanceID s = cInstance c)) || (sActiveConns s <? maxConnectionsPerIP)
    | None => true
    end
  end.

Fixpoint runFit (a : authSnap) (es : list crashEv) (x : crashSys) : bool :=
  match es with [] => true | e :: es => evFit a e x && match crashStep e x with Some x => runFit a es x | None => true end end.

(** The client is configured like the server. *)
Record sameSetup (a : authSnap) (lv : liveConfig) : Prop := {
  su_psk : lPsk lv = snPsk a;
  su_encrypt : lEncrypt lv = snEncrypt a;
  su_algo : lEncrypt lv = true -> lEncAlgo lv = snEncAlgo a /\ isInnerAEADAlgo (lEncAlgo lv) = true;
  su_min : 0 < lMinEnc lv -> lEncrypt lv = true;
  su_fec : lFecMode lv = true -> snFecMin a <= clampFecGroup (lFecGroup lv) <= snFecMax a
}.

Definition validInst (inst : string) : Prop := isValidClientInstance (str_bytes inst) = true.

(** The random sources work, and new processes have well-formed instances. *)
Definition evOk (a : authSnap) (e : crashEv) : Prop :=
  match e with
  | CServer _ _ => True
  | CExhausted inst => validInst inst
  | CTry t => sameSetup a (tLive t) /\ envOk (tEnv t) /\ envTyped (tEnv t) /\
      match tFate t with FLost (Some inst) | FKilled inst | FSaved (Some inst) => validInst inst | _ => True end
  end.

(** *** A session and the operations of others *)

(** [s'] is [s] up to its instance, its connections and its timer. *)
Definition kin (s s' : ClientSession) : Prop := exists inst n t m, s' = set_conns n t m (set_epoch inst (sEpoch s) (sSaltA s) (sSaltB s) s).

Lemma kin_refl s : kin s s.
Proof using. exists (sInstanceID s), (sActiveConns s), (sTimer s), (sConns s). by destruct s. Qed.
Lemma kin_trans s1 s2 s3 : kin s1 s2 -> kin s2 s3 -> kin s1 s3.
Proof using. intros (i & n & t & m & ->) (i' & n' & t' & m' & ->). by exists i', n', t', m'. Qed.
Lemma kin_conns n t m s : kin s (set_conns n t m s).
Proof using. exists (sInstanceID s), n, t, m. by destruct s. Qed.
Lemma kin_inst inst s : kin s (set_epoch inst (sEpoch s) (sSaltA s) (sSaltB s) s).
Proof using. exists inst, (sActiveConns s), (sTimer s), (sConns s). done. Qed.

Lemma kin_typed id s s' : kin s s' -> ses_typed id s -> ses_typed id s'.
Proof using. intros (i & n & t & m & ->) HT. apply typed_conns, typed_epoch; [done|apply HT|apply HT]. Qed.

Definition reqOf (st : hsStage) : HandshakeReq := match st with HBegun _ q | HChecked _ q => q end.

(** The session [s] of [id] is there, up to kin; [id] is not banned; the settings are [a];
    and the only handshake in flight for [id] is [own]. *)
Record holds (id : string) (a : authSnap) (own : option (nat * hsStage)) (s : ClientSession) (w : world) : Prop := {
  ho_ses : exists s', activeClients (srv w) !! id = Some s' /\ kin s s';
  ho_ban : svBanned (srv w) !! id = None;
  ho_snap : snapOf (srv w) = a;
  ho_fly : forall c st, flying w !! c = Some st -> own = Some (c, st) \/ qClientID (reqOf st) <> id;
  ho_own : forall c st, own = Some (c, st) -> flying w !! c = Some st
}.

Lemma locked_other id ac env conn q sv : qClientID q <> id ->
  let sv' := (lockedHandshake sha ac env conn q sv).1 in
  activeClients sv' !! id = activeClients sv !! id /\ snapOf sv' = snapOf sv /\ svBanned sv' = svBanned sv.
Proof using.
  intros Hid. unfold lockedHandshake. set (mac := fmtMAC _). set (bind := macToIP sv !! mac). clearbody bind.
  assert (forall sv0, let sv' := (let '(sv1, r) := createSession sha ac env mac q bind sv0 in match r with inr e => (sv1, inr e) | inl s => accept conn (qClientID q) s sv1 end).1 in
    activeClients sv' !! id = activeClients sv0 !! id /\ snapOf sv' = snapOf sv0 /\ svBanned sv' = svBanned sv0) as HC.
  { intros sv0. destruct (createSession sha ac env mac q bind sv0) as [sv1 r] eqn:EC. destruct (create_frame _ _ _ _ _ _ _ _ _ EC) as (F1 & F2 & F3).
    destruct r; cbn; rewrite ?lookup_insert_ne, ?F1 by done; done. }
  destruct (activeClients sv !! qClientID q) as [s|] eqn:E; [|apply HC]. destruct (negb (bool_decide (mac = _))); [done|]. destruct (negb (bool_decide (sPskHash s = _))).
  { destruct (HC (destroySessionLocked s (qClientID q) sv)) as (H1 & H2 & H3). rewrite H1, H2, H3. unfold destroySessionLocked. rewrite E, Nat.eqb_refl. cbn. by rewrite lookup_delete_ne. }
  destruct (resumeSession env q s) as [s1 [e|]]; [cbn; by rewrite lookup_insert_ne|]. destruct (joinSession s1) as [s2 [e|]]; cbn; by rewrite !lookup_insert_ne.
Qed.

Lemma destroy_other id i s sv : i <> id ->
  let sv' := destroySessionLocked s i sv in activeClients sv' !! id = activeClients sv !! id /\ snapOf sv' = snapOf sv /\ svBanned sv' = svBanned sv.
Proof using.
  intros Hi. unfold destroySessionLocked. destruct (activeClients sv !! i) as [cur|]; [|done]. destruct (_ =? _)%nat; [|done]. cbn. by rewrite lookup_delete_ne.
Qed.

(** A step that only touches the entry of the session, within kin. *)
Lemma holds_srv id a own s w sv : holds id a own s w -> snapOf sv = snapOf (srv w) -> (svBanned (srv w) !! id = None -> svBanned sv !! id = None) ->
  (forall s1, activeClients (srv w) !! id = Some s1 -> exists s2, activeClients sv !! id = Some s2 /\ kin s1 s2) ->
  forall lv, holds id a own s (mkWorld sv lv (flying w)).
Proof using.
  intros [(s1 & H1 & K1) H2 H3 H4 H5] E1 E2 E3 lv. destruct (E3 _ H1) as (s2 & H6 & K2). split; cbn [srv flying]; auto; [|by rewrite E1].
  exists s2. split; [done|by eapply kin_trans].
Qed.

Lemma holds_destroy id a own s w i t lv : holds id a own s w -> i <> id -> holds id a own s (mkWorld (destroySessionLocked t i (srv w)) lv (flying w)).
Proof using.
  intros HH Hi. destruct (destroy_other id i t (srv w) Hi) as (H1 & H2 & H3). apply holds_srv with (1 := HH); [done|by rewrite H3|].
  intros s1 Hs. exists s1. split; [congruence|apply kin_refl].
Qed.

Lemma holds_put id a own s w i s1 s2 lv : holds id a own s w -> activeClients (srv w) !! i = Some s1 -> kin s1 s2 ->
  holds id a own s (mkWorld (set_clients (<[i := s2]> (activeClients (srv w))) (srv w)) lv (flying w)).
Proof using.
  intros HH Hi HK. apply holds_srv with (1 := HH); [done|done|]. intros s3 H3. cbn. destruct (decide (i = id)) as [->|Hne].
  - rewrite lookup_insert_eq. rewrite Hi in H3. injection H3 as <-. by exists s2.
  - rewrite lookup_insert_ne by done. exists s3. split; [done|apply kin_refl].
Qed.

Lemma holds_same id a own s w sv : holds id a own s w -> snapOf sv = snapOf (srv w) -> (svBanned (srv w) !! id = None -> svBanned sv !! id = None) ->
  activeClients sv = activeClients (srv w) -> holds id a own s (set_srv sv w).
Proof using. intros HH E1 E2 E3. apply holds_srv with (1 := HH); [done|done|]. intros s1 H1. exists s1. rewrite E3. split; [done|apply kin_refl]. Qed.

(** The handshakes of others, step by step. *)
Lemma holds_begin id a own s w conn q : holds id a own s w -> qClientID q <> id -> holds id a own s (svStep sha deriveID w (SBegin conn q)).
Proof using.
  intros HH Hq. cbn [svStep]. destruct (live w !! conn); [done|]. destruct (flying w !! conn) eqn:Ef; [done|]. destruct HH as [H1 H2 H3 H4 H5]. split; cbn [srv flying]; auto.
  - intros c st Hc. apply lookup_insert_Some in Hc as [[<- <-]|[_ Hc]]; [by right|by apply H4].
  - intros c st Hc. rewrite lookup_insert_ne; [by apply H5|]. intros ->. apply H5 in Hc. congruence.
Qed.

Lemma holds_check id a own s w n1 n2 remote conn : holds id a own s w -> (fst <$> own) <> Some conn -> holds id a own s (svStep sha deriveID w (SCheck n1 n2 remote conn)).
Proof using.
  intros HH Hc. cbn [svStep]. destruct (flying w !! conn) as [[ac q|ac q]|] eqn:Ef; [|done..]. pose proof HH as [H1 H2 H3 H4 H5].
  assert (qClientID q <> id) as Hq. { destruct (H4 _ _ Ef) as [E|E]; [|done]. by rewrite E in Hc. }
  pose proof (checkRequest_spec sha deriveID ac n1 n2 remote q (srv w)) as HS. destruct (checkRequest _ _ _ _ _ _ _ _) as [sv' e]. destruct HS as [(b & f & r & -> & Hb) _].
  assert (forall c st, own = Some (c, st) -> c <> conn) as Hne by (intros c st -> ->; done).
  split; cbn [srv flying set_guards activeClients svBanned]; auto.
  - destruct Hb as [-> | ->]; [done|]. unfold IsBanned. case_bool_decide; [done|]. destruct (svBanned (srv w) !! qClientID q); [|done]. destruct (_ && _); [|done]. cbn. by rewrite lookup_delete_ne.
  - intros c st. destruct e; [rewrite lookup_delete_Some; intros [_ Hx]; by apply H4|]. rewrite lookup_insert_Some. intros [[_ <-]|[_ Hx]]; [by right|by apply H4].
  - intros c st Ho. pose proof (Hne _ _ Ho). destruct e; [rewrite lookup_delete_ne by done|rewrite lookup_insert_ne by done]; by apply H5.
Qed.

Lemma holds_lock id a own s w env conn : holds id a own s w -> (fst <$> own) <> Some conn -> holds id a own s (lockStep sha env conn w).1.
Proof using.
  intros HH Hc. unfold lockStep. destruct (flying w !! conn) as [[ac q|ac q]|] eqn:Ef; [done| |done]. pose proof HH as [H1 H2 H3 H4 H5].
  assert (qClientID q <> id) as Hq. { destruct (H4 _ _ Ef) as [E|E]; [|done]. by rewrite E in Hc. }
  destruct (locked_other id ac env conn q (srv w) Hq) as (L1 & L2 & L3). destruct (lockedHandshake _ _ _ _ _ _) as [sv' r]. cbn [fst] in *.
  split; cbn [srv flying]; rewrite ?L1, ?L2, ?L3; auto.
  - intros c st. rewrite lookup_delete_Some. intros [_ Hx]. by apply H4.
  - intros c st Ho. rewrite lookup_delete_ne; [by apply H5|]. intros <-. by rewrite Ho in Hc.
Qed.

Lemma holds_step id a own s w op : holds id a own s w -> bystander id a (fst <$> own) op = true -> (forall u, op <> STimer u id) ->
  holds id a own s (svStep sha deriveID w op).
Proof using.
  intros HH Hop Ht. destruct op as [conn q|now1 now2 remote conn|env conn|conn|uid i|uid i|now i ttl|i|uid i inst|psk enc ea me ms fmin fmax|now src frame owned reg|]; cbn [bystander] in Hop;
    try (apply negb_true_iff, bool_decide_eq_false in Hop).
  - by apply holds_begin.
  - by apply holds_check.
  - by apply holds_lock.
  - cbn [svStep]. destruct (live w !! conn) as [[[uid ep] i]|]; [|done]. unfold connEnd. destruct (activeClients (srv w) !! i) as [t|] eqn:E; [|by apply holds_srv with (1 := HH); [..|intros s1 H1; exists s1; split; [done|apply kin_refl]]].
    destruct (_ =? uid)%nat; [|by apply holds_srv with (1 := HH); [..|intros s1 H1; exists s1; split; [done|apply kin_refl]]].
    apply holds_put with (1 := HH) (2 := E). destruct (ep =? _); [eapply kin_trans; apply kin_conns|apply kin_conns].
  - assert (i <> id) as Hi by (intros ->; by apply (Ht uid)). cbn [svStep]. unfold timerFires, set_srv. destruct (activeClients (srv w) !! i); [|by destruct w]. destruct (_ && _); [|by destruct w]. by apply holds_destroy.
  - cbn [svStep]. unfold kickSession, set_srv. destruct (activeClients (srv w) !! i); [|by destruct w]. destruct (_ =? uid)%nat; [|by destruct w]. by apply holds_destroy.
  - cbn [svStep]. unfold Ban, banEntry. case_bool_decide; [by apply holds_same with (1 := HH)|]. cbn [negb]. set (sv1 := set_guards _ _ _ _).
    assert (holds id a own s (set_srv sv1 w)) as HH1 by (apply holds_same with (1 := HH); [done|cbn; by rewrite lookup_insert_ne|done]). change sv1 with (srv (set_srv sv1 w)). 
    destruct (activeClients (srv (set_srv sv1 w)) !! i) as [t|] eqn:E; [|done]. unfold kickSession. rewrite E, Nat.eqb_refl. by apply (holds_destroy id a own s (set_srv sv1 w)).
  - apply holds_same with (1 := HH); [done| |done]. intros Hb. cbn. unfold Unban. rewrite lookup_delete_None. by right.
  - cbn [svStep]. unfold sequenceExhausted, set_srv. destruct (activeClients (srv w) !! i) as [t|] eqn:E; [|by destruct w]. destruct (_ =? uid)%nat; [|by destruct w].
    apply holds_put with (1 := HH) (2 := E). apply kin_inst.
  - apply bool_decide_eq_true in Hop. destruct HH as [H1 H2 H3 H4 H5]. by split.
  - by apply holds_same with (1 := HH).
  - by apply holds_same with (1 := HH).
Qed.

Lemma holds_timed id a own s st x : holds id a own s st.1 -> expired x.1 st.2 = false -> bystander id a (fst <$> own) x.2 = true -> holds id a own s (timedStep id st x).1.
Proof using.
  destruct x as [now op]. cbn [fst snd]. intros HH Hx Hop. unfold timedStep. cbn [fst snd].
  destruct op as [| | | |u i| | | | | | |]; try by apply holds_step. rewrite Hx, orb_false_r. case_bool_decide as Hi; cbn [negb]; [done|].
  apply holds_step; [done|done|]. intros v [= -> ->]. done.
Qed.

Lemma holds_ops id a own s ops : forall st, holds id a own s st.1 -> opsFit id a (fst <$> own) ops st = true -> holds id a own s (fold_left (timedStep id) ops st).1.
Proof using.
  induction ops as [|x ops IH]; intros st HH HO; [done|]. cbn [opsFit fold_left] in *. apply andb_true_iff in HO as [HO H3]. apply andb_true_iff in HO as [H1 H2].
  apply IH; [|done]. apply holds_timed; [done|by apply negb_true_iff|done].
Qed.

(** *** The client, its file and its session *)

(** The client, its file and the session match. *)
Record inStep (id : string) (s : ClientSession) (c : Client) (d : stateDisk) (st : clientState) : Prop := {
  is_disk : d = DState st /\ stClientID st = id /\ stSessionID st = sidOf (sUid s) /\ sidOf (sUid s) <> ""%string /\ stToken st <> ""%string;
  is_client : cID c = id /\ cPath c = true /\ cSession c = sidOf (sUid s) /\ cToken c = stToken st /\ cEpoch c = stEpoch st /\ cState c = Some st;
  is_token : token_inv s (stToken st);
  is_epoch : 0 <= stEpoch st <= sEpoch s /\ (stEpoch st = sEpoch s -> stToken st = responseResumeToken s)
}.

Lemma resume_ext env q1 q2 s : qEncAlgo q1 = qEncAlgo q2 -> qInstance q1 = qInstance q2 -> qToken q1 = qToken q2 -> resumeSession env q1 s = resumeSession env q2 s.
Proof using. unfold resumeSession. by intros -> -> ->. Qed.

(** The token that is answered only changes with the epoch. *)
Lemma resume_response env q s s' : resumeSession env q s = (s', None) -> 0 <= sEpoch s < 2 ^ 64 - 1 ->
  sUid s' = sUid s /\ (sEpoch s' = sEpoch s /\ responseResumeToken s' = responseResumeToken s \/ sEpoch s' = sEpoch s + 1).
Proof using.
  intros HR He. pose proof (resume_same_id env q s) as [Hu _ _ _ _]. rewrite HR in Hu. split; [done|]. destruct (resume_accepted _ _ _ _ HR) as [_ [(Hi & E & _)|(_ & E & _)]].
  - left. split; [done|]. revert HR. unfold resumeSession. destruct (negb (sEncAlgo s =? _)); [done|]. rewrite bool_decide_true by done. cbn [negb].
    destruct (negb (bool_decide (sPendingToken s = ""%string)) && _) eqn:Ep; intros [= <-]; [|done]. apply andb_true_iff in Ep as [Ep _]. apply negb_true_iff, bool_decide_eq_false in Ep.
    unfold responseResumeToken. cbn [set_token sPendingToken sResumeToken]. rewrite (bool_decide_true (""%string = ""%string)) by done. by rewrite bool_decide_false.
  - right. rewrite E. apply u64_small. widths. lia.
Qed.

Lemma token_nonempty s t : token_inv s t -> t <> ""%string.
Proof using. intros [[Hl _] _ _] ->. done. Qed.

Lemma refresh_inStep id s c d st : inStep id s c d st -> refreshSessionStateFromDisk d c = c.
Proof using.
  intros [(-> & D1 & D2 & D3 & D4) (C1 & C2 & C3 & C4 & C5 & C6) _ _]. unfold refreshSessionStateFromDisk, loadClientState. rewrite C2. cbn [negb].
  destruct (_ || _ || _); [done|]. destruct (negb _); [done|]. rewrite C5, C4, Z.ltb_irrefl, Z.eqb_refl, bool_decide_true by done. done.
Qed.

Lemma reboot_inStep id s c d st lv crash : inStep id s c d st -> inStep id s (reboot lv crash d c) d st.
Proof using.
  intros HJ. destruct crash as [inst|]; [|done]. pose proof HJ as [(Hd & D1 & D2 & D3 & D4) (C1 & C2 & C3 & C4 & C5 & C6) T E]. split; auto.
  unfold reboot, NewClient. rewrite C2, Hd. cbn [loadClientState negb from_option Datatypes.id]. rewrite C1, (bool_decide_true (stClientID st = id)), (bool_decide_false (stSessionID st = ""%string)) by congruence.
  cbn. by split_and!.
Qed.

Lemma save_inStep id s s' c d st lv q ks : inStep id s c d st -> sUid s' = sUid s -> token_inv s' (responseResumeToken s') ->
  (sEpoch s' = sEpoch s /\ responseResumeToken s' = responseResumeToken s \/ sEpoch s' = sEpoch s + 1) ->
  let '(c1, _, _) := adoptSession lv (sendResp sidOf addrText gw4 gw6 q (replyOf s')) ks c in
  let '(c2, d2) := persistSessionState (sidOf (sUid s')) (responseResumeToken s') (sEpoch s') true c1 d in
  inStep id s' c2 d2 (mkCState id (stMAC st) (sidOf (sUid s)) (responseResumeToken s') (sEpoch s')).
Proof using.
  intros [(-> & D1 & D2 & D3 & D4) (C1 & C2 & C3 & C4 & C5 & C6) T [E1 E2]] Hu HT Hep. destruct (adoptSession _ _ _ c) as [[c1 effs] ks1] eqn:EA.
  destruct (adopt_session _ _ _ _ _ _ _ EA) as (A1 & A2 & A3 & A4 & A5 & A6 & _). unfold sendResp in A1, A2, A3. destruct (handshakeEncSalts _ _ _) as [x1 x2]. cbn [pSessionID pToken pEpoch replyOf rUid rToken rEpoch] in A1, A2, A3.
  rewrite Hu in *. unfold persistSessionState, persistCurrent. rewrite A1, A2, A3, A5, C2, Z.eqb_refl, (bool_decide_true (sidOf (sUid s) = sidOf (sUid s))), (bool_decide_true (responseResumeToken s' = responseResumeToken s')) by done. cbn [negb andb orb]. rewrite andb_false_r. cbn [negb].
  unfold persistWrite, loadClientState. rewrite A4, A5, A6, C2, C6, C1. cbn [negb from_option Datatypes.id]. rewrite (bool_decide_true (stClientID st = id)), (bool_decide_true (stSessionID st = sidOf (sUid s))) by done. cbn [andb].
  assert (sEpoch s' <? stEpoch st = false) as -> by (apply Z.ltb_ge; destruct Hep as [[-> _]| ->]; lia). cbn [orb].
  assert ((stEpoch st =? sEpoch s') && negb (bool_decide (stToken st = ""%string)) && negb (bool_decide (stToken st = responseResumeToken s')) = false) as ->.
  { destruct (Z.eqb_spec (stEpoch st) (sEpoch s')) as [He|]; [|done]. destruct Hep as [[Hs Hr]|Hs]; [|lia]. rewrite (bool_decide_true (stToken st = responseResumeToken s')) by (rewrite Hr; apply E2; lia). by rewrite andb_false_r. }
  unfold saveClientState. cbn [negb]. split; cbn; auto.
  - split_and!; try done; [congruence| |by eapply token_nonempty]. by rewrite Hu.
  - rewrite Hu. split_and!; congruence.
  - split; [|done]. destruct Hep as [[-> _]| ->]; lia.
Qed.

Lemma persist_who sid token ep ok c d : let c' := (persistSessionState sid token ep ok c d).1 in cMAC c' = cMAC c /\ cInstance c' = cInstance c.
Proof using.
  unfold persistSessionState, persistWrite. destruct (persistCurrent _ _ _ _); [|done]. repeat (case_match; simplify_eq; try done).
Qed.

Lemma kin_inStep id s s' c d st : kin s s' -> inStep id s c d st -> inStep id s' c d st.
Proof using. intros (i & n & t & m & ->) [H1 H2 [T1 T2 T3] H4]. split; [done|done|by split|done]. Qed.

(** What a run keeps: the session up to kin, a client in step with it, and what makes
    the requests of the client admissible and its cipher and PSK those of the session. *)
Record abides (id mac : string) (a : authSnap) (s : ClientSession) (x : crashSys) (st : clientState) : Prop := {
  ab_holds : holds id a None s (xWorld x);
  ab_step : inStep id s (xClient x) (xDisk x) st;
  ab_who : cMAC (xClient x) = mac /\ validInst (cInstance (xClient x));
  ab_typed : ses_typed id s;
  ab_mac : sMAC s = fmtMAC (default macZero (parseMACKey (str_bytes mac)));
  ab_psk : sPskHash s = hashPSK sha (snPsk a);
  ab_algo : sEncAlgo s = if snEncrypt a then snEncAlgo a else encAlgoNone
}.

(** The three steps of the client's own handshake. *)
Lemma own_begin id a s w conn q : holds id a None s w -> live w !! conn = None -> flying w !! conn = None ->
  holds id a (Some (conn, HBegun a q)) s (svStep sha deriveID w (SBegin conn q)).
Proof using.
  intros [H1 H2 H3 H4 H5] Hl Hf. cbn [svStep]. rewrite Hl, Hf. split; cbn [srv flying]; auto.
  - intros c st Hc. apply lookup_insert_Some in Hc as [[<- <-]|[_ Hc]]; [left; by rewrite H3|]. right. by destruct (H4 _ _ Hc).
  - intros c st [= <- <-]. by rewrite lookup_insert_eq, H3.
Qed.

Lemma own_check id a s w conn q n1 n2 remote : holds id a (Some (conn, HBegun a q)) s w -> admissible sha deriveID q a -> qClientID q = id ->
  holds id a (Some (conn, HChecked a q)) s (svStep sha deriveID w (SCheck n1 n2 remote conn)).
Proof using.
  intros [H1 H2 H3 H4 H5] HA Hq. cbn [svStep]. rewrite (H5 _ _ eq_refl). pose proof (checkRequest_spec sha deriveID a n1 n2 remote q (srv w)) as HS.
  assert (IsBanned n2 (qClientID q) (svBanned (srv w)) = (svBanned (srv w), false)) as EB by (unfold IsBanned; rewrite Hq, H2; by case_bool_decide).
  destruct (checkRequest _ _ _ _ _ _ _ _) as [sv' e]. rewrite EB in HS. destruct HS as [(b & f & r & -> & Hb) He]. rewrite (proj2 He) by done.
  assert (b = svBanned (srv w)) as -> by (by destruct Hb). split; cbn [srv flying set_guards activeClients svBanned]; auto.
  - intros c st Hc. apply lookup_insert_Some in Hc as [[<- <-]|[Hne Hc]]; [by left|]. right. destruct (H4 _ _ Hc) as [[= <- _]|]; [done|done].
  - intros c st [= <- <-]. by rewrite lookup_insert_eq.
Qed.

(** A session that is resumed has room: for another connection of its process if there
    are fewer than 16, and always for a new process. *)
Lemma resume_room env q s s1 : resumeSession env q s = (s1, None) -> is_Some (eToken env) -> 0 <= sEpoch s < 2 ^ 64 - 1 ->
  (sInstanceID s = qInstance q -> sActiveConns s < maxConnectionsPerIP) ->
  joinSession s1 = (set_conns (sActiveConns s1 + 1) false (sConns s1) s1, None).
Proof using.
  intros HR Ht He Hroom. assert (sActiveConns s1 < maxConnectionsPerIP) as HL.
  { destruct (resume_conns env q s s1 None Ht He HR) as (_ & _ & [[E1 E2]|(_ & _ & ->)]); [|done]. rewrite E2. apply Hroom.
    destruct (resume_accepted _ _ _ _ HR) as [_ [[E _]|(_ & E & _)]]; [done|]. rewrite E1, u64_small in E by (widths; lia). lia. }
  unfold joinSession. cbn [set_conns sActiveConns]. by rewrite (proj2 (Z.leb_gt _ _) HL).
Qed.

Lemma own_lock id a s s0 s1 w conn q env : holds id a (Some (conn, HChecked a q)) s w -> activeClients (srv w) !! id = Some s0 -> qClientID q = id ->
  fmtMAC (default macZero (parseMACKey (str_bytes (qMAC q)))) = sMAC s0 -> sPskHash s0 = hashPSK sha (snPsk a) ->
  resumeSession env q s0 = (s1, None) -> is_Some (eToken env) -> 0 <= sEpoch s0 < 2 ^ 64 - 1 -> (sInstanceID s0 = qInstance q -> sActiveConns s0 < maxConnectionsPerIP) ->
  let s2 := set_conns (sActiveConns s1 + 1) false (sConns s1) s1 in
  exists w', lockStep sha env conn w = (w', Some (inl (replyOf s2))) /\ holds id a None s2 w' /\ retained id w' = false.
Proof using.
  intros HH Hs Hq Hm Hp HR Ht He Hroom s2. pose proof HH as [_ H2 H3 H4 H5]. unfold lockStep. rewrite (H5 _ _ eq_refl). unfold lockedHandshake. rewrite Hq, Hs, Hm, Hp.
  rewrite !bool_decide_true by done. cbn [negb]. rewrite HR, (resume_room _ _ _ _ HR Ht He Hroom). cbn [accept set_clients activeClients]. rewrite !insert_insert_eq.
  eexists. split; [done|]. split; [|unfold retained; cbn; by rewrite lookup_insert_eq]. split; cbn [srv flying set_clients activeClients svBanned]; auto; [| |done].
  - rewrite lookup_insert_eq. eexists. split; [done|]. apply kin_conns.
  - intros c st Hc. apply lookup_delete_Some in Hc as [Hne Hc]. right. destruct (H4 _ _ Hc) as [[= <- _]|]; done.
Qed.

Section Survive.
(** SHA-256 gives 32 bytes and the constructors accept keys of their size. *)
Hypothesis Hsha : forall b, length (sha b) = 32%nat.
Hypothesis Hctor : forall al l n key, algoLabel al = Some (l, n) -> length key = n -> exists a, newPrimitive ng nc nx al key = Some a /\ Overhead a = aeadTagSize.
(** Who the client is. *)
Variables (id mac : string) (a : authSnap).
Hypothesis Hmac : isValidMACString (str_bytes mac) = true.
Hypothesis Hid : id = deriveID (fmtMAC (default macZero (parseMACKey (str_bytes mac)))) (snPsk a).

Lemma request_admissible lv c : sameSetup a lv -> isValidClientID (str_bytes id) = true -> cID c = id -> cMAC c = mac -> validInst (cInstance c) ->
  admissible sha deriveID (buildRequest sha lv c) a /\ qEncAlgo (buildRequest sha lv c) = if snEncrypt a then snEncAlgo a else encAlgoNone.
Proof using Hmac Hid.
  intros [S1 S2 S3 S4 S5] Hv C1 C2 C3. split.
  - split; cbn [buildRequest qPSK qEncrypt qEncAlgo qClientID qMAC qVersion qFEC qFecGroup qInstance]; rewrite ?S1, ?C1, ?C2; auto.
    + intros He _. rewrite S2, He. apply S3. congruence.
    + intros He. rewrite S2, He. apply S3. congruence.
    + intros Hf. rewrite Hf. by apply S5.
  - cbn [buildRequest qEncAlgo]. rewrite S2. destruct (snEncrypt a) eqn:E; [|done]. apply S3. congruence.
Qed.

(** The server resumes the session for an attempt. *)
Lemma try_resumes s x st t : abides id mac a s x st -> evOk a (CTry t) -> evFit a (CTry t) x = true -> 0 <= sEpoch s < 2 ^ 64 - 1 ->
  let c := xClient x in let q := buildRequest sha (tLive t) c in
  exists s0 s1 w', kin s s0 /\ resumeSession (tEnv t) q s0 = (s1, None) /\ token_inv s1 (stToken st) /\ token_inv s1 (responseResumeToken s1) /\
    let s2 := set_conns (sActiveConns s1 + 1) false (sConns s1) s1 in
    lockStep sha (tEnv t) (tConn t) (tryBefore id q t (xWorld x, xArmed x)).1 = (w', Some (inl (replyOf s2))) /\ holds id a None s2 w' /\ retained id w' = false.
Proof using Hmac Hid.
  intros HB (Hsu & Henv & _ & _) HF He c q. destruct HB as [HH HJ [W1 W2] HT Hm Hp Ha]. pose proof HJ as [_ (C1 & _ & _ & C4 & _) _ _].
  destruct (request_admissible (tLive t) c Hsu (ty_id _ _ HT) C1 W1 W2) as [HA Hq]. fold q in HA, Hq. unfold evFit in HF. rewrite (refresh_inStep _ _ _ _ _ HJ) in HF. cbv zeta in HF. fold c q in HF. fold c in C1. rewrite C1 in HF.
  apply andb_true_iff in HF as [HF Froom]. apply andb_true_iff in HF as [HF F4]. apply andb_true_iff in HF as [HF F3]. apply andb_true_iff in HF as [F1 F2].
  apply bool_decide_eq_true in F1. apply negb_true_iff, bool_decide_eq_false, eq_None_not_Some in F2.
  pose proof (own_begin id a s (xWorld x) (tConn t) q HH F1 F2) as H1. pose proof (holds_ops id a _ s (tOps1 t) (_, xArmed x) H1 F3) as H2.
  pose proof (own_check id a s _ (tConn t) q (tNow t) (tNow t) (tRemote t) H2 HA C1) as H3. pose proof (holds_ops id a _ s (tOps2 t) (_, _) H3 F4) as H4.
  change (fold_left (timedStep id) (tOps2 t) _) with (tryBefore id q t (xWorld x, xArmed x)) in H4. set (w := (tryBefore id q t (xWorld x, xArmed x)).1) in *. clearbody w.
  destruct (ho_ses _ _ _ _ _ H4) as (s0 & Hs0 & HK). rewrite Hs0 in Froom. pose proof (kin_inStep _ _ _ _ _ _ HK HJ) as HJ0. destruct HJ0 as [_ _ HT0 _].
  assert (sEpoch s0 = sEpoch s /\ sMAC s0 = sMAC s /\ sPskHash s0 = sPskHash s /\ sEncAlgo s0 = sEncAlgo s) as (K1 & K2 & K3 & K4) by (by destruct HK as (? & ? & ? & ? & ->)).
  destruct (token_step s0 (stToken st) (mkAttempt (cInstance c) (tEnv t) true) HT0 Henv) as (s1 & HR & R1 & R2 & R3 & R4). cbn [aInstance aEnv] in HR.
  assert (resumeSession (tEnv t) q s0 = (s1, None)) as HR' by (rewrite <- HR; apply resume_ext; [cbn [clientReq qEncAlgo]; congruence|done|exact C4]).
  destruct Henv as (_ & tok & Etok & _). destruct (own_lock id a s s0 s1 w (tConn t) q (tEnv t) H4 Hs0 C1) as (w' & L1 & L2 & L3); [|congruence|exact HR'|by rewrite Etok|lia| |].
  - rewrite K2, Hm. cbn [q buildRequest qMAC]. by rewrite <- W1.
  - intros Hi. cbn [q buildRequest qInstance] in Hi. rewrite bool_decide_true in Froom by done. cbn [negb orb] in Froom. by apply Z.ltb_lt in Froom.
  - exists s0, s1, w'. split_and!; done.
Qed.

Lemma reboot_who lv crash d c : cMAC c = mac /\ validInst (cInstance c) -> match crash with Some inst => validInst inst | None => True end ->
  cMAC (reboot lv crash d c) = mac /\ validInst (cInstance (reboot lv crash d c)).
Proof using. intros [H1 H2] Hc. destruct crash as [inst|]; [|done]. unfold reboot, NewClient. by destruct (_ && _). Qed.

Lemma try_abides s x st t : abides id mac a s x st -> evOk a (CTry t) -> evFit a (CTry t) x = true -> 0 <= sEpoch s < 2 ^ 64 - 1 ->
  exists x' s' st', tryStep t x = Some x' /\ abides id mac a s' x' st' /\ sUid s' = sUid s /\ sEpoch s <= sEpoch s' <= sEpoch s + 1.
Proof using Hsha Hctor Hmac Hid.
  intros HB HO HF He. destruct (try_resumes s x st t HB HO HF He) as (s0 & s1 & w' & HK & HR & T1 & T2 & HL & HH & Hre). set (s2 := set_conns _ _ _ s1) in *.
  destruct HB as [_ HJ HW HT Hm Hp Ha]. destruct HO as (Hsu & Henv & Hty & Hfate). unfold tryStep. rewrite (refresh_inStep _ _ _ _ _ HJ). pose proof HJ as [_ (C1 & _) _ _]. rewrite C1.
  destruct (tryBefore id _ t _) as [w armed]. cbn [fst] in HL. rewrite HL. set (c := xClient x) in *. set (q := buildRequest sha (tLive t) c) in *.
  assert (sEpoch s0 = sEpoch s /\ sUid s0 = sUid s /\ sMAC s0 = sMAC s /\ sPskHash s0 = sPskHash s /\ sEncAlgo s0 = sEncAlgo s) as (K1 & K2 & K3 & K4 & K5) by (by destruct HK as (? & ? & ? & ? & ->)).
  destruct (resume_response _ _ _ _ HR) as [Hu Hep]; [lia|]. destruct (resume_keeps _ _ _ _ HR) as (A1 & _ & _ & A2 & _).
  pose proof (resume_same_id (tEnv t) q s0) as [_ _ _ Hmac1 _]. rewrite HR in Hmac1. cbn [fst] in Hmac1.
  assert (ses_typed id s2) as HT2. { apply typed_conns. pose proof (typed_resume (tEnv t) q id s0 Hty (kin_typed _ _ _ HK HT)) as HX. by rewrite HR in HX. }
  assert (token_inv s2 (stToken st) /\ token_inv s2 (responseResumeToken s2)) as [T3 T4] by (by destruct T1, T2). pose proof (kin_inStep _ _ _ _ _ _ HK HJ) as HJ0.
  assert (inStep id s2 c (xDisk x) st) as HJ2.
  { destruct HJ0 as [(D1 & D2 & D3 & D4 & D5) HC _ HE]. split; [|by rewrite <- Hu in HC|done|]; [rewrite <- Hu in D3, D4; by split_and!|]. change (sEpoch s2) with (sEpoch s1). change (responseResumeToken s2) with (responseResumeToken s1).
    split; [destruct Hep as [[-> _]| ->]; lia|]. intros E. destruct Hep as [[H1 H2]|H1]; [|lia]. rewrite H2. apply HE. lia. }
  assert (forall c2 d2 st2, inStep id s2 c2 d2 st2 -> cMAC c2 = mac /\ validInst (cInstance c2) -> abides id mac a s2 (mkCrash w' (if retained id w' then armed else None) c2 d2) st2) as HB2.
  { intros c2 d2 st2 HJ3 HW2. split; auto; cbn [s2 set_conns sMAC sPskHash sEncAlgo]; congruence. }
  assert (sUid s2 = sUid s /\ sEpoch s <= sEpoch s2 <= sEpoch s + 1) as HE2. { change (sUid s2) with (sUid s1). change (sEpoch s2) with (sEpoch s1). split; [congruence|]. destruct Hep as [[-> _]| ->]; lia. }
  destruct (tFate t) as [crash|inst|crash].
  - eexists _, s2, st. split; [done|]. split; [|done]. apply HB2; [by apply reboot_inStep|by apply reboot_who].
  - eexists _, s2, st. split; [done|]. split; [|done]. apply HB2; [by apply (reboot_inStep _ _ _ _ _ _ (Some inst))|by apply (reboot_who _ (Some inst))].
  - pose proof Hsu as [U1 U2 U3 U4 _]. destruct (answer_accepted sha ng nc nx sidOf addrText gw4 gw6 (tLive t) c q id s2 Hsha Hctor (fun E => proj2 (U3 E)) U4 HT2) as (ks & -> & _).
    { change (sEncAlgo s2) with (sEncAlgo s1). rewrite A1, K5, Ha, <- U2. destruct (lEncrypt (tLive t)) eqn:E; [|done]. symmetry. by apply U3. }
    pose proof (save_inStep id s0 s2 c (xDisk x) st (tLive t) q ks HJ0 Hu T4 Hep) as HS. destruct (adoptSession _ _ ks c) as [[c1 effs] ks1] eqn:EA.
    destruct (adopt_session _ _ _ _ _ _ _ EA) as (_ & _ & _ & _ & _ & _ & B1 & B2 & _).
    change (rUid (replyOf s2)) with (sUid s2). change (rToken (replyOf s2)) with (responseResumeToken s2). change (rEpoch (replyOf s2)) with (sEpoch s2).
    pose proof (persist_who (sidOf (sUid s2)) (responseResumeToken s2) (sEpoch s2) true c1 (xDisk x)) as [P1 P2].
    destruct (persistSessionState _ _ _ _ c1 _) as [c2 d2]. cbn [fst] in P1, P2. eexists _, s2, _. split; [done|]. split; [|done].
    apply HB2; [by apply reboot_inStep|apply reboot_who; [rewrite P1, P2, B1, B2; exact HW|done]].
Qed.

Lemma ev_abides s x st e : abides id mac a s x st -> evOk a e -> evFit a e x = true -> 0 <= sEpoch s < 2 ^ 64 - 1 ->
  exists x' s' st', crashStep e x = Some x' /\ abides id mac a s' x' st' /\ sUid s' = sUid s /\ sEpoch s <= sEpoch s' <= sEpoch s + 1.
Proof using Hsha Hctor Hmac Hid.
  intros HB HO HF He. destruct e as [now op|inst|t]; [| |by apply (try_abides s x st)].
  - destruct HB as [HH HJ HW HT Hm Hp Ha]. pose proof HJ as [_ (C1 & _) _ _]. cbn [evFit crashStep] in *. rewrite C1 in *.
    pose proof (holds_ops id a None s [(now, op)] (xWorld x, xArmed x) HH HF) as HH'. cbn [fold_left] in HH'. destruct (timedStep id _ _) as [w armed].
    eexists _, s, st. split; [done|]. split; [by split|lia].
  - destruct HB as [HH HJ [W1 W2] HT Hm Hp Ha]. eexists _, s, st. split; [done|]. split; [|lia]. split; auto. by destruct HJ.
Qed.

Lemma run_abides es : forall s x st, abides id mac a s x st -> Forall (evOk a) es -> runFit a es x = true -> 0 <= sEpoch s -> sEpoch s + lenZ es < 2 ^ 64 - 1 ->
  exists x' s' st', crashRun es x = Some x' /\ abides id mac a s' x' st' /\ sUid s' = sUid s.
Proof using Hsha Hctor Hmac Hid.
  induction es as [|e es IH]; intros s x st HB HO HF H0 HL; [by exists x, s, st|]. apply Forall_cons_1 in HO as [Ho HO]. cbn [runFit] in HF. apply andb_true_iff in HF as [F1 F2].
  unfold lenZ in HL. cbn [length] in HL. destruct (ev_abides s x st e HB Ho F1 ltac:(lia)) as (x1 & s1 & st1 & E & HB1 & U1 & Hep). rewrite E in F2. cbn [crashRun]. rewrite E.
  destruct (IH s1 x1 st1 HB1 HO F2) as (x2 & s2 & st2 & R & HB2 & U2); [lia|unfold lenZ; lia|]. exists x2, s2, st2. split_and!; [done|done|congruence].
Qed.
End Survive.

(** A client with a session: its id is derived from its MAC, it is not banned and has no
    handshake in flight; the session is its own, under the PSK and the cipher of the
    server; and the identity file [st] holds the session, its epoch and its token. *)
Record resumable (id mac : string) (s : ClientSession) (st : clientState) (w : world) : Prop := {
  re_mac : isValidMACString (str_bytes mac) = true;
  re_id : id = deriveID (fmtMAC (default macZero (parseMACKey (str_bytes mac)))) (svPsk (srv w));
  re_ban : svBanned (srv w) !! id = None;
  re_fly : forall c h, flying w !! c = Some h -> qClientID (reqOf h) <> id;
  re_ses : activeClients (srv w) !! id = Some s;
  re_typed : ses_typed id s;
  re_own : sMAC s = fmtMAC (default macZero (parseMACKey (str_bytes mac))) /\ sPskHash s = hashPSK sha (svPsk (srv w)) /\
    sEncAlgo s = if svEncrypt (srv w) then svEncAlgo (srv w) else encAlgoNone;
  re_file : stClientID st = id /\ stSessionID st = sidOf (sUid s) /\ sidOf (sUid s) <> ""%string /\ stToken st = responseResumeToken s /\ stEpoch st = sEpoch s
}.

Lemma resumable_abides id mac inst conns s st w armed : resumable id mac s st w -> validInst inst -> 0 <= sEpoch s ->
  abides id mac (snapOf (srv w)) s (mkCrash w armed (NewClient true id mac inst conns (DState st)) (DState st)) st.
Proof using.
  intros [R1 R2 R3 R4 R5 R6 (R7 & R8 & R9) (F1 & F2 & F3 & F4 & F5)] Hi He. assert (token_inv s (responseResumeToken s)) as HT.
  { assert (sPendingToken s <> ""%string -> String.length (sPendingToken s) = 64%nat) as Hp by (intros Hn; by destruct (ty_pending _ _ R6)). split; [|apply R6|done]. by apply response_inv; [apply R6|]. }
  split; cbn [xWorld xClient xDisk]; auto.
  - split; [exists s; split; [done|apply kin_refl]|done|done| |done]. intros c h Hc. right. by apply (R4 c).
  - split; rewrite ?F4; auto; [split_and!; auto; by eapply token_nonempty| |by split; [lia|]].
    unfold NewClient. cbn [loadClientState negb from_option Datatypes.id]. rewrite F1, (bool_decide_true (id = id)), (bool_decide_false (stSessionID st = ""%string)) by congruence. cbn. by split_and!.
  - unfold NewClient. by destruct (_ && _).
Qed.
End Crashes.

(** C18: A client finds its session again after any crash.  A process that was started on
    the file of its session may fail to receive answers, be killed before it has written
    an answer down, be killed after, be started again, and open further connections, any
    number of times in any order, while the server works for others, ends connections of
    the client and runs out of numbers, also in the middle of the client's handshakes.
    Suppose that both ends keep the same PSK and cipher, that the client asks for an FEC
    group within the bounds of the server and its instances are well-formed, that it is
    neither banned nor kicked, that the random sources work, that the session is never
    without a connection for 120 seconds, and that a process that holds 16 counted
    connections asks for no more.  Then every attempt passes all checks of the server, is accepted by it and
    its answer by the client, however often the process was started anew; the session
    stays the same one; and the client ends with a token the server accepts. *)
Theorem client_survives_crashes (sha : bytes -> bytes) (ng nc nx : bytes -> option AEAD) (deriveID : bytes -> string -> string)
    (sidOf : nat -> string) (addrText : Z -> string) (gw4 gw6 : string)
    (id mac inst : string) (conns : Z) (w : world) (armed : option Z) (s : ClientSession) (st : clientState) (es : list crashEv) :
  (forall b, length (sha b) = 32%nat) ->
  (forall al l n key, algoLabel al = Some (l, n) -> length key = n -> exists a, newPrimitive ng nc nx al key = Some a /\ Overhead a = aeadTagSize) ->
  resumable sha deriveID sidOf id mac s st w -> validInst inst -> 0 <= sEpoch s -> sEpoch s + lenZ es < 2 ^ 64 - 1 ->
  let a := snapOf (srv w) in let x := mkCrash w armed (NewClient true id mac inst conns (DState st)) (DState st) in
  Forall (evOk a) es -> runFit sha ng nc nx deriveID sidOf addrText gw4 gw6 a es x = true ->
  exists x' s', crashRun sha ng nc nx deriveID sidOf addrText gw4 gw6 es x = Some x' /\
    activeClients (srv (xWorld x')) !! id = Some s' /\ sUid s' = sUid s /\ cSession (xClient x') = sidOf (sUid s) /\ tokenMatches s' (cToken (xClient x')).
Proof.
  intros Hsha Hctor HR Hi He HL a x HO HF. pose proof (resumable_abides sha deriveID sidOf id mac inst conns s st w armed HR Hi He) as HB. fold a x in HB.
  destruct (run_abides sha ng nc nx deriveID sidOf addrText gw4 gw6 Hsha Hctor id mac a (re_mac _ _ _ _ _ _ _ _ HR) (re_id _ _ _ _ _ _ _ _ HR) es s x st HB HO HF He HL) as (x' & s' & st' & E & [HH HJ _ _ _ _ _] & HU).
  destruct (ho_ses _ _ _ _ _ HH) as (s2 & H2 & HK). pose proof (kin_inStep _ _ _ _ _ _ _ HK HJ) as [_ (_ & _ & C3 & C4 & _) [T _ _] _].
  assert (sUid s2 = sUid s') as HU2 by (by destruct HK as (? & ? & ? & ? & ->)). exists x', s2. rewrite C4. split_and!; [done|done|congruence|congruence|done].
Qed.

(** ** Witnesses *)

Definition agreeClient : Client := NewClient true (demoDerive [] "") "02:00:00:00:00:01" demoInst1 2 DAbsent.
Definition agreeServer : Server := srv demoWorld.
Definition agreeEnv : hsEnv := typedEnv (Some (demoTok "1")).
Definition agreeRun (sv : Server) (q : HandshakeReq) : Server * (hsReply + refusal) :=
  match checkRequest demoSha demoDerive (snapOf sv) 0 0 "10.0.0.9" q sv with
  | (sv1, None) => lockedHandshake demoSha (snapOf sv) agreeEnv 0%nat q sv1
  | (sv1, Some e) => (sv1, inr e)
  end.
Definition agreeReq : HandshakeReq := buildRequest demoSha (demoLive true 8) agreeClient.
Definition demoSid (n : nat) : string := if (n =? 0)%nat then "a" else "b".
Definition demoAddr (_ : Z) : string := "10.0.0.2/24".

Lemma demoSha_length b : length (demoSha b) = 32%nat.
Proof. unfold demoSha, zeros. rewrite length_fmap, length_take, length_app, length_replicate. lia. Qed.
Lemma demoSha_bytes b : length (demoSha b) = 32%nat /\ Forall is_u8 (demoSha b).
Proof. split; [apply demoSha_length|]. unfold demoSha. apply Forall_fmap, Forall_forall. intros x _. cbn. pose proof (Z.mod_pos_bound x 256). widths. lia. Qed.
Lemma demoMake_ctor al l n key : algoLabel al = Some (l, n) -> length key = n -> exists a, newPrimitive demoMake demoMake demoMake al key = Some a /\ Overhead a = aeadTagSize.
Proof. intros _ _. exists demoAEAD. split; [|reflexivity]. unfold newPrimitive. destruct (_ || _); [reflexivity|]. destruct (_ =? _); reflexivity. Qed.

Lemma handshake_agreement_witness :
  match agreeRun agreeServer agreeReq with
  | (_, inl rep) => exists ks, kTx ks = kRx (serverKeys demoSha demoMake demoMake demoMake "pw" rep)
  | (_, inr _) => False
  end.
Proof.
  unfold agreeRun. destruct (checkRequest demoSha demoDerive (snapOf agreeServer) 0 0 "10.0.0.9" agreeReq agreeServer) as [sv1 [e|]] eqn:EC; [vm_compute in EC; discriminate EC|].
  destruct (lockedHandshake demoSha (snapOf agreeServer) agreeEnv 0%nat agreeReq sv1) as [sv2 [rep|e]] eqn:EL.
  - destruct (handshake_agreement demoSha demoMake demoMake demoMake demoDerive demoSid demoAddr "g4" "g6" 0 0 "10.0.0.9" agreeEnv 0%nat
      (demoLive true 8) agreeClient agreeServer agreeServer sv1 sv1 sv2 rep) as (c' & effs & ks & _ & H & _).
    + exact demoSha_bytes.
    + exact demoMake_ctor.
    + intros _. reflexivity.
    + split; [done|]. split; vm_compute; discriminate.
    + destruct (checked_guards _ _ _ _ _ _ _ _ _ _ EC) as (b & f & r & ->). split; [split; [done|]; split; vm_compute; discriminate|]. intros i t. cbn. by rewrite lookup_empty.
    + by apply typedEnv_ok.
    + intros _. reflexivity.
    + intros _. reflexivity.
    + exact EC.
    + exact EL.
    + exists ks. exact H.
  - clear -EC EL. vm_compute in EC. injection EC as <-. vm_compute in EL. discriminate EL.
Defined.

(** A client whose session has one connection, and what may happen to it: seventeen
    processes one after the other while no connection ends, a lost answer, a saved one,
    the end of a connection, the timer before its time, and somebody else's handshake
    in the middle of one of its own. *)
Definition crashOps : list svOp := demoHandshake 0 agreeEnv 0%nat (demoReq demoInst1 "").
Definition crashWorld : world := svExec demoSha demoDerive crashOps demoWorld.
Definition crashSession : ClientSession := default demoSession (activeClients (srv crashWorld) !! demoDerive [] "").
Definition crashState : clientState := mkCState (demoDerive [] "") "" "b" (demoTok "1") 1.
Definition crashTry (conn : nat) (ops : list (Z * svOp)) (f : fate) : crashEv := CTry (mkTry (demoLive true 8) conn "h" 0 ops [] (typedEnv (Some (demoTok "2"))) f).
Definition crashInst (n : nat) : string := if Nat.even n then demoInst2 else demoInst1.
Definition otherReq : HandshakeReq := mkReq 3 demoInst1 "other" (demoHashPSK "pw") "02:00:00:00:00:07" None None false 0 true encAlgoGCM "".
Definition crashEvs : list crashEv :=
  ((fun n => crashTry n [] (FKilled (crashInst n))) <$> seq 1 17) ++
  [crashTry 20 [(5, SBegin 99 otherReq); (6, SCheck 6 6 "h" 99)] (FLost None); crashTry 21 [] (FSaved None); CServer 7 (SConnEnd 21); CServer 8 (SConnEnd 20);
   CServer 9 (STimer 1 (demoDerive [] "")); crashTry 22 [] (FSaved None); CExhausted demoInst1; crashTry 23 [] (FSaved (Some demoInst2))].
Definition crashStart : crashSys := mkCrash crashWorld None (NewClient true (demoDerive [] "") "02:00:00:00:00:09" demoInst2 2 (DState crashState)) (DState crashState).

Lemma crash_session : activeClients (srv crashWorld) !! demoDerive [] "" = Some crashSession.
Proof. vm_compute. reflexivity. Qed.

Lemma crash_resumable : resumable demoSha demoDerive demoSid (demoDerive [] "") "02:00:00:00:00:09" crashSession crashState crashWorld.
Proof.
  split; [vm_compute; reflexivity|vm_compute; reflexivity|vm_compute; reflexivity| |exact crash_session| |split_and!; vm_compute; reflexivity|split_and!; vm_compute; congruence].
  - intros c h Hc. assert (flying crashWorld = ∅) as E by (vm_compute; reflexivity). rewrite E, lookup_empty in Hc. discriminate Hc.
  - assert (each cfgTyped ses_typed (srv crashWorld)) as HE; [|exact (ea_all _ _ _ HE _ _ crash_session)]. apply typed_exec.
    + apply each_new. split; [done|]. split; vm_compute; discriminate.
    + repeat (apply Forall_cons; split; [first [by apply typedEnv_ok|exact I]|]). by apply Forall_nil.
Qed.

Lemma crash_evs_ok : Forall (evOk (snapOf (srv crashWorld))) crashEvs.
Proof.
  assert (sameSetup (snapOf (srv crashWorld)) (demoLive true 8)) as HS by (split; try (intros; vm_compute; split; congruence); vm_compute; reflexivity).
  assert (forall conn ops f, match f with FLost (Some i) | FKilled i | FSaved (Some i) => validInst i | _ => True end -> evOk (snapOf (srv crashWorld)) (crashTry conn ops f)) as HT.
  { intros conn ops f Hf. split; [exact HS|]. split; [split; [done|by eexists]|]. split; [by apply typedEnv_ok|exact Hf]. }
  apply Forall_app. split.
  - apply Forall_fmap, Forall_forall. intros n _. apply HT. unfold crashInst. by destruct (Nat.even n).
  - repeat (apply Forall_cons; split; [first [exact I|by apply HT|by vm_compute]|]). by apply Forall_nil.
Qed.

Lemma client_survives_crashes_witness :
  match crashRun demoSha demoMake demoMake demoMake demoDerive demoSid demoAddr "g4" "g6" crashEvs crashStart with
  | Some x' => exists s', activeClients (srv (xWorld x')) !! demoDerive [] "" = Some s' /\ sUid s' = 1%nat /\ tokenMatches s' (cToken (xClient x'))
  | None => False
  end.
Proof.
  destruct (client_survives_crashes demoSha demoMake demoMake demoMake demoDerive demoSid demoAddr "g4" "g6" (demoDerive [] "") "02:00:00:00:00:09" demoInst2 2
    crashWorld None crashSession crashState crashEvs) as (x' & s' & E & H1 & H2 & _ & H3).
  - exact demoSha_length.
  - exact demoMake_ctor.
  - exact crash_resumable.
  - reflexivity.
  - vm_compute. discriminate.
  - vm_compute. reflexivity.
  - exact crash_evs_ok.
  - vm_compute. reflexivity.
  - fold crashStart in E. rewrite E. exists s'. split; [exact H1|]. split; [rewrite H2; vm_compute; reflexivity|exact H3].
Defined.

(** Too late: after 120 seconds without a connection the timer destroys the session, and
    the client, with the token of the old one, is given a new one. *)
Lemma late_client_starts_anew :
  match crashRun demoSha demoMake demoMake demoMake demoDerive demoSid demoAddr "g4" "g6"
    [CServer 7 (SConnEnd 0); CServer (7 + sessionRetention) (STimer 1 (demoDerive [] "")); crashTry 1 [] (FSaved None)] crashStart with
  | Some x' => match activeClients (srv (xWorld x')) !! demoDerive [] "" with Some s' => sUid s' = 2%nat /\ sEpoch s' = 1 | None => False end
  | None => False
  end.
Proof. vm_compute. done. Qed.

(** A client that turns FEC off and joins its session again is accepted, the session keeps
    its group size, and so the server sends controls that the client's reader answers by
    closing the connection. *)
Lemma fec_off_joins_fec_session :
  let accept lv := acceptResponse demoSha demoMake demoMake demoMake lv in
  let c1 := match agreeRun agreeServer agreeReq with
            | (sv, inl rep) =>
              match accept (demoLive true 8) (Some (sendResp demoSid demoAddr "g4" "g6" agreeReq rep)) agreeClient with
              | inl (c, _, _) => Some (sv, c)
              | inr _ => None
              end
            | (_, inr _) => None
            end in
  match c1 with
  | Some (sv, c) =>
    let q := buildRequest demoSha (demoLive false 8) c in
    match agreeRun sv q with
    | (_, inl rep) =>
      match accept (demoLive false 8) (Some (sendResp demoSid demoAddr "g4" "g6" q rep)) c with
      | inl (_, _, ks) => kUseFec ks = false /\ kUseFec (serverKeys demoSha demoMake demoMake demoMake "pw" rep) = true
      | inr _ => False
      end
    | (_, inr _) => False
    end
  | None => False
  end.
Proof. vm_compute. done. Qed.
