(* ===== verification/Brutal.v ===== *)
(** * Rate shaping (brutal.go, with the negotiation of server.go and client.go)

    TCP Brutal is a congestion-control module that sends at a fixed rate.  The two ends
    agree on a rate per direction, split it over the connections of a session (or name
    a kernel group that shares it), and program each socket through an interface with
    five operations.  The interface is the source's brutalSocketOps: a class over the
    state of a socket, whose laws are the documented behaviour of socket options. *)

From stdpp Require Import base tactics list numbers list_numbers strings.
From S2P Require Import Prelude Aead.
#[local] Open Scope Z_scope.

Definition brutalV2Version : Z := 131072.
Definition brutalDefaultCwndGain : Z := 20.
Definition maxBrutalRateMbps : Z := 1000000.

(** Rates in megabits per second, and in bytes per second. *)
Definition brutalMbpsToBps (rateMbps : Z) : option Z :=
  if rateMbps =? 0 then None else if maxBrutalRateMbps <? rateMbps then None else Some (u64 (rateMbps * 1000000) / 8).
Definition brutalBpsToMbps (rateBps : Z) : Z := u64 (rateBps * 8) / 1000000.

(** binary.LittleEndian. *)
Definition le_enc (n : nat) (v : Z) : bytes := reverse (be_enc n v).
Definition le_dec (b : bytes) : Z := be_dec (reverse b).

Definition encodeBrutalParamsBps (rateBps gain groupID : Z) (withGroup : bool) : option bytes :=
  if (rateBps =? 0) || (maxBrutalRateMbps * 1000000 / 8 <? rateBps) then None
  else Some (le_enc 8 rateBps ++ le_enc 4 gain ++ if withGroup then le_enc 8 groupID else []).
Definition encodeBrutalParams (rateMbps gain groupID : Z) (withGroup : bool) : option bytes :=
  match brutalMbpsToBps rateMbps with Some r => encodeBrutalParamsBps r gain groupID withGroup | None => None end.

Definition decodeBrutalParamsBps (b : bytes) : option (Z * Z * Z) :=
  if negb (length b =? 12)%nat && negb (length b =? 20)%nat then None
  else Some (le_dec (take 8 b), le_dec (take 4 (drop 8 b)), if (length b =? 20)%nat then le_dec (take 8 (drop 12 b)) else 0).
Definition decodeBrutalParams (b : bytes) : option (Z * Z * Z) :=
  (fun '(r, g, i) => (brutalBpsToMbps r, g, i)) <$> decodeBrutalParamsBps b.

(** ** Shares of a session's rate *)

Definition splitLegacyBrutalRate (total conns index : Z) : Z :=
  if (total =? 0) || (conns <=? 0) || (index <? 0) || (conns <=? index) then 0
  else total / conns + (if index <? total mod conns then 1 else 0).
Definition splitLegacyBrutalRateBps (totalMbps conns index : Z) : Z :=
  if (totalMbps =? 0) || (conns <=? 0) || (index <? 0) || (conns <=? index) then 0
  else let totalBps := u64 (totalMbps * 1000000) / 8 in
       totalBps / conns + (if index <? totalBps mod conns then 1 else 0).

(** brutalGroupID: the first eight bytes of a digest, never zero. *)
Definition brutalGroupID (sha256 : bytes -> bytes) (domain identity : bytes) : Z :=
  let id := le_dec (take 8 (sha256 (str_bytes "tlsvpn/brutal/" ++ domain ++ [0] ++ identity))) in
  if id =? 0 then 1 else id.

(** negotiateBrutalRates: (server to client, client to server). *)
Definition negotiateBrutalRates (serverUp serverDown cliTx cliRx : Z) : Z * Z :=
  (if (0 <? cliRx) && ((serverDown =? 0) || (cliRx <? serverDown)) then cliRx else serverDown,
   if (0 <? cliTx) && ((serverUp =? 0) || (cliTx <? serverUp)) then cliTx else serverUp).

(** What a request offers. *)
Record brutalOffer := mkOffer { oGroups : bool; oConns : Z; oIndex : Z; oTotalTx : Z; oTotalRx : Z }.

Definition groupOffer (o : brutalOffer) : bool :=
  oGroups o && (0 <? oConns o) && (oConns o <=? 65536) && (0 <=? oIndex o) && (oIndex o <? oConns o) &&
  (oTotalTx o <=? maxBrutalRateMbps) && (oTotalRx o <=? maxBrutalRateMbps).

(** The server's side of a handshake: its own rate, the client's, and the share of
    this connection on a module without groups. *)
Definition serverRates (brutalUp brutalDown : Z) (o : brutalOffer) : Z * Z * Z :=
  if groupOffer o then
    let '(stx, ctx) := negotiateBrutalRates brutalUp brutalDown (oTotalTx o) (oTotalRx o) in
    (stx, ctx, splitLegacyBrutalRateBps stx (oConns o) (oIndex o))
  else
    let '(stx, ctx) := negotiateBrutalRates brutalUp brutalDown 0 0 in
    (stx, ctx, default 0 (brutalMbpsToBps stx)).

(** The client's side, after the answer: nothing, or the total and this connection's
    share. *)
Definition clientRates (brutal : bool) (brutalUp conns index : Z) (respGroups : bool) (respTotalTx : Z) : option (Z * Z) :=
  let own := splitLegacyBrutalRateBps brutalUp conns index in
  if brutal && (0 <? own) then
    Some (if respGroups && (0 <? respTotalTx) then (respTotalTx, splitLegacyBrutalRateBps respTotalTx conns index) else (brutalUp, own))
  else None.

(** ** Programming a socket *)

Inductive brutalErr := errBrutalLocked | errBrutalNoVersion | errOther.
#[export] Instance brutalErr_eq : EqDecision brutalErr.
Proof. solve_decision. Defined.

Class brutalSocketOps (K : Type) := {
  setCongestion : string -> K -> K * option brutalErr;
  getCongestion : K -> string * option brutalErr;
  getVersion : K -> Z * option brutalErr;
  setParams : bytes -> K -> K * option brutalErr;
  getParams : nat -> K -> brutalErr + bytes
}.

(** The texts of brutalApplyResult.Error. *)
Inductive brutalMsg :=
| MsgNone | MsgZeroRate | MsgTooFast | MsgCongestion | MsgLockedOther | MsgVersion | MsgZeroShare | MsgRange | MsgParams | MsgLockedRate | MsgReadback.

Record brutalApplyResult := mkApply {
  Attempted : bool; Applied : bool; RuleManaged : bool; Version : Z; RateBps : Z; RateMbps : Z; CwndGain : Z; GroupID : Z; Error : brutalMsg
}.

Section Configure.
Context {K : Type} `{brutalSocketOps K}.

Definition restoreCongestion (previous : string) (k : K) : K :=
  if bool_decide (previous <> ""%string) && bool_decide (previous <> "brutal"%string) then (setCongestion previous k).1 else k.

(** The error of a decode counts as an ordinary one. *)
Definition readBrutalParams (version : Z) (k : K) : brutalErr + (Z * Z * Z) :=
  match getParams (if brutalV2Version <=? version then 20%nat else 12%nat) k with
  | inl e => inl e
  | inr b => match decodeBrutalParamsBps b with Some r => inr r | None => inl errOther end
  end.

Definition failed (ruled : bool) (version group : Z) (m : brutalMsg) : brutalApplyResult :=
  mkApply true false ruled version 0 0 brutalDefaultCwndGain group m.

(** After the parameters: what the socket says it does. *)
Definition reportParams (ruled : bool) (version group rateBps : Z) (k : K) : brutalApplyResult :=
  match readBrutalParams version k with
  | inr (r, g, i) => mkApply true true ruled version r (brutalBpsToMbps r) g i MsgNone
  | inl e =>
    if ruled && bool_decide (e = errBrutalLocked) then mkApply true true ruled version 0 0 brutalDefaultCwndGain 0 MsgLockedRate
    else mkApply true true ruled version rateBps (brutalBpsToMbps rateBps) brutalDefaultCwndGain group MsgReadback
  end.

(** From the choice of the rate on, with the congestion control taken over. *)
Definition programParams (previous : string) (ruled : bool) (version totalRate legacyRateBps groupID : Z) (k : K) : K * brutalApplyResult :=
  let useGroup := (brutalV2Version <=? version) && negb (groupID =? 0) in
  let rateBps := if useGroup then default 0 (brutalMbpsToBps totalRate) else legacyRateBps in
  let group := if useGroup then groupID else 0 in
  if rateBps =? 0 then (restoreCongestion previous k, failed ruled version group MsgZeroShare) else
  match encodeBrutalParamsBps rateBps brutalDefaultCwndGain group useGroup with
  | None => (restoreCongestion previous k, failed ruled version group MsgRange)
  | Some params =>
    match setParams params k with
    | (k, None) => (k, reportParams ruled version group rateBps k)
    | (k, Some errBrutalLocked) => (k, reportParams true version group rateBps k)
    | (k, Some _) => (restoreCongestion previous k, failed ruled version group MsgParams)
    end
  end.

Definition configureTCPBrutal (totalRate legacyRateBps groupID : Z) (k : K) : K * brutalApplyResult :=
  if totalRate =? 0 then (k, failed false 0 0 MsgZeroRate) else
  match brutalMbpsToBps totalRate with
  | None => (k, failed false 0 0 MsgTooFast)
  | Some _ =>
    let previous := (getCongestion k).1 in
    let takeVersion (ruled : bool) (k : K) :=
      match getVersion k with
      | (version, (None | Some errBrutalNoVersion)) => programParams previous ruled version totalRate legacyRateBps groupID k
      | _ => (restoreCongestion previous k, failed ruled 0 0 MsgVersion)
      end in
    match setCongestion "brutal" k with
    | (k, None) => takeVersion false k
    | (k, Some errBrutalLocked) =>
      let '(current, e) := getCongestion k in
      if bool_decide (e = None) && bool_decide (current = "brutal"%string) then takeVersion true k else (k, failed false 0 0 MsgLockedOther)
    | (k, Some _) => (k, failed false 0 0 MsgCongestion)
    end
  end.

End Configure.

(** ** Shares *)

Definition sumZ (l : list Z) : Z := foldr Z.add 0 l.

Lemma sumZ_app a b : sumZ (a ++ b) = sumZ a + sumZ b.
Proof. unfold sumZ. induction a as [|x a IH]; cbn; [done|]. rewrite IH. lia. Qed.

(** The first [m] shares of a division with remainder. *)
Lemma shares_sum q r n (m : nat) : 0 <= r < n -> sumZ ((fun i => q + (if i <? r then 1 else 0)) <$> seqZ 0 (Z.of_nat m)) = Z.of_nat m * q + Z.min (Z.of_nat m) r.
Proof.
  intros Hr. induction m as [|m IH]; [by rewrite Z.min_l by lia|]. replace (Z.of_nat (S m)) with (Z.of_nat m + 1) by lia. rewrite seqZ_app by lia.
  rewrite fmap_app, sumZ_app, IH, seqZ_cons by lia. replace (Z.pred 1) with 0 by lia. rewrite seqZ_nil by lia. cbn [fmap list_fmap sumZ foldr]. rewrite Z.add_0_l. destruct (Z.ltb_spec (Z.of_nat m) r); lia.
Qed.

Lemma mbps_small m : 0 <= m <= maxBrutalRateMbps -> u64 (m * 1000000) / 8 = m * 125000.
Proof.
  unfold maxBrutalRateMbps. intros Hm. rewrite u64_small by (widths; lia). replace (m * 1000000) with (m * 125000 * 8) by lia. by rewrite Z.div_mul.
Qed.

Lemma shares_exact total n : 0 <= total <= maxBrutalRateMbps -> 1 <= n -> sumZ (splitLegacyBrutalRateBps total n <$> seqZ 0 n) = total * 125000.
Proof.
  intros Ht Hn. destruct (decide (total = 0)) as [->|Hne].
  - rewrite Z.mul_0_l. unfold splitLegacyBrutalRateBps, sumZ. cbn. induction (seqZ 0 n) as [|i l IH]; cbn; [done|]. by rewrite IH.
  - set (T := total * 125000). rewrite (list_fmap_ext (splitLegacyBrutalRateBps total n) (fun i => T / n + (if i <? T mod n then 1 else 0)) (seqZ 0 n)).
    + pose proof (shares_sum (T / n) (T mod n) n (Z.to_nat n)) as HS. rewrite Z2Nat.id in HS by lia. rewrite HS by (apply Z.mod_pos_bound; lia).
      pose proof (Z.mod_pos_bound T n). pose proof (Z.div_mod T n). lia.
    + intros j i Hi. apply lookup_seqZ in Hi as [-> Hj]. unfold splitLegacyBrutalRateBps. rewrite mbps_small by done. fold T.
      destruct (Z.eqb_spec total 0), (Z.leb_spec n 0), (Z.ltb_spec (0 + Z.of_nat j) 0), (Z.leb_spec n (0 + Z.of_nat j)); try lia. done.
Qed.

Lemma share_positive total n i : 1 <= total <= maxBrutalRateMbps -> 1 <= n <= 65536 -> 0 <= i < n -> 0 < splitLegacyBrutalRateBps total n i.
Proof.
  intros Ht Hn Hi. unfold splitLegacyBrutalRateBps. rewrite mbps_small by lia.
  destruct (Z.eqb_spec total 0), (Z.leb_spec n 0), (Z.ltb_spec i 0), (Z.leb_spec n i); try lia. cbn.
  assert (1 <= total * 125000 / n) by (apply Z.div_le_lower_bound; lia). destruct (i <? _); lia.
Qed.

Lemma negotiate_within up down tx rx : 0 <= tx -> 0 <= rx -> 0 < up -> 0 < down -> let '(s, c) := negotiateBrutalRates up down tx rx in
  0 < s <= down /\ 0 < c <= up /\ (0 < rx -> s <= rx) /\ (0 < tx -> c <= tx) /\ (rx <= down -> 0 < rx -> s = rx) /\ (tx <= up -> 0 < tx -> c = tx).
Proof.
  intros H1 H2 H3 H4. unfold negotiateBrutalRates.
  destruct (Z.ltb_spec 0 rx), (Z.ltb_spec 0 tx), (Z.eqb_spec down 0), (Z.eqb_spec up 0), (Z.ltb_spec rx down), (Z.ltb_spec tx up); cbn; lia.
Qed.

(** C30: The budget of a session.  For a client with [n] connections that offers its rates
    and a server with its own, the shares that the server programs on the [n]
    connections add up, to the byte, to the server-to-client rate, those of the client
    to the client-to-server rate, and the two rates lie within the budgets of both ends
    for their own direction. *)
Theorem brutal_budget (up down cliUp cliDown n : Z) :
  0 < up <= maxBrutalRateMbps -> 0 < down <= maxBrutalRateMbps -> 0 < cliUp <= maxBrutalRateMbps -> 0 < cliDown <= maxBrutalRateMbps -> 1 <= n <= 65536 ->
  let offer i := mkOffer true n i cliUp cliDown in
  exists s c, (forall i, 0 <= i < n -> (serverRates up down (offer i)).1 = (s, c)) /\
    s = Z.min down cliDown /\ c = Z.min up cliUp /\
    sumZ ((fun i => (serverRates up down (offer i)).2) <$> seqZ 0 n) = s * 125000 /\
    sumZ ((fun i => default 0 (snd <$> clientRates true cliUp n i true c)) <$> seqZ 0 n) = c * 125000.
Proof.
  intros Hu Hd Hcu Hcd Hn offer. pose proof (negotiate_within up down cliUp cliDown) as HN.
  assert (forall i, 0 <= i < n -> groupOffer (offer i) = true) as HG.
  { intros i Hi. unfold groupOffer. cbn. rewrite !andb_true_iff. repeat split; lia. }
  destruct (negotiateBrutalRates up down cliUp cliDown) as [s c] eqn:EN. destruct HN as (H1 & H2 & H3 & H4 & H5 & H6); [lia..|].
  assert (s = Z.min down cliDown /\ c = Z.min up cliUp) as [-> ->].
  { unfold negotiateBrutalRates in EN. injection EN as <- <-.
    destruct (Z.ltb_spec 0 cliDown), (Z.ltb_spec 0 cliUp), (Z.eqb_spec down 0), (Z.eqb_spec up 0), (Z.ltb_spec cliDown down), (Z.ltb_spec cliUp up); cbn; lia. }
  exists (Z.min down cliDown), (Z.min up cliUp). split_and!; [|done|done| |].
  - intros i Hi. unfold serverRates. rewrite (HG i Hi). cbn [offer oTotalTx oTotalRx]. by rewrite EN.
  - rewrite <- (shares_exact (Z.min down cliDown) n) by lia. f_equal. apply list_fmap_ext. intros j i Hi. apply lookup_seqZ in Hi as [-> Hj].
    unfold serverRates. rewrite HG by lia. cbn [offer oTotalTx oTotalRx]. by rewrite EN.
  - rewrite <- (shares_exact (Z.min up cliUp) n) by lia. f_equal. apply list_fmap_ext. intros j i Hi. apply lookup_seqZ in Hi as [-> Hj].
    unfold clientRates. pose proof (share_positive cliUp n (0 + Z.of_nat j)). cbn [andb].
    destruct (Z.ltb_spec 0 (splitLegacyBrutalRateBps cliUp n (0 + Z.of_nat j))); [|lia]. destruct (Z.ltb_spec 0 (Z.min up cliUp)); [done|lia].
Qed.

Lemma brutal_budget_witness : exists s c, s = 300 /\ c = 50 /\
  sumZ ((fun i => default 0 (snd <$> clientRates true 80 3 i true c)) <$> seqZ 0 3) = c * 125000.
Proof.
  destruct (brutal_budget 50 500 80 300 3) as (s & c & _ & Hs & Hc & _ & H); [unfold maxBrutalRateMbps; lia..|lia|]. exists s, c. split_and!; [by rewrite Hs|by rewrite Hc|exact H].
Defined.

(** ** Parameters *)

Lemma le_dec_enc n v : 0 <= v < 256 ^ Z.of_nat n -> le_dec (le_enc n v) = v.
Proof. intros Hv. unfold le_dec, le_enc. rewrite reverse_involutive, be_dec_enc by lia. apply Z.mod_small. lia. Qed.

Lemma length_le_enc n v : length (le_enc n v) = n.
Proof. unfold le_enc. by rewrite length_reverse, length_be_enc. Qed.

Lemma params_roundtrip r g i withGroup b : is_u64 r -> is_u32 g -> is_u64 i -> encodeBrutalParamsBps r g i withGroup = Some b ->
  decodeBrutalParamsBps b = Some (r, g, if withGroup then i else 0) /\ length b = (if withGroup then 20 else 12)%nat.
Proof.
  intros Hr Hg Hi E. unfold encodeBrutalParamsBps in E. destruct ((r =? 0) || _); [done|]. apply (inj Some) in E as <-.
  set (tl := if withGroup then le_enc 8 i else []). assert (length tl = if withGroup then 8 else 0)%nat as Hl by (unfold tl; destruct withGroup; [apply length_le_enc|done]).
  assert (length (le_enc 8 r ++ le_enc 4 g ++ tl) = if withGroup then 20 else 12)%nat as HL by (rewrite !length_app, !length_le_enc, Hl; by destruct withGroup).
  split; [|done]. unfold decodeBrutalParamsBps. rewrite HL.
  assert (take 8 (le_enc 8 r ++ le_enc 4 g ++ tl) = le_enc 8 r) as -> by (apply take_app_length'; by rewrite length_le_enc).
  assert (drop 8 (le_enc 8 r ++ le_enc 4 g ++ tl) = le_enc 4 g ++ tl) as -> by (apply drop_app_length'; by rewrite length_le_enc).
  assert (take 4 (le_enc 4 g ++ tl) = le_enc 4 g) as -> by (apply take_app_length'; by rewrite length_le_enc).
  assert (drop 12 (le_enc 8 r ++ le_enc 4 g ++ tl) = tl) as -> by (rewrite (assoc_L (++)); apply drop_app_length'; by rewrite length_app, !length_le_enc).
  rewrite !le_dec_enc by (widths; lia). destruct withGroup; cbn [negb andb]; [|done]. change (20 =? 12)%nat with false. change (20 =? 20)%nat with true. cbn [negb andb].
  unfold tl. rewrite take_ge by (by rewrite length_le_enc). rewrite le_dec_enc by (widths; lia). done.
Qed.

(** ** The socket afterwards *)

(** Documented behaviour of the options: a call that fails changes nothing, one that
    succeeds is read back, and an algorithm that was in use may be chosen again. *)
Class BrutalLaws (K : Type) `{brutalSocketOps K} := {
  congestion_fails : forall name (k k' : K) e, setCongestion name k = (k', Some e) -> k' = k;
  congestion_reads : forall name (k k' : K), setCongestion name k = (k', None) -> getCongestion k' = (name, None);
  congestion_back : forall prev (k k' : K), getCongestion k = (prev, None) -> setCongestion "brutal" k = (k', None) ->
    exists k'', setCongestion prev k' = (k'', None);
  params_fails : forall b (k k' : K) e, setParams b k = (k', Some e) -> k' = k;
  params_keeps : forall b (k k' : K), setParams b k = (k', None) -> getCongestion k' = getCongestion k;
  params_reads : forall b (k k' : K), setParams b k = (k', None) -> getParams (length b) k' = inr b
}.

Section Laws.
Context {K : Type} `{BrutalLaws K}.

Lemma restores prev (k : K) : getCongestion k = ("brutal"%string, None) -> prev <> ""%string ->
  (prev <> "brutal"%string -> exists k', setCongestion prev k = (k', None)) -> (getCongestion (restoreCongestion prev k)).1 = prev.
Proof.
  intros Hk Hne Hb. unfold restoreCongestion. rewrite (bool_decide_true (prev <> ""%string)) by done. cbn [andb].
  case_bool_decide as Hp; [|rewrite Hk; cbn; by destruct (decide (prev = "brutal"%string))]. destruct (Hb Hp) as [k' E]. rewrite E. cbn. by rewrite (congestion_reads _ _ _ E).
Qed.

Lemma program_falls_back prev ruled v total legacy g (k : K) : getCongestion k = ("brutal"%string, None) -> prev <> ""%string ->
  (prev <> "brutal"%string -> exists k', setCongestion prev k = (k', None)) ->
  let '(k', r) := programParams prev ruled v total legacy g k in Applied r = false -> (getCongestion k').1 = prev.
Proof.
  intros Hk Hne Hb. unfold programParams. set (ug := (brutalV2Version <=? v) && negb (g =? 0)). set (rate := if ug then _ else legacy).
  destruct (rate =? 0); [intros _; by apply restores|]. destruct (encodeBrutalParamsBps _ _ _ ug) as [b|]; [|intros _; by apply restores].
  assert (forall r i, Applied (reportParams r v i rate (setParams b k).1) = true) as HA.
  { intros r i. unfold reportParams. destruct (readBrutalParams _ _) as [e|[[x y] z]]; [by destruct (r && _)|done]. }
  destruct (setParams b k) as [k' [e|]] eqn:Es; cbn [fst] in HA.
  - pose proof (params_fails _ _ _ _ Es) as ->. destruct e; [by rewrite HA|intros _; by apply restores..].
  - by rewrite HA.
Qed.

(** Shaping fails safely.  On a socket whose options behave as documented, an attempt
    that is not reported as applied, at whatever step it failed, leaves the connection
    with the congestion control it had before. *)
Theorem brutal_falls_back (prev : string) (total legacy g : Z) (k : K) : getCongestion k = (prev, None) -> prev <> ""%string ->
  Applied (configureTCPBrutal total legacy g k).2 = false -> (getCongestion (configureTCPBrutal total legacy g k).1).1 = prev.
Proof.
  intros Hk Hne. unfold configureTCPBrutal. destruct (total =? 0); [cbn; by rewrite Hk|]. destruct (brutalMbpsToBps total) as [m|]; [|cbn; by rewrite Hk]. rewrite Hk. cbn [fst].
  destruct (setCongestion "brutal" k) as [k1 [e|]] eqn:Es.
  - pose proof (congestion_fails _ _ _ _ Es) as ->. rewrite Hk. destruct e; try (cbn; by rewrite Hk). rewrite (bool_decide_true (None = None)) by done. cbn [andb].
    case_bool_decide as Hp; [|cbn; by rewrite Hk]. subst prev. destruct (getVersion k) as [v [[| |]|]]; try (intros _; by apply restores).
    all: pose proof (program_falls_back "brutal" true v total legacy g k Hk Hne) as HP; destruct (programParams _ _ _ _ _ _ k) as [k' r]; apply HP; done.
  - pose proof (congestion_reads _ _ _ Es) as Hk1. pose proof (congestion_back _ _ _ Hk Es) as Hb.
    destruct (getVersion k1) as [v [[| |]|]]; try (intros _; by apply restores).
    all: pose proof (program_falls_back prev false v total legacy g k1 Hk1 Hne) as HP; destruct (programParams _ _ _ _ _ _ k1) as [k' r]; apply HP; auto.
Qed.

(** What is programmed when every call succeeds: the whole rate and the group on a
    module with groups, this connection's share on one without. *)
Theorem brutal_programs (total legacy g v : Z) (k k1 : K) (e : option brutalErr) :
  0 < total <= maxBrutalRateMbps -> 0 < legacy <= maxBrutalRateMbps * 125000 -> is_u64 g -> g <> 0 ->
  setCongestion "brutal" k = (k1, None) -> getVersion k1 = (v, e) -> e = None \/ e = Some errBrutalNoVersion ->
  (forall b, (setParams b k1).2 = None) ->
  let grouped := brutalV2Version <=? v in
  let rate := if grouped then total * 125000 else legacy in
  let '(k', r) := configureTCPBrutal total legacy g k in
  r = mkApply true true false v rate (rate * 8 / 1000000) brutalDefaultCwndGain (if grouped then g else 0) MsgNone /\
  getCongestion k' = ("brutal"%string, None).
Proof.
  intros Ht Hl Hg Hg0 Es Ev He Hp. unfold maxBrutalRateMbps in *. unfold configureTCPBrutal. destruct (Z.eqb_spec total 0); [lia|].
  assert (brutalMbpsToBps total = Some (total * 125000)) as EM.
  { unfold brutalMbpsToBps, maxBrutalRateMbps. destruct (Z.eqb_spec total 0), (Z.ltb_spec 1000000 total); try lia. by rewrite mbps_small by (unfold maxBrutalRateMbps; lia). }
  rewrite EM, Es, Ev.
  assert (match e with None | Some errBrutalNoVersion => programParams (getCongestion k).1 false v total legacy g k1 | _ => (restoreCongestion (getCongestion k).1 k1, failed false 0 0 MsgVersion) end =
    programParams (getCongestion k).1 false v total legacy g k1) as -> by (destruct He as [->| ->]; done).
  cbn zeta. unfold programParams. rewrite EM. destruct (Z.eqb_spec g 0); [lia|]. cbn [negb]. rewrite andb_true_r. change (default 0 (Some (total * 125000))) with (total * 125000).
  set (gr := brutalV2Version <=? v). set (rate := if gr then total * 125000 else legacy). assert (0 < rate <= 125000000000) as Hr by (unfold rate; destruct gr; lia).
  fold rate. destruct (Z.eqb_spec rate 0); [lia|].
  destruct (encodeBrutalParamsBps rate brutalDefaultCwndGain (if gr then g else 0) gr) as [b|] eqn:Eb.
  2:{ unfold encodeBrutalParamsBps in Eb. change (maxBrutalRateMbps * 1000000 / 8) with 125000000000 in Eb. destruct (Z.eqb_spec rate 0), (Z.ltb_spec 125000000000 rate); (lia || done). }
  specialize (Hp b). destruct (setParams b k1) as [k2 e2] eqn:Ep. cbn in Hp. subst e2.
  destruct (params_roundtrip rate brutalDefaultCwndGain (if gr then g else 0) gr b) as [Hdec Hlen]; [widths; lia|unfold brutalDefaultCwndGain; widths; lia|destruct gr; [done|widths; lia]|done|].
  cbn beta iota. split; [|rewrite (params_keeps _ _ _ Ep); by apply (congestion_reads "brutal" k)].
  unfold reportParams, readBrutalParams. fold gr. rewrite <- Hlen, (params_reads _ _ _ Ep), Hdec. unfold brutalBpsToMbps. rewrite u64_small by (widths; lia). by destruct gr.
Qed.

End Laws.

(** *** A kernel with a module of version [kver] *)

Record demoKernel := mkKernel { kalgo : string; kver : Z; kparams : bytes; kfails : bool }.

#[export] Instance demoOps : brutalSocketOps demoKernel := {
  setCongestion name k := (mkKernel name (kver k) (kparams k) (kfails k), None);
  getCongestion k := (kalgo k, None);
  getVersion k := if kver k =? 0 then (0, Some errBrutalNoVersion) else (kver k, None);
  setParams b k := if kfails k then (k, Some errOther) else (mkKernel (kalgo k) (kver k) b (kfails k), None);
  getParams n k := inr (take n (kparams k))
}.

#[export] Instance demoLaws : BrutalLaws demoKernel.
Proof.
  split.
  - intros name k k' e E. cbn in E. congruence.
  - intros name k k' E. cbn in E. by simplify_eq.
  - intros prev k k' _ _. by eexists.
  - intros b k k' e. cbn. destruct (kfails k); [by intros [= <- _]|done].
  - intros b k k'. cbn. destruct (kfails k); [done|]. by intros [= <-].
  - intros b k k'. cbn. destruct (kfails k); [done|]. intros [= <-]. cbn. by rewrite take_ge.
Qed.

Lemma brutal_falls_back_witness : let k := mkKernel "cubic" 131072 [] true in
  Applied (configureTCPBrutal 100 1 7 k).2 = false /\ (getCongestion (configureTCPBrutal 100 1 7 k).1).1 = "cubic"%string.
Proof. split; [by vm_compute|]. apply (brutal_falls_back "cubic" 100 1 7); [done|done|by vm_compute]. Defined.

Lemma brutal_programs_witness : let '(k', r) := configureTCPBrutal 100 1 7 (mkKernel "cubic" 131072 [] false) in
  RateBps r = 12500000 /\ GroupID r = 7 /\ getCongestion k' = ("brutal"%string, None).
Proof.
  pose proof (brutal_programs 100 1 7 131072 (mkKernel "cubic" 131072 [] false) (mkKernel "brutal" 131072 [] false) None) as HP.
  destruct (configureTCPBrutal 100 1 7 _) as [k' r]. destruct HP as [-> HP]; [unfold maxBrutalRateMbps; lia..|widths; lia|lia|done|done|by left|done|]. by split_and!.
Defined.
