(* ===== verification/Traffic.v ===== *)
(** * Traffic accounting (traffic.go, with the per-client sampler of server.go)

    The data plane adds to two atomic counters; a slow goroutine samples them into a
    bucket per calendar day, keeps a ring of trend points, trims the history to the
    configured number of days and writes it to a file.  The wall clock gives the day
    (a function of the clock, since it depends on the time zone), the monotonic clock
    the length of a sampling interval, in nanoseconds.  Rates are IEEE doubles
    (SpecFloat).  The samplers of the two modes are arguments of the steps that call
    them, and encoding/json is a pair of functions with its round trip as a law. *)

From Stdlib Require Import SpecFloat.
From stdpp Require Import base tactics list numbers list_numbers sorting gmap strings.
From S2P Require Import Prelude.
#[local] Open Scope Z_scope.

Definition defaultTrafficDays : Z := 30.
Definition maxTrafficDays : Z := 3650.
Definition trendCap : nat := 1440.
Definition trendAggThreshold : nat := 120.
Definition recentCap : nat := 120.

(** float64: conversion, sum and quotient. *)
Definition f64 (z : Z) : spec_float := binary_normalize 53 1024 z 0 false.
Definition fadd : spec_float -> spec_float -> spec_float := SFadd 53 1024.
Definition fdiv : spec_float -> spec_float -> spec_float := SFdiv 53 1024.

(** time.Duration.Seconds. *)
Definition seconds (d : Z) : spec_float := fadd (f64 (d / 1000000000)) (fdiv (f64 (d mod 1000000000)) (f64 1000000000)).

Record trafficDay := mkDay { Up : Z; Down : Z }.
Record trendPoint := mkPoint { TUnix : Z; UpBps : spec_float; DownBps : spec_float; RttMs : spec_float }.
Record trafficDayJSON := mkDayJSON { Date : string; jUp : Z; jDown : Z }.
Record trendSnapshotJSON := mkTrend { StepSec : Z; Points : list trendPoint }.
Record trafficSnapshotJSON := mkSnap { sDays : Z; sToday : string; sUp : Z; sDown : Z; Daily : list trafficDayJSON }.

(** The history per client: by date, then by client. *)
Notation clientDays := (gmap string (gmap string trafficDay)).

Record TrafficAccounting := mkTraffic {
  up : Z; down : Z;                       (* atomic counters *)
  lastUp : Z; lastDown : Z;
  lastFlush : option Z;                   (* None: the zero time *)
  started : bool;
  days : Z;
  tfile : string;
  buckets : gmap string trafficDay;
  today : string;
  saved : bytes;
  trend : list trendPoint;
  recent : list trendPoint;
  clientLast : gmap string (Z * Z);
  clientBuckets : clientDays;
  clientFile : string;
  clientSaved : bytes
}.

Definition NewTrafficAccounting : TrafficAccounting := mkTraffic 0 0 0 0 None false 0 "" ∅ "" [] [] [] ∅ ∅ "" [].

Definition set_counters (u d : Z) (t : TrafficAccounting) : TrafficAccounting :=
  mkTraffic u d (lastUp t) (lastDown t) (lastFlush t) (started t) (days t) (tfile t) (buckets t) (today t) (saved t) (trend t) (recent t) (clientLast t) (clientBuckets t) (clientFile t) (clientSaved t).
Definition set_sampled (u d : Z) (lf : option Z) (t : TrafficAccounting) : TrafficAccounting :=
  mkTraffic (up t) (down t) u d lf (started t) (days t) (tfile t) (buckets t) (today t) (saved t) (trend t) (recent t) (clientLast t) (clientBuckets t) (clientFile t) (clientSaved t).
Definition set_config (st : bool) (n : Z) (f cf : string) (t : TrafficAccounting) : TrafficAccounting :=
  mkTraffic (up t) (down t) (lastUp t) (lastDown t) (lastFlush t) st n f (buckets t) (today t) (saved t) (trend t) (recent t) (clientLast t) (clientBuckets t) cf (clientSaved t).
Definition set_buckets (b : gmap string trafficDay) (td : string) (t : TrafficAccounting) : TrafficAccounting :=
  mkTraffic (up t) (down t) (lastUp t) (lastDown t) (lastFlush t) (started t) (days t) (tfile t) b td (saved t) (trend t) (recent t) (clientLast t) (clientBuckets t) (clientFile t) (clientSaved t).
Definition set_points (tr re : list trendPoint) (t : TrafficAccounting) : TrafficAccounting :=
  mkTraffic (up t) (down t) (lastUp t) (lastDown t) (lastFlush t) (started t) (days t) (tfile t) (buckets t) (today t) (saved t) tr re (clientLast t) (clientBuckets t) (clientFile t) (clientSaved t).
Definition set_clients (l : gmap string (Z * Z)) (b : clientDays) (t : TrafficAccounting) : TrafficAccounting :=
  mkTraffic (up t) (down t) (lastUp t) (lastDown t) (lastFlush t) (started t) (days t) (tfile t) (buckets t) (today t) (saved t) (trend t) (recent t) l b (clientFile t) (clientSaved t).
Definition set_saved (s cs : bytes) (t : TrafficAccounting) : TrafficAccounting :=
  mkTraffic (up t) (down t) (lastUp t) (lastDown t) (lastFlush t) (started t) (days t) (tfile t) (buckets t) (today t) s (trend t) (recent t) (clientLast t) (clientBuckets t) (clientFile t) cs.

(** ** Counting and sampling *)

Definition Add (u d : Z) (t : TrafficAccounting) : TrafficAccounting :=
  set_counters (if 0 <? u then u64 (up t + u) else up t) (if 0 <? d then u64 (down t + d) else down t) t.

(** append, then keep the last [cap]. *)
Definition ringPush {A} (cap : nat) (x : A) (l : list A) : list A :=
  let l := l ++ [x] in if (cap <? length l)%nat then drop (length l - cap) l else l.

Definition appendRecent (p : trendPoint) (t : TrafficAccounting) : TrafficAccounting := set_points (trend t) (ringPush recentCap p (recent t)) t.

(** One turn of recentLoop, with its local variables. *)
Definition recentTurn (mono unix : Z) (rtt : spec_float) (st : option (Z * Z * Z)) (t : TrafficAccounting) : option (Z * Z * Z) * TrafficAccounting :=
  match st with
  | None => (Some (mono, up t, down t), t)
  | Some (last, lu, ld) =>
    (Some (mono, up t, down t),
     if (lu <=? up t) && (ld <=? down t) && (0 <? mono - last)
     then appendRecent (mkPoint unix (fdiv (f64 (up t - lu)) (seconds (mono - last))) (fdiv (f64 (down t - ld)) (seconds (mono - last))) rtt) t else t)
  end.

Definition RecentSnapshot (t : TrafficAccounting) : trendSnapshotJSON := mkTrend 1 (recent t).

Definition addDay (u d : Z) (b : option trafficDay) : trafficDay :=
  let b := default (mkDay 0 0) b in mkDay (u64 (Up b + u)) (u64 (Down b + d)).

(** One client's share of a sample. *)
Definition creditClient (day id : string) (u d : Z) (cb : clientDays) : clientDays :=
  if (u =? 0) && (d =? 0) then cb else
  let m := default ∅ (cb !! day) in <[day := <[id := addDay u d (m !! id)]> m]> cb.

(** The two kinds of sampler: differences, or totals to be compared with the last
    sample. *)
Inductive clientSampler := NoSampler | DeltaSampler (sample : list (string * (Z * Z))) | TotalSampler (sample : list (string * (Z * Z))).

Definition totalDelta (now last : Z) : Z := if last <=? now then now - last else 0.

Definition sampleClientsLocked (day : string) (s : clientSampler) (t : TrafficAccounting) : TrafficAccounting :=
  match s with
  | NoSampler => t
  | DeltaSampler sample =>
    set_clients (clientLast t) (foldl (fun cb '(id, (u, d)) => creditClient day id u d cb) (clientBuckets t) sample) t
  | TotalSampler sample =>
    let '(last, cb) := foldl (fun '(last, cb) '(id, (u, d)) =>
      let '(lu, ld) := default (0, 0) (last !! id) in
      (<[id := (u, d)]> last, creditClient day id (totalDelta u lu) (totalDelta d ld) cb)) (clientLast t, clientBuckets t) sample in
    set_clients (filter (fun kv : string * (Z * Z) => kv.1 ∈ sample.*1) last) cb t
  end.

(** sort.Strings over the keys of a map. *)
Definition sortedKeys {V} (m : gmap string V) : list string := merge_sort String.le (map_to_list m).*1.

(** The oldest keys go until [n] are left. *)
Definition trimMap {V} (n : Z) (m : gmap string V) : gmap string V :=
  foldl (fun m k => delete k m) m (take (size m - Z.to_nat n) (sortedKeys m)).

Definition trimLocked (t : TrafficAccounting) : TrafficAccounting :=
  if (days t <=? 0) || (Z.of_nat (size (buckets t)) <=? days t) then t else
  let t := set_buckets (trimMap (days t) (buckets t)) (today t) t in
  if (days t <=? 0) || (Z.of_nat (size (clientBuckets t)) <=? days t) then t
  else set_clients (clientLast t) (trimMap (days t) (clientBuckets t)) t.

(** ** The files *)

(** encoding/json on the two files: code of the standard library. *)
Class TrafficJSON := {
  marshalDays : string -> gmap string trafficDay -> bytes;
  unmarshalDays : bytes -> option (string * gmap string trafficDay);
  marshalClients : string -> clientDays -> bytes;
  unmarshalClients : bytes -> option (string * clientDays);
  marshal_nonempty : forall td b, marshalDays td b <> [];
  days_roundtrip : forall td b, unmarshalDays (marshalDays td b) = Some (td, b);
  clients_roundtrip : forall td b, unmarshalClients (marshalClients td b) = Some (td, b)
}.

Notation fileSystem := (gmap string bytes).

(** writeFileAtomic: the outcomes of the two calls; a failed write may leave any
    prefix in the temporary file. *)
Definition writeFileAtomic (path : string) (data : bytes) (written : nat) (wrote renamed : bool) (fs : fileSystem) : fileSystem * bool :=
  let tmp := (path +:+ ".tmp")%string in
  if wrote then
    let fs := <[tmp := data]> fs in
    if renamed then (<[path := data]> (delete tmp fs), true) else (fs, false)
  else (<[tmp := take written data]> fs, false).

(** What the disk does to one write. *)
Record diskFate := mkFate { dWritten : nat; dWrote : bool; dRenamed : bool }.

Section Persist.
Context `{TrafficJSON}.

Definition saveLocked (f1 f2 : diskFate) (fs : fileSystem) (t : TrafficAccounting) : fileSystem * TrafficAccounting :=
  let '(fs, t) :=
    if bool_decide (tfile t = ""%string) then (fs, t) else
    let data := marshalDays (today t) (buckets t) in
    if bool_decide (data = saved t) then (fs, t) else
    let '(fs, ok) := writeFileAtomic (tfile t) data (dWritten f1) (dWrote f1) (dRenamed f1) fs in
    (fs, if ok then set_saved data (clientSaved t) t else t) in
  if bool_decide (clientFile t = ""%string) || (size (clientBuckets t) =? 0)%nat then (fs, t) else
  let cdata := marshalClients (today t) (clientBuckets t) in
  if bool_decide (cdata = clientSaved t) then (fs, t) else
  let '(fs, ok) := writeFileAtomic (clientFile t) cdata (dWritten f2) (dWrote f2) (dRenamed f2) fs in
  (fs, if ok then set_saved (saved t) cdata t else t).

Definition loadLocked (fs : fileSystem) (t : TrafficAccounting) : TrafficAccounting :=
  if bool_decide (tfile t = ""%string) then t else
  match fs !! tfile t with
  | None => t
  | Some data =>
    match unmarshalDays data with
    | None => t
    | Some (td, b) =>
      let t := set_saved data (clientSaved t) (set_buckets b td t) in
      if bool_decide (clientFile t = ""%string) then t else
      match fs !! clientFile t with
      | None => t
      | Some cdata =>
        match unmarshalClients cdata with
        | None => t
        | Some (_, cb) => set_saved (saved t) cdata (set_clients (clientLast t) cb t)
        end
      end
    end
  end.

(** OnConfig, with the configured values and the two paths it derives. *)
Definition OnConfig (cfgDays : Z) (file cfile : string) (mono : Z) (fs : fileSystem) (t : TrafficAccounting) : TrafficAccounting :=
  let n := if cfgDays <=? 0 then defaultTrafficDays else cfgDays in
  let n := if maxTrafficDays <? n then maxTrafficDays else n in
  let t := if started t then set_config true n file cfile t
           else loadLocked fs (set_config true n file cfile (set_sampled (lastUp t) (lastDown t) (Some mono) t)) in
  trimLocked t.

(** ** A sampling round *)

(** The bucket of the day and the trend ring. *)
Definition flushDay (day : string) (du dd : Z) (t : TrafficAccounting) : TrafficAccounting :=
  let t := if bool_decide (day = today t) then t
           else set_buckets (match buckets t !! day with Some _ => buckets t | None => <[day := mkDay 0 0]> (buckets t) end) day t in
  if (0 <? du) || (0 <? dd) then set_buckets (<[day := addDay du dd (buckets t !! day)]> (buckets t)) (today t) t else t.

Definition flushTrend (unix : Z) (du dd : Z) (secs : spec_float) (rtt : option spec_float) (t : TrafficAccounting) : TrafficAccounting :=
  let thisMinute := unix `quot` 60 in
  let lastMinute := match last (trend t) with Some p => TUnix p `quot` 60 | None => -1 end in
  if (0 <? du) || (0 <? dd) || negb (thisMinute =? lastMinute)
  then set_points (ringPush trendCap (mkPoint (thisMinute * 60) (fdiv (f64 du) secs) (fdiv (f64 dd) secs) (default (f64 0) rtt)) (trend t)) (recent t) t
  else t.

Record flushEnv := mkFlush { fDay : string; fUnix : Z; fMono : Z; fRtt : option spec_float; fSampler : clientSampler; fFate1 : diskFate; fFate2 : diskFate }.

Definition flush (e : flushEnv) (fs : fileSystem) (t : TrafficAccounting) : fileSystem * TrafficAccounting :=
  let du := u64 (up t - lastUp t) in
  let dd := u64 (down t - lastDown t) in
  let secs := match lastFlush t with Some lf => if lf <? fMono e then seconds (fMono e - lf) else f64 60 | None => f64 60 end in
  let t := set_sampled (up t) (down t) (Some (fMono e)) t in
  let t := flushDay (fDay e) du dd t in
  let t := flushTrend (fUnix e) du dd secs (fRtt e) t in
  let t := sampleClientsLocked (fDay e) (fSampler e) t in
  saveLocked (fFate1 e) (fFate2 e) fs (trimLocked t).

End Persist.

(** ** Snapshots *)

Definition Snapshot (day : string) (t : TrafficAccounting) : trafficSnapshotJSON :=
  let du := u64 (up t - lastUp t) in
  let dd := u64 (down t - lastDown t) in
  let entry k := let b := default (mkDay 0 0) (buckets t !! k) in
    if bool_decide (k = day) then mkDayJSON k (u64 (Up b + du)) (u64 (Down b + dd)) else mkDayJSON k (Up b) (Down b) in
  let daily := entry <$> sortedKeys (buckets t) in
  let '(u, d) := match buckets t !! day with Some _ => (jUp (entry day), jDown (entry day)) | None => (0, 0) end in
  if (u =? 0) && (d =? 0) && ((0 <? du) || (0 <? dd))
  then mkSnap (days t) day du dd (daily ++ [mkDayJSON day du dd])
  else mkSnap (days t) day u d daily.

(** The mean of a group of points, at the time of its first. *)
Definition meanPoint (g : list trendPoint) : trendPoint :=
  let z := f64 0 in
  let s := foldl (fun p q => mkPoint (TUnix p) (fadd (UpBps p) (UpBps q)) (fadd (DownBps p) (DownBps q)) (fadd (RttMs p) (RttMs q)))
             (mkPoint (match g with p :: _ => TUnix p | [] => 0 end) z z z) g in
  let n := f64 (lenZ g) in
  mkPoint (TUnix s) (fdiv (UpBps s) n) (fdiv (DownBps s) n) (fdiv (RttMs s) n).

(** The loop over the groups: at most one turn per point. *)
Fixpoint groupMeans (fuel : nat) (step : nat) (raw : list trendPoint) : list trendPoint :=
  match fuel, raw with
  | O, _ | _, [] => []
  | S fuel, _ => meanPoint (take step raw) :: groupMeans fuel step (drop step raw)
  end.

Definition TrendSnapshot (minutes : Z) (t : TrafficAccounting) : trendSnapshotJSON :=
  let m := Z.to_nat (if minutes <=? 0 then 60 else minutes) in
  let raw := drop (length (trend t) - m) (trend t) in
  let step := (if trendAggThreshold <? length raw then (length raw + trendAggThreshold - 1) / trendAggThreshold else 1)%nat in
  mkTrend (60 * Z.of_nat step) (groupMeans (length raw) step raw).

Definition ClientSnapshot (day : string) (s : clientSampler) (t : TrafficAccounting) : TrafficAccounting * list (string * list trafficDayJSON) :=
  let t := match s with DeltaSampler _ => sampleClientsLocked day s t | _ => t end in
  let ids := merge_sort String.le (remove_dups (concat ((fun '(_, m) => (map_to_list m).*1) <$> map_to_list (clientBuckets t)))) in
  let dates := sortedKeys (clientBuckets t) in
  (t, (fun id => (id, omap (fun date => (fun b => mkDayJSON date (Up b) (Down b)) <$> (clientBuckets t !! date ≫= lookup id)) dates)) <$> ids).

(** ** Trimming *)

Lemma deletes_lookup {V} (ks : list string) (m : gmap string V) k : foldl (fun m k => delete k m) m ks !! k = if decide (k ∈ ks) then None else m !! k.
Proof.
  revert m. induction ks as [|x ks IH]; intros m; cbn [foldl]; [by rewrite decide_False by set_solver|]. rewrite IH.
  destruct (decide (k = x)) as [->|Hk]; [rewrite lookup_delete_eq, (decide_True (P := x ∈ x :: ks)) by set_solver; by case_decide|]. rewrite lookup_delete_ne by done.
  destruct (decide (k ∈ ks)); [by rewrite decide_True by set_solver|by rewrite decide_False by set_solver].
Qed.

Lemma sortedKeys_perm {V} (m : gmap string V) : sortedKeys m ≡ₚ (map_to_list m).*1.
Proof. apply merge_sort_Permutation. Qed.
Lemma sortedKeys_elem {V} (m : gmap string V) k : k ∈ sortedKeys m <-> is_Some (m !! k).
Proof.
  rewrite sortedKeys_perm, list_elem_of_fmap. split.
  - intros ([k' v] & -> & Hin). apply elem_of_map_to_list in Hin. by exists v.
  - intros [v Hv]. exists (k, v). split; [done|]. by apply elem_of_map_to_list.
Qed.
Lemma sortedKeys_length {V} (m : gmap string V) : length (sortedKeys m) = size m.
Proof. rewrite sortedKeys_perm, length_fmap. apply length_map_to_list. Qed.
Lemma sortedKeys_NoDup {V} (m : gmap string V) : NoDup (sortedKeys m).
Proof. rewrite sortedKeys_perm. apply NoDup_fst_map_to_list. Qed.
Lemma sortedKeys_sorted {V} (m : gmap string V) : StronglySorted String.le (sortedKeys m).
Proof. apply StronglySorted_merge_sort; apply _. Qed.

Lemma sorted_split (a b : list string) x y : StronglySorted String.le (a ++ b) -> x ∈ a -> y ∈ b -> String.le x y.
Proof. intros H Hx Hy. apply StronglySorted_app in H as (H & _ & _). auto. Qed.

(** What goes are the oldest days, and only as many as needed. *)
Record trimmed {V} (n : Z) (m m' : gmap string V) : Prop := {
  tr_size : Z.of_nat (size m') = Z.min (Z.of_nat (size m)) n;
  tr_kept : forall k v, m' !! k = Some v -> m !! k = Some v;
  tr_dropped : forall k v, m !! k = Some v -> m' !! k = None -> forall k', is_Some (m' !! k') -> String.le k k'
}.

Lemma trimMap_spec {V} n (m : gmap string V) : 0 <= n -> trimmed n m (trimMap n m).
Proof.
  intros Hn. unfold trimMap. set (j := (size m - Z.to_nat n)%nat). set (ks := take j (sortedKeys m)).
  assert (forall k, foldl (fun m k => delete k m) m ks !! k = if decide (k ∈ ks) then None else m !! k) as HL by (intros; apply deletes_lookup).
  set (m' := foldl _ m ks) in *. clearbody m'. set (dl := drop j (sortedKeys m)).
  assert (sortedKeys m = ks ++ dl) as Hs by (symmetry; apply take_drop). assert (length dl = size m - j)%nat as Hdl by (unfold dl; by rewrite length_drop, sortedKeys_length).
  clearbody ks dl. pose proof (sortedKeys_NoDup m) as HND. rewrite Hs, NoDup_app in HND. destruct HND as (_ & Hdisj & HND).
  assert (forall k, is_Some (m' !! k) <-> k ∈ dl) as HK.
  { intros k. rewrite HL. case_decide as Hk; [split; [by intros [? [=]]|intros Hd; by destruct (Hdisj k)]|].
    rewrite <- sortedKeys_elem, Hs, elem_of_app. split; [intros [?|?]; done|auto]. }
  split.
  - rewrite <- (sortedKeys_length m'). assert (sortedKeys m' ≡ₚ dl) as ->.
    { apply NoDup_Permutation; [apply sortedKeys_NoDup|done|]. intros k. by rewrite sortedKeys_elem, HK. }
    rewrite Hdl. unfold j. lia.
  - intros k v. rewrite HL. by case_decide.
  - intros k v Hk Hn' k' Hk'. apply (sorted_split ks dl); [rewrite <- Hs; apply sortedKeys_sorted| |by apply HK].
    rewrite HL in Hn'. case_decide; [done|congruence].
Qed.

Lemma trimLocked_buckets t : 1 <= days t -> trimmed (days t) (buckets t) (buckets (trimLocked t)).
Proof.
  intros Hd. unfold trimLocked. destruct (Z.leb_spec (days t) 0); [lia|]. cbn [orb]. destruct (Z.leb_spec (Z.of_nat (size (buckets t))) (days t)).
  - split; [lia|done|]. intros k v Hk Hk'. congruence.
  - assert (buckets (set_buckets (trimMap (days t) (buckets t)) (today t) t) = trimMap (days t) (buckets t)) as E by done.
    destruct (_ || _); cbn [buckets set_clients]; rewrite E; apply trimMap_spec; lia.
Qed.

(** ** The history is exact *)

(** The abstract account: what has been counted since the last sample, and what every
    day has been credited with. *)
Record ledger := mkLedger { pendU : Z; pendD : Z; credits : gmap string (Z * Z) }.
Definition ledger0 : ledger := mkLedger 0 0 ∅.
Definition credit (l : ledger) (day : string) : Z * Z := default (0, 0) (credits l !! day).

Inductive trafficOp := OAdd (u d : Z) | OFlush (e : flushEnv).

Definition ledgerStep (l : ledger) (op : trafficOp) : ledger :=
  match op with
  | OAdd u d => mkLedger (pendU l + u) (pendD l + d) (credits l)
  | OFlush e => mkLedger 0 0 (<[fDay e := ((credit l (fDay e)).1 + pendU l, (credit l (fDay e)).2 + pendD l)]> (credits l))
  end.
Definition ledgerOf (ops : list trafficOp) : ledger := fold_left ledgerStep ops ledger0.

Fixpoint addsUp (ops : list trafficOp) : Z * Z :=
  match ops with
  | [] => (0, 0)
  | OAdd u d :: ops => (u + (addsUp ops).1, d + (addsUp ops).2)
  | OFlush _ :: ops => addsUp ops
  end.

(** Amounts are lengths, and the calendar of the samples does not go back. *)
Fixpoint orderly (day : string) (ops : list trafficOp) : Prop :=
  match ops with
  | [] => True
  | OAdd u d :: ops => 0 <= u /\ 0 <= d /\ orderly day ops
  | OFlush e :: ops => String.le day (fDay e) /\ fDay e <> ""%string /\ orderly (fDay e) ops
  end.

Section History.
Context `{TrafficJSON}.

Definition trafficStep (st : fileSystem * TrafficAccounting) (op : trafficOp) : fileSystem * TrafficAccounting :=
  match op with OAdd u d => (st.1, Add u d st.2) | OFlush e => flush e st.1 st.2 end.
Definition trafficExec (ops : list trafficOp) (st : fileSystem * TrafficAccounting) : fileSystem * TrafficAccounting := fold_left trafficStep ops st.

Record hist (n : Z) (rest : Z * Z) (l : ledger) (t : TrafficAccounting) : Prop := {
  h_days : days t = n /\ 1 <= n;
  h_up : up t = lastUp t + pendU l /\ 0 <= lastUp t /\ 0 <= pendU l /\ up t + rest.1 < 2 ^ 64 /\ 0 <= rest.1;
  h_down : down t = lastDown t + pendD l /\ 0 <= lastDown t /\ 0 <= pendD l /\ down t + rest.2 < 2 ^ 64 /\ 0 <= rest.2;
  h_credit : forall D, 0 <= (credit l D).1 <= lastUp t /\ 0 <= (credit l D).2 <= lastDown t;
  h_val : forall D b, buckets t !! D = Some b -> (Up b, Down b) = credit l D;
  h_none : forall D, buckets t !! D = None -> credit l D = (0, 0) \/
    (Z.of_nat (size (buckets t)) = n /\ (forall k, is_Some (buckets t !! k) -> String.le D k) /\ is_Some (buckets t !! today t));
  h_keys : forall k, is_Some (buckets t !! k) -> String.le k (today t);
  h_today : today t = ""%string \/ is_Some (buckets t !! today t);
  h_size : Z.of_nat (size (buckets t)) <= n
}.

Lemma hist_same n rest l t t' : hist n rest l t ->
  up t' = up t -> down t' = down t -> lastUp t' = lastUp t -> lastDown t' = lastDown t -> days t' = days t -> buckets t' = buckets t -> today t' = today t -> hist n rest l t'.
Proof. intros [H1 H2 H3 H4 H5 H6 H7 H8 H9] E1 E2 E3 E4 E5 E6 E7. split; rewrite ?E1, ?E2, ?E3, ?E4, ?E5, ?E6, ?E7; done. Qed.

(** The parts of a flush that do not touch the account. *)
Lemma frame_rest e fs t : let t' := (saveLocked (fFate1 e) (fFate2 e) fs t).2 in
  up t' = up t /\ down t' = down t /\ lastUp t' = lastUp t /\ lastDown t' = lastDown t /\ days t' = days t /\ buckets t' = buckets t /\ today t' = today t.
Proof. unfold saveLocked. repeat (case_match; simplify_eq/=); done. Qed.

Lemma frame_sample e x u d s r t : let t' := sampleClientsLocked (fDay e) s (flushTrend x u d r (fRtt e) t) in
  up t' = up t /\ down t' = down t /\ lastUp t' = lastUp t /\ lastDown t' = lastDown t /\ days t' = days t /\ buckets t' = buckets t /\ today t' = today t.
Proof.
  unfold sampleClientsLocked, flushTrend. destruct ((0 <? u) || _ || _), s as [|l|l]; cbn; try done.
  - by destruct (foldl _ (clientLast t, clientBuckets t) l).
  - by destruct (foldl _ (clientLast t, clientBuckets t) l).
Qed.

Lemma frame_trim t : let t' := trimLocked t in
  up t' = up t /\ down t' = down t /\ lastUp t' = lastUp t /\ lastDown t' = lastDown t /\ days t' = days t /\ today t' = today t.
Proof. unfold trimLocked. repeat (case_match; simplify_eq/=); done. Qed.

Lemma hist_add n rest l t u d : 0 <= u -> 0 <= d -> 0 <= rest.1 -> 0 <= rest.2 -> hist n (u + rest.1, d + rest.2) l t -> hist n rest (ledgerStep l (OAdd u d)) (Add u d t).
Proof.
  intros Hu Hd Hr1 Hr2 [H1 H2 H3 H4 H5 H6 H7 H8 H9]. cbn [fst snd] in *.
  assert ((if 0 <? u then u64 (up t + u) else up t) = up t + u) as E1 by (destruct (Z.ltb_spec 0 u); [apply u64_small; widths; lia|lia]).
  assert ((if 0 <? d then u64 (down t + d) else down t) = down t + d) as E2 by (destruct (Z.ltb_spec 0 d); [apply u64_small; widths; lia|lia]).
  split; cbn; rewrite ?E1, ?E2; try done; lia.
Qed.

Lemma credit_insert l D x k : credit (mkLedger 0 0 (<[D := x]> (credits l))) k = if decide (k = D) then x else credit l k.
Proof. unfold credit. cbn. case_decide as E; [subst; by rewrite lookup_insert_eq|by rewrite lookup_insert_ne]. Qed.

(** The account of a state before its trim. *)
Record hist0 (n : Z) (rest : Z * Z) (l : ledger) (t : TrafficAccounting) : Prop := {
  g_days : days t = n /\ 1 <= n;
  g_up : up t = lastUp t /\ 0 <= up t /\ up t + rest.1 < 2 ^ 64 /\ 0 <= rest.1;
  g_down : down t = lastDown t /\ 0 <= down t /\ down t + rest.2 < 2 ^ 64 /\ 0 <= rest.2;
  g_pend : pendU l = 0 /\ pendD l = 0;
  g_credit : forall D, 0 <= (credit l D).1 <= lastUp t /\ 0 <= (credit l D).2 <= lastDown t;
  g_val : forall D b, buckets t !! D = Some b -> (Up b, Down b) = credit l D;
  g_none : forall D, buckets t !! D = None -> credit l D = (0, 0) \/ (n <= Z.of_nat (size (buckets t)) /\ forall k, is_Some (buckets t !! k) -> String.le D k);
  g_keys : forall k, is_Some (buckets t !! k) -> String.le k (today t);
  g_today : is_Some (buckets t !! today t)
}.

Lemma hist_trim n rest l t : hist0 n rest l t -> hist n rest l (trimLocked t).
Proof.
  intros [[H1 H1'] H2 H3 [HP1 HP2] H4 H5 H6 H7 H8]. destruct (frame_trim t) as (E1 & E2 & E3 & E4 & E5 & E6).
  destruct (trimLocked_buckets t) as [T1 T2 T3]; [lia|]. rewrite H1 in T1.
  assert (is_Some (buckets (trimLocked t) !! today t)) as Htd.
  { destruct H8 as [b Hb]. destruct (buckets (trimLocked t) !! today t) eqn:Et; [done|]. specialize (T3 _ _ Hb Et).
    assert (exists k, is_Some (buckets (trimLocked t) !! k)) as [k Hk].
    { destruct (map_choose (buckets (trimLocked t))) as (k & v & Hkv); [|exists k; by exists v]. intros E. rewrite E, map_size_empty in T1.
      assert (0 < size (buckets t))%nat; [|lia]. apply Nat.neq_0_lt_0. intros E0. apply map_size_empty_inv in E0. rewrite E0 in Hb. done. }
    pose proof (T3 k Hk) as L1. assert (String.le k (today t)) as L2. { apply H7. destruct Hk as [v Hv]. exists v. by apply T2. }
    assert (k = today t) as -> by (by apply (anti_symm String.le)). rewrite Et in Hk. by destruct Hk. }
  split; rewrite ?E1, ?E2, ?E3, ?E4, ?E5, ?E6, ?HP1, ?HP2; try done; try lia.
  - intros D b Hb. by apply H5, T2.
  - intros D HD. destruct (buckets t !! D) as [b|] eqn:Eb.
    + right. assert (size (buckets (trimLocked t)) <> size (buckets t)) as Hne.
      { intros Es. assert (buckets (trimLocked t) = buckets t) as E; [|congruence]. apply map_subseteq_size_eq; [by apply map_subseteq_spec|lia]. }
      split_and!; [lia| |done]. intros k Hk. by apply (T3 D b).
    + destruct (H6 D Eb) as [?|[Hs Hk]]; [by left|]. right. split_and!; [lia| |done]. intros k [v Hv]. apply Hk. exists v. by apply T2.
  - intros k [v Hv]. apply H7. exists v. by apply T2.
  - by right.
Qed.

(** The first half of flushDay: the day has a bucket, all others are as before. *)
Lemma openDay n rest l t day : hist n rest l t -> String.le (today t) day -> day <> ""%string ->
  exists b0, (Up b0, Down b0) = credit l day /\
  (buckets t !! day = Some b0 \/ buckets t !! day = None /\ b0 = mkDay 0 0 /\ credit l day = (0, 0)).
Proof.
  intros [H1 H2 H3 H4 H5 H6 H7 H8 H9] Hle Hne. destruct (buckets t !! day) as [b|] eqn:Eb; [exists b; split; [by apply H5|by left]|].
  exists (mkDay 0 0). destruct (H6 day Eb) as [E|(_ & Hk & Htd)]; [rewrite E; split; [done|by right]|].
  specialize (Hk _ Htd). assert (day = today t) as -> by (by apply (anti_symm String.le)). rewrite Eb in Htd. by destruct Htd.
Qed.

Lemma flushDay_eq n rest l t lf day : hist n rest l t -> String.le (today t) day -> day <> ""%string ->
  let t' := flushDay day (pendU l) (pendD l) (set_sampled (up t) (down t) lf t) in
  buckets t' = <[day := mkDay ((credit l day).1 + pendU l) ((credit l day).2 + pendD l)]> (buckets t) /\ today t' = day /\
  up t' = up t /\ down t' = down t /\ lastUp t' = up t /\ lastDown t' = down t /\ days t' = days t.
Proof.
  intros HH Hle Hne. destruct (openDay n rest l t day HH Hle Hne) as (b0 & Hb0 & Hopen). destruct HH as [H1 H2 H3 H4 H5 H6 H7 H8 H9].
  specialize (H4 day). rewrite <- Hb0 in *. cbn [fst snd] in *. unfold flushDay. cbn [today buckets set_sampled].
  set (t1 := if bool_decide (day = today t) then _ else _).
  assert (today t1 = day /\ up t1 = up t /\ down t1 = down t /\ lastUp t1 = up t /\ lastDown t1 = down t /\ days t1 = days t) as (F1 & F2 & F3 & F4 & F5 & F6)
    by (unfold t1; case_bool_decide; subst; done).
  assert (buckets t1 !! day = Some b0 /\ buckets t1 = <[day := b0]> (buckets t) \/ buckets t1 !! day = None /\ b0 = mkDay 0 0 /\ False) as [[F7 F8]|(_ & _ & [])].
  { left. unfold t1. case_bool_decide as E.
    - destruct H8 as [H8|H8]; [congruence|]. rewrite <- E in H8. destruct Hopen as [Ho|(Ho & _)]; [|rewrite Ho in H8; by destruct H8]. cbn. split; [done|by rewrite insert_id].
    - cbn. destruct Hopen as [Ho|(Ho & -> & _)]; rewrite Ho; [split; [done|by rewrite insert_id]|split; [by rewrite lookup_insert_eq|done]]. }
  clearbody t1. unfold addDay. destruct (Z.ltb_spec 0 (pendU l)), (Z.ltb_spec 0 (pendD l)); cbn [orb buckets set_buckets up down lastUp lastDown days today]; rewrite ?F7, ?F8; cbn [default];
    rewrite ?insert_insert_eq; split_and!; try done; f_equal; cbn.
  1-3: f_equal; apply u64_small; widths; lia.
  destruct b0 as [x y]. cbn in *. f_equal; lia.
Qed.

Lemma hist_flushDay n rest l t e : hist n rest l t -> String.le (today t) (fDay e) -> fDay e <> ""%string ->
  hist0 n rest (ledgerStep l (OFlush e)) (flushDay (fDay e) (pendU l) (pendD l) (set_sampled (up t) (down t) (Some (fMono e)) t)).
Proof.
  intros HH Hle Hne. destruct (flushDay_eq n rest l t (Some (fMono e)) (fDay e) HH Hle Hne) as (E1 & E2 & E3 & E4 & E5 & E6 & E7).
  set (t' := flushDay _ _ _ _) in *. clearbody t'. destruct HH as [H1 H2 H3 H4 H5 H6 H7 H8 H9].
  split; rewrite ?E1, ?E2, ?E3, ?E4, ?E5, ?E6, ?E7; cbn [ledgerStep pendU pendD]; try done; try lia.
  - intros D. rewrite credit_insert. specialize (H4 D). case_decide; subst; cbn; lia.
  - intros D b. rewrite credit_insert. case_decide as ED; [subst; rewrite lookup_insert_eq; by intros [= <-]|rewrite lookup_insert_ne by done; apply H5].
  - intros D. rewrite credit_insert. case_decide as ED; [subst; by rewrite lookup_insert_eq|]. rewrite lookup_insert_ne by done. intros HD.
    destruct (H6 D HD) as [?|(Hs & Hk & Htd)]; [by left|]. right. split.
    + rewrite map_size_insert. case_match; cbn; lia.
    + intros k. destruct (decide (k = fDay e)) as [->|Hn]; [intros _|rewrite lookup_insert_ne by done; apply Hk]. trans (today t); [by apply Hk|done].
  - intros k. destruct (decide (k = fDay e)) as [->|Hn]; [done|]. rewrite lookup_insert_ne by done. intros Hk. trans (today t); [by apply H7|done].
  - rewrite lookup_insert_eq. by eexists.
Qed.

Lemma hist_flush n rest l fs t e : hist n rest l t -> String.le (today t) (fDay e) -> fDay e <> ""%string ->
  hist n rest (ledgerStep l (OFlush e)) (flush e fs t).2 /\ today (flush e fs t).2 = fDay e.
Proof.
  intros HH Hle Hne. pose proof HH as [H1 H2 H3 H4 H5 H6 H7 H8 H9]. unfold flush.
  assert (u64 (up t - lastUp t) = pendU l) as -> by (replace (up t - lastUp t) with (pendU l) by lia; apply u64_small; widths; lia).
  assert (u64 (down t - lastDown t) = pendD l) as -> by (replace (down t - lastDown t) with (pendD l) by lia; apply u64_small; widths; lia).
  pose proof (hist_flushDay n rest l t e HH Hle Hne) as HF. destruct (flushDay_eq n rest l t (Some (fMono e)) (fDay e) HH Hle Hne) as (_ & Etd & _).
  set (t1 := flushDay _ _ _ _) in *. clearbody t1. set (secs := match lastFlush t with Some _ => _ | None => _ end). clearbody secs.
  destruct (frame_sample e (fUnix e) (pendU l) (pendD l) (fSampler e) secs t1) as (F1 & F2 & F3 & F4 & F5 & F6 & F7). set (t2 := sampleClientsLocked _ _ _) in *. clearbody t2.
  destruct (frame_rest e fs (trimLocked t2)) as (G1 & G2 & G3 & G4 & G5 & G6 & G7). split.
  - apply (hist_same _ _ _ (trimLocked t2)); try done. apply hist_trim. destruct HF as [K1 K2 K3 K4 K5 K6 K7 K8 K9]. split; rewrite ?F1, ?F2, ?F3, ?F4, ?F5, ?F6, ?F7; done.
  - rewrite G7. destruct (frame_trim t2) as (_ & _ & _ & _ & _ & ->). by rewrite F7.
Qed.

Lemma addsUp_nonneg day ops : orderly day ops -> 0 <= (addsUp ops).1 /\ 0 <= (addsUp ops).2.
Proof. revert day. induction ops as [|[u d|e] ops IH]; intros day HO; cbn in *; [lia| |]; [destruct HO as (? & ? & HO)|destruct HO as (_ & _ & HO)]; specialize (IH _ HO); lia. Qed.

Lemma hist_exec n ops l fs t : hist n (addsUp ops) l t -> orderly (today t) ops ->
  hist n (0, 0) (fold_left ledgerStep ops l) (trafficExec ops (fs, t)).2.
Proof.
  revert l fs t. induction ops as [|[u d|e] ops IH]; intros l fs t HH HO; [done| |].
  - destruct HO as (Hu & Hd & HO). destruct (addsUp_nonneg _ _ HO). apply IH; [by apply hist_add|done].
  - destruct HO as (Hle & Hne & HO). destruct (hist_flush n _ l fs t e HH Hle Hne) as [HF Ht]. cbn [trafficExec fold_left trafficStep fst snd].
    destruct (flush e fs t) as [fs' t'] eqn:Ef. cbn [snd] in *. apply IH; [done|by rewrite Ht].
Qed.

(** The figures of the day: the sampled part and what is not sampled yet. *)
Lemma snapshot_day n rest l t day : hist n rest l t -> String.le (today t) day -> day <> ""%string ->
  let s := Snapshot day t in
  sUp s = (credit l day).1 + pendU l /\ sDown s = (credit l day).2 + pendD l /\
  (mkDayJSON day (sUp s) (sDown s) ∈ Daily s \/ sUp s = 0 /\ sDown s = 0).
Proof.
  intros HH Hle Hne. destruct (openDay n rest l t day HH Hle Hne) as (b0 & Hb0 & Hopen). destruct HH as [H1 H2 H3 H4 H5 H6 H7 H8 H9].
  unfold Snapshot. assert (u64 (up t - lastUp t) = pendU l) as -> by (replace (up t - lastUp t) with (pendU l) by lia; apply u64_small; widths; lia).
  assert (u64 (down t - lastDown t) = pendD l) as -> by (replace (down t - lastDown t) with (pendD l) by lia; apply u64_small; widths; lia).
  specialize (H4 day). rewrite <- Hb0 in *. cbn [fst snd] in *. destruct Hopen as [Ho|(Ho & -> & _)]; rewrite Ho; rewrite ?(bool_decide_true (day = day)) by done; cbn [from_option id jUp jDown Up Down].
  - rewrite !u64_small by (widths; lia). destruct (_ && _) eqn:Eb.
    + exfalso. rewrite !andb_true_iff, orb_true_iff in Eb. cbn in *. lia.
    + cbn. split_and!; [done|done|]. left. apply list_elem_of_fmap. exists day. rewrite Ho, !bool_decide_true by done. cbn [from_option id]. rewrite !u64_small by (widths; lia).
      split; [done|]. apply sortedKeys_elem. by exists b0.
  - cbn [Z.eqb andb]. destruct (Z.ltb_spec 0 (pendU l)), (Z.ltb_spec 0 (pendD l)); cbn; (split_and!; [lia|lia|]); try (right; lia); left; apply elem_of_app; right; by apply list_elem_of_singleton.
Qed.

Lemma hist_fresh n rest f cf mono fs : 1 <= n <= maxTrafficDays -> 0 <= rest.1 < 2 ^ 64 -> 0 <= rest.2 < 2 ^ 64 -> fs !! f = None ->
  hist n rest ledger0 (OnConfig n f cf mono fs NewTrafficAccounting) /\ today (OnConfig n f cf mono fs NewTrafficAccounting) = ""%string.
Proof.
  intros Hn Hr1 Hr2 Hf. unfold OnConfig. destruct (Z.leb_spec n 0), (Z.ltb_spec maxTrafficDays n); try lia. cbn [started NewTrafficAccounting].
  unfold loadLocked. cbn [tfile set_config]. rewrite Hf. set (t0 := set_config _ _ _ _ _).
  assert ((if bool_decide (f = ""%string) then t0 else t0) = t0) as -> by (by case_bool_decide).
  assert (trimLocked t0 = t0) as ->. { unfold trimLocked. cbn [days buckets t0 set_config set_sampled NewTrafficAccounting]. rewrite map_size_empty. change (Z.of_nat 0) with 0. destruct (Z.leb_spec n 0), (Z.leb_spec 0 n); (lia || done). }
  split; [|done]. split; cbn; try lia; try done; try (by left); try (by intros ? [? ?]).
  rewrite map_size_empty. lia.
Qed.

End History.

(** C29: The history of the dashboard.  From a start without a file, for any amounts the
    data plane counts and any samples on a calendar that does not go back, whatever the
    disk does and whatever the per-client samplers say, as long as less than 2^64 bytes
    are counted: at most the configured number of days is kept; every day kept shows
    exactly what was counted up to its samples; a day that is missing had no traffic,
    or is not later than the kept ones while the history is full; and the figures of
    today include what is not sampled yet and agree with the entry of the table. *)
Theorem traffic_history_exact `{TrafficJSON} (n mono : Z) (f cf day : string) (fs : fileSystem) (ops : list trafficOp) :
  1 <= n <= maxTrafficDays -> (addsUp ops).1 < 2 ^ 64 -> (addsUp ops).2 < 2 ^ 64 -> fs !! f = None -> orderly ""%string ops ->
  let t := (trafficExec ops (fs, OnConfig n f cf mono fs NewTrafficAccounting)).2 in
  let l := ledgerOf ops in
  Z.of_nat (size (buckets t)) <= n /\
  (forall D, match buckets t !! D with
    | Some b => (Up b, Down b) = credit l D
    | None => credit l D = (0, 0) \/ (Z.of_nat (size (buckets t)) = n /\ forall k, is_Some (buckets t !! k) -> String.le D k)
    end) /\
  (String.le (today t) day -> day <> ""%string ->
    let s := Snapshot day t in
    sUp s = (credit l day).1 + pendU l /\ sDown s = (credit l day).2 + pendD l /\
    (mkDayJSON day (sUp s) (sDown s) ∈ Daily s \/ sUp s = 0 /\ sDown s = 0)).
Proof.
  intros Hn Hu Hd Hf HO t l. destruct (addsUp_nonneg _ _ HO) as [Hu0 Hd0].
  destruct (hist_fresh n (addsUp ops) f cf mono fs Hn ltac:(lia) ltac:(lia) Hf) as [HH Ht]. rewrite <- Ht in HO.
  pose proof (hist_exec n ops ledger0 fs _ HH HO) as HE. fold t in HE. fold (ledgerOf ops) in HE. fold l in HE. split_and!; [apply HE| |].
  - intros D. destruct (buckets t !! D) as [b|] eqn:Eb; [by apply HE|]. destruct (h_none _ _ _ _ HE D Eb) as [?|(? & ? & _)]; auto.
  - intros Hle Hne. by apply (snapshot_day n (0, 0)).
Qed.

(** ** The file *)

Section Files.
Context `{TrafficJSON}.

Lemma tmp_neq (p : string) : (p +:+ ".tmp")%string <> p.
Proof.
  intros E. apply (f_equal String.length) in E. assert (forall a b, String.length (a +:+ b) = (String.length a + String.length b)%nat) as HA.
  { intros a b. induction a as [|c a IH]; [done|]. change (S (String.length (a +:+ b)) = S (String.length a + String.length b)). by rewrite IH. }
  rewrite HA in E. cbn in E. lia.
Qed.

(** The other file and the temporary names are not this one. *)
Definition paths_ok (f cf : string) : Prop := f <> ""%string /\ f <> cf /\ f <> (cf +:+ ".tmp")%string.

Lemma write_other path data w a b fs f : f <> path -> f <> (path +:+ ".tmp")%string -> (writeFileAtomic path data w a b fs).1 !! f = fs !! f.
Proof.
  intros H1 H2. unfold writeFileAtomic. destruct a; [destruct b|]; cbn; repeat first [rewrite lookup_insert_ne by congruence|rewrite lookup_delete_ne by congruence]; done.
Qed.

Lemma write_self path data w a b fs : let '(fs', ok) := writeFileAtomic path data w a b fs in
  ok = a && b /\ fs' !! path = if ok then Some data else fs !! path.
Proof.
  unfold writeFileAtomic. pose proof (tmp_neq path). destruct a; [destruct b|]; cbn; (split; [done|]);
    [by rewrite lookup_insert_eq|by rewrite lookup_insert_ne|by rewrite lookup_insert_ne].
Qed.

(** What the process believes to be on disk is there. *)
Definition synced (fs : fileSystem) (t : TrafficAccounting) : Prop := saved t = [] \/ fs !! tfile t = Some (saved t).

Lemma save_spec f1 f2 fs t : paths_ok (tfile t) (clientFile t) -> synced fs t ->
  let '(fs', t') := saveLocked f1 f2 fs t in
  tfile t' = tfile t /\ clientFile t' = clientFile t /\ synced fs' t' /\
  (fs' !! tfile t = fs !! tfile t \/ fs' !! tfile t = Some (marshalDays (today t) (buckets t))) /\
  (dWrote f1 = true -> dRenamed f1 = true -> fs' !! tfile t = Some (marshalDays (today t) (buckets t))).
Proof.
  intros (HP1 & HP2 & HP3) HS. unfold saveLocked. rewrite (bool_decide_false (tfile t = ""%string)) by done. set (data := marshalDays (today t) (buckets t)).
  set (r := if bool_decide (data = saved t) then (fs, t) else _).
  assert (tfile r.2 = tfile t /\ clientFile r.2 = clientFile t /\ synced r.1 r.2 /\ (r.1 !! tfile t = fs !! tfile t \/ r.1 !! tfile t = Some data) /\
    (dWrote f1 = true -> dRenamed f1 = true -> r.1 !! tfile t = Some data)) as (R1 & R2 & R3 & R4 & R5).
  { unfold r. case_bool_decide as E.
    - cbn. split_and!; auto. intros _ _. destruct HS as [HS|HS]; [|congruence]. exfalso. apply (marshal_nonempty (today t) (buckets t)). unfold data in E. congruence.
    - pose proof (write_self (tfile t) data (dWritten f1) (dWrote f1) (dRenamed f1) fs) as HW. destruct (writeFileAtomic _ _ _ _ _ fs) as [fs' ok]. destruct HW as [-> HW].
      destruct (dWrote f1 && dRenamed f1) eqn:Eok; cbn; rewrite HW; split_and!; auto; try (by right).
      + destruct HS as [HS|HS]; [by left|right]. by rewrite HW.
      + intros Ha Hb. rewrite Ha, Hb in Eok. done. }
  destruct r as [fs1 t1]. cbn [fst snd] in *. destruct (bool_decide (clientFile t1 = ""%string) || _); [by split_and!|]. case_bool_decide; [by split_and!|].
  rewrite R2. set (cdata := marshalClients _ _). pose proof (write_other (clientFile t) cdata (dWritten f2) (dWrote f2) (dRenamed f2) fs1 (tfile t) HP2 HP3) as HW.
  destruct (writeFileAtomic (clientFile t) cdata _ _ _ fs1) as [fs2 ok]. cbn [fst] in HW. unfold synced in *. destruct ok; cbn; rewrite ?R1, ?R2, ?HW in *; by split_and!.
Qed.

Lemma frame_files e x u d s r t : let t' := trimLocked (sampleClientsLocked (fDay e) s (flushTrend x u d r (fRtt e) t)) in
  tfile t' = tfile t /\ clientFile t' = clientFile t /\ saved t' = saved t.
Proof.
  cbn zeta. set (t1 := sampleClientsLocked _ _ _). assert (tfile t1 = tfile t /\ clientFile t1 = clientFile t /\ saved t1 = saved t) as (E1 & E2 & E3).
  { unfold t1, sampleClientsLocked, flushTrend. destruct ((0 <? u) || _ || _), s as [|l|l]; cbn; try done; by destruct (foldl _ (clientLast t, clientBuckets t) l). }
  clearbody t1. unfold trimLocked. repeat (case_match; simplify_eq/=); auto.
Qed.

Lemma flushDay_files day u d t : let t' := flushDay day u d t in tfile t' = tfile t /\ clientFile t' = clientFile t /\ saved t' = saved t.
Proof. unfold flushDay. destruct (bool_decide _), (_ || _); done. Qed.

(** A flush as its last step, saveLocked. *)
Lemma flush_saves e fs t : exists t1, flush e fs t = saveLocked (fFate1 e) (fFate2 e) fs t1 /\ tfile t1 = tfile t /\ clientFile t1 = clientFile t /\ saved t1 = saved t.
Proof.
  unfold flush. set (du := u64 _). set (dd := u64 (down t - _)). set (secs := match lastFlush t with Some _ => _ | None => _ end). clearbody du dd secs.
  eexists. split; [reflexivity|]. set (t0 := set_sampled _ _ _ t). destruct (flushDay_files (fDay e) du dd t0) as (E1 & E2 & E3).
  destruct (frame_files e (fUnix e) du dd (fSampler e) secs (flushDay (fDay e) du dd t0)) as (F1 & F2 & F3). rewrite F1, F2, F3, E1, E2, E3. done.
Qed.

Lemma exec_synced ops fs t : paths_ok (tfile t) (clientFile t) -> synced fs t ->
  let '(fs', t') := trafficExec ops (fs, t) in tfile t' = tfile t /\ clientFile t' = clientFile t /\ synced fs' t'.
Proof.
  revert fs t. induction ops as [|[u d|e] ops IH]; intros fs t HP HS; [by split_and!| |].
  - apply (IH fs (Add u d t)); done.
  - cbn [trafficExec fold_left trafficStep fst snd]. destruct (flush_saves e fs t) as (t1 & E & E1 & E2 & E3). rewrite E.
    pose proof (save_spec (fFate1 e) (fFate2 e) fs t1) as HV. rewrite E1, E2 in HV. specialize (HV HP). unfold synced in HV at 1. rewrite E1, E3 in HV. specialize (HV HS).
    destruct (saveLocked _ _ fs t1) as [fs' t']. destruct HV as (V1 & V2 & V3 & _). specialize (IH fs' t'). rewrite V1, V2 in IH. by apply IH.
Qed.

End Files.

(** A restart continues the history.  After any run, with failing and torn writes
    among its samples, a sample whose write and rename succeed leaves a file from which
    a new process restores exactly the days and figures in memory. *)
Theorem history_survives_restart `{TrafficJSON} (n n' mono mono' : Z) (f cf : string) (fs : fileSystem) (ops : list trafficOp) (e : flushEnv) :
  paths_ok f cf -> 1 <= n -> fs !! f = None -> dWrote (fFate1 e) = true -> dRenamed (fFate1 e) = true ->
  let '(fs', t) := trafficExec (ops ++ [OFlush e]) (fs, OnConfig n f cf mono fs NewTrafficAccounting) in
  Z.of_nat (size (buckets t)) <= n' -> 1 <= n' <= maxTrafficDays ->
  let t' := OnConfig n' f cf mono' fs' NewTrafficAccounting in buckets t' = buckets t /\ today t' = today t.
Proof.
  intros HP Hn Hf Hw Hr. set (t0 := OnConfig n f cf mono fs NewTrafficAccounting).
  assert (tfile t0 = f /\ clientFile t0 = cf /\ saved t0 = []) as (E1 & E2 & E3).
  { unfold t0, OnConfig. cbn [started NewTrafficAccounting]. unfold loadLocked. cbn [tfile set_config]. rewrite Hf.
    rewrite bool_decide_false by apply HP. unfold trimLocked. repeat (case_match; simplify_eq/=); done. }
  pose proof (exec_synced ops fs t0) as HX. rewrite E1, E2 in HX. specialize (HX HP). unfold synced in HX at 1. specialize (HX (or_introl E3)).
  unfold trafficExec in *. rewrite fold_left_app. destruct (fold_left trafficStep ops (fs, t0)) as [fs1 t1]. destruct HX as (X1 & X2 & X3).
  cbn [fold_left trafficStep fst snd]. destruct (flush_saves e fs1 t1) as (t2 & EF & F1 & F2 & F3). rewrite EF.
  pose proof (save_spec (fFate1 e) (fFate2 e) fs1 t2) as HV. rewrite F1, F2, X1, X2 in HV. unfold synced in HV at 1. rewrite F1, F3, X1 in HV.
  unfold synced in X3. rewrite X1 in X3. specialize (HV HP X3).
  assert (buckets (saveLocked (fFate1 e) (fFate2 e) fs1 t2).2 = buckets t2 /\ today (saveLocked (fFate1 e) (fFate2 e) fs1 t2).2 = today t2) as [G1 G2]
    by (destruct (frame_rest e fs1 t2) as (_ & _ & _ & _ & _ & ? & ?); done).
  destruct (saveLocked _ _ fs1 t2) as [fs' t]. cbn [snd] in G1, G2. destruct HV as (_ & _ & _ & _ & HV). specialize (HV Hw Hr). rewrite <- G1, <- G2 in HV.
  intros Hsz Hn'. unfold OnConfig. destruct (Z.leb_spec n' 0), (Z.ltb_spec maxTrafficDays n'); try lia. cbn [started NewTrafficAccounting]. unfold loadLocked. cbn [tfile set_config].
  rewrite HV, days_roundtrip, (bool_decide_false (f = ""%string)) by apply HP. cbn [clientFile set_saved set_buckets set_config].
  set (t3 := set_saved (marshalDays _ _) _ _). assert (forall x, buckets x = buckets t -> today x = today t -> days x = n' -> buckets (trimLocked x) = buckets t /\ today (trimLocked x) = today t) as HT.
  { intros x B1 B2 B3. unfold trimLocked. rewrite B1, B3. destruct (Z.leb_spec n' 0), (Z.leb_spec (Z.of_nat (size (buckets t))) n'); (lia || done). }
  destruct (bool_decide (cf = ""%string)); [by apply HT|]. destruct (fs' !! cf) as [cd|]; [|by apply HT]. destruct (unmarshalClients cd) as [[td cb]|]; by apply HT.
Qed.

(** *** An encoding with the laws, for the examples *)

#[export] Instance trafficDay_eq : EqDecision trafficDay.
Proof. solve_decision. Defined.
#[export] Program Instance trafficDay_countable : Countable trafficDay := inj_countable' (fun d => (Up d, Down d)) (fun p => mkDay p.1 p.2) _.
Next Obligation. by intros [u d]. Qed.

Definition packed {A} `{Countable A} (a : A) : bytes := [Z.pos (encode a)].
Definition unpacked {A} `{Countable A} (b : bytes) : option A := match b with [Z.pos p] => decode p | _ => None end.

#[export] Instance demoJSON : TrafficJSON := {
  marshalDays td b := packed (td, b);
  unmarshalDays := unpacked;
  marshalClients td b := packed (td, b);
  unmarshalClients := unpacked;
  marshal_nonempty td b := ltac:(done);
  days_roundtrip td b := decode_encode (td, b);
  clients_roundtrip td b := decode_encode (td, b)
}.

Definition demoFate (ok : bool) : diskFate := mkFate 3 ok ok.
Definition demoFlush (day : string) (unix : Z) (ok : bool) : flushEnv := mkFlush day unix (unix * 1000000000) None NoSampler (demoFate ok) (demoFate ok).
Definition demoDays : list trafficOp :=
  [OAdd 100 7; OFlush (demoFlush "2026-01-01" 60 true); OAdd 50 0; OFlush (demoFlush "2026-01-02" 120 false); OAdd 5 5].

Lemma traffic_history_exact_witness :
  let t := (trafficExec demoDays (∅, OnConfig 1 "t.json" "t-clients.json" 0 ∅ NewTrafficAccounting)).2 in
  Z.of_nat (size (buckets t)) <= 1 /\ sUp (Snapshot "2026-01-02" t) = 55 /\ buckets t !! "2026-01-01"%string = None.
Proof.
  destruct (traffic_history_exact 1 0 "t.json" "t-clients.json" "2026-01-02" ∅ demoDays) as (H1 & _ & H3).
  - unfold maxTrafficDays. lia.
  - by vm_compute.
  - by vm_compute.
  - done.
  - vm_compute. repeat split; try done.
  - split; [exact H1|]. split; [|by vm_compute]. destruct H3 as (H3 & _); [by vm_compute|done|]. rewrite H3. by vm_compute.
Defined.

Lemma history_survives_restart_witness :
  let '(fs', t) := trafficExec (demoDays ++ [OFlush (demoFlush "2026-01-02" 180 true)]) (∅, OnConfig 2 "t.json" "t-clients.json" 0 ∅ NewTrafficAccounting) in
  Up (default (mkDay 0 0) (buckets t !! "2026-01-02"%string)) = 55 /\ buckets (OnConfig 2 "t.json" "t-clients.json" 9 fs' NewTrafficAccounting) = buckets t.
Proof.
  pose proof (history_survives_restart 2 2 0 9 "t.json" "t-clients.json" ∅ demoDays (demoFlush "2026-01-02" 180 true)) as HR.
  assert (let t := (trafficExec (demoDays ++ [OFlush (demoFlush "2026-01-02" 180 true)]) (∅, OnConfig 2 "t.json" "t-clients.json" 0 ∅ NewTrafficAccounting)).2 in
    Up (default (mkDay 0 0) (buckets t !! "2026-01-02"%string)) = 55 /\ (Z.of_nat (size (buckets t)) <=? 2) = true) as [HE1 HE2] by (split; by vm_compute).
  destruct (trafficExec _ _) as [fs' t]. split; [exact HE1|]. apply HR; try done. by apply Z.leb_le.
Defined.

(** ** The trend *)

Lemma ringPush_length {A} cap (x : A) l : (length (ringPush cap x l) <= cap)%nat \/ (length l < cap)%nat /\ ringPush cap x l = l ++ [x].
Proof. unfold ringPush. destruct (Nat.ltb_spec cap (length (l ++ [x]))) as [H|H]; rewrite length_app in *; cbn in *; [left; rewrite length_drop, length_app; cbn; lia|right; split; [lia|done]]. Qed.

Lemma groupMeans_length fuel step raw : (0 < step)%nat -> (length raw <= fuel)%nat ->
  (step * length (groupMeans fuel step raw) < length raw + step)%nat /\ (length raw <= step * length (groupMeans fuel step raw))%nat.
Proof.
  intros Hs. revert raw. induction fuel as [|fuel IH]; intros raw Hl; [destruct raw; cbn in *; lia|].
  destruct raw as [|p raw]; [cbn; lia|]. specialize (IH (drop step (p :: raw))). rewrite length_drop in IH. specialize (IH ltac:(cbn in *; lia)).
  cbn [groupMeans]. set (g := groupMeans fuel step _) in *. clearbody g. cbn [length] in *.
  replace (step * S (length g))%nat with (step + step * length g)%nat by lia. destruct (Nat.le_gt_cases step (S (length raw))); [lia|].
  assert (step * length g = 0)%nat; [|lia]. assert (length g = 0)%nat; nia.
Qed.

(** The trend of any window has at most 120 points, and no sample is left out. *)
Theorem trend_points_bounded (minutes : Z) (t : TrafficAccounting) :
  let m := Z.to_nat (if minutes <=? 0 then 60 else minutes) in
  let s := TrendSnapshot minutes t in
  (length (Points s) <= trendAggThreshold)%nat /\ (Z.of_nat (Nat.min m (length (trend t))) <= Z.of_nat (length (Points s)) * (StepSec s / 60)).
Proof.
  cbn zeta. unfold TrendSnapshot. set (m := Z.to_nat _). set (raw := drop (length (trend t) - m) (trend t)).
  assert (length raw = Nat.min m (length (trend t))) as Hr by (unfold raw; rewrite length_drop; lia). cbn [Points StepSec].
  set (step := (if (trendAggThreshold <? length raw)%nat then _ else _)). rewrite (Z.mul_comm 60), Z.div_mul by lia. rewrite <- Hr. clearbody raw. clear Hr.
  assert (0 < step /\ length raw <= step * trendAggThreshold)%nat as [Hs1 Hs2].
  { unfold step, trendAggThreshold. destruct (Nat.ltb_spec 120 (length raw)); [|lia]. pose proof (Nat.div_mod (length raw + 120 - 1) 120). pose proof (Nat.mod_upper_bound (length raw + 120 - 1) 120). lia. }
  destruct (groupMeans_length (length raw) step raw Hs1 ltac:(lia)) as [HG1 HG2]. split; [|nia].
  unfold trendAggThreshold in *. destruct (length raw) eqn:El; [destruct raw; [cbn; lia|done]|]. nia.
Qed.

(** *** Two remarks of the source that its code does not follow

    "The same minute gives one point" and "no zero points while idle": a second sample
    within a minute is appended, and an idle minute gives a point. *)
Lemma trend_duplicates_and_zeros :
  let t1 := flushTrend 60 1 0 (f64 1) None NewTrafficAccounting in
  TUnix <$> trend (flushTrend 61 1 0 (f64 1) None t1) = [60; 60] /\
  TUnix <$> trend (flushTrend 120 0 0 (f64 1) None t1) = [60; 120].
Proof. split; by vm_compute. Qed.

(** "Aggregated to five minutes": a full day is aggregated to twelve. *)
Lemma trend_step_of_a_day (t : TrafficAccounting) : length (trend t) = trendCap -> StepSec (TrendSnapshot 1440 t) = 720.
Proof. intros E. unfold TrendSnapshot. cbn [StepSec]. rewrite !length_drop, E. done. Qed.
