(* ===== verification/Sampler.v ===== *)
(** * Per-client sampling on the server (server.go, stats_accounting.go)

    The sampler that feeds the per-client accounting: the server remembers, for every
    session, the counters of its last sample, also for sessions that have ended since.
    Sessions are known by a number, as the source knows them by their address. *)

From stdpp Require Import base tactics list numbers list_numbers gmap strings sorting.
From S2P Require Import Prelude.
#[local] Open Scope Z_scope.

(** Received and sent bytes. *)
Definition pair2 : Type := Z * Z.
Definition padd (a b : pair2) : pair2 := (a.1 + b.1, a.2 + b.2).
Definition pzero : pair2 := (0, 0).
Definition psub (a b : pair2) : pair2 := (a.1 - b.1, a.2 - b.2).
Definition ple (a b : pair2) : Prop := a.1 <= b.1 /\ a.2 <= b.2.

Record smp := mkSmp {
  activeIds : gmap string nat;            (* activeClients *)
  bytesOf : gmap nat pair2;               (* RxBytes and TxBytes of a session *)
  trafficLast : gmap nat pair2;
  retiredTraffic : list (string * nat);
  made : nat;                              (* sessions so far *)
  collectClientTraffic : bool
}.
Definition smp0 : smp := mkSmp ∅ ∅ ∅ [] 0 false.
Definition installTrafficAccounting (s : smp) : smp := mkSmp (activeIds s) (bytesOf s) (trafficLast s) (retiredTraffic s) (made s) true.

Definition counterOf (s : smp) (uid : nat) : pair2 := default pzero (bytesOf s !! uid).

(** The closure [add] of sampleClientTraffic: one session into the result. *)
Definition grown (current previous : Z) : Z := if previous <=? current then current - previous else 0.
Definition addSession (cur : nat -> pair2) (st : gmap string pair2 * gmap nat pair2) (x : string * nat) : gmap string pair2 * gmap nat pair2 :=
  let current := cur x.2 in
  let previous := default pzero (st.2 !! x.2) in
  let delta := default pzero (st.1 !! x.1) in
  (<[x.1 := (delta.1 + grown current.1 previous.1, delta.2 + grown current.2 previous.2)]> st.1, <[x.2 := current]> st.2).
Definition addRetired (cur : nat -> pair2) (st : gmap string pair2 * gmap nat pair2) (x : string * nat) : gmap string pair2 * gmap nat pair2 :=
  let st := addSession cur st x in (st.1, delete x.2 st.2).

Definition sampleClientTraffic (s : smp) : gmap string pair2 * smp :=
  let st := fold_left (addSession (counterOf s)) (map_to_list (activeIds s)) (∅, trafficLast s) in
  let st := fold_left (addRetired (counterOf s)) (retiredTraffic s) st in
  (st.1, mkSmp (activeIds s) (bytesOf s) st.2 [] (made s) (collectClientTraffic s)).

(** A session begins; bytes are counted; a session ends (destroySessionLocked). *)
Definition beginSession (id : string) (s : smp) : smp :=
  match activeIds s !! id with
  | Some _ => s
  | None => mkSmp (<[id := made s]> (activeIds s)) (<[made s := pzero]> (bytesOf s)) (trafficLast s) (retiredTraffic s) (S (made s)) (collectClientTraffic s)
  end.
Definition countBytes (uid : nat) (d : pair2) (s : smp) : smp := mkSmp (activeIds s) (<[uid := padd (counterOf s uid) d]> (bytesOf s)) (trafficLast s) (retiredTraffic s) (made s) (collectClientTraffic s).
Definition endSession (id : string) (uid : nat) (s : smp) : smp :=
  if bool_decide (activeIds s !! id = Some uid) then
    mkSmp (delete id (activeIds s)) (bytesOf s) (trafficLast s) (if collectClientTraffic s then retiredTraffic s ++ [(id, uid)] else retiredTraffic s) (made s) (collectClientTraffic s)
  else s.

Inductive smpOp := PBegin (id : string) | PCount (uid : nat) (d : pair2) | PEnd (id : string) (uid : nat) | PSample.

(** ** The ledger

    Who a session belongs to and its counters when it was last sampled. *)
Record ledger := mkLedger { owner : gmap nat string; seen : gmap nat pair2 }.
Definition seenOf (l : ledger) (uid : nat) : pair2 := default pzero (seen l !! uid).
Definition sampledUids (s : smp) : list nat := (map_to_list (activeIds s)).*2 ++ (retiredTraffic s).*2.

(** The state, what the samples have credited to every client so far, and the ledger. *)
Record smpWorld := mkSW { sys : smp; credited : gmap string pair2; book : ledger }.
Definition creditOf (c : gmap string pair2) (id : string) : pair2 := default pzero (c !! id).
Definition smpStep (w : smpWorld) (op : smpOp) : smpWorld :=
  let s := sys w in
  match op with
  | PBegin id => mkSW (beginSession id s) (credited w) (match activeIds s !! id with Some _ => book w | None => mkLedger (<[made s := id]> (owner (book w))) (seen (book w)) end)
  | PCount uid d => mkSW (countBytes uid d s) (credited w) (book w)
  | PEnd id uid => mkSW (endSession id uid s) (credited w) (book w)
  | PSample => let '(out, s') := sampleClientTraffic s in
    mkSW s' (union_with (fun a b => Some (padd a b)) (credited w) out)
      (mkLedger (owner (book w)) (fold_left (fun m uid => <[uid := counterOf s uid]> m) (sampledUids s) (seen (book w))))
  end.
Definition smpExec (ops : list smpOp) (w : smpWorld) : smpWorld := fold_left smpStep ops w.
Definition smpWorld0 : smpWorld := mkSW (installTrafficAccounting smp0) ∅ (mkLedger ∅ ∅).

(** What the ledger owes to a client: over all sessions it ever had. *)
Definition owed (n : nat) (l : ledger) (id : string) : pair2 := foldr (fun uid acc => if bool_decide (owner l !! uid = Some id) then padd (seenOf l uid) acc else acc) pzero (seq 0 n).

Definition growsOk (op : smpOp) : Prop := match op with PCount _ d => 0 <= d.1 /\ 0 <= d.2 | _ => True end.

(** ** Sums *)

Lemma padd_zero_r a : padd a pzero = a.
Proof. destruct a. unfold padd. cbn. f_equal; lia. Qed.

Lemma foldr_untouched l o sn uid v id : uid ∉ l ->
  foldr (fun u acc => if bool_decide (o !! u = Some id) then padd (seenOf (mkLedger o (<[uid := v]> sn)) u) acc else acc) pzero l
  = foldr (fun u acc => if bool_decide (o !! u = Some id) then padd (seenOf (mkLedger o sn) u) acc else acc) pzero l.
Proof.
  induction l as [|u l IH]; intros Hn; [done|]. apply not_elem_of_cons in Hn as [Hu Hn]. cbn [foldr]. rewrite IH by done.
  case_bool_decide; [|done]. f_equal. unfold seenOf. cbn. by rewrite lookup_insert_ne by congruence.
Qed.

Lemma owed_insert n o sn uid v id : (uid < n)%nat ->
  owed n (mkLedger o (<[uid := v]> sn)) id = if bool_decide (o !! uid = Some id) then padd (owed n (mkLedger o sn) id) (psub v (seenOf (mkLedger o sn) uid)) else owed n (mkLedger o sn) id.
Proof.
  intros Hn. unfold owed. cbn [owner].
  assert (uid ∈ seq 0 n) as Hin by (apply elem_of_seq; lia). pose proof (NoDup_seq 0 n) as HN. revert Hin HN. generalize (seq 0 n). clear Hn.
  induction l as [|u l IH]; intros Hin HN; [by apply elem_of_nil in Hin|]. apply NoDup_cons in HN as [Hu HN]. cbn [foldr]. destruct (decide (u = uid)) as [->|Hne].
  - rewrite foldr_untouched by done. destruct (bool_decide (o !! uid = Some id)); [|done].
    unfold seenOf at 1. cbn [seen]. rewrite lookup_insert_eq. cbn [default from_option]. set (S := foldr _ _ _). set (x := seenOf (mkLedger o sn) uid). clearbody S x. unfold padd, psub. cbn. f_equal; lia.
  - apply elem_of_cons in Hin as [Hin|Hin]; [congruence|]. rewrite (IH Hin HN). assert (seenOf (mkLedger o (<[uid := v]> sn)) u = seenOf (mkLedger o sn) u) as -> by (unfold seenOf; cbn; by rewrite lookup_insert_ne by congruence).
    set (S := foldr _ _ _). clearbody S. destruct (bool_decide (o !! u = Some id)), (bool_decide (o !! uid = Some id)); try done. unfold padd, psub. cbn. f_equal; lia.
Qed.

Lemma owed_owner n o sn uid id' id : (n <= uid)%nat -> owed n (mkLedger (<[uid := id']> o) sn) id = owed n (mkLedger o sn) id.
Proof.
  intros Hn. unfold owed. assert (Forall (fun u => u <> uid) (seq 0 n)) as HF by (apply Forall_forall; intros u Hu; apply elem_of_seq in Hu; lia). revert HF. generalize (seq 0 n).
  induction 1 as [|u l Hu _ IH]; [done|]. cbn [foldr]. rewrite IH. cbn [owner]. rewrite lookup_insert_ne by done. done.
Qed.
Lemma owed_next n o sn id : (forall v, sn !! n = Some v -> v = pzero) -> owed (S n) (mkLedger o sn) id = owed n (mkLedger o sn) id.
Proof.
  intros Hz. unfold owed. rewrite seq_S, foldr_app. cbn [foldr Nat.add]. assert (seenOf (mkLedger o sn) n = pzero) as -> by (unfold seenOf; cbn; destruct (sn !! n) eqn:E; [by apply Hz|done]).
  rewrite padd_zero_r. by destruct (bool_decide _).
Qed.

(** ** One round *)

Definition addStep (fin : bool) (cur : nat -> pair2) (st : gmap string pair2 * gmap nat pair2) (x : string * nat) : gmap string pair2 * gmap nat pair2 :=
  let st := addSession cur st x in (st.1, if fin then delete x.2 st.2 else st.2).

(** A session that is about to be sampled. *)
Definition ready (n : nat) (cur : nat -> pair2) (l : ledger) (last : gmap nat pair2) (x : string * nat) : Prop :=
  owner l !! x.2 = Some x.1 /\ (x.2 < n)%nat /\ default pzero (last !! x.2) = seenOf l x.2 /\ ple (seenOf l x.2) (cur x.2).

Definition setSeen (uid : nat) (v : pair2) (l : ledger) : ledger := mkLedger (owner l) (<[uid := v]> (seen l)).

Lemma addStep_spec fin n cur out last l x : ready n cur l last x ->
  let st := addStep fin cur (out, last) x in let l' := setSeen x.2 (cur x.2) l in
  (forall id, creditOf st.1 id = padd (creditOf out id) (psub (owed n l' id) (owed n l id))) /\
  (forall u, u <> x.2 -> st.2 !! u = last !! u) /\ st.2 !! x.2 = (if fin then None else Some (cur x.2)).
Proof.
  intros (Ho & Hn & Hl & Hle). destruct x as [i uid], l as [o sn]. unfold addStep, addSession, setSeen. cbn [fst snd owner seen] in *. split_and!.
  - intros id. rewrite owed_insert by done. rewrite Hl. unfold creditOf. destruct (decide (id = i)) as [->|Hne].
    + rewrite lookup_insert_eq, bool_decide_true by done. cbn [default from_option]. unfold grown. destruct Hle as [L1 L2].
      destruct (Z.leb_spec (seenOf (mkLedger o sn) uid).1 (cur uid).1); [|lia]. destruct (Z.leb_spec (seenOf (mkLedger o sn) uid).2 (cur uid).2); [|lia].
      set (C := default pzero (out !! i)). set (W := owed n _ i). clearbody C W. unfold padd, psub. cbn. f_equal; lia.
    + rewrite lookup_insert_ne by done. rewrite bool_decide_false by congruence. set (C := default pzero (out !! id)). set (W := owed n _ id). clearbody C W. unfold padd, psub. destruct C. cbn. f_equal; lia.
  - intros u Hu. destruct fin; [rewrite lookup_delete_ne by done|]; by rewrite lookup_insert_ne.
  - destruct fin; [by rewrite lookup_delete_eq|by rewrite lookup_insert_eq].
Qed.

Lemma ready_other n cur l last last' (x y : string * nat) : y.2 <> x.2 -> (forall u, u <> x.2 -> last' !! u = last !! u) -> ready n cur l last y -> ready n cur (setSeen x.2 (cur x.2) l) last' y.
Proof.
  intros Hne HL (H1 & H2 & H3 & H4). assert (seenOf (setSeen x.2 (cur x.2) l) y.2 = seenOf l y.2) as E by (unfold seenOf, setSeen; cbn; by rewrite lookup_insert_ne by done).
  split_and!; [done|done| |]; rewrite E; [by rewrite HL|done].
Qed.

Lemma addLoop_spec fin n cur xs : forall out last l, NoDup xs.*2 -> Forall (ready n cur l last) xs ->
  let st := fold_left (addStep fin cur) xs (out, last) in let l' := fold_left (fun l uid => setSeen uid (cur uid) l) xs.*2 l in
  (forall id, creditOf st.1 id = padd (creditOf out id) (psub (owed n l' id) (owed n l id))) /\
  (forall u, u ∉ xs.*2 -> st.2 !! u = last !! u) /\ (forall u, u ∈ xs.*2 -> st.2 !! u = (if fin then None else Some (cur u))).
Proof.
  induction xs as [|x xs IH]; intros out last l HN HF.
  - cbn. split_and!; [|done|by intros u ?%elem_of_nil]. intros id. generalize (creditOf out id) (owed n l id). intros [a b] W. unfold padd, psub. cbn. f_equal; lia.
  - rewrite fmap_cons in HN. apply NoDup_cons in HN as [Hx HN]. apply Forall_cons in HF as [Hr HF]. rewrite fmap_cons. cbn [fold_left].
    destruct (addStep_spec fin n cur out last l x Hr) as (C1 & C2 & C3). destruct (addStep fin cur (out, last) x) as [out1 last1]. cbn [fst snd] in *.
    destruct (IH out1 last1 (setSeen x.2 (cur x.2) l) HN) as (D1 & D2 & D3).
    { apply Forall_forall. intros y Hy. rewrite Forall_forall in HF. apply (ready_other _ _ _ last); [|done|by apply HF]. intros E. apply Hx. rewrite <- E. by apply list_elem_of_fmap_2. }
    split_and!.
    + intros id. rewrite D1, C1. generalize (creditOf out id). intros [a b]. unfold padd, psub. cbn. f_equal; lia.
    + intros u Hu. apply not_elem_of_cons in Hu as [Hu1 Hu2]. rewrite D2 by done. by apply C2.
    + intros u Hu. destruct (decide (u ∈ xs.*2)) as [Hin|Hin]; [by apply D3|]. apply elem_of_cons in Hu as [->|Hu]; [|done]. rewrite D2 by done. apply C3.
Qed.

Lemma setSeen_fold cur us l : fold_left (fun l uid => setSeen uid (cur uid) l) us l = mkLedger (owner l) (fold_left (fun m uid => <[uid := cur uid]> m) us (seen l)).
Proof. revert l. induction us as [|u us IH]; intros l; [by destruct l|]. cbn [fold_left]. by rewrite IH. Qed.
Lemma seen_fold cur us (m : gmap nat pair2) u : fold_left (fun m uid => <[uid := cur uid]> m) us m !! u = if decide (u ∈ us) then Some (cur u) else m !! u.
Proof.
  revert m. induction us as [|x us IH]; intros m; [done|]. cbn [fold_left]. rewrite IH. destruct (decide (u ∈ us)) as [Hu|Hu]; [by rewrite decide_True by (by right)|].
  destruct (decide (u = x)) as [->|Hn]; [by rewrite lookup_insert_eq, decide_True by (by left)|]. rewrite lookup_insert_ne by done. rewrite decide_False; [done|]. by apply not_elem_of_cons.
Qed.

(** ** Histories *)

Definition pending (s : smp) : list (string * nat) := map_to_list (activeIds s) ++ retiredTraffic s.

Record smp_ok (w : smpWorld) : Prop := {
  so_distinct : NoDup (pending (sys w)).*2;
  so_ready : Forall (ready (made (sys w)) (counterOf (sys w)) (book w) (trafficLast (sys w))) (pending (sys w));
  so_last : forall u, is_Some (trafficLast (sys w) !! u) -> u ∈ (pending (sys w)).*2;
  so_credit : forall id, creditOf (credited w) id = owed (made (sys w)) (book w) id;
  so_fresh : forall u, (made (sys w) <= u)%nat -> seen (book w) !! u = None;
  so_on : collectClientTraffic (sys w) = true
}.

Lemma credit_union c out id : creditOf (union_with (fun a b => Some (padd a b)) c out) id = padd (creditOf c id) (creditOf out id).
Proof.
  unfold creditOf. rewrite lookup_union_with. destruct (c !! id) as [[a b]|], (out !! id) as [[x y]|]; cbn; try done; unfold padd; cbn; f_equal; lia.
Qed.

Lemma fold_left_same {A B} (f g : A -> B -> A) l a : (forall a b, f a b = g a b) -> fold_left f l a = fold_left g l a.
Proof. intros HE. revert a. induction l as [|b l IH]; intros a; [done|]. cbn. by rewrite HE, IH. Qed.

Lemma pending_uids s : (pending s).*2 = sampledUids s.
Proof. unfold pending, sampledUids. by rewrite fmap_app. Qed.

Lemma sample_ok w : smp_ok w -> smp_ok (smpStep w PSample) /\
  (forall u, u ∈ (pending (sys w)).*2 -> seenOf (book (smpStep w PSample)) u = counterOf (sys w) u).
Proof.
  destruct w as [s c l]. intros [HD HR HL HC HF HO]. cbn [sys credited book] in *. unfold smpStep, sampleClientTraffic. cbn [sys credited book].
  set (cur := counterOf s) in *. unfold pending in *. rewrite fmap_app in *. apply NoDup_app in HD as (HD1 & HD12 & HD2). apply Forall_app in HR as [HR1 HR2].
  rewrite (fold_left_same (addSession cur) (addStep false cur)) by done. rewrite (fold_left_same (addRetired cur) (addStep true cur)) by done.
  destruct (addLoop_spec false (made s) cur (map_to_list (activeIds s)) ∅ (trafficLast s) l HD1 HR1) as (C1 & C2 & C3).
  set (st1 := fold_left (addStep false cur) _ _) in *. destruct st1 as [out1 last1]. cbn [fst snd] in *.
  rewrite setSeen_fold in C1. set (l1 := mkLedger (owner l) _) in C1.
  destruct (addLoop_spec true (made s) cur (retiredTraffic s) out1 last1 l1 HD2) as (D1 & D2 & D3).
  { apply Forall_forall. intros [i u] Hx. rewrite Forall_forall in HR2. destruct (HR2 _ Hx) as (R1 & R2 & R3 & R4). cbn [fst snd] in *.
    assert (u ∉ (map_to_list (activeIds s)).*2) as Hu by (intros Hin; apply (HD12 u Hin); by apply (list_elem_of_fmap_2 snd _ (i, u))).
    assert (seenOf l1 u = seenOf l u) as E by (unfold seenOf, l1; cbn [seen]; by rewrite seen_fold, decide_False). split_and!; cbn [fst snd]; [done|done| |]; rewrite E; [by rewrite C2|done]. }
  set (st2 := fold_left (addStep true cur) _ _) in *. destruct st2 as [out2 last2]. cbn [fst snd] in *.
  rewrite setSeen_fold in D1. cbn [owner seen l1] in D1. rewrite <- fold_left_app in D1. set (l2 := mkLedger (owner l) _) in D1.
  assert (forall u, u ∈ (map_to_list (activeIds s)).*2 ++ (retiredTraffic s).*2 -> seenOf l2 u = cur u) as HS.
  { intros u Hu. unfold seenOf, l2. cbn [seen]. by rewrite seen_fold, decide_True. }
  change (mkLedger (owner l) (fold_left (fun m uid => <[uid := cur uid]> m) (sampledUids s) (seen l))) with l2.
  split; [|exact HS]. split; cbn [sys credited book activeIds bytesOf trafficLast retiredTraffic made]; unfold pending; cbn [activeIds retiredTraffic]; rewrite ?app_nil_r.
  - done.
  - apply Forall_forall. intros [i u] Hx. rewrite Forall_forall in HR1. destruct (HR1 _ Hx) as (R1 & R2 & _ & _). cbn [fst snd] in *.
    assert (u ∈ (map_to_list (activeIds s)).*2) as Hu by (by apply (list_elem_of_fmap_2 snd _ (i, u))).
    assert (seenOf l2 u = cur u) as E by (apply HS; apply elem_of_app; by left). split_and!; cbn [fst snd]; [done|done| |]; rewrite E.
    + rewrite D2, C3 by (try done; by apply HD12). done.
    + split; apply Z.le_refl.
  - intros u Hu. destruct (decide (u ∈ (map_to_list (activeIds s)).*2)) as [Ha|Ha]; [done|]. destruct (decide (u ∈ (retiredTraffic s).*2)) as [Hr|Hr].
    + rewrite D3 in Hu by done. by apply is_Some_None in Hu.
    + rewrite D2, C2 in Hu by done. apply HL in Hu. apply elem_of_app in Hu as [?|?]; done.
  - intros id. rewrite credit_union, D1, C1, HC. unfold creditOf. rewrite lookup_empty. cbn [default from_option]. generalize (owed (made s) l2 id) (owed (made s) l1 id) (owed (made s) l id).
    intros [x1 x2] [y1 y2] [z1 z2]. unfold padd, psub, pzero. cbn. f_equal; lia.
  - intros u Hu. unfold l2. cbn [seen]. rewrite seen_fold. case_decide as Hin; [|by apply HF]. exfalso.
    assert (Forall (fun v => (v < made s)%nat) ((map_to_list (activeIds s)).*2 ++ (retiredTraffic s).*2)) as HB.
    { apply Forall_app. split; apply Forall_fmap; [eapply Forall_impl; [exact HR1|]|eapply Forall_impl; [exact HR2|]]; intros x (_ & ? & _); done. }
    rewrite Forall_forall in HB. specialize (HB u Hin). lia.
  - done.
Qed.

Lemma smp_step w op : growsOk op -> smp_ok w -> smp_ok (smpStep w op).
Proof.
  destruct op as [id|uid d|id uid|]; intros Hg Hw; [| | |by apply sample_ok].
  - destruct w as [s c [o sn]]. pose proof Hw as [HD HR HL HC HF HO]. cbn [smpStep sys credited book owner seen] in *. unfold beginSession. destruct (activeIds s !! id) as [u0|] eqn:Eid; [exact Hw|].
    assert (pending (mkSmp (<[id := made s]> (activeIds s)) (<[made s := pzero]> (bytesOf s)) (trafficLast s) (retiredTraffic s) (S (made s)) (collectClientTraffic s)) ≡ₚ (id, made s) :: pending s) as HP.
    { unfold pending. cbn [activeIds retiredTraffic]. by rewrite map_to_list_insert. }
    assert (Forall (fun x : string * nat => (x.2 < made s)%nat) (pending s)) as HB by (eapply Forall_impl; [exact HR|]; intros x (_ & ? & _); done).
    assert (made s ∉ (pending s).*2) as Hnew by (intros Hin; apply list_elem_of_fmap in Hin as (x & E & Hx); rewrite Forall_forall in HB; specialize (HB x Hx); lia).
    split; cbn [sys credited book made].
    + rewrite HP, fmap_cons. constructor; done.
    + rewrite HP. constructor.
      * unfold ready. cbn. rewrite lookup_insert_eq. unfold seenOf, counterOf. cbn. rewrite HF, lookup_insert_eq by lia. cbn. split_and!; [done|lia| |split; cbn; lia].
        destruct (trafficLast s !! made s) eqn:E; [|done]. exfalso. apply Hnew, HL. by eexists.
      * apply Forall_forall. intros x Hx. rewrite Forall_forall in HR, HB. destruct (HR x Hx) as (R1 & R2 & R3 & R4). specialize (HB x Hx). unfold ready, counterOf, seenOf in *. cbn [owner seen bytesOf trafficLast] in *.
        rewrite !lookup_insert_ne by lia. split_and!; [done|lia|done|apply R4..].
    + intros u Hu. cbn [trafficLast] in Hu. rewrite HP, fmap_cons. right. by apply HL.
    + intros i. rewrite HC. rewrite owed_next by (intros v Hv; rewrite HF in Hv by lia; done). by rewrite owed_owner by lia.
    + intros u Hu. apply HF. lia.
    + done.
  - destruct w as [s c l]. destruct Hw as [HD HR HL HC HF HO]. cbn [smpStep sys credited book] in *. destruct Hg as [G1 G2].
    split; cbn [sys credited book]; try done. eapply Forall_impl; [exact HR|]. intros x (R1 & R2 & R3 & R4).
    split_and!; [done|done|done|]. destruct R4 as [L1 L2]. revert L1 L2. generalize (seenOf l x.2). intros q L1 L2. unfold counterOf, countBytes. cbn [bytesOf].
    destruct (decide (x.2 = uid)) as [E|Hne]; [|by rewrite lookup_insert_ne by done].
    rewrite E in L1, L2 |- *. rewrite lookup_insert_eq. cbn [default from_option]. fold (counterOf s uid). revert L1 L2. generalize (counterOf s uid). intros [a b] L1 L2. destruct d as [d1 d2], q as [q1 q2]. unfold ple, padd. cbn in *. unfold id. cbn. lia.
  - destruct w as [s c l]. pose proof Hw as [HD HR HL HC HF HO]. cbn [smpStep sys credited book] in *. unfold endSession. destruct (bool_decide_reflect (activeIds s !! id = Some uid)) as [Eid|_]; [|exact Hw].
    rewrite HO. set (s' := mkSmp _ _ _ _ _ _).
    assert (pending s' ≡ₚ pending s) as HP.
    { subst s'. unfold pending. cbn [activeIds retiredTraffic]. rewrite <- (map_to_list_delete (activeIds s) id uid Eid). cbn [app]. rewrite app_assoc, <- Permutation_cons_append. done. }
    split; cbn [sys credited book]; rewrite ?HP; try done. intros u Hu. rewrite HP. by apply HL.
Qed.

(** Every client is credited what its sessions have carried.  Through any history of
    sessions that begin, count and end, and of samples between: what the samples have
    credited to a client is the sum, over all sessions it ever had, of their counters at
    their last sample; a sample takes in every session that is running and the last
    bytes of every session that has ended since the sample before; and the table of last
    samples has no entry for any other session. *)
Theorem client_traffic_exact (ops : list smpOp) : Forall growsOk ops ->
  let w := smpExec ops smpWorld0 in
  (forall id, creditOf (credited w) id = owed (made (sys w)) (book w) id) /\
  (forall id u, (id, u) ∈ pending (sys w) -> owner (book w) !! u = Some id /\ seenOf (book (smpStep w PSample)) u = counterOf (sys w) u) /\
  (forall u, is_Some (trafficLast (sys w) !! u) -> u ∈ (pending (sys w)).*2).
Proof.
  intros HF w. assert (smp_ok w) as Hw.
  { subst w. assert (smp_ok smpWorld0) as H0.
    { split; cbn; unfold pending; cbn; rewrite ?map_to_list_empty; try done; try constructor. intros u Hu. rewrite lookup_empty in Hu. by apply is_Some_None in Hu. }
    revert H0. generalize smpWorld0. induction HF as [|op ops Hop _ IH]; intros w Hw; [done|]. by apply IH, smp_step. }
  split_and!; [apply Hw| |apply Hw]. intros id u Hu. split.
  - pose proof (so_ready w Hw) as HR. rewrite Forall_forall in HR. apply (HR (id, u) Hu).
  - apply sample_ok; [done|]. by apply (list_elem_of_fmap_2 snd _ (id, u)).
Qed.

Definition demoOps : list smpOp := [PBegin "a"; PCount 0 (100, 7); PSample; PCount 0 (20, 0); PEnd "a" 0; PBegin "a"; PCount 1 (5, 5); PCount 0 (1, 1); PSample]%string.

Lemma client_traffic_exact_witness : let w := smpExec demoOps smpWorld0 in creditOf (credited w) "a" = owed (made (sys w)) (book w) "a" /\ creditOf (credited w) "a" = (126, 13).
Proof.
  split; [|vm_compute; reflexivity]. refine (proj1 (client_traffic_exact demoOps _) "a"%string). repeat constructor; cbn; lia.
Defined.
