(* ===== verification/Tap.v ===== *)
(** * The device writer (tap_delivery.go)

    A bounded queue between the receive path and one worker that writes to the device.
    The producers, the worker and the cancellation interleave freely; where a [select]
    has more than one ready case the language picks any of them, so each case is a label
    of its own.  Buffers are known by a number. *)

From stdpp Require Import base tactics list numbers.
From S2P Require Import Prelude.
#[local] Open Scope nat_scope.

(** Where the worker [run] stands: at its select, in writeOwned, in releaseQueued, returned. *)
Inductive tapPhase := TSelect | TWriting (f : nat) | TReleasing | TReturned.
#[export] Instance tapPhase_eq : EqDecision tapPhase.
Proof. solve_decision. Defined.

Record ownedTapDelivery := mkTap {
  tapQ : list nat;                (* ch *)
  tapCap : nat;
  tapDone : bool;                 (* ctx *)
  tapWorker : tapPhase;
  tapWrites : list (nat * bool);  (* the calls of writer.Write and whether each failed *)
  tapReports : nat;               (* the calls of onWriteErr *)
  tapPool : list nat              (* the calls of putFrame *)
}.

Definition newOwnedTapDelivery (queue : Z) : ownedTapDelivery := mkTap [] (Z.to_nat (if (queue <? 1)%Z then 1 else queue)%Z) false TSelect [] 0 [].
Definition asyncTapDeliveryQueue : Z := 128.

Inductive tapLabel :=
| LSend (frame : option nat)       (* EnqueueOwned, the send *)
| LGiveBack (frame : option nat)   (* EnqueueOwned, the context *)
| LCancel
| LTake | LWrite (failed : bool) | LQuit | LRelease | LReturn.

(** EnqueueOwned: [None] when the chosen case is not ready. *)
Definition EnqueueOwned (viaContext : bool) (frame : option nat) (d : ownedTapDelivery) : option ownedTapDelivery :=
  match frame with
  | None => Some d
  | Some f =>
    if viaContext then
      if tapDone d then Some (mkTap (tapQ d) (tapCap d) (tapDone d) (tapWorker d) (tapWrites d) (tapReports d) (tapPool d ++ [f])) else None
    else if (length (tapQ d) <? tapCap d) then Some (mkTap (tapQ d ++ [f]) (tapCap d) (tapDone d) (tapWorker d) (tapWrites d) (tapReports d) (tapPool d)) else None
  end.

(** writeOwned: the write, the report and the return of the buffer. *)
Definition writeOwned (failed : bool) (f : nat) (d : ownedTapDelivery) : ownedTapDelivery :=
  mkTap (tapQ d) (tapCap d) (tapDone d) TSelect (tapWrites d ++ [(f, failed)]) (if failed then S (tapReports d) else tapReports d) (tapPool d ++ [f]).

(** One round of releaseQueued. *)
Definition releaseQueued (d : ownedTapDelivery) : ownedTapDelivery :=
  match tapQ d with
  | f :: q => mkTap q (tapCap d) (tapDone d) TReleasing (tapWrites d) (tapReports d) (tapPool d ++ [f])
  | [] => mkTap [] (tapCap d) (tapDone d) TReturned (tapWrites d) (tapReports d) (tapPool d)
  end.

Definition setWorker (p : tapPhase) (q : list nat) (d : ownedTapDelivery) : ownedTapDelivery := mkTap q (tapCap d) (tapDone d) p (tapWrites d) (tapReports d) (tapPool d).

Definition tapStep (d : ownedTapDelivery) (l : tapLabel) : option ownedTapDelivery :=
  match l with
  | LSend f => EnqueueOwned false f d
  | LGiveBack f => EnqueueOwned true f d
  | LCancel => Some (mkTap (tapQ d) (tapCap d) true (tapWorker d) (tapWrites d) (tapReports d) (tapPool d))
  | LTake => match tapWorker d, tapQ d with TSelect, f :: q => Some (setWorker (TWriting f) q d) | _, _ => None end
  | LWrite failed => match tapWorker d with TWriting f => Some (writeOwned failed f d) | _ => None end
  | LQuit => match tapWorker d with TSelect => if tapDone d then Some (setWorker TReleasing (tapQ d) d) else None | _ => None end
  | LRelease => match tapWorker d, tapQ d with TReleasing, _ :: _ => Some (releaseQueued d) | _, _ => None end
  | LReturn => match tapWorker d, tapQ d with TReleasing, [] => Some (releaseQueued d) | _, _ => None end
  end.

(** ** Histories *)

Inductive tapRun (d0 : ownedTapDelivery) : list tapLabel -> ownedTapDelivery -> Prop :=
| run_here : tapRun d0 [] d0
| run_step ls d l d' : tapRun d0 ls d -> tapStep d l = Some d' -> tapRun d0 (ls ++ [l]) d'.

Definition tapExec (d0 : ownedTapDelivery) (ls : list tapLabel) : option ownedTapDelivery := fold_left (fun o l => o ≫= fun d => tapStep d l) ls (Some d0).
Lemma tapExec_run d0 ls d : tapExec d0 ls = Some d -> tapRun d0 ls d.
Proof.
  revert d. induction ls as [|l ls IH] using rev_ind; intros d He; [injection He as <-; constructor|].
  unfold tapExec in He. rewrite fold_left_app in He. cbn in He. apply bind_Some in He as (d1 & H1 & H2). apply (run_step _ ls d1); [by apply IH|done].
Qed.

(** The buffers given to EnqueueOwned, and those that entered the queue. *)
Definition givenOf (l : tapLabel) : list nat := match l with LSend (Some f) | LGiveBack (Some f) => [f] | _ => [] end.
Definition sentOf (l : tapLabel) : list nat := match l with LSend (Some f) => [f] | _ => [] end.
Definition given (ls : list tapLabel) : list nat := ls ≫= givenOf.
Definition sent (ls : list tapLabel) : list nat := ls ≫= sentOf.
Definition inHand (p : tapPhase) : list nat := match p with TWriting f => [f] | _ => [] end.
Definition failures (ws : list (nat * bool)) : nat := length (List.filter snd ws).

Record tap_ok (ls : list tapLabel) (d : ownedTapDelivery) : Prop := {
  to_bound : length (tapQ d) <= tapCap d;
  to_order : exists released, sent ls = (tapWrites d).*1 ++ inHand (tapWorker d) ++ released ++ tapQ d /\ (tapWorker d = TSelect \/ inHand (tapWorker d) <> [] -> released = []);
  to_pool : given ls ≡ₚ tapPool d ++ inHand (tapWorker d) ++ tapQ d;
  to_live : tapDone d = false -> given ls = sent ls /\ (tapWorker d = TSelect \/ inHand (tapWorker d) <> []);
  to_reports : tapReports d = failures (tapWrites d)
}.

Lemma given_snoc ls l : given (ls ++ [l]) = given ls ++ givenOf l.
Proof. unfold given. rewrite bind_app. cbn. by rewrite app_nil_r. Qed.
Lemma sent_snoc ls l : sent (ls ++ [l]) = sent ls ++ sentOf l.
Proof. unfold sent. rewrite bind_app. cbn. by rewrite app_nil_r. Qed.
Lemma failures_snoc ws f b : failures (ws ++ [(f, b)]) = if b then S (failures ws) else failures ws.
Proof. unfold failures. rewrite List.filter_app, length_app. destruct b; cbn; lia. Qed.

Lemma tap_ok_step ls d l d' : tap_ok ls d -> tapStep d l = Some d' -> tap_ok (ls ++ [l]) d'.
Proof.
  destruct d as [q cap dn w ws rp pool]. intros [HB (rel & HO & HR) HP HL HE]. cbn [tapQ tapCap tapDone tapWorker tapWrites tapReports tapPool] in *.
  destruct l as [[f|]|[f|]| | |failed| | |]; cbn [tapStep EnqueueOwned tapQ tapCap tapDone tapWorker tapWrites tapReports tapPool]; intros Hs.
  - destruct (Nat.ltb_spec (length q) cap); [|done]. injection Hs as <-. split; cbn [tapQ tapCap tapDone tapWorker tapWrites tapReports tapPool]; rewrite ?given_snoc, ?sent_snoc; cbn [givenOf sentOf].
    + rewrite length_app. cbn. lia.
    + exists rel. rewrite HO. split; [by rewrite <- !app_assoc|done].
    + rewrite HP. by rewrite <- !app_assoc.
    + intros Hd. destruct (HL Hd) as [-> ?]. done.
    + done.
  - injection Hs as <-. split; cbn; rewrite ?given_snoc, ?sent_snoc; cbn [givenOf sentOf]; rewrite ?app_nil_r; eauto.
  - destruct dn; [|done]. injection Hs as <-. split; cbn [tapQ tapCap tapDone tapWorker tapWrites tapReports tapPool]; rewrite ?given_snoc, ?sent_snoc; cbn [givenOf sentOf]; rewrite ?app_nil_r; eauto; [|done].
    rewrite HP. rewrite <- !app_assoc. apply Permutation_app_head. rewrite app_assoc. symmetry. apply Permutation_cons_append.
  - injection Hs as <-. split; cbn; rewrite ?given_snoc, ?sent_snoc; cbn [givenOf sentOf]; rewrite ?app_nil_r; eauto.
  - injection Hs as <-. split; cbn; rewrite ?given_snoc, ?sent_snoc; cbn [givenOf sentOf]; rewrite ?app_nil_r; eauto; done.
  - destruct w; try done. destruct q as [|f q]; [done|]. injection Hs as <-. split; cbn [setWorker tapQ tapCap tapDone tapWorker tapWrites tapReports tapPool inHand] in *; rewrite ?given_snoc, ?sent_snoc; cbn [givenOf sentOf]; rewrite ?app_nil_r; eauto.
    + cbn in HB. lia.
    + exists []. rewrite HO, HR by (by left). done.
    + intros Hd. destruct (HL Hd) as [? _]. split; [done|by right].
  - destruct w as [|f| |]; try done. injection Hs as <-. cbn [inHand] in *. split; cbn [writeOwned tapQ tapCap tapDone tapWorker tapWrites tapReports tapPool inHand] in *; rewrite ?given_snoc, ?sent_snoc; cbn [givenOf sentOf]; rewrite ?app_nil_r; eauto.
    + exists []. rewrite HO, HR by (by right). rewrite fmap_app. cbn. by rewrite <- app_assoc.
    + rewrite HP. by rewrite <- !app_assoc.
    + intros Hd. destruct (HL Hd) as [? _]. split; [done|by left].
    + rewrite failures_snoc, HE. done.
  - destruct w; try done. destruct dn; [|done]. injection Hs as <-. split; cbn [setWorker tapQ tapCap tapDone tapWorker tapWrites tapReports tapPool inHand] in *; rewrite ?given_snoc, ?sent_snoc; cbn [givenOf sentOf]; rewrite ?app_nil_r; eauto.
    done.
  - destruct w; try done. destruct q as [|f q]; [done|]. injection Hs as <-. split; cbn [releaseQueued tapQ tapCap tapDone tapWorker tapWrites tapReports tapPool inHand] in *; rewrite ?given_snoc, ?sent_snoc; cbn [givenOf sentOf]; rewrite ?app_nil_r; eauto.
    + cbn in HB. lia.
    + exists (rel ++ [f]). rewrite HO. split; [by rewrite <- !app_assoc|intros [?|?]; done].
    + rewrite HP. cbn. by rewrite <- !app_assoc.
  - destruct w; try done. destruct q as [|f q]; [|done]. injection Hs as <-. split; cbn [releaseQueued tapQ tapCap tapDone tapWorker tapWrites tapReports tapPool inHand] in *; rewrite ?given_snoc, ?sent_snoc; cbn [givenOf sentOf]; rewrite ?app_nil_r; eauto.
    + exists rel. split; [done|]. intros [?|?]; done.
    + rewrite HP. cbn. by rewrite app_nil_r.
    + intros Hd. destruct (HL Hd) as [? [?|?]]; done.
Qed.

Lemma tap_ok_run queue ls d : tapRun (newOwnedTapDelivery queue) ls d -> tap_ok ls d.
Proof.
  induction 1 as [|ls d l d' _ IH Hs]; [|by eapply tap_ok_step]. split; cbn; try done; [lia|by exists []|]. intros _. split; [done|by left].
Qed.

(** ** The worker left alone *)

Definition workerLabel (l : tapLabel) : bool := match l with LTake | LWrite _ | LQuit | LRelease | LReturn => true | _ => false end.
Definition tapWork (d : ownedTapDelivery) : nat :=
  2 * length (tapQ d) + match tapWorker d with TSelect => 2 | TWriting _ => 3 | TReleasing => 1 | TReturned => 0 end.

Lemma worker_step_less d l d' : workerLabel l = true -> tapStep d l = Some d' -> tapWork d' < tapWork d.
Proof.
  destruct d as [q cap dn w ws rp pool]. destruct l as [?|?| | |failed| | |]; try done; intros _; cbn; destruct w; try done; destruct q as [|g q], dn; try done; intros Hs; injection Hs as <-; unfold tapWork; cbn; lia.
Qed.
Lemma worker_ready d : tapDone d = true -> tapWorker d <> TReturned -> exists l, workerLabel l = true /\ is_Some (tapStep d l).
Proof.
  destruct d as [q cap dn w ws rp pool]. cbn. intros -> Hw. destruct w as [|f| |]; [exists LQuit|exists (LWrite false)| |done]; try (by split).
  destruct q; [exists LReturn|exists LRelease]; by split.
Qed.

(** Buffers reach the device in the order they entered the queue and none is lost or
    returned twice.  In every interleaving: the calls of Write are, in order, a prefix of
    the buffers that entered the queue; every buffer given to EnqueueOwned is exactly once
    in the pool, in the worker's hand or in the queue; the queue stays within its size;
    until the context is cancelled no buffer is dropped, what entered the queue being what
    was written, what is in hand and what is queued; every failed write is reported once. *)
Theorem tap_delivery_fifo (queue : Z) (ls : list tapLabel) (d : ownedTapDelivery) : tapRun (newOwnedTapDelivery queue) ls d ->
  (tapWrites d).*1 `prefix_of` sent ls /\ given ls ≡ₚ tapPool d ++ inHand (tapWorker d) ++ tapQ d /\ length (tapQ d) <= tapCap d /\
  (tapDone d = false -> given ls = (tapWrites d).*1 ++ inHand (tapWorker d) ++ tapQ d) /\ tapReports d = failures (tapWrites d).
Proof.
  intros Hr. destruct (tap_ok_run _ _ _ Hr) as [HB (rel & HO & HR) HP HL HE]. split_and!; try done.
  - rewrite HO. by eexists.
  - intros Hd. destruct (HL Hd) as [-> Hw]. by rewrite HO, (HR Hw).
Qed.

(** After the cancellation the worker stops by itself, whatever its select picks: each of
    its steps lessens the work left, it always has one until it has returned, and if
    nothing is sent meanwhile it returns with the queue empty. *)
Theorem tap_worker_stops (d : ownedTapDelivery) : tapDone d = true ->
  (forall l d', workerLabel l = true -> tapStep d l = Some d' -> tapWork d' < tapWork d /\ tapDone d' = true) /\
  (tapWorker d <> TReturned -> exists l, workerLabel l = true /\ is_Some (tapStep d l)) /\
  (forall l d', workerLabel l = true -> tapStep d l = Some d' -> tapWorker d' = TReturned -> tapQ d' = []).
Proof.
  intros Hd. split_and!.
  - intros l d' Hl Hs. split; [by apply (worker_step_less d l)|]. destruct d as [q cap dn w ws rp pool]. cbn in Hd. subst dn.
    destruct l; try done; cbn in Hs; destruct w, q; try done; by injection Hs as <-.
  - by apply worker_ready.
  - intros l d' Hl Hs Hw. destruct d as [q cap dn w ws rp pool]. cbn in Hd. subst dn. destruct l; try done; cbn in Hs; destruct w, q; try done; injection Hs as <-; done.
Qed.

(** A buffer sent after the worker has returned stays in the queue: with the context
    cancelled and room in the queue both cases of EnqueueOwned's select are ready, and
    after the worker's return nothing takes from the queue. *)
Theorem late_send_strands_buffer : exists ls d, tapRun (newOwnedTapDelivery asyncTapDeliveryQueue) ls d /\ tapWorker d = TReturned /\ tapQ d = [7] /\ tapPool d = [] /\
  (forall l, workerLabel l = true -> tapStep d l = None).
Proof.
  exists [LCancel; LQuit; LReturn; LSend (Some 7)]. eexists. split_and!.
  - apply tapExec_run. vm_compute. reflexivity.
  - done.
  - done.
  - done.
  - by intros [].
Qed.

Definition demoTap : list tapLabel := [LSend (Some 1); LSend (Some 2); LTake; LSend (Some 3); LWrite true; LTake; LCancel; LWrite false; LGiveBack (Some 4); LQuit; LRelease; LReturn].

Lemma tap_delivery_fifo_witness : exists d, tapExec (newOwnedTapDelivery 2) demoTap = Some d /\ (tapWrites d).*1 `prefix_of` sent demoTap /\ (tapWrites d).*1 = [1; 2] /\ sent demoTap = [1; 2; 3] /\ tapPool d = [1; 2; 4; 3].
Proof.
  eexists. split; [vm_compute; reflexivity|]. split; [|vm_compute; auto]. refine (proj1 (tap_delivery_fifo 2 demoTap _ _)). apply tapExec_run. vm_compute. reflexivity.
Defined.
Lemma tap_worker_stops_witness : exists d, tapExec (newOwnedTapDelivery 2) (take 7 demoTap) = Some d /\ tapWork d = 5 /\ exists l, workerLabel l = true /\ is_Some (tapStep d l).
Proof.
  eexists. split; [vm_compute; reflexivity|]. split; [reflexivity|]. refine (proj1 (proj2 (tap_worker_stops _ _)) _); [reflexivity|done].
Defined.
