(* ===== verification/Accept.v ===== *)
(** * The listener of the server (server.go: serveListener; utils.go)

    Every accepted connection takes a slot of the limiter and runs in a goroutine of its
    own: the first byte decides between TLS and plain HTTP, the first byte inside TLS
    between the tunnel and the decoy site; the slot is given back when the goroutine
    returns.  What the peer sends, how a handshake ends and when a connection is over are
    events; goroutines interleave. *)

From stdpp Require Import base tactics list numbers list_numbers gmap strings sorting.
From S2P Require Import Prelude Guards.
#[local] Open Scope Z_scope.

(** Where the goroutine of a connection stands: reading the first byte, in the handshake,
    reading the first byte inside TLS, in handleConnection, in http2's ServeConn. *)
Inductive connStage := CPeek | CTLS | CPeek2 (alpn : string) | CTunnel | CHttp2.

Record acceptor := mkAcc {
  aLimiter : connectionLimiter;
  aRunning : gmap nat (string * connStage);   (* goroutines, with the remote host *)
  aDetached : gmap nat string;                 (* connections net/http serves on its own *)
  aClosed : list nat;
  aNext : nat;
  aRejected : Z; aFallback : Z; aTLSFail : Z;  (* the protect counters *)
  aDone : bool;                                (* ctx *)
  aServing : bool                              (* the accept loop runs *)
}.
Definition acceptor0 : acceptor := mkAcc (mkLimiter 0 ∅) ∅ ∅ [] 0 0 0 0 false true.

Definition setStage (i : nat) (host : string) (st : connStage) (a : acceptor) : acceptor :=
  mkAcc (aLimiter a) (<[i := (host, st)]> (aRunning a)) (aDetached a) (aClosed a) (aNext a) (aRejected a) (aFallback a) (aTLSFail a) (aDone a) (aServing a).
(** The goroutine closes the connection and returns: the deferred release. *)
Definition closeConn (i : nat) (host : string) (a : acceptor) : acceptor :=
  mkAcc (release host (aLimiter a)) (delete i (aRunning a)) (aDetached a) (aClosed a ++ [i]) (aNext a) (aRejected a) (aFallback a) (aTLSFail a) (aDone a) (aServing a).
Definition countFallback (a : acceptor) : acceptor :=
  mkAcc (aLimiter a) (aRunning a) (aDetached a) (aClosed a) (aNext a) (aRejected a) (aFallback a + 1) (aTLSFail a) (aDone a) (aServing a).
Definition countTLSFail (a : acceptor) : acceptor :=
  mkAcc (aLimiter a) (aRunning a) (aDetached a) (aClosed a) (aNext a) (aRejected a) (aFallback a) (aTLSFail a + 1) (aDone a) (aServing a).

(** serveFallbackHTTP: http2 serves the connection in place; http.Server.Serve takes it
    from singleConnListener, starts a goroutine for it, gets net.ErrClosed from the next
    Accept and returns, and with it the goroutine of the connection. *)
Definition serveFallbackHTTP (i : nat) (host alpn : string) (a : acceptor) : acceptor :=
  let a := countFallback a in
  if bool_decide (alpn = "h2"%string) then setStage i host CHttp2 a
  else mkAcc (release host (aLimiter a)) (delete i (aRunning a)) (<[i := host]> (aDetached a)) (aClosed a) (aNext a) (aRejected a) (aFallback a) (aTLSFail a) (aDone a) (aServing a).

Inductive acceptEv :=
| EAccept (host : string) | EAcceptErr | ECancel
| EPeek (i : nat) (b : option Z)         (* the first byte, or a failed read *)
| EHandshake (i : nat) (alpn : option string)
| EPeek2 (i : nat) (b : option Z)
| EReturn (i : nat)                      (* handleConnection or ServeConn returns *)
| EHttpEnd (i : nat).                    (* net/http is done with a detached connection *)

(** The accept loop. *)
Definition acceptOne (host : string) (a : acceptor) : acceptor :=
  let '(l, ok) := acquire host (aLimiter a) in
  if ok then mkAcc l (<[aNext a := (host, CPeek)]> (aRunning a)) (aDetached a) (aClosed a) (S (aNext a)) (aRejected a) (aFallback a) (aTLSFail a) (aDone a) (aServing a)
  else mkAcc l (aRunning a) (aDetached a) (aClosed a) (aNext a) (aRejected a + 1) (aFallback a) (aTLSFail a) (aDone a) (aServing a).

Definition serveListener (a : acceptor) (ev : acceptEv) : acceptor :=
  match ev with
  | EAccept host => if aServing a && negb (aDone a) then acceptOne host a else a
  | EAcceptErr => mkAcc (aLimiter a) (aRunning a) (aDetached a) (aClosed a) (aNext a) (aRejected a) (aFallback a) (aTLSFail a) (aDone a) (aServing a && negb (aDone a))
  | ECancel => mkAcc (aLimiter a) (aRunning a) (aDetached a) (aClosed a) (aNext a) (aRejected a) (aFallback a) (aTLSFail a) true (aServing a)
  | EPeek i b =>
    match aRunning a !! i with
    | Some (host, CPeek) => match b with None => closeConn i host a | Some b => if b =? 22 then setStage i host CTLS a else serveFallbackHTTP i host "http/1.1" a end
    | _ => a
    end
  | EHandshake i alpn =>
    match aRunning a !! i with
    | Some (host, CTLS) => match alpn with None => closeConn i host (countTLSFail a) | Some p => setStage i host (CPeek2 p) a end
    | _ => a
    end
  | EPeek2 i b =>
    match aRunning a !! i with
    | Some (host, CPeek2 alpn) => match b with None => closeConn i host a | Some b => if 32 <=? b then serveFallbackHTTP i host alpn a else setStage i host CTunnel a end
    | _ => a
    end
  | EReturn i => match aRunning a !! i with Some (host, CTunnel) | Some (host, CHttp2) => closeConn i host a | _ => a end
  | EHttpEnd i =>
    match aDetached a !! i with
    | Some _ => mkAcc (aLimiter a) (aRunning a) (delete i (aDetached a)) (aClosed a ++ [i]) (aNext a) (aRejected a) (aFallback a) (aTLSFail a) (aDone a) (aServing a)
    | None => a
    end
  end.
Definition acceptRun (evs : list acceptEv) (a : acceptor) : acceptor := fold_left serveListener evs a.

(** ** The slots *)

Definition hostsOf (m : gmap nat (string * connStage)) : list string := (fun x : nat * (string * connStage) => x.2.1) <$> map_to_list m.

Lemma lim_inv_perm l open open' : open ≡ₚ open' -> lim_inv (l, open) -> lim_inv (l, open').
Proof.
  intros HP [H1 H2 H3 H4 H5]. assert (lenZ open' = lenZ open) as EL by (unfold lenZ; by rewrite HP). assert (forall h, countOf h open' = countOf h open) as EC by (intros h; unfold countOf, lenZ; by rewrite HP).
  split; cbn [fst snd] in *; [by rewrite EL|intros h; by rewrite EC|done|by rewrite EL|intros h; by rewrite EC].
Qed.

Lemma hosts_insert m i x : m !! i = None -> hostsOf (<[i := x]> m) ≡ₚ x.1 :: hostsOf m.
Proof. intros Hi. unfold hostsOf. rewrite map_to_list_insert by done. done. Qed.
Lemma hosts_delete m i x : m !! i = Some x -> x.1 :: hostsOf (delete i m) ≡ₚ hostsOf m.
Proof. intros Hi. rewrite <- (hosts_insert (delete i m) i x) by (by rewrite lookup_delete_eq). by rewrite insert_delete_id. Qed.
Lemma hosts_stage m i host st st' : m !! i = Some (host, st) -> hostsOf (<[i := (host, st')]> m) ≡ₚ hostsOf m.
Proof.
  intros Hi. rewrite <- (hosts_delete m i (host, st) Hi), <- (insert_delete_eq m i (host, st')). rewrite hosts_insert by (by rewrite lookup_delete_eq). done.
Qed.

Lemma release_inv l m i host st : m !! i = Some (host, st) -> lim_inv (l, hostsOf m) -> lim_inv (release host l, hostsOf (delete i m)).
Proof.
  intros Hi Hl. pose proof (hosts_delete m i (host, st) Hi) as HP. cbn [fst] in HP. apply (lim_inv_perm _ _ (host :: hostsOf (delete i m))) in Hl; [|by symmetry].
  exact (limStep_inv _ (LEnd 0) Hl).
Qed.

(** A connection is running, detached or closed. *)
Definition places (a : acceptor) : list nat := (map_to_list (aRunning a)).*1 ++ (map_to_list (aDetached a)).*1 ++ aClosed a.

Record accept_ok (a : acceptor) : Prop := {
  ao_limits : lim_inv (aLimiter a, hostsOf (aRunning a));
  ao_places : places a ≡ₚ seq 0 (aNext a)
}.

Lemma fresh_id (a : acceptor) : places a ≡ₚ seq 0 (aNext a) -> aRunning a !! aNext a = None.
Proof.
  intros HP. destruct (aRunning a !! aNext a) as [x|] eqn:E; [|done]. exfalso. assert (aNext a ∈ places a) as Hi.
  { unfold places. apply elem_of_app. left. apply (list_elem_of_fmap_2 fst _ (aNext a, x)). by apply elem_of_map_to_list. }
  rewrite HP in Hi. apply elem_of_seq in Hi. lia.
Qed.

(** Moving a running connection to the end of another place. *)
Lemma keys_delete {A} (m : gmap nat A) i x : m !! i = Some x -> i :: (map_to_list (delete i m)).*1 ≡ₚ (map_to_list m).*1.
Proof. intros Hi. by rewrite <- (map_to_list_delete m i x Hi). Qed.
Lemma keys_stage {A} (m : gmap nat A) i x y : m !! i = Some x -> (map_to_list (<[i := y]> m)).*1 ≡ₚ (map_to_list m).*1.
Proof. intros Hi. rewrite <- (insert_delete_eq m i y), map_to_list_insert by (by rewrite lookup_delete_eq). cbn. by apply (keys_delete m i x). Qed.

Lemma setStage_ok a i host st st' : aRunning a !! i = Some (host, st) -> accept_ok a -> accept_ok (setStage i host st' a).
Proof.
  intros Hi [HL HP]. split; cbn [setStage aLimiter aRunning aNext].
  - eapply lim_inv_perm; [symmetry; by apply (hosts_stage _ _ _ st)|done].
  - unfold places. cbn [setStage aRunning aDetached aClosed]. by rewrite (keys_stage _ i (host, st)).
Qed.
Lemma closeConn_ok a i host st : aRunning a !! i = Some (host, st) -> accept_ok a -> accept_ok (closeConn i host a).
Proof.
  intros Hi [HL HP]. split; cbn [closeConn aLimiter aRunning aNext]; [by apply (release_inv _ _ _ _ st)|].
  unfold places in *. cbn [closeConn aRunning aDetached aClosed]. rewrite <- HP, <- (keys_delete (aRunning a) i (host, st) Hi).
  rewrite !app_assoc, <- Permutation_cons_append. cbn. done.
Qed.
Lemma accept_ok_counters a a' : aLimiter a' = aLimiter a -> aRunning a' = aRunning a -> aDetached a' = aDetached a -> aClosed a' = aClosed a -> aNext a' = aNext a -> accept_ok a -> accept_ok a'.
Proof. intros E1 E2 E3 E4 E5 [HL HP]. split; [by rewrite E1, E2|]. unfold places in *. by rewrite E2, E3, E4, E5. Qed.

Lemma fallback_ok a i host st alpn : aRunning a !! i = Some (host, st) -> accept_ok a -> accept_ok (serveFallbackHTTP i host alpn a).
Proof.
  intros Hi Ha. unfold serveFallbackHTTP. assert (accept_ok (countFallback a)) as Hc by (by apply (accept_ok_counters a)). case_bool_decide; [by apply (setStage_ok _ _ _ st)|].
  destruct Hc as [HL HP]. cbn [countFallback aLimiter aRunning aNext] in HL. split; cbn [countFallback aLimiter aRunning aNext aDetached]; [by apply (release_inv _ _ _ _ st)|].
  assert (aDetached a !! i = None) as Hn.
  { destruct (aDetached a !! i) as [x|] eqn:E; [|done]. exfalso. assert (NoDup (places a)) as HN by (destruct Ha as [_ HP']; rewrite HP'; apply NoDup_seq).
    unfold places in HN. apply NoDup_app in HN as (_ & HN & _). apply (HN i); [by apply (list_elem_of_fmap_2 fst _ (i, (host, st))), elem_of_map_to_list|].
    apply elem_of_app. left. by apply (list_elem_of_fmap_2 fst _ (i, x)), elem_of_map_to_list. }
  unfold places in *. cbn [countFallback aRunning aDetached aClosed] in *. rewrite map_to_list_insert by done. rewrite <- HP, <- (keys_delete (aRunning a) i (host, st) Hi). cbn.
  symmetry. apply Permutation_middle.
Qed.

Lemma acceptOne_ok a host : accept_ok a -> accept_ok (acceptOne host a).
Proof.
  intros [HL HP]. unfold acceptOne. pose proof (limStep_inv _ (LAccept host) HL) as HS. cbn [limStep] in HS. destruct (acquire host (aLimiter a)) as [l [|]]; [|by split].
  pose proof (fresh_id a HP) as Hf. split; cbn [aLimiter aRunning aNext].
  - eapply lim_inv_perm; [|exact HS]. symmetry. by apply (hosts_insert (aRunning a) (aNext a) (host, CPeek)).
  - unfold places in *. cbn [aRunning aDetached aClosed]. rewrite map_to_list_insert by done. cbn [fmap list_fmap fst app]. rewrite HP, seq_S. apply Permutation_cons_append.
Qed.

Lemma accept_step a ev : accept_ok a -> accept_ok (serveListener a ev).
Proof.
  intros Ha. destruct ev as [host| | |i b|i alpn|i b|i|i]; cbn [serveListener].
  - destruct (aServing a && negb (aDone a)); [by apply acceptOne_ok|done].
  - by apply (accept_ok_counters a).
  - by apply (accept_ok_counters a).
  - destruct (aRunning a !! i) as [[host []]|] eqn:Ei; try done. destruct b as [b|]; [|by apply (closeConn_ok _ _ _ CPeek)]. destruct (b =? 22); [by apply (setStage_ok _ _ _ CPeek)|by apply (fallback_ok _ _ _ CPeek)].
  - destruct (aRunning a !! i) as [[host []]|] eqn:Ei; try done. destruct alpn; [by apply (setStage_ok _ _ _ CTLS)|]. apply (closeConn_ok _ _ _ CTLS); [done|]. by apply (accept_ok_counters a).
  - destruct (aRunning a !! i) as [[host [| |alpn| |]]|] eqn:Ei; try done. destruct b as [b|]; [|by apply (closeConn_ok _ _ _ (CPeek2 alpn))]. destruct (32 <=? b); [by apply (fallback_ok _ _ _ (CPeek2 alpn))|by apply (setStage_ok _ _ _ (CPeek2 alpn))].
  - destruct (aRunning a !! i) as [[host []]|] eqn:Ei; try done; by eapply closeConn_ok.
  - destruct (aDetached a !! i) as [host|] eqn:Ei; [|done]. destruct Ha as [HL HP]. split; [exact HL|]. unfold places in *. cbn [aRunning aDetached aClosed aNext].
    rewrite <- HP, <- (keys_delete (aDetached a) i host Ei). cbn. rewrite <- Permutation_cons_append. by rewrite <- Permutation_middle.
Qed.

Lemma accept_run_ok evs a : accept_ok a -> accept_ok (acceptRun evs a).
Proof. revert a. induction evs as [|ev evs IH]; intros a Ha; [done|]. by apply IH, accept_step. Qed.
Lemma acceptor0_ok : accept_ok acceptor0.
Proof.
  split; [|done]. split; cbn; try done. all: intros h; unfold countOf, hostsOf, byIP; cbn; rewrite ?map_to_list_empty; try done.
Qed.

(** C36: The limiter counts the goroutines.  After any sequence of events its total and the
    counts per host are those of the running connection goroutines, at most 256 and 16;
    every connection that was accepted is in exactly one place: running, left to
    net/http, or closed. *)
Theorem accept_slots_exact (evs : list acceptEv) : let a := acceptRun evs acceptor0 in
  ltotal (aLimiter a) = Z.of_nat (size (aRunning a)) /\ Z.of_nat (size (aRunning a)) <= maxAcceptedConnections /\
  (forall h, byIP (aLimiter a) h = countOf h (hostsOf (aRunning a)) /\ countOf h (hostsOf (aRunning a)) <= maxConnectionsPerIP) /\
  NoDup (places a) /\ (forall i, i ∈ places a <-> (i < aNext a)%nat).
Proof.
  intros a. destruct (accept_run_ok evs _ acceptor0_ok) as [[H1 H2 H3 H4 H5] HP]. fold a in H1, H2, H3, H4, H5, HP. cbn [fst snd] in *.
  assert (lenZ (hostsOf (aRunning a)) = Z.of_nat (size (aRunning a))) as EL by (unfold lenZ, hostsOf; by rewrite length_fmap, length_map_to_list).
  split_and!; [by rewrite H1|by rewrite <- EL|intros h; by split|rewrite HP; apply NoDup_seq|]. intros i. rewrite HP, elem_of_seq. lia.
Qed.

(** After the cancellation no connection is accepted, and once the accept call has
    failed the loop is over for good. *)
Theorem accept_stops (evs : list acceptEv) (a : acceptor) : aDone a = true ->
  aNext (acceptRun evs a) = aNext a /\ aRejected (acceptRun evs a) = aRejected a /\ (EAcceptErr ∈ evs -> aServing (acceptRun evs a) = false).
Proof.
  assert (forall a ev, aDone a = true -> let a' := serveListener a ev in aDone a' = true /\ aNext a' = aNext a /\ aRejected a' = aRejected a /\ (aServing a = false \/ ev = EAcceptErr -> aServing a' = false)) as HS.
  { clear. intros a ev Hd. destruct ev; cbn [serveListener]; unfold serveFallbackHTTP; repeat (case_match; cbn [setStage closeConn countFallback countTLSFail aDone aNext aRejected aServing]); try (split_and!; [done..|]; intros [?|?]; done); rewrite ?Hd, ?andb_false_r in *; try done; split_and!; try done; intros [?|?]; done. }
  revert a. induction evs as [|ev evs IH]; intros a Hd; [split_and!; [done..|by intros ?%elem_of_nil]|]. cbn [acceptRun fold_left]. fold (acceptRun evs (serveListener a ev)).
  destruct (HS a ev Hd) as (S1 & S2 & S3 & S4). destruct (IH _ S1) as (I1 & I2 & I3). split_and!; [congruence|congruence|]. intros Hin. apply elem_of_cons in Hin as [He|Hin]; [|by apply I3].
  assert (aServing (serveListener a ev) = false) as E0 by (apply S4; by right). clear -S1 E0 HS. revert S1 E0. generalize (serveListener a ev). induction evs as [|e evs IH]; intros b Hd E0; [done|].
  cbn [acceptRun fold_left]. destruct (HS b e Hd) as (T1 & _ & _ & T4). apply IH; [done|]. apply T4. by left.
Qed.

(** The decoy site over HTTP/1 is outside the limits: its goroutine returns at once and
    gives the slot back while net/http serves the connection, so that one host can hold
    any number of them with every slot free. *)
Definition plainVisit (i : nat) (host : string) : list acceptEv := [EAccept host; EPeek i (Some 71)].
Theorem fallback_escapes_limit (n : nat) (host : string) : exists evs, let a := acceptRun evs acceptor0 in
  size (aDetached a) = n /\ (forall i h, aDetached a !! i = Some h -> h = host) /\ ltotal (aLimiter a) = 0 /\ aRejected a = 0.
Proof.
  assert (exists evs, let a := acceptRun evs acceptor0 in aLimiter a = mkLimiter 0 ∅ /\ aRunning a = ∅ /\ aNext a = n /\ aRejected a = 0 /\ aDone a = false /\ aServing a = true /\
    size (aDetached a) = n /\ forall i h, aDetached a !! i = Some h -> h = host /\ (i < n)%nat) as (evs & H1 & _ & _ & H4 & _ & _ & H7 & H8).
  2: { exists evs. cbn zeta. rewrite H1. split_and!; try done. intros i h Hi. by apply (H8 i h Hi). }
  induction n as [|n (evs & H1 & H2 & H3 & H4 & H5 & H6 & H7 & H8)]; [exists []; cbn; split_and!; try done; intros i h; by rewrite lookup_empty|].
  exists (evs ++ plainVisit n host). unfold acceptRun in *. rewrite fold_left_app. cbn zeta in *. set (a := fold_left _ evs acceptor0) in *. clearbody a.
  destruct a as [l run det cl nx rej fb tf dn sv]. cbn [aLimiter aRunning aNext aRejected aDone aServing aDetached] in *. subst l run nx rej dn sv.
  cbn [plainVisit fold_left serveListener aServing aDone andb negb acceptOne]. unfold acceptOne, acquire, byIP. cbn [aLimiter ltotal lbyIP]. rewrite lookup_empty. cbn.
  rewrite lookup_insert_eq. cbn. unfold serveFallbackHTTP. rewrite bool_decide_false by done. unfold release, byIP. cbn. rewrite lookup_insert_eq. cbn.
  rewrite !delete_insert_id by apply lookup_empty. assert (det !! n = None) as Hn by (destruct (det !! n) eqn:E; [destruct (H8 _ _ E); lia|done]).
  split_and!; try done; [by rewrite map_size_insert_None, H7|]. intros i h Hi. destruct (decide (i = n)) as [->|Hne].
  - rewrite lookup_insert_eq in Hi. injection Hi as <-. split; [done|lia].
  - rewrite lookup_insert_ne in Hi by done. destruct (H8 i h Hi). split; [done|lia].
Qed.

(** ** Reading behind a consumed prefix *)

Record PrefixConn := mkPrefix { pfx : bytes; under : bytes }.
(** A read of at most [n] bytes; [k] bounds what the connection below returns at once. *)
Definition prefixRead (n k : nat) (c : PrefixConn) : bytes * PrefixConn :=
  match pfx c with
  | [] => (take (min n k) (under c), mkPrefix [] (drop (min n k) (under c)))
  | _ => (take n (pfx c), mkPrefix (drop n (pfx c)) (under c))
  end.
Fixpoint prefixReads (l : list (nat * nat)) (c : PrefixConn) : bytes * PrefixConn :=
  match l with [] => ([], c) | (n, k) :: l => let '(b, c) := prefixRead n k c in let '(bs, c) := prefixReads l c in (b ++ bs, c) end.

(** Looking at the first byte does not change what is read: through any reads, what has
    been returned and what is left are the byte looked at and the rest of the stream. *)
Theorem peek_is_transparent (stream : bytes) (peeked : nat) (l : list (nat * nat)) :
  let '(got, c) := prefixReads l (mkPrefix (take peeked stream) (drop peeked stream)) in got ++ pfx c ++ under c = stream.
Proof.
  assert (forall c, let '(got, c') := prefixReads l c in got ++ pfx c' ++ under c' = pfx c ++ under c) as HR.
  { induction l as [|[n k] l IH]; intros c; [done|]. cbn [prefixReads]. unfold prefixRead. destruct c as [[|b p] u]; cbn [pfx under].
    - specialize (IH (mkPrefix [] (drop (min n k) u))). destruct (prefixReads l _) as [got c']. cbn in IH. rewrite <- app_assoc, IH. apply take_drop.
    - specialize (IH (mkPrefix (drop n (b :: p)) u)). destruct (prefixReads l _) as [got c']. cbn [pfx under] in IH. rewrite <- app_assoc, IH, app_assoc, take_drop. done. }
  specialize (HR (mkPrefix (take peeked stream) (drop peeked stream))). destruct (prefixReads l _) as [got c]. cbn [pfx under] in HR. by rewrite HR, take_drop.
Qed.

(** ** The tarpit

    camouflageProbe answers a peer that failed authentication with random frames.  Times
    are in milliseconds; a turn has the time until the peer's bytes come (none: the read
    fails), the two draws, and how the write ends. *)
Record tarpitTurn := mkTurn { tRead : option Z; tSleep : Z; tLen : Z; tWrite : Z; tWriteOk : bool }.
Definition turnOk (x : tarpitTurn) : Prop := match tRead x with Some d => 0 <= d | None => True end /\ 0 <= tSleep x < 150 /\ 0 <= tLen x < 300 /\ 0 <= tWrite x <= 2000.

(** The frames sent, when it ended, and whether it has. *)
Fixpoint camouflageProbe (deadline t : Z) (turns : list tarpitTurn) : list Z * Z * bool :=
  match turns with
  | [] => ([], t, false)
  | x :: turns =>
    match tRead x with
    | None => ([], t, true)
    | Some d =>
      if deadline <=? t + d then ([], Z.max t deadline, true) else
      let frame := tLen x + 100 + 2 in
      let t := t + d + (tSleep x + 50) + tWrite x in
      if tWriteOk x then let '(fs, e, b) := camouflageProbe deadline t turns in (frame :: fs, e, b) else ([frame], t, true)
    end
  end.

(** The tarpit holds its slot for a bounded time, whatever the peer does: at most
    12.2 seconds, at most 200 frames of 102 to 401 bytes, and it has ended after 201
    reads at the latest. *)
Theorem tarpit_bounded (turns : list tarpitTurn) (t0 : Z) : Forall turnOk turns ->
  let '(frames, e, ended) := camouflageProbe (t0 + 10000) t0 turns in
  e <= t0 + 12199 /\ (length frames <= 200)%nat /\ Forall (fun n => 102 <= n <= 401) frames /\ ((201 <= length turns)%nat -> ended = true).
Proof.
  intros HF. assert (forall deadline t, t <= deadline + 2199 -> let '(fs, e, b) := camouflageProbe deadline t turns in
    e <= deadline + 2199 /\ 50 * Z.of_nat (length fs) <= Z.max 0 (deadline - t + 49) /\ Forall (fun n => 102 <= n <= 401) fs /\ (b = false -> length fs = length turns)) as HG.
  { induction HF as [|x turns (Hr & Hs & Hl & Hw) _ IH]; intros deadline t Ht; cbn [camouflageProbe]; [split_and!; [done|cbn; lia|constructor|done]|].
    destruct (tRead x) as [d|]; [|split_and!; [done|cbn; lia|constructor|done]].
    destruct (Z.leb_spec deadline (t + d)); [split_and!; [lia|cbn; lia|constructor|done]|]. destruct (tWriteOk x).
    - specialize (IH deadline (t + d + (tSleep x + 50) + tWrite x)). destruct (camouflageProbe _ _ _) as [[fs e] b]. destruct IH as (I1 & I2 & I3 & I4); [lia|].
      cbn [length]. split_and!; [done|lia|constructor; [lia|done]|]. intros Hb. by rewrite (I4 Hb).
    - split_and!; [lia|cbn; lia|repeat constructor; lia|done]. }
  specialize (HG (t0 + 10000) t0 ltac:(lia)). destruct (camouflageProbe _ _ _) as [[fs e] b]. destruct HG as (G1 & G2 & G3 & G4). split_and!; [lia|lia|done|].
  intros Hn. destruct b; [done|]. specialize (G4 eq_refl). lia.
Qed.
Lemma tarpit_bounded_witness : let turns := [mkTurn (Some 10) 0 0 0 true; mkTurn (Some 9900) 149 299 2000 true; mkTurn (Some 1) 0 0 0 true] in
  camouflageProbe (5 + 10000) 5 turns = ([102; 401], 12164, true) /\ 12164 <= 5 + 12199.
Proof.
  intros turns. split; [reflexivity|]. refine (proj1 (tarpit_bounded turns 5 _)). subst turns. repeat constructor; cbn; lia.
Defined.

Lemma accept_stops_witness : let a := acceptRun [EAccept "192.0.2.7"; ECancel] acceptor0 in
  aNext (acceptRun [EAccept "192.0.2.8"; EAcceptErr; EPeek 0 (Some 22)] a) = 1%nat /\ aServing (acceptRun [EAccept "192.0.2.8"; EAcceptErr; EPeek 0 (Some 22)] a) = false.
Proof.
  pose proof (accept_stops [EAccept "192.0.2.8"; EAcceptErr; EPeek 0 (Some 22)] (acceptRun [EAccept "192.0.2.7"; ECancel] acceptor0)) as Hs.
  destruct Hs as (H1 & _ & H2); [reflexivity|]. split; [exact H1|]. apply H2. right. left.
Defined.
