(* ===== verification/Hello.v ===== *)
(** * The digest of a client hello (tls_info.go)

    The server describes the hello of a TLS client by a digest over its cipher suites,
    signature schemes, groups and protocols, without the values that browsers draw at
    random.  SHA-256 is a parameter; protocols are byte strings. *)

From stdpp Require Import base tactics list numbers list_numbers sorting.
From S2P Require Import Prelude.
#[local] Open Scope Z_scope.

Definition isTLSGREASE (v : Z) : bool := (u8 (Z.shiftr v 8) =? u8 v) && (Z.land (u8 v) 15 =? 10).
Definition normalizeTLSUint16 (vs : list Z) : list Z := List.filter (fun v => negb (isTLSGREASE v)) vs.

(** "tls-clienthello-v1". *)
Definition tlsClientHelloFingerprintKind : bytes := [116; 108; 115; 45; 99; 108; 105; 101; 110; 116; 104; 101; 108; 108; 111; 45; 118; 49].

Definition writeU16List (vs : list Z) : bytes := let vs := take (Z.to_nat 65535) vs in be_enc 2 (lenZ vs) ++ concat (be_enc 2 <$> vs).
Definition writeProto (b : bytes) : bytes := let b := take (Z.to_nat 65535) b in be_enc 2 (lenZ b) ++ b.
Definition writeProtos (ps : list bytes) : bytes := let ps := take (Z.to_nat 65535) ps in be_enc 2 (lenZ ps) ++ concat (writeProto <$> ps).
Definition canonical (ciphers signatures groups : list Z) (alpn : list bytes) : bytes :=
  tlsClientHelloFingerprintKind ++ [0] ++ writeU16List (normalizeTLSUint16 ciphers) ++ writeU16List (normalizeTLSUint16 signatures) ++ writeU16List (normalizeTLSUint16 groups) ++ writeProtos alpn.

Record clientHello := mkHello { hCiphers : list Z; hSignatures : list Z; hGroups : list Z; hALPN : list bytes; hSNI : bytes }.

Section Digest.
Context (sha256hex : bytes -> bytes).
Definition tlsClientHelloFingerprint (ciphers signatures groups : list Z) (alpn : list bytes) : bytes := sha256hex (canonical ciphers signatures groups alpn).
Record tlsClientHelloObservation := mkObs { oCiphers : list Z; oSignatures : list Z; oGroups : list Z; oALPN : list bytes; oFingerprint : bytes }.
(** observeTLSClientHello filters, and the digest filters again. *)
Definition observeTLSClientHello (h : clientHello) : tlsClientHelloObservation :=
  let c := normalizeTLSUint16 (hCiphers h) in let s := normalizeTLSUint16 (hSignatures h) in let g := normalizeTLSUint16 (hGroups h) in
  mkObs c s g (hALPN h) (tlsClientHelloFingerprint c s g (hALPN h)).
End Digest.

(** ** Reading the canonical bytes back *)

Lemma be2_inj a b x y : is_u16 a -> is_u16 b -> be_enc 2 a ++ x = be_enc 2 b ++ y -> a = b /\ x = y.
Proof.
  intros Ha Hb E. apply app_inj_1 in E as [E ->]; [|by rewrite !length_be_enc]. split; [|done]. apply (f_equal be_dec) in E. by rewrite !be_dec_enc2 in E.
Qed.

Lemma items_inj (l l' : list Z) x y : Forall is_u16 l -> Forall is_u16 l' -> length l = length l' -> concat (be_enc 2 <$> l) ++ x = concat (be_enc 2 <$> l') ++ y -> l = l' /\ x = y.
Proof.
  revert l'. induction l as [|v l IH]; intros [|v' l'] HF HF' Hl E; try done. apply Forall_cons in HF as [Hv HF]. apply Forall_cons in HF' as [Hv' HF'].
  cbn [fmap list_fmap concat] in E. rewrite <- !app_assoc in E. apply be2_inj in E as [-> E]; [|done|done]. destruct (IH l' HF HF' ltac:(by injection Hl) E) as [-> ->]. done.
Qed.
Lemma u16list_inj l l' x y : Forall is_u16 l -> Forall is_u16 l' -> (length l <= Z.to_nat 65535)%nat -> (length l' <= Z.to_nat 65535)%nat -> writeU16List l ++ x = writeU16List l' ++ y -> l = l' /\ x = y.
Proof.
  intros HF HF' HL HL' E. unfold writeU16List in E. rewrite !take_ge in E by lia. rewrite <- !app_assoc in E. apply be2_inj in E as [El E]; [|unfold is_u16, lenZ; lia..].
  unfold lenZ in El. apply items_inj in E; [done|done|done|lia].
Qed.
Lemma protos_inj (l l' : list bytes) x y : Forall (fun p => (length p <= Z.to_nat 65535)%nat) l -> Forall (fun p => (length p <= Z.to_nat 65535)%nat) l' -> length l = length l' ->
  concat (writeProto <$> l) ++ x = concat (writeProto <$> l') ++ y -> l = l' /\ x = y.
Proof.
  revert l'. induction l as [|p l IH]; intros [|p' l'] HF HF' Hl E; try done. apply Forall_cons in HF as [Hp HF]. apply Forall_cons in HF' as [Hp' HF'].
  cbn [fmap list_fmap concat] in E. rewrite <- !app_assoc in E. unfold writeProto at 1 3 in E. rewrite !take_ge in E by lia. rewrite <- !app_assoc in E. apply be2_inj in E as [El E]; [|unfold is_u16, lenZ; lia..].
  unfold lenZ in El. apply app_inj_1 in E as [-> E]; [|lia]. destruct (IH l' HF HF' ltac:(by injection Hl) E) as [-> ->]. done.
Qed.

(** A hello as TLS can carry it: 16-bit values, lists and protocols below 2^16. *)
Record hello_ok (h : clientHello) : Prop := {
  hk_values : Forall is_u16 (hCiphers h) /\ Forall is_u16 (hSignatures h) /\ Forall is_u16 (hGroups h);
  hk_counts : (length (hCiphers h) <= Z.to_nat 65535)%nat /\ (length (hSignatures h) <= Z.to_nat 65535)%nat /\ (length (hGroups h) <= Z.to_nat 65535)%nat /\ (length (hALPN h) <= Z.to_nat 65535)%nat;
  hk_protos : Forall (fun p => (length p <= Z.to_nat 65535)%nat) (hALPN h)
}.
Lemma normalize_values vs : Forall is_u16 vs -> Forall is_u16 (normalizeTLSUint16 vs).
Proof. intros HF. apply Forall_forall. intros v Hv. apply filter_keep in Hv as [Hv _]. rewrite Forall_forall in HF. by apply HF. Qed.
Lemma normalize_length vs : (length (normalizeTLSUint16 vs) <= length vs)%nat.
Proof. apply filter_length_le. Qed.
Lemma normalize_idem vs : normalizeTLSUint16 (normalizeTLSUint16 vs) = normalizeTLSUint16 vs.
Proof. induction vs as [|v vs IH]; [done|]. unfold normalizeTLSUint16 in *. cbn. destruct (isTLSGREASE v) eqn:E; cbn; [done|]. by rewrite E, IH. Qed.

(** The digest says what it is meant to.  Two hellos have the same bytes under the digest
    exactly if they offer the same cipher suites, signature schemes and groups apart
    from the reserved random values, in the same order, and the same protocols; the
    server name plays no part.  So equal digests mean equal offers unless SHA-256
    collides, and a client's random values never change its digest. *)
Theorem fingerprint_exact (sha256hex : bytes -> bytes) (h h' : clientHello) : hello_ok h -> hello_ok h' ->
  let bytesOf h := canonical (hCiphers h) (hSignatures h) (hGroups h) (hALPN h) in
  let same := normalizeTLSUint16 (hCiphers h) = normalizeTLSUint16 (hCiphers h') /\ normalizeTLSUint16 (hSignatures h) = normalizeTLSUint16 (hSignatures h') /\
    normalizeTLSUint16 (hGroups h) = normalizeTLSUint16 (hGroups h') /\ hALPN h = hALPN h' in
  oFingerprint (observeTLSClientHello sha256hex h) = sha256hex (bytesOf h) /\ (bytesOf h = bytesOf h' <-> same) /\
  (same -> oFingerprint (observeTLSClientHello sha256hex h) = oFingerprint (observeTLSClientHello sha256hex h')).
Proof.
  intros [(V1 & V2 & V3) (L1 & L2 & L3 & L4) P] [(W1 & W2 & W3) (M1 & M2 & M3 & M4) Q] bytesOf same.
  assert (forall x, oFingerprint (observeTLSClientHello sha256hex x) = sha256hex (bytesOf x)) as HO by (intros x; unfold observeTLSClientHello, tlsClientHelloFingerprint, bytesOf, canonical; cbn; by rewrite !normalize_idem).
  assert (same -> bytesOf h = bytesOf h') as HS by (intros (E1 & E2 & E3 & E4); unfold bytesOf, canonical; by rewrite E1, E2, E3, E4).
  split_and!; [apply HO|split; [|exact HS]|intros Hs; by rewrite !HO, HS].
  unfold bytesOf, canonical. intros E. apply app_inv_head in E. apply app_inv_head in E. unfold same.
  pose proof (normalize_length (hCiphers h)). pose proof (normalize_length (hSignatures h)). pose proof (normalize_length (hGroups h)).
  pose proof (normalize_length (hCiphers h')). pose proof (normalize_length (hSignatures h')). pose proof (normalize_length (hGroups h')).
  apply u16list_inj in E as [-> E]; [|by apply normalize_values|by apply normalize_values|lia|lia].
  apply u16list_inj in E as [-> E]; [|by apply normalize_values|by apply normalize_values|lia|lia].
  apply u16list_inj in E as [-> E]; [|by apply normalize_values|by apply normalize_values|lia|lia]. split_and!; try done.
  unfold writeProtos in E. rewrite !take_ge in E by lia. apply be2_inj in E as [El E]; [|unfold is_u16, lenZ; lia..]. unfold lenZ in El.
  destruct (protos_inj (hALPN h) (hALPN h') [] [] P Q ltac:(lia)) as [-> _]; [by rewrite !app_nil_r|done].
Qed.

(** The sixteen reserved values, 0x0a0a to 0xfafa, are the ones that are dropped. *)
Lemma grease_values v : is_u16 v -> isTLSGREASE v = true <-> exists i, 0 <= i < 16 /\ v = 4112 * i + 2570.
Proof.
  unfold is_u16, isTLSGREASE, u8. intros Hv. change 15 with (Z.ones 4). rewrite Z.land_ones, Z.shiftr_div_pow2 by lia. change (2 ^ 4) with 16. change (2 ^ 8) with 256.
  rewrite andb_true_iff, !Z.eqb_eq. pose proof (Z.div_mod v 256 ltac:(lia)) as Hd. pose proof (Z.mod_pos_bound v 256 ltac:(lia)) as Hm.
  assert (0 <= v / 256 < 256) as Hq by (split; [apply Z.div_pos; lia|apply Z.div_lt_upper_bound; lia]). rewrite (Z.mod_small (v / 256)) by lia.
  pose proof (Z.div_mod (v mod 256) 16 ltac:(lia)) as Hd2. pose proof (Z.mod_pos_bound (v mod 256) 16 ltac:(lia)). split.
  - intros [E1 E2]. exists ((v mod 256) / 16). lia.
  - intros (i & Hi & ->). replace (4112 * i + 2570) with ((16 * i + 10) + (16 * i + 10) * 256) in * by lia. rewrite Z.mod_add, Z.div_add, (Z.mod_small (16 * i + 10)), (Z.div_small (16 * i + 10)) in * by lia.
    split; [lia|]. replace (16 * i + 10) with (10 + i * 16) by lia. by rewrite Z.mod_add by lia.
Qed.

Definition chrome (random : Z) : clientHello := mkHello [random; 4865; 4866; 4867] [1027; 2052] [random; 29; 23] [[104; 50]] [].
Lemma chrome_ok v : is_u16 v -> hello_ok (chrome v).
Proof.
  intros Hv. unfold is_u16 in Hv. split; cbn [chrome hCiphers hSignatures hGroups hALPN length].
  - split_and!; repeat (apply Forall_cons; split; [unfold is_u16; lia|]); constructor.
  - split_and!; lia.
  - apply Forall_cons. split; [cbn [length]; lia|constructor].
Qed.
Lemma fingerprint_exact_witness : oFingerprint (observeTLSClientHello (fun b => b) (chrome 2570)) = oFingerprint (observeTLSClientHello (fun b => b) (chrome 64250)) /\ chrome 2570 <> chrome 64250.
Proof.
  split; [|done]. refine (proj2 (proj2 (fingerprint_exact (fun b => b) (chrome 2570) (chrome 64250) _ _)) _).
  - apply chrome_ok. unfold is_u16. lia.
  - apply chrome_ok. unfold is_u16. lia.
  - repeat split.
Defined.
