(* ===== verification/Netifd.v ===== *)
(** * The link that netifd shows (netifd.go, client.go)

    The client publishes to netifd whether its tunnel is up, counted over its physical
    connections.  Every connection is a program counter, the counter of running
    connections is atomic and a publication holds a mutex, so that their steps
    interleave as in the source. *)

From stdpp Require Import base tactics list numbers list_numbers sorting gmap strings.
From S2P Require Import Prelude.
#[local] Open Scope Z_scope.

(** v4, v6, gateway v4, gateway v6. *)
Definition linkAddrs : Type := string * string * string * string.
#[export] Instance linkAddrs_eq : EqDecision linkAddrs.
Proof. unfold linkAddrs. solve_decision. Defined.

(** Where the handler of a connection is: before it counts itself; counted, before the
    publication; running; after a decrement to zero, before the mutex; inside
    notifyNetifdDown with the decision to publish. *)
Inductive connPC := CIdle | CCounted (a : linkAddrs) | CLive | CDropped | CDownHeld.

Record linkSys := mkLink {
  conns : list connPC;
  liveConns : Z;
  netifdState : option linkAddrs;      (* None: down *)
  held : bool;                          (* netifdMu, across the helper of a DOWN *)
  published : list (option linkAddrs)   (* what the helpers were called with *)
}.
Definition link0 (n : nat) : linkSys := mkLink (replicate n CIdle) 0 None false [].

Definition sameNetifdLinkState (s : option linkAddrs) (a : linkAddrs) : bool := bool_decide (s = Some a).

(** The connection is up: it counts itself. *)
Definition countUp (i : nat) (a : linkAddrs) (s : linkSys) : linkSys :=
  match conns s !! i with
  | Some CIdle => mkLink (<[i := CCounted a]> (conns s)) (liveConns s + 1) (netifdState s) (held s) (published s)
  | _ => s
  end.

(** notifyNetifdUp; when the helper fails the connection uncounts itself and ends. *)
Definition notifyNetifdUp (i : nat) (ok : bool) (s : linkSys) : linkSys :=
  match conns s !! i with
  | Some (CCounted a) =>
    if held s then s else
    if sameNetifdLinkState (netifdState s) a then mkLink (<[i := CLive]> (conns s)) (liveConns s) (netifdState s) false (published s) else
    if ok then mkLink (<[i := CLive]> (conns s)) (liveConns s) (Some a) false (published s ++ [Some a])
    else mkLink (<[i := CIdle]> (conns s)) (liveConns s - 1) (netifdState s) false (published s)
  | _ => s
  end.

(** The connection ends. *)
Definition countDown (i : nat) (s : linkSys) : linkSys :=
  match conns s !! i with
  | Some CLive => mkLink (<[i := if liveConns s - 1 =? 0 then CDropped else CIdle]> (conns s)) (liveConns s - 1) (netifdState s) (held s) (published s)
  | _ => s
  end.

(** notifyNetifdDown up to the call of the helper. *)
Definition notifyNetifdDown (i : nat) (s : linkSys) : linkSys :=
  match conns s !! i with
  | Some CDropped =>
    if held s then s else
    match netifdState s with
    | None => mkLink (<[i := CIdle]> (conns s)) (liveConns s) None false (published s)
    | Some a =>
      if negb (liveConns s =? 0) then mkLink (<[i := CIdle]> (conns s)) (liveConns s) (Some a) false (published s)
      else mkLink (<[i := CDownHeld]> (conns s)) (liveConns s) (Some a) true (published s)
    end
  | _ => s
  end.

(** The helper and the rest of notifyNetifdDown. *)
Definition finishDown (i : nat) (ok : bool) (s : linkSys) : linkSys :=
  match conns s !! i with
  | Some CDownHeld =>
    if ok then mkLink (<[i := CIdle]> (conns s)) (liveConns s) None false (published s ++ [None])
    else mkLink (<[i := CIdle]> (conns s)) (liveConns s) (netifdState s) false (published s)
  | _ => s
  end.

Inductive linkOp := LCount (i : nat) (a : linkAddrs) | LUp (i : nat) (ok : bool) | LDrop (i : nat) | LDown (i : nat) | LDone (i : nat) (ok : bool).
Definition linkStep (s : linkSys) (op : linkOp) : linkSys :=
  match op with
  | LCount i a => countUp i a s
  | LUp i ok => notifyNetifdUp i ok s
  | LDrop i => countDown i s
  | LDown i => notifyNetifdDown i s
  | LDone i ok => finishDown i ok s
  end.
Definition linkExec (ops : list linkOp) (s : linkSys) : linkSys := fold_left linkStep ops s.

(** The helpers work. *)
Definition helpersOk (op : linkOp) : bool := match op with LUp _ ok | LDone _ ok => ok | _ => true end.

(** *** Counting program counters *)

Definition isCounted (c : connPC) : bool := match c with CCounted _ | CLive => true | _ => false end.
Definition isLive (c : connPC) : bool := match c with CLive => true | _ => false end.
Definition isHeld (c : connPC) : bool := match c with CDownHeld => true | _ => false end.
Definition isLeaving (c : connPC) : bool := match c with CDropped | CDownHeld => true | _ => false end.
Definition b2z (b : bool) : Z := if b then 1 else 0.
Definition count (f : connPC -> bool) (l : list connPC) : Z := foldr (fun c n => b2z (f c) + n) 0 l.

Lemma count_app f l1 l2 : count f (l1 ++ l2) = count f l1 + count f l2.
Proof. induction l1 as [|x l IH]; cbn; [done|]. unfold count in *. rewrite IH. lia. Qed.
Lemma count_set f l i c c' : l !! i = Some c -> count f (<[i := c']> l) = count f l - b2z (f c) + b2z (f c').
Proof.
  intros Hi. rewrite insert_take_drop by (by eapply lookup_lt_Some). rewrite <- (take_drop_middle l i c Hi) at 3. rewrite !count_app. cbn. unfold count. lia.
Qed.
Lemma count_nonneg f l : 0 <= count f l.
Proof. induction l as [|x l IH]; cbn; [lia|]. unfold count, b2z in *. destruct (f x); lia. Qed.
Lemma count_mono (f g : connPC -> bool) l : (forall c, f c = true -> g c = true) -> count f l <= count g l.
Proof.
  intros H. induction l as [|x l IH]; cbn; [lia|]. unfold count, b2z in *. specialize (H x). destruct (f x), (g x); first [lia | by specialize (H eq_refl)].
Qed.
Lemma count_zero f l : count f l = 0 -> Forall (fun c => f c = false) l.
Proof.
  induction l as [|x l IH]; intros H; [constructor|]. cbn in H. pose proof (count_nonneg f l). fold (count f l) in H. unfold b2z in H. destruct (f x) eqn:E; [lia|]. constructor; [done|apply IH; lia].
Qed.

Record link_ok (s : linkSys) : Prop := {
  lk_live : liveConns s = count isCounted (conns s);
  lk_down : netifdState s = None -> count isLive (conns s) = 0;
  lk_held : count isHeld (conns s) = b2z (held s);
  lk_quiet : held s = true -> count isLive (conns s) = 0 /\ is_Some (netifdState s);
  lk_up : is_Some (netifdState s) -> 0 < liveConns s \/ 0 < count isLeaving (conns s)
}.

Ltac counts := rewrite ?(count_set isCounted _ _ _ _ ltac:(eassumption)), ?(count_set isLive _ _ _ _ ltac:(eassumption)),
  ?(count_set isHeld _ _ _ _ ltac:(eassumption)), ?(count_set isLeaving _ _ _ _ ltac:(eassumption)); cbn [isCounted isLive isHeld isLeaving b2z].

(** The counters after one program counter has moved. *)
Ltac link_solve := cbn [conns liveConns netifdState held b2z] in *; counts; intros;
  repeat match goal with H : ?P -> _, HP : ?P |- _ => specialize (H HP) end; destruct_and?; destruct_or?;
  first [done | congruence | lia | (exfalso; by eapply is_Some_None) | (split; [lia|by eauto]) | (left; lia) | (right; lia) | (exfalso; lia)].

Lemma link_step s op : helpersOk op = true -> link_ok s -> link_ok (linkStep s op).
Proof.
  intros Hop Hok. pose proof Hok as [H1 H2 H3 H4 H5].
  assert (forall f i c, conns s !! i = Some c -> b2z (f c) <= count f (conns s)) as HP.
  { intros f i c Hi. pose proof (count_set f (conns s) i c CIdle Hi). pose proof (count_nonneg f (<[i := CIdle]> (conns s))) as HN.
    pose proof (count_set f (conns s) i c c Hi) as HS. rewrite list_insert_id in HS by done. pose proof (take_drop_middle _ _ _ Hi) as E. rewrite <- E, count_app. cbn.
    pose proof (count_nonneg f (take i (conns s))). pose proof (count_nonneg f (drop (S i) (conns s))) as HD. unfold count in *. lia. }
  pose proof (count_mono isLive isCounted (conns s) ltac:(by intros [])) as HLC. pose proof (count_mono isHeld isLeaving (conns s) ltac:(by intros [])) as HHL.
  pose proof (count_nonneg isLive (conns s)) as HL0. pose proof (count_nonneg isLeaving (conns s)) as HE0.
  destruct op as [i a|i ok|i|i|i ok]; cbn [linkStep].
  - unfold countUp. destruct (conns s !! i) as [[|b| | |]|] eqn:Ei; try done. split; link_solve.
  - unfold notifyNetifdUp. destruct (conns s !! i) as [[|b| | |]|] eqn:Ei; try done. destruct (held s) eqn:Eh; [by rewrite <- Eh in *|].
    pose proof (HP isCounted _ _ Ei) as HC. cbn in HC, Hop. subst ok. unfold sameNetifdLinkState. case_bool_decide as Es; split; link_solve.
  - unfold countDown. destruct (conns s !! i) as [[|b| | |]|] eqn:Ei; try done.
    pose proof (HP isCounted _ _ Ei) as HC. pose proof (HP isLive _ _ Ei) as HL. cbn in HC, HL.
    destruct (Z.eqb_spec (liveConns s - 1) 0) as [E|E]; split; link_solve.
  - unfold notifyNetifdDown. destruct (conns s !! i) as [[|b| | |]|] eqn:Ei; try done. destruct (held s) eqn:Eh; [by rewrite <- Eh in *|].
    pose proof (HP isLeaving _ _ Ei) as HC. cbn in HC. destruct (netifdState s) as [a|] eqn:En.
    + destruct (Z.eqb_spec (liveConns s) 0) as [E|E]; cbn [negb]; split; link_solve.
    + split; link_solve.
  - unfold finishDown. destruct (conns s !! i) as [[|b| | |]|] eqn:Ei; try done. pose proof (HP isHeld _ _ Ei) as HC. cbn in HC, Hop. subst ok.
    assert (held s = true) as Eh by (destruct (held s); [done|cbn in H3; lia]). destruct (H4 Eh) as [HL _]. rewrite Eh in H3. cbn in H3. split; link_solve.
Qed.

Lemma link_ok0 n : link_ok (link0 n).
Proof.
  assert (forall f, f CIdle = false -> count f (replicate n CIdle) = 0) as HC by (intros f Hf; induction n as [|n IH]; cbn; [done|]; unfold count in *; rewrite IH, Hf; done).
  split; cbn [link0 conns liveConns netifdState held b2z]; rewrite ?HC by done; first [done | (intros HN; by apply is_Some_None in HN)].
Qed.

Lemma link_exec ops s : Forall (fun op => helpersOk op = true) ops -> link_ok s -> link_ok (linkExec ops s).
Proof. intros HF. revert s. induction HF as [|op ops Hop _ IH]; intros s Hs; [done|]. by apply IH, link_step. Qed.

(** No connection is between two steps. *)
Definition settled (s : linkSys) : Prop := Forall (fun c => c = CIdle \/ c = CLive) (conns s).

(** C35: The link of netifd follows the tunnel.  Over any interleaving of the connections
    of a client, their counting and the publications, as long as the helper scripts
    succeed: whenever no connection is in the middle of a change, netifd shows the
    interface up exactly if at least one connection is running. *)
Theorem netifd_follows_tunnel (n : nat) (ops : list linkOp) : Forall (fun op => helpersOk op = true) ops ->
  let s := linkExec ops (link0 n) in
  settled s -> (is_Some (netifdState s) <-> CLive ∈ conns s) /\ liveConns s = count isLive (conns s).
Proof.
  intros HF s HS. destruct (link_exec ops (link0 n) HF (link_ok0 n)) as [H1 H2 H3 H4 H5]. fold s in H1, H2, H3, H4, H5.
  assert (count isCounted (conns s) = count isLive (conns s) /\ count isLeaving (conns s) = 0) as [EC EL].
  { unfold settled in HS. clear -HS. induction HS as [|c l Hc _ [IH1 IH2]]; [done|]. cbn. unfold count in *. destruct Hc as [-> | ->]; cbn; lia. }
  split; [|congruence]. split.
  - intros Hu. destruct (H5 Hu) as [Hp|Hp]; [|lia]. rewrite H1, EC in Hp. clear -Hp. induction (conns s) as [|c l IH]; cbn in Hp; [lia|].
    destruct c; cbn in Hp; try (right; apply IH; unfold count in *; lia). by left.
  - intros Hin. destruct (netifdState s) as [a|] eqn:En; [by eexists|]. specialize (H2 eq_refl). apply count_zero in H2. rewrite Forall_forall in H2. by specialize (H2 _ Hin).
Qed.

Definition demoAddr (v : string) : linkAddrs := (v, "fd00::2"%string, "10.0.0.1"%string, "fd00::1"%string).

(** A reconnect overtakes the publication of the loss. *)
Definition demoLink : list linkOp := [LCount 0 (demoAddr "10.0.0.2"); LUp 0 true; LDrop 0; LCount 1 (demoAddr "10.0.0.2"); LDown 0; LUp 1 true].

Lemma netifd_follows_tunnel_witness : let s := linkExec demoLink (link0 2) in
  settled s /\ (is_Some (netifdState s) <-> CLive ∈ conns s) /\ published s = [Some (demoAddr "10.0.0.2")].
Proof.
  assert (settled (linkExec demoLink (link0 2))) as HS by (vm_compute; constructor; [by left|constructor; [by right|constructor]]).
  split; [exact HS|]. split; [|by vm_compute]. apply (netifd_follows_tunnel 2 demoLink); [|exact HS]. by repeat constructor.
Defined.

(** *** A helper that fails

    A connection whose UP helper fails takes itself out of the count without the check
    for the last one; when the connection that was running ends in between, nobody
    publishes DOWN. *)
Lemma failed_helper_leaves_link_up :
  let s := linkExec [LCount 0 (demoAddr "10.0.0.2"); LUp 0 true; LCount 1 (demoAddr "10.0.0.3"); LDrop 0; LUp 1 false] (link0 2) in
  conns s = [CIdle; CIdle] /\ liveConns s = 0 /\ netifdState s = Some (demoAddr "10.0.0.2").
Proof. by vm_compute. Qed.
