(* ===== verification/Hooks.v ===== *)
(** * Lifecycle hooks (hooks.go)

    The up and down hooks, which connections call concurrently: sync.Once as a flag, a
    running command as a state of its own, what the commands are started with as a
    trace.  The output buffer of a command. *)

From stdpp Require Import base tactics list numbers list_numbers sorting gmap strings.
From S2P Require Import Prelude.
#[local] Open Scope Z_scope.

Record HookEnv := mkHookEnv { envMode : string; envDev : string; envConfig : string; envIPv4 : string; envIPv6 : string; GatewayV4 : string; GatewayV6 : string }.

Record hookRunInfo := mkRun { ran : bool; ok : bool; out : string; runErr : option string }.
Definition noRun : hookRunInfo := mkRun false false "" None.

(** What a hook was started with. *)
Record hookCall := mkCall { kind : string; path : string; workDir : string; environ : list string }.

(** upRunning: the function of upOnce is between the start of the command and its
    result; calls are the commands started. *)
Record LifecycleHooks := mkHooks {
  upPath : string; downPath : string;
  upDone : bool; upRunning : option HookEnv; downDone : bool; downRunning : option HookEnv;
  active : bool; env : HookEnv;
  upInfo : hookRunInfo; downInfo : hookRunInfo;
  calls : list hookCall
}.
Definition env0 : HookEnv := mkHookEnv "" "" "" "" "" "" "".
Definition newLifecycleHooks (up down : string) : LifecycleHooks := mkHooks up down false None false None false env0 noRun noRun [].

Definition Configured (h : LifecycleHooks) : bool := negb (bool_decide (upPath h = "")) || negb (bool_decide (downPath h = "")).

(** The part of the text before the first slash. *)
Fixpoint stripCIDR (s : string) : string :=
  match s with
  | EmptyString => EmptyString
  | String c r => if bool_decide (c = Ascii.ascii_of_nat 47) then EmptyString else String c (stripCIDR r)
  end.

Definition baseHookEnvironment : list string := ["PATH=/usr/local/sbin:/usr/local/bin:/usr/sbin:/usr/bin:/sbin:/bin"; "LANG=C"; "LC_ALL=C"].

Definition hookEnvironment (scriptType : string) (e : HookEnv) : list string := baseHookEnvironment ++
  [ "script_type=" +:+ scriptType; "dev=" +:+ envDev e; "dev_type=tap"; "config=" +:+ envConfig e;
    "ifconfig_local=" +:+ stripCIDR (envIPv4 e); "ifconfig_ipv6_local=" +:+ stripCIDR (envIPv6 e);
    "route_vpn_gateway=" +:+ GatewayV4 e; "route_ipv6_gateway=" +:+ GatewayV6 e;
    "TLSVPN_SCRIPT_TYPE=" +:+ scriptType; "TLSVPN_MODE=" +:+ envMode e; "TLSVPN_DEV=" +:+ envDev e; "TLSVPN_CONFIG=" +:+ envConfig e;
    "TLSVPN_IPV4=" +:+ envIPv4 e; "TLSVPN_IPV6=" +:+ envIPv6 e; "TLSVPN_GATEWAY_V4=" +:+ GatewayV4 e; "TLSVPN_GATEWAY_V6=" +:+ GatewayV6 e ].

Definition hookError (kd p output err : string) : string :=
  if bool_decide (output = "") then kd +:+ " hook " +:+ p +:+ " failed: " +:+ err
  else kd +:+ " hook " +:+ p +:+ " failed: " +:+ err +:+ " (output: " +:+ output +:+ ")".

(** What the command gives: its output and its error. *)
Definition runRecorded (kd p : string) (o : string) (err : option string) : hookRunInfo :=
  mkRun true (bool_decide (err = None)) o (hookError kd p o <$> err).

Section Ops.
(** The directory of the configuration file (filepath.Abs and Dir). *)
Context (dirOf : string -> string).
Definition hookWorkDir (cfg : string) : string := if bool_decide (cfg = "") then "" else dirOf cfg.

Definition Activate (e : HookEnv) (h : LifecycleHooks) : LifecycleHooks :=
  mkHooks (upPath h) (downPath h) (upDone h) (upRunning h) (downDone h) (downRunning h) true e (upInfo h) (downInfo h) (calls h).

(** Up until the command is started; a later caller of upOnce does nothing. *)
Definition Up (e : HookEnv) (h : LifecycleHooks) : LifecycleHooks :=
  if upDone h then h else
  if bool_decide (upPath h = "") then mkHooks (upPath h) (downPath h) true None (downDone h) (downRunning h) true e (upInfo h) (downInfo h) (calls h)
  else mkHooks (upPath h) (downPath h) true (Some e) (downDone h) (downRunning h) true e (upInfo h) (downInfo h)
         (calls h ++ [mkCall "up" (upPath h) (hookWorkDir (envConfig e)) (hookEnvironment "up" e)]).
(** The command of Up has ended. *)
Definition UpResult (o : string) (err : option string) (h : LifecycleHooks) : LifecycleHooks :=
  match upRunning h with
  | None => h
  | Some _ => mkHooks (upPath h) (downPath h) (upDone h) None (downDone h) (downRunning h) (active h) (env h) (runRecorded "up" (upPath h) o err) (downInfo h) (calls h)
  end.

Definition Down (h : LifecycleHooks) : LifecycleHooks :=
  if downDone h then h else
  if negb (active h) || bool_decide (downPath h = "") then mkHooks (upPath h) (downPath h) (upDone h) (upRunning h) true None (active h) (env h) (upInfo h) (downInfo h) (calls h)
  else mkHooks (upPath h) (downPath h) (upDone h) (upRunning h) true (Some (env h)) (active h) (env h) (upInfo h) (downInfo h)
         (calls h ++ [mkCall "down" (downPath h) (hookWorkDir (envConfig (env h))) (hookEnvironment "down" (env h))]).
Definition DownResult (o : string) (err : option string) (h : LifecycleHooks) : LifecycleHooks :=
  match downRunning h with
  | None => h
  | Some _ => mkHooks (upPath h) (downPath h) (upDone h) (upRunning h) (downDone h) None (active h) (env h) (upInfo h) (runRecorded "down" (downPath h) o err) (calls h)
  end.

Inductive hookOp := HActivate (e : HookEnv) | HUp (e : HookEnv) | HUpResult (o : string) (err : option string) | HDown | HDownResult (o : string) (err : option string).
Definition hookStep (h : LifecycleHooks) (op : hookOp) : LifecycleHooks :=
  match op with
  | HActivate e => Activate e h
  | HUp e => Up e h
  | HUpResult o err => UpResult o err h
  | HDown => Down h
  | HDownResult o err => DownResult o err h
  end.
Definition hookExec (ops : list hookOp) (h : LifecycleHooks) : LifecycleHooks := fold_left hookStep ops h.

Definition callsOf (k : string) (h : LifecycleHooks) : list hookCall := filter (fun c => kind c = k) (calls h).

(** Environments given to Up or Activate. *)
Definition opEnvs (ops : list hookOp) : list HookEnv := omap (fun op => match op with HActivate e | HUp e => Some e | _ => None end) ops.
Definition upEnvs (ops : list hookOp) : list HookEnv := omap (fun op => match op with HUp e => Some e | _ => None end) ops.

(** What holds after [ops]: each hook has been started at most once; the up hook with
    the environment of the first call of Up, the down hook with an environment that
    activated the tunnel before. *)
Definition upCalls (up : string) (ops : list hookOp) : list hookCall :=
  if bool_decide (up = "") then [] else
  match upEnvs ops with [] => [] | e :: _ => [mkCall "up" up (hookWorkDir (envConfig e)) (hookEnvironment "up" e)] end.
Record hooks_ok (up down : string) (ops : list hookOp) (h : LifecycleHooks) : Prop := {
  ho_paths : upPath h = up /\ downPath h = down;
  ho_active : active h = true -> env h ∈ opEnvs ops;
  ho_updone : upDone h = bool_decide (upEnvs ops <> []);
  ho_up : callsOf "up" h = upCalls up ops;
  ho_down : callsOf "down" h = [] \/ downDone h = true /\ down <> "" /\
     exists e, e ∈ opEnvs ops /\ callsOf "down" h = [mkCall "down" down (hookWorkDir (envConfig e)) (hookEnvironment "down" e)];
  ho_fresh : downDone h = false -> callsOf "down" h = []
}.

Lemma opEnvs_snoc ops op : opEnvs (ops ++ [op]) = opEnvs ops ++ opEnvs [op].
Proof. apply omap_app. Qed.
Lemma upEnvs_snoc ops op : upEnvs (ops ++ [op]) = upEnvs ops ++ upEnvs [op].
Proof. apply omap_app. Qed.
Lemma callsOf_snoc k h c h' : calls h' = calls h ++ [c] -> callsOf k h' = callsOf k h ++ (if decide (kind c = k) then [c] else []).
Proof. intros E. unfold callsOf. by rewrite E, filter_app. Qed.

Lemma hooks_step up down ops op h : hooks_ok up down ops h -> hooks_ok up down (ops ++ [op]) (hookStep h op).
Proof.
  intros [[EU ED] HA HU HC HD HF].
  assert (forall e, e ∈ opEnvs ops -> e ∈ opEnvs (ops ++ [op])) as Hsub by (intros e He; rewrite opEnvs_snoc; set_solver).
  assert (forall l, callsOf "down" l = callsOf "down" h -> downDone l = downDone h -> callsOf "down" l = [] \/ downDone l = true /\ down <> "" /\
     exists e, e ∈ opEnvs (ops ++ [op]) /\ callsOf "down" l = [mkCall "down" down (hookWorkDir (envConfig e)) (hookEnvironment "down" e)]) as Hdown.
  { intros l -> ->. destruct HD as [?|(?&?&e&?&?)]; [by left|right]. split_and!; [done..|]. exists e. auto. }
  destruct op as [e|e|o err| |o err]; cbn [hookStep].
  - split; cbn [upPath downPath active env upDone]; [auto|by intros _; rewrite opEnvs_snoc; set_solver| | |by apply Hdown|auto];
      unfold upCalls; rewrite upEnvs_snoc, app_nil_r; done.
  - unfold Up. destruct (upDone h) eqn:EUd.
    + split; [done|auto| | |by apply Hdown|done].
      * rewrite upEnvs_snoc, bool_decide_true; [done|]. by destruct (upEnvs ops).
      * rewrite HC. unfold upCalls. rewrite upEnvs_snoc. symmetry in HU. apply bool_decide_eq_true in HU. by destruct (upEnvs ops).
    + symmetry in HU. apply bool_decide_eq_false in HU. apply dec_stable in HU.
      assert (HC' : callsOf "up" h = []) by (rewrite HC; unfold upCalls; rewrite HU; by case_bool_decide).
      assert (e ∈ opEnvs (ops ++ [HUp e])) as He by (rewrite opEnvs_snoc; set_solver).
      assert (true = bool_decide (upEnvs (ops ++ [HUp e]) <> [])) as HT by (rewrite upEnvs_snoc, HU, bool_decide_true; done).
      destruct (bool_decide_reflect (upPath h = "")) as [EP|EP]; split; cbn [upPath downPath active env upDone]; [auto|auto|auto| |by apply Hdown|exact HF|auto|auto|auto| | |].
      * change (callsOf "up" h = upCalls up (ops ++ [HUp e])). rewrite HC'. unfold upCalls. rewrite <- EU, EP. done.
      * erewrite callsOf_snoc by reflexivity. rewrite HC'. cbn. unfold upCalls. rewrite upEnvs_snoc, HU, <- EU, bool_decide_false by done. done.
      * apply Hdown; [|done]. erewrite callsOf_snoc by reflexivity. cbn. by rewrite app_nil_r.
      * intros HF'. cbn in HF'. erewrite callsOf_snoc by reflexivity. cbn. rewrite app_nil_r. auto.
  - unfold UpResult. destruct (upRunning h); (split; cbn [upPath downPath active env upDone]; [auto|auto| | |by apply Hdown|auto]);
      unfold upCalls; rewrite upEnvs_snoc, app_nil_r; done.
  - unfold Down. destruct (downDone h) eqn:EDd.
    + split; [done|auto| | |by apply Hdown|by rewrite EDd]; unfold upCalls; rewrite upEnvs_snoc, app_nil_r; done.
    + destruct (active h) eqn:EA; [destruct (decide (downPath h = "")) as [EP|EP]|]; rewrite ?(bool_decide_true (downPath h = "")), ?(bool_decide_false (downPath h = "")) by done; cbn [negb orb].
      * split; cbn [upPath downPath active env upDone]; [auto|auto| | |left; by apply HF|done]; unfold upCalls; rewrite upEnvs_snoc, app_nil_r; done.
      * split; cbn [upPath downPath active env upDone downDone]; [done|auto| | | |done].
        -- by rewrite upEnvs_snoc, app_nil_r.
        -- erewrite callsOf_snoc by reflexivity. cbn. rewrite app_nil_r, HC. unfold upCalls. by rewrite upEnvs_snoc, app_nil_r.
        -- right. split_and!; [done|congruence|]. exists (env h). split; [auto|]. erewrite callsOf_snoc by reflexivity. rewrite HF by done. cbn. by rewrite ED.
      * split; cbn [upPath downPath active env upDone]; [auto|done| | |left; by apply HF|done]; unfold upCalls; rewrite upEnvs_snoc, app_nil_r; done.
  - unfold DownResult. destruct (downRunning h); (split; cbn [upPath downPath active env upDone]; [auto|auto| | |by apply Hdown|auto]);
      unfold upCalls; rewrite upEnvs_snoc, app_nil_r; done.
Qed.

(** The hooks run at most once: over any sequence of calls by any number of connections
    the up hook is started exactly once if Up is called at all and a path is set, with
    the environment of the first call, and the down hook at most once, only after an
    activation and with the environment of one. *)
Theorem hooks_run_once (up down : string) (ops : list hookOp) :
  let h := hookExec ops (newLifecycleHooks up down) in
  callsOf "up" h = upCalls up ops /\
  (callsOf "down" h = [] \/ down <> "" /\ exists e, e ∈ opEnvs ops /\ callsOf "down" h = [mkCall "down" down (hookWorkDir (envConfig e)) (hookEnvironment "down" e)]).
Proof.
  intros h. assert (hooks_ok up down ops h) as HO.
  { subst h. induction ops as [|op ops IH] using rev_ind; [split; cbn; try done; [unfold upCalls; by case_bool_decide|by left]|].
    unfold hookExec. rewrite fold_left_app. by apply hooks_step. }
  destruct HO as [_ _ _ HU HD _]. split; [done|]. destruct HD as [?|(?&?&?)]; [by left|by right].
Qed.
End Ops.

(** *** Output of a hook *)

Definition hookOutputCap : nat := 65536.
(** The buffer keeps the first bytes and reports every write as complete. *)
Definition cappedWrite {A} (limit : nat) (buf p : list A) : list A * nat :=
  (if (length buf <? limit)%nat then buf ++ (if (limit - length buf <? length p)%nat then take (limit - length buf) p else p) else buf, length p).

Lemma capped_write_total {A} (limit : nat) (ws : list (list A)) :
  let buf := fold_left (fun b p => (cappedWrite limit b p).1) ws [] in
  buf = take limit (concat ws).
Proof.
  intros buf. subst buf. induction ws as [|p ws IH] using rev_ind; [by destruct limit|].
  rewrite fold_left_app, concat_app. cbn [fold_left concat]. rewrite IH, app_nil_r, take_app. unfold cappedWrite. cbn [fst].
  rewrite length_take. destruct (decide (length (concat ws) < limit)%nat) as [H|H].
  - rewrite Nat.min_r by lia. rewrite (proj2 (Nat.ltb_lt _ _)) by lia. f_equal.
    destruct (decide (limit - length (concat ws) < length p)%nat) as [H'|H'].
    + by rewrite (proj2 (Nat.ltb_lt _ _)) by lia.
    + rewrite (proj2 (Nat.ltb_ge _ _)) by lia. by rewrite take_ge by lia.
  - rewrite Nat.min_l by lia. rewrite Nat.ltb_irrefl. replace (limit - length (concat ws))%nat with 0%nat by lia. by rewrite app_nil_r.
Qed.
