(* ===== verification/Events.v ===== *)
(** * Events and log lines (events.go, main.go)

    The rings behind the event and log pages, the subscribers of the event stream and
    the handler that joins the backlog to the stream. *)

From stdpp Require Import base tactics list numbers list_numbers sorting gmap strings.
From S2P Require Import Prelude.
#[local] Open Scope Z_scope.

(** Both rings keep the last [cap] entries, in order. *)
Definition keepLast {A} (n : nat) (l : list A) : list A := if (n <? length l)%nat then drop (length l - n) l else l.

Record evtJSON := mkEvt { Seq : Z; Time : string; Typ : string; Level : string; Client : string; Msg : string }.

(** Subscribers by the identity of their channel, with what it holds. *)
Record eventBus := mkBus { seq : Z; cap : nat; ring : list evtJSON; subs : gmap nat (list evtJSON); nextSub : nat }.
Definition newEventBus (capacity : nat) : eventBus := mkBus 0 capacity [] ∅ 0.
Definition subCap : nat := 256.

(** What a caller of emit gives, with the time of the call. *)
Definition evtIn : Type := string * string * string * string * string.
Definition stamp (n : Z) (e : evtIn) : evtJSON := match e with (t, typ, level, client, msg) => mkEvt n t typ level client msg end.

(** A send that does not block. *)
Definition offer (e : evtJSON) (ch : list evtJSON) : list evtJSON := if (length ch <? subCap)%nat then ch ++ [e] else ch.

Definition emit (i : evtIn) (b : eventBus) : eventBus :=
  let n := u64 (seq b + 1) in
  let e := stamp n i in
  mkBus n (cap b) (keepLast (cap b) (ring b ++ [e])) (offer e <$> subs b) (nextSub b).

Definition snapshot (after : Z) (b : eventBus) : list evtJSON := filter (fun e => after < Seq e) (ring b).

Definition subscribe (b : eventBus) : eventBus := mkBus (seq b) (cap b) (ring b) (<[nextSub b := []]> (subs b)) (S (nextSub b)).
Definition cancelSub (k : nat) (b : eventBus) : eventBus := mkBus (seq b) (cap b) (ring b) (delete k (subs b)) (nextSub b).

(** A receive on the channel of a subscriber. *)
Definition receive (k : nat) (b : eventBus) : option evtJSON * eventBus :=
  match subs b !! k with
  | Some (e :: q) => (Some e, mkBus (seq b) (cap b) (ring b) (<[k := q]> (subs b)) (nextSub b))
  | _ => (None, b)
  end.

(** The log ring of main.go. *)
Record logLine := mkLine { lineSeq : Z; lineLevel : string; lineTime : string; lineMsg : string }.
Record logRingBuf := mkLogRing { logSeq : Z; lines : list logLine; logCap : nat }.
Definition newLogRing (capacity : nat) : logRingBuf := mkLogRing 0 [] capacity.
Definition logAdd (level time msg : string) (r : logRingBuf) : logRingBuf :=
  let n := u64 (logSeq r + 1) in
  mkLogRing n (keepLast (logCap r) (lines r ++ [mkLine n level time msg])) (logCap r).
Definition logSnapshot (after : Z) (r : logRingBuf) : list logLine := filter (fun l => after < lineSeq l) (lines r).

(** *** The bus over time *)

Inductive busOp := BEmit (i : evtIn) | BSubscribe | BCancel (k : nat) | BReceive (k : nat).
(** The state and what subscriber [k] has received. *)
Definition busStep (s : eventBus * list (nat * evtJSON)) (op : busOp) : eventBus * list (nat * evtJSON) :=
  match op with
  | BEmit i => (emit i s.1, s.2)
  | BSubscribe => (subscribe s.1, s.2)
  | BCancel k => (cancelSub k s.1, s.2)
  | BReceive k => let '(e, b) := receive k s.1 in (b, match e with Some e => s.2 ++ [(k, e)] | None => s.2 end)
  end.
Definition busExec (ops : list busOp) (s : eventBus * list (nat * evtJSON)) := fold_left busStep ops s.
Definition emitted (ops : list busOp) : list evtIn := omap (fun op => match op with BEmit i => Some i | _ => None end) ops.
Definition stampAll (n : Z) (l : list evtIn) : list evtJSON := imap (fun j i => stamp (n + Z.of_nat j) i) l.
Definition receivedBy (k : nat) (l : list (nat * evtJSON)) : list evtJSON := omap (fun x => if decide (x.1 = k) then Some x.2 else None) l.

Lemma stampAll_app n l1 l2 : stampAll n (l1 ++ l2) = stampAll n l1 ++ stampAll (n + Z.of_nat (length l1)) l2.
Proof. unfold stampAll. rewrite imap_app. f_equal. apply imap_ext. intros j i _. unfold compose. f_equal. lia. Qed.
Lemma stampAll_length n l : length (stampAll n l) = length l.
Proof. apply length_imap. Qed.
Lemma stamp_Seq n i : Seq (stamp n i) = n.
Proof. by destruct i as [[[[? ?] ?] ?] ?]. Qed.
Lemma stampAll_range n l : Forall (fun e => n <= Seq e < n + Z.of_nat (length l)) (stampAll n l).
Proof.
  apply Forall_forall. intros e He. apply list_elem_of_lookup in He as [j Hj]. unfold stampAll in Hj. rewrite list_lookup_imap in Hj.
  destruct (l !! j) as [i|] eqn:E; [|done]. cbn in Hj. injection Hj as <-. rewrite stamp_Seq. apply lookup_lt_Some in E. lia.
Qed.
Lemma keepLast_app {A} n (l1 l2 : list A) : keepLast n (keepLast n l1 ++ l2) = keepLast n (l1 ++ l2).
Proof.
  unfold keepLast. destruct (Nat.ltb_spec n (length l1)) as [H|H]; [|done]. rewrite !length_app, length_drop.
  destruct (Nat.ltb_spec n (length l1 + length l2)) as [H'|H']; [|lia].
  destruct (Nat.ltb_spec n (length l1 - (length l1 - n) + length l2)) as [H2|H2].
  - rewrite !drop_app, drop_drop, length_drop. f_equal; f_equal; lia.
  - destruct l2; [|cbn in H2; lia]. rewrite !app_nil_r, Nat.add_0_r. done.
Qed.

(** The ring and the counter after any history. *)
Lemma bus_ring c ops (r : list (nat * evtJSON)) : Z.of_nat (length (emitted ops)) < 2 ^ 64 ->
  let b := (busExec ops (newEventBus c, r)).1 in
  seq b = Z.of_nat (length (emitted ops)) /\ cap b = c /\ ring b = keepLast c (stampAll 1 (emitted ops)).
Proof.
  cbn. induction ops as [|op ops IH] using rev_ind; intros HB; [by destruct c|].
  unfold busExec, emitted in *. rewrite fold_left_app, omap_app in *. rewrite length_app in HB. specialize (IH ltac:(lia)) as (I1 & I2 & I3).
  destruct (fold_left busStep ops (newEventBus c, r)) as [b q]. cbn [fst] in *. cbn [fold_left busStep].
  destruct op as [i| |k|k]; cbn [omap list_omap] in *; rewrite ?app_nil_r; try done.
  - cbn in HB |- *. rewrite I1, I2, I3, length_app. cbn [length]. unfold u64. rewrite Z.mod_small by lia. split_and!; [lia|done|].
    rewrite keepLast_app, stampAll_app. do 2 f_equal. unfold stampAll. cbn. do 2 f_equal. lia.
  - cbn. destruct (receive k b) as [e b'] eqn:E. unfold receive in E. destruct (subs b !! k) as [[|x l]|]; injection E as <- <-; done.
Qed.

(** What the ring holds after number [known]. *)
Lemma ring_since c l (known : nat) : (known <= length l)%nat -> (length l - known <= c)%nat ->
  filter (fun e => Z.of_nat known < Seq e) (keepLast c (stampAll 1 l)) = stampAll (Z.of_nat known + 1) (drop known l).
Proof.
  intros Hk Hc. rewrite <- (take_drop known l) at 1. rewrite stampAll_app, length_take, Nat.min_l by lia.
  replace (1 + Z.of_nat known) with (Z.of_nat known + 1) by lia.
  pose proof (stampAll_range 1 (take known l)) as HA. pose proof (stampAll_range (Z.of_nat known + 1) (drop known l)) as HD. rewrite length_take in HA.
  pose proof (stampAll_length 1 (take known l)) as LA. pose proof (stampAll_length (Z.of_nat known + 1) (drop known l)) as LB. rewrite length_take in LA. rewrite length_drop in LB.
  set (A := stampAll 1 (take known l)) in *. set (B := stampAll _ (drop known l)) in *.
  assert (exists k, keepLast c (A ++ B) = drop k A ++ B) as [k Ek].
  { unfold keepLast. destruct (Nat.ltb_spec c (length (A ++ B))) as [H|H]; [|by exists 0%nat]. rewrite length_app in *. exists (length A + length B - c)%nat.
    rewrite drop_app. f_equal. by replace (length A + length B - c - length A)%nat with 0%nat by lia. }
  rewrite Ek, filter_app, (filter_all _ B), (filter_none _ (drop k A)); [done| |].
  - apply Forall_drop. eapply Forall_impl; [exact HA|]. cbn. lia.
  - eapply Forall_impl; [exact HD|]. cbn. lia.
Qed.

(** Polling the event page misses nothing.  Through any history of emits,
    subscriptions and receives, a client that asks for the events after the last number
    it knows gets exactly the events emitted since, in order, as long as they are no
    more than the ring holds (500 in the program). *)
Theorem events_poll_complete (c : nat) (ops1 ops2 : list busOp) (r : list (nat * evtJSON)) :
  Z.of_nat (length (emitted (ops1 ++ ops2))) < 2 ^ 64 -> (length (emitted ops2) <= c)%nat ->
  let s1 := busExec ops1 (newEventBus c, r) in let s2 := busExec ops2 s1 in
  snapshot (seq s1.1) s2.1 = stampAll (seq s1.1 + 1) (emitted ops2).
Proof.
  intros HB HC s1 s2. assert (s2 = busExec (ops1 ++ ops2) (newEventBus c, r)) as Es2 by (subst s2 s1; unfold busExec; by rewrite fold_left_app).
  destruct (bus_ring c (ops1 ++ ops2) r HB) as (_ & _ & E). rewrite <- Es2 in E. assert (emitted (ops1 ++ ops2) = emitted ops1 ++ emitted ops2) as EA by apply omap_app.
  rewrite EA, length_app in HB. destruct (bus_ring c ops1 r ltac:(lia)) as (E1 & _ & _). fold s1 in E1.
  unfold snapshot. rewrite E, EA, E1, ring_since; rewrite ?length_app; [|lia..]. by rewrite drop_app_length.
Qed.

Definition demoIn (m : string) : evtIn := ("12:00:00.000"%string, "up"%string, "info"%string, ""%string, m).

Lemma events_poll_complete_witness :
  let s1 := busExec [BEmit (demoIn "a"); BSubscribe; BEmit (demoIn "b")] (newEventBus 2, []) in
  let s2 := busExec [BEmit (demoIn "c"); BReceive 0; BEmit (demoIn "d")] s1 in
  snapshot (seq s1.1) s2.1 = stampAll 3 [demoIn "c"; demoIn "d"] /\ ring s2.1 = stampAll 3 [demoIn "c"; demoIn "d"].
Proof.
  split; [|by vm_compute]. refine (events_poll_complete 2 [BEmit (demoIn "a"); BSubscribe; BEmit (demoIn "b")] [BEmit (demoIn "c"); BReceive 0; BEmit (demoIn "d")] [] _ _).
  - by vm_compute.
  - cbn. lia.
Defined.

(** The log page has the same ring. *)
Lemma log_ring c (ls : list (string * string * string)) : Z.of_nat (length ls) < 2 ^ 64 ->
  let r := fold_left (fun r l => logAdd l.1.1 l.1.2 l.2 r) ls (newLogRing c) in
  logSeq r = Z.of_nat (length ls) /\ logCap r = c /\
  lines r = keepLast c (imap (fun j l => mkLine (1 + Z.of_nat j) l.1.1 l.1.2 l.2) ls).
Proof.
  intros HB r. subst r. induction ls as [|l ls IH] using rev_ind; [by destruct c|]. rewrite length_app in HB. cbn in HB.
  destruct IH as (I1 & I2 & I3); [lia|]. rewrite fold_left_app. cbn [fold_left]. set (r := fold_left _ ls _) in *. clearbody r. unfold logAdd. cbn [logSeq logCap lines]. rewrite I1, I2, I3, length_app. cbn [length].
  unfold u64. rewrite Z.mod_small by lia. split_and!; [lia|done|]. rewrite keepLast_app, imap_app. cbn. do 4 f_equal. lia.
Qed.

(** *** Streaming *)

Definition cancels (k : nat) (op : busOp) : bool := match op with BCancel j => bool_decide (j = k) | _ => false end.

Lemma receivedBy_snoc k l j e : receivedBy k (l ++ [(j, e)]) = receivedBy k l ++ (if decide (j = k) then [e] else []).
Proof. unfold receivedBy. rewrite omap_app. f_equal. cbn. by destruct (decide (j = k)). Qed.

(** A subscriber that keeps up: what it has received and what waits in its channel. *)
Lemma subscriber_keeps_up k ops b q ch : Forall (fun op => cancels k op = false) ops -> (k < nextSub b)%nat -> subs b !! k = Some ch ->
  (length ch + length (emitted ops) <= subCap)%nat -> 0 <= seq b -> seq b + Z.of_nat (length (emitted ops)) < 2 ^ 64 ->
  exists ch', subs (busExec ops (b, q)).1 !! k = Some ch' /\
    receivedBy k (busExec ops (b, q)).2 ++ ch' = receivedBy k q ++ ch ++ stampAll (seq b + 1) (emitted ops).
Proof.
  intros HF. revert b q ch. induction HF as [|op ops Hop _ IH]; intros b q ch Hk Hs HL H0 HB; [exists ch; cbn; by rewrite app_nil_r|].
  change (busExec (op :: ops) (b, q)) with (busExec ops (busStep (b, q) op)). destruct op as [i| |j|j]; cbn [busStep fst snd].
  - change (emitted (BEmit i :: ops)) with (i :: emitted ops) in *. cbn [length] in HL, HB.
    assert (seq (emit i b) = seq b + 1) as Es by (cbn; unfold u64; rewrite Z.mod_small; lia).
    destruct (IH (emit i b) q (ch ++ [stamp (seq b + 1) i])) as (ch' & H1 & H2); [done| | |lia|lia|].
    + cbn. rewrite lookup_fmap, Hs. cbn. unfold offer, u64. rewrite (proj2 (Nat.ltb_lt _ _)), Z.mod_small by lia. done.
    + rewrite length_app. cbn. lia.
    + exists ch'. split; [done|]. rewrite H2, Es, <- app_assoc. do 2 f_equal. change (i :: emitted ops) with ([i] ++ emitted ops). rewrite stampAll_app. unfold stampAll at 2. cbn. by rewrite Z.add_0_r.
  - destruct (IH (subscribe b) q ch) as (ch' & H1 & H2); cbn [subscribe nextSub subs]; [lia| |done..|by exists ch']. rewrite lookup_insert_ne by lia. done.
  - cbn in Hop. apply bool_decide_eq_false in Hop. destruct (IH (cancelSub j b) q ch) as (ch' & H1 & H2); [done| |done..|by exists ch'].
    cbn. by rewrite lookup_delete_ne.
  - destruct (receive j b) as [e b'] eqn:E. unfold receive in E. destruct (subs b !! j) as [[|x l]|] eqn:Ej; injection E as <- <-; try (by destruct (IH b q ch) as (ch' & ? & ?); [done..|exists ch']).
    destruct (decide (j = k)) as [->|Hn].
    + rewrite Hs in Ej. injection Ej as ->. destruct (IH (mkBus (seq b) (cap b) (ring b) (<[k := l]> (subs b)) (nextSub b)) (q ++ [(k, x)]) l) as (ch' & H1 & H2); cbn [subs nextSub seq]; [done| | |done..|].
      * by rewrite lookup_insert_eq.
      * change (emitted (BReceive k :: ops)) with (emitted ops) in HL. cbn [length] in HL. lia.
      * exists ch'. split; [done|]. rewrite H2, receivedBy_snoc, decide_True by done. cbn. by rewrite <- app_assoc.
    + destruct (IH (mkBus (seq b) (cap b) (ring b) (<[j := l]> (subs b)) (nextSub b)) (q ++ [(j, x)]) ch) as (ch' & H1 & H2); cbn [subs nextSub seq]; [done| |done..|].
      * by rewrite lookup_insert_ne.
      * exists ch'. split; [done|]. rewrite H2, receivedBy_snoc, decide_False, app_nil_r by done. done.
Qed.

(** handleEvents without stream=0: the backlog is written, then the handler subscribes,
    then it forwards.  [gap] is what happens between the two calls, [later] what
    happens afterwards; the result is what has been written and what still waits in
    the channel. *)
Definition handleEvents (after : Z) (gap later : list busOp) (s : eventBus * list (nat * evtJSON)) : list evtJSON * list evtJSON :=
  let s1 := busExec gap s in
  let k := nextSub s1.1 in
  let s2 := busExec (BSubscribe :: later) (s1.1, []) in
  (snapshot after s.1 ++ receivedBy k s2.2, default [] (subs s2.1 !! k)).

(** The stream continues the backlog without a hole, provided that nothing is emitted
    between the reading of the backlog and the subscription and that the client is
    never more than a channel behind. *)
Theorem events_stream_complete (c : nat) (ops gap later : list busOp) (known : nat) :
  (known <= length (emitted ops))%nat -> (length (emitted ops) - known <= c)%nat ->
  emitted gap = [] -> (length (emitted later) <= subCap)%nat -> Z.of_nat (length (emitted (ops ++ later))) < 2 ^ 64 ->
  let s := busExec ops (newEventBus c, []) in
  Forall (fun op => cancels (nextSub (busExec gap s).1) op = false) later ->
  let '(written, waiting) := handleEvents (Z.of_nat known) gap later s in
  written ++ waiting = stampAll (Z.of_nat known + 1) (drop known (emitted ops ++ emitted later)).
Proof.
  intros Hk Hc Hgap Hlate HB s HF. unfold handleEvents. set (s1 := busExec gap s) in *. set (k := nextSub s1.1) in *.
  assert (emitted (ops ++ later) = emitted ops ++ emitted later) as EA by apply omap_app. rewrite EA, length_app in HB.
  destruct (bus_ring c ops [] ltac:(lia)) as (E1 & _ & E3). fold s in E1, E3.
  assert (seq s1.1 = seq s.1) as Es.
  { assert (busExec (ops ++ gap) (newEventBus c, []) = s1) as Eg by (subst s1 s; unfold busExec; by rewrite fold_left_app).
    assert (emitted (ops ++ gap) = emitted ops) as EG by (unfold emitted in *; by rewrite omap_app, Hgap, app_nil_r).
    destruct (bus_ring c (ops ++ gap) []) as (F1 & _ & _); [rewrite EG; lia|]. by rewrite Eg, EG, <- E1 in F1. }
  change (busExec (BSubscribe :: later) (s1.1, [])) with (busExec later (subscribe s1.1, [])).
  destruct (subscriber_keeps_up k later (subscribe s1.1) [] []) as (ch & H1 & H2); cbn [subscribe subs nextSub seq length]; [done|lia|by rewrite lookup_insert_eq|done|lia|lia|].
  rewrite H1. cbn [from_option id default]. rewrite <- app_assoc, H2. cbn [receivedBy omap list_omap app subscribe seq]. rewrite Es, E1, drop_app, stampAll_app. f_equal.
  - unfold snapshot. rewrite E3. by apply ring_since.
  - rewrite length_drop. replace (known - length (emitted ops))%nat with 0%nat by lia. cbn. f_equal. lia.
Qed.

Lemma events_stream_complete_witness :
  let s := busExec [BEmit (demoIn "a"); BEmit (demoIn "b")] (newEventBus 500, []) in
  (handleEvents 1 [BSubscribe] [BEmit (demoIn "c"); BReceive 1; BEmit (demoIn "d")] s).1
  ++ (handleEvents 1 [BSubscribe] [BEmit (demoIn "c"); BReceive 1; BEmit (demoIn "d")] s).2 = stampAll 2 [demoIn "b"; demoIn "c"; demoIn "d"].
Proof.
  refine (events_stream_complete 500 [BEmit (demoIn "a"); BEmit (demoIn "b")] [BSubscribe] [BEmit (demoIn "c"); BReceive 1; BEmit (demoIn "d")] 1 _ _ _ _ _ _).
  - apply Nat.leb_le. by vm_compute.
  - apply Nat.leb_le. by vm_compute.
  - reflexivity.
  - apply Nat.leb_le. by vm_compute.
  - by vm_compute.
  - by repeat constructor.
Defined.

(** An event between the two calls is neither in the backlog nor in the stream, and the
    client is told a later number, so that it never asks for it again. *)
Lemma stream_gap_loses_event :
  let s := busExec [BEmit (demoIn "a")] (newEventBus 500, []) in
  let '(written, waiting) := handleEvents 0 [BEmit (demoIn "b")] [BEmit (demoIn "c"); BReceive 0] s in
  Seq <$> (written ++ waiting) = [1; 3].
Proof. by vm_compute. Qed.

(** A full channel keeps its oldest events: the 257th is the one that is dropped. *)
Lemma full_channel_drops_newest :
  let s := busExec (BSubscribe :: replicate 257 (BEmit (demoIn "x"))) (newEventBus 500, []) in
  (Seq <$> default [] (subs s.1 !! 0%nat)) = seqZ 1 256.
Proof. by vm_compute. Qed.
