(* ===== verification/Web.v ===== *)
(** * Access to the dashboard and to MCP (web_session.go, web.go, mcp_auth.go)

    The session store of the dashboard, the middleware in front of every handler and
    the authentication of the MCP endpoint, as functions of the configuration, the
    request, the clock (nanoseconds) and the random bytes of a login.  SHA-256, base64
    and the JWT library are parameters.  Text is compared byte by byte; case folding
    and trimming are those of ASCII, the alphabet of everything they are compared to. *)

From stdpp Require Import base tactics list numbers gmap strings sorting.
From S2P Require Import Prelude Aead Ident.
#[local] Open Scope Z_scope.

Definition webSessionTTL : Z := 24 * 3600 * 1000000000.
Definition basicTokenPrefix : string := "basic:".

Definition hasPrefix (p s : string) : bool := String.prefix p s.
Definition trimPrefix (p s : string) : string := if hasPrefix p s then String.substring (String.length p) (String.length s - String.length p) s else s.

(** strings.ToLower and strings.TrimSpace on ASCII. *)
Definition lowerAscii (c : Ascii.ascii) : Ascii.ascii :=
  let n := Ascii.nat_of_ascii c in if (65 <=? n)%nat && (n <=? 90)%nat then Ascii.ascii_of_nat (n + 32) else c.
Fixpoint toLower (s : string) : string := match s with EmptyString => EmptyString | String c s => String (lowerAscii c) (toLower s) end.
Definition isSpace (c : Ascii.ascii) : bool := let n := Ascii.nat_of_ascii c in ((9 <=? n)%nat && (n <=? 13)%nat) || (n =? 32)%nat.
Fixpoint trimLeft (f : Ascii.ascii -> bool) (s : string) : string := match s with String c s' => if f c then trimLeft f s' else s | EmptyString => EmptyString end.
Definition trimRight (f : Ascii.ascii -> bool) (s : string) : string := String.rev (trimLeft f (String.rev s)).
Definition trimSpace (s : string) : string := trimRight isSpace (trimLeft isSpace s).
Definition equalFold (a b : string) : bool := bool_decide (toLower a = toLower b).

(** crypto/sha256 and encoding/base64 (RawURLEncoding), on strings. *)
Class WebCrypto := {
  sha256s : string -> bytes;
  b64enc : string -> string;
  b64dec : string -> option string;
  b64_roundtrip : forall s, b64dec (b64enc s) = Some s
}.

Section Web.
Context `{WebCrypto}.

Definition constantTimeCredentialEqual (got want : string) : bool := bool_decide (sha256s got = sha256s want).

(** ** The session store *)

Record webSession := mkWebSession { expires : Z; authHash : bytes }.
Notation webSessionStore := (gmap string webSession).

Definition webAuthHash (auth : string) : bytes := sha256s auth.

(** create: [buf] are the random bytes, absent when the source fails. *)
Definition create (now : Z) (buf : option string) (auth : string) (s : webSessionStore) : webSessionStore * option string :=
  match buf with
  | None => (s, None)
  | Some buf =>
    let token := b64enc buf in
    (<[token := mkWebSession (now + webSessionTTL) (webAuthHash auth)]> (filter (fun kv : string * webSession => ~ expires kv.2 < now) s), Some token)
  end.

Definition valid (now : Z) (token auth : string) (s : webSessionStore) : webSessionStore * bool :=
  if bool_decide (token = ""%string) || bool_decide (auth = ""%string) then (s, false) else
  if hasPrefix basicTokenPrefix token then
    match b64dec (trimPrefix basicTokenPrefix token) with
    | None => (s, false)
    | Some credential => (s, constantTimeCredentialEqual credential auth)
    end
  else
  match s !! token with
  | None => (s, false)
  | Some v =>
    if (expires v <? now) || negb (bool_decide (authHash v = webAuthHash auth)) then (delete token s, false)
    else (<[token := mkWebSession (now + webSessionTTL) (authHash v)]> s, true)
  end.

Definition revoke (token : string) (s : webSessionStore) : webSessionStore :=
  if bool_decide (token = ""%string) || hasPrefix basicTokenPrefix token then s else delete token s.

(** ** Requests *)

Record httpReq := mkReq {
  rPath : string;
  rMethod : string;
  rCookie : option string;                 (* the session cookie *)
  rBasic : option (string * string);       (* user and password of the Authorization header *)
  rLogin : option (string * string);       (* the body of a login, if it decodes *)
  rHeader : string -> string               (* a header by its canonical name *)
}.

Definition dashboardSessionToken (r : httpReq) : string :=
  match rCookie r with
  | Some c => if bool_decide (c = ""%string) then match rBasic r with Some (u, p) => (basicTokenPrefix +:+ b64enc (u +:+ ":" +:+ p))%string | None => ""%string end else c
  | None => match rBasic r with Some (u, p) => (basicTokenPrefix +:+ b64enc (u +:+ ":" +:+ p))%string | None => ""%string end
  end.

(** ** MCP *)

Inductive mcpMode := mcpAuthInheritWeb | mcpAuthNone | mcpAuthBasic | mcpAuthBearer | mcpAuthAPIKey | mcpAuthOAuthJWT | mcpAuthOther.
#[export] Instance mcpMode_eq : EqDecision mcpMode.
Proof. solve_decision. Defined.

Record MCPOAuthJWTConfig := mkOAuth { JWKSURL : string; Issuer : string; Audience : string; Resource : string; AuthorizationServers : list string; RequiredScopes : list string }.
Record MCPConfig := mkMCP { AuthMode : string; mUsername : string; Credential : string; APIKeyHeader : string; OAuth : MCPOAuthJWTConfig }.

Definition normalizeMCPAuthMode (mode : string) : string :=
  let mode := toLower (trimSpace mode) in if bool_decide (mode = ""%string) then "inherit_web"%string else mode.
Definition modeOf (mode : string) : mcpMode :=
  if bool_decide (mode = "inherit_web"%string) then mcpAuthInheritWeb else if bool_decide (mode = "none"%string) then mcpAuthNone else
  if bool_decide (mode = "basic"%string) then mcpAuthBasic else if bool_decide (mode = "bearer"%string) then mcpAuthBearer else
  if bool_decide (mode = "api_key"%string) then mcpAuthAPIKey else if bool_decide (mode = "oauth_jwt"%string) then mcpAuthOAuthJWT else mcpAuthOther.

Definition mcpCredentialHashPrefix : string := "sha256:".

(** encoding/hex. *)
Definition hexDigit (n : Z) : Ascii.ascii := Ascii.ascii_of_nat (Z.to_nat (if n <? 10 then 48 + n else 87 + n)).
Fixpoint hexEncode (b : bytes) : string := match b with [] => EmptyString | x :: b => String (hexDigit (x / 16)) (String (hexDigit (x mod 16)) (hexEncode b)) end.
Definition hexVal (c : Ascii.ascii) : option Z :=
  let n := Z.of_nat (Ascii.nat_of_ascii c) in
  if (48 <=? n) && (n <=? 57) then Some (n - 48) else if (97 <=? n) && (n <=? 102) then Some (n - 87) else if (65 <=? n) && (n <=? 70) then Some (n - 55) else None.
Fixpoint hexDecode (s : string) : option bytes :=
  match s with
  | EmptyString => Some []
  | String a (String b s) => match hexVal a, hexVal b, hexDecode s with Some x, Some y, Some l => Some (x * 16 + y :: l) | _, _, _ => None end
  | _ => None
  end.

Definition normalizeMCPStaticCredential (value : string) : string :=
  if bool_decide (value = ""%string) then ""%string else
  if hasPrefix mcpCredentialHashPrefix (toLower value)
  then (mcpCredentialHashPrefix +:+ toLower (trimSpace (String.substring 7 (String.length value - 7) value)))%string
  else (mcpCredentialHashPrefix +:+ hexEncode (sha256s value))%string.

Definition validMCPStaticCredentialHash (value : string) : bool :=
  hasPrefix mcpCredentialHashPrefix value &&
  let raw := trimPrefix mcpCredentialHashPrefix value in
  (String.length raw =? 64)%nat && match hexDecode raw with Some _ => true | None => false end.

Definition mcpCredentialMatches (got stored : string) : bool :=
  let stored := normalizeMCPStaticCredential stored in
  if negb (validMCPStaticCredentialHash stored) then false else
  match hexDecode (trimPrefix mcpCredentialHashPrefix stored) with
  | Some want => (length want =? 32)%nat && bool_decide (sha256s got = want)
  | None => false
  end.

Definition headerPunct : list nat := [33; 35; 36; 37; 38; 39; 42; 43; 45; 46; 94; 95; 96; 124; 126]%nat.
Definition headerChar (c : Ascii.ascii) : bool :=
  let n := Ascii.nat_of_ascii c in
  ((97 <=? n) && (n <=? 122) || (65 <=? n) && (n <=? 90) || (48 <=? n) && (n <=? 57))%nat || existsb (Nat.eqb n) headerPunct.
Fixpoint allChars (f : Ascii.ascii -> bool) (s : string) : bool := match s with EmptyString => true | String c s => f c && allChars f s end.
Definition validHTTPHeaderName (name : string) : bool := negb (bool_decide (name = ""%string)) && allChars headerChar name.

Definition mcpBearerToken (r : httpReq) : string * bool :=
  let value := trimSpace (rHeader r "Authorization") in
  if (String.length value <? 7)%nat || negb (equalFold (String.substring 0 6 value) "Bearer") || negb (bool_decide (String.substring 6 1 value = " "%string)) then (""%string, false)
  else let token := trimSpace (String.substring 7 (String.length value - 7) value) in (token, negb (bool_decide (token = ""%string))).

(** Scopes: the claims "scope" and "scp", each a text or a list of values. *)
Inductive claimVal := CText (s : string) | CList (l : list (option string)).
Definition extractMCPJWTScopes (claims : list claimVal) : list string :=
  concat ((fun c => match c with CText s => String.words s | CList l => concat (String.words <$> omap (fun x => x) l) end) <$> claims).

Inductive mcpErr := MErrToken | MErrScope.

(** verifyMCPOAuthJWT: [parsed] is what the JWT library makes of the token with the
    configured issuer, audience and keys: the scope claims of a valid token. *)
Definition verifyMCPOAuthJWT (parsed : option (list claimVal)) (cfg : MCPOAuthJWTConfig) : option mcpErr :=
  match parsed with
  | None => Some MErrToken
  | Some claims =>
    if (length (RequiredScopes cfg) =? 0)%nat then None else
    if forallb (fun s => bool_decide (s ∈ extractMCPJWTScopes claims)) (RequiredScopes cfg) then None else Some MErrScope
  end.

(** serveMCP up to the decision. *)
Definition mcpAuthErr (now : Z) (webAuth : string) (cfg : MCPConfig) (jwt : string -> option (list claimVal)) (r : httpReq) (s : webSessionStore)
    : webSessionStore * option mcpErr :=
  match modeOf (normalizeMCPAuthMode (AuthMode cfg)) with
  | mcpAuthNone => (s, None)
  | mcpAuthInheritWeb =>
    if bool_decide (webAuth = ""%string) then (s, None) else
    let '(s, ok) := valid now (dashboardSessionToken r) webAuth s in
    if ok then (s, None) else
    match rBasic r with
    | Some (u, p) => (s, if constantTimeCredentialEqual (u +:+ ":" +:+ p)%string webAuth then None else Some MErrToken)
    | None => (s, Some MErrToken)
    end
  | mcpAuthBasic =>
    (s, match rBasic r with
        | Some (u, p) => if constantTimeCredentialEqual u (mUsername cfg) && mcpCredentialMatches p (Credential cfg) then None else Some MErrToken
        | None => Some MErrToken
        end)
  | mcpAuthBearer => let '(t, ok) := mcpBearerToken r in (s, if ok && mcpCredentialMatches t (Credential cfg) then None else Some MErrToken)
  | mcpAuthAPIKey =>
    let h := if bool_decide (APIKeyHeader cfg = ""%string) then "X-API-Key"%string else APIKeyHeader cfg in
    (s, if mcpCredentialMatches (rHeader r h) (Credential cfg) then None else Some MErrToken)
  | mcpAuthOAuthJWT => let '(t, ok) := mcpBearerToken r in (s, if ok then verifyMCPOAuthJWT (jwt t) (OAuth cfg) else Some MErrToken)
  | mcpAuthOther => (s, Some MErrToken)
  end.

(** ** The middleware *)

Inductive webAnswer :=
| ANext                                     (* the handler runs *)
| ALoginOK (token : string) | ALoginBad | ABadMethod | ABadBody | ANoRandom
| ALogoutOK | AStatus (ok : bool)
| AUnauthorized | ARedirectLogin
| AMCP (e : option mcpErr) | AMetadata.

Definition handleDashboardLogin (now : Z) (buf : option string) (r : httpReq) (expected : string) (s : webSessionStore) : webSessionStore * webAnswer :=
  if negb (bool_decide (rMethod r = "POST"%string)) then (s, ABadMethod) else
  match rLogin r with
  | None => (s, ABadBody)
  | Some (u, p) =>
    if bool_decide (expected = ""%string) || negb (constantTimeCredentialEqual (u +:+ ":" +:+ p)%string expected) then (s, ALoginBad) else
    match create now buf expected s with
    | (s, Some token) => (s, ALoginOK token)
    | (s, None) => (s, ANoRandom)
    end
  end.

Definition handleDashboardLogout (r : httpReq) (s : webSessionStore) : webSessionStore * webAnswer :=
  if negb (bool_decide (rMethod r = "POST"%string)) then (s, ABadMethod) else (revoke (dashboardSessionToken r) s, ALogoutOK).

Definition isMCPPath (p : string) : bool := bool_decide (p = "/mcp"%string) || bool_decide (p = "/mcp/"%string).
Definition isMCPMetadataPath (p : string) : bool :=
  bool_decide (p = "/.well-known/oauth-protected-resource"%string) || bool_decide (p = "/.well-known/oauth-protected-resource/mcp"%string).
Definition isLoginPage (p : string) : bool :=
  bool_decide (p = "/login"%string) || bool_decide (p = "/login.html"%string) || bool_decide (p = "/login.css"%string) || bool_decide (p = "/login.js"%string).

Record webCfg := mkWebCfg { wAuth : string; wMCP : MCPConfig }.

Definition auth (now : Z) (buf : option string) (jwt : string -> option (list claimVal)) (cfg : webCfg) (r : httpReq) (s : webSessionStore) : webSessionStore * webAnswer :=
  if isMCPMetadataPath (rPath r) then (s, AMetadata) else
  if isMCPPath (rPath r) then let '(s, e) := mcpAuthErr now (wAuth cfg) (wMCP cfg) jwt r s in (s, AMCP e) else
  if bool_decide (wAuth cfg = ""%string) then (s, ANext) else
  if bool_decide (rPath r = "/api/login"%string) then handleDashboardLogin now buf r (wAuth cfg) s else
  if bool_decide (rPath r = "/api/logout"%string) then handleDashboardLogout r s else
  if bool_decide (rPath r = "/api/auth/status"%string) then let '(s, ok) := valid now (dashboardSessionToken r) (wAuth cfg) s in (s, AStatus ok) else
  let '(s, ok) := valid now (dashboardSessionToken r) (wAuth cfg) s in
  if ok then (s, ANext) else
  if isLoginPage (rPath r) then (s, ANext) else
  if hasPrefix "/api/" (rPath r) || bool_decide (rPath r = "/metrics"%string) then (s, AUnauthorized) else (s, ARedirectLogin).

(** csrfGuard, in front of the handlers that change something. *)
Definition csrfGuard (r : httpReq) : bool := bool_decide (rHeader r "X-Requested-With" = "tlsvpn"%string).

(** ** Histories *)

(** A request at a time, with the configuration in force, and what it was answered. *)
Record webEvent := mkEvent { eNow : Z; eBuf : option string; eCfg : webCfg; eReq : httpReq }.

Definition webStep (jwt : string -> option (list claimVal)) (st : webSessionStore * list (webEvent * webAnswer)) (e : webEvent) : webSessionStore * list (webEvent * webAnswer) :=
  let '(s, a) := auth (eNow e) (eBuf e) jwt (eCfg e) (eReq e) st.1 in (s, st.2 ++ [(e, a)]).
Definition webRun (jwt : string -> option (list claimVal)) (es : list webEvent) : webSessionStore * list (webEvent * webAnswer) := fold_left (webStep jwt) es (∅, []).

Lemma basic_prefix s : hasPrefix basicTokenPrefix (basicTokenPrefix +:+ s) = true.
Proof. unfold hasPrefix, basicTokenPrefix. cbn. by destruct s. Qed.

(** A request to log in with a credential of the hash of the configured one. *)
Definition loggedIn (e : webEvent) : Prop :=
  rPath (eReq e) = "/api/login"%string /\ exists u p, rLogin (eReq e) = Some (u, p) /\ sha256s (u +:+ ":" +:+ p)%string = sha256s (wAuth (eCfg e)).

(** What one request may do to the entry of a token: leave it (a logout with the token
    does not), extend it if the request carries the token in time and under a
    credential of its hash, or put it there by a login. *)
Definition evolves (e : webEvent) (a : webAnswer) (s s' : webSessionStore) : Prop :=
  forall tok v, hasPrefix basicTokenPrefix tok = false -> tok <> ""%string -> s' !! tok = Some v ->
    (s !! tok = Some v /\ ~ (a = ALogoutOK /\ dashboardSessionToken (eReq e) = tok)) \/
    (exists v0, s !! tok = Some v0 /\ v = mkWebSession (eNow e + webSessionTTL) (authHash v0) /\ a <> ALogoutOK /\
       dashboardSessionToken (eReq e) = tok /\ eNow e <= expires v0 /\ authHash v0 = sha256s (wAuth (eCfg e))) \/
    (a = ALoginOK tok /\ v = mkWebSession (eNow e + webSessionTTL) (webAuthHash (wAuth (eCfg e))) /\ loggedIn e).

Lemma evolves_same e a s : a <> ALogoutOK -> evolves e a s s.
Proof. intros Ha tok v _ _ Hv. left. split; [done|]. by intros [? _]. Qed.

Lemma valid_evolves e a s : a <> ALogoutOK -> evolves e a s (valid (eNow e) (dashboardSessionToken (eReq e)) (wAuth (eCfg e)) s).1.
Proof.
  intros Ha tok v _ _. unfold valid. set (tok0 := dashboardSessionToken (eReq e)). destruct (_ || _); [left; split; [done|by intros [? _]]|].
  destruct (hasPrefix basicTokenPrefix tok0); [destruct (b64dec _); left; (split; [done|by intros [? _]])|].
  destruct (s !! tok0) as [v0|] eqn:E; [|left; split; [done|by intros [? _]]].
  destruct (Z.ltb_spec (expires v0) (eNow e)) as [Hx|Hx]; [|case_bool_decide as Hh]; cbn [orb negb fst].
  1, 3: intros Hv; apply lookup_delete_Some in Hv as [_ Hv]; left; split; [done|by intros [? _]].
  destruct (decide (tok = tok0)) as [->|Hn].
  - rewrite lookup_insert_eq. intros [= <-]. right. left. exists v0. done.
  - rewrite lookup_insert_ne by done. intros Hv. left. split; [done|by intros [? _]].
Qed.

Lemma login_evolves e s : rPath (eReq e) = "/api/login"%string ->
  let '(s', a) := handleDashboardLogin (eNow e) (eBuf e) (eReq e) (wAuth (eCfg e)) s in evolves e a s s' /\ a <> ANext.
Proof.
  intros Hp. unfold handleDashboardLogin. destruct (negb _); [split; [by apply evolves_same|done]|]. destruct (rLogin (eReq e)) as [[u p]|] eqn:El; [|split; [by apply evolves_same|done]].
  destruct (bool_decide _ || _) eqn:Eb; [split; [by apply evolves_same|done]|]. apply orb_false_elim in Eb as [_ Eb]. apply negb_false_iff, bool_decide_eq_true in Eb.
  unfold create. destruct (eBuf e) as [buf|]; [|split; [by apply evolves_same|done]].
  split; [|done]. intros tok v _ _. destruct (decide (tok = b64enc buf)) as [->|Hn].
  - rewrite lookup_insert_eq. intros [= <-]. right. right. split_and!; [done|done|]. split; [done|]. by exists u, p.
  - rewrite lookup_insert_ne by done. intros Hv. apply map_lookup_filter_Some in Hv as [Hv _]. left. split; [done|by intros [? _]].
Qed.

Lemma logout_evolves e s : let '(s', a) := handleDashboardLogout (eReq e) s in evolves e a s s' /\ a <> ANext.
Proof.
  unfold handleDashboardLogout. destruct (negb _); [split; [by apply evolves_same|done]|]. split; [|done]. intros tok v Hp Hne. unfold revoke.
  destruct (bool_decide (dashboardSessionToken (eReq e) = ""%string) || hasPrefix basicTokenPrefix (dashboardSessionToken (eReq e))) eqn:Eb.
  - intros Hv. left. split; [done|]. intros [_ Et]. rewrite Et, Hp, orb_false_r in Eb. by apply bool_decide_eq_true in Eb.
  - intros Hv. apply lookup_delete_Some in Hv as [Hn Hv]. left. split; [done|]. intros [_ Et]. congruence.
Qed.

Lemma mcp_evolves e a cfg jwt s : a <> ALogoutOK -> evolves e a s (mcpAuthErr (eNow e) (wAuth (eCfg e)) cfg jwt (eReq e) s).1.
Proof.
  intros Ha. unfold mcpAuthErr. destruct (modeOf _); try by apply evolves_same.
  - case_bool_decide; [by apply evolves_same|]. pose proof (valid_evolves e a s Ha) as HV.
    destruct (valid _ _ _ s) as [s' [|]]; [done|]. by destruct (rBasic (eReq e)) as [[u p]|].
  - destruct (mcpBearerToken (eReq e)). by apply evolves_same.
  - destruct (mcpBearerToken (eReq e)). by apply evolves_same.
Qed.

Lemma auth_evolves jwt e s : let '(s', a) := auth (eNow e) (eBuf e) jwt (eCfg e) (eReq e) s in evolves e a s s'.
Proof.
  unfold auth. destruct (isMCPMetadataPath _); [by apply evolves_same|]. destruct (isMCPPath _).
  { pose proof (fun x => mcp_evolves e (AMCP x) (wMCP (eCfg e)) jwt s) as HM. destruct (mcpAuthErr _ _ _ _ _ s) as [s' x]. by apply HM. }
  case_bool_decide; [by apply evolves_same|]. case_bool_decide.
  { pose proof (login_evolves e s ltac:(done)) as HL. destruct (handleDashboardLogin _ _ _ _ s). apply HL. }
  case_bool_decide. { pose proof (logout_evolves e s) as HL. destruct (handleDashboardLogout _ s). apply HL. }
  pose proof (fun x Hx => valid_evolves e x s Hx) as HV.
  destruct (valid _ _ _ s) as [s' ok]. cbn [fst] in HV. case_bool_decide; [by apply HV|]. destruct ok; [by apply HV|]. destruct (isLoginPage _); [by apply HV|].
  destruct (_ || _); by apply HV.
Qed.

(** The story of a session of the token [tok] and the credential hash [h] in the log, and
    until when it is good: a login with a credential of that hash opened it; a request
    that carries the token, at a time when the session is still good and under a
    configured credential of that hash, keeps it good for another 24 hours; a logout
    with the token ends it; nothing else touches it. *)
Inductive sessionLog (tok : string) (h : bytes) : list (webEvent * webAnswer) -> Z -> Prop :=
| SL_login log e : loggedIn e -> h = sha256s (wAuth (eCfg e)) -> sessionLog tok h (log ++ [(e, ALoginOK tok)]) (eNow e + webSessionTTL)
| SL_use log e a until : sessionLog tok h log until -> a <> ALogoutOK ->
    dashboardSessionToken (eReq e) = tok -> eNow e <= until -> h = sha256s (wAuth (eCfg e)) ->
    sessionLog tok h (log ++ [(e, a)]) (eNow e + webSessionTTL)
| SL_other log e a until : sessionLog tok h log until -> ~ (a = ALogoutOK /\ dashboardSessionToken (eReq e) = tok) ->
    sessionLog tok h (log ++ [(e, a)]) until.

Definition store_ok (st : webSessionStore * list (webEvent * webAnswer)) : Prop :=
  forall tok v, hasPrefix basicTokenPrefix tok = false -> tok <> ""%string -> st.1 !! tok = Some v -> sessionLog tok (authHash v) st.2 (expires v).

Lemma store_step jwt st e : store_ok st -> store_ok (webStep jwt st e).
Proof.
  destruct st as [s log]. intros HS. unfold store_ok in HS. cbn [fst snd] in HS. unfold webStep. cbn [fst snd]. pose proof (auth_evolves jwt e s) as HE.
  destruct (auth _ _ jwt _ _ s) as [s' a]. intros tok v Hp Hne Hv. cbn [fst snd] in *.
  destruct (HE tok v Hp Hne Hv) as [[Hs Hn]|[(v0 & Hs & -> & Hn & Ht & Hx & Hh)|(-> & -> & Hl)]].
  - apply SL_other; auto.
  - cbn [authHash expires]. apply SL_use with (expires v0); auto.
  - by apply SL_login.
Qed.

Lemma store_run jwt es : store_ok (webRun jwt es).
Proof.
  unfold webRun. assert (store_ok (∅, [])) as H0 by (intros tok v _ _ Hv; cbn [fst] in Hv; by rewrite lookup_empty in Hv). revert H0. generalize ((∅ : webSessionStore), @nil (webEvent * webAnswer)).
  induction es as [|e es IH]; intros st Hst; [done|]. by apply IH, store_step.
Qed.

End Web.

(** C31: Who gets to the dashboard.  With a credential configured, and apart from the
    login page and the MCP paths, which have rules of their own, a request reaches its
    handler only if it presents that credential itself (as a basic credential whose
    hash is that of the configured one), or the cookie of a session that a login with a
    credential of the same hash opened, that has not been logged out since, and that
    its own cookie kept alive: every use came under a credential of that hash and at
    most 24 hours after the use before it, and so does this request.  So a change of the
    credential ends every session opened under another one, and requests of others do
    not prolong a session. *)
Theorem dashboard_access `{WebCrypto} (jwt : string -> option (list claimVal)) (es : list webEvent) (e : webEvent) :
  let '(s, log) := webRun jwt es in
  wAuth (eCfg e) <> ""%string -> isLoginPage (rPath (eReq e)) = false ->
  (auth (eNow e) (eBuf e) jwt (eCfg e) (eReq e) s).2 = ANext ->
  let tok := dashboardSessionToken (eReq e) in
  (exists cred, sha256s cred = sha256s (wAuth (eCfg e)) /\ hasPrefix basicTokenPrefix tok = true /\ b64dec (trimPrefix basicTokenPrefix tok) = Some cred) \/
  (rCookie (eReq e) = Some tok /\ exists until, sessionLog tok (sha256s (wAuth (eCfg e))) log until /\ eNow e <= until).
Proof.
  pose proof (store_run jwt es) as HS. destruct (webRun jwt es) as [s log]. intros Hne Hlp Hnext tok. unfold auth in Hnext.
  destruct (isMCPMetadataPath _); [done|]. destruct (isMCPPath _); [by destruct (mcpAuthErr _ _ _ _ _ s)|]. rewrite bool_decide_false in Hnext by done.
  case_bool_decide as Hpath; [pose proof (login_evolves e s Hpath) as HL; destruct (handleDashboardLogin _ _ _ _ s); by destruct HL|].
  case_bool_decide; [pose proof (logout_evolves e s) as HL; destruct (handleDashboardLogout _ s); by destruct HL|]. rewrite Hlp in Hnext. fold tok in Hnext.
  destruct (valid (eNow e) tok (wAuth (eCfg e)) s) as [s' ok] eqn:EV. case_bool_decide; [done|]. destruct ok; [|destruct (_ || _); done]. clear Hnext. unfold valid in EV.
  destruct (bool_decide (tok = ""%string)) eqn:Et; [done|]. apply bool_decide_eq_false in Et. rewrite bool_decide_false in EV by done. cbn [orb] in EV.
  destruct (hasPrefix basicTokenPrefix tok) eqn:Ep.
  - left. destruct (b64dec (trimPrefix basicTokenPrefix tok)) as [c|] eqn:Ed; [|done]. exists c. injection EV as _ EV. unfold constantTimeCredentialEqual in EV. by apply bool_decide_eq_true in EV.
  - right. destruct (s !! tok) as [v|] eqn:Es; [|done]. destruct (Z.ltb_spec (expires v) (eNow e)); [done|]. cbn [orb] in EV.
    case_bool_decide as Eh; [|done]. split.
    + unfold tok, dashboardSessionToken in *. destruct (rCookie (eReq e)) as [c|]; [case_bool_decide; [|done]|]; destruct (rBasic (eReq e)) as [[u p]|]; try done; cbn in Ep; by rewrite basic_prefix in Ep.
    + exists (expires v). split; [|lia]. change (sha256s (wAuth (eCfg e))) with (webAuthHash (wAuth (eCfg e))). rewrite <- Eh. by apply (HS tok v Ep Et).
Qed.

(** ** Stored credentials *)

Section Credentials.
Context `{WebCrypto}.

(** A digest of SHA-256 has 32 bytes. *)
Hypothesis sha_length : forall s, length (sha256s s) = 32%nat.
Hypothesis sha_bytes : forall s, Forall is_u8 (sha256s s).

Lemma hexVal_digit n : 0 <= n < 16 -> hexVal (hexDigit n) = Some n.
Proof.
  intros Hn. assert (n ∈ seqZ 0 16) as Hin by (apply elem_of_seqZ; lia). revert Hin. clear.
  assert (Forall (fun n => hexVal (hexDigit n) = Some n) (seqZ 0 16)) as HF by (apply (bool_decide_unpack _); vm_compute; exact I). rewrite Forall_forall in HF. apply HF.
Qed.

Lemma hex_roundtrip b : Forall is_u8 b -> hexDecode (hexEncode b) = Some b /\ String.length (hexEncode b) = (2 * length b)%nat.
Proof.
  induction 1 as [|x b Hx _ [IH1 IH2]]; [done|]. cbn [hexEncode hexDecode String.length]. rewrite IH2. split; [|cbn; lia].
  rewrite !hexVal_digit by (split; [apply Z.div_pos || apply Z.mod_pos_bound|apply Z.div_lt_upper_bound || apply Z.mod_pos_bound]; widths; lia). rewrite IH1. do 2 f_equal. rewrite (Z.div_mod x 16) at 3 by lia. lia.
Qed.

Lemma rev_app_rev a b c : String.rev_app (String.rev_app a b) c = String.rev_app b (a +:+ c).
Proof. revert b. induction a as [|x a IH]; intros b; [done|]. cbn [String.rev_app]. rewrite IH. done. Qed.
Lemma append_nil s : (s +:+ "")%string = s.
Proof. induction s as [|c s IH]; [done|]. change (String c (s +:+ "") = String c s). by rewrite IH. Qed.
Lemma rev_rev s : String.rev (String.rev s) = s.
Proof. unfold String.rev. rewrite rev_app_rev. apply append_nil. Qed.
Lemma all_rev f a b : allChars f (String.rev_app a b) = allChars f a && allChars f b.
Proof. revert b. induction a as [|x a IH]; intros b; [done|]. cbn. rewrite IH. cbn. by rewrite <- andb_assoc, (andb_comm (f x)), andb_assoc, andb_comm, andb_assoc. Qed.

Definition noSpace (c : Ascii.ascii) : bool := negb (isSpace c).
Lemma trimLeft_none s : allChars noSpace s = true -> trimLeft isSpace s = s.
Proof. destruct s as [|c s]; [done|]. cbn. unfold noSpace at 1. by destruct (isSpace c). Qed.
Lemma trimSpace_none s : allChars noSpace s = true -> trimSpace s = s.
Proof.
  intros Hs. unfold trimSpace, trimRight. rewrite (trimLeft_none s Hs), trimLeft_none; [apply rev_rev|]. unfold String.rev. rewrite all_rev, Hs. done.
Qed.

Definition plainHex (c : Ascii.ascii) : bool := noSpace c && bool_decide (lowerAscii c = c).
Lemma hexDigit_plain n : 0 <= n < 16 -> plainHex (hexDigit n) = true.
Proof.
  intros Hn. assert (n ∈ seqZ 0 16) as Hin by (apply elem_of_seqZ; lia). revert Hin. clear.
  assert (Forall (fun n => plainHex (hexDigit n) = true) (seqZ 0 16)) as HF by (apply (bool_decide_unpack _); vm_compute; exact I). rewrite Forall_forall in HF. apply HF.
Qed.
Lemma nibbles x : is_u8 x -> 0 <= x / 16 < 16 /\ 0 <= x mod 16 < 16.
Proof. intros Hx. split; [|apply Z.mod_pos_bound; lia]. split; [apply Z.div_pos|apply Z.div_lt_upper_bound]; widths; lia. Qed.

Lemma hex_plain b : Forall is_u8 b -> allChars noSpace (hexEncode b) = true /\ toLower (hexEncode b) = hexEncode b.
Proof.
  induction 1 as [|x b Hx _ [IH1 IH2]]; [done|]. destruct (nibbles x Hx) as [N1 N2]. cbn [hexEncode allChars toLower].
  pose proof (hexDigit_plain _ N1) as P1. pose proof (hexDigit_plain _ N2) as P2. unfold plainHex in P1, P2. apply andb_true_iff in P1 as [P1 Q1], P2 as [P2 Q2].
  apply bool_decide_eq_true in Q1, Q2. by rewrite P1, P2, IH1, IH2, Q1, Q2.
Qed.

Lemma lower_append a b : toLower (a +:+ b) = (toLower a +:+ toLower b)%string.
Proof. induction a as [|c a IH]; [done|]. change (String (lowerAscii c) (toLower (a +:+ b)) = String (lowerAscii c) (toLower a +:+ toLower b)). by rewrite IH. Qed.

Lemma substring_all s : String.substring 0 (String.length s) s = s.
Proof. induction s as [|c s IH]; [done|]. cbn. by rewrite IH. Qed.

Lemma substring_app p s : String.substring (String.length p) (String.length (p +:+ s) - String.length p) (p +:+ s) = s.
Proof.
  induction p as [|c p IH]; [cbn; rewrite Nat.sub_0_r; apply substring_all|].
  change (String.substring (String.length p) (String.length (p +:+ s) - String.length p) (p +:+ s) = s). exact IH.
Qed.

Lemma stored_parts s : hasPrefix mcpCredentialHashPrefix (mcpCredentialHashPrefix +:+ s) = true /\
  String.substring 7 (String.length (mcpCredentialHashPrefix +:+ s) - 7) (mcpCredentialHashPrefix +:+ s) = s /\
  trimPrefix mcpCredentialHashPrefix (mcpCredentialHashPrefix +:+ s) = s.
Proof.
  assert (hasPrefix mcpCredentialHashPrefix (mcpCredentialHashPrefix +:+ s) = true) as HP by (unfold hasPrefix, mcpCredentialHashPrefix; cbn; by destruct s).
  assert (String.substring 7 (String.length (mcpCredentialHashPrefix +:+ s) - 7) (mcpCredentialHashPrefix +:+ s) = s) as HS.
  { exact (substring_app mcpCredentialHashPrefix s). }
  split_and!; [done|done|]. unfold trimPrefix. rewrite HP. exact HS.
Qed.

(** A credential that is not itself written as a digest. *)
Definition plainCredential (p : string) : Prop := p <> ""%string /\ hasPrefix mcpCredentialHashPrefix (toLower p) = false.

(** Storing a credential.  A plain credential is stored as its digest, once: applying
    the defaults again, on every load and save, changes nothing; the stored form passes
    the validation; and it is matched, before and after it is stored, by exactly the
    credentials with the same digest. *)
Theorem mcp_credential_stored (p got : string) : plainCredential p ->
  let stored := normalizeMCPStaticCredential p in
  normalizeMCPStaticCredential stored = stored /\ validMCPStaticCredentialHash stored = true /\
  mcpCredentialMatches got stored = bool_decide (sha256s got = sha256s p) /\ mcpCredentialMatches got p = bool_decide (sha256s got = sha256s p).
Proof.
  intros [Hne Hpl] stored. assert (stored = (mcpCredentialHashPrefix +:+ hexEncode (sha256s p))%string) as E.
  { unfold stored, normalizeMCPStaticCredential. rewrite bool_decide_false by done. by rewrite Hpl. }
  destruct (stored_parts (hexEncode (sha256s p))) as (S1 & S2 & S3). rewrite <- E in S1, S2, S3. destruct (hex_roundtrip _ (sha_bytes p)) as [R1 R2]. destruct (hex_plain _ (sha_bytes p)) as [Q1 Q2].
  assert (normalizeMCPStaticCredential stored = stored) as HN.
  { unfold normalizeMCPStaticCredential. rewrite bool_decide_false by (rewrite E; done).
    assert (toLower stored = stored) as -> by (rewrite E, lower_append, Q2; done). by rewrite S1, S2, trimSpace_none, Q2, E by done. }
  assert (validMCPStaticCredentialHash stored = true) as HV.
  { unfold validMCPStaticCredentialHash. rewrite S1, S3, R2, sha_length, R1. done. }
  assert (forall x, normalizeMCPStaticCredential x = stored -> mcpCredentialMatches got x = bool_decide (sha256s got = sha256s p)) as HM.
  { intros x Hx. unfold mcpCredentialMatches. rewrite Hx, HV. cbn [negb]. rewrite S3, R1, sha_length. done. }
  split_and!; auto.
Qed.

End Credentials.

(** *** An instance for the examples: the texts themselves as digests *)

#[export] Instance demoCrypto : WebCrypto := {
  sha256s s := take 32 (str_bytes s ++ replicate 32 0);
  b64enc s := s;
  b64dec s := Some s;
  b64_roundtrip s := eq_refl
}.

Lemma demo_sha_length s : length (sha256s s) = 32%nat.
Proof. cbn [sha256s demoCrypto]. rewrite length_take, length_app, length_replicate. lia. Qed.
Lemma demo_sha_bytes s : Forall is_u8 (sha256s s).
Proof.
  cbn [sha256s demoCrypto]. apply Forall_take, Forall_app. split; [|apply Forall_replicate; widths; lia].
  unfold str_bytes. apply Forall_fmap, Forall_forall. intros c _. cbn. pose proof (Ascii.N_ascii_bounded c). widths. lia.
Qed.

Definition demoHeader (_ : string) : string := "".
Definition demoWeb : webCfg := mkWebCfg "admin:pw" (mkMCP "" "" "" "" (mkOAuth "" "" "" "" [] [])).
Definition demoLogin (now : Z) : webEvent := mkEvent now (Some "tok"%string) demoWeb (mkReq "/api/login" "POST" None None (Some ("admin"%string, "pw"%string)) demoHeader).
Definition demoGet (now : Z) (cfg : webCfg) : webEvent := mkEvent now None cfg (mkReq "/api/stats" "GET" (Some "tok"%string) None None demoHeader).

Lemma dashboard_access_witness :
  let '(s, log) := webRun (fun _ => None) [demoLogin 0; demoGet 5 demoWeb] in
  (auth 9 None (fun _ => None) demoWeb (eReq (demoGet 9 demoWeb)) s).2 = ANext /\ exists until, sessionLog "tok" (sha256s "admin:pw") log until /\ 9 <= until.
Proof.
  pose proof (dashboard_access (fun _ => None) [demoLogin 0; demoGet 5 demoWeb] (demoGet 9 demoWeb)) as HA.
  assert (match webRun (fun _ => None) [demoLogin 0; demoGet 5 demoWeb] with (s, _) => (auth 9 None (fun _ => None) demoWeb (eReq (demoGet 9 demoWeb)) s).2 = ANext end) as HN by (vm_compute; reflexivity).
  destruct (webRun _ _) as [s log]. split; [exact HN|]. destruct HA as [(c & _ & Hp & _)|(_ & HA)]; [done|by vm_compute|exact HN|done|exact HA].
Defined.

(** The session ends with the credential, with the logout, and after 24 hours. *)
Example dashboard_denials :
  (fun es => (fun x => x.2) <$> (webRun (fun _ => None) es).2) <$>
    [[demoLogin 0; demoGet 5 (mkWebCfg "admin:new" (wMCP demoWeb))];
     [demoLogin 0; mkEvent 3 None demoWeb (mkReq "/api/logout" "POST" (Some "tok"%string) None None demoHeader); demoGet 5 demoWeb];
     [demoLogin 0; demoGet (webSessionTTL + 1) demoWeb]]
  = [[ALoginOK "tok"; AUnauthorized]; [ALoginOK "tok"; ALogoutOK; AUnauthorized]; [ALoginOK "tok"; AUnauthorized]].
Proof. vm_compute. reflexivity. Qed.

Lemma mcp_credential_stored_witness : plainCredential "secret" /\ mcpCredentialMatches "secret" (normalizeMCPStaticCredential "secret") = true.
Proof.
  assert (plainCredential "secret") as HP by (split; by vm_compute). split; [exact HP|].
  destruct (mcp_credential_stored) with (p := "secret"%string) (got := "secret"%string) as (_ & _ & H & _).
  - exact demo_sha_length.
  - exact demo_sha_bytes.
  - exact HP.
  - rewrite H. by vm_compute.
Defined.
