(* ===== verification/Config.v ===== *)
(** * Configuration (config.go, route_spec.go, mcp_auth.go, api.go)

    The configuration file and what the program makes of it: the JSON tags of the
    structures as an encoder and a strict decoder over JSON trees, the defaults, the
    validation with all its refusals, the route specifications, and the save operation
    of the dashboard.  The text of a JSON value, addresses, log levels and URLs are
    parsed by the Go library: a class of parameters. *)

From stdpp Require Import base tactics list numbers gmap strings sorting.
From S2P Require Import Prelude Aead FecControl Ident Brutal Traffic Web.
#[local] Open Scope Z_scope.

(** ** JSON trees *)

(** Objects by their keys, as the decoder of encoding/json hands them to the fields;
    the numbers of a configuration are integers. *)
#[local] Unset Elimination Schemes.
Inductive json := JNull | JBool (b : bool) | JNum (n : Z) | JStr (s : string) | JArr (l : list json) | JObj (o : list (string * json)).
#[local] Set Elimination Schemes.
Notation jobj := (list (string * json)).

Fixpoint jfind {A} (k : string) (o : list (string * A)) : option A :=
  match o with [] => None | (k', v) :: o => if bool_decide (k = k') then Some v else jfind k o end.

(** A field: absent and null leave the zero value, another type is an error. *)
Definition getStr (k : string) (o : jobj) : option string :=
  match jfind k o with None | Some JNull => Some ""%string | Some (JStr s) => Some s | _ => None end.
Definition getBool (k : string) (o : jobj) : option bool :=
  match jfind k o with None | Some JNull => Some false | Some (JBool b) => Some b | _ => None end.
Definition getInt (k : string) (o : jobj) : option Z :=
  match jfind k o with None | Some JNull => Some 0 | Some (JNum n) => if bool_decide (- 2 ^ 63 <= n < 2 ^ 63) then Some n else None | _ => None end.
Definition getUint (k : string) (o : jobj) : option Z :=
  match jfind k o with None | Some JNull => Some 0 | Some (JNum n) => if bool_decide (0 <= n < 2 ^ 64) then Some n else None | _ => None end.
Definition getList {A} (f : json -> option A) (k : string) (o : jobj) : option (list A) :=
  match jfind k o with None | Some JNull => Some [] | Some (JArr l) => mapM f l | _ => None end.
Definition getObj {A} (f : jobj -> option A) (k : string) (o : jobj) : option A :=
  match jfind k o with None | Some JNull => f [] | Some (JObj o') => f o' | _ => None end.
Definition elemStr (j : json) : option string := match j with JStr s => Some s | JNull => Some ""%string | _ => None end.

(** DisallowUnknownFields. *)
Definition known (ks : list string) (o : jobj) : bool := forallb (fun kv => bool_decide (kv.1 ∈ ks)) o.

(** What the encoder writes for a field; omitempty leaves the zero value out. *)
Definition omitStr (s : string) : option json := if bool_decide (s = ""%string) then None else Some (JStr s).
Definition omitBool (b : bool) : option json := if b then Some (JBool true) else None.
Definition omitNum (n : Z) : option json := if n =? 0 then None else Some (JNum n).
Definition omitList {A} (f : A -> json) (l : list A) : option json := match l with [] => None | _ => Some (JArr (f <$> l)) end.
Definition fieldsObj (fs : list (string * option json)) : jobj := omap (fun f => (fun v => (f.1, v)) <$> f.2) fs.

(** ** The structures and their tags *)

Record SourceRule := mkRule { From : string; Table : Z; Priority : Z; Routes : list string }.
Record WebConfig := mkWeb { webAddr : string; webAuth : string; webCert : string; webKey : string; webBind : string; webMCP : MCPConfig }.
Record ServerConfig := mkServerCfg { V4CIDR : string; V6CIDR : string; srvCert : string; srvKey : string; MaxSessions : Z; FecGroupMin : Z; FecGroupMax : Z }.
Record ClientConfig := mkClientCfg {
  InterfaceManager : string; ReqV4 : string; ReqV6 : string; SNI : string; Insecure : bool; CertSHA256 : string;
  Fwmark : Z; FwmarkPriority : Z; ExtraRoutes : list string; SourceRules : list SourceRule; Conns : Z; FEC : bool; FecGroup : Z
}.
Record Config := mkConfig {
  Mode : string; PSK : string; Tap : string; Mac : string; Addr : string; LogLevel : string; Up : string; Down : string;
  Encrypt : bool; EncAlgo : string; MinEnc : string; PadMode : string; Socks5 : string;
  Brutal : bool; BrutalUp : Z; BrutalDown : Z; TrafficDays : Z; TrafficFile : string;
  Web : WebConfig; Server : ServerConfig; Client : ClientConfig;
  SourcePath : string; EncryptPresent : bool
}.

Definition ruleFields (r : SourceRule) : list (string * option json) :=
  [("from", Some (JStr (From r))); ("table", Some (JNum (Table r))); ("priority", omitNum (Priority r)); ("routes", omitList JStr (Routes r))]%string.
Definition ruleKeys : list string := ["from"; "table"; "priority"; "routes"]%string.
Definition decodeRule (o : jobj) : option SourceRule :=
  if negb (known ruleKeys o) then None else
  f ← getStr "from" o; t ← getInt "table" o; p ← getInt "priority" o; r ← getList elemStr "routes" o; Some (mkRule f t p r).
Definition ruleJSON (r : SourceRule) : json := JObj (fieldsObj (ruleFields r)).
Definition elemRule (j : json) : option SourceRule := match j with JObj o => decodeRule o | JNull => decodeRule [] | _ => None end.

Definition oauthFields (c : MCPOAuthJWTConfig) : list (string * option json) :=
  [("jwks_url", omitStr (JWKSURL c)); ("issuer", omitStr (Issuer c)); ("audience", omitStr (Audience c)); ("resource", omitStr (Resource c));
   ("authorization_servers", omitList JStr (AuthorizationServers c)); ("required_scopes", omitList JStr (RequiredScopes c))]%string.
Definition oauthKeys : list string := ["jwks_url"; "issuer"; "audience"; "resource"; "authorization_servers"; "required_scopes"]%string.
Definition decodeOAuth (o : jobj) : option MCPOAuthJWTConfig :=
  if negb (known oauthKeys o) then None else
  a ← getStr "jwks_url" o; b ← getStr "issuer" o; c ← getStr "audience" o; d ← getStr "resource" o;
  e ← getList elemStr "authorization_servers" o; f ← getList elemStr "required_scopes" o; Some (mkOAuth a b c d e f).

Definition mcpFields (c : MCPConfig) : list (string * option json) :=
  [("auth_mode", omitStr (AuthMode c)); ("username", omitStr (mUsername c)); ("credential", omitStr (Credential c));
   ("api_key_header", omitStr (APIKeyHeader c)); ("oauth", Some (JObj (fieldsObj (oauthFields (OAuth c)))))]%string.
Definition mcpKeys : list string := ["auth_mode"; "username"; "credential"; "api_key_header"; "oauth"]%string.
Definition decodeMCP (o : jobj) : option MCPConfig :=
  if negb (known mcpKeys o) then None else
  a ← getStr "auth_mode" o; b ← getStr "username" o; c ← getStr "credential" o; d ← getStr "api_key_header" o; e ← getObj decodeOAuth "oauth" o; Some (mkMCP a b c d e).

Definition webFields (c : WebConfig) : list (string * option json) :=
  [("addr", omitStr (webAddr c)); ("auth", omitStr (webAuth c)); ("cert", omitStr (webCert c)); ("key", omitStr (webKey c));
   ("bind", omitStr (webBind c)); ("mcp", Some (JObj (fieldsObj (mcpFields (webMCP c)))))]%string.
Definition webKeys : list string := ["addr"; "auth"; "cert"; "key"; "bind"; "mcp"]%string.
Definition decodeWeb (o : jobj) : option WebConfig :=
  if negb (known webKeys o) then None else
  a ← getStr "addr" o; b ← getStr "auth" o; c ← getStr "cert" o; d ← getStr "key" o; e ← getStr "bind" o; f ← getObj decodeMCP "mcp" o; Some (mkWeb a b c d e f).

Definition serverFields (c : ServerConfig) : list (string * option json) :=
  [("v4_cidr", omitStr (V4CIDR c)); ("v6_cidr", omitStr (V6CIDR c)); ("cert", omitStr (srvCert c)); ("key", omitStr (srvKey c));
   ("max_sessions", omitNum (MaxSessions c)); ("fec_group_min", omitNum (FecGroupMin c)); ("fec_group_max", omitNum (FecGroupMax c))]%string.
Definition serverKeys : list string := ["v4_cidr"; "v6_cidr"; "cert"; "key"; "max_sessions"; "fec_group_min"; "fec_group_max"]%string.
Definition decodeServer (o : jobj) : option ServerConfig :=
  if negb (known serverKeys o) then None else
  a ← getStr "v4_cidr" o; b ← getStr "v6_cidr" o; c ← getStr "cert" o; d ← getStr "key" o; e ← getInt "max_sessions" o;
  f ← getInt "fec_group_min" o; g ← getInt "fec_group_max" o; Some (mkServerCfg a b c d e f g).

Definition clientFields (c : ClientConfig) : list (string * option json) :=
  [("interface_manager", omitStr (InterfaceManager c)); ("req_v4", omitStr (ReqV4 c)); ("req_v6", omitStr (ReqV6 c)); ("sni", omitStr (SNI c));
   ("insecure", omitBool (Insecure c)); ("cert_sha256", omitStr (CertSHA256 c)); ("fwmark", omitNum (Fwmark c)); ("fwmark_priority", omitNum (FwmarkPriority c));
   ("extra_routes", omitList JStr (ExtraRoutes c)); ("source_rules", omitList ruleJSON (SourceRules c)); ("conns", omitNum (Conns c));
   ("fec", omitBool (FEC c)); ("fec_group", omitNum (FecGroup c))]%string.
Definition clientKeys : list string :=
  ["interface_manager"; "req_v4"; "req_v6"; "sni"; "insecure"; "cert_sha256"; "fwmark"; "fwmark_priority"; "extra_routes"; "source_rules"; "conns"; "fec"; "fec_group"]%string.
Definition decodeClient (o : jobj) : option ClientConfig :=
  if negb (known clientKeys o) then None else
  a ← getStr "interface_manager" o; b ← getStr "req_v4" o; c ← getStr "req_v6" o; d ← getStr "sni" o; e ← getBool "insecure" o; f ← getStr "cert_sha256" o;
  g ← getInt "fwmark" o; h ← getInt "fwmark_priority" o; i ← getList elemStr "extra_routes" o; j ← getList elemRule "source_rules" o; k ← getInt "conns" o;
  l ← getBool "fec" o; m ← getInt "fec_group" o; Some (mkClientCfg a b c d e f g h i j k l m).

(** mode, psk, addr and encrypt are always written. *)
Definition configFields (c : Config) : list (string * option json) :=
  [("mode", Some (JStr (Mode c))); ("psk", Some (JStr (PSK c))); ("tap", omitStr (Tap c)); ("mac", omitStr (Mac c)); ("addr", Some (JStr (Addr c)));
   ("log_level", omitStr (LogLevel c)); ("up", omitStr (Up c)); ("down", omitStr (Down c)); ("encrypt", Some (JBool (Encrypt c)));
   ("enc_algo", omitStr (EncAlgo c)); ("min_enc", omitStr (MinEnc c)); ("pad_mode", omitStr (PadMode c)); ("socks5", omitStr (Socks5 c));
   ("brutal", omitBool (Brutal c)); ("brutal_up", omitNum (BrutalUp c)); ("brutal_down", omitNum (BrutalDown c));
   ("traffic_days", omitNum (TrafficDays c)); ("traffic_file", omitStr (TrafficFile c));
   ("web", Some (JObj (fieldsObj (webFields (Web c))))); ("server", Some (JObj (fieldsObj (serverFields (Server c))))); ("client", Some (JObj (fieldsObj (clientFields (Client c)))))]%string.
Definition configKeys : list string :=
  ["mode"; "psk"; "tap"; "mac"; "addr"; "log_level"; "up"; "down"; "encrypt"; "enc_algo"; "min_enc"; "pad_mode"; "socks5"; "brutal"; "brutal_up"; "brutal_down";
   "traffic_days"; "traffic_file"; "web"; "server"; "client"]%string.
Definition decodeConfig (o : jobj) : option Config :=
  if negb (known configKeys o) then None else
  a ← getStr "mode" o; b ← getStr "psk" o; c ← getStr "tap" o; d ← getStr "mac" o; e ← getStr "addr" o; f ← getStr "log_level" o; g ← getStr "up" o; h ← getStr "down" o;
  i ← getBool "encrypt" o; j ← getStr "enc_algo" o; k ← getStr "min_enc" o; l ← getStr "pad_mode" o; m ← getStr "socks5" o; n ← getBool "brutal" o;
  q ← getUint "brutal_up" o; r ← getUint "brutal_down" o; s ← getInt "traffic_days" o; t ← getStr "traffic_file" o;
  u ← getObj decodeWeb "web" o; v ← getObj decodeServer "server" o; w ← getObj decodeClient "client" o;
  Some (mkConfig a b c d e f g h i j k l m n q r s t u v w "" false).

(** A JSON value in place of the structure. *)
Definition decodeValue (j : json) : option Config := match j with JObj o => decodeConfig o | JNull => decodeConfig [] | _ => None end.
Definition encodeConfig (c : Config) : json := JObj (fieldsObj (configFields c)).

(** ** What the Go library parses *)

Record ipAddr := mkIP { ipText : string; ip4 : bool; ipLoop : bool }.
Record urlParts := mkURL { uScheme : string; uHost : string; uHostname : string; uUser : bool; uFragment : string }.

Definition hostBits (ip : ipAddr) : string := if ip4 ip then "32" else "128".

(** net, net/url, zap's level names, and JSON texts: [parseText] gives the first value of
    a text and whether something follows it.  Strings are valid UTF-8, as those of a decoded
    configuration are; the encoder of Go would replace others. *)
Class GoLib := {
  ParseCIDR : string -> bool;
  ParseIP : string -> option ipAddr;
  SplitHostPort : string -> option (string * string);
  parseURL : string -> option urlParts;
  levelOk : string -> bool;
  text : Type;
  parseText : text -> option (json * bool);
  render : json -> text;
  cidr_host : forall s ip, ParseIP s = Some ip -> ParseCIDR (ipText ip +:+ "/" +:+ hostBits ip) = true;
  cidr_plain : forall s, ParseCIDR s = true -> trimSpace s = s;
  text_roundtrip : forall j, parseText (render j) = Some (j, false)
}.

(** ** Helpers of package strings and net/http *)

Definition hasChar (n : nat) (s : string) : bool := negb (allChars (fun c => negb (Ascii.nat_of_ascii c =? n)%nat) s).
Definition inSet (set : list nat) (c : Ascii.ascii) : bool := existsb (Nat.eqb (Ascii.nat_of_ascii c)) set.
Definition trimSet (set : list nat) (s : string) : string := trimRight (inSet set) (trimLeft (inSet set) s).
Fixpoint dropChar (n : nat) (s : string) : string :=
  match s with EmptyString => EmptyString | String c s => if (Ascii.nat_of_ascii c =? n)%nat then dropChar n s else String c (dropChar n s) end.
Definition trimSlash : string -> string := trimRight (inSet [47%nat]).

(** http.CanonicalHeaderKey. *)
Definition upperAscii (c : Ascii.ascii) : Ascii.ascii :=
  let n := Ascii.nat_of_ascii c in if (97 <=? n)%nat && (n <=? 122)%nat then Ascii.ascii_of_nat (n - 32) else c.
Fixpoint canonKey (up : bool) (s : string) : string :=
  match s with EmptyString => EmptyString | String c s => String (if up then upperAscii c else lowerAscii c) (canonKey (Ascii.nat_of_ascii c =? 45)%nat s) end.
Definition CanonicalHeaderKey (s : string) : string := if allChars headerChar s then canonKey true s else s.

(** ** Defaults *)

Definition orStr (d s : string) : string := if bool_decide (s = ""%string) then d else s.
Definition orNum (d n : Z) : Z := if n =? 0 then d else n.

Section Defaults.
Context `{WebCrypto}.

Definition oauthDefaults (o : MCPOAuthJWTConfig) : MCPOAuthJWTConfig :=
  let issuer := trimSlash (trimSpace (Issuer o)) in
  let servers := (fun s => trimSlash (trimSpace s)) <$> AuthorizationServers o in
  mkOAuth (trimSpace (JWKSURL o)) issuer (trimSpace (Audience o)) (trimSpace (Resource o))
    (if (length servers =? 0)%nat && negb (bool_decide (issuer = ""%string)) then [issuer] else servers)
    (trimSpace <$> RequiredScopes o).

Definition mcpApplyDefaults (c : MCPConfig) : MCPConfig :=
  mkMCP (normalizeMCPAuthMode (AuthMode c)) (mUsername c)
    (if bool_decide (Credential c = ""%string) then Credential c else normalizeMCPStaticCredential (Credential c))
    (if bool_decide (APIKeyHeader c = ""%string) then "X-API-Key" else CanonicalHeaderKey (trimSpace (APIKeyHeader c)))
    (oauthDefaults (OAuth c)).

Definition serverDefaults (s : ServerConfig) : ServerConfig :=
  mkServerCfg (orStr "10.0.0.0/24" (V4CIDR s)) (orStr "fd00::/64" (V6CIDR s)) (srvCert s) (srvKey s)
    (orNum 1024 (MaxSessions s)) (orNum fecMinGroup (FecGroupMin s)) (orNum fecMaxGroup (FecGroupMax s)).

Definition clientDefaults (c : ClientConfig) : ClientConfig :=
  mkClientCfg (orStr "self" (InterfaceManager c)) (ReqV4 c) (ReqV6 c) (orStr "www.cloudflare.com" (SNI c)) (Insecure c) (CertSHA256 c)
    (Fwmark c) (FwmarkPriority c) (ExtraRoutes c) (SourceRules c) (orNum 1 (Conns c)) (FEC c) (orNum 4 (FecGroup c)).

Definition webDefaults (w : WebConfig) : WebConfig :=
  mkWeb (webAddr w) (webAuth w) (webCert w) (webKey w) (orStr "all" (webBind w)) (mcpApplyDefaults (webMCP w)).

Definition isServer (c : Config) : bool := bool_decide (Mode c = "server"%string).
Definition isClient (c : Config) : bool := bool_decide (Mode c = "client"%string).

Definition applyDefaults (c : Config) : Config :=
  mkConfig (Mode c) (PSK c) (orStr "tap0" (Tap c)) (Mac c) (if isServer c then orStr "0.0.0.0:4000" (Addr c) else Addr c)
    (orStr "info" (LogLevel c)) (Up c) (Down c) (Encrypt c)
    (if Encrypt c then orStr "gcm256" (EncAlgo c) else EncAlgo c) (if Encrypt c then orStr "gcm" (MinEnc c) else MinEnc c)
    (orStr "bucket" (PadMode c)) (Socks5 c) (Brutal c) (orNum 100 (BrutalUp c)) (orNum 500 (BrutalDown c))
    (if TrafficDays c <=? 0 then defaultTrafficDays else TrafficDays c) (TrafficFile c)
    (webDefaults (Web c)) (if isServer c then serverDefaults (Server c) else Server c) (if isClient c then clientDefaults (Client c) else Client c)
    (SourcePath c) (EncryptPresent c).

End Defaults.

(** ** Validation *)

Inductive cfgErr :=
| EHook (name : string) | EHookControl (name : string) | EBrutal | ETrafficDays | ETooManyConns | EModeMissing | EModeInvalid | EAddr
| EPskMissing | EPskPlaceholder | EMac | ELogLevel | EWebAuthFormat | EWebAuthPlaceholder
| EMCPUsername | EMCPCredential | EMCPHeader | EMCPHeaderReserved | EMCPMode
| EOAuthMissing (name : string) | EOAuthURL (u : string) | EScopeEmpty | EScopeInvalid | EScopeDuplicate
| EWebPair | EWebBind | EWebAuthRequired | EWebTLS | EEncAlgo | EEncAlgoPlain | EMinEnc | EPadMode | EMinEncPlain
| EMaxSessions | EFecMin | EFecMax | EFecOrder | ECIDR
| EInterfaceManager | ENetifdRouting | ENetifdHooks | EConns | EFecGroup | EFwmark | EPriority
| EExtraRoute (raw : string) | ERule (i : nat) | ERuleTable (i : nat) | ERulePriority (i : nat) | ERuleRoute (i : nat) (raw : string) | ECertSHA.

(** A check that fails with an error, in the order of the source. *)
Notation "'refuse' c 'with' e ; k" := (if (c : bool) then inl e else k) (at level 60, c at level 59, e at level 59, k at level 60, right associativity).

Definition isEmpty (s : string) : bool := bool_decide (s = ""%string).
Definition oneOf (s : string) (l : list string) : bool := bool_decide (s ∈ l).

Definition validateHookPath (name value : string) : option cfgErr :=
  if isEmpty value then None else
  if hasChar 0 value || hasChar 13 value || hasChar 10 value then Some (EHookControl name) else
  let byteAt i := match String.get i value with Some c => Ascii.nat_of_ascii c | None => 256%nat end in
  let letter n := ((65 <=? n) && (n <=? 90) || (97 <=? n) && (n <=? 122))%nat in
  let isWindowsAbs := (3 <=? String.length value)%nat && letter (byteAt 0%nat) && (byteAt 1 =? 58)%nat && ((byteAt 2 =? 92) || (byteAt 2 =? 47))%nat in
  let isUNC := (byteAt 0 =? 92)%nat && (byteAt 1 =? 92)%nat || hasPrefix "//" value in
  if negb (hasPrefix "/" value) && negb isWindowsAbs && negb isUNC then Some (EHook name) else None.

Definition ensureBasicAuthFormat (v : string) : bool := isEmpty v || hasChar 58 v.

Section Validate.
Context `{WebCrypto} `{GoLib}.

Definition webAddrIsPublic (addr : string) : bool :=
  match SplitHostPort addr with
  | None => true
  | Some (host, _) =>
    let host := trimSet [91; 93]%nat host in
    if isEmpty host then true else match ParseIP host with None => true | Some ip => negb (ipLoop ip) end
  end.

(** *** Route specifications *)

Definition normalizePrefix (raw : string) : option string :=
  if ParseCIDR raw then Some raw else
  match ParseIP raw with None => None | Some ip => Some (ipText ip +:+ "/" +:+ hostBits ip)%string end.

(** The loop over the options behind the prefix; [rest] shrinks. *)
Fixpoint routeOptions (fuel : nat) (dev : string) (rest : list string) : option string :=
  match rest, fuel with
  | [], _ => Some dev
  | _, O => None
  | o :: rest, S fuel =>
    if negb (bool_decide (o = "dev"%string)) then None else
    if negb (isEmpty dev) then None else
    match rest with [] => None | d :: rest => routeOptions fuel d rest end
  end.
Definition parseRouteSpec (raw : string) : option (string * string) :=
  match String.words raw with
  | [] => None
  | p :: rest => prefix ← normalizePrefix p; dev ← routeOptions (length rest) "" rest; Some (prefix, dev)
  end.
Definition badRoute (raw : string) : bool := match parseRouteSpec raw with None => true | Some _ => false end.

Definition validateExtraRoutes (routes : list string) : option cfgErr :=
  match filter (fun r => badRoute r = true) routes with [] => None | r :: _ => Some (EExtraRoute r) end.

Definition reservedTable (t : Z) : bool := (t <? 1) || (65535 <? t) || (t =? 253) || (t =? 254) || (t =? 255).
Definition badPriority (p : Z) : bool := (p <? 0) || negb (u32 p =? p).
Definition validateRule (i : nat) (r : SourceRule) : cfgErr + SourceRule :=
  match normalizePrefix (trimSpace (From r)) with
  | None => inl (ERule i)
  | Some prefix =>
    refuse reservedTable (Table r) with ERuleTable i;
    refuse badPriority (Priority r) with ERulePriority i;
    match filter (fun x => badRoute x = true) (Routes r) with
    | x :: _ => inl (ERuleRoute i x)
    | [] => inr (mkRule prefix (Table r) (Priority r) (Routes r))
    end
  end.
Fixpoint validateSourceRules (i : nat) (rules : list SourceRule) : cfgErr + list SourceRule :=
  match rules with
  | [] => inr []
  | r :: rest => match validateRule i r with inl e => inl e | inr r => match validateSourceRules (S i) rest with inl e => inl e | inr rest => inr (r :: rest) end end
  end.

(** *** MCP *)

Definition validateMCPHTTPSURL (raw : string) : bool :=
  match parseURL raw with
  | None => false
  | Some u =>
    if isEmpty (uHost u) || isEmpty (uScheme u) then false else
    if uUser u then false else if negb (isEmpty (uFragment u)) then false else
    if equalFold (uScheme u) "https" then true else
    if negb (equalFold (uScheme u) "http") then false else
    equalFold (uHostname u) "localhost" || match ParseIP (uHostname u) with Some ip => ipLoop ip | None => false end
  end.

Fixpoint validateScopes (seen scopes : list string) : option cfgErr :=
  match scopes with
  | [] => None
  | s :: rest =>
    let s := trimSpace s in
    if isEmpty s then Some EScopeEmpty else
    if hasChar 32 s || hasChar 9 s || hasChar 13 s || hasChar 10 s then Some EScopeInvalid else
    if oneOf s seen then Some EScopeDuplicate else validateScopes (s :: seen) rest
  end.

Definition validateOAuth (c : MCPOAuthJWTConfig) : option cfgErr :=
  if isEmpty (JWKSURL c) then Some (EOAuthMissing "jwks_url") else if isEmpty (Issuer c) then Some (EOAuthMissing "issuer") else
  if isEmpty (Audience c) then Some (EOAuthMissing "audience") else if isEmpty (Resource c) then Some (EOAuthMissing "resource") else
  let servers := if (length (AuthorizationServers c) =? 0)%nat then [Issuer c] else AuthorizationServers c in
  match filter (fun u => validateMCPHTTPSURL u = false) ([JWKSURL c; Issuer c; Resource c] ++ servers) with
  | u :: _ => Some (EOAuthURL u)
  | [] => validateScopes [] (RequiredScopes c)
  end.

Definition goodCredential (c : MCPConfig) : bool := validMCPStaticCredentialHash (normalizeMCPStaticCredential (Credential c)).
Definition reservedHeader (h : string) : bool := equalFold h "Authorization" || equalFold h "Cookie" || equalFold h "Host" || equalFold h "Content-Length".

Definition validateMCP (c : MCPConfig) : option cfgErr :=
  match modeOf (normalizeMCPAuthMode (AuthMode c)) with
  | mcpAuthInheritWeb | mcpAuthNone => None
  | mcpAuthBasic => if isEmpty (trimSpace (mUsername c)) then Some EMCPUsername else if negb (goodCredential c) then Some EMCPCredential else None
  | mcpAuthBearer => if negb (goodCredential c) then Some EMCPCredential else None
  | mcpAuthAPIKey =>
    if negb (validHTTPHeaderName (trimSpace (APIKeyHeader c))) then Some EMCPHeader else
    if reservedHeader (APIKeyHeader c) then Some EMCPHeaderReserved else
    if negb (goodCredential c) then Some EMCPCredential else None
  | mcpAuthOAuthJWT => validateOAuth (OAuth c)
  | mcpAuthOther => Some EMCPMode
  end.

(** *** The whole *)

Notation "'check' o ; k" := (match (o : option cfgErr) with Some e => inl e | None => k end) (at level 60, o at level 59, k at level 60, right associativity).

Definition validateServer (s : ServerConfig) : option cfgErr :=
  if (MaxSessions s <? 0) || (2 ^ 20 <? MaxSessions s) then Some EMaxSessions else
  if (FecGroupMin s <? fecMinGroup) || (fecMaxGroup <? FecGroupMin s) then Some EFecMin else
  if (FecGroupMax s <? fecMinGroup) || (fecMaxGroup <? FecGroupMax s) then Some EFecMax else
  if FecGroupMax s <? FecGroupMin s then Some EFecOrder else
  if negb (ParseCIDR (V4CIDR s)) || negb (ParseCIDR (V6CIDR s)) then Some ECIDR else None.

(** Client part; the prefixes of the source rules are completed in place. *)
Definition setRules (rs : list SourceRule) (c : ClientConfig) : ClientConfig :=
  mkClientCfg (InterfaceManager c) (ReqV4 c) (ReqV6 c) (SNI c) (Insecure c) (CertSHA256 c) (Fwmark c) (FwmarkPriority c) (ExtraRoutes c) rs (Conns c) (FEC c) (FecGroup c).
Definition validateClient (up down : string) (c : ClientConfig) : cfgErr + ClientConfig :=
  let netifd := bool_decide (InterfaceManager c = "netifd"%string) in
  refuse negb (oneOf (InterfaceManager c) ["self"; "netifd"]%string) with EInterfaceManager;
  refuse netifd && (negb (Fwmark c =? 0) || negb (length (ExtraRoutes c) =? 0)%nat || negb (length (SourceRules c) =? 0)%nat) with ENetifdRouting;
  refuse netifd && (negb (isEmpty up) || negb (isEmpty down)) with ENetifdHooks;
  refuse Conns c <? 1 with EConns;
  refuse (FecGroup c <? fecMinGroup) || (fecMaxGroup <? FecGroup c) with EFecGroup;
  refuse Fwmark c <? 0 with EFwmark;
  refuse badPriority (FwmarkPriority c) with EPriority;
  check validateExtraRoutes (ExtraRoutes c);
  match validateSourceRules 0 (SourceRules c) with
  | inl e => inl e
  | inr rs =>
    refuse negb (isEmpty (CertSHA256 c)) && negb (String.length (toLower (dropChar 58 (CertSHA256 c))) =? 64)%nat with ECertSHA;
    inr (setRules rs c)
  end.

Definition setClient (cl : ClientConfig) (c : Config) : Config :=
  mkConfig (Mode c) (PSK c) (Tap c) (Mac c) (Addr c) (LogLevel c) (Up c) (Down c) (Encrypt c) (EncAlgo c) (MinEnc c) (PadMode c) (Socks5 c)
    (Brutal c) (BrutalUp c) (BrutalDown c) (TrafficDays c) (TrafficFile c) (Web c) (Server c) cl (SourcePath c) (EncryptPresent c).

Definition pskPlaceholders : list string := ["quic_secret"; "change-me"; "change-me-please"; "replace-with-a-random-secret"]%string.

(** The checks that do not depend on the mode. *)
Definition validateCommon (c : Config) : option cfgErr :=
  match validateHookPath "up" (Up c) with Some e => Some e | None =>
  match validateHookPath "down" (Down c) with Some e => Some e | None =>
  if (maxBrutalRateMbps <? BrutalUp c) || (maxBrutalRateMbps <? BrutalDown c) then Some EBrutal else
  if (TrafficDays c <? 1) || (maxTrafficDays <? TrafficDays c) then Some ETrafficDays else
  if isClient c && (2 ^ 16 <? Conns (Client c)) then Some ETooManyConns else
  if negb (isServer c) && negb (isClient c) then Some (if isEmpty (Mode c) then EModeMissing else EModeInvalid) else
  if isEmpty (Addr c) then Some EAddr else
  if isEmpty (trimSpace (PSK c)) then Some EPskMissing else
  if oneOf (toLower (trimSpace (PSK c))) pskPlaceholders then Some EPskPlaceholder else
  if negb (isEmpty (Mac c)) && negb (isValidMACString (str_bytes (Mac c))) then Some EMac else
  if negb (levelOk (LogLevel c)) then Some ELogLevel else
  if negb (ensureBasicAuthFormat (webAuth (Web c))) then Some EWebAuthFormat else
  if equalFold (webAuth (Web c)) "admin:change-me" || equalFold (webAuth (Web c)) "admin:replace-with-a-random-password" then Some EWebAuthPlaceholder else
  match validateMCP (webMCP (Web c)) with Some e => Some e | None =>
  if negb (Bool.eqb (isEmpty (webCert (Web c))) (isEmpty (webKey (Web c)))) then Some EWebPair else
  if negb (oneOf (webBind (Web c)) ["all"; "tunnel"]%string) then Some EWebBind else
  if negb (isEmpty (webAddr (Web c))) && isEmpty (webAuth (Web c)) then Some EWebAuthRequired else
  if negb (isEmpty (webAddr (Web c))) && bool_decide (webBind (Web c) = "all"%string) && webAddrIsPublic (webAddr (Web c))
     && (isEmpty (webCert (Web c)) || isEmpty (webKey (Web c))) then Some EWebTLS else
  if negb (oneOf (EncAlgo c) [""; "gcm256"; "gcm128"; "chacha20"; "xchacha20"]%string) then Some EEncAlgo else
  if negb (isEmpty (EncAlgo c)) && negb (Encrypt c) then Some EEncAlgoPlain else
  if negb (oneOf (MinEnc c) [""; "any"; "gcm"]%string) then Some EMinEnc else
  if negb (oneOf (PadMode c) ["off"; "bucket"]%string) then Some EPadMode else
  if negb (oneOf (MinEnc c) [""; "any"]%string) && negb (Encrypt c) then Some EMinEncPlain else None
  end end end.

Definition Validate (c : Config) : cfgErr + Config :=
  check validateCommon c;
  check (if isServer c then validateServer (Server c) else None);
  if isClient c then match validateClient (Up c) (Down c) (Client c) with inl e => inl e | inr cl => inr (setClient cl c) end else inr c.

(** ** Files *)

Notation files := (gmap string text).

Definition setSource (p : string) (c : Config) : Config :=
  mkConfig (Mode c) (PSK c) (Tap c) (Mac c) (Addr c) (LogLevel c) (Up c) (Down c) (Encrypt c) (EncAlgo c) (MinEnc c) (PadMode c) (Socks5 c)
    (Brutal c) (BrutalUp c) (BrutalDown c) (TrafficDays c) (TrafficFile c) (Web c) (Server c) (Client c) p (EncryptPresent c).
Definition setEncrypt (e present : bool) (c : Config) : Config :=
  mkConfig (Mode c) (PSK c) (Tap c) (Mac c) (Addr c) (LogLevel c) (Up c) (Down c) e (EncAlgo c) (MinEnc c) (PadMode c) (Socks5 c)
    (Brutal c) (BrutalUp c) (BrutalDown c) (TrafficDays c) (TrafficFile c) (Web c) (Server c) (Client c) (SourcePath c) present.

(** loadConfigFile: the decoder reads the first value of the file; the probe for
    encrypt needs the file to be one value. *)
Definition encryptOf (j : json) : option json := match j with JObj o => jfind "encrypt" o | _ => None end.
Definition loadConfigFile (path : string) (fs : files) : option Config :=
  data ← fs !! path;
  '(j, trailing) ← parseText data;
  cfg ← decodeValue j;
  Some (if (trailing : bool) then cfg else
        match encryptOf j with None | Some JNull => setEncrypt true false cfg | Some _ => setEncrypt (Encrypt cfg) true cfg end).

(** What main does with -c. *)
Definition startConfig (path : string) (fs : files) : option (cfgErr + Config) :=
  cfg ← loadConfigFile path fs; Some (Validate (applyDefaults (setSource path cfg))).

(** SaveConfigFile: the outcomes of the write, with what a failed one leaves behind,
    and of the rename. *)
Definition SaveConfigFile (cfg : Config) (okWrite okRename : bool) (partial : option text) (fs : files) : files * option Config :=
  if isEmpty (SourcePath cfg) then (fs, None) else
  let cfg := applyDefaults cfg in
  let tmp := (SourcePath cfg +:+ ".tmp")%string in
  if negb okWrite then (match partial with Some p => <[tmp := p]> fs | None => fs end, None) else
  if negb okRename then (delete tmp fs, None) else
  (<[SourcePath cfg := render (encodeConfig cfg)]> (delete tmp fs), Some cfg).

Definition keepSecrets (old new : Config) : Config :=
  mkConfig (Mode new) (if isEmpty (PSK new) then PSK old else PSK new) (Tap new) (Mac new) (Addr new) (LogLevel new) (Up new) (Down new) (Encrypt new) (EncAlgo new) (MinEnc new)
    (PadMode new) (if isEmpty (Socks5 new) then Socks5 old else Socks5 new) (Brutal new) (BrutalUp new) (BrutalDown new) (TrafficDays new) (TrafficFile new)
    (mkWeb (webAddr (Web new)) (if isEmpty (webAuth (Web new)) then webAuth (Web old) else webAuth (Web new)) (webCert (Web new)) (webKey (Web new)) (webBind (Web new)) (webMCP (Web new)))
    (Server new) (Client new) (SourcePath old) (EncryptPresent new).

(** mergeAndValidateConfig: [posted] is one value, or more, or no JSON. *)
Definition mergeAndValidateConfig (old : Config) (posted : text) : option (cfgErr + Config) :=
  '(j, trailing) ← parseText posted;
  new ← decodeValue j;
  if (trailing : bool) then None else Some (Validate (applyDefaults (keepSecrets old new))).

(** What GET /api/config shows. *)
Definition redacted (c : Config) : Config :=
  mkConfig (Mode c) "" (Tap c) (Mac c) (Addr c) (LogLevel c) (Up c) (Down c) (Encrypt c) (EncAlgo c) (MinEnc c) (PadMode c) "" (Brutal c) (BrutalUp c) (BrutalDown c)
    (TrafficDays c) (TrafficFile c) (mkWeb (webAddr (Web c)) "" (webCert (Web c)) (webKey (Web c)) (webBind (Web c)) (webMCP (Web c))) (Server c) (Client c) (SourcePath c) (EncryptPresent c).

End Validate.

(** ** The codec *)

#[local] Arguments omitStr : simpl never.
#[local] Arguments omitBool : simpl never.
#[local] Arguments omitNum : simpl never.
#[local] Arguments omitList : simpl never.
#[local] Arguments fieldsObj : simpl never.

Lemma fieldsObj_find fs k : NoDup fs.*1 -> jfind k (fieldsObj fs) = match jfind k fs with Some o => o | None => None end.
Proof.
  unfold fieldsObj. induction fs as [|[k' [v|]] fs IH]; intros HN; [done| |]; apply NoDup_cons in HN as [Hk HN]; cbn in *.
  - case_bool_decide; [done|auto].
  - rewrite IH by done. case_bool_decide as E; [|done]. subst k'. destruct (jfind k fs) as [o|] eqn:Ef; [|done]. exfalso. apply Hk. clear -Ef.
    induction fs as [|[k' v] fs IH]; [done|]. cbn in *. case_bool_decide; [subst; by left|right; auto].
Qed.

Lemma fieldsObj_known fs ks : fs.*1 = ks -> known ks (fieldsObj fs) = true.
Proof.
  intros <-. unfold known, fieldsObj. apply forallb_forall. intros [k v] Hin. apply list_elem_of_In, list_elem_of_omap in Hin as ([k' o] & Hin & E).
  destruct o as [w|]; [|done]. cbn in E. injection E as <- <-. apply bool_decide_eq_true. apply list_elem_of_fmap. by exists (k', Some w).
Qed.

Definition isInt (n : Z) : Prop := - 2 ^ 63 <= n < 2 ^ 63.

Section Getters.
Context (fs : list (string * option json)) (ND : NoDup fs.*1).

Lemma getStr_omit k s : jfind k fs = Some (omitStr s) -> getStr k (fieldsObj fs) = Some s.
Proof using ND. intros E. unfold getStr. rewrite fieldsObj_find, E by done. unfold omitStr. by case_bool_decide as Es; [rewrite Es|]. Qed.
Lemma getStr_put k s : jfind k fs = Some (Some (JStr s)) -> getStr k (fieldsObj fs) = Some s.
Proof using ND. intros E. unfold getStr. by rewrite fieldsObj_find, E by done. Qed.
Lemma getBool_omit k b : jfind k fs = Some (omitBool b) -> getBool k (fieldsObj fs) = Some b.
Proof using ND. intros E. unfold getBool. rewrite fieldsObj_find, E by done. by destruct b. Qed.
Lemma getBool_put k b : jfind k fs = Some (Some (JBool b)) -> getBool k (fieldsObj fs) = Some b.
Proof using ND. intros E. unfold getBool. by rewrite fieldsObj_find, E by done. Qed.
Lemma getInt_omit k n : jfind k fs = Some (omitNum n) -> isInt n -> getInt k (fieldsObj fs) = Some n.
Proof using ND. intros E Hn. unfold getInt. rewrite fieldsObj_find, E by done. unfold omitNum. destruct (Z.eqb_spec n 0) as [->|_]; [done|]. by rewrite bool_decide_true. Qed.
Lemma getInt_put k n : jfind k fs = Some (Some (JNum n)) -> isInt n -> getInt k (fieldsObj fs) = Some n.
Proof using ND. intros E Hn. unfold getInt. rewrite fieldsObj_find, E by done. by rewrite bool_decide_true. Qed.
Lemma getUint_omit k n : jfind k fs = Some (omitNum n) -> is_u64 n -> getUint k (fieldsObj fs) = Some n.
Proof using ND. intros E Hn. unfold getUint. rewrite fieldsObj_find, E by done. unfold omitNum. destruct (Z.eqb_spec n 0) as [->|_]; [done|]. by rewrite bool_decide_true. Qed.
Lemma getList_omit {A} (f : json -> option A) (g : A -> json) k l : Forall (fun x => f (g x) = Some x) l ->
  jfind k fs = Some (omitList g l) -> getList f k (fieldsObj fs) = Some l.
Proof using ND.
  intros Hl E. unfold getList. rewrite fieldsObj_find, E by done. unfold omitList. destruct l as [|x l]; [done|].
  apply mapM_Some, Forall2_fmap_l. by apply Forall_Forall2_diag.
Qed.
Lemma getStrs_omit k l : jfind k fs = Some (omitList JStr l) -> getList elemStr k (fieldsObj fs) = Some l.
Proof using ND. apply getList_omit. by apply Forall_forall. Qed.
Lemma getObj_put {A} (f : jobj -> option A) k o x : jfind k fs = Some (Some (JObj o)) -> f o = Some x -> getObj f k (fieldsObj fs) = Some x.
Proof using ND. intros E Hf. unfold getObj. by rewrite fieldsObj_find, E by done. Qed.
End Getters.

Lemma bind_read {A B} (m : option A) (f : A -> option B) x r : m = Some x -> f x = r -> (m ≫= f) = r.
Proof. by intros -> H. Qed.

(** Reads the fields of a decoder over the encoding of a structure, one by one. *)
Ltac keys_differ := apply (bool_decide_unpack _); vm_compute; exact I.
Ltac read_field :=
  lazymatch goal with
  | |- getStr _ _ = _ => first [eapply getStr_omit; [keys_differ|cbn; reflexivity] | eapply getStr_put; [keys_differ|cbn; reflexivity]]
  | |- getBool _ _ = _ => first [eapply getBool_omit; [keys_differ|cbn; reflexivity] | eapply getBool_put; [keys_differ|cbn; reflexivity]]
  | |- getInt _ _ = _ => first [eapply getInt_omit; [keys_differ|cbn; reflexivity|eassumption] | eapply getInt_put; [keys_differ|cbn; reflexivity|eassumption]]
  | |- getUint _ _ = _ => eapply getUint_omit; [keys_differ|cbn; reflexivity|eassumption]
  | |- getList elemStr _ _ = _ => eapply getStrs_omit; [keys_differ|cbn; reflexivity]
  | |- getObj _ _ _ = _ => eapply getObj_put; [keys_differ|cbn; reflexivity|eassumption]
  end.
Ltac read_loop := repeat (eapply bind_read; [read_field|cbv beta]).
Ltac read_fields := rewrite fieldsObj_known by reflexivity; cbn [negb]; read_loop.

Lemma oauth_codec c : decodeOAuth (fieldsObj (oauthFields c)) = Some c.
Proof. unfold decodeOAuth. read_fields. by destruct c. Qed.

Lemma mcp_codec c : decodeMCP (fieldsObj (mcpFields c)) = Some c.
Proof. unfold decodeMCP. pose proof (oauth_codec (OAuth c)). read_fields. by destruct c. Qed.
Lemma web_codec c : decodeWeb (fieldsObj (webFields c)) = Some c.
Proof. unfold decodeWeb. pose proof (mcp_codec (webMCP c)). read_fields. by destruct c. Qed.

(** The integers of a configuration fit their types. *)
Definition ruleInts (r : SourceRule) : Prop := isInt (Table r) /\ isInt (Priority r).
Definition serverInts (s : ServerConfig) : Prop := isInt (MaxSessions s) /\ isInt (FecGroupMin s) /\ isInt (FecGroupMax s).
Definition clientInts (c : ClientConfig) : Prop :=
  isInt (Fwmark c) /\ isInt (FwmarkPriority c) /\ isInt (Conns c) /\ isInt (FecGroup c) /\ Forall ruleInts (SourceRules c).
Definition configInts (c : Config) : Prop :=
  is_u64 (BrutalUp c) /\ is_u64 (BrutalDown c) /\ isInt (TrafficDays c) /\ serverInts (Server c) /\ clientInts (Client c).

Lemma rule_codec r : ruleInts r -> elemRule (ruleJSON r) = Some r.
Proof. intros [H1 H2]. unfold elemRule, ruleJSON, decodeRule. read_fields. by destruct r. Qed.
Lemma server_codec c : serverInts c -> decodeServer (fieldsObj (serverFields c)) = Some c.
Proof. intros (H1 & H2 & H3). unfold decodeServer. read_fields. by destruct c. Qed.
Lemma client_codec c : clientInts c -> decodeClient (fieldsObj (clientFields c)) = Some c.
Proof.
  intros (H1 & H2 & H3 & H4 & HR). unfold decodeClient. read_fields.
  eapply bind_read; [|cbv beta; read_loop; instantiate (1 := SourceRules c); by destruct c].
  eapply getList_omit; [keys_differ|eapply Forall_impl; [exact HR|exact rule_codec]|cbn; reflexivity].
Qed.

(** Decoding what was encoded gives every field back, apart from the two that are not
    written. *)
Lemma config_codec c : configInts c -> decodeValue (encodeConfig c) = Some (setSource "" (setEncrypt (Encrypt c) false c)).
Proof.
  intros (H1 & H2 & H3 & H4 & H5). unfold decodeValue, encodeConfig, decodeConfig. pose proof (web_codec (Web c)).
  pose proof (server_codec _ H4). pose proof (client_codec _ H5). read_fields. done.
Qed.

Lemma getInt_int k o n : getInt k o = Some n -> isInt n.
Proof. unfold getInt, isInt. destruct (jfind k o) as [[]|]; try done; try (intros [= <-]; lia). case_bool_decide; [|done]. by intros [= <-]. Qed.
Lemma getUint_uint k o n : getUint k o = Some n -> is_u64 n.
Proof. unfold getUint, is_u64. destruct (jfind k o) as [[]|]; try done; try (intros [= <-]; lia). case_bool_decide; [|done]. by intros [= <-]. Qed.

(** Takes the successful reads of a decoder apart. *)
Ltac unread H := repeat match type of H with (_ ≫= _) = Some _ => let x := fresh "v" in let E := fresh "E" in apply bind_Some in H as (x & E & H); cbv beta in H end.
#[local] Hint Resolve getInt_int getUint_uint : core.

Lemma decodeRule_ints o r : decodeRule o = Some r -> ruleInts r.
Proof. unfold decodeRule. destruct (negb _); [done|]. intros H. unread H. injection H as <-. split; cbn; eauto. Qed.
Lemma elemRule_ints j r : elemRule j = Some r -> ruleInts r.
Proof. destruct j; cbn [elemRule]; try done; apply decodeRule_ints. Qed.
Lemma decodeServer_ints o s : decodeServer o = Some s -> serverInts s.
Proof. unfold decodeServer. destruct (negb _); [done|]. intros H. unread H. injection H as <-. split_and!; cbn; eauto. Qed.
Lemma getRules_ints k o l : getList elemRule k o = Some l -> Forall ruleInts l.
Proof.
  unfold getList. destruct (jfind k o) as [[]|]; try done; try (intros [= <-]; constructor). intros HM. apply mapM_Some in HM.
  induction HM as [|j r js rs Hj _ IH]; constructor; [by eapply elemRule_ints|done].
Qed.
Lemma decodeClient_ints o c : decodeClient o = Some c -> clientInts c.
Proof. unfold decodeClient. destruct (negb _); [done|]. intros H. unread H. injection H as <-. split_and!; cbn; eauto using getRules_ints. Qed.

Lemma getObj_decoded {A} (f : jobj -> option A) (P : A -> Prop) k o x : (forall o x, f o = Some x -> P x) -> getObj f k o = Some x -> P x.
Proof. intros HP. unfold getObj. destruct (jfind k o) as [[]|]; try done; apply HP. Qed.

(** The integers of a decoded configuration fit. *)
Lemma decode_ints j c : decodeValue j = Some c -> configInts c.
Proof.
  assert (forall o, decodeConfig o = Some c -> configInts c) as HD.
  { intros o. unfold decodeConfig. destruct (negb _); [done|]. intros H. unread H. injection H as <-. split_and!; cbn [BrutalUp BrutalDown TrafficDays Server Client]; eauto.
    - eapply getObj_decoded; [|eassumption]. apply decodeServer_ints.
    - eapply getObj_decoded; [|eassumption]. apply decodeClient_ints. }
  destruct j; try done; apply HD.
Qed.

Lemma orNum_int d n : isInt d -> isInt n -> isInt (orNum d n).
Proof. unfold orNum. by destruct (n =? 0). Qed.

Lemma defaults_ints `{WebCrypto} c : configInts c -> configInts (applyDefaults c).
Proof.
  intros (H1 & H2 & H3 & H4 & H5). unfold configInts, applyDefaults. cbn [BrutalUp BrutalDown TrafficDays Server Client]. split_and!.
  - unfold orNum. destruct (_ =? 0); [unfold is_u64; lia|done].
  - unfold orNum. destruct (_ =? 0); [unfold is_u64; lia|done].
  - destruct (_ <=? 0); [unfold isInt, defaultTrafficDays; lia|done].
  - destruct (isServer c); [|done]. destruct H4 as (? & ? & ?). split_and!; apply orNum_int; done.
  - destruct (isClient c); [|done]. destruct H5 as (? & ? & ? & ? & ?). split_and!; cbn [clientDefaults Fwmark FwmarkPriority Conns FecGroup SourceRules]; try done; apply orNum_int; done.
Qed.

(** ** Normal forms *)

Definition firstOk (f : Ascii.ascii -> bool) (s : string) : bool := match s with String c _ => negb (f c) | EmptyString => true end.

Lemma trimLeft_ok f s : firstOk f (trimLeft f s) = true.
Proof. induction s as [|c s IH]; [done|]. cbn. destruct (f c) eqn:E; [done|]. cbn. by rewrite E. Qed.
Lemma trimLeft_id f s : firstOk f s = true -> trimLeft f s = s.
Proof. destruct s as [|c s]; [done|]. cbn. by destruct (f c). Qed.
Lemma trimLeft_suffix f s : exists p, s = (p +:+ trimLeft f s)%string.
Proof.
  induction s as [|c s [p IH]]; [by exists ""%string|]. cbn. destruct (f c); [|by exists ""%string]. exists (String c p).
  change (String c s = String c (p +:+ trimLeft f s)). by rewrite <- IH.
Qed.
Lemma rev_append a b : String.rev (a +:+ b) = (String.rev b +:+ String.rev a)%string.
Proof.
  unfold String.rev. assert (forall a b, String.rev_app a b = (String.rev_app a "" +:+ b)%string) as HA.
  { clear. induction a as [|c a IH]; intros b; [done|]. cbn [String.rev_app]. rewrite IH, (IH (String c "")). clear. generalize (String.rev_app a ""). induction s as [|d s IHs]; [done|].
    change (String d (s +:+ String c b) = String d ((s +:+ String c "") +:+ b)). by rewrite IHs. }
  revert b. induction a as [|c a IH]; intros b; [cbn; by rewrite append_nil|].
  change (String.rev_app (a +:+ b) (String c "") = (String.rev_app b "" +:+ String.rev_app a (String c ""))%string).
  rewrite HA, IH, (HA a (String c "")). clear. generalize (String.rev_app b "") (String.rev_app a "").
  intros u v. induction u as [|d u IHu]; [done|]. change (String d ((u +:+ v) +:+ String c "") = String d (u +:+ (v +:+ String c ""))). by rewrite IHu.
Qed.
Lemma trimRight_prefix f s : exists q, s = (trimRight f s +:+ q)%string.
Proof.
  unfold trimRight. destruct (trimLeft_suffix f (String.rev s)) as [p Hp]. exists (String.rev p). rewrite <- rev_append, <- Hp. by rewrite rev_rev.
Qed.
Lemma firstOk_prefix f a b : firstOk f (a +:+ b)%string = true -> firstOk f a = true.
Proof. by destruct a. Qed.
Lemma trimRight_idem f s : trimRight f (trimRight f s) = trimRight f s.
Proof. unfold trimRight. by rewrite rev_rev, (trimLeft_id f (trimLeft f _)) by apply trimLeft_ok. Qed.

Lemma trimSpace_first s : firstOk isSpace (trimSpace s) = true.
Proof. unfold trimSpace. destruct (trimRight_prefix isSpace (trimLeft isSpace s)) as [q Hq]. apply (firstOk_prefix _ _ q). rewrite <- Hq. apply trimLeft_ok. Qed.
Lemma trimSpace_idem s : trimSpace (trimSpace s) = trimSpace s.
Proof. unfold trimSpace at 1. rewrite (trimLeft_id _ _ (trimSpace_first s)). unfold trimSpace. apply trimRight_idem. Qed.

(** A property of all characters. *)
Lemma all_ascii (P : Ascii.ascii -> bool) : forallb P (Ascii.ascii_of_nat <$> seq 0 256) = true -> forall c, P c = true.
Proof.
  intros HF c. rewrite forallb_forall in HF. apply HF. apply list_elem_of_In, list_elem_of_fmap. exists (Ascii.nat_of_ascii c).
  split; [by rewrite Ascii.ascii_nat_embedding|]. apply elem_of_seq. pose proof (Ascii.nat_ascii_bounded c). lia.
Qed.
Ltac by_chars := apply (all_ascii (fun c => _)); vm_compute; reflexivity.

Lemma lower_space c : isSpace (lowerAscii c) = isSpace c.
Proof. apply Bool.eqb_prop. revert c. by_chars. Qed.
Lemma lower_lower c : lowerAscii (lowerAscii c) = lowerAscii c.
Proof. apply Ascii.eqb_eq. revert c. by_chars. Qed.
Lemma upper_upper c : upperAscii (upperAscii c) = upperAscii c.
Proof. apply Ascii.eqb_eq. revert c. by_chars. Qed.
Lemma upper_header c : headerChar (upperAscii c) = headerChar c.
Proof. apply Bool.eqb_prop. revert c. by_chars. Qed.
Lemma lower_header c : headerChar (lowerAscii c) = headerChar c.
Proof. apply Bool.eqb_prop. revert c. by_chars. Qed.
Lemma header_nospace c : headerChar c = true -> noSpace c = true.
Proof. assert (implb (headerChar c) (noSpace c) = true) as H by (revert c; by_chars). intros E. by rewrite E in H. Qed.
Lemma upper_dash c : (Ascii.nat_of_ascii (upperAscii c) =? 45)%nat = (Ascii.nat_of_ascii c =? 45)%nat.
Proof. apply Bool.eqb_prop. revert c. by_chars. Qed.
Lemma lower_dash c : (Ascii.nat_of_ascii (lowerAscii c) =? 45)%nat = (Ascii.nat_of_ascii c =? 45)%nat.
Proof. apply Bool.eqb_prop. revert c. by_chars. Qed.

Lemma toLower_idem s : toLower (toLower s) = toLower s.
Proof. induction s as [|c s IH]; [done|]. cbn. by rewrite lower_lower, IH. Qed.
Lemma toLower_rev s : toLower (String.rev s) = String.rev (toLower s).
Proof.
  induction s as [|c s IH]; [done|]. change (String c s) with (String c "" +:+ s)%string. rewrite lower_append, !rev_append, lower_append, IH. done.
Qed.
Lemma firstOk_lower s : firstOk isSpace (toLower s) = firstOk isSpace s.
Proof. destruct s as [|c s]; [done|]. cbn. by rewrite lower_space. Qed.
Lemma trimSpace_trimmed s : firstOk isSpace s = true -> firstOk isSpace (String.rev s) = true -> trimSpace s = s.
Proof. intros H1 H2. unfold trimSpace, trimRight. by rewrite (trimLeft_id _ _ H1), (trimLeft_id _ _ H2), rev_rev. Qed.
Lemma trimSpace_last s : firstOk isSpace (String.rev (trimSpace s)) = true.
Proof. unfold trimSpace, trimRight. rewrite rev_rev. apply trimLeft_ok. Qed.
Lemma lower_trimmed s : trimSpace (toLower (trimSpace s)) = toLower (trimSpace s).
Proof. apply trimSpace_trimmed; rewrite <- ?toLower_rev, firstOk_lower; [apply trimSpace_first|apply trimSpace_last]. Qed.

Lemma normalizeMode_idem m : normalizeMCPAuthMode (normalizeMCPAuthMode m) = normalizeMCPAuthMode m.
Proof.
  unfold normalizeMCPAuthMode. destruct (decide (toLower (trimSpace m) = ""%string)) as [E|E]; [rewrite (bool_decide_true _ E); by vm_compute|].
  rewrite (bool_decide_false (toLower (trimSpace m) = ""%string)) by done. rewrite lower_trimmed, toLower_idem. by rewrite bool_decide_false.
Qed.

Lemma canonKey_idem up s : canonKey up (canonKey up s) = canonKey up s.
Proof.
  revert up. induction s as [|c s IH]; intros up; [done|]. cbn. destruct up; rewrite ?upper_dash, ?lower_dash, ?upper_upper, ?lower_lower, IH; done.
Qed.
Lemma canonKey_chars up s : allChars headerChar (canonKey up s) = allChars headerChar s.
Proof. revert up. induction s as [|c s IH]; intros up; [done|]. cbn. rewrite IH. by destruct up; rewrite ?upper_header, ?lower_header. Qed.
Lemma allChars_mono (f g : Ascii.ascii -> bool) s : (forall c, f c = true -> g c = true) -> allChars f s = true -> allChars g s = true.
Proof. intros HM. induction s as [|c s IH]; [done|]. cbn. rewrite !andb_true_iff. intros [? ?]. auto. Qed.
Lemma canonical_idem s : CanonicalHeaderKey (trimSpace (CanonicalHeaderKey (trimSpace s))) = CanonicalHeaderKey (trimSpace s).
Proof.
  unfold CanonicalHeaderKey at 2 3. destruct (allChars headerChar (trimSpace s)) eqn:E.
  - rewrite trimSpace_none by (apply (allChars_mono headerChar); [apply header_nospace|by rewrite canonKey_chars]).
    unfold CanonicalHeaderKey. by rewrite canonKey_chars, E, canonKey_idem.
  - rewrite trimSpace_idem. unfold CanonicalHeaderKey. by rewrite E.
Qed.
Lemma canonical_nonempty s : s <> ""%string -> CanonicalHeaderKey s <> ""%string.
Proof. intros Hs. unfold CanonicalHeaderKey. destruct (allChars headerChar s); [|done]. by destruct s. Qed.

Lemma allChars_append f a b : allChars f (a +:+ b)%string = allChars f a && allChars f b.
Proof. induction a as [|c a IH]; [done|]. change (f c && allChars f (a +:+ b)%string = f c && allChars f a && allChars f b). by rewrite IH, andb_assoc. Qed.

(** Addresses in which no space is left after trimming. *)
Definition noInnerSpace (s : string) : Prop := allChars noSpace (trimSpace s) = true.
Lemma trimSlash_plain s : noInnerSpace s -> trimSpace (trimSlash (trimSpace s)) = trimSlash (trimSpace s).
Proof.
  intros Hs. apply trimSpace_none. destruct (trimRight_prefix (inSet [47%nat]) (trimSpace s)) as [q Hq]. unfold noInnerSpace in Hs. rewrite Hq, allChars_append in Hs.
  apply andb_true_iff in Hs. apply Hs.
Qed.
Lemma trimSlash_idem s : noInnerSpace s -> trimSlash (trimSpace (trimSlash (trimSpace s))) = trimSlash (trimSpace s).
Proof. intros Hs. rewrite trimSlash_plain by done. apply trimRight_idem. Qed.

(** What the repeated trimming of the MCP section leaves alone. *)
Definition stableMCP (c : MCPConfig) : Prop :=
  (APIKeyHeader c = ""%string \/ trimSpace (APIKeyHeader c) <> ""%string) /\ noInnerSpace (Issuer (OAuth c)) /\ Forall noInnerSpace (AuthorizationServers (OAuth c)).

Lemma oauthDefaults_idem o : noInnerSpace (Issuer o) -> Forall noInnerSpace (AuthorizationServers o) -> oauthDefaults (oauthDefaults o) = oauthDefaults o.
Proof.
  intros HI HA. unfold oauthDefaults. cbn [JWKSURL Issuer Audience Resource AuthorizationServers RequiredScopes].
  rewrite !trimSpace_idem, (trimSlash_idem _ HI), <- list_fmap_compose. f_equal; [|apply list_fmap_ext; intros i x _; apply trimSpace_idem].
  rewrite !length_fmap. destruct ((length (AuthorizationServers o) =? 0)%nat) eqn:EL; cbn [andb].
  - apply Nat.eqb_eq in EL. destruct (AuthorizationServers o); [|done]. destruct (bool_decide_reflect (trimSlash (trimSpace (Issuer o)) = ""%string)) as [Ei|Ei]; cbn; [done|]. by rewrite (trimSlash_idem _ HI).
  - rewrite length_fmap, EL. cbn [andb]. rewrite <- list_fmap_compose. apply list_fmap_ext. intros i x Hx. cbn. apply trimSlash_idem. rewrite Forall_lookup in HA. by apply (HA i).
Qed.

Section Idempotence.
Context `{WebCrypto}.
Hypothesis sha_length : forall s, length (sha256s s) = 32%nat.
Hypothesis sha_bytes : forall s, Forall is_u8 (sha256s s).

Lemma normalizeCredential_idem v : normalizeMCPStaticCredential (normalizeMCPStaticCredential v) = normalizeMCPStaticCredential v.
Proof using sha_length sha_bytes.
  destruct (decide (v = ""%string)) as [->|Hv]; [done|]. destruct (hasPrefix mcpCredentialHashPrefix (toLower v)) eqn:EP.
  - assert (forall w, toLower (trimSpace w) = w -> normalizeMCPStaticCredential (mcpCredentialHashPrefix +:+ w) = (mcpCredentialHashPrefix +:+ w)%string) as HW.
    { intros w Hw. destruct (stored_parts w) as (S1 & S2 & _). unfold normalizeMCPStaticCredential. rewrite bool_decide_false by done.
      rewrite lower_append. change (toLower mcpCredentialHashPrefix) with mcpCredentialHashPrefix. destruct (stored_parts (toLower w)) as (-> & _ & _). by rewrite S2, Hw. }
    unfold normalizeMCPStaticCredential at 2 3. rewrite bool_decide_false by done. rewrite EP. apply HW. by rewrite lower_trimmed, toLower_idem.
  - destruct (mcp_credential_stored sha_length sha_bytes v ""%string) as (E & _); [by split|done].
Qed.

Lemma orStr_idem d s : d <> ""%string -> orStr d (orStr d s) = orStr d s.
Proof. intros Hd. unfold orStr. case_bool_decide; case_bool_decide; done. Qed.
Lemma orNum_idem d n : d <> 0 -> orNum d (orNum d n) = orNum d n.
Proof. intros Hd. unfold orNum. destruct (Z.eqb_spec n 0), (Z.eqb_spec d 0); try done. by destruct (Z.eqb_spec n 0). Qed.

(** The defaults applied again change the spelling of the API key header at most: its
    default is not in canonical form. *)
Definition setHeader (h : string) (c : MCPConfig) : MCPConfig := mkMCP (AuthMode c) (mUsername c) (Credential c) h (OAuth c).

Lemma defaults_header c : stableMCP c -> APIKeyHeader (mcpApplyDefaults c) <> ""%string /\ trimSpace (APIKeyHeader (mcpApplyDefaults c)) = APIKeyHeader (mcpApplyDefaults c).
Proof.
  intros (HH & _ & _). cbn [mcpApplyDefaults APIKeyHeader]. destruct (bool_decide_reflect (APIKeyHeader c = ""%string)) as [E|E]; [done|]. destruct HH as [HH|HH]; [done|].
  split; [by apply canonical_nonempty|]. unfold CanonicalHeaderKey. destruct (allChars headerChar (trimSpace (APIKeyHeader c))) eqn:EC; [|apply trimSpace_idem].
  apply trimSpace_none, (allChars_mono headerChar); [apply header_nospace|by rewrite canonKey_chars].
Qed.

Lemma mcpDefaults_twice c : stableMCP c -> mcpApplyDefaults (mcpApplyDefaults c) = setHeader (CanonicalHeaderKey (APIKeyHeader (mcpApplyDefaults c))) (mcpApplyDefaults c).
Proof using sha_length sha_bytes.
  intros HS. destruct (defaults_header c HS) as [HN HT]. destruct HS as (HH & HI & HA). unfold mcpApplyDefaults at 1. rewrite (bool_decide_false _ HN), HT. unfold setHeader.
  cbn [mcpApplyDefaults AuthMode mUsername Credential OAuth]. f_equal.
  - apply normalizeMode_idem.
  - destruct (bool_decide_reflect (Credential c = ""%string)) as [E|E]; [by rewrite bool_decide_true|]. case_bool_decide; [done|]. apply normalizeCredential_idem.
  - by apply oauthDefaults_idem.
Qed.

Lemma canonical_twice s : trimSpace s = s -> s <> ""%string ->
  trimSpace (CanonicalHeaderKey s) = CanonicalHeaderKey s /\ CanonicalHeaderKey (CanonicalHeaderKey s) = CanonicalHeaderKey s /\ CanonicalHeaderKey s <> ""%string.
Proof.
  intros Ht Hs. pose proof (canonical_idem s) as HI. rewrite Ht in HI. split_and!; [| |by apply canonical_nonempty].
  - unfold CanonicalHeaderKey. destruct (allChars headerChar s) eqn:EC; [|done]. apply trimSpace_none, (allChars_mono headerChar); [apply header_nospace|by rewrite canonKey_chars].
  - unfold CanonicalHeaderKey. destruct (allChars headerChar s) eqn:EC; [by rewrite canonKey_chars, EC, canonKey_idem|by rewrite EC].
Qed.

Lemma mcpDefaults_thrice c : stableMCP c -> let m := mcpApplyDefaults (mcpApplyDefaults c) in mcpApplyDefaults m = m.
Proof using sha_length sha_bytes.
  intros HS m. pose proof (mcpDefaults_twice c HS) as E. destruct (defaults_header c HS) as [HN HT]. destruct (canonical_twice _ HT HN) as (C1 & C2 & C3).
  subst m. rewrite E. set (c1 := mcpApplyDefaults c) in *. clearbody c1.
  pose proof (f_equal AuthMode E) as EM. pose proof (f_equal Credential E) as EC. pose proof (f_equal OAuth E) as EO. cbn [mcpApplyDefaults setHeader AuthMode Credential OAuth] in EM, EC, EO.
  unfold mcpApplyDefaults, setHeader. cbn [AuthMode mUsername Credential APIKeyHeader OAuth]. by rewrite (bool_decide_false _ C3), C1, C2, EM, EC, EO.
Qed.

Lemma toLower_canon up s : toLower (canonKey up s) = toLower s.
Proof.
  assert (forall c, lowerAscii (upperAscii c) = lowerAscii c) as HU by (intros c; apply Ascii.eqb_eq; revert c; by_chars).
  revert up. induction s as [|c s IH]; intros up; [done|]. cbn. rewrite IH. destruct up; rewrite ?HU, ?lower_lower; done.
Qed.

Lemma validateMCP_twice `{GoLib} c : stableMCP c -> validateMCP (mcpApplyDefaults (mcpApplyDefaults c)) = validateMCP (mcpApplyDefaults c).
Proof using sha_length sha_bytes.
  intros HS. rewrite (mcpDefaults_twice c HS). destruct (defaults_header c HS) as [HN HT]. destruct (canonical_twice _ HT HN) as (C1 & C2 & C3).
  set (m := mcpApplyDefaults c) in *. clearbody m. unfold validateMCP. cbn [setHeader AuthMode mUsername Credential APIKeyHeader OAuth]. destruct (modeOf _); try done.
  assert (validHTTPHeaderName (trimSpace (CanonicalHeaderKey (APIKeyHeader m))) = validHTTPHeaderName (trimSpace (APIKeyHeader m))) as ->.
  { rewrite C1, HT. unfold validHTTPHeaderName. rewrite !bool_decide_false by done. unfold CanonicalHeaderKey. destruct (allChars headerChar (APIKeyHeader m)) eqn:EC; [|by rewrite EC]. by rewrite canonKey_chars, EC. }
  assert (toLower (CanonicalHeaderKey (APIKeyHeader m)) = toLower (APIKeyHeader m)) as EL by (unfold CanonicalHeaderKey; destruct (allChars _ _); [apply toLower_canon|done]).
  unfold reservedHeader, equalFold. rewrite EL. done.
Qed.

(** *** The whole configuration *)

Definition setMCP (m : MCPConfig) (c : Config) : Config :=
  mkConfig (Mode c) (PSK c) (Tap c) (Mac c) (Addr c) (LogLevel c) (Up c) (Down c) (Encrypt c) (EncAlgo c) (MinEnc c) (PadMode c) (Socks5 c)
    (Brutal c) (BrutalUp c) (BrutalDown c) (TrafficDays c) (TrafficFile c)
    (mkWeb (webAddr (Web c)) (webAuth (Web c)) (webCert (Web c)) (webKey (Web c)) (webBind (Web c)) m) (Server c) (Client c) (SourcePath c) (EncryptPresent c).

Lemma applyDefaults_twice c : applyDefaults (applyDefaults c) = setMCP (mcpApplyDefaults (webMCP (Web (applyDefaults c)))) (applyDefaults c).
Proof.
  unfold applyDefaults, setMCP, isServer, isClient, webDefaults.
  cbn [Mode PSK Tap Mac Addr LogLevel Up Down Encrypt EncAlgo MinEnc PadMode Socks5 Brutal BrutalUp BrutalDown TrafficDays TrafficFile Web Server Client SourcePath EncryptPresent webAddr webAuth webCert webKey webBind webMCP].
  rewrite !orStr_idem, !orNum_idem by done. f_equal.
  - case_bool_decide; [by apply orStr_idem|done].
  - destruct (Encrypt c); [by apply orStr_idem|done].
  - destruct (Encrypt c); [by apply orStr_idem|done].
  - destruct (Z.leb_spec (TrafficDays c) 0); [done|]. destruct (Z.leb_spec (TrafficDays c) 0); [lia|done].
  - case_bool_decide; [|done]. unfold serverDefaults. cbn [V4CIDR V6CIDR srvCert srvKey MaxSessions FecGroupMin FecGroupMax]. by rewrite !orStr_idem, !orNum_idem.
  - case_bool_decide; [|done]. unfold clientDefaults. cbn [InterfaceManager ReqV4 ReqV6 SNI Insecure CertSHA256 Fwmark FwmarkPriority ExtraRoutes SourceRules Conns FEC FecGroup].
    by rewrite !orStr_idem, !orNum_idem.
Qed.

Lemma applyDefaults_thrice c : stableMCP (webMCP (Web c)) -> let d := applyDefaults (applyDefaults c) in applyDefaults d = d.
Proof using sha_length sha_bytes.
  intros HS d. pose proof (mcpDefaults_thrice _ HS) as E.
  assert (applyDefaults d = setMCP (mcpApplyDefaults (webMCP (Web d))) d) as -> by (apply (applyDefaults_twice (applyDefaults c))).
  assert (mcpApplyDefaults (webMCP (Web d)) = webMCP (Web d)) as -> by exact E. clearbody d. by destruct d as [? ? ? ? ? ? ? ? ? ? ? ? ? ? ? ? ? ? []].
Qed.
End Idempotence.

(** ** Routes *)

Section Theorems.
Context `{WebCrypto} `{GoLib}.

Lemma routeOptions_spec fuel dev rest d : (length rest <= fuel)%nat ->
  routeOptions fuel dev rest = Some d <-> (rest = [] /\ d = dev) \/ (dev = ""%string /\ exists e r, rest = "dev"%string :: e :: r /\ routeOptions (fuel - 1) e r = Some d).
Proof.
  intros HL. destruct rest as [|o rest].
  - destruct fuel; cbn; (split; [intros HE; left; by injection HE as ->|intros [[_ ->]|(_ & e & r & ? & _)]; done]).
  - destruct fuel as [|fuel]; [cbn in HL; lia|]. cbn [routeOptions]. rewrite Nat.sub_succ, Nat.sub_0_r. split.
    + case_bool_decide as Eo; [|done]. subst o. cbn [negb]. unfold isEmpty. case_bool_decide as Ed; [|done]. cbn [negb]. destruct rest as [|e r]; [done|]. intros HR. right. split; [done|]. by exists e, r.
    + intros [[? _]|(-> & e & r & E & HR)]; [done|]. injection E as -> ->. by cbn.
Qed.

Lemma words_nonempty s w : w ∈ String.words s -> w <> ""%string.
Proof.
  assert (forall c, String.rev c = ""%string -> c = ""%string) as HR by (intros c E; rewrite <- (rev_rev c), E; done).
  unfold String.words. assert (forall cur, (forall c, cur = Some c -> c <> ""%string) -> w ∈ String.words_go cur s -> w <> ""%string) as HG.
  { induction s as [|a s IH]; intros cur Hc; cbn [String.words_go].
    - destruct cur as [c|]; cbn; [|by intros ?%elem_of_nil]. intros ->%list_elem_of_singleton Hw. by apply (Hc c), HR.
    - destruct (Ascii.is_space a).
      + intros [Hw|Hw]%elem_of_app; [|by apply (IH None)]. destruct cur as [c|]; cbn in Hw; [|by apply elem_of_nil in Hw]. apply list_elem_of_singleton in Hw as ->. intros Hw. by apply (Hc c), HR.
      + apply IH. intros c [= <-]. by destruct cur. }
  apply HG. done.
Qed.

(** The accepted route specifications are exactly a prefix, or a prefix, the word dev
    and a name. *)
Theorem parseRouteSpec_spec (raw prefix dev : string) : parseRouteSpec raw = Some (prefix, dev) <->
  exists p, normalizePrefix p = Some prefix /\
    ((String.words raw = [p] /\ dev = ""%string) \/ (String.words raw = [p; "dev"%string; dev] /\ dev <> ""%string)).
Proof.
  unfold parseRouteSpec. pose proof (words_nonempty raw) as HW. destruct (String.words raw) as [|p rest].
  { split; [done|]. intros (p & _ & [[? _]|[? _]]); done. }
  split.
  - intros HE. apply bind_Some in HE as (q & Hq & HE). apply bind_Some in HE as (d & Hd & HE). injection HE as -> ->. exists p. split; [done|].
    apply routeOptions_spec in Hd as [[-> ->]|(_ & e & r & -> & Hd)]; [by left| |lia]. apply routeOptions_spec in Hd as [[-> ->]|(-> & _)]; [| |cbn; lia].
    + right. split; [done|]. apply HW. set_solver.
    + exfalso. apply (HW ""%string); [set_solver|done].
  - intros (p' & Hp & [[E ->]|[E Hd]]); injection E as -> ->; rewrite Hp; cbn; [done|]. done.
Qed.

(** ** Validated configurations *)

Lemma normalizePrefix_idem raw p : normalizePrefix (trimSpace raw) = Some p -> normalizePrefix (trimSpace p) = Some p.
Proof.
  unfold normalizePrefix. intros HE. assert (ParseCIDR p = true) as HC.
  { destruct (ParseCIDR (trimSpace raw)) eqn:E; [by injection HE as <-|]. destruct (ParseIP (trimSpace raw)) as [ip|] eqn:Ei; [|done]. injection HE as <-. by apply (cidr_host (trimSpace raw)). }
  by rewrite (cidr_plain p HC), HC.
Qed.

Lemma validateRule_idem i r r' : validateRule i r = inr r' -> validateRule i r' = inr r'.
Proof.
  unfold validateRule. destruct (normalizePrefix (trimSpace (From r))) as [p|] eqn:E; [|done]. destruct (reservedTable (Table r)) eqn:ET; [done|]. destruct (badPriority (Priority r)) eqn:EP; [done|].
  destruct (filter _ (Routes r)) eqn:EF; [|done]. intros [= <-]. cbn [From Table Priority Routes]. by rewrite (normalizePrefix_idem _ _ E), ET, EP, EF.
Qed.
Lemma validateRules_idem i rs rs' : validateSourceRules i rs = inr rs' -> validateSourceRules i rs' = inr rs' /\ length rs' = length rs.
Proof.
  revert i rs'. induction rs as [|r rs IH]; intros i rs'; cbn; [by intros [= <-]|]. destruct (validateRule i r) as [|r'] eqn:E; [done|].
  destruct (validateSourceRules (S i) rs) as [|rest] eqn:ER; [done|]. intros [= <-]. destruct (IH _ _ ER) as [E1 E2]. cbn. by rewrite (validateRule_idem _ _ _ E), E1, E2.
Qed.
Lemma validateClient_idem up down c c' : validateClient up down c = inr c' -> exists rs, c' = setRules rs c /\ validateSourceRules 0 (SourceRules c) = inr rs /\ validateClient up down c' = inr c'.
Proof.
  unfold validateClient. destruct (validateSourceRules 0 (SourceRules c)) as [e|rs] eqn:ER; [by repeat (case_match; try done)|]. intros HV. exists rs.
  destruct (validateRules_idem _ _ _ ER) as [ER' EL].
  assert (c' = setRules rs c) as -> by (repeat (case_match; try done); congruence). split; [done|]. split; [done|].
  cbn [setRules InterfaceManager Fwmark ExtraRoutes SourceRules Conns FecGroup FwmarkPriority CertSHA256] in *. rewrite EL, ER'. exact HV.
Qed.

Definition withRules (rs : list SourceRule) (c : Config) : Config := setClient (setRules rs (Client c)) c.

Lemma Validate_parts c c' : Validate c = inr c' ->
  validateCommon c = None /\ (isServer c = true -> validateServer (Server c) = None) /\
  ((isClient c = false /\ c' = c) \/ (isClient c = true /\ exists rs, c' = withRules rs c /\ validateSourceRules 0 (SourceRules (Client c)) = inr rs
      /\ validateClient (Up c) (Down c) (setRules rs (Client c)) = inr (setRules rs (Client c)))).
Proof.
  unfold Validate. destruct (validateCommon c); [done|]. intros HV. split; [done|].
  assert ((if isServer c then validateServer (Server c) else None) = None) as HS by (by destruct (if isServer c then validateServer (Server c) else None)). rewrite HS in HV.
  split; [intros E; by rewrite E in HS|]. destruct (isClient c); [right|left; split; [done|congruence]]. split; [done|].
  destruct (validateClient (Up c) (Down c) (Client c)) as [e|cl] eqn:EV; [done|]. destruct (validateClient_idem _ _ _ _ EV) as (rs & -> & ER & E2). exists rs. split_and!; [|done|done]. by injection HV as <-.
Qed.

Lemma Validate_common c m : validateMCP m = validateMCP (webMCP (Web c)) -> validateCommon (setMCP m c) = validateCommon c.
Proof.
  intros E. unfold validateCommon, isClient, isServer.
  cbn [setMCP Mode PSK Tap Mac Addr LogLevel Up Down Encrypt EncAlgo MinEnc PadMode Socks5 Brutal BrutalUp BrutalDown TrafficDays TrafficFile Web Server Client SourcePath EncryptPresent webAddr webAuth webCert webKey webBind webMCP].
  by rewrite E.
Qed.

Lemma applyDefaults_rules rs c : isClient c = true -> applyDefaults (withRules rs c) = withRules rs (applyDefaults c).
Proof.
  intros HC. unfold applyDefaults, withRules, setClient, isServer, isClient, webDefaults in *.
  cbn [Mode PSK Tap Mac Addr LogLevel Up Down Encrypt EncAlgo MinEnc PadMode Socks5 Brutal BrutalUp BrutalDown TrafficDays TrafficFile Web Server Client SourcePath EncryptPresent]. by rewrite HC.
Qed.

(** A configuration that has passed the validation passes it again, with the defaults
    applied any number of times in between. *)
Lemma validated_settles (Hl : forall s, length (sha256s s) = 32%nat) (Hb : forall s, Forall is_u8 (sha256s s)) c0 c2 :
  stableMCP (webMCP (Web c0)) -> Validate (applyDefaults c0) = inr c2 -> let c3 := applyDefaults c2 in applyDefaults c3 = c3 /\ Validate c3 = inr c3.
Proof.
  intros HS HV c3. set (c1 := applyDefaults c0) in *. destruct (Validate_parts _ _ HV) as (HC & HSv & HM).
  pose proof (applyDefaults_thrice Hl Hb c0 HS) as H3. cbv zeta in H3. fold c1 in H3. pose proof (applyDefaults_twice c0) as H2. fold c1 in H2.
  assert (validateCommon (applyDefaults c1) = None) as HC3 by (rewrite H2, Validate_common; [done|]; exact (validateMCP_twice Hl Hb _ HS)).
  assert (isServer (applyDefaults c1) = true -> validateServer (Server (applyDefaults c1)) = None) as HS3 by (rewrite H2; exact HSv).
  assert (Client (applyDefaults c1) = Client c1) as HCl by (by rewrite H2). assert (isClient (applyDefaults c1) = isClient c1) as HI by done.
  destruct HM as [[HM E]|[HM (rs & E & ER & EV)]]; subst c2 c3.
  - split; [done|]. unfold Validate. rewrite HC3, HI, HM. destruct (isServer (applyDefaults c1)); [by rewrite HS3|done].
  - rewrite (applyDefaults_rules rs c1 HM). split; [by rewrite applyDefaults_rules, H3|]. unfold Validate.
    assert (validateCommon (withRules rs (applyDefaults c1)) = validateCommon (applyDefaults c1)) as -> by reflexivity. rewrite HC3.
    assert (isClient (withRules rs (applyDefaults c1)) = true) as -> by (rewrite <- HM; reflexivity).
    assert ((if isServer (withRules rs (applyDefaults c1)) then validateServer (Server (withRules rs (applyDefaults c1))) else None) = None) as ->.
    { change (isServer (withRules rs (applyDefaults c1))) with (isServer (applyDefaults c1)). destruct (isServer (applyDefaults c1)); [by apply HS3|done]. }
    assert (validateClient (Up (withRules rs (applyDefaults c1))) (Down (withRules rs (applyDefaults c1))) (Client (withRules rs (applyDefaults c1))) = inr (setRules rs (Client c1))) as ->.
    { rewrite <- EV. cbn [withRules setClient Client Up Down]. rewrite HCl. reflexivity. }
    cbn [withRules setClient Client]. rewrite <- HCl. reflexivity.
Qed.

(** *** Nothing else is changed *)

Lemma rules_ints i rules rs : validateSourceRules i rules = inr rs -> Forall ruleInts rules -> Forall ruleInts rs.
Proof.
  intros HE HR. revert i rs HE. induction HR as [|r l Hr _ IH]; intros i rs HE; cbn in HE; [injection HE as <-; constructor|].
  destruct (validateRule i r) as [|r'] eqn:Er; [done|]. destruct (validateSourceRules (S i) l) as [|rest] eqn:El; [done|]. injection HE as <-. constructor; [|by eapply IH].
  unfold validateRule in Er. destruct (normalizePrefix _); [|done]. destruct (reservedTable _); [done|]. destruct (badPriority _); [done|]. destruct (filter _ _); [|done]. by injection Er as <-.
Qed.

Lemma validated_ints c c' : Validate c = inr c' -> configInts c -> configInts c'.
Proof.
  intros HV (H1 & H2 & H3 & H4 & H5). destruct (Validate_parts _ _ HV) as (_ & _ & [[_ ->]|[_ (rs & -> & ER & _)]]); [done|].
  destruct H5 as (? & ? & ? & ? & HR). unfold configInts, clientInts. cbn [withRules setClient setRules BrutalUp BrutalDown TrafficDays Server Client Fwmark FwmarkPriority Conns FecGroup SourceRules]. split_and!; try done. exact (rules_ints _ _ _ ER HR).
Qed.

Lemma validate_present c c' b : Validate c = inr c' -> Validate (setEncrypt (Encrypt c) b c) = inr (setEncrypt (Encrypt c') b c').
Proof.
  unfold Validate. change (validateCommon (setEncrypt (Encrypt c) b c)) with (validateCommon c). destruct (validateCommon c); [done|].
  change (isServer (setEncrypt (Encrypt c) b c)) with (isServer c). change (isClient (setEncrypt (Encrypt c) b c)) with (isClient c). cbn [setEncrypt Server Client Up Down].
  destruct (if isServer c then _ else _); [done|]. destruct (isClient c); [|by intros [= <-]]. destruct (validateClient _ _ _); [done|]. by intros [= <-].
Qed.

Lemma setters_id c : setEncrypt (Encrypt c) (EncryptPresent c) (setSource (SourcePath c) c) = c.
Proof. by destruct c. Qed.

Lemma tmp_differs s : (s +:+ ".tmp")%string <> s.
Proof.
  intros E. apply (f_equal String.length) in E. revert E. induction s as [|c s IH]; [done|]. change (String.length (String c s +:+ ".tmp")) with (S (String.length (s +:+ ".tmp"))). cbn [String.length]. lia.
Qed.

(** What is written is read back. *)
Lemma load_saved c fs : configInts c -> loadConfigFile (SourcePath c) (<[SourcePath c := render (encodeConfig c)]> fs) = Some (setSource "" (setEncrypt (Encrypt c) true c)).
Proof.
  intros HI. assert (encryptOf (encodeConfig c) = Some (JBool (Encrypt c))) as HE.
  { unfold encryptOf, encodeConfig. rewrite fieldsObj_find; [cbn; reflexivity|keys_differ]. }
  unfold loadConfigFile. eapply bind_read; [apply lookup_insert_eq|cbv beta]. eapply bind_read; [apply text_roundtrip|cbv beta iota].
  eapply bind_read; [by apply config_codec|cbv beta]. rewrite HE. reflexivity.
Qed.
End Theorems.

(** C32: A configuration saved from the dashboard is the one the next start runs.  When the
    posted configuration is accepted, then whatever happens to the two file operations:
    if the save succeeds, the next start loads the file, accepts it and runs exactly the
    configuration now in force; if it fails, the file is what it was. *)
Theorem saved_config_restarts `{WebCrypto} `{GoLib} (old new c2 : Config) (posted : text) (j : json) (fs : gmap string text) (okWrite okRename : bool) (partial : option text) :
  (forall s, length (sha256s s) = 32%nat) -> (forall s, Forall is_u8 (sha256s s)) ->
  parseText posted = Some (j, false) -> decodeValue j = Some new -> stableMCP (webMCP (Web new)) ->
  mergeAndValidateConfig old posted = Some (inr c2) ->
  match SaveConfigFile c2 okWrite okRename partial fs with
  | (fs', Some c3) => startConfig (SourcePath old) fs' = Some (inr (setEncrypt (Encrypt c3) true c3))
  | (fs', None) => fs' !! SourcePath old = fs !! SourcePath old
  end.
Proof.
  intros Hl Hb Hp Hd HS HM. assert (mergeAndValidateConfig old posted = Some (Validate (applyDefaults (keepSecrets old new)))) as HM'.
  { unfold mergeAndValidateConfig. eapply bind_read; [exact Hp|cbv beta iota]. eapply bind_read; [exact Hd|reflexivity]. }
  rewrite HM' in HM. injection HM as HV. clear HM'.
  set (c0 := keepSecrets old new) in *. assert (stableMCP (webMCP (Web c0))) as HS0 by exact HS.
  assert (configInts c0) as HI0 by exact (decode_ints _ _ Hd).
  pose proof (defaults_ints _ (validated_ints _ _ HV (defaults_ints _ HI0))) as HI3.
  destruct (validated_settles Hl Hb c0 c2 HS0 HV) as [HA HV3].
  assert (SourcePath c2 = SourcePath old) as HP by (destruct (Validate_parts _ _ HV) as (_ & _ & [[_ ->]|[_ (rs & -> & _)]]); done).
  pose proof (tmp_differs (SourcePath old)) as Ht. unfold SaveConfigFile. destruct (isEmpty (SourcePath c2)); [done|]. set (c3 := applyDefaults c2) in *.
  assert (SourcePath c3 = SourcePath old) as HP3 by exact HP. rewrite HP3.
  destruct okWrite; cbn [negb]; [|destruct partial; [by rewrite lookup_insert_ne|done]]. destruct okRename; cbn [negb]; [|by rewrite lookup_delete_ne].
  unfold startConfig. rewrite <- HP3. eapply bind_read; [by apply load_saved|cbv beta].
  change (applyDefaults (setSource (SourcePath c3) (setSource "" (setEncrypt (Encrypt c3) true c3)))) with (setEncrypt (Encrypt (applyDefaults c3)) true (applyDefaults (setSource (SourcePath c3) c3))).
  assert (setSource (SourcePath c3) c3 = c3) as -> by (by destruct c3). rewrite HA. by rewrite (validate_present c3 c3).
Qed.

(** The form of the dashboard, sent back unchanged, changes nothing: the secrets that it
    does not show are kept. *)
Theorem dashboard_form_keeps_config `{WebCrypto} `{GoLib} (c : Config) : configInts c -> applyDefaults c = c -> Validate c = inr c ->
  mergeAndValidateConfig c (render (encodeConfig (redacted c))) = Some (inr (setEncrypt (Encrypt c) false c)).
Proof.
  intros HI HA HV. unfold mergeAndValidateConfig. eapply bind_read; [apply text_roundtrip|cbv beta iota]. eapply bind_read; [apply config_codec; exact HI|cbv beta iota].
  assert (keepSecrets c (setSource "" (setEncrypt (Encrypt (redacted c)) false (redacted c))) = setEncrypt (Encrypt c) false c) as -> by (by destruct c as [? ? ? ? ? ? ? ? ? ? ? ? ? ? ? ? ? ? []]).
  change (applyDefaults (setEncrypt (Encrypt c) false c)) with (setEncrypt (Encrypt (applyDefaults c)) false (applyDefaults c)). by rewrite HA, (validate_present c c).
Qed.

(** ** Examples *)

(** A small library: a text is its value and whether something follows, an address is
    anything with a dot. *)
#[export, refine] Instance demoLib : GoLib := {
  ParseCIDR s := allChars noSpace s && hasChar 47 s;
  ParseIP s := if allChars noSpace s && hasChar 46 s then Some (mkIP s true (hasPrefix "127." s)) else None;
  SplitHostPort s := Some ("127.0.0.1", "8080")%string;
  parseURL s := None;
  levelOk s := oneOf s ["debug"; "info"; "warn"; "error"]%string;
  text := json * bool;
  parseText t := Some t;
  render j := (j, false)
}.
Proof.
  - intros s ip. destruct (allChars noSpace s && hasChar 46 s) eqn:E; [|done]. intros [= <-]. cbn [ipText hostBits ip4]. apply andb_true_iff in E as [E _].
    unfold hasChar. rewrite !allChars_append, E. cbn. by rewrite andb_false_r.
  - intros s E. apply andb_true_iff in E as [E _]. by apply trimSpace_none.
  - done.
Defined.

Definition demoPosted (mode addr : string) (fs : list (string * json)) : json :=
  JObj (("mode"%string, JStr mode) :: ("addr"%string, JStr addr) :: ("encrypt"%string, JBool true) :: fs).
Definition demoOldConfig : Config :=
  applyDefaults (mkConfig "client" "correct horse" "" "" "203.0.113.10:4000" "" "" "" true "" "" "" "" false 0 0 0 "" (mkWeb "127.0.0.1:8080" "admin:pw" "" "" "" (mkMCP "" "" "" "" (mkOAuth "" "" "" "" [] [])))
    (mkServerCfg "" "" "" "" 0 0 0) (mkClientCfg "" "" "" "" false "" 0 0 [] [] 0 false 0) "/etc/tlsvpn.json" true).

Definition demoClientPart : json :=
  JObj [("conns", JNum 4); ("fec", JBool true); ("source_rules", JArr [JObj [("from", JStr "10.9.0.2"); ("table", JNum 100)]])]%string.
Definition demoPost : text := (demoPosted "client" "203.0.113.11:4000" [("client", demoClientPart)]%string, false).
Definition demoNew : Config := match decodeValue (demoPosted "client" "203.0.113.11:4000" [("client", demoClientPart)]%string) with Some c => c | None => demoOldConfig end.
Definition demoAccepted : Config := match mergeAndValidateConfig demoOldConfig demoPost with Some (inr c) => c | _ => demoOldConfig end.

Lemma saved_config_restarts_witness :
  match SaveConfigFile demoAccepted true true None ∅ with
  | (fs', Some c3) => startConfig (SourcePath demoOldConfig) fs' = Some (inr (setEncrypt (Encrypt c3) true c3))
  | (fs', None) => fs' !! SourcePath demoOldConfig = None
  end /\ From <$> SourceRules (Client demoAccepted) = ["10.9.0.2/32"%string].
Proof.
  split; [|vm_compute; reflexivity].
  refine (saved_config_restarts demoOldConfig demoNew demoAccepted demoPost (demoPosted "client" "203.0.113.11:4000" [("client", demoClientPart)]%string) ∅ true true None _ _ _ _ _ _).
  - exact demo_sha_length.
  - exact demo_sha_bytes.
  - reflexivity.
  - vm_compute; reflexivity.
  - split_and!; [left; vm_compute; reflexivity|vm_compute; reflexivity|vm_compute; constructor].
  - vm_compute; reflexivity.
Defined.

Lemma dashboard_form_keeps_config_witness : mergeAndValidateConfig (applyDefaults demoAccepted) (render (encodeConfig (redacted (applyDefaults demoAccepted)))) = Some (inr (setEncrypt true false (applyDefaults demoAccepted))).
Proof.
  refine (dashboard_form_keeps_config (applyDefaults demoAccepted) _ _ _).
  - unfold configInts, serverInts, clientInts, ruleInts, isInt, is_u64. apply (bool_decide_unpack _). vm_compute. exact I.
  - vm_compute; reflexivity.
  - vm_compute; reflexivity.
Defined.

(** *** What the code does not do *)

(** A file with something behind its value: the probe fails, and encryption that is not
    mentioned stays off. *)
Lemma trailing_text_disables_encryption :
  let j := JObj [("mode", JStr "client"); ("psk", JStr "correct horse"); ("addr", JStr "203.0.113.10:4000")]%string in
  Encrypt <$> loadConfigFile "a" {["a"%string := (j, true)]} = Some false /\ Encrypt <$> loadConfigFile "a" {["a"%string := (j, false)]} = Some true.
Proof. by vm_compute. Qed.

(** A posted configuration may name the other mode, and then a running server gets the
    zero values of the server section. *)
Lemma posted_mode_switches :
  let server := applyDefaults (mkConfig "server" "correct horse" "" "" "" "" "" "" true "" "" "" "" false 0 0 0 "" (Web demoOldConfig) (Server demoOldConfig) (Client demoOldConfig) "/etc/tlsvpn.json" true) in
  match Validate server, mergeAndValidateConfig server (demoPosted "client" "203.0.113.11:4000" [], false) with
  | inr old, Some (inr new) => Mode old = "server"%string /\ Mode new = "client"%string /\ FecGroupMax (Server old) = 64 /\ FecGroupMax (Server new) = 0
  | _, _ => False
  end.
Proof. by vm_compute. Qed.

(** A fingerprint of any 64 characters passes. *)
Lemma cert_fingerprint_not_hex :
  let c := mkClientCfg "self" "" "" "" false "zzzzzzzzzzzzzzzzzzzzzzzzzzzzzzzzzzzzzzzzzzzzzzzzzzzzzzzzzzzzzzzz" 0 0 [] [] 1 false 4 in validateClient "" "" c = inr c.
Proof. by vm_compute. Qed.

(** The default header is respelled by the second application of the defaults. *)
Lemma default_header_respelled : APIKeyHeader (webMCP (Web demoOldConfig)) = "X-API-Key"%string /\ APIKeyHeader (webMCP (Web (applyDefaults demoOldConfig))) = "X-Api-Key"%string.
Proof. by vm_compute. Qed.
