(* ===== verification/Startup.v ===== *)
(** * From the configuration to the running program (config.go, crypto.go, client.go, server.go)

    What a validated configuration guarantees to the components: the parameters that
    the server and the client take from it, at the start and when it is changed while
    they run, satisfy what the theorems on sessions and handshakes ask for. *)

From stdpp Require Import base tactics list numbers gmap strings sorting.
From S2P Require Import Prelude Aead FecControl Ident Session SesTypes Client Brutal Traffic Web Config.
#[local] Open Scope Z_scope.

(** ** Parameters *)

Definition encAlgoFromConfig (mode : string) : Z :=
  let m := toLower (trimSpace mode) in
  if bool_decide (m = "gcm128"%string) then encAlgoGCM128 else if bool_decide (m = "chacha20"%string) then encAlgoChaCha20 else
  if bool_decide (m = "xchacha20"%string) then encAlgoXChaCha20 else encAlgoGCM.

Definition minEncNone : Z := 0.
Definition minEncGCM : Z := 1.
Definition minEncRank (mode : string) : Z := if equalFold (trimSpace mode) "gcm" then minEncGCM else minEncNone.

(** The part of liveFromCfg that the handshake uses; [addr] reads a requested address. *)
Definition liveFromCfg (addr : string -> option Z) (c : Config) : liveConfig :=
  mkLive (PSK c) (addr (ReqV4 (Config.Client c))) (addr (ReqV6 (Config.Client c))) (FEC (Config.Client c)) (FecGroup (Config.Client c))
    (Encrypt c) (encAlgoFromConfig (EncAlgo c)) (minEncRank (MinEnc c)) (Conns (Config.Client c)).

(** startServer and ApplyConfig take the same fields. *)
Definition startServer (n4 n6 : ipNet) (c : Config) : Session.Server :=
  newServer (PSK c) (Encrypt c) (encAlgoFromConfig (EncAlgo c)) (minEncRank (MinEnc c)) (MaxSessions (Config.Server c)) (FecGroupMin (Config.Server c)) (FecGroupMax (Config.Server c)) n4 n6.
Definition applyOp (c : Config) : svOp :=
  SConfig (PSK c) (Encrypt c) (encAlgoFromConfig (EncAlgo c)) (minEncRank (MinEnc c)) (MaxSessions (Config.Server c)) (FecGroupMin (Config.Server c)) (FecGroupMax (Config.Server c)).

(** ** Restarts *)

Definition differs (a b : string) : bool := negb (bool_decide (a = b)).
Definition serverNeedsRestart (o c : Config) : list string :=
  (if differs (Tap o) (Tap c) then ["tap"%string] else []) ++ (if differs (Mac o) (Mac c) then ["mac"%string] else []) ++
  (if differs (V4CIDR (Config.Server o)) (V4CIDR (Config.Server c)) || differs (V6CIDR (Config.Server o)) (V6CIDR (Config.Server c)) then ["server.v4_cidr/v6_cidr"%string] else []) ++
  (if differs (srvCert (Config.Server o)) (srvCert (Config.Server c)) || differs (srvKey (Config.Server o)) (srvKey (Config.Server c)) then ["server.cert/key"%string] else []) ++
  (if differs (PSK o) (PSK c) then ["psk"%string] else []) ++ (if negb (Bool.eqb (Encrypt o) (Encrypt c)) then ["encrypt"%string] else []) ++
  (if differs (EncAlgo o) (EncAlgo c) then ["enc_algo"%string] else []) ++
  (if negb (Conns (Config.Client o) =? Conns (Config.Client c)) then ["client.conns"%string] else []) ++
  (if differs (Socks5 o) (Socks5 c) then ["socks5"%string] else []) ++
  (if differs (Config.Up o) (Config.Up c) || differs (Config.Down o) (Config.Down c) then ["up/down"%string] else []).
Definition clientNeedsRestart (o c : Config) : list string :=
  (if differs (Tap o) (Tap c) then ["tap"%string] else []) ++ (if differs (Mac o) (Mac c) then ["mac"%string] else []) ++
  (if differs (Socks5 o) (Socks5 c) then ["socks5"%string] else []) ++
  (if negb (Fwmark (Config.Client o) =? Fwmark (Config.Client c)) then ["client.fwmark"%string] else []) ++
  (if negb (Conns (Config.Client o) =? Conns (Config.Client c)) then ["client.conns"%string] else []) ++
  (if differs (Config.Up o) (Config.Up c) || differs (Config.Down o) (Config.Down c) then ["up/down"%string] else []) ++
  (if differs (InterfaceManager (Config.Client o)) (InterfaceManager (Config.Client c)) then ["client.interface_manager"%string] else []).

(** ** What the validation gives *)

Section Facts.
Context `{WebCrypto} `{GoLib}.

Lemma isEmpty_false s : isEmpty s = false -> s <> ""%string.
Proof. unfold isEmpty. by case_bool_decide. Qed.

(** The checks that passed, one after the other. *)
Ltac passed H := repeat match type of H with
  | (if ?b then Some _ else _) = None => let E := fresh "E" in destruct b eqn:E; [done|]
  | (match ?o with Some _ => Some _ | None => _ end) = None => let E := fresh "E" in destruct o eqn:E; [done|]
  end.

Record accepted (c : Config) : Prop := {
  ac_mode : isServer c = true \/ isClient c = true;
  ac_psk : trimSpace (PSK c) <> ""%string /\ toLower (trimSpace (PSK c)) ∉ pskPlaceholders;
  ac_brutal : BrutalUp c <= maxBrutalRateMbps /\ BrutalDown c <= maxBrutalRateMbps;
  ac_days : 1 <= TrafficDays c <= maxTrafficDays;
  ac_algo : EncAlgo c ∈ [""; "gcm256"; "gcm128"; "chacha20"; "xchacha20"]%string;
  ac_minenc : MinEnc c ∈ [""; "any"; "gcm"]%string /\ (MinEnc c = "gcm"%string -> Encrypt c = true);
  ac_web : webAddr (Config.Web c) <> ""%string -> webAuth (Config.Web c) <> ""%string /\
    (webBind (Config.Web c) = "all"%string -> webAddrIsPublic (webAddr (Config.Web c)) = true -> webCert (Config.Web c) <> ""%string /\ webKey (Config.Web c) <> ""%string);
  ac_server : isServer c = true -> 0 <= MaxSessions (Config.Server c) <= 2 ^ 20 /\ fecMinGroup <= FecGroupMin (Config.Server c) <= FecGroupMax (Config.Server c) /\ FecGroupMax (Config.Server c) <= fecMaxGroup;
  ac_client : isClient c = true -> 1 <= Conns (Config.Client c) <= 65536 /\ fecMinGroup <= FecGroup (Config.Client c) <= fecMaxGroup
}.

Lemma Validate_accepted c c' : Validate c = inr c' -> accepted c'.
Proof.
  intros HV. destruct (Validate_parts _ _ HV) as (HC & HS & HM). assert (accepted c) as HA.
  { unfold validateCommon in HC. passed HC.
    repeat match goal with E : _ || _ = false |- _ => apply orb_false_iff in E as [] | E : (_ <? _) = false |- _ => apply Z.ltb_ge in E end.
    split.
    - destruct (isServer c); [by left|]. destruct (isClient c); [by right|done].
    - split; [by apply isEmpty_false|]. unfold oneOf in *. match goal with E : bool_decide (toLower _ ∈ _) = false |- _ => by apply bool_decide_eq_false in E end.
    - done.
    - done.
    - unfold oneOf in *. match goal with E : negb (bool_decide (EncAlgo c ∈ _)) = false |- _ => apply negb_false_iff, bool_decide_eq_true in E; exact E end.
    - split.
      + unfold oneOf in *. match goal with E : negb (bool_decide (MinEnc c ∈ [_; _; _])) = false |- _ => apply negb_false_iff, bool_decide_eq_true in E; exact E end.
      + intros Em. rewrite Em in *. by destruct (Encrypt c).
    - intros Hne. assert (isEmpty (webAddr (Config.Web c)) = false) as Ew by (unfold isEmpty; by rewrite bool_decide_false). rewrite Ew in *. cbn [negb andb] in *. split; [by apply isEmpty_false|].
      intros Hb Hp. rewrite Hb, Hp in *. cbn [andb] in *. match goal with E : bool_decide _ && true && _ = false |- _ => rewrite bool_decide_true in E by done; cbn [andb] in E; apply orb_false_iff in E as [E1 E2] end.
      split; by apply isEmpty_false.
    - intros Es. specialize (HS Es). unfold validateServer in HS. passed HS.
      repeat match goal with E : _ || _ = false |- _ => apply orb_false_iff in E as [] | E : (_ <? _) = false |- _ => apply Z.ltb_ge in E end. lia.
    - intros Ec. rewrite Ec in *. cbn [andb] in *.
      repeat match goal with E : (_ <? _) = false |- _ => apply Z.ltb_ge in E end.
      destruct HM as [[? _]|[_ (rs & _ & _ & HR)]]; [congruence|]. unfold validateClient in HR.
      cbn [setRules InterfaceManager Fwmark ExtraRoutes SourceRules Conns FecGroup FwmarkPriority CertSHA256] in HR.
      repeat match type of HR with (if ?b then inl _ else _) = inr _ => let E := fresh "E" in destruct b eqn:E; [done|] end.
      repeat match goal with E : _ || _ = false |- _ => apply orb_false_iff in E as [] | E : (_ <? _) = false |- _ => apply Z.ltb_ge in E end. lia. }
  destruct HM as [[_ ->]|[_ (rs & -> & _)]]; [done|]. by destruct HA.
Qed.

(** Every accepted name is a cipher. *)
Lemma algo_is_cipher a : isInnerAEADAlgo (encAlgoFromConfig a) = true.
Proof. unfold encAlgoFromConfig. repeat case_bool_decide; reflexivity. Qed.

Lemma min_needs_encryption c : accepted c -> 0 < minEncRank (MinEnc c) -> Encrypt c = true.
Proof.
  intros HA Hr. destruct (ac_minenc c HA) as [HM HE]. apply HE. rewrite !elem_of_cons, elem_of_nil in HM. destruct HM as [E|[E|[E|[]]]]; [| |done]; rewrite E in Hr; vm_compute in Hr; done.
Qed.

Lemma sized_configOk c : fecMinGroup <= FecGroupMin (Config.Server c) -> FecGroupMax (Config.Server c) <= fecMaxGroup -> configOk (applyOp c).
Proof. intros H1 H2. split; [intros _; apply algo_is_cipher|by split]. Qed.

Lemma accepted_configOk c : accepted c -> isServer c = true -> configOk (applyOp c) /\ (forall n4 n6, cfgTyped (snapOf (startServer n4 n6 c))).
Proof.
  intros HA Hs. destruct (ac_server c HA Hs) as (_ & HF & HF').
  split; [|intros n4 n6]; (split; [intros _; apply algo_is_cipher|cbn; lia]).
Qed.
End Facts.

(** ** The program under validated configurations *)

(** What happens to a server: its operations, with the configuration changes that the
    dashboard lets through.  A configuration of client mode passes validation with its
    server section unchecked and is applied all the same; of those, the ones whose
    group sizes are in range. *)
Inductive runOp := RunOp (op : svOp) | RunConfig (c : Config).
Definition runOps (ops : list runOp) : list svOp := (fun o => match o with RunOp op => op | RunConfig c => applyOp c end) <$> ops.
Definition runAllowed `{WebCrypto} `{GoLib} (o : runOp) : Prop :=
  match o with
  | RunOp (SConfig _ _ _ _ _ _ _) => False
  | RunOp op => configOk op
  | RunConfig c => (exists d, Validate d = inr c) /\
      (isServer c = true \/ fecMinGroup <= FecGroupMin (Config.Server c) /\ FecGroupMax (Config.Server c) <= fecMaxGroup)
  end.

(** C33: A validated configuration keeps its promises to the components.  A server that
    is started from one has at all times sessions of the types that the handshake relies
    on, while its configuration is changed to other validated ones, of server mode, or of
    client mode with FEC group sizes between 2 and 64 in the server section (validation
    does not look at that section in client mode); a client started from one asks for a
    cipher that exists, for the minimum it configured only with encryption, for a group
    of 2 to 64 and for 1 to 65536 connections; and an enabled dashboard has a
    credential, and TLS if it listens to the world. *)
Theorem validated_config_ready `{WebCrypto} `{GoLib} (sha256 : bytes -> bytes) (deriveID : bytes -> string -> string)
    (n4 n6 : ipNet) (addr : string -> option Z) (d c : Config) (ops : list runOp) :
  Validate d = inr c -> Forall runAllowed ops ->
  (isServer c = true -> forall id s, activeClients (srv (svExec sha256 deriveID (runOps ops) (world0 (startServer n4 n6 c)))) !! id = Some s -> ses_typed id s) /\
  (isClient c = true -> let lv := liveFromCfg addr c in
     isInnerAEADAlgo (lEncAlgo lv) = true /\ (0 < lMinEnc lv -> lEncrypt lv = true) /\ fecMinGroup <= lFecGroup lv <= fecMaxGroup /\ 1 <= lConns lv <= 65536) /\
  (webAddr (Config.Web c) <> ""%string -> webAuth (Config.Web c) <> ""%string /\
     (webBind (Config.Web c) = "all"%string -> webAddrIsPublic (webAddr (Config.Web c)) = true -> webCert (Config.Web c) <> ""%string)).
Proof.
  intros HV HF. pose proof (Validate_accepted _ _ HV) as HA. split_and!.
  - intros Hs id s. apply typed_exec; [apply each_new; by apply accepted_configOk|]. unfold runOps. apply Forall_fmap. eapply Forall_impl; [exact HF|].
    intros [op|c']; cbn; [by destruct op|]. intros [[d' HV'] [Hs'|[H1 H2]]]; [|by apply sized_configOk]. apply accepted_configOk; [by eapply Validate_accepted|done].
  - intros Hc lv. destruct (ac_client c HA Hc) as [H1 H2]. split_and!; [apply algo_is_cipher|by apply min_needs_encryption|apply H2..|apply H1|apply H1].
  - intros Hw. destruct (ac_web c HA Hw) as [H1 H2]. split; [done|]. intros Hb Hp. by apply H2.
Qed.

Definition demoServerConfig : Config :=
  applyDefaults (mkConfig "server" "correct horse" "" "" "" "" "" "" true "chacha20" "" "" "" false 0 0 0 "" (Config.Web demoOldConfig) (Config.Server demoOldConfig) (Config.Client demoOldConfig) "" true).

Lemma validated_config_ready_witness :
  Validate demoServerConfig = inr demoServerConfig /\
  isServer demoServerConfig = true /\
  webAuth (Config.Web demoServerConfig) <> ""%string.
Proof.
  assert (Validate demoServerConfig = inr demoServerConfig) as HV by (vm_compute; reflexivity). split; [exact HV|]. split; [vm_compute; reflexivity|].
  destruct (validated_config_ready (fun s => s) (fun _ s => s) (mkNet 167772160 256) (mkNet 0 256) (fun _ => None) demoServerConfig demoServerConfig
    [RunConfig demoServerConfig; RunOp (SKick 1 "x")] HV) as (_ & _ & HW).
  - constructor; [split; [by exists demoServerConfig|left; vm_compute; reflexivity]|]. constructor; [done|constructor].
  - by apply HW.
Defined.

(** ** Restarts *)

Lemma if_nil (b : bool) (x : string) l : (if b then [x] else []) ++ l = [] -> b = false /\ l = [].
Proof. by destruct b. Qed.
Lemma differs_false a b : differs a b = false -> a = b.
Proof. unfold differs. by case_bool_decide. Qed.

(** When the server reports nothing to restart for, the fields that it reads only at its
    start are those it was started with, with one exception: the address it listens on. *)
Theorem server_restart_complete (o c : Config) : serverNeedsRestart o c = [] ->
  Tap o = Tap c /\ Mac o = Mac c /\ V4CIDR (Config.Server o) = V4CIDR (Config.Server c) /\ V6CIDR (Config.Server o) = V6CIDR (Config.Server c) /\
  srvCert (Config.Server o) = srvCert (Config.Server c) /\ srvKey (Config.Server o) = srvKey (Config.Server c) /\ Config.Up o = Config.Up c /\ Config.Down o = Config.Down c /\
  PSK o = PSK c /\ Encrypt o = Encrypt c /\ EncAlgo o = EncAlgo c.
Proof.
  unfold serverNeedsRestart. intros HR. rewrite <- (app_nil_r (if differs (Config.Up o) _ || _ then _ else _)) in HR.
  repeat (apply if_nil in HR as [? HR]). repeat match goal with E : _ || _ = false |- _ => apply orb_false_iff in E as [] | E : differs _ _ = false |- _ => apply differs_false in E end.
  split_and!; try done. match goal with E : negb (Bool.eqb (Encrypt o) _) = false |- _ => by apply negb_false_iff, Bool.eqb_prop in E end.
Qed.

Definition setAddr (a : string) (c : Config) : Config :=
  mkConfig (Mode c) (PSK c) (Tap c) (Mac c) a (LogLevel c) (Config.Up c) (Config.Down c) (Encrypt c) (EncAlgo c) (MinEnc c) (PadMode c) (Socks5 c)
    (Config.Brutal c) (BrutalUp c) (BrutalDown c) (TrafficDays c) (TrafficFile c) (Config.Web c) (Config.Server c) (Config.Client c) (SourcePath c) (EncryptPresent c).

(** The address is neither applied nor reported. *)
Lemma listen_address_not_reported (a : string) (c : Config) : serverNeedsRestart c (setAddr a c) = [] /\ applyOp (setAddr a c) = applyOp c.
Proof.
  split; [|done]. unfold serverNeedsRestart, setAddr, differs. cbn [Tap Mac Config.Server PSK Encrypt EncAlgo Config.Client Socks5 Config.Up Config.Down].
  rewrite !bool_decide_true, Bool.eqb_reflx, Z.eqb_refl by done. done.
Qed.
