(* ===== verification/Policy.v ===== *)
(** * Policy routing (net_linux.go, client.go)

    The rules and routes that a client puts into the kernel for its firewall mark and
    its source rules, the record it keeps of them, and their removal at the end of the
    process.  The kernel is a class: its rule table with the documented effect of adding
    and deleting a rule; routes are calls that do not touch the rules. *)

From stdpp Require Import base tactics list numbers gmap strings sorting.
From S2P Require Import Prelude Web Config.
#[local] Open Scope Z_scope.

(** ** The kernel *)

Record krule := mkKRule { rV6 : bool; rMark : Z; rSrc : option string; rTable : Z; rPrio : Z }.
#[export] Instance krule_eq : EqDecision krule.
Proof. solve_decision. Defined.
Record kroute := mkRoute { rtLink : Z; rtDst : option string; rtGw : option string; rtTable : Z; rtV6 : bool }.

Definition withPrio (p : Z) (r : krule) : krule := mkKRule (rV6 r) (rMark r) (rSrc r) (rTable r) p.

(** A rule is added with a priority or with none, when the kernel chooses one; a rule
    that is there can be deleted. *)
Class Netlink (K : Type) := {
  rules : K -> list krule;
  RuleAdd : krule -> option Z -> K -> K * bool;
  RuleDel : krule -> K -> K * bool;
  RouteReplace : kroute -> K -> K * bool;
  RouteDel : kroute -> K -> K * bool;
  LinkByName : string -> K -> option Z;
  ParseIPNet : string -> option (bool * string);    (* is it IPv6, and its text *)
  validIP : string -> bool;
  add_effect : forall r p k, let '(k', ok) := RuleAdd r p k in
    if ok then exists q, default q p = q /\ rules k' ≡ₚ withPrio q r :: rules k else rules k' = rules k;
  del_effect : forall r k, r ∈ rules k -> exists k', RuleDel r k = (k', true) /\ rules k ≡ₚ r :: rules k';
  replace_keeps : forall x k, rules (RouteReplace x k).1 = rules k;
  delete_keeps : forall x k, rules (RouteDel x k).1 = rules k
}.

Section Policy.
Context `{WebCrypto} `{GoLib} {K : Type} `{Netlink K}.

Definition RuleList (v6 : bool) (k : K) : list krule := filter (fun r => rV6 r = v6) (rules k).

Record policyRoutingSpec := mkSpec { mark : Z; priority : Z; gwV4 : string; gwV6 : string; extra : list string; sourceRules : list SourceRule }.

Definition specEmpty (s : policyRoutingSpec) : bool := (mark s <=? 0) && (length (sourceRules s) =? 0)%nat.

(** A kernel state and the errors so far. *)
Definition kst : Type := K * nat.
Definition fails (st : kst) : kst := (st.1, S st.2).
Definition attempt (f : K -> K * bool) (st : kst) : kst := let '(k, ok) := f st.1 in (k, if ok then st.2 else S st.2).

(** ** Removal *)

(** Deletes the rules of a listing that match. *)
Fixpoint delRules (m : krule -> bool) (l : list krule) (st : kst) : kst :=
  match l with [] => st | r :: l => delRules m l (if m r then attempt (RuleDel r) st else st) end.

Definition markMatches (mk : Z) (r : krule) : bool := (rMark r =? u32 mk) && (rTable r =? mk).
Definition removePolicyRules (mk : Z) (st : kst) : kst :=
  if mk <=? 0 then st else
  let st := delRules (markMatches mk) (RuleList false st.1) st in delRules (markMatches mk) (RuleList true st.1) st.

Definition srcMatches (sr : SourceRule) (txt : string) (r : krule) : bool := (rTable r =? Table sr) && bool_decide (rSrc r = Some txt).
Definition removeSourceRule (sr : SourceRule) (st : kst) : kst :=
  match ParseIPNet (From sr) with
  | None => fails st
  | Some (v6, txt) => delRules (srcMatches sr txt) (RuleList v6 st.1) st
  end.
Definition removeSourceRules (rs : list SourceRule) (st : kst) : kst := fold_left (fun st r => removeSourceRule r st) rs st.

(** ** Installation *)

Definition parsePolicyRoute (link table : Z) (raw : string) (k : K) : option kroute :=
  '(prefix, dev) ← parseRouteSpec raw;
  idx ← (if isEmpty dev then Some link else LinkByName dev k);
  '(v6, txt) ← ParseIPNet prefix;
  Some (mkRoute idx (Some txt) None table v6).

Definition addMarkRule (s : policyRoutingSpec) (v6 : bool) (st : kst) : kst :=
  attempt (RuleAdd (mkKRule v6 (u32 (mark s)) None (mark s) 0) (if priority s =? 0 then None else Some (priority s))) st.

Definition replaceDefault (link : Z) (s : policyRoutingSpec) (gw : string) (v6 : bool) (st : kst) : kst :=
  if isEmpty gw then st else if negb (validIP gw) then fails st else
  attempt (RouteReplace (mkRoute link None (Some gw) (mark s) v6)) (addMarkRule s v6 st).

Definition extraRoute (link : Z) (s : policyRoutingSpec) (raw : string) (st : kst) : kst :=
  match parsePolicyRoute link (mark s) raw st.1 with
  | None => fails st
  | Some rt => attempt (RouteReplace rt) (addMarkRule s (rtV6 rt) st)
  end.

Definition setupFwmarkRoutes (link : Z) (s : policyRoutingSpec) (st : kst) : kst :=
  if mark s <=? 0 then st else
  fold_left (fun st raw => extraRoute link s raw st) (extra s) (replaceDefault link s (gwV6 s) true (replaceDefault link s (gwV4 s) false st)).

Definition tableRoute (link table : Z) (raw : string) (st : kst) : kst :=
  match parsePolicyRoute link table raw st.1 with None => fails st | Some rt => attempt (RouteReplace rt) st end.

Definition setupSourceRule (link : Z) (s : policyRoutingSpec) (sr : SourceRule) (st : kst) : kst :=
  match ParseIPNet (From sr) with
  | None => fails st
  | Some (v6, txt) =>
    let gw := if v6 then gwV6 s else gwV4 s in
    if isEmpty gw then fails st else if negb (validIP gw) then fails st else
    match RuleAdd (mkKRule v6 0 (Some txt) (Table sr) 0) (if 0 <? Priority sr then Some (Priority sr) else None) st.1 with
    | (k, false) => (k, S st.2)
    | (k, true) =>
      fold_left (fun st raw => tableRoute link (Table sr) raw st) (Routes sr) (attempt (RouteReplace (mkRoute link None (Some gw) (Table sr) v6)) (k, st.2))
    end
  end.
Definition setupSourceRuleRoutes (link : Z) (s : policyRoutingSpec) (st : kst) : kst := fold_left (fun st r => setupSourceRule link s r st) (sourceRules s) st.

(** The result is the kernel and whether it went without an error. *)
Definition setupPolicyRouting (tap : string) (s : policyRoutingSpec) (k : K) : K * bool :=
  if specEmpty s then (k, true) else
  match LinkByName tap k with
  | None => (k, false)
  | Some link =>
    let st := removePolicyRules (mark s) (k, 0%nat) in
    if negb (st.2 =? 0)%nat then (st.1, false) else
    let st := removeSourceRules (sourceRules s) st in
    if negb (st.2 =? 0)%nat then (st.1, false) else
    let st := setupSourceRuleRoutes link s (setupFwmarkRoutes link s st) in (st.1, (st.2 =? 0)%nat)
  end.

Definition delDefault (link table : Z) (gw : string) (v6 : bool) (k : K) : K :=
  if isEmpty gw then k else if negb (validIP gw) then k else (RouteDel (mkRoute link None (Some gw) table v6) k).1.
Definition delExtra (link table : Z) (raw : string) (k : K) : K :=
  match parsePolicyRoute link table raw k with None => k | Some rt => (RouteDel rt k).1 end.

Definition cleanPolicyRouting (tap : string) (s : policyRoutingSpec) (k : K) : K :=
  if specEmpty s then k else
  match LinkByName tap k with
  | None => k
  | Some link =>
    let k := (removePolicyRules (mark s) (k, 0%nat)).1 in
    let k := (removeSourceRules (sourceRules s) (k, 0%nat)).1 in
    let k := delDefault link (mark s) (gwV6 s) true (delDefault link (mark s) (gwV4 s) false k) in
    let k := fold_left (fun k raw => delExtra link (mark s) raw k) (extra s) k in
    fold_left (fun k sr =>
      fold_left (fun k raw => delExtra link (Table sr) raw k) (Routes sr) (delDefault link (Table sr) (gwV6 s) true (delDefault link (Table sr) (gwV4 s) false k)))
      (sourceRules s) k
  end.

(** ** The record of the client *)

Record prState := mkPr { prMark : Z; prGwV4 : string; prGwV6 : string; prExtra : list string; prSrc : list SourceRule; prInstalled : list policyRoutingSpec; prOK : bool }.
Definition pr0 : prState := mkPr 0 "" "" [] [] [] false.

Definition sameRule (x y : SourceRule) : bool :=
  bool_decide (From x = From y) && (Table x =? Table y) && (Priority x =? Priority y) && bool_decide (Routes x = Routes y).
Fixpoint sameRules (a b : list SourceRule) : bool := match a, b with [], [] => true | x :: a, y :: b => sameRule x y && sameRules a b | _, _ => false end.
Definition samePolicySpec (a b : policyRoutingSpec) : bool := (mark a =? mark b) && bool_decide (extra a = extra b) && sameRules (sourceRules a) (sourceRules b).
Definition containsPolicySpec (l : list policyRoutingSpec) (s : policyRoutingSpec) : bool := existsb (fun x => samePolicySpec x s) l.
Definition mergePolicySpecs (dst src : list policyRoutingSpec) : list policyRoutingSpec :=
  fold_left (fun dst s => if specEmpty s || containsPolicySpec dst s then dst else dst ++ [s]) src dst.

(** The priority is not part of what is kept. *)
Definition installedSpecFor (c : prState) : option policyRoutingSpec :=
  if (prMark c <=? 0) && (length (prSrc c) =? 0)%nat then None else Some (mkSpec (prMark c) 0 (prGwV4 c) (prGwV6 c) (prExtra c) (prSrc c)).

Definition installPolicyRouting (tap : string) (s : policyRoutingSpec) (cs : prState * K) : prState * K :=
  let '(c, k) := cs in
  let again := match installedSpecFor c with Some o => if samePolicySpec o s then Some (mkSpec (mark o) (priority o) (gwV4 s) (gwV6 s) (extra o) (sourceRules o)) else None | None => None end in
  let inst := match again with Some o => prInstalled c ++ [o] | None => prInstalled c end in
  let inst := if containsPolicySpec inst s then inst else inst ++ [s] in
  let k := match again with Some o => cleanPolicyRouting tap o k | None => k end in
  let '(k, ok) := setupPolicyRouting tap s k in
  (mkPr (mark s) (gwV4 s) (gwV6 s) (extra s) (sourceRules s) inst ok, k).

(** The end of Run: [live] is the specification of the configuration then in force. *)
Definition exitPolicyRouting (tap : string) (live : policyRoutingSpec) (cs : prState * K) : K :=
  let '(c, k) := cs in
  let inst := match installedSpecFor c with Some o => prInstalled c ++ [o] | None => prInstalled c end in
  fold_left (fun k s => cleanPolicyRouting tap s k) (mergePolicySpecs inst [live]) k.

(** ** What belongs to a specification *)

Definition ruleOf (sr : SourceRule) (r : krule) : bool :=
  match ParseIPNet (From sr) with Some (v6, txt) => Bool.eqb (rV6 r) v6 && srcMatches sr txt r | None => false end.
Definition ownRule (s : policyRoutingSpec) (r : krule) : bool := ((0 <? mark s) && markMatches (mark s) r) || existsb (fun sr => ruleOf sr r) (sourceRules s).
Definition foreign (S : list policyRoutingSpec) (k : K) : list krule := filter (fun r => existsb (fun s => ownRule s r) S = false) (rules k).

Lemma delRules_spec m l st rest : rules st.1 ≡ₚ l ++ rest -> rules (delRules m l st).1 ≡ₚ filter (fun r => m r = false) l ++ rest /\ (delRules m l st).2 = st.2.
Proof.
  revert st rest. induction l as [|r l IH]; intros st rest HP; [done|]. cbn [delRules]. destruct (m r) eqn:Em.
  - rewrite filter_cons_False by (rewrite Em; done). destruct (del_effect r st.1) as (k' & ED & HD); [rewrite HP; by left|]. unfold attempt. rewrite ED. cbn [fst snd]. apply (IH (k', st.2)).
    cbn [fst]. rewrite HP in HD. by apply Permutation_cons_inv in HD.
  - rewrite filter_cons_True by done. destruct (IH st (r :: rest)) as [HA HB]; [by rewrite HP, <- Permutation_middle|]. split; [|done]. rewrite HA; cbn; by rewrite <- Permutation_middle.
Qed.

Lemma delFamily m v6 st : rules (delRules m (RuleList v6 st.1) st).1 ≡ₚ filter (fun r => (Bool.eqb (rV6 r) v6 && m r) = false) (rules st.1) /\ (delRules m (RuleList v6 st.1) st).2 = st.2.
Proof.
  destruct (delRules_spec m (RuleList v6 st.1) st (filter (fun r => rV6 r <> v6) (rules st.1))) as [HA HB]; [|split; [|done]].
  - unfold RuleList. clear. induction (rules st.1) as [|r l IH]; [done|]. rewrite !filter_cons. destruct (decide (rV6 r = v6)) as [E|E].
    + rewrite decide_False by auto. cbn. by constructor.
    + rewrite decide_True by done. rewrite <- Permutation_middle. by constructor.
  - rewrite HA. unfold RuleList. clear. induction (rules st.1) as [|r l IH]; [done|]. rewrite !(filter_cons _ r). destruct (decide (rV6 r = v6)) as [E|E].
    + rewrite (decide_False (P := rV6 r <> v6)) by auto. subst v6. rewrite Bool.eqb_reflx. cbn [andb]. rewrite filter_cons. destruct (decide (m r = false)); [cbn; by constructor|done].
    + rewrite (decide_True (P := rV6 r <> v6)) by done. assert (Bool.eqb (rV6 r) v6 = false) as -> by (by apply Bool.eqb_false_iff). cbn [andb]. rewrite decide_True by done.
      rewrite <- Permutation_middle. by constructor.
Qed.

(** Filters over predicates. *)
Lemma filter_twice (m n : krule -> bool) (l : list krule) : filter (fun r => n r = false) (filter (fun r => m r = false) l) = filter (fun r => m r || n r = false) l.
Proof.
  induction l as [|r l IH]; [done|]. rewrite !(filter_cons _ r). destruct (m r) eqn:Em; cbn [orb].
  - rewrite (decide_False (P := true = false)) by done. done.
  - rewrite (decide_True (P := false = false)) by done. rewrite filter_cons. by destruct (decide (n r = false)); rewrite IH.
Qed.
Lemma filter_same (m n : krule -> bool) (l : list krule) : (forall r, m r = n r) -> filter (fun r => m r = false) l = filter (fun r => n r = false) l.
Proof. intros HE. induction l as [|r l IH]; [done|]. rewrite !(filter_cons _ r), IH, HE. done. Qed.

Lemma removePolicyRules_spec mk st : rules (removePolicyRules mk st).1 ≡ₚ filter (fun r => (0 <? mk) && markMatches mk r = false) (rules st.1) /\ (removePolicyRules mk st).2 = st.2.
Proof.
  unfold removePolicyRules. destruct (Z.leb_spec mk 0) as [L|L].
  - assert ((0 <? mk) = false) as -> by lia. split; [|done]. rewrite filter_all; [done|]. by apply Forall_forall.
  - assert ((0 <? mk) = true) as -> by lia. cbn [andb]. destruct (delFamily (markMatches mk) false st) as [HA HB]. set (st1 := delRules _ _ st) in *. clearbody st1.
    destruct (delFamily (markMatches mk) true st1) as [HC HD]. split; [|congruence]. rewrite HC, HA, filter_twice. rewrite (filter_same _ (markMatches mk)); [done|].
    intros r. by destruct (rV6 r), (markMatches mk r).
Qed.

Lemma removeSourceRules_spec rs st : rules (removeSourceRules rs st).1 ≡ₚ filter (fun r => existsb (fun sr => ruleOf sr r) rs = false) (rules st.1).
Proof.
  unfold removeSourceRules. revert st. induction rs as [|sr rs IH]; intros st; cbn [fold_left existsb]; [rewrite filter_all; [done|by apply Forall_forall]|].
  rewrite IH, <- filter_twice. apply filter_Permutation. unfold removeSourceRule, ruleOf. destruct (ParseIPNet (From sr)) as [[v6 txt]|].
  - apply delFamily.
  - rewrite filter_all; [done|by apply Forall_forall].
Qed.

(** *** Cleaning takes exactly the own rules *)

Lemma route_folds {A} (f : K -> A -> K) (l : list A) k : (forall k a, rules (f k a) = rules k) -> rules (fold_left f l k) = rules k.
Proof. intros HF. revert k. induction l as [|a l IH]; intros k; [done|]. cbn. by rewrite IH, HF. Qed.
Lemma delDefault_rules link t gw v6 k : rules (delDefault link t gw v6 k) = rules k.
Proof. unfold delDefault. destruct (isEmpty gw), (validIP gw); cbn [negb]; try done. apply delete_keeps. Qed.
Lemma delExtra_rules link t raw k : rules (delExtra link t raw k) = rules k.
Proof. unfold delExtra. destruct (parsePolicyRoute link t raw k); [apply delete_keeps|done]. Qed.

Lemma clean_spec tap s k : is_Some (LinkByName tap k) -> rules (cleanPolicyRouting tap s k) ≡ₚ filter (fun r => ownRule s r = false) (rules k).
Proof.
  intros [link HL]. unfold cleanPolicyRouting, specEmpty. rewrite HL. destruct (Z.leb_spec (mark s) 0) as [L|L], (Nat.eqb_spec (length (sourceRules s)) 0) as [E|E]; cbn [andb].
  1: { unfold ownRule. assert ((0 <? mark s) = false) as -> by lia. destruct (sourceRules s); [|done]. cbn [andb orb existsb]. rewrite filter_all; [done|by apply Forall_forall]. }
  all: rewrite route_folds; [|intros k' sr; rewrite route_folds, !delDefault_rules; [done|]; intros k'' raw; apply delExtra_rules].
  all: rewrite route_folds, !delDefault_rules by (intros k' raw; apply delExtra_rules).
  all: rewrite removeSourceRules_spec; cbn [fst]; rewrite (proj1 (removePolicyRules_spec _ _)), filter_twice; done.
Qed.

(** *** Installing adds only own rules *)

(** Rules for which [P] does not hold stay as they are. *)
Definition keeps (P : krule -> bool) (k k' : K) : Prop := filter (fun r => P r = false) (rules k') ≡ₚ filter (fun r => P r = false) (rules k).
Lemma foreign_trans P a b c : keeps P a b -> keeps P b c -> keeps P a c.
Proof. unfold keeps. intros HA HB. by rewrite HB, HA. Qed.
Lemma foreign_rules P a b : rules b = rules a -> keeps P a b.
Proof. unfold keeps. by intros ->. Qed.
Lemma foreign_removed P m a b : (forall r, m r = true -> P r = true) -> rules b ≡ₚ filter (fun r => m r = false) (rules a) -> keeps P a b.
Proof.
  unfold keeps. intros HM ->. rewrite filter_twice. rewrite (filter_same _ P); [done|]. intros r. specialize (HM r). destruct (m r); [by rewrite HM|done].
Qed.

Section Adding.
Context (P : krule -> bool).
Lemma add_foreign r p (st : kst) : (forall q, P (withPrio q r) = true) -> keeps P st.1 (RuleAdd r p st.1).1.
Proof.
  intros HP. pose proof (add_effect r p st.1) as HA. destruct (RuleAdd r p st.1) as [k' ok]. cbn [fst]. unfold keeps. destruct ok; [|by rewrite HA].
  destruct HA as (q & _ & ->). rewrite filter_cons_False; [done|]. by rewrite HP.
Qed.
Lemma attempt_fst (f : K -> K * bool) st : (attempt f st).1 = (f st.1).1.
Proof. unfold attempt. by destruct (f st.1). Qed.
Lemma fold_foreign {A} (f : kst -> A -> kst) (l : list A) st : (forall st a, a ∈ l -> keeps P st.1 (f st a).1) -> keeps P st.1 (fold_left f l st).1.
Proof.
  revert st. induction l as [|a l IH]; intros st HF; [by apply foreign_rules|]. cbn. eapply foreign_trans; [apply HF; by left|]. apply IH. intros. apply HF. by right.
Qed.

Context (s : policyRoutingSpec) (own : forall r, ownRule s r = true -> P r = true).

Lemma setup_foreign tap k : keeps P k (setupPolicyRouting tap s k).1.
Proof using own.
  unfold setupPolicyRouting. destruct (specEmpty s); [by apply foreign_rules|]. destruct (LinkByName tap k) as [link|]; [|by apply foreign_rules].
  assert (keeps P k (removePolicyRules (mark s) (k, 0%nat)).1) as H1'.
  { eapply foreign_removed; [|apply removePolicyRules_spec]. intros r Hr. apply own. unfold ownRule. by rewrite Hr. }
  destruct (negb _); [done|]. set (st1 := removePolicyRules (mark s) (k, 0%nat)) in *. clearbody st1.
  assert (keeps P k (removeSourceRules (sourceRules s) st1).1) as H2'.
  { eapply foreign_trans; [exact H1'|]. eapply foreign_removed; [|apply removeSourceRules_spec]. intros r Hr. apply own. unfold ownRule. by rewrite Hr, orb_true_r. }
  destruct (negb _); [done|]. set (st2 := removeSourceRules (sourceRules s) st1) in *. clearbody st2. cbn [fst].
  assert (0 < mark s -> forall v6 st, keeps P st.1 (addMarkRule s v6 st).1) as Hadd.
  { intros Hm v6 st. unfold addMarkRule. rewrite attempt_fst. apply add_foreign. intros q. apply own. unfold ownRule, markMatches. cbn. rewrite !Z.eqb_refl. by assert ((0 <? mark s) = true) as -> by lia. }
  assert (forall x st, keeps P st.1 (attempt (RouteReplace x) st).1) as Hroute by (intros x st; rewrite attempt_fst; apply foreign_rules, replace_keeps).
  assert (keeps P st2.1 (setupFwmarkRoutes link s st2).1) as H3'.
  { unfold setupFwmarkRoutes. destruct (Z.leb_spec (mark s) 0) as [L|L]; [by apply foreign_rules|].
    assert (forall gw v6 st, keeps P st.1 (replaceDefault link s gw v6 st).1) as Hd.
    { intros gw v6 st. unfold replaceDefault. destruct (isEmpty gw); [by apply foreign_rules|]. destruct (negb _); [by apply foreign_rules|]. eapply foreign_trans; [by apply Hadd|apply Hroute]. }
    eapply foreign_trans; [eapply foreign_trans; [apply (Hd (gwV4 s) false)|apply (Hd (gwV6 s) true)]|]. apply fold_foreign. intros st raw _. unfold extraRoute.
    destruct (parsePolicyRoute _ _ _ _) as [rt|]; [|by apply foreign_rules]. eapply foreign_trans; [by apply Hadd|apply Hroute]. }
  eapply foreign_trans; [exact H2'|]. eapply foreign_trans; [exact H3'|]. apply fold_foreign. intros st sr Hsr. unfold setupSourceRule.
  destruct (ParseIPNet (From sr)) as [[v6 txt]|] eqn:EP; [|by apply foreign_rules]. destruct (isEmpty _); [by apply foreign_rules|]. destruct (negb _); [by apply foreign_rules|].
  pose proof (add_foreign (mkKRule v6 0 (Some txt) (Table sr) 0) (if 0 <? Priority sr then Some (Priority sr) else None) st) as Ha.
  destruct (RuleAdd _ _ st.1) as [k' ok]. cbn [fst] in Ha. assert (keeps P st.1 k') as Hk.
  { apply Ha. intros q. apply own. unfold ownRule. apply orb_true_iff. right. apply existsb_exists. exists sr. split; [by apply list_elem_of_In|].
    unfold ruleOf. rewrite EP. unfold srcMatches. cbn. by rewrite Bool.eqb_reflx, Z.eqb_refl, bool_decide_true. }
  destruct ok; [|done]. eapply foreign_trans; [exact Hk|]. eapply foreign_trans; [apply (Hroute (mkRoute link None (Some (if v6 then gwV6 s else gwV4 s)) (Table sr) v6) (k', st.2))|]. apply fold_foreign. intros st' raw _. unfold tableRoute.
  destruct (parsePolicyRoute _ _ _ _); [apply Hroute|by apply foreign_rules].
Qed.
End Adding.

(** *** The record covers what is installed *)

Definition sameOwn (a b : policyRoutingSpec) : Prop := forall r, ownRule a r = ownRule b r.

Lemma sameRules_own a b r : sameRules a b = true -> existsb (fun sr => ruleOf sr r) a = existsb (fun sr => ruleOf sr r) b.
Proof.
  revert b. induction a as [|x a IH]; intros [|y b]; try done. cbn. rewrite andb_true_iff. intros [HR HS]. rewrite (IH b HS). f_equal.
  unfold sameRule in HR. rewrite !andb_true_iff in HR. destruct HR as [[[HF HT] _] _]. apply bool_decide_eq_true in HF. apply Z.eqb_eq in HT. unfold ruleOf, srcMatches. by rewrite HF, HT.
Qed.
Lemma same_own a b : samePolicySpec a b = true -> sameOwn a b.
Proof.
  unfold samePolicySpec. rewrite !andb_true_iff. intros [[HM _] HS] r. apply Z.eqb_eq in HM. unfold ownRule. by rewrite HM, (sameRules_own _ _ r HS).
Qed.
Lemma contains_own l s : containsPolicySpec l s = true -> exists x, x ∈ l /\ sameOwn x s.
Proof. unfold containsPolicySpec. rewrite existsb_exists. intros (x & Hx & HS). exists x. split; [by apply list_elem_of_In|by apply same_own]. Qed.

Record pr_ok (S : list policyRoutingSpec) (c : prState) : Prop := {
  po_known : forall x, x ∈ prInstalled c -> exists s, s ∈ S /\ sameOwn x s;
  po_all : forall s, s ∈ S -> exists x, x ∈ prInstalled c /\ sameOwn x s;
  po_now : forall o, installedSpecFor c = Some o -> exists s, s ∈ S /\ sameOwn o s
}.

Definition ownAny (S : list policyRoutingSpec) (r : krule) : bool := existsb (fun s => ownRule s r) S.
Lemma ownAny_in S s r : s ∈ S -> ownRule s r = true -> ownAny S r = true.
Proof. intros Hs Hr. unfold ownAny. apply existsb_exists. exists s. split; [by apply list_elem_of_In|done]. Qed.

Lemma install_step tap S s c k T : (forall k, is_Some (LinkByName tap k)) -> pr_ok S c -> s ∈ T -> (forall x, x ∈ S -> x ∈ T) ->
  let '(c', k') := installPolicyRouting tap s (c, k) in pr_ok (S ++ [s]) c' /\ keeps (ownAny T) k k'.
Proof.
  intros HL [PK PA PN] HsT HST. unfold installPolicyRouting.
  set (again := match installedSpecFor c with Some o => if samePolicySpec o s then _ else None | None => None end).
  assert (forall o, again = Some o -> sameOwn o s) as Hag.
  { subst again. destruct (installedSpecFor c) as [o|]; [|done]. destruct (samePolicySpec o s) eqn:E; [|done]. intros o' [= <-]. intros r. rewrite <- (same_own _ _ E r). done. }
  set (inst := match again with Some o => prInstalled c ++ [o] | None => prInstalled c end).
  assert (forall x, x ∈ inst -> exists t, t ∈ S ++ [s] /\ sameOwn x t) as HI.
  { intros x Hx. subst inst. destruct again as [o|]; [apply elem_of_app in Hx as [Hx|Hx%list_elem_of_singleton]|].
    - destruct (PK x Hx) as (t & ? & ?). exists t. split; [apply elem_of_app; by left|done].
    - subst x. exists s. split; [apply elem_of_app; right; by apply list_elem_of_singleton|by apply Hag].
    - destruct (PK x Hx) as (t & ? & ?). exists t. split; [apply elem_of_app; by left|done]. }
  assert (forall x, x ∈ prInstalled c -> x ∈ inst) as HI' by (intros x Hx; subst inst; destruct again; [apply elem_of_app; by left|done]).
  set (inst' := if containsPolicySpec inst s then inst else inst ++ [s]).
  assert (exists x, x ∈ inst' /\ sameOwn x s) as HN.
  { subst inst'. destruct (containsPolicySpec inst s) eqn:E; [by apply contains_own|]. exists s. split; [apply elem_of_app; right; by apply list_elem_of_singleton|done]. }
  set (k1 := match again with Some o => cleanPolicyRouting tap o k | None => k end).
  assert (keeps (ownAny T) k k1) as HK1.
  { subst k1. destruct again as [o|]; [|by apply foreign_rules]. eapply foreign_removed; [|apply clean_spec, HL]. intros r Hr. apply (ownAny_in _ s); [done|]. by rewrite <- (Hag o eq_refl r). }
  pose proof (setup_foreign (ownAny T) s (fun r Hr => ownAny_in T s r HsT Hr) tap k1) as HK2. destruct (setupPolicyRouting tap s k1) as [k2 ok]. cbn [fst] in HK2.
  split; [|by eapply foreign_trans]. clearbody inst. split; cbn [prInstalled].
  - intros x Hx. subst inst'. destruct (containsPolicySpec inst s); [by apply HI|]. apply elem_of_app in Hx as [Hx|Hx%list_elem_of_singleton]; [by apply HI|].
    subst x. exists s. split; [apply elem_of_app; right; by apply list_elem_of_singleton|done].
  - intros t [Ht|Ht%list_elem_of_singleton]%elem_of_app; [|by subst t]. destruct (PA t Ht) as (x & Hx & HS). exists x. split; [|done]. subst inst'.
    destruct (containsPolicySpec inst s); [by apply HI'|]. apply elem_of_app. left. by apply HI'.
  - intros o Ho. exists s. split; [apply elem_of_app; right; by apply list_elem_of_singleton|]. unfold installedSpecFor in Ho. cbn in Ho. destruct (_ && _); [done|]. by injection Ho as <-.
Qed.

Lemma install_all tap S specs c k T : (forall k, is_Some (LinkByName tap k)) -> pr_ok S c -> (forall x, x ∈ S ++ specs -> x ∈ T) ->
  let '(c', k') := fold_left (fun cs s => installPolicyRouting tap s cs) specs (c, k) in pr_ok (S ++ specs) c' /\ keeps (ownAny T) k k'.
Proof.
  intros HL. revert S c k. induction specs as [|s specs IH]; intros S c k HP HT; cbn [fold_left]; [rewrite app_nil_r; split; [done|by apply foreign_rules]|].
  pose proof (install_step tap S s c k T HL HP) as HS. destruct (installPolicyRouting tap s (c, k)) as [c1 k1]. destruct HS as [HP1 HK1].
  { apply HT. apply elem_of_app. right. by left. }
  { intros x Hx. apply HT. apply elem_of_app. by left. }
  specialize (IH (S ++ [s]) c1 k1 HP1). rewrite <- app_assoc in IH. cbn [app] in IH. specialize (IH HT).
  destruct (fold_left _ specs (c1, k1)) as [c2 k2]. destruct IH as [HP2 HK2]. split; [done|by eapply foreign_trans].
Qed.

Lemma clean_all tap specs k : (forall k, is_Some (LinkByName tap k)) ->
  rules (fold_left (fun k s => cleanPolicyRouting tap s k) specs k) ≡ₚ filter (fun r => ownAny specs r = false) (rules k).
Proof.
  intros HL. revert k. induction specs as [|s specs IH]; intros k; cbn [fold_left]; [rewrite filter_all; [done|by apply Forall_forall]|].
  rewrite IH, (clean_spec tap s k (HL k)), filter_twice. done.
Qed.

Lemma ownAny_cover S C r : (forall x, x ∈ C -> exists s, s ∈ S /\ sameOwn x s) -> (forall s, s ∈ S -> exists x, x ∈ C /\ sameOwn x s) -> ownAny C r = ownAny S r.
Proof.
  intros H1' H2'. apply Bool.eq_true_iff_eq. unfold ownAny. rewrite !existsb_exists. split; intros (x & Hx & Hr); apply list_elem_of_In in Hx.
  - destruct (H1' x Hx) as (s & Hs & HE). exists s. split; [by apply list_elem_of_In|]. by rewrite <- HE.
  - destruct (H2' x Hx) as (y & Hy & HE). exists y. split; [by apply list_elem_of_In|]. by rewrite HE.
Qed.

Lemma specEmpty_own s r : specEmpty s = true -> ownRule s r = false.
Proof.
  unfold specEmpty, ownRule. rewrite andb_true_iff, Z.leb_le, Nat.eqb_eq. intros [HM HS]. assert ((0 <? mark s) = false) as -> by lia. by destruct (sourceRules s).
Qed.

End Policy.

(** C34: Policy routing leaves nothing behind and takes nothing that is not its own.
    Whatever specifications a client installs one after the other, changed marks, rules,
    priorities and gateways included, and whether or not the installations succeed: at
    the end of the process the rules of the kernel are those from before the first
    installation, less the ones that carry the mark and table or the source and table of
    one of the specifications. *)
Theorem policy_rules_cleaned `{WebCrypto} `{GoLib} {K : Type} `{Netlink K} (tap : string) (specs : list policyRoutingSpec) (live : policyRoutingSpec) (k0 : K) :
  (forall k : K, is_Some (LinkByName tap k)) ->
  rules (exitPolicyRouting tap live (fold_left (fun cs s => installPolicyRouting tap s cs) specs (pr0, k0))) ≡ₚ foreign (live :: specs) k0.
Proof.
  intros HL. pose proof (install_all tap [] specs pr0 k0 (live :: specs) HL) as HI. destruct (fold_left _ specs (pr0, k0)) as [c k]. destruct HI as [[PK PA PN] HK].
  { split; cbn; try done; intros s Hs; by apply elem_of_nil in Hs. }
  { intros x Hx. by right. }
  cbn [app] in PK, PA, PN. unfold exitPolicyRouting. rewrite clean_all by done. unfold foreign. fold (ownAny (live :: specs)).
  set (inst := match installedSpecFor c with Some o => prInstalled c ++ [o] | None => prInstalled c end).
  assert (forall x, x ∈ inst -> exists s, s ∈ specs /\ sameOwn x s) as QK.
  { intros x Hx. subst inst. destruct (installedSpecFor c) as [o|]; [apply elem_of_app in Hx as [Hx|Hx%list_elem_of_singleton]; [by apply PK|subst x; by apply PN]|by apply PK]. }
  assert (forall s, s ∈ specs -> exists x, x ∈ inst /\ sameOwn x s) as QA.
  { intros s Hs. destruct (PA s Hs) as (x & Hx & HE). exists x. split; [|done]. subst inst. destruct (installedSpecFor c); [apply elem_of_app; by left|done]. }
  assert (forall r, ownAny (mergePolicySpecs inst [live]) r = ownAny (live :: specs) r) as HE.
  { intros r. assert (ownAny inst r = ownAny specs r) as HI by (by apply ownAny_cover). unfold mergePolicySpecs. cbn [fold_left].
    change (ownAny (live :: specs) r) with (ownRule live r || ownAny specs r). destruct (specEmpty live) eqn:EE; cbn [orb]; [by rewrite (specEmpty_own live r EE)|].
    destruct (containsPolicySpec inst live) eqn:EC.
    - destruct (contains_own _ _ EC) as (x & Hx & HO). rewrite <- HI. destruct (ownRule live r) eqn:EO; [|done]. cbn [orb]. apply (ownAny_in _ x); [done|by rewrite HO].
    - unfold ownAny in *. rewrite existsb_app, HI. cbn. by rewrite orb_false_r, orb_comm. }
  rewrite (filter_same _ _ _ HE). exact HK.
Qed.

(** ** A kernel *)

(** A rule table that refuses a rule that is already there and numbers downwards from
    32766 when no priority is given. *)
Definition freePrio (l : list krule) : Z := 32766 - Z.of_nat (length l) - 1.
Definition demoAdd (r : krule) (p : option Z) (l : list krule) : list krule * bool :=
  let r' := withPrio (default (freePrio l) p) r in if bool_decide (r' ∈ l) then (l, false) else (r' :: l, true).
Fixpoint removeOne (r : krule) (l : list krule) : list krule := match l with [] => [] | x :: l => if bool_decide (x = r) then l else x :: removeOne r l end.
Lemma removeOne_perm r l : r ∈ l -> l ≡ₚ r :: removeOne r l.
Proof.
  induction l as [|x l IH]; [by intros ?%elem_of_nil|]. intros Hx. cbn. case_bool_decide as E; [by subst|]. apply elem_of_cons in Hx as [Hx|Hx]; [done|].
  rewrite (IH Hx) at 1. apply Permutation_swap.
Qed.
#[export, refine] Instance demoNetlink : Netlink (list krule) := {
  rules l := l;
  RuleAdd := demoAdd;
  RuleDel r l := if bool_decide (r ∈ l) then (removeOne r l, true) else (l, false);
  RouteReplace _ l := (l, true);
  RouteDel _ l := (l, true);
  LinkByName _ _ := Some 7;
  ParseIPNet s := if hasChar 47 s then Some (hasChar 58 s, s) else None;
  validIP _ := true
}.
Proof.
  - intros r p k. unfold demoAdd. case_bool_decide; [done|]. exists (default (freePrio k) p). split; [by destruct p|done].
  - intros r k Hr. rewrite bool_decide_true by done. exists (removeOne r k). split; [done|by apply removeOne_perm].
  - done.
  - done.
Defined.

Definition foreignRule : krule := mkKRule false 1 None 254 100.
Definition demoSpec (m p : Z) (extra : list string) : policyRoutingSpec :=
  mkSpec m p "10.0.0.1" "fd00::1" extra [mkRule "192.0.2.0/24" 100 0 ["198.51.100.0/24"%string]].

Lemma policy_rules_cleaned_witness :
  rules (exitPolicyRouting "tap0" (demoSpec 77 0 []) (fold_left (fun cs s => installPolicyRouting "tap0" s cs) [demoSpec 77 0 []; demoSpec 77 5 []; demoSpec 78 0 ["203.0.113.0/24"%string]] (pr0, [foreignRule])))
  ≡ₚ [foreignRule].
Proof.
  refine (policy_rules_cleaned "tap0" [demoSpec 77 0 []; demoSpec 77 5 []; demoSpec 78 0 ["203.0.113.0/24"%string]] (demoSpec 77 0 []) [foreignRule] _).
  intros k. by eexists.
Defined.

(** *** What the code does not do *)

(** With a priority set, a gateway and an extra route of the same family: the rule is
    added twice, the second time it is there, and the installation counts as failed. *)
Lemma extra_route_repeats_rule :
  let s p := mkSpec 77 p "10.0.0.1" "" ["203.0.113.0/24"%string] [] in
  (setupPolicyRouting "tap0" (s 0) ([] : list krule)).2 = true /\ (setupPolicyRouting "tap0" (s 1000) ([] : list krule)).2 = false.
Proof. by vm_compute. Qed.

(** Every repeated installation of one specification adds an entry to the record. *)
Lemma record_grows :
  (fun n => length (prInstalled (fold_left (fun cs s => installPolicyRouting "tap0" s cs) (replicate n (demoSpec 77 0 [])) (pr0, [] : list krule)).1)) <$> [1; 2; 10]%nat = [1; 2; 10]%nat.
Proof. by vm_compute. Qed.
