(* ===== verification/Listeners.v ===== *)
(** * The listeners of the dashboard (web.go)

    WebManager keeps the sockets of the dashboard in line with the configuration and the
    addresses of the tunnel: every two seconds rebindIfNeeded compares what is open with
    what is wanted.  Sockets are numbered; what the system says to a bind, whether the
    certificate pair loads, the clock and the addresses are arguments of a round.  The
    configuration is read twice in a round, so a round has two of them. *)

From stdpp Require Import base tactics list numbers gmap strings pretty sorting.
From S2P Require Import Prelude Ident Web Config.
#[local] Open Scope Z_scope.

Record listenSpec := mkSpec { lip : string; lport : Z }.
#[export] Instance listenSpec_eq : EqDecision listenSpec.
Proof. solve_decision. Defined.
Definition key (s : listenSpec) : string := lip s +:+ "|" +:+ pretty (lport s).

(** [wtls]: the certificate of the listener, none for a plain one. *)
Record webListener := mkWL { wspec : listenSpec; wsock : nat; wtls : option nat }.

Record WebManager := mkWM {
  listeners : list webListener;
  wmStamp : string;                       (* cfgStamp *)
  lastWarn : string; lastWarnAt : Z;      (* milliseconds *)
  sockets : gmap nat listenSpec;          (* the process's listening sockets *)
  nextSock : nat
}.
Definition NewWebManager : WebManager := mkWM [] "" "" 0 ∅ 0.

(** strconv.Atoi of an int: an optional sign and decimal digits, within 64 bits. *)
Definition digitVal (c : Ascii.ascii) : option Z :=
  let n := Z.of_nat (Ascii.nat_of_ascii c) in if (48 <=? n) && (n <=? 57) then Some (n - 48) else None.
Fixpoint digits (acc : Z) (s : string) : option Z :=
  match s with EmptyString => Some acc | String c s => d ← digitVal c; digits (acc * 10 + d) s end.
Definition Atoi (s : string) : option Z :=
  let '(neg, body) := match s with
    | String c r => if (Ascii.nat_of_ascii c =? 45)%nat then (true, r) else if (Ascii.nat_of_ascii c =? 43)%nat then (false, r) else (false, s)
    | EmptyString => (false, s) end in
  if isEmpty body then None else
  n ← digits 0 body; let n := if neg then - n else n in
  if (- 2 ^ 63 <=? n) && (n <? 2 ^ 63) then Some n else None.

Section Manager.
Context `{GoLib}.

Definition webPort (addr : string) : Z :=
  match SplitHostPort addr with
  | None => 8080
  | Some (_, port) => match Atoi port with None => 8080 | Some p => if (p <=? 0) || (65535 <? p) then 8080 else p end
  end.

Definition tunnelBind (c : WebConfig) : bool := bool_decide (webBind c = "tunnel"%string).
Definition unbracket : string -> string := trimSet [91; 93]%nat.

(** The specs for the addresses [ips] of this end, both families. *)
Definition currentSpecs (ips : list string) (c : WebConfig) : list listenSpec :=
  let port := webPort (webAddr c) in
  if negb (tunnelBind c) then
    [mkSpec (unbracket (match SplitHostPort (webAddr c) with None => "" | Some (host, _) => host end)) port]
  else omap (fun ip => let ip := unbracket ip in
    if isEmpty ip then None else match ParseIP ip with None => None | Some _ => Some (mkSpec ip port) end) ips.

Definition cfgStamp (c : WebConfig) : string :=
  (webBind c +:+ "##" +:+ webCert c +:+ "##" +:+ webKey c +:+ "##" +:+ pretty (webPort (webAddr c)))%string.

(** loadWebTLS, given what LoadX509KeyPair says. *)
Definition loadWebTLS (pair : option nat) (c : WebConfig) : option (option nat) :=
  if isEmpty (webCert c) || isEmpty (webKey c) then Some None else Some <$> pair.

Definition onceWarn (now : Z) (k : string) (w : WebManager) : bool * WebManager :=
  if bool_decide (k = lastWarn w) && (now - lastWarnAt w <? 30000) then (false, w)
  else (true, mkWM (listeners w) (wmStamp w) k now (sockets w) (nextSock w)).

Definition closeAll (ls : list webListener) (m : gmap nat listenSpec) : gmap nat listenSpec := fold_left (fun m l => delete (wsock l) m) ls m.

Inductive webLog := WTLSFailed | WListening (s : listenSpec) | WListenFailed (failed : list string).

(** net.Listen: refused while the process itself listens there, else as the system says. *)
Definition netListen (says : listenSpec -> option string) (sp : listenSpec) (m : gmap nat listenSpec) : option string :=
  if existsb (fun x => bool_decide (x.2 = sp)) (map_to_list m) then Some "address already in use"%string else says sp.

(** The loop over the missing specs: state, failures, logs. *)
Definition openOne (says : listenSpec -> option string) (tls : option nat) (st : WebManager * list string * list webLog) (sp : listenSpec) : WebManager * list string * list webLog :=
  let '(w, failed, logs) := st in
  match netListen says sp (sockets w) with
  | Some err => (w, failed ++ [key sp +:+ ": " +:+ err]%string, logs)
  | None => (mkWM (listeners w ++ [mkWL sp (nextSock w) tls]) (wmStamp w) (lastWarn w) (lastWarnAt w) (<[nextSock w := sp]> (sockets w)) (S (nextSock w)), failed, logs ++ [WListening sp])
  end.

Definition wanted (specs : list listenSpec) (l : webListener) : bool := existsb (fun sp => bool_decide (key sp = key (wspec l))) specs.
Definition missing (specs : list listenSpec) (ls : list webListener) : list listenSpec :=
  filter (fun sp => existsb (fun l => bool_decide (key (wspec l) = key sp)) ls = false) specs.

(** What a round meets: the two reads of the configuration, the addresses, the pair,
    the system and the clock. *)
Record webRound := mkRound { rcfg : WebConfig; rcfg2 : WebConfig; rips : list string; rpair : option nat; rsays : listenSpec -> option string; rnow : Z }.

Definition restamp (c : WebConfig) (w : WebManager) : WebManager :=
  if bool_decide (cfgStamp c = wmStamp w) then w
  else mkWM [] (cfgStamp c) (lastWarn w) (lastWarnAt w) (closeAll (listeners w) (sockets w)) (nextSock w).
Definition prune (specs : list listenSpec) (w : WebManager) : WebManager :=
  mkWM (List.filter (wanted specs) (listeners w)) (wmStamp w) (lastWarn w) (lastWarnAt w)
    (closeAll (List.filter (fun l => negb (wanted specs l)) (listeners w)) (sockets w)) (nextSock w).

Definition rebindIfNeeded (r : webRound) (w : WebManager) : WebManager * list webLog :=
  let c := rcfg r in
  let specs := currentSpecs (rips r) (rcfg2 r) in
  match (match specs with [] => Some None | _ => loadWebTLS (rpair r) c end) with
  | None => let '(b, w) := onceWarn (rnow r) ("tls|" +:+ webCert c +:+ "|" +:+ webKey c)%string w in (w, if b then [WTLSFailed] else [])
  | Some tls =>
    let w := restamp c w in
    match specs with
    | [] => (w, [])
    | _ =>
      let w := prune specs w in
      let '(w, failed, logs) := fold_left (openOne (rsays r) tls) (missing specs (listeners w)) (w, [], []) in
      match failed with
      | [] => (w, logs)
      | _ => let '(b, w) := onceWarn (rnow r) ("listen|" +:+ String.concat "|" failed)%string w in (w, if b then logs ++ [WListenFailed failed] else logs)
      end
    end
  end.

Definition runRounds (rs : list webRound) (w : WebManager) : WebManager := fold_left (fun w r => (rebindIfNeeded r w).1) rs w.

(** ** Sockets *)

(** Open sockets are the listeners', each once. *)
Record sock_ok (w : WebManager) : Prop := {
  sk_socks : forall n sp, sockets w !! n = Some sp <-> exists l, l ∈ listeners w /\ wsock l = n /\ wspec l = sp;
  sk_distinct : NoDup (wsock <$> listeners w);
  sk_fresh : Forall (fun l => (wsock l < nextSock w)%nat) (listeners w);
  sk_keys : NoDup ((fun l => key (wspec l)) <$> listeners w)
}.

Lemma closeAll_lookup ls m n : closeAll ls m !! n = if decide (n ∈ wsock <$> ls) then None else m !! n.
Proof.
  revert m. induction ls as [|l ls IH]; intros m; [done|]. cbn [closeAll fold_left fmap list_fmap]. fold (closeAll ls (delete (wsock l) m)). rewrite IH.
  destruct (decide (n ∈ wsock <$> ls)) as [Hi|Hi]; [by rewrite decide_True by (by right)|]. destruct (decide (n = wsock l)) as [->|Hn].
  - rewrite lookup_delete_eq, decide_True; [done|by left].
  - rewrite lookup_delete_ne by done. rewrite decide_False; [done|]. by apply not_elem_of_cons.
Qed.

Lemma fmap_filter_sub {A B} (g : A -> B) (f : A -> bool) l : g <$> List.filter f l `sublist_of` g <$> l.
Proof. induction l as [|x l IH]; [done|]. cbn. destruct (f x); cbn; [by apply sublist_skip|by apply sublist_cons]. Qed.

Lemma sock_ok_keep (f : webListener -> bool) (w : WebManager) stamp lw la : sock_ok w ->
  sock_ok (mkWM (List.filter f (listeners w)) stamp lw la (closeAll (List.filter (fun l => negb (f l)) (listeners w)) (sockets w)) (nextSock w)).
Proof.
  intros [HS HD HF HK]. split; cbn [sockets listeners nextSock].
  - intros n sp. rewrite closeAll_lookup. case_decide as Hn.
    + split; [done|]. intros (l & Hl & E & _). apply filter_keep in Hl as [Hl Hf]. apply list_elem_of_fmap in Hn as (l' & E' & Hl'). apply filter_keep in Hl' as [Hl' Hf'].
      assert (l = l') as ->; [|by rewrite Hf in Hf']. apply list_elem_of_lookup in Hl as [i Hi]. apply list_elem_of_lookup in Hl' as [j Hj].
      assert (i = j) as ->; [|congruence]. apply (NoDup_lookup _ _ _ n HD); rewrite list_lookup_fmap, ?Hi, ?Hj; cbn; congruence.
    + rewrite HS. split; intros (l & Hl & E & Es); exists l; (split; [|done]).
      * apply filter_keep. split; [done|]. destruct (f l) eqn:Ef; [done|]. exfalso. apply Hn. rewrite <- E. apply list_elem_of_fmap_2, filter_keep. split; [done|by rewrite Ef].
      * by apply filter_keep in Hl as [? _].
  - eapply sublist_NoDup; [exact HD|]. apply fmap_filter_sub.
  - apply Forall_forall. intros l Hl. apply filter_keep in Hl as [Hl _]. rewrite Forall_forall in HF. by apply HF.
  - eapply sublist_NoDup; [exact HK|]. apply fmap_filter_sub.
Qed.

Lemma sock_ok_close (w : WebManager) stamp lw la : sock_ok w -> sock_ok (mkWM [] stamp lw la (closeAll (listeners w) (sockets w)) (nextSock w)).
Proof.
  intros Hw. pose proof (sock_ok_keep (fun _ => false) w stamp lw la Hw) as HK.
  assert (forall l : list webListener, List.filter (fun _ => false) l = []) as E1 by (by induction l).
  assert (forall l : list webListener, List.filter (fun _ => negb false) l = l) as E2 by (induction l as [|x l IH]; [done|]; cbn; f_equal; exact IH).
  by rewrite E1, E2 in HK.
Qed.

Lemma strlen_append (a b : string) : String.length (a +:+ b) = (String.length a + String.length b)%nat.
Proof. induction a as [|x a IH]; [done|]. change (S (String.length (a +:+ b)) = S (String.length a + String.length b)). by rewrite IH. Qed.
Lemma append_cancel_r (a b c : string) : (a +:+ c)%string = (b +:+ c)%string -> a = b.
Proof.
  revert b. induction a as [|x a IH]; intros [|y b] E; [done| | |].
  - apply (f_equal String.length) in E. change (String.length c = S (String.length (b +:+ c))) in E. rewrite strlen_append in E. lia.
  - apply (f_equal String.length) in E. change (S (String.length (a +:+ c)) = String.length c) in E. rewrite strlen_append in E. lia.
  - change (String x (a +:+ c) = String y (b +:+ c)) in E. injection E as -> E. f_equal. by apply IH.
Qed.
Lemma key_port s s' : lport s = lport s' -> key s = key s' -> s = s'.
Proof. destruct s as [i p], s' as [i' p']. cbn. intros <- E. f_equal. by apply append_cancel_r in E. Qed.

Lemma specs_port ips c : Forall (fun sp => lport sp = webPort (webAddr c)) (currentSpecs ips c).
Proof.
  unfold currentSpecs. destruct (negb (tunnelBind c)); [by repeat constructor|]. induction ips as [|ip ips IH]; [constructor|]. cbn.
  destruct (isEmpty (unbracket ip)); [done|]. destruct (ParseIP (unbracket ip)); [|done]. by constructor.
Qed.

(** ** Opening what is missing *)

Lemma in_use m sp : existsb (fun x : nat * listenSpec => bool_decide (x.2 = sp)) (map_to_list m) = true <-> exists n, m !! n = Some sp.
Proof.
  rewrite existsb_exists. split.
  - intros ([n s] & Hi & E). apply bool_decide_eq_true in E. cbn in E. subst s. exists n. by apply elem_of_map_to_list, list_elem_of_In.
  - intros [n Hn]. exists (n, sp). split; [by apply list_elem_of_In, elem_of_map_to_list|]. by apply bool_decide_eq_true.
Qed.

(** A spec can be opened, or one of the listeners has it already. *)
Definition openable (w : WebManager) (sp : listenSpec) : Prop := forall l, l ∈ listeners w -> key (wspec l) = key sp -> wspec l = sp.

Lemma openOne_ok says tls w failed logs sp : sock_ok w -> openable w sp ->
  let w' := (openOne says tls (w, failed, logs) sp).1.1 in
  sock_ok w' /\ wmStamp w' = wmStamp w /\ (exists new, listeners w' = listeners w ++ new /\ Forall (fun l => wspec l = sp /\ wtls l = tls) new) /\
  (says sp = None -> exists l, l ∈ listeners w' /\ wspec l = sp).
Proof.
  intros [HS HD HF HK] Ho. unfold openOne, netListen. destruct (existsb _ (map_to_list (sockets w))) eqn:Eu.
  - apply in_use in Eu as [n Hn]. cbn. split_and!; [done|done|exists []; by rewrite app_nil_r|]. intros _. apply HS in Hn as (l & Hl & _ & Es). by exists l.
  - destruct (says sp) as [err|] eqn:Es; cbn [fst snd]; [split_and!; [done|done|exists []; by rewrite app_nil_r|done]|].
    assert (~ exists n, sockets w !! n = Some sp) as Hfree by (intros Hx; apply in_use in Hx; congruence).
    assert (forall l, l ∈ listeners w -> key (wspec l) <> key sp) as Hnew.
    { intros l Hl Ek. apply Hfree. exists (wsock l). apply HS. exists l. split_and!; [done|done|by apply Ho]. }
    assert (nextSock w ∉ wsock <$> listeners w) as Hn.
    { intros Hi. apply list_elem_of_fmap in Hi as (l & E & Hl). rewrite Forall_forall in HF. specialize (HF l Hl). lia. }
    split_and!; cbn [listeners wmStamp]; [|done|exists [mkWL sp (nextSock w) tls]; split; [done|by repeat constructor]|].
    + split; cbn [sockets listeners nextSock].
      * intros n s. destruct (decide (n = nextSock w)) as [->|Hne].
        -- rewrite lookup_insert_eq. split.
           ++ intros E. injection E as <-. exists (mkWL sp (nextSock w) tls). split; [|done]. apply elem_of_app. right. by apply list_elem_of_singleton.
           ++ intros (l & Hl & E & Es'). apply elem_of_app in Hl as [Hl|Hl]; [exfalso; apply Hn; rewrite <- E; by apply list_elem_of_fmap_2|]. apply list_elem_of_singleton in Hl as ->. by cbn in Es'; subst.
        -- rewrite lookup_insert_ne by done. rewrite HS. split; intros (l & Hl & E & Es'); exists l; (split; [|done]); [apply elem_of_app; by left|].
           apply elem_of_app in Hl as [Hl|Hl]; [done|]. apply list_elem_of_singleton in Hl as ->. by cbn in E.
      * rewrite fmap_app. cbn. apply NoDup_app. split_and!; [done| |apply NoDup_singleton]. intros x Hx Hx'. apply list_elem_of_singleton in Hx' as ->. done.
      * apply Forall_app. split; [eapply Forall_impl; [exact HF|]; cbn; lia|]. apply Forall_singleton. cbn. lia.
      * rewrite fmap_app. cbn. apply NoDup_app. split_and!; [done| |apply NoDup_singleton]. intros x Hx Hx'. apply list_elem_of_singleton in Hx' as ->.
        apply list_elem_of_fmap in Hx as (l & E & Hl). by apply (Hnew l Hl).
    + intros _. eexists. split; [apply elem_of_app; right; by apply list_elem_of_singleton|done].
Qed.

Lemma openLoop_ok says tls p sps : forall w failed logs, Forall (fun sp => lport sp = p) sps -> sock_ok w -> Forall (openable w) sps ->
  let w' := (fold_left (openOne says tls) sps (w, failed, logs)).1.1 in
  sock_ok w' /\ wmStamp w' = wmStamp w /\ (exists new, listeners w' = listeners w ++ new /\ Forall (fun l => wspec l ∈ sps /\ wtls l = tls) new) /\
  (forall sp, sp ∈ sps -> says sp = None -> exists l, l ∈ listeners w' /\ wspec l = sp).
Proof.
  induction sps as [|sp sps IH]; intros w failed logs HP Hw HO; [cbn; split_and!; [done|done|exists []; by rewrite app_nil_r|by intros sp ?%elem_of_nil]|].
  apply Forall_cons in HP as [Hp HP]. apply Forall_cons in HO as [Ho HO]. cbn [fold_left].
  destruct (openOne_ok says tls w failed logs sp Hw Ho) as (W1 & W2 & (new & W3 & W4) & W5). destruct (openOne says tls (w, failed, logs) sp) as [[w1 f1] l1]. cbn [fst snd] in *.
  destruct (IH w1 f1 l1 HP W1) as (V1 & V2 & (new' & V3 & V4) & V5).
  { apply Forall_forall. intros s Hs l Hl Ek. rewrite Forall_forall in HO, HP. rewrite W3 in Hl. apply elem_of_app in Hl as [Hl|Hl]; [by apply (HO s Hs)|].
    rewrite Forall_forall in W4. destruct (W4 l Hl) as [Es _]. apply key_port; [|done]. rewrite Es, Hp, (HP s Hs). done. }
  split_and!; [done|congruence| |].
  - exists (new ++ new'). split; [by rewrite V3, W3, app_assoc|]. apply Forall_app. split; [eapply Forall_impl; [exact W4|]; intros l [-> ?]; by split; [left|]|].
    eapply Forall_impl; [exact V4|]. intros l [? ?]. by split; [right|].
  - intros s Hs Hn. apply elem_of_cons in Hs as [->|Hs]; [|by apply V5]. destruct (W5 Hn) as (l & Hl & E). exists l. split; [|done]. rewrite V3. apply elem_of_app. by left.
Qed.

(** ** A round *)

Definition pairLoads (r : webRound) : option (option nat) := match currentSpecs (rips r) (rcfg2 r) with [] => Some None | _ => loadWebTLS (rpair r) (rcfg r) end.

Lemma onceWarn_same now k w : let w' := (onceWarn now k w).2 in listeners w' = listeners w /\ wmStamp w' = wmStamp w /\ sockets w' = sockets w /\ nextSock w' = nextSock w.
Proof. unfold onceWarn. by destruct (_ && _). Qed.
Lemma sock_ok_same w w' : listeners w' = listeners w -> sockets w' = sockets w -> nextSock w' = nextSock w -> sock_ok w -> sock_ok w'.
Proof. intros E1 E2 E3 [HS HD HF HK]. split; rewrite ?E1, ?E2, ?E3; done. Qed.

Lemma wanted_spec specs l : wanted specs l = true <-> exists sp, sp ∈ specs /\ key sp = key (wspec l).
Proof. unfold wanted. rewrite existsb_exists. split; intros (sp & Hs & E); exists sp; (split; [by apply list_elem_of_In|]); by apply bool_decide_eq_true in E || apply bool_decide_eq_true. Qed.
Lemma missing_elem specs ls sp : sp ∈ missing specs ls <-> sp ∈ specs /\ forall l, l ∈ ls -> key (wspec l) <> key sp.
Proof.
  unfold missing. rewrite list_elem_of_filter, <- not_true_iff_false, existsb_exists. split; intros [Ha Hb]; split; try done.
  - intros l Hl E. apply Ha. exists l. split; [by apply list_elem_of_In|by apply bool_decide_eq_true].
  - intros (l & Hl & E). apply bool_decide_eq_true in E. apply (Hb l); [by apply list_elem_of_In|done].
Qed.
Lemma restamp_ok c w : sock_ok w -> sock_ok (restamp c w).
Proof. intros Hw. unfold restamp. case_bool_decide; [done|]. by apply sock_ok_close. Qed.

Record round_result (r : webRound) (w w' : WebManager) (tls : option nat) : Prop := {
  rr_stamp : wmStamp w' = cfgStamp (rcfg r);
  rr_from : Forall (fun l => (l ∈ listeners w /\ wmStamp w = cfgStamp (rcfg r)) \/ (wspec l ∈ currentSpecs (rips r) (rcfg2 r) /\ wtls l = tls)) (listeners w');
  rr_keys : currentSpecs (rips r) (rcfg2 r) <> [] -> Forall (fun l => wanted (currentSpecs (rips r) (rcfg2 r)) l = true) (listeners w');
  rr_kept : forall l, l ∈ listeners w -> wmStamp w = cfgStamp (rcfg r) -> currentSpecs (rips r) (rcfg2 r) = [] \/ wanted (currentSpecs (rips r) (rcfg2 r)) l = true -> l ∈ listeners w';
  rr_open : forall sp, sp ∈ currentSpecs (rips r) (rcfg2 r) -> rsays r sp = None -> exists l, l ∈ listeners w' /\ key (wspec l) = key sp
}.

Lemma opened_ok r tls w1 : let specs := currentSpecs (rips r) (rcfg2 r) in Forall (fun sp => lport sp = webPort (webAddr (rcfg2 r))) specs -> sock_ok w1 ->
  let w2 := (fold_left (openOne (rsays r) tls) (missing specs (listeners (prune specs w1))) (prune specs w1, [], [])).1.1 in
  sock_ok w2 /\ wmStamp w2 = wmStamp w1 /\ Forall (fun l => l ∈ listeners w1 \/ (wspec l ∈ specs /\ wtls l = tls)) (listeners w2) /\
  (forall l, l ∈ listeners w1 -> wanted specs l = true -> l ∈ listeners w2) /\ Forall (fun l => wanted specs l = true) (listeners w2) /\
  (forall sp, sp ∈ specs -> rsays r sp = None -> exists l, l ∈ listeners w2 /\ key (wspec l) = key sp).
Proof.
  intros specs HP Hw. set (w := prune specs w1). assert (sock_ok w) as H1 by (by apply sock_ok_keep).
  destruct (openLoop_ok (rsays r) tls (webPort (webAddr (rcfg2 r))) (missing specs (listeners w)) w [] []) as (V1 & V2 & (new & V3 & V4) & V5); [|done| |].
  { apply Forall_forall. intros sp Hsp. apply missing_elem in Hsp as [Hsp _]. rewrite Forall_forall in HP. by apply HP. }
  { apply Forall_forall. intros sp Hsp l Hl E. apply missing_elem in Hsp as [_ Hsp]. by destruct (Hsp l Hl). }
  set (w2 := (fold_left _ _ _).1.1) in *. cbn zeta. assert (forall l, l ∈ listeners w <-> l ∈ listeners w1 /\ wanted specs l = true) as HL by (intros l; apply filter_keep).
  rewrite Forall_forall in V4. split_and!; [done|done| | | |].
  - apply Forall_forall. intros l Hl. rewrite V3 in Hl. apply elem_of_app in Hl as [Hl|Hl]; [left; by apply HL|]. right. destruct (V4 l Hl) as [Hm Ht]. split; [|done]. by apply missing_elem in Hm as [? _].
  - intros l Hl Hk. rewrite V3. apply elem_of_app. left. by apply HL.
  - apply Forall_forall. intros l Hl. rewrite V3 in Hl. apply elem_of_app in Hl as [Hl|Hl]; [by apply HL|]. destruct (V4 l Hl) as [Hm _]. apply missing_elem in Hm as [Hm _]. apply wanted_spec. by exists (wspec l).
  - intros sp Hsp Hn. destruct (decide (sp ∈ missing specs (listeners w))) as [Hm|Hm]; [destruct (V5 sp Hm Hn) as (l & Hl & E); exists l; by rewrite E|].
    assert (exists l, l ∈ listeners w /\ key (wspec l) = key sp) as (l & Hl & E); [|exists l; split; [|done]; rewrite V3; apply elem_of_app; by left].
    destruct (decide (Exists (fun l => key (wspec l) = key sp) (listeners w))) as [Hx|Hx]; [by apply Exists_exists in Hx|]. exfalso. apply Hm, missing_elem. split; [done|]. intros l Hl E. apply Hx, Exists_exists. by exists l.
Qed.

Lemma round_ok r w : sock_ok w -> let w' := (rebindIfNeeded r w).1 in sock_ok w' /\
  match pairLoads r with
  | None => listeners w' = listeners w /\ wmStamp w' = wmStamp w /\ sockets w' = sockets w
  | Some tls => round_result r w w' tls
  end.
Proof.
  intros Hw. unfold rebindIfNeeded. fold (pairLoads r). destruct (pairLoads r) as [tls|] eqn:Ep.
  2: { pose proof (onceWarn_same (rnow r) ("tls|" +:+ webCert (rcfg r) +:+ "|" +:+ webKey (rcfg r))%string w) as (E1 & E2 & E3 & E4). destruct (onceWarn _ _ w) as [b w1]. cbn [fst snd] in *. split; [by apply (sock_ok_same w)|done]. }
  clear Ep. pose proof (restamp_ok (rcfg r) w Hw) as H1. set (w1 := restamp (rcfg r) w) in *.
  assert (wmStamp w1 = cfgStamp (rcfg r)) as S1 by (subst w1; unfold restamp; case_bool_decide; done).
  assert (Forall (fun l => l ∈ listeners w /\ wmStamp w = cfgStamp (rcfg r)) (listeners w1)) as F1.
  { subst w1. unfold restamp. case_bool_decide; [|constructor]. apply Forall_forall. done. }
  assert (wmStamp w = cfgStamp (rcfg r) -> w1 = w) as K1 by (intros E; subst w1; unfold restamp; by rewrite bool_decide_true by done).
  clearbody w1. pose proof (specs_port (rips r) (rcfg2 r)) as HP. destruct (currentSpecs (rips r) (rcfg2 r)) as [|sp0 specs0] eqn:Es.
  { cbn [fst]. split; [done|]. split; rewrite ?Es; [done| |done| |].
    - eapply Forall_impl; [exact F1|]. intros l Hl. by left.
    - intros l Hl E _. by rewrite (K1 E).
    - by intros sp ?%elem_of_nil. }
  rewrite <- Es in *. assert (currentSpecs (rips r) (rcfg2 r) <> []) as Hne by (by rewrite Es). clear sp0 specs0 Es.
  pose proof (opened_ok r tls w1 HP H1) as (V1 & V2 & V3 & V4 & V6 & V5).
  set (st := fold_left _ _ _) in *. destruct st as [[w2 failed] logs]. cbn [fst snd] in *.
  assert (round_result r w w2 tls) as HR.
  { split; [congruence| |by intros _|intros l Hl E [?|Hwn]; [done|]; apply V4; [by rewrite (K1 E)|done]|done].
    apply Forall_forall. intros l Hl. rewrite Forall_forall in F1. destruct (proj1 (Forall_forall _ _) V3 l Hl) as [Hk|[Hs Ht]]; [left; by apply F1|by right]. }
  destruct failed as [|f fs]; [done|]. pose proof (onceWarn_same (rnow r) ("listen|" +:+ String.concat "|" (f :: fs))%string w2) as (E1 & E2 & E3 & E4).
  destruct (onceWarn _ _ w2) as [b w3]. cbn [fst snd] in *. split; [by apply (sock_ok_same w2)|]. destruct HR as [R1 R2 R3 R4 R5]. split; rewrite ?E1, ?E2; done.
Qed.

(** ** The stamp *)

Lemma hash_cut a b x y : hasChar 35 a = false -> hasChar 35 b = false -> (a +:+ "##" +:+ x)%string = (b +:+ "##" +:+ y)%string -> a = b /\ x = y.
Proof.
  unfold hasChar. rewrite !negb_false_iff. revert b. induction a as [|c a IH]; intros [|d b] HA HB E.
  - split; [done|]. change (String (Ascii.ascii_of_nat 35) (String (Ascii.ascii_of_nat 35) x) = String (Ascii.ascii_of_nat 35) (String (Ascii.ascii_of_nat 35) y)) in E. by injection E.
  - change (String (Ascii.ascii_of_nat 35) (String (Ascii.ascii_of_nat 35) x) = String d (b +:+ "##" +:+ y)) in E. injection E as <- _. done.
  - change (String c (a +:+ "##" +:+ x) = String (Ascii.ascii_of_nat 35) (String (Ascii.ascii_of_nat 35) y)) in E. injection E as -> _. done.
  - change (String c (a +:+ "##" +:+ x) = String d (b +:+ "##" +:+ y)) in E. injection E as -> E. cbn [allChars] in HA, HB. apply andb_true_iff in HA as [_ HA]. apply andb_true_iff in HB as [_ HB].
    destruct (IH b HA HB E) as [-> ->]. done.
Qed.

Definition noHash (c : WebConfig) : bool := negb (hasChar 35 (webBind c)) && negb (hasChar 35 (webCert c)) && negb (hasChar 35 (webKey c)).
Lemma cfgStamp_inj c c' : noHash c = true -> noHash c' = true -> cfgStamp c = cfgStamp c' ->
  webBind c = webBind c' /\ webCert c = webCert c' /\ webKey c = webKey c' /\ webPort (webAddr c) = webPort (webAddr c').
Proof.
  unfold noHash. rewrite !andb_true_iff, !negb_true_iff. intros [[A1 A2] A3] [[B1 B2] B3] E. unfold cfgStamp in E.
  apply hash_cut in E as [E1 E]; [|done|done]. apply hash_cut in E as [E2 E]; [|done|done]. apply hash_cut in E as [E3 E]; [|done|done]. split_and!; [done..|]. by apply (inj pretty).
Qed.

(** ** Histories *)

(** The round that opened a listener, under the configuration whose stamp is current. *)
Definition originOf (rs : list webRound) (w : WebManager) (l : webListener) : Prop :=
  exists r, r ∈ rs /\ wmStamp w = cfgStamp (rcfg r) /\ wspec l ∈ currentSpecs (rips r) (rcfg2 r) /\ loadWebTLS (rpair r) (rcfg r) = Some (wtls l).

Lemma rounds_ok rs : sock_ok (runRounds rs NewWebManager) /\ Forall (originOf rs (runRounds rs NewWebManager)) (listeners (runRounds rs NewWebManager)).
Proof.
  induction rs as [|r rs [IH1 IH2]] using rev_ind.
  { split; [|constructor]. split; cbn; [|constructor|constructor|constructor]. intros n sp. rewrite lookup_empty. split; [done|]. by intros (l & ?%elem_of_nil & _). }
  unfold runRounds in *. rewrite fold_left_app. cbn [fold_left]. set (w := fold_left _ rs NewWebManager) in *. clearbody w. destruct (round_ok r w IH1) as [W1 W2]. split; [done|].
  apply Forall_forall. intros l Hl. rewrite Forall_forall in IH2. unfold originOf in *.
  destruct (pairLoads r) as [tls|] eqn:Ep.
  - destruct W2 as [R1 R2 R3 R4 R5]. rewrite Forall_forall in R2. destruct (R2 l Hl) as [[Ho Es]|[Hs Ht]].
    + destruct (IH2 l Ho) as (r' & Hr' & E' & F). exists r'. split; [apply elem_of_app; by left|]. split; [congruence|done].
    + exists r. split; [apply elem_of_app; right; by apply list_elem_of_singleton|]. split_and!; [done|done|]. unfold pairLoads in Ep. destruct (currentSpecs (rips r) (rcfg2 r)); [by apply elem_of_nil in Hs|]. congruence.
  - destruct W2 as (E1 & E2 & _). rewrite E1 in Hl. destruct (IH2 l Hl) as (r' & Hr' & F). exists r'. split; [apply elem_of_app; by left|]. by rewrite E2.
Qed.

(** The open sockets follow the configuration.  After any history a round leaves exactly
    the listeners' sockets open, no two for one address; if the certificate pair does not
    load it changes nothing; otherwise it closes every listener that is not wanted,
    or whose configuration stamp has changed, keeps the others as they are, opens every
    address the system grants, and what it keeps or opens is wanted. *)
Theorem listeners_follow_config (rs : list webRound) (r : webRound) :
  let w := runRounds rs NewWebManager in let w' := (rebindIfNeeded r w).1 in let specs := currentSpecs (rips r) (rcfg2 r) in
  (forall n sp, sockets w' !! n = Some sp <-> exists l, l ∈ listeners w' /\ wsock l = n /\ wspec l = sp) /\
  NoDup ((fun l => key (wspec l)) <$> listeners w') /\
  match pairLoads r with
  | None => listeners w' = listeners w
  | Some tls =>
    (specs <> [] -> forall l, l ∈ listeners w' -> exists sp, sp ∈ specs /\ key sp = key (wspec l)) /\
    (forall sp, sp ∈ specs -> rsays r sp = None -> exists l, l ∈ listeners w' /\ key (wspec l) = key sp) /\
    (forall l, l ∈ listeners w -> wmStamp w = cfgStamp (rcfg r) -> (specs = [] \/ exists sp, sp ∈ specs /\ key sp = key (wspec l)) -> l ∈ listeners w') /\
    (wmStamp w <> cfgStamp (rcfg r) -> forall l, l ∈ listeners w' -> wspec l ∈ specs /\ wtls l = tls)
  end.
Proof.
  intros w w' specs. destruct (rounds_ok rs) as [Hw _]. fold w in Hw. destruct (round_ok r w Hw) as [W1 W2]. fold w' in W1, W2. destruct W1 as [S1 _ _ S4]. split_and!; [done|done|].
  destruct (pairLoads r) as [tls|]; [|apply W2]. destruct W2 as [R1 R2 R3 R4 R5]. fold specs in R2, R3, R4, R5. rewrite Forall_forall in R2. split_and!; [| done| |].
  - intros Hne l Hl. apply wanted_spec. specialize (R3 Hne). rewrite Forall_forall in R3. by apply R3.
  - intros l Hl E Hk. apply R4; [done..|]. destruct Hk as [?|Hk]; [by left|right; by apply wanted_spec].
  - intros Hne l Hl. destruct (R2 l Hl) as [[_ ?]|?]; done.
Qed.

Definition wantsTLS (c : WebConfig) : bool := negb (isEmpty (webCert c) || isEmpty (webKey c)).
(** The two reads of the configuration agree. *)
Definition steady (r : webRound) : Prop := rcfg2 r = rcfg r /\ noHash (rcfg r) = true.

Lemma tunnel_spec ips c sp : tunnelBind c = true -> sp ∈ currentSpecs ips c -> isEmpty (lip sp) = false /\ is_Some (ParseIP (lip sp)).
Proof.
  intros Ht Hs. unfold currentSpecs in Hs. rewrite Ht in Hs. cbn [negb] in Hs. apply list_elem_of_omap in Hs as (ip & _ & E). destruct (isEmpty (unbracket ip)) eqn:Ei; [done|].
  destruct (ParseIP (unbracket ip)) eqn:Ep; [|done]. injection E as <-. cbn. rewrite Ep. by split.
Qed.

(** No listener outlives the protection it was opened with.  If the configuration does not
    change within a round, then after a round whose pair loads every listener is
    encrypted exactly if the current configuration says so, has its port, and with
    [bind = tunnel] is at an address of the tunnel. *)
Theorem listeners_private (rs : list webRound) (r : webRound) (tls : option nat) : Forall steady (rs ++ [r]) -> pairLoads r = Some tls ->
  forall l, l ∈ listeners (rebindIfNeeded r (runRounds rs NewWebManager)).1 ->
  (is_Some (wtls l) <-> wantsTLS (rcfg r) = true) /\ lport (wspec l) = webPort (webAddr (rcfg r)) /\
  (tunnelBind (rcfg r) = true -> isEmpty (lip (wspec l)) = false /\ is_Some (ParseIP (lip (wspec l)))).
Proof.
  intros HF Ep l Hl. pose proof (rounds_ok (rs ++ [r])) as [_ HO]. unfold runRounds in HO. rewrite fold_left_app in HO. cbn [fold_left] in HO. fold (runRounds rs NewWebManager) in HO.
  rewrite Forall_forall in HO. pose proof (proj1 (Forall_forall _ _) HF) as HG. destruct (HO l Hl) as (r' & Hr' & Es & Hs & Ht). destruct (round_ok r _ (proj1 (rounds_ok rs))) as [_ HR]. rewrite Ep in HR. rewrite (rr_stamp _ _ _ _ HR) in Es.
  destruct (HG r') as [E1 N1]; [done|]. destruct (HG r) as [E2 N2]; [apply elem_of_app; right; by apply list_elem_of_singleton|].
  destruct (cfgStamp_inj _ _ N2 N1 Es) as (B1 & B2 & B3 & B4). rewrite E1 in Hs. split_and!.
  - unfold loadWebTLS in Ht. unfold wantsTLS. rewrite B2, B3. destruct (isEmpty (webCert (rcfg r')) || isEmpty (webKey (rcfg r'))); cbn.
    + injection Ht as <-. split; [by intros [? ?]|done].
    + destruct (rpair r'); [|done]. injection Ht as <-. split; by eexists.
  - rewrite B4. pose proof (specs_port (rips r') (rcfg r')) as HP. rewrite Forall_forall in HP. by apply HP.
  - intros Htb. apply (tunnel_spec (rips r') (rcfg r')); [|done]. unfold tunnelBind in *. by rewrite <- B1.
Qed.
End Manager.

(** ** Examples *)

(** The small library, with a colon before the port. *)
Fixpoint cutColon (s : string) : option (string * string) :=
  match s with
  | EmptyString => None
  | String c r => match cutColon r with Some (h, p) => Some (String c h, p) | None => if (Ascii.nat_of_ascii c =? 58)%nat then Some (EmptyString, r) else None end
  end.
Definition webLib : GoLib := {|
  ParseCIDR := @ParseCIDR demoLib; ParseIP := @ParseIP demoLib; SplitHostPort := cutColon; parseURL := @parseURL demoLib; levelOk := @levelOk demoLib;
  text := @text demoLib; parseText := @parseText demoLib; render := @render demoLib;
  cidr_host := @cidr_host demoLib; cidr_plain := @cidr_plain demoLib; text_roundtrip := @text_roundtrip demoLib |}.

Definition demoWeb (addr cert key bind : string) : WebConfig := mkWeb addr "admin:pw" cert key bind (mkMCP "" "" "" "" (mkOAuth "" "" "" "" [] [])).
Definition openWeb : WebConfig := demoWeb ":8080" "" "" "all".
Definition tunnelWeb : WebConfig := demoWeb ":8080" "c.pem" "k.pem" "tunnel".
Definition grants (_ : listenSpec) : option string := None.
Definition steadyRound (c : WebConfig) (ips : list string) : webRound := mkRound c c ips (Some 1%nat) grants 0.

Lemma listeners_private_witness :
  listeners (@rebindIfNeeded webLib (steadyRound tunnelWeb ["10.8.0.1"; ""]%string) (@runRounds webLib [steadyRound openWeb []] NewWebManager)).1 = [mkWL (mkSpec "10.8.0.1" 8080) 1 (Some 1%nat)] /\
  (tunnelBind tunnelWeb = true -> isEmpty "10.8.0.1" = false /\ is_Some (@ParseIP webLib "10.8.0.1")).
Proof.
  split; [vm_compute; reflexivity|].
  refine (proj2 (proj2 (@listeners_private webLib [steadyRound openWeb []] (steadyRound tunnelWeb ["10.8.0.1"; ""]%string) (Some 1%nat) _ _ (mkWL (mkSpec "10.8.0.1" 8080) 1 (Some 1%nat)) _))).
  - repeat constructor.
  - reflexivity.
  - vm_compute. left.
Defined.

(** The configuration may change between the two reads of a round: the stamp of the new
    one is then recorded for a listener of the old one, and as long as the tunnel has no
    address the listener on all addresses stays open under [bind = tunnel]. *)
Theorem torn_read_keeps_wildcard : exists r1 r2 r3 : webRound, rcfg r3 = tunnelWeb /\ steady r1 /\ steady r3 /\
  (fun l => (lip (wspec l), wsock l)) <$> listeners (@runRounds webLib [r1; r2; r3; r3] NewWebManager) = [(""%string, 1%nat)].
Proof.
  exists (steadyRound openWeb []), (mkRound tunnelWeb openWeb [] (Some 1%nat) grants 2000), (steadyRound tunnelWeb [""; ""]%string).
  split_and!; [done|by split..|vm_compute; reflexivity].
Qed.

(** A listener keeps the certificate it was opened with: a pair renewed under the same
    names is loaded in every round and never served. *)
Theorem renewed_pair_not_served : exists r1 r2 : webRound, steady r1 /\ steady r2 /\ rpair r2 = Some 2%nat /\
  wtls <$> listeners (@runRounds webLib [r1; r2; r2] NewWebManager) = [Some 1%nat].
Proof.
  exists (steadyRound tunnelWeb ["10.8.0.1"]%string), (mkRound tunnelWeb tunnelWeb ["10.8.0.1"]%string (Some 2%nat) grants 2000).
  split_and!; [by split..|done|vm_compute; reflexivity].
Qed.
