(* ===== verification/Jwks.v ===== *)
(** * The keys of access tokens (mcp_auth.go)

    Where the key comes from that checks a signed token: the key set of the configured
    address, fetched over at most two redirects, parsed key by key, cached for ten
    minutes and fetched again when a token names a key that is not in it.  Requests
    interleave: a request takes the lock for the look-up and again for the store, with
    the network between.  What the network answers is an argument of the step; the curve
    equations are a parameter, as are the URLs (Config). *)

From stdpp Require Import base tactics list numbers list_numbers gmap strings.
From S2P Require Import Prelude Ident Web Config.
#[local] Open Scope Z_scope.

(** ** base64.RawURLEncoding *)

Definition b64Char (v : Z) : Ascii.ascii :=
  Ascii.ascii_of_nat (Z.to_nat (if v <? 26 then 65 + v else if v <? 52 then 71 + v else if v <? 62 then v - 4 else if v =? 62 then 45 else 95)).
Definition b64Val (c : Ascii.ascii) : option Z :=
  let n := Z.of_nat (Ascii.nat_of_ascii c) in
  if (65 <=? n) && (n <=? 90) then Some (n - 65) else if (97 <=? n) && (n <=? 122) then Some (n - 71) else
  if (48 <=? n) && (n <=? 57) then Some (n + 4) else if n =? 45 then Some 62 else if n =? 95 then Some 63 else None.

Fixpoint b64Encode (l : bytes) : string :=
  match l with
  | a :: b :: c :: l => String (b64Char (a / 4)) (String (b64Char (a mod 4 * 16 + b / 16)) (String (b64Char (b mod 16 * 4 + c / 64)) (String (b64Char (c mod 64)) (b64Encode l))))
  | [a; b] => String (b64Char (a / 4)) (String (b64Char (a mod 4 * 16 + b / 16)) (String (b64Char (b mod 16 * 4)) EmptyString))
  | [a] => String (b64Char (a / 4)) (String (b64Char (a mod 4 * 16)) EmptyString)
  | [] => EmptyString
  end.

(** Line ends are skipped; bits beyond the last byte are ignored. *)
Definition notEOL (c : Ascii.ascii) : bool := let n := Ascii.nat_of_ascii c in negb ((n =? 10)%nat || (n =? 13)%nat).
Fixpoint stringFilter (f : Ascii.ascii -> bool) (s : string) : string :=
  match s with EmptyString => EmptyString | String c s => if f c then String c (stringFilter f s) else stringFilter f s end.
Fixpoint b64Groups (s : string) : option bytes :=
  match s with
  | EmptyString => Some []
  | String p (String q (String r (String t s))) =>
    x ← b64Val p; y ← b64Val q; z ← b64Val r; w ← b64Val t; l ← b64Groups s; Some (x * 4 + y / 16 :: y mod 16 * 16 + z / 4 :: z mod 4 * 64 + w :: l)
  | String p (String q (String r EmptyString)) => x ← b64Val p; y ← b64Val q; z ← b64Val r; Some [x * 4 + y / 16; y mod 16 * 16 + z / 4]
  | String p (String q EmptyString) => x ← b64Val p; y ← b64Val q; Some [x * 4 + y / 16]
  | String _ EmptyString => None
  end.
Definition decodeMCPBase64URL (s : string) : option bytes := b64Groups (stringFilter notEOL s).

(** ** Keys *)

Record mcpJWK := mkJWK { KTY : string; KID : string; Use : string; jAlg : string; jN : string; jE : string; Crv : string; jX : string; jY : string }.
Inductive curveName := P256 | P384 | P521.
Inductive jwtKey := KeyRSA (n e : Z) | KeyEC (c : curveName) (x y : Z) | KeyEd25519 (k : bytes).
#[export] Instance curveName_eq : EqDecision curveName.
Proof. solve_decision. Defined.
#[export] Instance jwtKey_eq : EqDecision jwtKey.
Proof. solve_decision. Defined.

(** elliptic.Curve.IsOnCurve. *)
Class Curves := IsOnCurve : curveName -> Z -> Z -> bool.

Definition curveOf (crv : string) : option curveName :=
  if bool_decide (crv = "P-256"%string) then Some P256 else if bool_decide (crv = "P-384"%string) then Some P384 else if bool_decide (crv = "P-521"%string) then Some P521 else None.
Definition nonEmpty (b : option bytes) : option bytes := b ≫= fun l => match l with [] => None | _ => Some l end.

Section Keys.
Context `{Curves}.

Definition parseMCPJWK (j : mcpJWK) : option jwtKey :=
  if bool_decide (KTY j = "RSA"%string) then
    nb ← nonEmpty (decodeMCPBase64URL (jN j));
    eb ← nonEmpty (decodeMCPBase64URL (jE j));
    if (4 <? length eb)%nat then None else
    let e := be_dec eb in if e <? 3 then None else Some (KeyRSA (be_dec nb) e)
  else if bool_decide (KTY j = "EC"%string) then
    c ← curveOf (Crv j);
    xb ← nonEmpty (decodeMCPBase64URL (jX j)); yb ← nonEmpty (decodeMCPBase64URL (jY j));
    if IsOnCurve c (be_dec xb) (be_dec yb) then Some (KeyEC c (be_dec xb) (be_dec yb)) else None
  else if bool_decide (KTY j = "OKP"%string) then
    if negb (bool_decide (Crv j = "Ed25519"%string)) then None else
    x ← decodeMCPBase64URL (jX j); if (length x =? 32)%nat then Some (KeyEd25519 x) else None
  else None.

Definition mcpJWTKeyCompatible (alg : string) (k : jwtKey) : bool :=
  match k with
  | KeyRSA _ _ => hasPrefix "RS" alg || hasPrefix "PS" alg
  | KeyEC _ _ _ => hasPrefix "ES" alg
  | KeyEd25519 _ => bool_decide (alg = "EdDSA"%string)
  end.

(** The bytes of a number, most significant first, none for zero: big.Int.Bytes, and the
    loop over the exponent. *)
Fixpoint bigBytes (fuel : nat) (e : Z) (acc : bytes) : bytes :=
  match fuel with O => acc | S fuel => if 0 <? e then bigBytes fuel (Z.shiftr e 8) (Z.land e 255 :: acc) else acc end.
Definition numBytes (n : Z) : bytes := bigBytes (Z.to_nat (Z.log2 n) + 1) n [].
Definition mcpRSAJWK (n e : Z) (kid : string) : mcpJWK := mkJWK "RSA" kid "sig" "RS256" (b64Encode (numBytes n)) (b64Encode (bigBytes 8 e [])) "" "" "".

(** ** Fetching *)

Definition mcpJWKSCacheTTL : Z := 600000.   (* milliseconds *)
Record mcpJWKSCacheEntry := mkEntry { entKeys : gmap string jwtKey; entAnonymous : list jwtKey; entExpires : Z }.

(** What the network makes of a request: the redirects it is sent through and the end. *)
Inductive httpEnd := HFails | HStatus (code : Z) | HNotJSON | HKeySet (keys : list mcpJWK).
Record httpAnswer := mkAnswer { hops : list string; ends : httpEnd }.

(** The loop over the keys of the set. *)
Definition addJWK (e : mcpJWKSCacheEntry) (j : mcpJWK) : mcpJWKSCacheEntry :=
  if negb (isEmpty (Use j)) && negb (bool_decide (Use j = "sig"%string)) then e else
  match parseMCPJWK j with
  | None => e
  | Some k => if isEmpty (KID j) then mkEntry (entKeys e) (entAnonymous e ++ [k]) (entExpires e) else mkEntry (<[KID j := k]> (entKeys e)) (entAnonymous e) (entExpires e)
  end.
Definition noKeys (e : mcpJWKSCacheEntry) : bool := (size (entKeys e) =? 0)%nat && (length (entAnonymous e) =? 0)%nat.
End Keys.

Section Fetch.
Context `{Curves} `{GoLib}.

(** CheckRedirect: the third redirect and any address that is not allowed end the fetch. *)
Definition redirectsOk (l : list string) : bool := (length l <=? 2)%nat && forallb validateMCPHTTPSURL l.

(** fetchMCPJWKS after the cache: what a fetch begun at [now] gives. *)
Definition fetched (now : Z) (a : httpAnswer) : option mcpJWKSCacheEntry :=
  if negb (redirectsOk (hops a)) then None else
  match ends a with
  | HKeySet (k :: ks) =>
    let e := fold_left addJWK (k :: ks) (mkEntry ∅ [] (now + mcpJWKSCacheTTL)) in if noKeys e then None else Some e
  | _ => None
  end.
Notation jwksCache := (gmap string mcpJWKSCacheEntry).
Definition cached (now : Z) (url : string) (c : jwksCache) : option mcpJWKSCacheEntry :=
  match c !! url with Some e => if now <? entExpires e then Some e else None | None => None end.

(** The closure selectKey. *)
Definition selectKey (kid : string) (e : mcpJWKSCacheEntry) : option jwtKey :=
  if negb (isEmpty kid) then entKeys e !! kid else
  if negb (size (entKeys e) + length (entAnonymous e) =? 1)%nat then None else
  match map_to_list (entKeys e) with (_, k) :: _ => Some k | [] => head (entAnonymous e) end.

(** A token as the key function sees it, and when. *)
Record tokenReq := mkToken { tUrl : string; tKid : string; tAlg : string; tNow : Z }.

(** A request: waiting for the network, begun at a time, or done. *)
Inductive reqState := RFetch (force : bool) (begun : Z) | RDone (key : option jwtKey).
Record jwksSys := mkJwks { jCache : jwksCache; jReqs : gmap nat (tokenReq * reqState); jFetches : nat }.
Definition jwks0 : jwksSys := mkJwks ∅ ∅ 0.

Definition startFetch (force : bool) (now : Z) (t : tokenReq) : reqState := if validateMCPHTTPSURL (tUrl t) then RFetch force now else RDone None.
(** After a key set: take the key, fetch by force, or give up. *)
Definition afterEntry (forced : bool) (now : Z) (t : tokenReq) (e : mcpJWKSCacheEntry) : reqState :=
  match selectKey (tKid t) e with
  | Some k => RDone (if mcpJWTKeyCompatible (tAlg t) k then Some k else None)
  | None => if negb forced && negb (isEmpty (tKid t)) then startFetch true now t else RDone None
  end.

Definition sends (st : reqState) : nat := match st with RFetch _ _ => 1 | RDone _ => 0 end.
Inductive jwksEv := JToken (i : nat) (t : tokenReq) | JAnswer (i : nat) (now : Z) (a : httpAnswer).

(** selectMCPJWTKey and fetchMCPJWKS, cut at the network. *)
Definition jwksStep (s : jwksSys) (ev : jwksEv) : jwksSys :=
  match ev with
  | JToken i t =>
    match jReqs s !! i with
    | Some _ => s
    | None =>
      let st := match cached (tNow t) (tUrl t) (jCache s) with Some e => afterEntry false (tNow t) t e | None => startFetch false (tNow t) t end in
      mkJwks (jCache s) (<[i := (t, st)]> (jReqs s)) (jFetches s + sends st)
    end
  | JAnswer i now a =>
    match jReqs s !! i with
    | Some (t, RFetch force begun) =>
      match fetched begun a with
      | None => mkJwks (jCache s) (<[i := (t, RDone None)]> (jReqs s)) (jFetches s)
      | Some e => let st := afterEntry force now t e in mkJwks (<[tUrl t := e]> (jCache s)) (<[i := (t, st)]> (jReqs s)) (jFetches s + sends st)
      end
    | _ => s
    end
  end.
Definition jwksRun (evs : list jwksEv) : jwksSys := fold_left jwksStep evs jwks0.

(** ** Where a key comes from *)

(** A key of the set that may check signatures. *)
Definition usable (j : mcpJWK) (k : jwtKey) : Prop := parseMCPJWK j = Some k /\ (Use j = ""%string \/ Use j = "sig"%string).

Record from_set (ks : list mcpJWK) (e : mcpJWKSCacheEntry) : Prop := {
  fs_named : forall kid k, entKeys e !! kid = Some k -> exists j, j ∈ ks /\ usable j k /\ KID j = kid;
  fs_anon : forall k, k ∈ entAnonymous e -> exists j, j ∈ ks /\ usable j k /\ KID j = ""%string
}.

Lemma isEmpty_true s : isEmpty s = true -> s = ""%string.
Proof. unfold isEmpty. intros E. by apply bool_decide_eq_true in E. Qed.

Lemma addJWK_from ks e j : j ∈ ks -> from_set ks e -> from_set ks (addJWK e j) /\ entExpires (addJWK e j) = entExpires e.
Proof.
  intros Hj He. unfold addJWK. destruct (negb (isEmpty (Use j)) && negb (bool_decide (Use j = "sig"%string))) eqn:Eu; [done|].
  destruct (parseMCPJWK j) as [k|] eqn:Ek; [|done].
  assert (usable j k) as Hu.
  { split; [done|]. apply andb_false_iff in Eu as [E|E]; apply negb_false_iff in E; [left; by apply isEmpty_true|right; by apply bool_decide_eq_true in E]. }
  destruct He as [H1 H2]. destruct (isEmpty (KID j)) eqn:Ei; (split; [|done]); split; cbn [entKeys entAnonymous]; try done.
  - intros k' Hk. apply elem_of_app in Hk as [Hk|Hk]; [by apply H2|]. apply list_elem_of_singleton in Hk as ->. exists j. split_and!; [done|done|by apply isEmpty_true].
  - intros kid k' Hk. destruct (decide (kid = KID j)) as [->|Hn]; [rewrite lookup_insert_eq in Hk; injection Hk as <-; by exists j|]. rewrite lookup_insert_ne in Hk by done. by apply H1.
Qed.

Lemma fetched_from begun a e : fetched begun a = Some e ->
  redirectsOk (hops a) = true /\ entExpires e = begun + mcpJWKSCacheTTL /\ exists ks, ends a = HKeySet ks /\ from_set ks e.
Proof.
  unfold fetched. destruct (redirectsOk (hops a)); [|done]. cbn [negb]. destruct (ends a) as [|c| |[|k ks]]; try done.
  set (e0 := mkEntry ∅ [] (begun + mcpJWKSCacheTTL)).
  assert (forall l e1, (forall x, x ∈ l -> x ∈ k :: ks) -> from_set (k :: ks) e1 -> from_set (k :: ks) (fold_left addJWK l e1) /\ entExpires (fold_left addJWK l e1) = entExpires e1) as HL.
  { induction l as [|x l IH]; intros e1 Hl He; [done|]. cbn [fold_left]. destruct (addJWK_from (k :: ks) e1 x) as [A1 A2]; [apply Hl; by left|done|].
    rewrite <- A2. apply IH; [|done]. intros y Hy. apply Hl. by right. }
  destruct (HL (k :: ks) e0) as [L1 L2]; [done|split; cbn; [intros ? ?; by rewrite lookup_empty|by intros ? ?%elem_of_nil]|].
  destruct (noKeys _); [done|]. intros E. injection E as <-. split_and!; [done|done|]. by exists (k :: ks).
Qed.

Lemma selectKey_from kid ks e k : from_set ks e -> selectKey kid e = Some k ->
  exists j, j ∈ ks /\ usable j k /\ (kid <> ""%string -> KID j = kid) /\ (kid = ""%string -> (size (entKeys e) + length (entAnonymous e) = 1)%nat).
Proof.
  intros [H1 H2]. unfold selectKey. destruct (isEmpty kid) eqn:Ek; cbn [negb].
  - apply isEmpty_true in Ek. subst kid. destruct (Nat.eqb_spec (size (entKeys e) + length (entAnonymous e)) 1) as [E1|]; [|done]. cbn [negb].
    destruct (map_to_list (entKeys e)) as [|[kid k'] l] eqn:El.
    + intros Hh. destruct (H2 k) as (j & ? & ? & ?); [|by exists j]. destruct (entAnonymous e); [done|]. injection Hh as ->. by left.
    + intros Hh. injection Hh as ->. destruct (H1 kid k) as (j & ? & ? & ?); [|by exists j]. apply elem_of_map_to_list. rewrite El. by left.
  - intros Hk. destruct (H1 kid k Hk) as (j & ? & ? & ?). exists j. split_and!; [done|done|done|]. intros ->. done.
Qed.

(** The key set [ks] as request [i] fetched it, beginning at [begun]. *)
Definition docOf (evs : list jwksEv) (s : jwksSys) (i : nat) (url : string) (begun : Z) (ks : list mcpJWK) : Prop :=
  exists t st now a, jReqs s !! i = Some (t, st) /\ tUrl t = url /\ validateMCPHTTPSURL url = true /\
  JAnswer i now a ∈ evs /\ redirectsOk (hops a) = true /\ ends a = HKeySet ks /\ (begun = tNow t \/ exists a', JAnswer i begun a' ∈ evs).
Definition entryOf (evs : list jwksEv) (s : jwksSys) (i : nat) (url : string) (e : mcpJWKSCacheEntry) : Prop :=
  exists begun ks, docOf evs s i url begun ks /\ entExpires e = begun + mcpJWKSCacheTTL /\ from_set ks e.

Definition req_ok (evs : list jwksEv) (s : jwksSys) (i : nat) (t : tokenReq) (st : reqState) : Prop :=
  match st with
  | RFetch _ begun => validateMCPHTTPSURL (tUrl t) = true /\ (begun = tNow t \/ exists a', JAnswer i begun a' ∈ evs)
  | RDone None => True
  | RDone (Some k) => mcpJWTKeyCompatible (tAlg t) k = true /\ exists i' e, entryOf evs s i' (tUrl t) e /\ selectKey (tKid t) e = Some k /\ (i' = i \/ tNow t < entExpires e)
  end.
Record jwks_ok (evs : list jwksEv) (s : jwksSys) : Prop := {
  jo_cache : forall url e, jCache s !! url = Some e -> exists i, entryOf evs s i url e;
  jo_reqs : forall i t st, jReqs s !! i = Some (t, st) -> req_ok evs s i t st
}.

(** Requests stay, with their token. *)
Definition extends (s s' : jwksSys) : Prop := forall i t st, jReqs s !! i = Some (t, st) -> exists st', jReqs s' !! i = Some (t, st').

Lemma entryOf_mono evs ev s s' i url e : extends s s' -> entryOf evs s i url e -> entryOf (evs ++ [ev]) s' i url e.
Proof.
  intros Hx (begun & ks & (t & st & now & a & D1 & D2 & D3 & D4 & D5 & D6 & D7) & F). destruct (Hx _ _ _ D1) as [st' Hs']. exists begun, ks. split; [|done].
  exists t, st', now, a. split_and!; try done; [apply elem_of_app; by left|]. destruct D7 as [?|[a' ?]]; [by left|right]. exists a'. apply elem_of_app. by left.
Qed.
Lemma req_ok_mono evs ev s s' i t st : extends s s' -> req_ok evs s i t st -> req_ok (evs ++ [ev]) s' i t st.
Proof.
  intros Hx. destruct st as [f b|[k|]]; [| |done].
  - intros [H1 [H2|[a' H2]]]; (split; [done|]); [by left|right]. exists a'. apply elem_of_app. by left.
  - intros (H1 & i' & e & H2 & H3). split; [done|]. exists i', e. split; [by apply (entryOf_mono evs ev s)|done].
Qed.

Lemma afterEntry_ok evs s i t e i' now forced : entryOf evs s i' (tUrl t) e -> (i' = i \/ tNow t < entExpires e) -> (now = tNow t \/ exists a, JAnswer i now a ∈ evs) ->
  req_ok evs s i t (afterEntry forced now t e).
Proof.
  intros He Hage Hnow. unfold afterEntry, startFetch. destruct (selectKey (tKid t) e) as [k|] eqn:Ek.
  - destruct (mcpJWTKeyCompatible (tAlg t) k) eqn:Ec; [|done]. split; [done|]. by exists i', e.
  - destruct (negb forced && negb (isEmpty (tKid t))); [|done]. destruct (validateMCPHTTPSURL (tUrl t)) eqn:Ev; [by split|done].
Qed.

Lemma extends_refl s s' : jReqs s' = jReqs s -> extends s s'.
Proof. intros E i t st Hi. exists st. by rewrite E. Qed.
Lemma extends_insert s s' i t st st0 : jReqs s' = <[i := (t, st)]> (jReqs s) -> (jReqs s !! i = None \/ jReqs s !! i = Some (t, st0)) -> extends s s'.
Proof.
  intros E Hi j t' st' Hj. rewrite E. destruct (decide (j = i)) as [->|Hn]; [|exists st'; by rewrite lookup_insert_ne by done].
  exists st. rewrite lookup_insert_eq. destruct Hi as [Hi|Hi]; [congruence|]. rewrite Hi in Hj. by injection Hj as <- _.
Qed.

(** Replacing the state of one request. *)
Lemma jwks_ok_insert evs ev s c i t st n st0 : jwks_ok evs s -> (jReqs s !! i = None \/ jReqs s !! i = Some (t, st0)) ->
  let s' := mkJwks c (<[i := (t, st)]> (jReqs s)) n in
  (forall url e, c !! url = Some e -> jCache s !! url = Some e \/ exists i', entryOf (evs ++ [ev]) s' i' url e) -> req_ok (evs ++ [ev]) s' i t st -> jwks_ok (evs ++ [ev]) s'.
Proof.
  intros [HC HR] Hi s' Hc Hreq. assert (extends s s') as Hx by (by apply (extends_insert s s' i t st st0)). split.
  - intros url e He. destruct (Hc url e He) as [Ho|Ho]; [|done]. destruct (HC url e Ho) as [i' Hi']. exists i'. by apply (entryOf_mono evs ev s).
  - intros j t' st' Hj. cbn [jReqs s'] in Hj. destruct (decide (j = i)) as [->|Hn]; [rewrite lookup_insert_eq in Hj; by injection Hj as <- <-|]. rewrite lookup_insert_ne in Hj by done.
    apply (req_ok_mono evs ev s); [done|]. by apply HR.
Qed.
Lemma jwks_ok_same evs ev s : jwks_ok evs s -> jwks_ok (evs ++ [ev]) s.
Proof.
  intros [HC HR]. assert (extends s s) as Hx by (by apply extends_refl). split.
  - intros url e He. destruct (HC url e He) as [i Hi]. exists i. by apply (entryOf_mono evs ev s).
  - intros i t st Hi. apply (req_ok_mono evs ev s); [done|]. by apply HR.
Qed.

Lemma jwks_ok_step evs ev s : jwks_ok evs s -> jwks_ok (evs ++ [ev]) (jwksStep s ev).
Proof.
  intros Hs. destruct ev as [i t|i now a]; cbn [jwksStep].
  - destruct (jReqs s !! i) as [x|] eqn:Ei; [by apply jwks_ok_same|]. apply (jwks_ok_insert _ _ _ _ _ _ _ _ (RDone None)); [done|by left|by left|].
    set (s' := mkJwks _ _ _). assert (extends s s') as Hx by (apply (extends_insert s s' i t _ (RDone None) eq_refl); by left).
    unfold cached. destruct (jCache s !! tUrl t) as [e|] eqn:Ee.
    + destruct (Z.ltb_spec (tNow t) (entExpires e)).
      * destruct (jo_cache _ _ Hs _ _ Ee) as [i' He]. apply (afterEntry_ok _ _ _ _ _ i'); [by apply (entryOf_mono evs _ s)|by right|by left].
      * unfold startFetch. destruct (validateMCPHTTPSURL (tUrl t)) eqn:Ev; [|done]. split; [done|by left].
    + unfold startFetch. destruct (validateMCPHTTPSURL (tUrl t)) eqn:Ev; [|done]. split; [done|by left].
  - destruct (jReqs s !! i) as [[t [force begun|k]]|] eqn:Ei; [|by apply jwks_ok_same..]. destruct (jo_reqs _ _ Hs _ _ _ Ei) as [Hv Hb].
    destruct (fetched begun a) as [e|] eqn:Ef; [|apply (jwks_ok_insert _ _ _ _ _ _ _ _ (RFetch force begun)); [done|by right|by left|done]].
    destruct (fetched_from _ _ _ Ef) as (F1 & F2 & ks & F3 & F4).
    assert (forall s', jReqs s' !! i = Some (t, afterEntry force now t e) -> entryOf (evs ++ [JAnswer i now a]) s' i (tUrl t) e) as Hentry.
    { intros s' Hs'. exists begun, ks. split; [|done]. exists t, (afterEntry force now t e), now, a. split_and!; try done; [apply elem_of_app; right; by apply list_elem_of_singleton|].
      destruct Hb as [?|[a' ?]]; [by left|right]. exists a'. apply elem_of_app. by left. }
    apply (jwks_ok_insert _ _ _ _ _ _ _ _ (RFetch force begun)); [done|by right| |].
    + intros url e' He'. destruct (decide (url = tUrl t)) as [->|Hn]; [|rewrite lookup_insert_ne in He' by done; by left]. rewrite lookup_insert_eq in He'. injection He' as <-.
      right. exists i. apply Hentry. cbn. by rewrite lookup_insert_eq.
    + apply (afterEntry_ok _ _ _ _ _ i); [apply Hentry; cbn; by rewrite lookup_insert_eq|by left|]. right. exists a. apply elem_of_app. right. by apply list_elem_of_singleton.
Qed.

Lemma jwks_run_ok evs : jwks_ok evs (jwksRun evs).
Proof.
  induction evs as [|ev evs IH] using rev_ind; [split; cbn; intros ? ?; rewrite lookup_empty; [|intros]; done|].
  unfold jwksRun in *. rewrite fold_left_app. cbn [fold_left]. by apply jwks_ok_step.
Qed.

(** C39: Every key that checks a token comes from the configured address.  However requests
    and answers interleave, a key given to the token check stands in a key set that was
    fetched from the address of the token's configuration, over at most two redirects,
    every address being HTTPS or the local machine; it is marked for signatures or not
    marked, has the key id the token names (or is the only key), and fits the token's
    algorithm; and unless the request fetched the set itself, the fetch began less than
    ten minutes before the request. *)
Theorem jwt_key_provenance (evs : list jwksEv) (i : nat) (t : tokenReq) (k : jwtKey) : jReqs (jwksRun evs) !! i = Some (t, RDone (Some k)) ->
  mcpJWTKeyCompatible (tAlg t) k = true /\
  exists i' begun ks j, docOf evs (jwksRun evs) i' (tUrl t) begun ks /\ j ∈ ks /\ usable j k /\ (tKid t <> ""%string -> KID j = tKid t) /\
  (i' = i \/ tNow t < begun + mcpJWKSCacheTTL).
Proof.
  intros Hi. destruct (jo_reqs _ _ (jwks_run_ok evs) _ _ _ Hi) as (Hc & i' & e & (begun & ks & Hd & Hx & Hf) & Hk & Ha). split; [done|].
  destruct (selectKey_from _ _ _ _ Hf Hk) as (j & J1 & J2 & J3 & _). exists i', begun, ks, j. split_and!; try done. by rewrite <- Hx.
Qed.

(** The algorithm of a token is never confused: a key of one kind is only given for the
    algorithms of that kind. *)
Lemma compatible_kind alg k : mcpJWTKeyCompatible alg k = true ->
  match k with KeyRSA _ _ => hasPrefix "RS" alg = true \/ hasPrefix "PS" alg = true | KeyEC _ _ _ => hasPrefix "ES" alg = true | KeyEd25519 _ => alg = "EdDSA"%string end.
Proof. destruct k; cbn; [by rewrite orb_true_iff|done|]. intros E. by apply bool_decide_eq_true in E. Qed.

(** A token with an unknown key id costs a fetch, however fresh the cached set is. *)
Lemma unknown_kid_fetches s i t e : jReqs s !! i = None -> cached (tNow t) (tUrl t) (jCache s) = Some e -> tKid t <> ""%string -> entKeys e !! tKid t = None -> validateMCPHTTPSURL (tUrl t) = true ->
  jFetches (jwksStep s (JToken i t)) = S (jFetches s).
Proof.
  intros Hi Hc Hk He Hv. cbn [jwksStep]. rewrite Hi, Hc. unfold afterEntry, selectKey, startFetch. assert (isEmpty (tKid t) = false) as E by (unfold isEmpty; by apply bool_decide_eq_false).
  rewrite E. cbn [negb]. rewrite He, Hv. cbn. lia.
Qed.
End Fetch.

(** ** Writing and reading a key *)

Definition isByteZ (b : Z) : Prop := 0 <= b < 256.

Lemma b64_char_table : forallb (fun v => bool_decide (b64Val (b64Char v) = Some v) && notEOL (b64Char v)) (seqZ 0 64) = true.
Proof. vm_compute. reflexivity. Qed.
Lemma b64_char v : 0 <= v < 64 -> b64Val (b64Char v) = Some v /\ notEOL (b64Char v) = true.
Proof.
  intros Hv. pose proof b64_char_table as HT. rewrite forallb_forall in HT. specialize (HT v). rewrite andb_true_iff in HT. destruct HT as [H1 H2].
  - apply list_elem_of_In, elem_of_seqZ. lia.
  - split; [by apply bool_decide_eq_true in H1|done].
Qed.


(** The arithmetic of one group. *)
Lemma group_bits a b c : isByteZ a -> isByteZ b -> isByteZ c ->
  (0 <= a / 4 < 64 /\ 0 <= a mod 4 * 16 + b / 16 < 64 /\ 0 <= b mod 16 * 4 + c / 64 < 64 /\ 0 <= c mod 64 < 64) /\
  a / 4 * 4 + (a mod 4 * 16 + b / 16) / 16 = a /\ (a mod 4 * 16 + b / 16) mod 16 * 16 + (b mod 16 * 4 + c / 64) / 4 = b /\ (b mod 16 * 4 + c / 64) mod 4 * 64 + c mod 64 = c.
Proof.
  unfold isByteZ. intros Ha Hb Hc.
  pose proof (Z.div_mod a 4 ltac:(lia)). pose proof (Z.mod_pos_bound a 4 ltac:(lia)). pose proof (Z.div_mod b 16 ltac:(lia)). pose proof (Z.mod_pos_bound b 16 ltac:(lia)).
  pose proof (Z.div_mod c 64 ltac:(lia)). pose proof (Z.mod_pos_bound c 64 ltac:(lia)).
  assert (0 <= a / 4 < 64) by lia. assert (0 <= b / 16 < 16) by lia. assert (0 <= c / 64 < 4) by lia.
  rewrite (Z.div_add_l (a mod 4) 16 (b / 16)), (Z.div_small (b / 16) 16) by lia. rewrite (Z.add_comm (a mod 4 * 16)), Z.mod_add, (Z.mod_small (b / 16) 16) by lia.
  rewrite (Z.div_add_l (b mod 16) 4 (c / 64)), (Z.div_small (c / 64) 4) by lia. rewrite (Z.add_comm (b mod 16 * 4)), Z.mod_add, (Z.mod_small (c / 64) 4) by lia. lia.
Qed.

Lemma b64_roundtrip_bytes l : Forall isByteZ l -> decodeMCPBase64URL (b64Encode l) = Some l.
Proof.
  unfold decodeMCPBase64URL. remember (length l) as n eqn:En. revert l En. induction n as [n IH] using lt_wf_ind. intros l -> HF.
  assert (isByteZ 0) as H0 by (unfold isByteZ; lia).
  destruct l as [|a [|b [|c l]]]; [done|..]; repeat match goal with HH : Forall _ (_ :: _) |- _ => apply Forall_cons in HH as [? HH] end.
  - destruct (group_bits a 0 0) as ((V1 & V2 & _ & _) & E1 & _); [done..|]. change (0 / 16) with 0 in V2, E1. rewrite Z.add_0_r in V2, E1.
    destruct (b64_char _ V1) as [C1 N1], (b64_char _ V2) as [C2 N2]. cbn [b64Encode stringFilter]. rewrite N1, N2. cbn [b64Groups]. rewrite C1, C2. cbn. by rewrite E1.
  - destruct (group_bits a b 0) as ((V1 & V2 & V3 & _) & E1 & E2 & _); [done..|]. change (0 / 64) with 0 in V3, E2. rewrite Z.add_0_r in V3, E2.
    destruct (b64_char _ V1) as [C1 N1], (b64_char _ V2) as [C2 N2], (b64_char _ V3) as [C3 N3]. cbn [b64Encode stringFilter]. rewrite N1, N2, N3. cbn [b64Groups]. rewrite C1, C2, C3. cbn. by rewrite E1, E2.
  - destruct (group_bits a b c) as ((V1 & V2 & V3 & V4) & E1 & E2 & E3); [done..|].
    destruct (b64_char _ V1) as [C1 N1], (b64_char _ V2) as [C2 N2], (b64_char _ V3) as [C3 N3], (b64_char _ V4) as [C4 N4].
    cbn [b64Encode stringFilter]. rewrite N1, N2, N3, N4. cbn [b64Groups]. rewrite C1, C2, C3, C4. cbn [mbind option_bind].
    rewrite (IH (length l)) by (cbn; try lia; done). cbn. by rewrite E1, E2, E3.
Qed.

Lemma bigBytes_spec fuel : forall e acc, 0 <= e < 256 ^ Z.of_nat fuel -> Forall isByteZ acc ->
  exists l, bigBytes fuel e acc = l ++ acc /\ be_dec l = e /\ Forall isByteZ l /\ (0 < e -> l <> []) /\ forall n, e < 256 ^ Z.of_nat n -> (length l <= n)%nat.
Proof.
  induction fuel as [|fuel IH]; intros e acc He Hacc.
  - exists []. cbn. split_and!; [done|cbn in He; unfold be_dec; cbn; lia|constructor|cbn in He; lia|lia].
  - cbn [bigBytes]. destruct (Z.ltb_spec 0 e); [|exists []; split_and!; [done|unfold be_dec; cbn; lia|constructor|lia|cbn; lia]].
    rewrite Z.shiftr_div_pow2 by lia. change 255 with (Z.ones 8). rewrite Z.land_ones by lia. change (2 ^ 8) with 256.
    pose proof (Z.mod_pos_bound e 256 ltac:(lia)) as Hm. pose proof (Z.div_mod e 256 ltac:(lia)) as Hd.
    destruct (IH (e / 256) (e mod 256 :: acc)) as (l & L1 & L2 & L3 & L4 & L5).
    + rewrite Nat2Z.inj_succ, Z.pow_succ_r in He by lia. split; [apply Z.div_pos; lia|apply Z.div_lt_upper_bound; lia].
    + by constructor.
    + exists (l ++ [e mod 256]). split_and!.
      * rewrite L1. by rewrite <- app_assoc.
      * unfold be_dec in *. rewrite fold_left_app, L2. cbn. lia.
      * apply Forall_app. split; [done|by constructor].
      * intros _ E. by destruct l.
      * intros n Hn. rewrite length_app. cbn. destruct n as [|n]; [cbn in Hn; lia|]. rewrite Nat2Z.inj_succ, Z.pow_succ_r in Hn by lia.
        specialize (L5 n). assert (e / 256 < 256 ^ Z.of_nat n) by (apply Z.div_lt_upper_bound; lia). lia.
Qed.

(** The key this program writes it reads back: an RSA key with a positive modulus and
    an exponent from 3 to 2^32 - 1 survives the JSON web key form. *)
Theorem rsa_jwk_roundtrip `{Curves} (n e : Z) (kid : string) : 0 < n -> 3 <= e < 2 ^ 32 -> parseMCPJWK (mcpRSAJWK n e kid) = Some (KeyRSA n e).
Proof.
  intros Hn He. unfold parseMCPJWK, mcpRSAJWK. cbn [KTY jN jE]. rewrite bool_decide_true by done.
  destruct (bigBytes_spec (Z.to_nat (Z.log2 n) + 1) n []) as (ln & N1 & N2 & N3 & N4 & _); [|constructor|].
  { split; [lia|]. pose proof (Z.log2_spec n Hn) as [_ HL]. pose proof (Z.log2_nonneg n). eapply Z.lt_le_trans; [exact HL|].
    rewrite Nat2Z.inj_add, Z2Nat.id by lia. change 256 with (2 ^ 8). rewrite <- Z.pow_mul_r by lia. apply Z.pow_le_mono_r; lia. }
  destruct (bigBytes_spec 8 e []) as (le & E1 & E2 & E3 & E4 & E5); [change (256 ^ Z.of_nat 8) with (2 ^ 64); lia|constructor|].
  unfold numBytes. rewrite N1, E1, !app_nil_r, !b64_roundtrip_bytes by done. specialize (E5 4%nat ltac:(change (256 ^ Z.of_nat 4) with (2 ^ 32); lia)).
  destruct ln as [|x ln]; [by destruct N4|]. destruct le as [|y le]; [destruct E4; [lia|done]|].
  cbn [nonEmpty mbind option_bind]. destruct (Nat.ltb_spec 4 (length (y :: le))); [lia|]. rewrite E2, N2. destruct (Z.ltb_spec e 3); [lia|done].
Qed.

(** ** Examples *)

Definition jwksLib : GoLib := {|
  ParseCIDR := @ParseCIDR demoLib; ParseIP := @ParseIP demoLib; SplitHostPort := @SplitHostPort demoLib;
  parseURL := fun s => if hasPrefix "https://" s then Some (mkURL "https" "idp.example" "idp.example" false "") else None; levelOk := @levelOk demoLib;
  text := @text demoLib; parseText := @parseText demoLib; render := @render demoLib;
  cidr_host := @cidr_host demoLib; cidr_plain := @cidr_plain demoLib; text_roundtrip := @text_roundtrip demoLib |}.
Definition noCurves : Curves := fun _ _ _ => false.

Definition idp : string := "https://idp.example/jwks".
Definition oldSet : httpAnswer := mkAnswer [] (HKeySet [mcpRSAJWK 3233 17 "old"]).
Definition newSet : httpAnswer := mkAnswer [idp] (HKeySet [mcpRSAJWK 8633 5 "new"; mcpRSAJWK 9 3 "old"]).
Definition token (kid : string) (now : Z) : tokenReq := mkToken idp kid "RS256" now.

Lemma rsa_jwk_roundtrip_witness : parseMCPJWK (H := noCurves) (mcpRSAJWK 3233 65537 "a") = Some (KeyRSA 3233 65537) /\ jE (mcpRSAJWK 3233 65537 "a") = "AQAB"%string.
Proof. split; [refine (@rsa_jwk_roundtrip noCurves 3233 65537 "a" _ _); lia|vm_compute; reflexivity]. Defined.

Definition rotation : list jwksEv := [JToken 0 (token "old" 0); JAnswer 0 5 oldSet; JToken 1 (token "new" 1000); JAnswer 1 1100 newSet; JToken 2 (token "new" 2000)].
Lemma jwt_key_provenance_witness :
  jReqs (@jwksRun noCurves jwksLib rotation) !! 2%nat = Some (token "new" 2000, RDone (Some (KeyRSA 8633 5))) /\ jFetches (@jwksRun noCurves jwksLib rotation) = 2%nat /\
  mcpJWTKeyCompatible "RS256" (KeyRSA 8633 5) = true.
Proof.
  split; [vm_compute; reflexivity|]. split; [vm_compute; reflexivity|].
  refine (proj1 (@jwt_key_provenance noCurves jwksLib rotation 2 (token "new" 2000) (KeyRSA 8633 5) _)). vm_compute. reflexivity.
Defined.

(** The store at the end of a fetch does not look at what is there: an answer that was
    under way while a newer set was fetched puts the older set back, and a key that the
    provider has withdrawn is given out again until the older set expires. *)
Theorem late_fetch_restores_old_keys : exists evs, let s := @jwksRun noCurves jwksLib evs in
  JAnswer 1 1100 (mkAnswer [] (HKeySet [mcpRSAJWK 8633 5 "new"])) ∈ evs /\ jReqs s !! 2%nat = Some (token "old" 2000, RDone (Some (KeyRSA 3233 17))) /\
  (exists s1, s1 = @jwksRun noCurves jwksLib (take 3 evs) /\ (entKeys <$> jCache s1 !! idp) = Some {["new"%string := KeyRSA 8633 5]}).
Proof.
  exists [JToken 0 (token "old" 0); JToken 1 (token "new" 100); JAnswer 1 1100 (mkAnswer [] (HKeySet [mcpRSAJWK 8633 5 "new"])); JAnswer 0 1500 oldSet; JToken 2 (token "old" 2000)].
  split_and!; [right; right; left|vm_compute; reflexivity|]. eexists. split; [reflexivity|vm_compute; reflexivity].
Qed.
