(* ===== verification/Proxy.v ===== *)
(** * Outgoing connections (proxy.go, dialer_linux.go; crypto.go and client.go: the trust decision)

    The one dialler of the program, direct or through a SOCKS5 proxy, the unwrapping of a
    connection down to its socket, and what the client accepts as the server's
    certificate.  url.Parse is a parameter, golang.org/x/net/proxy is the connection it
    makes: a socket to the proxy that asks for the target; a dial shown here is one that
    succeeded. *)

From stdpp Require Import base tactics list numbers strings sorting.
From S2P Require Import Prelude Ident Web Config Listeners.
#[local] Open Scope Z_scope.

(** ** The proxy address *)

Record proxyAuth := mkAuth { authUser : string; authPass : string }.
(** url.Parse: scheme, user and password, host. *)
Class SocksURL := parseSocksURL : string -> option (string * option proxyAuth * string).

(** strings.Index and strings.LastIndex of one byte, as the parts around it. *)
Fixpoint cutFirst (n : nat) (s : string) : option (string * string) :=
  match s with
  | EmptyString => None
  | String c r => if (Ascii.nat_of_ascii c =? n)%nat then Some (EmptyString, r) else match cutFirst n r with Some (a, b) => Some (String c a, b) | None => None end
  end.
Fixpoint cutLast (n : nat) (s : string) : option (string * string) :=
  match s with
  | EmptyString => None
  | String c r => match cutLast n r with Some (a, b) => Some (String c a, b) | None => if (Ascii.nat_of_ascii c =? n)%nat then Some (EmptyString, r) else None end
  end.
Fixpoint contains (p s : string) : bool := String.prefix p s || match s with EmptyString => false | String _ r => contains p r end.

Inductive socksErr := SEmpty | SBadURL | SScheme (s : string) | SNoHost | SBadAddr (s : string).

(** ** Connections *)

(** A socket, the two wrappers the code looks through, a SOCKS connection, and the
    observed transport, which shows neither method. *)
Inductive netConn :=
| TCPConn (peer : string) (mark : Z)
| NetConner (inner : netConn)
| Wrapped (inner : netConn)
| SocksConn (inner : netConn) (target : string) (auth : option proxyAuth)
| ObservedProxy (conn : netConn) (tcp : option netConn).

Fixpoint unwrapTCP (i : nat) (c : netConn) : option netConn :=
  match i with
  | O => None
  | S i => match c with TCPConn _ _ => Some c | NetConner c => unwrapTCP i c | Wrapped c => unwrapTCP i c | _ => None end
  end.
Definition underlyingTCPConn (c : netConn) : option netConn := unwrapTCP 4 c.

(** The local socket of a connection, and the address the peer is asked to reach. *)
Fixpoint socketOf (c : netConn) : string * Z :=
  match c with TCPConn p m => (p, m) | NetConner c | Wrapped c | SocksConn c _ _ | ObservedProxy c _ => socketOf c end.

(** ** The global dialler *)

Inductive dialer := Direct (mark : Z) | ViaSocks (host : string) (auth : option proxyAuth) (mark : Z).
Record proxyGlobals := mkGlobals { globalSocks5Addr : string; globalDialer : dialer }.
Definition globals0 : proxyGlobals := mkGlobals "" (Direct 0).

(** socketMarkControl sets SO_MARK for a positive mark only. *)
Definition markOf (fwmark : Z) : Z := if fwmark <=? 0 then 0 else fwmark.
Definition newBaseDialer (fwmark : Z) (addr : string) : netConn := TCPConn addr (markOf fwmark).

Definition isSocks5Enabled (g : proxyGlobals) : bool := negb (isEmpty (globalSocks5Addr g)).
Definition asTCPConn (g : proxyGlobals) (c : netConn) : option netConn :=
  if isSocks5Enabled g then None else match c with TCPConn _ _ => Some c | _ => None end.

(** dialContext: the forwarder of the proxy notes the socket it opens. *)
Definition dialContext (g : proxyGlobals) (addr : string) : netConn :=
  match globalDialer g with
  | Direct m => newBaseDialer m addr
  | ViaSocks host auth m => let tcp := newBaseDialer m host in ObservedProxy (SocksConn tcp addr auth) (Some tcp)
  end.

Section Proxy.
Context `{GoLib} `{SocksURL}.

Definition parseSocks5 (raw : string) : socksErr + (string * option proxyAuth) :=
  let s := trimSpace raw in
  if isEmpty s then inl SEmpty else
  if contains "://" s then
    match parseSocksURL s with
    | None => inl SBadURL
    | Some (scheme, auth, host) =>
      if negb (bool_decide (toLower scheme = "socks5"%string)) && negb (bool_decide (toLower scheme = "socks5h"%string)) then inl (SScheme scheme) else
      if isEmpty host then inl SNoHost else inr (host, auth)
    end
  else
    let '(auth, host) := match cutLast 64 s with
      | None => (None, s)
      | Some (cred, host) => (Some (match cutFirst 58 cred with None => mkAuth cred "" | Some (u, p) => mkAuth u p end), host)
      end in
    match SplitHostPort host with None => inl (SBadAddr host) | Some _ => inr (host, auth) end.

Definition initGlobalProxy (raw : string) (fwmark : Z) (g : proxyGlobals) : proxyGlobals * option socksErr :=
  if isEmpty (trimSpace raw) then (mkGlobals "" (Direct fwmark), None) else
  match parseSocks5 raw with
  | inl e => (g, Some e)
  | inr (host, auth) => (mkGlobals host (ViaSocks host auth fwmark), None)
  end.
Definition inits (l : list (string * Z)) (g : proxyGlobals) : proxyGlobals := fold_left (fun g x => (initGlobalProxy x.1 x.2 g).1) l g.

(** The address and the dialler agree. *)
Definition globals_ok (g : proxyGlobals) : Prop :=
  match globalDialer g with Direct _ => globalSocks5Addr g = ""%string | ViaSocks host _ _ => globalSocks5Addr g = host /\ host <> ""%string end.

Hypothesis split_empty : SplitHostPort "" = None.

Lemma parse_nonempty raw host auth : parseSocks5 raw = inr (host, auth) -> host <> ""%string.
Proof using split_empty.
  unfold parseSocks5. destruct (isEmpty (trimSpace raw)); [done|]. destruct (contains "://" (trimSpace raw)).
  - destruct (parseSocksURL _) as [[[sc a] h]|]; [|done]. destruct (_ && _); [done|]. destruct (isEmpty h) eqn:Eh; [done|]. intros [= -> ->]. by apply bool_decide_eq_false in Eh.
  - destruct (match cutLast 64 (trimSpace raw) with None => _ | Some _ => _ end) as [a h]. destruct (SplitHostPort h) eqn:Es; [|done]. intros [= -> ->] ->. congruence.
Qed.
Lemma init_ok raw fwmark g : globals_ok g -> globals_ok (initGlobalProxy raw fwmark g).1.
Proof using split_empty.
  intros Hg. unfold initGlobalProxy. destruct (isEmpty (trimSpace raw)); [done|]. destruct (parseSocks5 raw) as [e|[h a]] eqn:Ep; [done|]. split; [done|]. by apply (parse_nonempty raw _ a).
Qed.
Lemma inits_ok l g : globals_ok g -> globals_ok (inits l g).
Proof using split_empty. revert g. induction l as [|x l IH]; intros g Hg; [done|]. by apply IH, init_ok. Qed.

(** All or nothing.  After any sequence of initialisations, failed ones included, every
    socket the program opens goes to the proxy if one is set and to the target
    otherwise, the proxy is told the target, and the socket is given to the tuning that
    needs the peer's own path only without a proxy. *)
Theorem proxy_all_or_nothing (l : list (string * Z)) (addr : string) : let g := inits l globals0 in let c := dialContext g addr in
  match globalDialer g with
  | ViaSocks host auth m => isSocks5Enabled g = true /\ socketOf c = (host, markOf m) /\ asTCPConn g c = None /\ exists tcp, c = ObservedProxy (SocksConn tcp addr auth) (Some tcp)
  | Direct m => isSocks5Enabled g = false /\ socketOf c = (addr, markOf m) /\ asTCPConn g c = Some c /\ underlyingTCPConn c = Some c
  end.
Proof using split_empty.
  intros g c. assert (globals_ok g) as Hg by (by apply inits_ok). subst c. unfold globals_ok in Hg. unfold dialContext, asTCPConn, isSocks5Enabled. destruct (globalDialer g) as [m|host auth m].
  - rewrite Hg. done.
  - destruct Hg as [-> Hh]. assert (isEmpty host = false) as -> by (by apply bool_decide_eq_false). cbn. split_and!; try done. by eexists.
Qed.

(** A failed initialisation leaves the dialler as it was. *)
Lemma init_fails_unchanged raw fwmark g e : (initGlobalProxy raw fwmark g).2 = Some e -> (initGlobalProxy raw fwmark g).1 = g.
Proof. unfold initGlobalProxy. destruct (isEmpty (trimSpace raw)); [done|]. by destruct (parseSocks5 raw) as [?|[? ?]]. Qed.

Lemma cutLast_app a b : cutLast 64 b = None -> cutLast 64 (a +:+ String (Ascii.ascii_of_nat 64) b) = Some (a, b).
Proof. intros Hb. induction a as [|c a IH]; [change (cutLast 64 (String (Ascii.ascii_of_nat 64) b) = Some (EmptyString, b)); cbn [cutLast]; rewrite Hb; done|]. change (cutLast 64 (String c (a +:+ String (Ascii.ascii_of_nat 64) b)) = Some (String c a, b)). cbn [cutLast]. by rewrite IH. Qed.
Lemma cutFirst_app a b : hasChar 58 a = false -> cutFirst 58 (a +:+ String (Ascii.ascii_of_nat 58) b) = Some (a, b).
Proof.
  unfold hasChar. rewrite negb_false_iff. induction a as [|c a IH]; [done|]. cbn [allChars]. intros [Hc Ha]%andb_true_iff. apply negb_true_iff in Hc.
  change (cutFirst 58 (String c (a +:+ String (Ascii.ascii_of_nat 58) b)) = Some (String c a, b)). cbn [cutFirst]. by rewrite Hc, IH.
Qed.
Lemma cutLast_none s : hasChar 64 s = false -> cutLast 64 s = None.
Proof. unfold hasChar. rewrite negb_false_iff. induction s as [|c s IH]; [done|]. cbn [allChars cutLast]. intros [Hc Hs]%andb_true_iff. rewrite IH by done. apply negb_true_iff in Hc. by rewrite Hc. Qed.

(** The plain form is read as it is written: the password may have colons and at signs,
    the user no colon. *)
Theorem socks_plain_roundtrip (user pass host : string) (hp : string * string) :
  let raw := (user +:+ String (Ascii.ascii_of_nat 58) (pass +:+ String (Ascii.ascii_of_nat 64) host))%string in
  trimSpace raw = raw -> contains "://" raw = false -> hasChar 58 user = false -> hasChar 64 host = false -> SplitHostPort host = Some hp ->
  parseSocks5 raw = inr (host, Some (mkAuth user pass)).
Proof.
  intros raw Ht Hc Hu Hh Hs. unfold parseSocks5. rewrite Ht. assert (isEmpty raw = false) as -> by (apply bool_decide_eq_false; subst raw; by destruct user). rewrite Hc.
  assert (raw = ((user +:+ String (Ascii.ascii_of_nat 58) pass) +:+ String (Ascii.ascii_of_nat 64) host)%string) as ->.
  { subst raw. clear. induction user as [|c u IH]; [done|]. change (String c (u +:+ String (Ascii.ascii_of_nat 58) (pass +:+ String (Ascii.ascii_of_nat 64) host)) = String c ((u +:+ String (Ascii.ascii_of_nat 58) pass) +:+ String (Ascii.ascii_of_nat 64) host)). by rewrite IH. }
  rewrite cutLast_app by (by apply cutLast_none). rewrite cutFirst_app by done. by rewrite Hs.
Qed.
End Proxy.

(** ** The server's certificate *)

Section Trust.
Context `{WebCrypto}.

(** hex.EncodeToString of a digest against the configured text without its colons, in
    lower case; certificates are byte strings. *)
Definition verifyCertHash (rawCerts : list string) (expected : string) : bool :=
  match rawCerts with
  | [] => false
  | leaf :: _ => bool_decide (hexEncode (sha256s leaf) = toLower (dropChar 58 expected))
  end.

(** negotiateUTLS: what the handshake of the TLS library asks of the certificates.
    [chainOk]: the chain leads to a trusted root for the server name. *)
Definition negotiateUTLS (insecure : bool) (certHash : string) (chainOk : bool) (rawCerts : list string) : bool :=
  (insecure || chainOk) && (isEmpty certHash || verifyCertHash rawCerts certHash).

(** A pin is never weakened: with a pin the client only talks to a server whose first
    certificate has that digest, whatever else is configured; without [insecure] the
    chain has to be trusted as well. *)
Theorem pinned_server_only (insecure chainOk : bool) (certHash : string) (rawCerts : list string) : negotiateUTLS insecure certHash chainOk rawCerts = true ->
  (insecure = false -> chainOk = true) /\
  (certHash <> ""%string -> exists leaf rest, rawCerts = leaf :: rest /\ hexEncode (sha256s leaf) = toLower (dropChar 58 certHash)).
Proof.
  unfold negotiateUTLS. intros [HI HP]%andb_true_iff. split; [by intros ->|]. intros Hne. unfold isEmpty in HP. rewrite bool_decide_false in HP by done. cbn in HP.
  destruct rawCerts as [|leaf rest]; [done|]. exists leaf, rest. split; [done|]. by apply bool_decide_eq_true in HP.
Qed.

Lemma lower_drop s : toLower (dropChar 58 (toLower s)) = toLower (dropChar 58 s).
Proof.
  assert (forall c, (Ascii.nat_of_ascii (lowerAscii c) =? 58)%nat = (Ascii.nat_of_ascii c =? 58)%nat /\ lowerAscii (lowerAscii c) = lowerAscii c) as HL by (intros [[] [] [] [] [] [] [] []]; vm_compute; by split).
  induction s as [|c s IH]; [done|]. cbn [toLower dropChar]. destruct (HL c) as [-> E]. destruct (Ascii.nat_of_ascii c =? 58)%nat; [exact IH|]. cbn [toLower]. by rewrite E, IH.
Qed.

(** The spelling of a pin does not matter: upper or lower case, with or without colons. *)
Theorem pin_spelling (certs : list string) (pin pin' : string) : toLower (dropChar 58 pin) = toLower (dropChar 58 pin') ->
  verifyCertHash certs pin = verifyCertHash certs pin' /\ verifyCertHash certs (toLower pin) = verifyCertHash certs pin.
Proof. intros E. unfold verifyCertHash. destruct certs; [done|]. by rewrite lower_drop, E. Qed.

(** A pin alone does not admit the self-signed certificate that the server makes for
    itself: the chain is checked first. *)
Theorem pin_alone_refuses_self_signed (certHash : string) (rawCerts : list string) : negotiateUTLS false certHash false rawCerts = false.
Proof. done. Qed.
End Trust.

(** ** The list of servers *)

Fixpoint splitComma (s : string) : list string :=
  match s with
  | EmptyString => [EmptyString]
  | String c r => if (Ascii.nat_of_ascii c =? 44)%nat then EmptyString :: splitComma r else
    match splitComma r with x :: l => String c x :: l | [] => [String c EmptyString] end
  end.
Definition parseServerAddresses (addr : string) : list string := filter (fun a => a <> ""%string) (trimSpace <$> splitComma addr).

Lemma splitComma_none s : Forall (fun x => hasChar 44 x = false) (splitComma s).
Proof.
  induction s as [|c s IH]; [by repeat constructor|]. cbn [splitComma]. destruct (Ascii.nat_of_ascii c =? 44)%nat eqn:E; [by constructor|].
  destruct (splitComma s) as [|x l]; [repeat constructor; unfold hasChar; cbn; by rewrite E|]. apply Forall_cons in IH as [Hx IH]. constructor; [|done]. unfold hasChar in *. cbn [allChars]. rewrite E. cbn. exact Hx.
Qed.

(** Every address of the list is trimmed, not empty and without a comma. *)
Theorem server_addresses_clean (addr : string) : Forall (fun a => a <> ""%string /\ trimSpace a = a) (parseServerAddresses addr).
Proof.
  apply Forall_forall. intros a Ha. apply list_elem_of_filter in Ha as [Hne Ha]. split; [done|]. apply list_elem_of_fmap in Ha as (x & -> & _). apply trimSpace_idem.
Qed.

(** ** Examples *)

Definition plainURL : SocksURL := fun s => Some ("socks5"%string, None, "198.51.100.9"%string).

Lemma proxy_all_or_nothing_witness : let g := @inits webLib plainURL [("192.0.2.1:1080", 7); ("no-port", 0)]%string globals0 in
  socketOf (dialContext g "203.0.113.5:443") = ("192.0.2.1:1080"%string, 7) /\ isSocks5Enabled g = true.
Proof. split; [vm_compute; reflexivity|]. exact (proj1 (@proxy_all_or_nothing webLib plainURL eq_refl [("192.0.2.1:1080", 7); ("no-port", 0)]%string "203.0.113.5:443")). Defined.

Lemma socks_plain_roundtrip_witness : @parseSocks5 webLib plainURL "joe:p:w@x@192.0.2.1:1080" = inr ("192.0.2.1:1080"%string, Some (mkAuth "joe" "p:w@x")).
Proof. refine (@socks_plain_roundtrip webLib plainURL "joe" "p:w@x" "192.0.2.1:1080" ("192.0.2.1", "1080")%string _ _ _ _ _); vm_compute; reflexivity. Defined.

Lemma pinned_server_only_witness : exists leaf rest, ["certificate"; "issuer"]%string = leaf :: rest /\ hexEncode (sha256s leaf) = toLower (dropChar 58 (hexEncode (sha256s "certificate"))).
Proof. refine (proj2 (pinned_server_only true false (hexEncode (sha256s "certificate")) ["certificate"; "issuer"]%string _) _); vm_compute; done. Defined.
Lemma pin_spelling_witness : verifyCertHash ["certificate"%string] "AB:CD" = verifyCertHash ["certificate"%string] "abcd".
Proof. refine (proj1 (pin_spelling ["certificate"%string] "AB:CD" "abcd" _)). vm_compute. reflexivity. Defined.

(** With a proxy the socket is not reached through the connection: the tuning of the
    local socket that the comment promises in both modes is skipped. *)
Theorem proxied_socket_hidden (host addr : string) (auth : option proxyAuth) (mark : Z) :
  let c := dialContext (mkGlobals host (ViaSocks host auth mark)) addr in underlyingTCPConn c = None /\ underlyingTCPConn (NetConner c) = None /\ socketOf c = (host, markOf mark).
Proof. done. Qed.

(** A URL without a port is taken as the proxy's address, while the plain form needs one. *)
Theorem proxy_url_without_port : @parseSocks5 webLib plainURL "socks5://198.51.100.9" = inr ("198.51.100.9"%string, None) /\
  @parseSocks5 webLib plainURL "198.51.100.9" = inl (SBadAddr "198.51.100.9").
Proof. vm_compute. by split. Qed.
