(* ===== verification/Diagnostics.v ===== *)
(** * The diagnostic history of the dashboard (web_diagnostics.go)

    A sampler turns the counters of the program into rates: sixty fine points, a list of
    completed minutes and the points of the current minute.  Counters are compared with
    those of the sample before; where that makes no sense the point has a gap.  Rates are
    IEEE doubles (SpecFloat).  The counters of a sample are its argument. *)

From Stdlib Require Import SpecFloat.
From stdpp Require Import base tactics list numbers list_numbers sorting gmap strings.
From S2P Require Import Prelude Events Traffic.
#[local] Open Scope Z_scope.

Definition fmul : spec_float -> spec_float -> spec_float := SFmul 53 1024.
Definition fpos (x : spec_float) : bool := SFltb (f64 0) x.

Definition diagnosticConnectionLimit : nat := 32.
Notation metrics := (gmap string (option spec_float)).

Record diagnosticConn := mkDConn { dID : string; dClient : string; dLabel : string; dMetrics : metrics }.
Record diagnosticPoint := mkDPoint { pSeconds : spec_float; pT : Z; pMetrics : metrics; pConns : list diagnosticConn; pTruncated : bool }.
Record diagnosticBaseline := mkBase { bInstance : string; bT : Z; bCounters : gmap string Z; bConns : gmap string (gmap string Z); bPadEpoch : Z }.
Record diagnosticHistory := mkHist { dPrev : diagnosticBaseline; dRecent : list diagnosticPoint; dMinutes : list diagnosticPoint; dBucket : list diagnosticPoint }.
Record diagnosticSnapshot := mkDSnap { snapInstance : string; snapStep : Z; snapPoints : list diagnosticPoint }.
Definition base0 : diagnosticBaseline := mkBase "" 0 ∅ ∅ 0.
Definition hist0 : diagnosticHistory := mkHist base0 [] [] [].

(** What the sampler reads. *)
Record padCounters := mkPadC { padBytes : Z; padWire : Z; padEpoch : Z }.
Record connCounters := mkConnC { ccID : string; ccClient : string; ccLabel : string; ccTx : Z; ccRx : Z; ccRtt : Z; ccAssigned : Z; ccQueued : Z }.
Record WebStats := mkStats {
  sInstance : string; sTime : Z; sMode : string; sDataWire : Z; sParityWire : Z; sRecovered : Z; sLost : Z; sReconnect : Z; sDropped : Z; sTapErrors : Z;
  sPad : option padCounters; sLive : Z; sUpConns : list connCounters; sServerConns : list connCounters }.

Definition diagnosticRate (now old : Z) (secs : spec_float) (valid : bool) : option spec_float :=
  if negb valid || negb (fpos secs) || (now <? old) then None else Some (fdiv (f64 (now - old)) secs).
Definition ratio (a b : option spec_float) : option spec_float :=
  match a, b with Some a, Some b => if fpos b then Some (fdiv (fmul (f64 100) a) b) else None | _, _ => None end.

Definition secondsOf (s : WebStats) (prev : diagnosticBaseline) : spec_float := fdiv (f64 (sTime s - bT prev)) (f64 1000).
(** A baseline that is not too old. *)
Definition validOf (s : WebStats) (prev : diagnosticBaseline) : bool := negb (bT prev =? 0) && SFleb (secondsOf s prev) (f64 10).

Definition countersOf (s : WebStats) : gmap string Z :=
  let c := list_to_map [("fec_data", sDataWire s); ("fec_parity", sParityWire s); ("recovered", sRecovered s); ("lost", sLost s); ("reconnect", sReconnect s); ("drop", sDropped s); ("tap_error", sTapErrors s)]%string in
  let c := if bool_decide (sMode s = "client"%string) then c else delete "reconnect"%string c in
  match sPad s with Some p => <["pad_wire" := padWire p]> (<["pad" := padBytes p]> c) | None => c end.

(** A map of counters against the map of the sample before. *)
Definition ratesOf (cur old : gmap string Z) (secs : spec_float) (valid : bool) : metrics :=
  map_imap (fun k v => Some (diagnosticRate v (default 0 (old !! k)) secs (valid && bool_decide (is_Some (old !! k))))) cur.

Definition pointMetrics (s : WebStats) (prev : diagnosticBaseline) : metrics :=
  let secs := secondsOf s prev in
  let m := ratesOf (countersOf s) (bCounters prev) secs (validOf s prev) in
  let m := <["online" := Some (f64 (sLive s))]> m in
  let m := if match sPad s with None => true | Some p => negb (padEpoch p =? bPadEpoch prev) end then <["pad_wire" := None]> (<["pad" := None]> m) else m in
  let get k := default None (m !! k) in
  <["pad_pct" := ratio (get "pad") (get "pad_wire")]> (<["fec_pct" := ratio (get "fec_parity") (get "fec_data")]> m).

(** The closure [add]: one connection. *)
Definition connCurrent (s : WebStats) (c : connCounters) : gmap string Z :=
  let up := if bool_decide (sMode s = "server"%string) then ccRx c else ccTx c in
  let down := if bool_decide (sMode s = "server"%string) then ccTx c else ccRx c in
  <["up" := up]> (<["down" := down]> {["assigned" := ccAssigned c]}).
Definition connMetrics (s : WebStats) (prev : diagnosticBaseline) (c : connCounters) : metrics :=
  let old := bConns prev !! ccID c in
  let cur := connCurrent s c in
  let m := map_imap (fun k v => Some (diagnosticRate v (default 0 (default ∅ old !! k)) (secondsOf s prev) (validOf s prev && bool_decide (is_Some old)))) cur in
  <["rtt" := if 0 <? ccRtt c then Some (f64 (ccRtt c)) else None]> (<["queue" := Some (f64 (ccQueued c))]> m).
Definition addConn (s : WebStats) (prev : diagnosticBaseline) (st : list diagnosticConn * gmap string (gmap string Z)) (c : connCounters) : list diagnosticConn * gmap string (gmap string Z) :=
  if bool_decide (ccID c = ""%string) then st else
  (st.1 ++ [mkDConn (ccID c) (ccClient c) (ccLabel c) (connMetrics s prev c)], <[ccID c := connCurrent s c]> st.2).

(** sort.Slice by id. *)
Definition connLe (a b : diagnosticConn) : Prop := String.le (dID a) (dID b).
#[export] Instance connLe_dec : RelDecision connLe.
Proof. intros a b. unfold connLe. apply _. Defined.
#[export] Instance connLe_trans : Transitive connLe.
Proof. intros a b c. unfold connLe. apply transitivity. Qed.
#[export] Instance connLe_total : Total connLe.
Proof. intros a b. unfold connLe. apply (total String.le). Qed.
Definition sortConns : list diagnosticConn -> list diagnosticConn := merge_sort connLe.

Definition keepOnly (ids : list string) (m : gmap string (gmap string Z)) : gmap string (gmap string Z) := filter (fun x => x.1 ∈ ids) m.

(** The point of a sample and the connections of the next baseline. *)
Definition makePoint (s : WebStats) (prev : diagnosticBaseline) : diagnosticPoint * gmap string (gmap string Z) :=
  let '(cs, next) := fold_left (addConn s prev) (sUpConns s ++ sServerConns s) ([], ∅) in
  let cs := sortConns cs in
  let weight := if validOf s prev then secondsOf s prev else f64 2 in
  if (diagnosticConnectionLimit <? length cs)%nat then
    let cs := take diagnosticConnectionLimit cs in (mkDPoint weight (sTime s) (pointMetrics s prev) cs true, keepOnly (dID <$> cs) next)
  else (mkDPoint weight (sTime s) (pointMetrics s prev) cs false, next).

(** ** Means *)

Notation sums := (gmap string (spec_float * spec_float)).
Definition addMetric (weight : spec_float) (acc : sums) (kv : string * option spec_float) : sums :=
  match kv.2 with
  | None => acc
  | Some v => let old := default (f64 0, f64 0) (acc !! kv.1) in <[kv.1 := (fadd old.1 (fmul v weight), fadd old.2 weight)]> acc
  end.
Definition addMetrics (weight : spec_float) (m : metrics) (acc : sums) : sums := fold_left (addMetric weight) (map_to_list m) acc.
Definition means (acc : sums) : metrics := (fun x => Some (fdiv x.1 x.2)) <$> acc.

Record aggState := mkAgg { agSeconds : spec_float; agTrunc : bool; agSums : sums; agConns : gmap string (diagnosticConn * sums) }.
Definition addAggConn (weight : spec_float) (st : bool * gmap string (diagnosticConn * sums)) (c : diagnosticConn) : bool * gmap string (diagnosticConn * sums) :=
  match st.2 !! dID c with
  | Some (c0, acc) => (st.1, <[dID c := (c0, addMetrics weight (dMetrics c) acc)]> st.2)
  | None => if (diagnosticConnectionLimit <=? size st.2)%nat then (true, st.2) else (st.1, <[dID c := (c, addMetrics weight (dMetrics c) ∅)]> st.2)
  end.
Definition addPoint (a : aggState) (p : diagnosticPoint) : aggState :=
  let weight := if fpos (pSeconds p) then pSeconds p else f64 2 in
  let '(tr, cs) := fold_left (addAggConn weight) (pConns p) (agTrunc a || pTruncated p, agConns a) in
  mkAgg (fadd (agSeconds a) weight) tr (addMetrics weight (pMetrics p) (agSums a)) cs.

Definition lastT (ps : list diagnosticPoint) : Z := default 0 (pT <$> last ps).
Definition aggregateDiagnostics (points : list diagnosticPoint) : diagnosticPoint :=
  let a := fold_left addPoint points (mkAgg (f64 0) false ∅ ∅) in
  let m := means (agSums a) in
  let get k := default None (m !! k) in
  mkDPoint (agSeconds a) (lastT points) (<["pad_pct" := ratio (get "pad") (get "pad_wire")]> (<["fec_pct" := ratio (get "fec_parity") (get "fec_data")]> m))
    (sortConns ((fun x => mkDConn (dID x.2.1) (dClient x.2.1) (dLabel x.2.1) (means x.2.2)) <$> map_to_list (agConns a))) (agTrunc a).

(** ** Recording *)

Definition minuteOf (t : Z) : Z := Z.quot t 60000.
Definition pushPoint (p : diagnosticPoint) (recent minutes bucket : list diagnosticPoint) : list diagnosticPoint * list diagnosticPoint * list diagnosticPoint :=
  let recent := keepLast 60 (recent ++ [p]) in
  match bucket with
  | b :: _ => if negb (minuteOf (pT b) =? minuteOf (pT p)) then (recent, keepLast 1440 (minutes ++ [aggregateDiagnostics bucket]), [p]) else (recent, minutes, bucket ++ [p])
  | [] => (recent, minutes, [p])
  end.
Definition record (s : WebStats) (h : diagnosticHistory) : diagnosticHistory :=
  let h := if bool_decide (bInstance (dPrev h) = sInstance s) then h else hist0 in
  if sTime s <=? bT (dPrev h) then h else
  let '(p, next) := makePoint s (dPrev h) in
  let '(r, m, b) := pushPoint p (dRecent h) (dMinutes h) (dBucket h) in
  mkHist (mkBase (sInstance s) (sTime s) (countersOf s) next (default 0 (padEpoch <$> sPad s))) r m b.
Definition recordAll (ss : list WebStats) (h : diagnosticHistory) : diagnosticHistory := fold_left (fun h s => record s h) ss h.

(** ** Reading *)

(** The loop over the selected points: groups of one step, each aggregated. *)
Fixpoint spanStep (step : Z) (t : Z) (ps : list diagnosticPoint) : list diagnosticPoint * list diagnosticPoint :=
  match ps with
  | [] => ([], [])
  | p :: r => if Z.quot (pT p) step =? Z.quot t step then let '(a, b) := spanStep step t r in (p :: a, b) else ([], ps)
  end.
Fixpoint groupPoints (fuel : nat) (step : Z) (ps : list diagnosticPoint) : list diagnosticPoint :=
  match fuel, ps with
  | S fuel, p :: r => let '(a, b) := spanStep step (pT p) r in aggregateDiagnostics (p :: a) :: groupPoints fuel step b
  | _, _ => []
  end.
Definition snapshotDiag (rng : string) (h : diagnosticHistory) : diagnosticSnapshot :=
  let t := bT (dPrev h) in
  if bool_decide (rng = "2m"%string) then mkDSnap (bInstance (dPrev h)) 2 (List.filter (fun p => t - 120000 <=? pT p) (dRecent h)) else
  let raw := dMinutes h ++ match dBucket h with [] => [] | b => [aggregateDiagnostics b] end in
  let day := bool_decide (rng = "24h"%string) in
  let sel := List.filter (fun p => t - (if day then 86400000 else 3600000) <=? pT p) raw in
  mkDSnap (bInstance (dPrev h)) (if day then 300 else 60) (groupPoints (length sel) (if day then 300000 else 60000) sel).

(** ** Rates and gaps *)

Lemma rate_some now old secs valid r : diagnosticRate now old secs valid = Some r -> valid = true /\ fpos secs = true /\ old <= now /\ r = fdiv (f64 (now - old)) secs.
Proof.
  unfold diagnosticRate. destruct valid, (fpos secs), (Z.ltb_spec now old); cbn; try done. intros E. injection E as <-. done.
Qed.

Lemma rates_some cur old secs valid k r : ratesOf cur old secs valid !! k = Some (Some r) ->
  exists n o, cur !! k = Some n /\ old !! k = Some o /\ valid = true /\ o <= n /\ r = fdiv (f64 (n - o)) secs.
Proof.
  unfold ratesOf. rewrite map_lookup_imap. destruct (cur !! k) as [n|]; [|done]. cbn. intros E. injection E as E. apply rate_some in E as (Hv & _ & Ho & Hr).
  apply andb_true_iff in Hv as [Hv Hs]. apply bool_decide_eq_true in Hs as [o Ho']. rewrite Ho' in Ho, Hr. cbn in Ho, Hr. by exists n, o.
Qed.

Definition derived : list string := ["online"; "fec_pct"; "pad_pct"]%string.

(** A metric that is no gap is the rate of its counter since the baseline. *)
Lemma point_metric s prev k r : k ∉ derived -> pointMetrics s prev !! k = Some (Some r) ->
  (exists n o, countersOf s !! k = Some n /\ bCounters prev !! k = Some o /\ validOf s prev = true /\ o <= n /\ r = fdiv (f64 (n - o)) (secondsOf s prev)) /\
  (k = "pad"%string \/ k = "pad_wire"%string -> exists p, sPad s = Some p /\ padEpoch p = bPadEpoch prev).
Proof.
  intros Hk. unfold derived in Hk. rewrite !not_elem_of_cons in Hk. destruct Hk as (K1 & K2 & K3 & _). unfold pointMetrics.
  rewrite !lookup_insert_ne by done. set (cond := match sPad s with None => true | Some _ => _ end). intros Hm.
  assert (cond = false \/ (k <> "pad" /\ k <> "pad_wire")%string) as Hc.
  { destruct cond; [right|by left]. split; intros ->; [rewrite lookup_insert_ne, lookup_insert_eq in Hm by done|rewrite lookup_insert_eq in Hm]; done. }
  assert (ratesOf (countersOf s) (bCounters prev) (secondsOf s prev) (validOf s prev) !! k = Some (Some r)) as Hr.
  { destruct cond; [destruct Hc as [?|[? ?]]; [done|]; by rewrite !lookup_insert_ne in Hm by done|]. by rewrite lookup_insert_ne in Hm by done. }
  split; [by apply rates_some|]. intros Hp. destruct Hc as [Hc|[? ?]]; [|by destruct Hp]. subst cond. destruct (sPad s) as [p|]; [|done]. exists p. split; [done|]. apply negb_false_iff in Hc. lia.
Qed.

Lemma conn_metric s prev c k r : k ∉ ["rtt"; "queue"]%string -> connMetrics s prev c !! k = Some (Some r) ->
  validOf s prev = true /\ exists old n, bConns prev !! ccID c = Some old /\ connCurrent s c !! k = Some n /\ default 0 (old !! k) <= n /\ r = fdiv (f64 (n - default 0 (old !! k))) (secondsOf s prev).
Proof.
  rewrite !not_elem_of_cons. intros (K1 & K2 & _). unfold connMetrics. rewrite !lookup_insert_ne by done. rewrite map_lookup_imap. destruct (connCurrent s c !! k) as [n|]; [|done]. cbn.
  intros E. injection E as E. apply rate_some in E as (Hv & _ & Ho & Hr). apply andb_true_iff in Hv as [Hv Hs]. apply bool_decide_eq_true in Hs as [old Hold]. rewrite Hold in Ho, Hr. cbn in Ho, Hr.
  split; [done|]. by exists old, n.
Qed.

(** The connections of a point come from the sample, and the next baseline holds
    connections of the point only. *)
Lemma addConn_from s prev cs : let '(ds, next) := fold_left (addConn s prev) cs ([], ∅) in
  Forall (fun d => exists c, c ∈ cs /\ ccID c <> ""%string /\ d = mkDConn (ccID c) (ccClient c) (ccLabel c) (connMetrics s prev c)) ds /\
  (forall id m, next !! id = Some m -> id ∈ dID <$> ds /\ exists c, c ∈ cs /\ ccID c = id /\ m = connCurrent s c).
Proof.
  induction cs as [|c cs IH] using rev_ind; [split; [constructor|intros ? ?; by rewrite lookup_empty]|].
  rewrite fold_left_app. cbn [fold_left]. destruct (fold_left (addConn s prev) cs ([], ∅)) as [ds next]. destruct IH as [I1 I2]. unfold addConn. cbn [fst snd].
  assert (forall x, x ∈ cs -> x ∈ cs ++ [c]) as Hin by (intros x Hx; apply elem_of_app; by left). assert (c ∈ cs ++ [c]) as Hc by (apply elem_of_app; right; by apply list_elem_of_singleton).
  case_bool_decide as Hid.
  - split; [eapply Forall_impl; [exact I1|]; intros d (x & ? & ?); exists x; by split; [apply Hin|]|]. intros id m Hm. destruct (I2 id m Hm) as (? & x & ? & ?). split; [done|]. exists x. by split; [apply Hin|].
  - split.
    + apply Forall_app. split; [eapply Forall_impl; [exact I1|]; intros d (x & ? & ?); exists x; by split; [apply Hin|]|]. apply Forall_singleton. by exists c.
    + intros id m Hm. rewrite fmap_app. destruct (decide (id = ccID c)) as [->|Hn].
      * rewrite lookup_insert_eq in Hm. injection Hm as <-. split; [apply elem_of_app; right; cbn; by apply list_elem_of_singleton|by exists c].
      * rewrite lookup_insert_ne in Hm by done. destruct (I2 id m Hm) as (? & x & ? & ?). split; [apply elem_of_app; by left|]. exists x. by split; [apply Hin|].
Qed.

Definition point_ok (p : diagnosticPoint) : Prop := (length (pConns p) <= diagnosticConnectionLimit)%nat /\ StronglySorted connLe (pConns p).

Lemma SS_take {A} (R : A -> A -> Prop) n l : StronglySorted R l -> StronglySorted R (take n l).
Proof. intros HS. rewrite <- (take_drop n l) in HS. by apply StronglySorted_app in HS as (_ & ? & _). Qed.
Lemma SS_drop {A} (R : A -> A -> Prop) n l : StronglySorted R l -> StronglySorted R (drop n l).
Proof. intros HS. rewrite <- (take_drop n l) in HS. by apply StronglySorted_app in HS as (_ & _ & ?). Qed.

Lemma makePoint_ok s prev : let '(p, next) := makePoint s prev in
  pT p = sTime s /\ pMetrics p = pointMetrics s prev /\ point_ok p /\
  Forall (fun d => exists c, c ∈ sUpConns s ++ sServerConns s /\ ccID c <> ""%string /\ d = mkDConn (ccID c) (ccClient c) (ccLabel c) (connMetrics s prev c)) (pConns p) /\
  (forall id, is_Some (next !! id) -> id ∈ dID <$> pConns p).
Proof.
  unfold makePoint. pose proof (addConn_from s prev (sUpConns s ++ sServerConns s)) as HF. destruct (fold_left (addConn s prev) _ _) as [ds next]. destruct HF as [F1 F2].
  assert (sortConns ds ≡ₚ ds) as HP by apply merge_sort_Permutation. assert (StronglySorted connLe (sortConns ds)) as HS by (apply StronglySorted_merge_sort; apply _). rewrite <- HP in F1.
  destruct (Nat.ltb_spec diagnosticConnectionLimit (length (sortConns ds))).
  - cbn [pT pMetrics pConns]. split_and!; [done|done|split; cbn [pConns]; [rewrite length_take; lia|by apply SS_take]|by apply Forall_take|].
    intros id [m Hm]. unfold keepOnly in Hm. apply map_lookup_filter_Some in Hm as [_ Hm]. exact Hm.
  - cbn [pT pMetrics pConns]. split_and!; [done|done|by split|done|]. intros id [m Hm]. rewrite HP. by apply (F2 id m).
Qed.

Lemma keepEnd_snoc {A} n (l : list A) x : (1 <= n)%nat -> last (keepLast n (l ++ [x])) = Some x.
Proof.
  intros Hn. unfold keepLast. destruct (Nat.ltb_spec n (length (l ++ [x]))); [|apply last_snoc]. rewrite length_app in *. cbn [length] in *. rewrite drop_app_le by lia. apply last_snoc.
Qed.
Lemma record_shape s h : bInstance (dPrev h) = sInstance s -> bT (dPrev h) < sTime s -> exists p next m b, makePoint s (dPrev h) = (p, next) /\
  record s h = mkHist (mkBase (sInstance s) (sTime s) (countersOf s) next (default 0 (padEpoch <$> sPad s))) (keepLast 60 (dRecent h ++ [p])) m b.
Proof.
  intros Hi Ht. unfold record. rewrite bool_decide_true by done. destruct (Z.leb_spec (sTime s) (bT (dPrev h))); [lia|]. destruct (makePoint s (dPrev h)) as [p next]. unfold pushPoint.
  destruct (dBucket h) as [|b bs]; [by do 4 eexists|]. destruct (negb _); by do 4 eexists.
Qed.

(** Every number in the history stands for something observed.  A point that a sample adds
    has a rate for a counter only if the sample before it was of the same process and at
    most ten seconds older, had that counter, and the counter has not gone back; the rate
    is the growth over the measured time.  The same holds for each connection, by its
    identity; padding rates also need the same padding epoch; and only the connections a
    point shows, at most 32 in the order of their ids, are the baseline of the next. *)
Theorem diagnostic_gaps (s : WebStats) (h : diagnosticHistory) : let prev := dPrev h in
  bInstance prev = sInstance s -> bT prev < sTime s ->
  exists p, last (dRecent (record s h)) = Some p /\ pT p = sTime s /\ point_ok p /\
  (forall k r, k ∉ derived -> pMetrics p !! k = Some (Some r) ->
    (exists n o, countersOf s !! k = Some n /\ bCounters prev !! k = Some o /\ validOf s prev = true /\ o <= n /\ r = fdiv (f64 (n - o)) (secondsOf s prev)) /\
    (k = "pad"%string \/ k = "pad_wire"%string -> exists q, sPad s = Some q /\ padEpoch q = bPadEpoch prev)) /\
  (forall d k r, d ∈ pConns p -> k ∉ ["rtt"; "queue"]%string -> dMetrics d !! k = Some (Some r) -> validOf s prev = true /\ is_Some (bConns prev !! dID d)) /\
  (forall id, is_Some (bConns (dPrev (record s h)) !! id) -> id ∈ dID <$> pConns p).
Proof.
  intros prev Hi Ht. destruct (record_shape s h Hi Ht) as (p & next & m & b & EP & ER). fold prev in EP. pose proof (makePoint_ok s prev) as HM. rewrite EP in HM. destruct HM as (M1 & M2 & M3 & M4 & M5).
  exists p. rewrite ER. cbn [dRecent dPrev bConns]. split_and!; [apply keepEnd_snoc; lia|done|done| | |done].
  - intros k v Hk Hv. rewrite M2 in Hv. exact (point_metric s prev k v Hk Hv).
  - intros d k v Hd Hk Hv. rewrite Forall_forall in M4. destruct (M4 d Hd) as (c & _ & _ & ->). cbn [dMetrics dID] in *. destruct (conn_metric s prev c k v Hk Hv) as [Hval (old & n & Ho & _)]. split; [done|by exists old].
Qed.

(** ** Retention *)

Lemma sorted_count (l : list Z) lo hi : StronglySorted Z.lt l -> Forall (fun x => lo <= x < hi) l -> Z.of_nat (length l) <= Z.max 0 (hi - lo).
Proof.
  revert lo. induction l as [|x l IH]; intros lo HS HF; [cbn; lia|]. apply StronglySorted_inv in HS as [HS HX]. apply Forall_cons in HF as [Hx HF].
  specialize (IH (x + 1) HS). cbn [length]. assert (Forall (fun y => x + 1 <= y < hi) l) as HF'.
  { apply Forall_forall. intros y Hy. rewrite Forall_forall in HF, HX. specialize (HF y Hy). specialize (HX y Hy). lia. }
  specialize (IH HF'). lia.
Qed.
Lemma SS_snoc {A} (R : A -> A -> Prop) l x : StronglySorted R l -> Forall (fun y => R y x) l -> StronglySorted R (l ++ [x]).
Proof.
  induction 1 as [|y l HS IH HY]; intros HF; [by repeat constructor|]. apply Forall_cons in HF as [Hy HF]. cbn. constructor; [by apply IH|]. apply Forall_app. split; [done|by repeat constructor].
Qed.
Lemma keepEnd_drop {A} n (l : list A) : exists k, keepLast n l = drop k l /\ (length (keepLast n l) <= n)%nat.
Proof.
  unfold keepLast. destruct (Nat.ltb_spec n (length l)); [exists (length l - n)%nat; split; [done|rewrite length_drop; lia]|]. exists 0%nat. split; [done|lia].
Qed.

Lemma agg_conns ps : let a := fold_left addPoint ps (mkAgg (f64 0) false ∅ ∅) in (size (agConns a) <= diagnosticConnectionLimit)%nat.
Proof.
  assert (forall w cs st, (size (st.2 : gmap string (diagnosticConn * sums)) <= diagnosticConnectionLimit)%nat -> (size (fold_left (addAggConn w) cs st).2 <= diagnosticConnectionLimit)%nat) as HC.
  { intros w. induction cs as [|c cs IH]; intros [tr m] Hm; [done|]. cbn [fold_left]. apply IH. unfold addAggConn. cbn [fst snd] in *. destruct (m !! dID c) as [[c0 acc]|] eqn:E.
    - cbn [snd]. rewrite map_size_insert_Some; [done|by eexists].
    - destruct (Nat.leb_spec diagnosticConnectionLimit (size m)); [done|]. cbn [snd]. rewrite map_size_insert_None by done. lia. }
  assert (forall a, (size (agConns a) <= diagnosticConnectionLimit)%nat -> (size (agConns (fold_left addPoint ps a)) <= diagnosticConnectionLimit)%nat) as HP.
  { induction ps as [|p ps IH]; intros a Ha; [done|]. cbn [fold_left]. apply IH. unfold addPoint. set (w := if fpos _ then _ else _). specialize (HC w (pConns p) (agTrunc a || pTruncated p, agConns a) Ha).
    destruct (fold_left (addAggConn w) _ _) as [tr cs]. exact HC. }
  apply HP. cbn [agConns]. rewrite map_size_empty. lia.
Qed.
Lemma aggregate_ok ps : point_ok (aggregateDiagnostics ps) /\ pT (aggregateDiagnostics ps) = lastT ps.
Proof.
  pose proof (agg_conns ps) as HC. split; [|done]. unfold aggregateDiagnostics, point_ok. cbn [pConns]. set (cs := fmap _ (map_to_list _)). split.
  - unfold sortConns. rewrite (merge_sort_Permutation connLe cs). subst cs. by rewrite length_fmap, length_map_to_list.
  - apply StronglySorted_merge_sort; apply _.
Qed.
Lemma lastT_in p ps : exists q, q ∈ p :: ps /\ lastT (p :: ps) = pT q.
Proof.
  unfold lastT. destruct (last (p :: ps)) as [q|] eqn:E; [|by apply last_None in E]. exists q. split; [|done]. apply last_Some in E as [l ->]. apply elem_of_app. right. by apply list_elem_of_singleton.
Qed.

Record hist_ok (h : diagnosticHistory) : Prop := {
  ho_t : 0 <= bT (dPrev h);
  ho_recent : StronglySorted Z.lt (pT <$> dRecent h) /\ Forall (fun p => 0 < pT p <= bT (dPrev h)) (dRecent h) /\ (length (dRecent h) <= 60)%nat;
  ho_bucket : StronglySorted Z.lt (pT <$> dBucket h) /\ Forall (fun p => 0 < pT p <= bT (dPrev h) /\ minuteOf (pT p) = minuteOf (bT (dPrev h))) (dBucket h);
  ho_minutes : StronglySorted Z.lt ((fun p => minuteOf (pT p)) <$> dMinutes h) /\ Forall (fun p => 0 < pT p <= bT (dPrev h) /\ minuteOf (pT p) < minuteOf (bT (dPrev h))) (dMinutes h) /\ (length (dMinutes h) <= 1440)%nat;
  ho_points : Forall point_ok (dRecent h ++ dMinutes h ++ dBucket h)
}.

Lemma hist0_ok : hist_ok hist0.
Proof. split; cbn; try lia; repeat split; try constructor; cbn; lia. Qed.

Lemma minuteOf_div t : 0 <= t -> minuteOf t = t / 60000.
Proof. intros Ht. unfold minuteOf. apply Z.quot_div_nonneg; lia. Qed.
Lemma minuteOf_mono a b : 0 <= a <= b -> minuteOf a <= minuteOf b.
Proof. intros Hab. rewrite !minuteOf_div by lia. apply Z.div_le_mono; lia. Qed.

Lemma fmap_snoc_sorted {A} (f : A -> Z) l x : StronglySorted Z.lt (f <$> l) -> Forall (fun y => f y < f x) l -> StronglySorted Z.lt (f <$> l ++ [x]).
Proof. intros HS HF. rewrite fmap_app. cbn. apply SS_snoc; [done|]. by apply Forall_fmap. Qed.
Lemma fmap_keep_sorted {A} (f : A -> Z) n l : StronglySorted Z.lt (f <$> l) -> StronglySorted Z.lt (f <$> keepLast n l).
Proof. intros HS. destruct (keepEnd_drop n l) as (k & -> & _). rewrite fmap_drop. by apply SS_drop. Qed.
Lemma Forall_keep {A} (P : A -> Prop) n l : Forall P l -> Forall P (keepLast n l).
Proof. intros HF. destruct (keepEnd_drop n l) as (k & -> & _). by apply Forall_drop. Qed.

Lemma push_ok h p base : hist_ok h -> point_ok p -> bT (dPrev h) < pT p -> bT base = pT p ->
  let '(r, m, b) := pushPoint p (dRecent h) (dMinutes h) (dBucket h) in hist_ok (mkHist base r m b).
Proof.
  intros [HT (R1 & R2 & R3) (B1 & B2) (M1 & M2 & M3) HP] Hp Hlt Hb. apply Forall_app in HP as [P1 HP]. apply Forall_app in HP as [P2 P3].
  assert (forall q, 0 < pT q <= bT (dPrev h) -> 0 < pT q <= pT p) as HU by lia.
  assert (StronglySorted Z.lt (pT <$> keepLast 60 (dRecent h ++ [p])) /\ Forall (fun q => 0 < pT q <= bT base) (keepLast 60 (dRecent h ++ [p])) /\ (length (keepLast 60 (dRecent h ++ [p])) <= 60)%nat /\ Forall point_ok (keepLast 60 (dRecent h ++ [p]))) as (N1 & N2 & N3 & N4).
  { rewrite Hb. split_and!.
    - apply fmap_keep_sorted, fmap_snoc_sorted; [done|]. eapply Forall_impl; [exact R2|]. cbn. lia.
    - apply Forall_keep, Forall_app. split; [eapply Forall_impl; [exact R2|]; intros q; apply HU|]. apply Forall_singleton. lia.
    - by destruct (keepEnd_drop 60 (dRecent h ++ [p])) as (k & _ & ?).
    - apply Forall_keep, Forall_app. split; [done|by apply Forall_singleton]. }
  pose proof (minuteOf_mono (bT (dPrev h)) (pT p) ltac:(lia)) as HM. unfold pushPoint. destruct (dBucket h) as [|b0 bs] eqn:EB.
  - split; cbn [dPrev dRecent dMinutes dBucket]; rewrite ?Hb; rewrite ?Hb in N2; try done; [lia|split; [repeat constructor|apply Forall_singleton; lia]| |].
    + split_and!; [done| |done]. eapply Forall_impl; [exact M2|]. cbn. lia.
    + apply Forall_app. split; [done|]. apply Forall_app. split; [done|by apply Forall_singleton].
  - pose proof B2 as B2'. apply Forall_cons in B2' as [[Hb0 Hm0] _]. destruct (Z.eqb_spec (minuteOf (pT b0)) (minuteOf (pT p))) as [Em|Em]; cbn [negb].
    + split; cbn [dPrev dRecent dMinutes dBucket]; rewrite ?Hb; rewrite ?Hb in N2; try done; [lia| | |].
      * split; [apply fmap_snoc_sorted; [done|]; eapply Forall_impl; [exact B2|]; cbn; lia|]. apply Forall_app. split; [eapply Forall_impl; [exact B2|]; cbn; lia|apply Forall_singleton; lia].
      * split_and!; [done| |done]. eapply Forall_impl; [exact M2|]. cbn. lia.
      * apply Forall_app. split; [done|]. apply Forall_app. split; [done|]. apply Forall_app. split; [done|by apply Forall_singleton].
    + destruct (aggregate_ok (b0 :: bs)) as [A1 A2]. destruct (lastT_in b0 bs) as (q & Hq & Eq). rewrite Forall_forall in B2. destruct (B2 q Hq) as [Q1 Q2]. rewrite Eq in A2.
      set (g := aggregateDiagnostics (b0 :: bs)) in *. clearbody g.
      split; cbn [dPrev dRecent dMinutes dBucket]; rewrite ?Hb; rewrite ?Hb in N2; try done; [lia|split; [repeat constructor|apply Forall_singleton; lia]| |].
      * split_and!.
        -- apply fmap_keep_sorted, (fmap_snoc_sorted (fun p => minuteOf (pT p))); [done|]. eapply Forall_impl; [exact M2|]. cbn. intros x. rewrite A2. lia.
        -- apply Forall_keep, Forall_app. split; [eapply Forall_impl; [exact M2|]; cbn; lia|]. apply Forall_singleton. rewrite A2. lia.
        -- by destruct (keepEnd_drop 1440 (dMinutes h ++ [g])) as (k & _ & ?).
      * apply Forall_app. split; [done|]. apply Forall_app. split; [apply Forall_keep, Forall_app; split; [done|by apply Forall_singleton]|by apply Forall_singleton].
Qed.

Lemma record_ok s h : hist_ok h -> hist_ok (record s h).
Proof.
  intros Hh. unfold record. set (h1 := if bool_decide _ then h else hist0). assert (hist_ok h1) as H1 by (subst h1; case_bool_decide; [done|apply hist0_ok]). clearbody h1.
  destruct (Z.leb_spec (sTime s) (bT (dPrev h1))); [done|]. pose proof (makePoint_ok s (dPrev h1)) as HM. destruct (makePoint s (dPrev h1)) as [p next]. destruct HM as (M1 & _ & M3 & _).
  pose proof (push_ok h1 p (mkBase (sInstance s) (sTime s) (countersOf s) next (default 0 (padEpoch <$> sPad s))) H1 M3 ltac:(lia) (eq_sym M1)) as HP.
  destruct (pushPoint p _ _ _) as [[r m] b]. exact HP.
Qed.
Lemma recordAll_ok ss h : hist_ok h -> hist_ok (recordAll ss h).
Proof. revert h. induction ss as [|s ss IH]; intros h Hh; [done|]. by apply IH, record_ok. Qed.

(** ** Views *)

Lemma span_spec step t ps : let '(a, b) := spanStep step t ps in ps = a ++ b /\ Forall (fun p => Z.quot (pT p) step = Z.quot t step) a /\
  match b with [] => True | q :: _ => Z.quot (pT q) step <> Z.quot t step end.
Proof.
  induction ps as [|p ps IH]; [cbn; split_and!; [done|constructor|done]|]. cbn [spanStep]. destruct (Z.eqb_spec (Z.quot (pT p) step) (Z.quot t step)).
  - destruct (spanStep step t ps) as [a b]. destruct IH as (-> & I2 & I3). split_and!; [done|by constructor|done].
  - split_and!; [done|constructor|done].
Qed.

(** The groups have increasing steps and times of the points they are made of. *)
Lemma group_spec fuel step ps : (length ps <= fuel)%nat -> StronglySorted Z.le ((fun p => Z.quot (pT p) step) <$> ps) ->
  let gs := groupPoints fuel step ps in
  StronglySorted Z.lt ((fun p => Z.quot (pT p) step) <$> gs) /\ Forall (fun g => point_ok g /\ exists p, p ∈ ps /\ pT g = pT p) gs /\ (forall p, p ∈ ps -> exists g, g ∈ gs /\ Z.quot (pT g) step = Z.quot (pT p) step).
Proof.
  revert ps. induction fuel as [|fuel IH]; intros [|p ps] Hlen HS; try (cbn in Hlen; lia); try (cbn; split_and!; [constructor|constructor|by intros ? ?%elem_of_nil]).
  cbn [groupPoints]. pose proof (span_spec step (pT p) ps) as HP. destruct (spanStep step (pT p) ps) as [a b]. destruct HP as (-> & P2 & P3).
  cbn in HS. apply StronglySorted_inv in HS as [HS HX]. rewrite fmap_app in HS, HX. apply StronglySorted_app in HS as (_ & _ & HSb).
  apply Forall_app in HX as [_ HXb]. rewrite Forall_fmap in HXb. cbn [length] in Hlen. rewrite length_app in Hlen.
  destruct (IH b) as (I1 & I2 & I3); [lia|done|]. destruct (aggregate_ok (p :: a)) as [A1 A2]. destruct (lastT_in p a) as (q & Hq & Eq). rewrite Eq in A2.
  assert (Z.quot (pT q) step = Z.quot (pT p) step) as Eqq by (apply elem_of_cons in Hq as [->|Hq]; [done|]; rewrite Forall_forall in P2; by apply P2).
  set (g := aggregateDiagnostics (p :: a)) in *. clearbody g. cbn zeta.
  assert (Forall (fun x => Z.quot (pT p) step < Z.quot (pT x) step) b) as Hgt.
  { destruct b as [|b0 b]; [constructor|]. cbn in HSb. apply StronglySorted_inv in HSb as [_ HSb]. rewrite Forall_fmap in HSb. apply Forall_cons in HXb as [H0 _]. cbn in H0.
    assert (Z.quot (pT p) step < Z.quot (pT b0) step) by lia. constructor; [done|]. eapply Forall_impl; [exact HSb|]. cbn. lia. }
  split_and!.
  - cbn. constructor; [done|]. apply Forall_fmap, Forall_forall. intros x Hx. cbn. rewrite Forall_forall in I2, Hgt. destruct (I2 x Hx) as (_ & y & Hy & ->). rewrite A2, Eqq. by apply Hgt.
  - constructor; [split; [done|]; exists q; split; [|done]; apply elem_of_cons in Hq as [->|Hq]; [by left|right; apply elem_of_app; by left]|].
    eapply Forall_impl; [exact I2|]. intros x (? & y & Hy & ?). split; [done|]. exists y. split; [right; apply elem_of_app; by right|done].
  - intros x Hx. apply elem_of_cons in Hx as [->|Hx]; [exists g; split; [by left|by rewrite A2]|]. apply elem_of_app in Hx as [Hx|Hx].
    + exists g. split; [by left|]. rewrite Forall_forall in P2. rewrite A2, Eqq. symmetry. by apply P2.
    + destruct (I3 x Hx) as (g' & ? & ?). exists g'. split; [by right|done].
Qed.

Lemma raw_ok h : hist_ok h -> let raw := dMinutes h ++ match dBucket h with [] => [] | b => [aggregateDiagnostics b] end in
  StronglySorted Z.lt ((fun p => minuteOf (pT p)) <$> raw) /\ Forall (fun p => 0 < pT p <= bT (dPrev h)) raw.
Proof.
  intros [_ _ [_ B2] (M1 & M2 & _) _]. destruct (dBucket h) as [|b bs] eqn:EB; cbn zeta; [rewrite app_nil_r; split; [done|eapply Forall_impl; [exact M2|]; by intros ? [? _]]|].
  destruct (aggregate_ok (b :: bs)) as [_ A2]. destruct (lastT_in b bs) as (q & Hq & Eq). rewrite Forall_forall in B2. destruct (B2 q Hq) as [Q1 Q2]. rewrite Eq in A2.
  set (g := aggregateDiagnostics (b :: bs)) in *. clearbody g. split.
  - apply (fmap_snoc_sorted (fun p => minuteOf (pT p))); [done|]. eapply Forall_impl; [exact M2|]. cbn. rewrite A2. lia.
  - apply Forall_app. split; [eapply Forall_impl; [exact M2|]; by intros ? [? _]|]. apply Forall_singleton. by rewrite A2.
Qed.

Lemma SS_filter {A} (f : A -> Z) (k : A -> bool) l : StronglySorted Z.lt (f <$> l) -> StronglySorted Z.lt (f <$> List.filter k l).
Proof.
  induction l as [|x l IH]; intros HS; [done|]. cbn in HS. apply StronglySorted_inv in HS as [HS HX]. cbn. destruct (k x); [|by apply IH]. cbn. constructor; [by apply IH|].
  rewrite Forall_fmap in *. apply Forall_forall. intros y Hy. rewrite Forall_forall in HX. apply HX. by apply filter_keep in Hy as [? _].
Qed.
(** A step of whole minutes does not turn their order around. *)
Lemma steps_sorted n l : 0 < n -> Forall (fun p => 0 < pT p) l -> StronglySorted Z.lt ((fun p => minuteOf (pT p)) <$> l) -> StronglySorted Z.le ((fun p => Z.quot (pT p) (n * 60000)) <$> l).
Proof.
  intros Hn. induction l as [|x l IH]; intros HF HS; [constructor|]. apply Forall_cons in HF as [Hx HF]. cbn in HS |- *. apply StronglySorted_inv in HS as [HS HX]. constructor; [by apply IH|].
  rewrite Forall_fmap in *. apply Forall_forall. intros y Hy. rewrite Forall_forall in HX, HF. specialize (HX y Hy). specialize (HF y Hy). cbn in HX |- *.
  rewrite !Z.quot_div_nonneg by lia. rewrite !minuteOf_div in HX by lia. apply Z.div_le_mono; [lia|].
  destruct (Z.lt_ge_cases (pT y) (pT x)) as [Hlt|]; [|lia]. pose proof (Z.div_le_mono (pT y) (pT x) 60000 ltac:(lia) ltac:(lia)). lia.
Qed.

Lemma window_count step span t (l : list Z) : 0 < step -> 0 <= t -> 0 <= span -> StronglySorted Z.lt ((fun x => Z.quot x step) <$> l) -> Forall (fun x => 0 < x <= t /\ t - span * step <= x) l ->
  Z.of_nat (length l) <= span + 1.
Proof.
  intros Hs Ht Hsp HS HF. rewrite <- (length_fmap (fun x => Z.quot x step) l). etrans; [apply (sorted_count _ (t / step - span) (t / step + 1) HS)|lia].
  apply Forall_fmap. eapply Forall_impl; [exact HF|]. intros x [Hx Hw]. cbn. rewrite Z.quot_div_nonneg by lia. split.
  - assert ((t - span * step) / step = t / step - span) as <- by (replace (t - span * step) with (t + - span * step) by lia; rewrite Z.div_add by lia; lia). apply Z.div_le_mono; lia.
  - assert (x / step <= t / step) by (apply Z.div_le_mono; lia). lia.
Qed.

(** A view over [span] steps of [n] minutes. *)
Lemma view_long h n span : hist_ok h -> 0 < n -> 0 <= span ->
  let t := bT (dPrev h) in let raw := dMinutes h ++ match dBucket h with [] => [] | b => [aggregateDiagnostics b] end in
  let sel := List.filter (fun p => t - span * (n * 60000) <=? pT p) raw in let gs := groupPoints (length sel) (n * 60000) sel in
  Forall point_ok gs /\ StronglySorted Z.lt ((fun p => Z.quot (pT p) (n * 60000)) <$> gs) /\ Z.of_nat (length gs) <= span + 1 /\ Forall (fun p => t - span * (n * 60000) <= pT p <= t) gs.
Proof.
  intros Hh Hn Hs t raw sel gs. pose proof (ho_t h Hh) as HT. pose proof (raw_ok h Hh) as [W1 W2]. fold raw t in W1, W2. rewrite Forall_forall in W2.
  destruct (group_spec (length sel) (n * 60000) sel) as (G1 & G2 & _); [lia| |].
  { apply steps_sorted; [done| |by apply SS_filter]. apply Forall_forall. intros p Hp. apply filter_keep in Hp as [Hp _]. apply (W2 p Hp). }
  fold gs in G1, G2. rewrite Forall_forall in G2. assert (Forall (fun p => (0 < pT p <= t) /\ t - span * (n * 60000) <= pT p) gs) as HF.
  { apply Forall_forall. intros g Hg. destruct (G2 g Hg) as (_ & p & Hp & ->). apply filter_keep in Hp as [Hp Hw]. apply Z.leb_le in Hw. split; [by apply W2|done]. }
  split_and!; [apply Forall_forall; intros g Hg; by apply G2|done| |eapply Forall_impl; [exact HF|]; cbn; lia].
  rewrite <- (length_fmap pT). apply (window_count (n * 60000) span t); [lia|done|done| |by apply Forall_fmap]. by rewrite <- list_fmap_compose.
Qed.
Lemma view_recent h : hist_ok h -> let t := bT (dPrev h) in let ps := List.filter (fun p => t - 120000 <=? pT p) (dRecent h) in
  Forall point_ok ps /\ StronglySorted Z.lt ((fun p => Z.quot (pT p) 1) <$> ps) /\ Z.of_nat (length ps) <= 60 /\ Forall (fun p => t - 120000 <= pT p <= t) ps.
Proof.
  intros [HT (R1 & R2 & R3) _ _ HP] t ps. apply Forall_app in HP as [HP _]. rewrite Forall_forall in HP, R2. split_and!.
  - apply Forall_forall. intros p Hp. apply filter_keep in Hp as [Hp _]. by apply HP.
  - apply (SS_filter (fun p => Z.quot (pT p) 1)). assert ((fun p => Z.quot (pT p) 1) <$> dRecent h = pT <$> dRecent h) as -> by (apply list_fmap_ext; intros i p _; apply Z.quot_1_r). done.
  - pose proof (filter_length_le (fun p => t - 120000 <=? pT p) (dRecent h)) as HL. fold ps in HL. lia.
  - apply Forall_forall. intros p Hp. apply filter_keep in Hp as [Hp Hw]. specialize (R2 p Hp). apply Z.leb_le in Hw. fold t in R2. lia.
Qed.

(** The history is bounded and its views are in order.  After any samples it holds at most
    60 fine points in the order of time, 1440 minutes, one point each, and the current
    minute (at most one point per millisecond); every point has at most 32 connections
    in the order of their ids.  A view of two minutes is part of the fine points; one of an
    hour has at most 61 points and one of a day at most 289, each in a later step than
    the one before, none newer than the last sample or older than its range. *)
Theorem diagnostic_history_bounded (ss : list WebStats) (rng : string) : let h := recordAll ss hist0 in let sn := snapshotDiag rng h in
  (length (dRecent h) <= 60)%nat /\ (length (dMinutes h) <= 1440)%nat /\ Z.of_nat (length (dBucket h)) <= 60000 /\
  Forall point_ok (dRecent h ++ dMinutes h ++ dBucket h ++ snapPoints sn) /\
  StronglySorted Z.lt ((fun p => Z.quot (pT p) (if bool_decide (rng = "2m"%string) then 1 else snapStep sn * 1000)) <$> snapPoints sn) /\
  Z.of_nat (length (snapPoints sn)) <= (if bool_decide (rng = "2m"%string) then 60 else if bool_decide (rng = "24h"%string) then 289 else 61) /\
  Forall (fun p => bT (dPrev h) - (if bool_decide (rng = "2m"%string) then 120000 else if bool_decide (rng = "24h"%string) then 86400000 else 3600000) <= pT p <= bT (dPrev h)) (snapPoints sn).
Proof.
  intros h sn. assert (hist_ok h) as Hh by apply recordAll_ok, hist0_ok. pose proof Hh as [HT (R1 & R2 & R3) (B1 & B2) (M1 & M2 & M3) HP]. assert (Z.of_nat (length (dBucket h)) <= 60000) as HB.
  { rewrite <- (length_fmap pT). etrans; [apply (sorted_count _ (minuteOf (bT (dPrev h)) * 60000) (minuteOf (bT (dPrev h)) * 60000 + 60000) B1)|lia].
    apply Forall_fmap. eapply Forall_impl; [exact B2|]. cbn. intros p [Hp Hm]. rewrite <- Hm, minuteOf_div by lia. pose proof (Z.div_mod (pT p) 60000 ltac:(lia)). pose proof (Z.mod_pos_bound (pT p) 60000 ltac:(lia)). lia. }
  assert (forall ps, Forall point_ok ps -> Forall point_ok (dRecent h ++ dMinutes h ++ dBucket h ++ ps)) as HA by (intros ps Hps; rewrite !app_assoc; apply Forall_app; split; [by rewrite <- !app_assoc|done]).
  subst sn. unfold snapshotDiag. destruct (bool_decide_reflect (rng = "2m"%string)) as [_|_]; cbn [snapPoints snapStep].
  - destruct (view_recent h Hh) as (V1 & V2 & V3 & V4). split_and!; try done. by apply HA.
  - destruct (bool_decide_reflect (rng = "24h"%string)) as [_|_].
    + destruct (view_long h 5 288 Hh ltac:(lia) ltac:(lia)) as (V1 & V2 & V3 & V4). split_and!; try done. by apply HA.
    + destruct (view_long h 1 60 Hh ltac:(lia) ltac:(lia)) as (V1 & V2 & V3 & V4). split_and!; try done. by apply HA.
Qed.

(** ** Examples *)

Definition demoConnC (id : string) (tx rx : Z) : connCounters := mkConnC id "c1" "192.0.2.9:40000" tx rx 12 tx 0.
Definition demoStats (t data : Z) (cs : list connCounters) : WebStats := mkStats "boot-1" t "server" data (data / 4) 0 0 0 0 0 None (lenZ cs) [] cs.

(** Ten seconds are still a baseline, a millisecond more is a gap. *)
Lemma gap_boundary : let prev := mkBase "boot-1" 5000 ∅ ∅ 0 in validOf (demoStats 15000 0 []) prev = true /\ validOf (demoStats 15001 0 []) prev = false.
Proof. vm_compute. by split. Qed.

Definition demoHist : diagnosticHistory := recordAll [demoStats 1000 0 [demoConnC "x" 0 0]] hist0.
Lemma diagnostic_gaps_witness : let s := demoStats 3000 8000 [demoConnC "x" 500 100; demoConnC "w" 7 7] in
  (exists p, last (dRecent (record s demoHist)) = Some p /\ pT p = sTime s /\ point_ok p) /\
  (fun p => (dID <$> pConns p, default None (pMetrics p !! "fec_data"%string))) <$> dRecent (record s demoHist) = [(["x"%string], None); (["w"; "x"]%string, Some (f64 4000))].
Proof.
  intros s. split; [|vm_compute; reflexivity]. destruct (diagnostic_gaps s demoHist) as (p & H1 & H2 & H3 & _); [vm_compute; reflexivity|vm_compute; reflexivity|]. exists p. done.
Defined.
