(* ===== verification/Stream.v ===== *)
(** * The live stream of the dashboard (web_stream.go)

    One connection carries everything the dashboard shows: in every round the statistics,
    the trend, the diagnostics, and the log lines and events after the cursors of this
    connection.  The cursors come from the request, and count only if they are of this
    process.  The bodies of the statistics are not looked at. *)

From stdpp Require Import base tactics list numbers list_numbers sorting gmap strings.
From S2P Require Import Prelude Ident Web Config Listeners Events.
#[local] Open Scope Z_scope.

(** strconv.ParseUint and Atoi without a look at the error: the value that comes with it,
    zero for what is no number, the nearest bound for what is too large. *)
Definition parseUintValue (s : string) : Z := if isEmpty s then 0 else match digits 0 s with None => 0 | Some n => Z.min n (2 ^ 64 - 1) end.
Definition atoiValue (s : string) : Z :=
  let '(neg, body) := match s with
    | String c r => if (Ascii.nat_of_ascii c =? 45)%nat then (true, r) else if (Ascii.nat_of_ascii c =? 43)%nat then (false, r) else (false, s)
    | EmptyString => (false, s) end in
  if isEmpty body then 0 else match digits 0 body with None => 0 | Some n => if neg then Z.max (- n) (- 2 ^ 63) else Z.min n (2 ^ 63 - 1) end.

Definition dashboardStreamInterval (interval_ms : string) : Z :=
  let ms := atoiValue interval_ms in
  let ms := if ms <=? 0 then 2000 else ms in
  let ms := if ms <? 250 then 250 else ms in
  if 10000 <? ms then 10000 else ms.

(** The query of a request; a missing parameter is the empty string. *)
Record streamQuery := mkQuery { qRange : string; qLogAfter : string; qEventAfter : string; qInstance : string; qInterval : string }.
Definition streamRange (q : streamQuery) : string :=
  let r := trimSpace (qRange q) in if bool_decide (r = "2m"%string) || bool_decide (r = "24h"%string) then r else "1h".
Definition streamCursors (instance : string) (q : streamQuery) : Z * Z :=
  if negb (isEmpty (qInstance q)) && negb (bool_decide (qInstance q = instance)) then (0, 0)
  else (parseUintValue (qLogAfter q), parseUintValue (qEventAfter q)).

Inductive sseFrame := SStats | STrend (rng : string) | SDiagnostics (rng : string) | SLogs (l : list logLine) | SEvents (l : list evtJSON).

(** The closure [emit]: what it sends, and the cursors after it. *)
Definition lastSeq {A} (f : A -> Z) (old : Z) (l : list A) : Z := match last l with Some x => f x | None => old end.
Definition roundFrames (rng : string) (diagnostics : bool) (cur : Z * Z) (logs : logRingBuf) (bus : eventBus) : list sseFrame * (Z * Z) :=
  let ls := logSnapshot cur.1 logs in
  let es := snapshot cur.2 bus in
  ([SStats; STrend rng] ++ (if diagnostics then [SDiagnostics rng] else []) ++ (match ls with [] => [] | _ => [SLogs ls] end) ++ (match es with [] => [] | _ => [SEvents es] end),
   (lastSeq lineSeq cur.1 ls, lastSeq Seq cur.2 es)).

(** The rounds of a connection: before each, what the rest of the program did.  A write
    that fails ends the stream: [budget] writes succeed. *)
Record streamState := mkStream { stLogs : logRingBuf; stBus : eventBus * list (nat * evtJSON); stCur : Z * Z; stSent : list sseFrame; stBudget : nat; stOpen : bool }.
Definition logsAdd (ls : list (string * string * string)) (r : logRingBuf) : logRingBuf := fold_left (fun r l => logAdd l.1.1 l.1.2 l.2 r) ls r.
Definition streamRound (rng : string) (diagnostics : bool) (s : streamState) (x : list busOp * list (string * string * string)) : streamState :=
  let bus := busExec x.1 (stBus s) in
  let logs := logsAdd x.2 (stLogs s) in
  if negb (stOpen s) then mkStream logs bus (stCur s) (stSent s) (stBudget s) false else
  let '(fs, cur) := roundFrames rng diagnostics (stCur s) logs bus.1 in
  mkStream logs bus cur (stSent s ++ take (stBudget s) fs) (stBudget s - length fs) (length fs <=? stBudget s)%nat.
Definition handleDashboardStream (rng : string) (diagnostics : bool) (xs : list (list busOp * list (string * string * string))) (s : streamState) : streamState := fold_left (streamRound rng diagnostics) xs s.

Definition sentEvents (fs : list sseFrame) : list evtJSON := fs ≫= fun f => match f with SEvents l => l | _ => [] end.
Definition sentLogs (fs : list sseFrame) : list logLine := fs ≫= fun f => match f with SLogs l => l | _ => [] end.

Lemma roundFrames_content rng dg cur logs bus : sentEvents (roundFrames rng dg cur logs bus).1 = snapshot cur.2 bus /\ sentLogs (roundFrames rng dg cur logs bus).1 = logSnapshot cur.1 logs.
Proof.
  unfold roundFrames. cbn [fst]. unfold sentEvents, sentLogs. rewrite !bind_app. destruct dg, (logSnapshot cur.1 logs), (snapshot cur.2 bus); cbn; by rewrite ?app_nil_r.
Qed.

Lemma lastSeq_stamp k l : lastSeq Seq k (stampAll (k + 1) l) = k + Z.of_nat (length l).
Proof.
  destruct l as [|x l _] using rev_ind; [cbn; lia|]. rewrite stampAll_app, length_app. unfold lastSeq, stampAll at 2. cbn [imap]. rewrite last_snoc, stamp_Seq. cbn. lia.
Qed.

Section Complete.
Context (c : nat) (rng : string) (dg : bool) (r : list (nat * evtJSON)).

Lemma emitted_app a b : emitted (a ++ b) = emitted a ++ emitted b.
Proof. apply omap_app. Qed.
Lemma busExec_app a b s : busExec (a ++ b) s = busExec b (busExec a s).
Proof. unfold busExec. by rewrite fold_left_app. Qed.

(** One round from any cursor within reach of the ring. *)
Lemma round_step ops x s (k : nat) : stBus s = busExec ops (newEventBus c, r) -> stOpen s = true -> (stCur s).2 = Z.of_nat k -> (k <= length (emitted (ops ++ x.1)))%nat ->
  (length (emitted (ops ++ x.1)) - k <= c)%nat -> Z.of_nat (length (emitted (ops ++ x.1))) < 2 ^ 64 -> (5 <= stBudget s)%nat ->
  let s' := streamRound rng dg s x in stBus s' = busExec (ops ++ x.1) (newEventBus c, r) /\ stOpen s' = true /\ (stCur s').2 = Z.of_nat (length (emitted (ops ++ x.1))) /\
  sentEvents (stSent s') = sentEvents (stSent s) ++ stampAll (Z.of_nat k + 1) (drop k (emitted (ops ++ x.1))) /\ (stBudget s - 5 <= stBudget s')%nat.
Proof.
  intros Hb Ho Hc Hk Hw H64 Hbud. unfold streamRound. rewrite Ho. cbn [negb]. rewrite Hb, <- busExec_app. destruct (bus_ring c (ops ++ x.1) r H64) as (_ & _ & ER).
  pose proof (roundFrames_content rng dg (stCur s) (logsAdd x.2 (stLogs s)) (busExec (ops ++ x.1) (newEventBus c, r)).1) as [C1 _]. destruct (roundFrames _ _ _ _ _) as [fs cur] eqn:EF.
  assert (snapshot (stCur s).2 (busExec (ops ++ x.1) (newEventBus c, r)).1 = stampAll (Z.of_nat k + 1) (drop k (emitted (ops ++ x.1)))) as ES by (unfold snapshot; rewrite ER, Hc; by apply ring_since).
  unfold roundFrames in EF. injection EF as EF1 EF2. assert (length fs <= 5)%nat as HL by (rewrite <- EF1; destruct dg; repeat case_match; cbn; lia).
  cbn [fst] in C1. rewrite ES in C1. cbn [stBus stOpen stCur stSent stBudget]. split_and!; [done|by apply Nat.leb_le; lia| | |lia].
  - rewrite <- EF2. cbn [snd]. rewrite ES, Hc, lastSeq_stamp, length_drop. lia.
  - rewrite take_ge by lia. unfold sentEvents in *. by rewrite bind_app, C1.
Qed.
End Complete.

(** The stream shows every event once and in order.  A dashboard that knows the first
    [known] events of this process and connects gets, through any rounds, exactly the
    events after them, numbered on and in order, as long as no more are emitted before
    the first round or between two rounds than the ring holds, and the connection lasts;
    so a reconnect with the last number it has seen continues without gap or repeat. *)
Theorem dashboard_stream_exact (c : nat) (rng : string) (dg : bool) (r : list (nat * evtJSON)) (ops : list busOp) (logs : logRingBuf) (known : nat) (logAfter : Z) (budget : nat)
  (x : list busOp * list (string * string * string)) (xs : list (list busOp * list (string * string * string))) :
  let total := emitted (ops ++ ((x :: xs) ≫= fst)) in
  Z.of_nat (length total) < 2 ^ 64 -> (known <= length (emitted (ops ++ x.1)))%nat -> (length (emitted (ops ++ x.1)) - known <= c)%nat ->
  Forall (fun y => (length (emitted y.1) <= c)%nat) xs -> (5 * length (x :: xs) <= budget)%nat ->
  let s := handleDashboardStream rng dg (x :: xs) (mkStream logs (busExec ops (newEventBus c, r)) (logAfter, Z.of_nat known) [] budget true) in
  stOpen s = true /\ sentEvents (stSent s) = stampAll (Z.of_nat known + 1) (drop known total) /\ (stCur s).2 = Z.of_nat (length total).
Proof.
  intros total H64 Hk Hw HF Hbud s. assert (total = emitted ((ops ++ x.1) ++ (xs ≫= fst))) as ET by (subst total; cbn; by rewrite app_assoc).
  rewrite ET in H64. rewrite emitted_app, length_app in H64. cbn [length] in Hbud.
  destruct (round_step c rng dg r ops x (mkStream logs (busExec ops (newEventBus c, r)) (logAfter, Z.of_nat known) [] budget true) known) as (S1 & S2 & S3 & S4 & S5); cbn [stBus stOpen stCur stBudget snd] in *; try done; try lia.
  subst s. cbn [handleDashboardStream fold_left]. set (s1 := streamRound rng dg _ x) in *. clearbody s1. cbn [stSent] in S4. change (sentEvents []) with (@nil evtJSON) in S4. cbn [app] in S4. rewrite ET. clear ET total.
  assert (5 * length xs <= stBudget s1)%nat as S5' by lia. clear S5 Hw Hbud. set (ops1 := ops ++ x.1) in *. clearbody ops1. revert s1 ops1 H64 Hk S1 S2 S3 S4 S5'.
  induction HF as [|y xs Hy _ IH]; intros s1 ops1 H64 Hk S1 S2 S3 S4 S5; [cbn; by rewrite app_nil_r|].
  cbn [fold_left length mbind list_bind] in *. fold (mbind (M := list) (fst (A := list busOp) (B := list (string * string * string))) xs) in *. rewrite emitted_app, length_app in H64.
  destruct (round_step c rng dg r ops1 y s1 (length (emitted ops1)) S1 S2 S3) as (T1 & T2 & T3 & T4 & T5); [rewrite emitted_app, length_app; lia|rewrite emitted_app, length_app; lia|rewrite emitted_app, length_app; lia|lia|].
  rewrite app_assoc. apply (IH (streamRound rng dg s1 y) (ops1 ++ y.1)); [rewrite emitted_app, length_app; lia|rewrite emitted_app, length_app; lia|done|done|done| |lia].
  rewrite T4, S4, emitted_app, drop_app_length, drop_app_le by lia. rewrite stampAll_app, length_drop. do 2 f_equal. lia.
Qed.

(** The pace of a stream stays between a quarter of a second and ten seconds. *)
Theorem stream_interval_bounds (q : string) : 250 <= dashboardStreamInterval q <= 10000.
Proof.
  unfold dashboardStreamInterval. destruct (Z.leb_spec (atoiValue q) 0); [by vm_compute|]. destruct (Z.ltb_spec (atoiValue q) 250); [by vm_compute|]. destruct (Z.ltb_spec 10000 (atoiValue q)); lia.
Qed.

(** Cursors of another process are not used. *)
Lemma stream_cursor_reset instance q : qInstance q <> ""%string -> qInstance q <> instance -> streamCursors instance q = (0, 0).
Proof. intros H1 H2. unfold streamCursors, isEmpty. by rewrite !bool_decide_false by done. Qed.

Lemma dashboard_stream_exact_witness :
  let s := handleDashboardStream "1h" false [([BEmit (demoIn "c")], [("info", "t", "m")]); ([], []); ([BEmit (demoIn "d"); BEmit (demoIn "e")], [])]%string
    (mkStream (newLogRing 300) (busExec [BEmit (demoIn "a"); BEmit (demoIn "b")] (newEventBus 2, [])) (0, 1) [] 15 true) in
  sentEvents (stSent s) = stampAll 2 [demoIn "b"; demoIn "c"; demoIn "d"; demoIn "e"] /\ length (stSent s) = 9%nat.
Proof.
  split; [|vm_compute; reflexivity].
  refine (proj1 (proj2 (dashboard_stream_exact 2 "1h" false [] [BEmit (demoIn "a"); BEmit (demoIn "b")] (newLogRing 300) 1 0 15 ([BEmit (demoIn "c")], [("info", "t", "m")]%string) [([], []); ([BEmit (demoIn "d"); BEmit (demoIn "e")], [])] _ _ _ _ _))).
  - vm_compute. reflexivity.
  - cbn. lia.
  - cbn. lia.
  - repeat constructor; cbn; lia.
  - cbn. lia.
Defined.
