(* ===== verification/Control.v ===== *)
(** * Control actions (api.go: /api/control; mcp_server.go: the write tools)

    The two ways to act on a running process, from the dashboard and from an MCP client,
    over one state: the server's world (Session), the configuration the manager, the
    accounting and the client run, the configuration file, the log level, the reconnect
    counter of the client and the events of the handlers.  What an action does to the
    server is a list of operations of Session, so that they may interleave with others;
    here they run at once.  Log lines are not modelled. *)

From stdpp Require Import base tactics list numbers gmap strings sorting.
From S2P Require Import Prelude Guards Ident Session Web Config Startup.
#[local] Open Scope Z_scope.

Inductive ctlEvent := CvLogLevel (level : string) | CvReconnect (mcp : bool) | CvGC (mcp : bool) | CvConfig (mcp apply : bool) (needsRestart : list string).

Record procState `{GoLib} := mkProc {
  prServer : bool;                 (* srv, or cli *)
  prWorld : world;
  prCfg : Config;                  (* the manager's *)
  prTraffic : Config;              (* what dailyTraffic.OnConfig was last given *)
  prClientCfg : Config;            (* the client's live configuration *)
  prFiles : gmap string text;
  prLevel : string;
  prForceGen : nat;
  prEvents : list ctlEvent
}.

Definition eqs (a b : string) : bool := bool_decide (a = b).
(** Comparisons of closed strings. *)
Ltac eqs_eval := repeat match goal with |- context [eqs ?a ?b] => let v := eval vm_compute in (eqs a b) in change (eqs a b) with v end.

Section Control.
Context `{WebCrypto} `{GoLib}.
Context (sha256 : bytes -> bytes) (deriveID : bytes -> string -> string).
(** The name of the level that a text reads as (zapcore.Level.String). *)
Context (levelName : string -> string).

Definition withWorld (ops : list svOp) (p : procState) : procState :=
  mkProc _ (prServer p) (svExec sha256 deriveID ops (prWorld p)) (prCfg p) (prTraffic p) (prClientCfg p) (prFiles p) (prLevel p) (prForceGen p) (prEvents p).
Definition emitEv (e : ctlEvent) (p : procState) : procState :=
  mkProc _ (prServer p) (prWorld p) (prCfg p) (prTraffic p) (prClientCfg p) (prFiles p) (prLevel p) (prForceGen p) (prEvents p ++ [e]).
Definition setLevel (l : string) (p : procState) : procState :=
  mkProc _ (prServer p) (prWorld p) (prCfg p) (prTraffic p) (prClientCfg p) (prFiles p) l (prForceGen p) (prEvents p).
Definition forceReconnect (p : procState) : procState :=
  mkProc _ (prServer p) (prWorld p) (prCfg p) (prTraffic p) (prClientCfg p) (prFiles p) (prLevel p) (S (prForceGen p)) (prEvents p).
Definition setFiles (fs : gmap string text) (p : procState) : procState :=
  mkProc _ (prServer p) (prWorld p) (prCfg p) (prTraffic p) (prClientCfg p) fs (prLevel p) (prForceGen p) (prEvents p).

(** ** What the actions do *)

Definition kickOps (id : string) (w : world) : list svOp := match activeClients (srv w) !! id with Some s => [SKick (sUid s) id] | None => [] end.
Definition kickAllOps (w : world) : list svOp := (fun x : string * ClientSession => SKick (sUid x.2) x.1) <$> map_to_list (activeClients (srv w)).
(** time.Duration(minutes) * time.Minute, in nanoseconds. *)
Definition ttlOf (minutes : Z) : Z := s64 (minutes * 60000000000).

(** setRuntimeLogLevel. *)
Definition setRuntimeLogLevel (level : string) (p : procState) : option procState := if levelOk (trimSpace level) then Some (setLevel (levelName (trimSpace level)) p) else None.

(** The configuration takes effect: the manager, the accounting, the server or the
    client.  Client.ApplyConfig ends in ForceReconnect. *)
Definition applyParts (c : Config) (p : procState) : procState :=
  let p := mkProc _ (prServer p) (prWorld p) c c (prClientCfg p) (prFiles p) (prLevel p) (prForceGen p) (prEvents p) in
  if prServer p then withWorld [applyOp c] p
  else forceReconnect (mkProc _ (prServer p) (prWorld p) (prCfg p) (prTraffic p) c (prFiles p) (prLevel p) (prForceGen p) (prEvents p)).

Definition needsRestartOf (p : procState) (apply : bool) (old c : Config) : list string :=
  if apply then if prServer p then serverNeedsRestart old c else clientNeedsRestart old c else [].

(** How the two file operations of a save end. *)
Record saveEnv := mkSave { svWrite : bool; svRename : bool; svPartial : option text }.

(** Merge, validate, write: the same in both front ends.  [None] is an error to the
    caller.  [running]: the configuration that NeedsRestart compares with. *)
Definition persist (env : saveEnv) (running : Config) (posted : text) (apply : bool) (p : procState) : procState * option (Config * list string) :=
  match mergeAndValidateConfig (prCfg p) posted with
  | Some (inr c) =>
    let nr := needsRestartOf p apply running c in
    match SaveConfigFile c (svWrite env) (svRename env) (svPartial env) (prFiles p) with
    | (fs, None) => (setFiles fs p, None)
    | (fs, Some c) => (setFiles fs p, Some (c, nr))
    end
  | _ => (p, None)
  end.

(** The dashboard drops the error of the log level, the MCP tool stops at it. *)
Definition saveConfig (mcp : bool) (env : saveEnv) (running : Config) (posted : text) (apply : bool) (p : procState) : procState * option (Config * list string) :=
  match persist env running posted apply p with
  | (p, None) => (p, None)
  | (p, Some (c, nr)) =>
    if negb apply then (p, Some (c, nr)) else
    match setRuntimeLogLevel (LogLevel c) p with
    | Some p => (applyParts c p, Some (c, nr))
    | None => if mcp then (p, None) else (applyParts c p, Some (c, nr))
    end
  end.

(** ** The dashboard *)

Inductive ctlAnswer := C200 (needsRestart : option (list string)) | C400 | C403 | C405 | CNotAdmitted.
Definition controlKeys : list string := ["action"; "client_id"; "level"; "ttl_minutes"; "config"]%string.
Record controlBody := mkBody { cAction : string; cClientID : string; cLevel : string; cTTL : Z; cConfig : option json }.
Definition decodeBody (t : text) : option controlBody :=
  '(j, trailing) ← parseText t;
  o ← match j with JObj o => Some o | JNull => Some [] | _ => None end;
  if negb (known controlKeys o) || (trailing : bool) then None else
  a ← getStr "action" o; c ← getStr "client_id" o; l ← getStr "level" o; t ← getInt "ttl_minutes" o; Some (mkBody a c l t (jfind "config" o)).


(** The switch over the action. *)
Definition controlAction (env : saveEnv) (running : Config) (now : Z) (b : controlBody) (p : procState) : procState * ctlAnswer :=
  let a := cAction b in
  if prServer p && eqs a "kick" then (withWorld (kickOps (cClientID b) (prWorld p)) p, C200 None) else
  if prServer p && eqs a "ban" then (withWorld [SBan now (cClientID b) (ttlOf (cTTL b))] p, C200 None) else
  if prServer p && eqs a "unban" then (withWorld [SUnban (cClientID b)] p, C200 None) else
  if prServer p && eqs a "kickall" then (withWorld (kickAllOps (prWorld p)) p, C200 None) else
  if eqs a "loglevel" then match setRuntimeLogLevel (cLevel b) p with Some p => (emitEv (CvLogLevel (prLevel p)) p, C200 None) | None => (p, C400) end else
  if negb (prServer p) && eqs a "reconnect" then (emitEv (CvReconnect false) (forceReconnect p), C200 None) else
  if eqs a "gc" then (emitEv (CvGC false) p, C200 None) else
  if eqs a "save" || eqs a "save_apply" then
    match cConfig b with
    | None => (p, C400)
    | Some j => let apply := eqs a "save_apply" in
      match saveConfig false env running (render j) apply p with (p, None) => (p, C400) | (p, Some (_, nr)) => (emitEv (CvConfig false apply nr) p, C200 (Some nr)) end
    end
  else (p, C400).

(** /api/control behind the middleware; [body] is nothing when it is over 64 KiB. *)
Definition handleControl (env : saveEnv) (running : Config) (now : Z) (admitted : webAnswer) (r : httpReq) (body : option text) (p : procState) : procState * ctlAnswer :=
  match admitted with
  | ANext =>
    if negb (csrfGuard r) then (p, C403) else
    if negb (eqs (rMethod r) "POST") then (p, C405) else
    match body ≫= decodeBody with None => (p, C400) | Some b => controlAction env running now b p end
  | _ => (p, CNotAdmitted)
  end.

(** ** The MCP tools *)

Inductive mcpTool :=
| TSetLogLevel (level : string) | TForceReconnect | TKick (id : string) | TBan (id : string) (ttlMinutes : Z) | TUnban (id : string)
| TKickAll | TGC | TConfigSave (cfg : option json) (apply : bool).

(** A tool: the state after it, and whether it reports success. *)
Definition mcpWrite (env : saveEnv) (running : Config) (now : Z) (t : mcpTool) (p : procState) : procState * bool :=
  match t with
  | TSetLogLevel l => match setRuntimeLogLevel (trimSpace l) p with Some p => (emitEv (CvLogLevel (prLevel p)) p, true) | None => (p, false) end
  | TForceReconnect => if prServer p then (p, false) else (emitEv (CvReconnect true) (forceReconnect p), true)
  | TKick id => if negb (prServer p) then (p, false) else
    let id := trimSpace id in if isEmpty id then (p, false) else
    match activeClients (srv (prWorld p)) !! id with None => (p, false) | Some s => (withWorld [SKick (sUid s) id] p, true) end
  | TBan id ttl => if negb (prServer p) then (p, false) else
    let id := trimSpace id in if isEmpty id then (p, false) else
    if (ttl <? 0) || (10080 <? ttl) then (p, false) else (withWorld [SBan now id (ttlOf ttl)] p, true)
  | TUnban id => if negb (prServer p) then (p, false) else
    let id := trimSpace id in if isEmpty id then (p, false) else (withWorld [SUnban id] p, true)
  | TKickAll => if negb (prServer p) then (p, false) else (withWorld (kickAllOps (prWorld p)) p, true)
  | TGC => (emitEv (CvGC true) p, true)
  | TConfigSave cfg apply =>
    match cfg with
    | None => (p, false)
    | Some j => match saveConfig true env running (render j) apply p with (p, None) => (p, false) | (p, Some (_, nr)) => (emitEv (CvConfig true apply nr) p, true) end
    end
  end.

Definition mcpRange (v : string) : option string :=
  let r := toLower (trimSpace v) in
  if eqs r "" || eqs r "1h" then Some "1h"%string else if eqs r "2m" then Some "2m"%string else if eqs r "24h" then Some "24h"%string else None.
Definition mcpLimit (v : Z) : option Z := if v =? 0 then Some 200 else if (v <? 1) || (1000 <? v) then None else Some v.

(** ** Guards *)

(** Nothing changes behind the guards: a control request that changes anything was let
    through by the middleware, carries the header that a foreign page cannot send, is a
    POST, and its body is one JSON object with only the known fields. *)
Theorem control_guarded (env : saveEnv) (running : Config) (now : Z) (a : webAnswer) (r : httpReq) (body : option text) (p : procState) :
  (handleControl env running now a r body p).1 <> p ->
  a = ANext /\ rHeader r "X-Requested-With" = "tlsvpn"%string /\ rMethod r = "POST"%string /\ exists t o, body = Some t /\ parseText t = Some (o, false) /\
  match o with JObj fs => known controlKeys fs = true | JNull => True | _ => False end.
Proof.
  unfold handleControl. destruct a; try done. destruct (csrfGuard r) eqn:Ec; [|done]. cbn [negb]. unfold csrfGuard in Ec. apply bool_decide_eq_true in Ec.
  destruct (eqs (rMethod r) "POST") eqn:Em; [|done]. cbn [negb]. unfold eqs in Em. apply bool_decide_eq_true in Em. intros Hp. split_and!; [done..|].
  destruct body as [t|]; [|done]. cbn [mbind option_bind] in Hp. exists t. unfold decodeBody in Hp.
  destruct (parseText t) as [[j tr]|]; [|done]. cbn [mbind option_bind] in Hp. exists j. destruct j as [| | | | |fs]; try done; cbn [mbind option_bind] in Hp.
  - destruct tr; [by destruct (known controlKeys [])|]. done.
  - destruct (known controlKeys fs); cbn [negb orb] in Hp; [|done]. destruct tr; [done|]. done.
Qed.

(** ** Saving *)

Lemma merge_keeps_path (old c : Config) (posted : text) : mergeAndValidateConfig old posted = Some (inr c) -> SourcePath c = SourcePath old.
Proof.
  unfold mergeAndValidateConfig. destruct (parseText posted) as [[j tr]|]; [|done]. cbn [mbind option_bind]. destruct (decodeValue j) as [new|]; [|done]. cbn [mbind option_bind].
  destruct tr; [done|]. intros [= EM]. by destruct (Validate_parts _ _ EM) as (_ & _ & [[_ ->]|[_ (rs & -> & _)]]).
Qed.

(** What a save leaves on disk, whether or not it succeeds. *)
Lemma persist_spec (env : saveEnv) (running : Config) (posted : text) (apply : bool) (p : procState) :
  let '(p', r) := persist env running posted apply p in
  exists fs, p' = setFiles fs p /\ fs !! SourcePath (prCfg p) = match r with None => prFiles p !! SourcePath (prCfg p) | Some (c, _) => Some (render (encodeConfig c)) end.
Proof.
  unfold persist. destruct (mergeAndValidateConfig (prCfg p) posted) as [[e|c]|] eqn:EM; [exists (prFiles p); by destruct p| |exists (prFiles p); by destruct p].
  pose proof (merge_keeps_path _ _ _ EM) as HP.
  unfold SaveConfigFile. destruct (isEmpty (SourcePath c)); [exists (prFiles p); by destruct p|]. change (SourcePath (applyDefaults c)) with (SourcePath c). rewrite HP.
  pose proof (tmp_differs (SourcePath (prCfg p))) as Ht. destruct (svWrite env); cbn [negb].
  2: { destruct (svPartial env); eexists; (split; [reflexivity|]); [by rewrite lookup_insert_ne|done]. }
  destruct (svRename env); cbn [negb]; [|eexists; split; [reflexivity|by rewrite lookup_delete_ne]].
  eexists; split; [reflexivity|]. by rewrite lookup_insert_eq.
Qed.

(** Only saving leaves the process alone, and applying makes every part run what is on
    disk.  A save of the dashboard that fails changes nothing but perhaps a temporary
    file; "save" changes the file and nothing else; after "save_apply" the manager, the
    accounting and the server or the client all have the configuration that was written. *)
Theorem save_semantics (env : saveEnv) (running : Config) (posted : text) (apply : bool) (p : procState) :
  let '(p', r) := saveConfig false env running posted apply p in
  match r with
  | None => exists fs, p' = setFiles fs p /\ fs !! SourcePath (prCfg p) = prFiles p !! SourcePath (prCfg p)
  | Some (c, _) =>
    prFiles p' !! SourcePath (prCfg p) = Some (render (encodeConfig c)) /\
    (apply = false -> exists fs, p' = setFiles fs p) /\
    (apply = true -> prCfg p' = c /\ prTraffic p' = c /\ prServer p' = prServer p /\
      (prServer p = true -> prWorld p' = svExec sha256 deriveID [applyOp c] (prWorld p)) /\ (prServer p = false -> prClientCfg p' = c /\ prForceGen p' = S (prForceGen p)))
  end.
Proof.
  unfold saveConfig. pose proof (persist_spec env running posted apply p) as HS. destruct (persist env running posted apply p) as [p1 [[c nr]|]]; destruct HS as (fs & -> & Hf); [|by exists fs].
  destruct apply; cbn [negb]; [|split_and!; [exact Hf|by exists fs|done]]. unfold applyParts, setRuntimeLogLevel.
  destruct (levelOk (trimSpace (LogLevel c))), p as [[] ? ? ? ? ? ? ? ?]; cbn; split_and!; try done; by intros ?.
Qed.

(** ** The two front ends agree *)

(** The dashboard request that stands for a tool. *)
Definition asControl (t : mcpTool) : controlBody :=
  match t with
  | TSetLogLevel l => mkBody "loglevel" "" (trimSpace l) 0 None
  | TForceReconnect => mkBody "reconnect" "" "" 0 None
  | TKick id => mkBody "kick" (trimSpace id) "" 0 None
  | TBan id ttl => mkBody "ban" (trimSpace id) "" ttl None
  | TUnban id => mkBody "unban" (trimSpace id) "" 0 None
  | TKickAll => mkBody "kickall" "" "" 0 None
  | TGC => mkBody "gc" "" "" 0 None
  | TConfigSave cfg apply => mkBody (if apply then "save_apply" else "save") "" "" 0 cfg
  end.
Definition quiet (p : procState) : procState := mkProc _ (prServer p) (prWorld p) (prCfg p) (prTraffic p) (prClientCfg p) (prFiles p) (prLevel p) (prForceGen p) [].

Lemma save_front_ends (env : saveEnv) (running : Config) (posted : text) (apply : bool) (p p' : procState) (c : Config) (nr : list string) :
  saveConfig true env running posted apply p = (p', Some (c, nr)) -> saveConfig false env running posted apply p = (p', Some (c, nr)).
Proof. unfold saveConfig. destruct (persist _ _ _ _ _) as [p1 [[c' nr']|]]; [|done]. destruct apply; cbn [negb]; [|done]. by destruct (setRuntimeLogLevel _ _). Qed.

(** An MCP tool that reports success does to the process exactly what the dashboard's
    action does: they differ in the text of the event only. *)
Theorem mcp_as_dashboard (env : saveEnv) (running : Config) (now : Z) (t : mcpTool) (p p' : procState) :
  mcpWrite env running now t p = (p', true) ->
  let '(q, a) := controlAction env running now (asControl t) p in quiet q = quiet p' /\ exists nr, a = C200 nr.
Proof.
  destruct t as [l| |id|id ttl|id| | |cfg apply]; [..|destruct apply]; unfold mcpWrite, controlAction; cbn [asControl cAction cClientID cLevel cTTL cConfig]; eqs_eval;
    cbn [negb andb orb]; destruct (prServer p) eqn:EP; cbn [negb andb]; try done.
  1, 2: destruct (setRuntimeLogLevel (trimSpace l) p); [|done]; intros [= <-]; split; [done|by eexists].
  1: intros [= <-]; split; [done|by eexists].
  1: destruct (isEmpty (trimSpace id)); [done|]; unfold kickOps; destruct (activeClients _ !! _); [|done]; intros [= <-]; split; [done|by eexists].
  1: destruct (isEmpty (trimSpace id)); [done|]; destruct ((ttl <? 0) || _); [done|]; intros [= <-]; split; [done|by eexists].
  1: destruct (isEmpty (trimSpace id)); [done|]; intros [= <-]; split; [done|by eexists].
  1, 2, 3: intros [= <-]; split; [done|by eexists].
  all: destruct cfg as [j|]; [|done]; destruct (saveConfig true env running (render j) _ p) as [p1 [[c nr]|]] eqn:ES; [|done]; intros [= <-];
    rewrite (save_front_ends _ _ _ _ _ _ _ _ ES); split; [done|by eexists].
Qed.

(** ** Kicking everyone *)

Lemma kick_at (uid : nat) (id : string) (s : ClientSession) (w : world) : activeClients (srv w) !! id = Some s -> sUid s = uid ->
  activeClients (srv (svStep sha256 deriveID w (SKick uid id))) = delete id (activeClients (srv w)).
Proof. intros Hs <-. cbn [svStep set_srv srv]. unfold kickSession, destroySessionLocked. by rewrite Hs, Nat.eqb_refl. Qed.

(** "kickall" leaves no session: every one that was active is gone, and no other appears. *)
Lemma kickall_empties (w : world) : activeClients (srv (svExec sha256 deriveID (kickAllOps w) w)) = ∅.
Proof.
  unfold kickAllOps.
  enough (forall l w, NoDup l.*1 -> list_to_map l = activeClients (srv w) -> activeClients (srv (svExec sha256 deriveID ((fun x : string * ClientSession => SKick (sUid x.2) x.1) <$> l) w)) = ∅) as HL.
  { apply HL; [apply NoDup_fst_map_to_list|apply list_to_map_to_list]. }
  clear w. intros l. induction l as [|[id s] l IH]; intros w Hn Hw; [cbn; by rewrite <- Hw|]. cbn in Hn, Hw. apply NoDup_cons in Hn as [Hi Hn].
  apply (IH (svStep sha256 deriveID w (SKick (sUid s) id))); [done|].
  rewrite (kick_at _ id s); [|by rewrite <- Hw, lookup_insert_eq|done]. rewrite <- Hw, delete_insert_id; [done|]. by apply not_elem_of_list_to_map_1.
Qed.

(** ** Bounds *)

(** Through MCP a ban lasts as long as was asked, to the nanosecond; the dashboard does
    not bound the minutes, and there the product wraps. *)
Lemma mcp_ban_exact (minutes : Z) : 0 <= minutes <= 10080 -> ttlOf minutes = minutes * 60000000000.
Proof. intros Hm. unfold ttlOf. widths. rewrite Z.mod_small; lia. Qed.
Lemma dashboard_ban_wraps : ttlOf 153722868 < 0 /\ ttlOf 307445735 = 26290448384.
Proof. by vm_compute. Qed.

(** So a ban of five centuries asked of the dashboard is over after 27 seconds. *)
Lemma dashboard_long_ban_expires (now : Z) (id : string) (b : banTable) : 0 <= now -> (IsBanned (now + 27000000000) id (banEntry now id (ttlOf 307445735) b).1).2 = false.
Proof.
  intros Hn. destruct dashboard_ban_wraps as [_ ->]. unfold banEntry, IsBanned. case_bool_decide as Hi; [done|]. cbn [fst Z.leb Z.compare]. rewrite lookup_insert_eq.
  unfold unixMilli. replace (0 <? _) with true by (symmetry; apply Z.ltb_lt, Z.div_str_pos; lia). by replace (_ <=? _) with true by (symmetry; apply Z.leb_le, Z.div_le_mono; lia).
Qed.

Lemma mcpLimit_bounds (v n : Z) : mcpLimit v = Some n -> 1 <= n <= 1000.
Proof. unfold mcpLimit. destruct (Z.eqb_spec v 0); [intros [= <-]; lia|]. destruct ((v <? 1) || (1000 <? v)) eqn:E; [done|]. intros [= <-]. apply orb_false_iff in E. lia. Qed.
End Control.
