(* ===== verification/Identity.v ===== *)
(** * The client's identity (client.go: applyTapMac, NewClient; client_state.go; net_linux.go: setTapMac)

    Which MAC address a starting client has, what it writes down, and the client id that
    follows from it.  The TAP device comes with a MAC address of its own at every start;
    the kernel, the random source and the file system are the fields of [idEnv], one per
    call.  A start that ends in log.Fatalf is [None]. *)

From stdpp Require Import base tactics list numbers strings.
From S2P Require Import Prelude Aead VSwitch Config Ident Session Client.
#[local] Open Scope Z_scope.

(** ** Text *)

Definition textOf (b : bytes) : string := String.string_of_list_ascii ((fun x => Ascii.ascii_of_N (Z.to_N x)) <$> b).

Lemma textOf_bytes (b : bytes) : Forall is_u8 b -> str_bytes (textOf b) = b.
Proof.
  intros HF. unfold str_bytes, textOf. rewrite String.list_ascii_of_string_of_list_ascii, <- list_fmap_compose. rewrite <- list_fmap_id. apply list_fmap_ext. intros i x Hx.
  cbn. rewrite Ascii.N_ascii_embedding, Z2N.id; [done|..]; apply Forall_lookup_1 with (1 := HF) in Hx; widths; lia.
Qed.

(** net.ParseMAC: pairs after colons or hyphens, or groups of four after dots. *)
Definition hwLen (n : nat) : bool := (n =? 6)%nat || (n =? 8)%nat || (n =? 20)%nat.
Definition parseGroup (p : bytes) : option bytes :=
  match p with [a; b; c; d] => match parsePart [a; b], parsePart [c; d] with Some x, Some y => Some [x; y] | _, _ => None end | _ => None end.
Definition ParseMAC (s : bytes) : option bytes :=
  match s !! 2%nat with
  | None => None
  | Some sep =>
    if (sep =? 58) || (sep =? 45) then let parts := splitOn sep s in if hwLen (length parts) then mapM parsePart parts else None
    else if bool_decide (s !! 4%nat = Some 46) then let parts := splitOn 46 s in if hwLen (2 * length parts) then mjoin <$> mapM parseGroup parts else None
    else None
  end.

(** net.HardwareAddr.String. *)
Definition hwText (m : bytes) : string := textOf (fmtMAC m).

(** ** The start *)

Record idEnv := mkIdEnv {
  iLinux : bool;                  (* netlinkTunnelSupported *)
  iMem : bool;                    (* tap is mem *)
  iBorn : bytes;                  (* the address of the new TAP device *)
  iFind : bool; iSet : bool;      (* setTapMac: the link is found, the address is taken *)
  iRand : option bytes; iSave : bool;
  iFind2 : bool;                  (* NewClient: the link is found *)
  iRand2 : option bytes; iSave2 : bool
}.

Definition generateTapMAC (r : option bytes) : option string :=
  match r with Some b => Some (hwText (<[0%nat := Z.lor (Z.land (byte_at 0 b) 254) 2]> b)) | None => None end.

Definition setTapMac (e : idEnv) (mac : string) (link : bytes) : bytes * bool :=
  if isEmpty mac then (link, true) else
  match ParseMAC (str_bytes mac) with
  | None => (link, false)
  | Some hw =>
    if negb (iFind e) then (link, false) else
    if (0 <? lenZ hw) && (Z.land (byte_at 0 hw) 1 =? 1) then (link, false) else
    if iSet e then (hw, true) else (link, false)
  end.

Definition set_mac (mac : string) (st : clientState) : clientState := mkCState (stClientID st) mac (stSessionID st) (stToken st) (stEpoch st).

(** The state, the file and the address of the device. *)
Definition applyTapMac (e : idEnv) (path : bool) (cfgMac : string) (st : clientState) (d : stateDisk) (link : bytes) : option (clientState * stateDisk * bytes) :=
  if negb (iLinux e) then Some (st, d, link) else
  match (if negb (isEmpty cfgMac) then Some cfgMac else if negb (isEmpty (stMAC st)) then Some (stMAC st) else generateTapMAC (iRand e)) with
  | None => None
  | Some mac =>
    match setTapMac e mac link with
    | (link, false) => Some (st, d, link)
    | (link, true) =>
      if isEmpty cfgMac && negb (bool_decide (stMAC st = mac)) then
        let st := set_mac mac st in let '(d, _) := saveClientState path st (iSave e) d in Some (st, d, link)
      else Some (st, d, link)
    end
  end.

(** NewClient up to the MAC address. *)
Definition chooseMac (e : idEnv) (path : bool) (cfgMac : string) (d : stateDisk) : option (string * clientState * stateDisk) :=
  let st := default cstate0 (default None (loadClientState path d)) in
  match (if iMem e then Some (st, d, []) else applyTapMac e path cfgMac st d (iBorn e)) with
  | None => None
  | Some (st, d, link) =>
    let mac := if isEmpty cfgMac && negb (iMem e) && iFind2 e then hwText link else cfgMac in
    let mac := if isEmpty mac then stMAC st else mac in
    match (if negb (isEmpty mac) then Some (mac, st, d) else
           match generateTapMAC (iRand2 e) with
           | None => None
           | Some mac => let st := set_mac mac st in match saveClientState path st (iSave2 e) d with (d, true) => Some (mac, st, d) | (_, false) => None end
           end) with
    | None => None
    | Some (mac, st, d) => Some (match parseMACKey (str_bytes mac) with Some m => hwText m | None => mac end, st, d)
    end
  end.

Section Identity.
Context (deriveID : bytes -> string -> string).

(** NewClient: the client of Client with the state that was just written. *)
Definition bootClient (e : idEnv) (path : bool) (cfgMac psk inst : string) (conns : Z) (d : stateDisk) : option (Client * stateDisk) :=
  match chooseMac e path cfgMac d with
  | None => None
  | Some (mac, st, d') => Some (set_cstate (Some st) (NewClient path (deriveID (str_bytes mac) psk) mac inst conns d), d')
  end.

(** ** A history of processes on one file *)

(** A new process, which may run over mem or a real TAP; what it does to the file; what it
    reads back.  A step of a process before the first start does nothing. *)
Inductive life := LStart (e : idEnv) (inst : string) | LPersist (sid token : string) (epoch : Z) (ok : bool) | LRefresh.
Definition lifeStep (cfgMac psk : string) (conns : Z) (s : option Client * stateDisk) (l : life) : option Client * stateDisk :=
  let '(c, d) := s in
  match l, c with
  | LStart e inst, _ => match bootClient e true cfgMac psk inst conns d with Some (c, d) => (Some c, d) | None => (None, d) end
  | LPersist sid token epoch ok, Some c => let '(c, d) := persistSessionState sid token epoch ok c d in (Some c, d)
  | LRefresh, Some c => (Some (refreshSessionStateFromDisk d c), d)
  | _, None => (None, d)
  end.
Definition lifeRun (cfgMac psk : string) (conns : Z) (ls : list life) (s : option Client * stateDisk) : option Client * stateDisk := fold_left (lifeStep cfgMac psk conns) ls s.
End Identity.

(** ** Generated addresses *)

Definition unicast (m : bytes) : Prop := length m = 6%nat /\ Forall is_u8 m /\ Z.land (byte_at 0 m) 1 = 0 /\ m <> zeros 6.

Lemma fmtMAC_u8 (m : bytes) : Forall is_u8 m -> Forall is_u8 (fmtMAC m).
Proof.
  assert (forall b, is_u8 b -> Forall is_u8 (fmtByte b)) as HB.
  { intros b Hb. pose proof (Z.mod_pos_bound b 16 ltac:(lia)). assert (0 <= b / 16 < 16) by (split; [apply Z.div_pos|apply Z.div_lt_upper_bound]; widths; lia).
    unfold fmtByte, hexDigit. repeat constructor; destruct (_ <? _) eqn:?; widths; lia. }
  unfold fmtMAC. induction 1 as [|b m Hb HF IH]; [constructor|]. destruct m as [|b' m]; [cbn; by apply HB|].
  change (joinColon (fmtByte <$> b :: b' :: m)) with (fmtByte b ++ 58 :: joinColon (fmtByte <$> b' :: m)). apply Forall_app. split; [by apply HB|]. constructor; [widths; lia|done].
Qed.

Lemma hwText_parse (m : bytes) : length m = 6%nat -> Forall is_u8 m -> parseMACKey (str_bytes (hwText m)) = Some m.
Proof. intros Hl HF. unfold hwText. rewrite textOf_bytes by by apply fmtMAC_u8. by apply mac_roundtrip. Qed.

Lemma unicast_valid (s : bytes) : isValidMACString s = true <-> exists m, parseMACKey s = Some m /\ unicast m.
Proof.
  unfold isValidMACString. split.
  - destruct (parseMACKey s) as [m|] eqn:E; [|done]. intros HV. apply andb_prop in HV as [H1 H2]. apply negb_true_iff, bool_decide_eq_false in H1. apply Z.eqb_eq in H2.
    destruct (parseMACKey_shape _ _ E). by exists m.
  - intros (m & -> & Hl & HF & Hu & Hz). rewrite bool_decide_false by done. by rewrite Hu.
Qed.

#[local] Definition firstByteOk (x : Z) : bool :=
  let y := Z.lor (Z.land x 254) 2 in (0 <=? y) && (y <? 256) && (Z.land y 1 =? 0) && negb (y =? 0).
Lemma firstByte_ok (x : Z) : is_u8 x -> firstByteOk x = true.
Proof.
  intros Hx. assert (forallb firstByteOk (seqZ 0 256) = true) as HA by by vm_compute. apply (proj1 (List.forallb_forall _ _) HA), list_elem_of_In, elem_of_seqZ. widths. lia.
Qed.

(** What is generated is a usable address: unicast, locally administered, not zero. *)
Lemma generated_unicast (b : bytes) : length b = 6%nat -> Forall is_u8 b -> unicast (<[0%nat := Z.lor (Z.land (byte_at 0 b) 254) 2]> b).
Proof.
  intros Hl HF. destruct b as [|b0 b]; [done|]. unfold byte_at. cbn [insert list_insert nth]. apply Forall_cons_1 in HF as [Hb HF].
  pose proof (firstByte_ok b0 Hb) as HA. unfold firstByteOk in HA. repeat (apply andb_prop in HA as [HA ?]). unfold unicast, byte_at. cbn [length nth] in *. split_and!; [done|constructor; [widths; lia|done]|lia|].
  intros E. injection E as E _. lia.
Qed.

(** ** The two readers of an address *)

Lemma joinColon_splitOn (s : bytes) : joinColon (splitOn 58 s) = s.
Proof.
  induction s as [|x s IH]; [done|]. cbn [splitOn]. destruct (Z.eqb_spec x 58) as [->|Hx].
  - destruct (splitOn 58 s) as [|p ps] eqn:E; [by destruct s as [|y s']; cbn [splitOn] in E; [|destruct (y =? 58); [|destruct (splitOn 58 s')]]|]. cbn [joinColon app]. by f_equal.
  - destruct (splitOn 58 s) as [|p [|q ps]]; cbn [joinColon app] in *; [by rewrite <- IH|by rewrite IH|by rewrite IH].
Qed.

(** What the handshake accepts as an address, the kernel is given as the same one. *)
Lemma parseMACKey_ParseMAC (s m : bytes) : parseMACKey s = Some m -> ParseMAC s = Some m.
Proof.
  unfold parseMACKey. destruct (length (splitOn 58 s) =? 6)%nat eqn:El; [|done]. intros HM. unfold ParseMAC.
  assert (s !! 2%nat = Some 58) as ->.
  { rewrite <- (joinColon_splitOn s). apply Nat.eqb_eq in El. destruct (splitOn 58 s) as [|p [|q ps]]; [done..|]. apply mapM_Some_1 in HM. inversion HM as [|? ? ? ? Hp _]; subst.
    destruct p as [|a [|b [|]]]; done. }
  cbn [Z.eqb orb Pos.eqb]. apply Nat.eqb_eq in El. by rewrite El.
Qed.

(** ** Stability *)

(** The calls succeed, whatever addresses and random bytes they deliver. *)
Record goodEnv (e : idEnv) : Prop := {
  g_linux : iLinux e = true;
  g_find : iFind e = true; g_set : iSet e = true; g_find2 : iFind2 e = true;
  g_save : iSave e = true; g_save2 : iSave2 e = true;
  g_rand : exists b, iRand e = Some b /\ length b = 6%nat /\ Forall is_u8 b;
  g_rand2 : exists b, iRand2 e = Some b /\ length b = 6%nat /\ Forall is_u8 b
}.

(** The address that the configuration or the file gives. *)
Definition known_mac (cfgMac : string) (d : stateDisk) : string :=
  if negb (isEmpty cfgMac) then cfgMac else match d with DState st => stMAC st | _ => "" end.

Lemma parsed_nonempty (s : string) (m : bytes) : parseMACKey (str_bytes s) = Some m -> isEmpty s = false.
Proof. intros HP. unfold isEmpty. case_bool_decide; [by subst|done]. Qed.

Lemma setTapMac_good (e : idEnv) (s : string) (m link : bytes) : goodEnv e -> parseMACKey (str_bytes s) = Some m -> unicast m -> setTapMac e s link = (m, true).
Proof.
  intros G HP (Hl & _ & Hu & _). unfold setTapMac. rewrite (parsed_nonempty _ _ HP), (parseMACKey_ParseMAC _ _ HP), (g_find _ G), (g_set _ G), Hu. cbn [negb]. by rewrite andb_false_r.
Qed.

Lemma hwText_unicast (m : bytes) : unicast m -> parseMACKey (str_bytes (hwText m)) = Some m.
Proof. intros (Hl & HF & _). by apply hwText_parse. Qed.

(** A known address is the identity of every start, and stays in the file. *)
Lemma chooseMac_known (e : idEnv) (cfgMac : string) (d : stateDisk) (m : bytes) :
  goodEnv e -> parseMACKey (str_bytes (known_mac cfgMac d)) = Some m -> unicast m ->
  exists st, chooseMac e true cfgMac d = Some (hwText m, st, d) /\ (isEmpty cfgMac = true -> d = DState st).
Proof.
  intros G HP HU. unfold chooseMac, known_mac in *. destruct (isEmpty cfgMac) eqn:EC; cbn [negb andb] in *.
  - destruct d as [| |st]; [done..|]. exists st. split; [|done]. cbn [loadClientState negb default from_option Datatypes.id]. pose proof (parsed_nonempty _ _ HP) as Hs.
    assert (cfgMac = ""%string) as -> by (unfold isEmpty in EC; by apply bool_decide_eq_true in EC). destruct (iMem e); cbn [negb andb].
    + rewrite EC, Hs. cbn [negb]. by rewrite HP.
    + unfold applyTapMac. rewrite (g_linux _ G), EC, Hs. cbn [negb]. rewrite (setTapMac_good _ _ _ _ G HP HU), bool_decide_true by done. cbn [negb andb].
      rewrite (g_find2 _ G). pose proof (hwText_unicast _ HU) as HT. rewrite (parsed_nonempty _ _ HT). cbn [negb]. rewrite (parsed_nonempty _ _ HT). cbn [negb]. by rewrite HT.
  - destruct (iMem e).
    + repeat (rewrite EC; cbn [negb]). rewrite HP. by eexists.
    + unfold applyTapMac. rewrite (g_linux _ G), EC. cbn [negb]. rewrite (setTapMac_good _ _ _ _ G HP HU). cbn [andb]. repeat (rewrite EC; cbn [negb]). rewrite HP. by eexists.
Qed.

(** With no address anywhere, the first start makes one and writes it down. *)
Lemma chooseMac_fresh (e : idEnv) (d : stateDisk) : goodEnv e -> known_mac "" d = ""%string ->
  exists m st, unicast m /\ chooseMac e true "" d = Some (hwText m, st, DState st) /\ stMAC st = hwText m.
Proof.
  intros G HK. unfold chooseMac. set (st0 := default cstate0 _). assert (stMAC st0 = ""%string) as H0 by (subst st0; destruct d; done). clearbody st0. change (isEmpty "") with true. cbn [andb].
  destruct (g_rand _ G) as (b & Hb & Hl & HF). destruct (g_rand2 _ G) as (b2 & Hb2 & Hl2 & HF2).
  pose proof (generated_unicast _ Hl HF) as HU. pose proof (generated_unicast _ Hl2 HF2) as HU2. destruct (iMem e); cbn [negb andb].
  - change (isEmpty "") with true. rewrite H0. change (isEmpty "") with true. cbn [negb]. rewrite Hb2. cbn [generateTapMAC]. unfold saveClientState. rewrite (g_save2 _ G). cbn [negb].
    rewrite (hwText_unicast _ HU2). eexists _, _. split; [exact HU2|]. by split.
  - unfold applyTapMac. rewrite (g_linux _ G), H0. change (isEmpty "") with true. cbn [negb]. rewrite Hb. cbn [generateTapMAC]. pose proof (hwText_unicast _ HU) as HT.
    rewrite (setTapMac_good _ _ _ _ G HT HU). rewrite bool_decide_false by (intros E; rewrite <- E in HT; done). cbn [negb andb]. unfold saveClientState. rewrite (g_save _ G). cbn [negb].
    rewrite (g_find2 _ G), (parsed_nonempty _ _ HT). cbn [negb]. rewrite (parsed_nonempty _ _ HT). cbn [negb]. rewrite HT. eexists _, _. split; [exact HU|]. by split.
Qed.

Section Stable.
Context (deriveID : bytes -> string -> string) (cfgMac psk : string) (conns : Z).

(** The process has the identity of [m], and the next one will find [m] again. *)
Definition keeps (m : bytes) (c : Client) (d : stateDisk) : Prop :=
  cMAC c = hwText m /\ cID c = deriveID (fmtMAC m) psk /\ parseMACKey (str_bytes (known_mac cfgMac d)) = Some m /\
  exists st, cState c = Some st /\ (isEmpty cfgMac = true -> parseMACKey (str_bytes (stMAC st)) = Some m).

Lemma NewClient_state (path : bool) (id mac inst : string) (d : stateDisk) (st : clientState) :
  let c := set_cstate (Some st) (NewClient path id mac inst conns d) in cMAC c = mac /\ cID c = id /\ cState c = Some st.
Proof. cbn. unfold NewClient. by destruct (_ && _). Qed.

Lemma hwText_bytes (m : bytes) : unicast m -> str_bytes (hwText m) = fmtMAC m.
Proof. intros (_ & HF & _). unfold hwText. by apply textOf_bytes, fmtMAC_u8. Qed.

Lemma boot_keeps (e : idEnv) (inst : string) (d : stateDisk) (m : bytes) : goodEnv e -> unicast m -> parseMACKey (str_bytes (known_mac cfgMac d)) = Some m ->
  exists c, bootClient deriveID e true cfgMac psk inst conns d = Some (c, d) /\ keeps m c d.
Proof.
  intros G HU HP. destruct (chooseMac_known _ _ _ _ G HP HU) as (st & HC & Hd). unfold bootClient. rewrite HC. eexists. split; [reflexivity|].
  destruct (NewClient_state true (deriveID (str_bytes (hwText m)) psk) (hwText m) inst d st) as (H1 & H2 & H3). unfold keeps. rewrite H1, H2, H3, hwText_bytes by done. split_and!; [done..|].
  exists st. split; [done|]. intros HE. pose proof (Hd HE) as ->. unfold known_mac in HP. by rewrite HE in HP.
Qed.

Lemma boot_first (e : idEnv) (inst : string) (d : stateDisk) : goodEnv e -> (isEmpty cfgMac || isValidMACString (str_bytes cfgMac)) = true ->
  (known_mac cfgMac d = ""%string \/ isValidMACString (str_bytes (known_mac cfgMac d)) = true) ->
  exists m c d', unicast m /\ bootClient deriveID e true cfgMac psk inst conns d = Some (c, d') /\ keeps m c d'.
Proof.
  intros G HC [HK|HK].
  - assert (cfgMac = ""%string) as E. { unfold known_mac in HK. unfold isEmpty in *. by destruct (bool_decide_reflect (cfgMac = ""%string)). }
    unfold bootClient. rewrite E in *. destruct (chooseMac_fresh e d G HK) as (m & st & HU & -> & Hst). exists m. eexists _, _. split; [exact HU|]. split; [reflexivity|].
    destruct (NewClient_state true (deriveID (str_bytes (hwText m)) psk) (hwText m) inst d st) as (H1 & H2 & H3). unfold keeps. rewrite E, H1, H2, H3, hwText_bytes by done.
    split_and!; [done..|change (known_mac "" (DState st)) with (stMAC st); by rewrite Hst, hwText_unicast|]. exists st. by rewrite Hst, hwText_unicast.
  - apply unicast_valid in HK as (m & HP & HU). destruct (boot_keeps e inst d m G HU HP) as (c & HB & HI). by exists m, c, d.
Qed.

Lemma known_disk (m : bytes) (st : clientState) : parseMACKey (str_bytes (known_mac cfgMac (DState st))) = Some m -> isEmpty cfgMac = true -> parseMACKey (str_bytes (stMAC st)) = Some m.
Proof. unfold known_mac. by intros HP HE; rewrite HE in HP. Qed.

(** The record may change, in memory or on disk, as long as it keeps the address. *)
Lemma keeps_state (m : bytes) (c : Client) (d : stateDisk) (st : clientState) : keeps m c d -> (isEmpty cfgMac = true -> parseMACKey (str_bytes (stMAC st)) = Some m) ->
  keeps m (set_cstate (Some st) c) d /\ keeps m (set_cstate (Some st) c) (DState st) /\ keeps m c (DState st).
Proof.
  intros (H1 & H2 & H3 & st0 & H4 & H5) Hst. assert (parseMACKey (str_bytes (known_mac cfgMac (DState st))) = Some m) as HK.
  { unfold known_mac in *. destruct (isEmpty cfgMac); cbn [negb] in *; auto. }
  split_and!; (split_and!; [done..|]); eauto.
Qed.

Lemma persist_keeps (sid token : string) (epoch : Z) (ok : bool) (m : bytes) (c : Client) (d : stateDisk) : keeps m c d ->
  let '(c', d') := persistSessionState sid token epoch ok c d in keeps m c' d'.
Proof.
  intros HK. unfold persistSessionState. destruct (persistCurrent _ _ _ _); [|done]. unfold persistWrite. 
  match goal with |- context [match ?n with Some _ => _ | None => _ end] => match type of n with option clientState => set (newer := n) end end.
  assert (forall st, newer = Some st -> d = DState st) as HN.
  { intros st. subst newer. unfold loadClientState. destruct (cPath c); cbn [negb]; [|done]. destruct d as [| |st1]; [done..|]. destruct (_ && _); [|done]. by intros [= ->]. }
  clearbody newer. destruct newer as [st|]; [pose proof (HN _ eq_refl) as ->; apply keeps_state; [done|]; apply known_disk; by destruct HK as (_ & _ & ? & _)|].
  destruct HK as (H1 & H2 & H3 & st & H4 & H5). assert (keeps m c d) as HK by (split_and!; eauto). rewrite H4. cbn [default from_option Datatypes.id]. destruct (_ && _ && _); [done|].
  set (st' := mkCState _ _ _ _ _). destruct (keeps_state m c d st' HK H5) as (K1 & K2 & K3). unfold saveClientState. destruct (cPath c), ok; done.
Qed.

Lemma refresh_keeps (m : bytes) (c : Client) (d : stateDisk) : keeps m c d -> keeps m (refreshSessionStateFromDisk d c) d.
Proof.
  intros HK. unfold refreshSessionStateFromDisk, loadClientState. destruct (cPath c); cbn [negb]; [|done]. destruct d as [| |st]; [done..|].
  repeat (destruct (_ : bool); [done|]). assert (keeps m (set_session (stSessionID st) (stToken st) (stEpoch st) c) (DState st)) as HS by exact HK.
  apply keeps_state; [done|]. apply known_disk. by destruct HK as (_ & _ & ? & _).
Qed.

Definition goodLife (l : life) : Prop := match l with LStart e _ => goodEnv e | _ => True end.

Lemma life_keeps (m : bytes) (ls : list life) (c : Client) (d : stateDisk) : unicast m -> Forall goodLife ls -> keeps m c d ->
  exists c' d', lifeRun deriveID cfgMac psk conns ls (Some c, d) = (Some c', d') /\ keeps m c' d'.
Proof.
  intros HU HF. revert c d. induction HF as [|l ls Hl HF IH]; intros c d HK; [by eexists _, _|]. unfold lifeRun. cbn [fold_left]. destruct l as [e inst|sid token epoch ok|]; cbn [lifeStep].
  - destruct (boot_keeps e inst d m Hl HU) as (c' & -> & HK'); [by destruct HK as (_ & _ & ? & _)|]. by apply IH.
  - pose proof (persist_keeps sid token epoch ok m c d HK) as HP. destruct (persistSessionState _ _ _ _ _ _) as [c' d']. by apply IH.
  - by apply IH, refresh_keeps.
Qed.

(** C24: A client stays who it is.  On Linux, on one configuration and one state file, neither
    with a MAC address that is not valid, whatever address each new TAP device has and
    whatever bytes the random source delivers, and as long as the calls that set the address, the writes of the file and the random source
    succeed (else see unset_mac_not_kept), every start succeeds, and all processes have
    the same MAC address and the same client id, also after sessions were written to the
    file and read back.  The address is one that the handshake of the server accepts, and
    the id the one that it derives from it. *)
Theorem identity_stable (e : idEnv) (inst : string) (ls : list life) (d : stateDisk) :
  (isEmpty cfgMac || isValidMACString (str_bytes cfgMac)) = true ->
  known_mac cfgMac d = ""%string \/ isValidMACString (str_bytes (known_mac cfgMac d)) = true ->
  Forall goodLife (LStart e inst :: ls) ->
  exists mac, isValidMACString (str_bytes mac) = true /\
  forall n, exists c d', lifeRun deriveID cfgMac psk conns (take (S n) (LStart e inst :: ls)) (None, d) = (Some c, d') /\
    cMAC c = mac /\ cID c = deriveID (fmtMAC (default macZero (parseMACKey (str_bytes mac)))) psk.
Proof.
  intros HC HK HF. apply Forall_cons_1 in HF as [Hl HF]. destruct (boot_first e inst d Hl HC HK) as (m & c & d' & HU & HB & HI). pose proof (hwText_unicast _ HU) as HT.
  exists (hwText m). split; [apply unicast_valid; by exists m|]. intros n. cbn [take]. unfold lifeRun. cbn [fold_left lifeStep]. rewrite HB.
  destruct (life_keeps m (take n ls) c d' HU (Forall_take _ _ _ HF) HI) as (c' & d2 & HR & H1 & H2 & _). exists c', d2. by rewrite HT.
Qed.
End Stable.

(** ** Where it does not hold *)

(** When the device does not take the address, nothing is written down and the process
    takes the address that the device was made with: the next process is another
    client. *)
Lemma unset_mac_not_kept (e : idEnv) (d : stateDisk) (b : bytes) : iLinux e = true -> iMem e = false -> iFind2 e = true -> iSet e = false ->
  iRand e = Some b -> length b = 6%nat -> Forall is_u8 b -> known_mac "" d = ""%string -> unicast (iBorn e) -> exists st, chooseMac e true "" d = Some (hwText (iBorn e), st, d).
Proof.
  intros E1 E2 E4 E5 E6 Hl HF HK HU. unfold chooseMac. set (st0 := default cstate0 _). assert (stMAC st0 = ""%string) as H0 by (subst st0; destruct d; done). clearbody st0. exists st0. rewrite E2.
  unfold applyTapMac. rewrite E1, H0, E6. change (isEmpty "") with true. cbn [negb generateTapMAC andb]. pose proof (hwText_unicast _ (generated_unicast _ Hl HF)) as HT. set (g := hwText _) in *. clearbody g.
  assert (setTapMac e g (iBorn e) = (iBorn e, false)) as ->.
  { unfold setTapMac. rewrite (parsed_nonempty _ _ HT), (parseMACKey_ParseMAC _ _ HT), E5. destruct (iFind e); [|done]. by destruct (_ && _). }
  pose proof (hwText_unicast _ HU) as HB. cbn [negb andb]. rewrite E4. repeat (rewrite (parsed_nonempty _ _ HB); cbn [negb]). by rewrite HB.
Qed.

(** ** Witness *)

Definition demoIdEnv (born rnd : Z) : idEnv := mkIdEnv true false [2; 0; 0; 0; 0; born] true true (Some [rnd; 1; 2; 3; 4; 5]) true true (Some [rnd; 5; 4; 3; 2; 1]) true.
Definition demoID1 (m : bytes) (psk : string) : string := (textOf m +:+ psk)%string.
Definition demoLife : list life := [LPersist "s" "t" 1 true; LStart (demoIdEnv 9 77) "i2"; LRefresh].

Lemma demoIdEnv_good (born rnd : Z) : is_u8 rnd -> goodEnv (demoIdEnv born rnd).
Proof. intros Hr. split; try done; (eexists; split; [reflexivity|]; split; [done|repeat constructor; try done; apply Hr]). Qed.

Lemma identity_stable_witness : exists mac, isValidMACString (str_bytes mac) = true /\
  forall n, exists c d', lifeRun demoID1 "" "psk" 1 (take (S n) (LStart (demoIdEnv 7 255) "i1" :: demoLife)) (None, DAbsent) = (Some c, d') /\
    cMAC c = mac /\ cID c = demoID1 (fmtMAC (default macZero (parseMACKey (str_bytes mac)))) "psk".
Proof.
  refine (identity_stable demoID1 "" "psk" 1 (demoIdEnv 7 255) "i1" demoLife DAbsent eq_refl (or_introl eq_refl) _).
  repeat constructor; apply demoIdEnv_good; split; by vm_compute.
Defined.
Example demo_identity : cMAC <$> (lifeRun demoID1 "" "psk" 1 (LStart (demoIdEnv 7 255) "i1" :: demoLife) (None, DAbsent)).1 = Some "fe:01:02:03:04:05"%string.
Proof. by vm_compute. Qed.
