(* ===== verification/Summary.v ===== *)
(** * What the dashboard and the MCP endpoint report (api.go, mcp_auth.go)

    The summaries that are computed and not only copied: the rates of TCP Brutal over the
    connections of a client and of a server, the reasons of failures, the table of
    wrong keys in its order, the days a certificate has left, the size of an address
    pool; and the answers of the MCP endpoint to a request it does not accept, with the
    metadata that a client needs to log in. *)

From stdpp Require Import base tactics list numbers gmap strings sorting.
From S2P Require Import Prelude Guards Brutal Web.
#[local] Open Scope Z_scope.

(** ** TCP Brutal *)

(** brutalApplyResult, as far as a summary reads it. *)
Record applyResult := mkApply { aApplied : bool; aError : string }.

Definition addErr (errs : list string) (br : option applyResult) : list string :=
  match br with
  | Some r => if bool_decide (aError r = ""%string) || bool_decide (aError r ∈ errs) || (3 <=? length errs)%nat then errs else errs ++ [aError r]
  | None => errs
  end.
Definition addApplied (n : Z) (br : option applyResult) : Z := match br with Some r => if aApplied r then n + 1 else n | None => n end.

Record connBrutalSummary := mkCSum { sTotal : Z; sApplied : Z; sMinUp : Z; sMaxUp : Z; sErrs : list string }.

Definition connStep (up count : Z) (conns : gmap Z (option applyResult)) (st : connBrutalSummary) (i : Z) : connBrutalSummary :=
  match conns !! i with
  | None => st
  | Some br =>
    let per := splitLegacyBrutalRate up count i in
    mkCSum (sTotal st + 1) (addApplied (sApplied st) br)
      (if (0 <? up) && ((i =? 0) || (per <? sMinUp st)) then per else sMinUp st)
      (if (0 <? up) && (sMaxUp st <? per) then per else sMaxUp st) (addErr (sErrs st) br)
  end.
Definition connsSummary (up count : Z) (conns : gmap Z (option applyResult)) : connBrutalSummary := fold_left (connStep up count conns) (seqZ 0 count) (mkCSum 0 0 0 0 []).

Record brutalInfo := mkInfo { bTotal : Z; bApplied : Z; bErrors : list string; bMinUp : Z; bMaxUp : Z; bMinDown : Z; bMaxDown : Z }.

(** brutalSummary; [sysErr] is the error of the system status, if it is not supported. *)
Definition brutalSummary (sysErr : option string) (enabled : bool) (up down conns : Z) : brutalInfo :=
  let share r i := if enabled && (0 <? r) && (0 <? conns) then splitLegacyBrutalRate r conns i else 0 in
  mkInfo conns 0 (match sysErr with Some e => if bool_decide (e = ""%string) then [] else [e] | None => [] end) (share up (conns - 1)) (share up 0) (share down (conns - 1)) (share down 0).

(** A connection of a session: the rates of the client and of the server, the result. *)
Record srvConn := mkSConn { cRx : Z; cTx : Z; cBr : option applyResult }.
Definition lastRate (f : srvConn -> Z) (cs : list srvConn) : Z := fold_left (fun _ c => f c) cs 0.

Definition lower (have : bool) (x old : Z) : Z := if negb have || (x <? old) then x else old.
Definition higher (x old : Z) : Z := if old <? x then x else old.
(** One session; the connections come in the order of the iteration. *)
Definition sessionStep (acc : brutalInfo * bool) (cs : list srvConn) : brutalInfo * bool :=
  let '(out, have) := acc in
  let n := lenZ cs in
  let up := lastRate cRx cs in
  let down := lastRate cTx cs in
  let total := bTotal out + n in
  let applied := fold_left (fun a c => addApplied a (cBr c)) cs (bApplied out) in
  let errs := fold_left (fun a c => addErr a (cBr c)) cs (bErrors out) in
  if 0 <? n then
    (mkInfo total applied errs (lower have (splitLegacyBrutalRate up n (n - 1)) (bMinUp out)) (higher (splitLegacyBrutalRate up n 0) (bMaxUp out))
       (lower have (splitLegacyBrutalRate down n (n - 1)) (bMinDown out)) (higher (splitLegacyBrutalRate down n 0) (bMaxDown out)), true)
  else (mkInfo total applied errs (bMinUp out) (bMaxUp out) (bMinDown out) (bMaxDown out), have).
Definition serverConnsBrutal (sessions : list (list srvConn)) : brutalInfo := (fold_left sessionStep sessions (mkInfo 0 0 [] 0 0 0 0, false)).1.

(** ** Wrong keys, certificates, pools *)

Record pskFailRow := mkRow { rowRemote : string; rowCount : Z; rowWindow : Z }.
(** More failures first, then by address. *)
Definition rowLe (a b : pskFailRow) : Prop := rowCount b < rowCount a \/ rowCount a = rowCount b /\ String.le (rowRemote a) (rowRemote b).
#[export] Instance rowLe_dec : RelDecision rowLe.
Proof. intros a b. unfold rowLe. apply _. Defined.
#[export] Instance rowLe_trans : Transitive rowLe.
Proof. intros a b c [H1|[H1 H2]] [H3|[H3 H4]]; unfold rowLe; [left; lia|left; lia|left; lia|right]. split; [lia|]. by transitivity (rowRemote b). Qed.
#[export] Instance rowLe_total : Total rowLe.
Proof. intros a b. unfold rowLe. destruct (Z.lt_trichotomy (rowCount a) (rowCount b)) as [H|[H|H]]; [right; by left| |left; by left]. destruct (total String.le (rowRemote a) (rowRemote b)); [left|right]; by right. Qed.

Definition pskFailSnapshot (now : Z) (t : pskTable) : list pskFailRow :=
  merge_sort rowLe ((fun x : string * pskFailBucket => mkRow x.1 (pcount x.2) ((now - pfirst x.2) / 1000000000)) <$> map_to_list t).

(** The days to the end of a certificate, rounded down (up to the rounding of float64). *)
Definition daysLeft (now notAfter : Z) : Z := (notAfter - now) / (24 * 3600 * 1000000000).

Definition ipNetHostCount (ones bits : Z) : Z :=
  let hostBits := bits - ones in if 16 <=? hostBits then 65536 else let cnt := 2 ^ hostBits in if 2 <? cnt then cnt - 2 else cnt.

(** ** The MCP endpoint *)

(** The challenge of an answer, as its scheme and parameters. *)
Inductive challenge := NoChallenge | ChBasic | ChBearer | ChApiKey (header : string) | ChOAuth (metadata : string) (insufficient : bool) (scopes : list string).
Record mcpReply := mkReply { repStatus : Z; repChallenge : challenge; repInsufficient : bool }.

Definition mcpRequestOrigin (tls : bool) (host : string) : string := ((if tls then "https" else "http") +:+ "://" +:+ host)%string.
Definition mcpMetadataURL (tls : bool) (host : string) : string := (mcpRequestOrigin tls host +:+ "/.well-known/oauth-protected-resource")%string.

Definition writeMCPAuthError (tls : bool) (host : string) (cfg : MCPConfig) (e : mcpErr) : mcpReply :=
  match modeOf (normalizeMCPAuthMode (AuthMode cfg)) with
  | mcpAuthInheritWeb | mcpAuthBasic => mkReply 401 ChBasic false
  | mcpAuthBearer => mkReply 401 ChBearer false
  | mcpAuthAPIKey => mkReply 401 (ChApiKey (if bool_decide (APIKeyHeader cfg = ""%string) then "X-API-Key"%string else APIKeyHeader cfg)) false
  | mcpAuthOAuthJWT =>
    let scope := match e with MErrScope => true | MErrToken => false end in
    mkReply (if scope then 403 else 401) (ChOAuth (mcpMetadataURL tls host) scope (RequiredScopes (OAuth cfg))) scope
  | mcpAuthNone | mcpAuthOther => mkReply 401 NoChallenge false
  end.

Inductive metaReply := MetaNotFound | MetaBadMethod | MetaPreflight | MetaHead | MetaBody (resource : string) (servers scopes : list string).
Definition serveMCPMetadata (cfg : MCPConfig) (r : httpReq) : metaReply :=
  if negb (bool_decide (modeOf (normalizeMCPAuthMode (AuthMode cfg)) = mcpAuthOAuthJWT)) then MetaNotFound else
  if negb (bool_decide (rMethod r ∈ ["GET"; "HEAD"; "OPTIONS"]%string)) then MetaBadMethod else
  if bool_decide (rMethod r = "OPTIONS"%string) then MetaPreflight else
  let o := OAuth cfg in
  let servers := match AuthorizationServers o with [] => if bool_decide (Issuer o = ""%string) then [] else [Issuer o] | l => l end in
  if bool_decide (rMethod r = "HEAD"%string) then MetaHead else MetaBody (Resource o) servers (RequiredScopes o).

(** ** Shares *)

Definition isMin (x : Z) (l : list Z) : Prop := x ∈ l /\ Forall (fun y => x <= y) l.
Definition isMax (x : Z) (l : list Z) : Prop := x ∈ l /\ Forall (fun y => y <= x) l.
Definition shares (r n : Z) : list Z := splitLegacyBrutalRate r n <$> seqZ 0 n.

Lemma share_mono (r n i j : Z) : 0 <= r -> 0 <= i <= j -> j < n -> splitLegacyBrutalRate r n j <= splitLegacyBrutalRate r n i.
Proof.
  intros Hr Hi Hj. unfold splitLegacyBrutalRate. destruct (r =? 0); cbn [orb]; [lia|]. replace (n <=? 0) with false by lia. replace (j <? 0) with false by lia.
  replace (i <? 0) with false by lia. replace (n <=? j) with false by lia. replace (n <=? i) with false by lia. cbn [orb]. destruct (Z.ltb_spec j (r mod n)), (Z.ltb_spec i (r mod n)); lia.
Qed.
Lemma share_nonneg (r n i : Z) : 0 <= r -> 0 <= splitLegacyBrutalRate r n i.
Proof. intros Hr. unfold splitLegacyBrutalRate. destruct (_ || _) eqn:E; [lia|]. apply orb_false_iff in E as [E _]. apply orb_false_iff in E as [E _]. apply orb_false_iff in E as [_ E]. pose proof (Z.div_pos r n Hr ltac:(lia)). destruct (_ <? _); lia. Qed.
Lemma in_shares (r n x : Z) : x ∈ shares r n <-> exists i, x = splitLegacyBrutalRate r n i /\ 0 <= i < n.
Proof. unfold shares. rewrite list_elem_of_fmap. setoid_rewrite elem_of_seqZ. by split; intros (i & -> & Hi); exists i; (split; [done|lia]). Qed.

(** The last connection has the smallest share and the first the largest. *)
Lemma shares_bounds (r n : Z) : 0 <= r -> 0 < n -> isMin (splitLegacyBrutalRate r n (n - 1)) (shares r n) /\ isMax (splitLegacyBrutalRate r n 0) (shares r n).
Proof.
  intros Hr Hn. split; split; try (apply in_shares; eexists; split; [reflexivity|lia]); apply Forall_forall; intros x (i & -> & Hi)%in_shares; apply share_mono; lia.
Qed.

Lemma isMin_unique (x y : Z) (l : list Z) : isMin x l -> isMin y l -> x = y.
Proof. intros [H1 H2] [H3 H4]. pose proof (proj1 (Forall_forall _ _) H2 _ H3). pose proof (proj1 (Forall_forall _ _) H4 _ H1). cbn in *. lia. Qed.
Lemma isMax_unique (x y : Z) (l : list Z) : isMax x l -> isMax y l -> x = y.
Proof. intros [H1 H2] [H3 H4]. pose proof (proj1 (Forall_forall _ _) H2 _ H3). pose proof (proj1 (Forall_forall _ _) H4 _ H1). cbn in *. lia. Qed.

(** ** Errors *)

(** At most three reasons, all different, each of them one that was met. *)
Definition errsOk (seen errs : list string) : Prop := NoDup errs /\ (length errs <= 3)%nat /\ ""%string ∉ errs /\ errs ⊆ seen /\ ((length errs < 3)%nat -> forall e, e ∈ seen -> e <> ""%string -> e ∈ errs).
Definition errOf (br : option applyResult) : list string := match br with Some r => [aError r] | None => [] end.

Lemma errs_nil : errsOk [] [].
Proof. split_and!; [constructor|cbn; lia|set_solver..]. Qed.
Lemma errs_step (seen errs : list string) (br : option applyResult) : errsOk seen errs -> errsOk (seen ++ errOf br) (addErr errs br).
Proof.
  intros (H1 & H2 & H3 & H4 & H5). unfold errsOk. destruct br as [[ap er]|]; cbn [errOf addErr aError]; [|by rewrite app_nil_r].
  destruct (bool_decide_reflect (er = ""%string)) as [->|He]; cbn [orb]; [split_and!; [done..|set_solver|]; intros Hl e [?|?%list_elem_of_singleton]%elem_of_app; naive_solver|].
  destruct (bool_decide_reflect (er ∈ errs)) as [Hi|Hi]; cbn [orb]; [split_and!; [done..|set_solver|]; intros Hl e [?|?%list_elem_of_singleton]%elem_of_app; naive_solver|].
  destruct (3 <=? length errs)%nat eqn:El.
  - apply Nat.leb_le in El. split_and!; [done..|set_solver|lia].
  - apply Nat.leb_gt in El. rewrite length_app. cbn [length]. split_and!; [|lia|set_solver|set_solver|].
    + apply NoDup_app. split_and!; [done|set_solver|apply NoDup_singleton].
    + intros Hl e [?|?%list_elem_of_singleton]%elem_of_app Hne; apply elem_of_app; [left; apply H5; [lia|done..]|right; by apply list_elem_of_singleton].
Qed.

(** ** The client *)

Definition errorsOf (conns : gmap Z (option applyResult)) (ks : list Z) : list string := ks ≫= (fun i => match conns !! i with Some br => errOf br | None => [] end).
Definition appliedAt (conns : gmap Z (option applyResult)) (i : Z) : bool := match conns !! i with Some (Some r) => aApplied r | _ => false end.
Definition appliedOf (conns : gmap Z (option applyResult)) (ks : list Z) : list Z := filter (fun i => appliedAt conns i = true) ks.

Record sumInv (up count k : Z) (conns : gmap Z (option applyResult)) (st : connBrutalSummary) : Prop := {
  v_total : sTotal st = k;
  v_applied : sApplied st = lenZ (appliedOf conns (seqZ 0 k));
  v_errs : errsOk (errorsOf conns (seqZ 0 k)) (sErrs st);
  v_zero : k = 0 -> sMinUp st = 0 /\ sMaxUp st = 0;
  v_rates : 0 < k -> isMin (sMinUp st) (splitLegacyBrutalRate up count <$> seqZ 0 k) /\ isMax (sMaxUp st) (splitLegacyBrutalRate up count <$> seqZ 0 k)
}.

Lemma isMin_app (x y : Z) (l : list Z) : isMin x l -> isMin (if y <? x then y else x) (l ++ [y]).
Proof.
  intros [H1 H2]. destruct (Z.ltb_spec y x); split.
  - apply elem_of_app. right. by apply list_elem_of_singleton.
  - apply Forall_app. split; [eapply Forall_impl; [exact H2|cbn; lia]|apply Forall_singleton; lia].
  - apply elem_of_app. by left.
  - apply Forall_app. split; [done|apply Forall_singleton; lia].
Qed.
Lemma isMax_app (x y : Z) (l : list Z) : isMax x l -> isMax (if x <? y then y else x) (l ++ [y]).
Proof.
  intros [H1 H2]. destruct (Z.ltb_spec x y); split.
  - apply elem_of_app. right. by apply list_elem_of_singleton.
  - apply Forall_app. split; [eapply Forall_impl; [exact H2|cbn; lia]|apply Forall_singleton; lia].
  - apply elem_of_app. by left.
  - apply Forall_app. split; [done|apply Forall_singleton; lia].
Qed.
Lemma isMin_one (x : Z) : isMin x [x].
Proof. split; [by apply list_elem_of_singleton|apply Forall_singleton; lia]. Qed.
Lemma isMax_one (x : Z) : isMax x [x].
Proof. split; [by apply list_elem_of_singleton|apply Forall_singleton; lia]. Qed.

Lemma sum_step (up count k : Z) (conns : gmap Z (option applyResult)) (st : connBrutalSummary) : 0 <= up -> 0 <= k -> is_Some (conns !! k) ->
  sumInv up count k conns st -> sumInv up count (k + 1) conns (connStep up count conns st k).
Proof.
  intros Hu Hk [br Hbr] [V1 V2 V3 V4 V5]. assert (seqZ 0 (k + 1) = seqZ 0 k ++ [k]) as HS by (rewrite seqZ_app by lia; by rewrite Z.add_0_l).
  unfold connStep. rewrite Hbr. set (per := splitLegacyBrutalRate up count k). pose proof (share_nonneg up count k Hu) as Hp. fold per in Hp.
  split; cbn [sTotal sApplied sMinUp sMaxUp sErrs]; rewrite ?HS; [lia| | |lia|intros _].
  - unfold appliedOf. rewrite filter_app. unfold lenZ. rewrite length_app, Nat2Z.inj_add. fold (appliedOf conns (seqZ 0 k)). unfold lenZ in V2. rewrite <- V2.
    assert (appliedAt conns k = match br with Some r => aApplied r | None => false end) as HA by (unfold appliedAt; rewrite Hbr; by destruct br).
    destruct br as [[[] er]|]; cbn [addApplied aApplied] in *; [rewrite filter_cons_True by done|rewrite filter_cons_False by congruence|rewrite filter_cons_False by congruence]; cbn; lia.
  - unfold errorsOf. rewrite bind_app. cbn [mbind list_bind]. rewrite Hbr, app_nil_r. by apply errs_step.
  - rewrite fmap_app. cbn [fmap list_fmap]. fold per. destruct (Z.eqb_spec k 0) as [->|Hk0].
    + destruct (V4 eq_refl) as [-> ->]. cbn [seqZ fmap list_fmap app orb]. rewrite andb_true_r. destruct (Z.ltb_spec 0 up); cbn [andb].
      * destruct (Z.ltb_spec 0 per); [by split; [apply isMin_one|apply isMax_one]|]. replace per with 0 by lia. split; [apply isMin_one|apply isMax_one].
      * assert (per = 0) as ->. { subst per. unfold splitLegacyBrutalRate. by replace (up =? 0) with true by lia. } split; [apply isMin_one|apply isMax_one].
    + cbn [orb]. destruct (V5 ltac:(lia)) as [HM HX]. destruct (Z.ltb_spec 0 up); cbn [andb]; [split; [by apply isMin_app|by apply isMax_app]|].
      assert (up = 0) as -> by lia. assert (per = 0) as -> by done. pose proof (isMin_app _ 0 _ HM) as HM'. pose proof (isMax_app _ 0 _ HX) as HX'.
      assert (forall x, x ∈ splitLegacyBrutalRate 0 count <$> seqZ 0 k -> x = 0) as HZ by (intros x (i & -> & _)%list_elem_of_fmap; done).
      rewrite (HZ _ (proj1 HM)) in *. rewrite (HZ _ (proj1 HX)) in *. done.
Qed.

(** The client's summary says what its connections do.  With every connection
    registered, the counts are right, the smallest and the largest rate are those of the
    last and of the first connection, which are the bounds of all, and the reasons
    reported are up to three different ones, all of them unless there are three. *)
Theorem client_summary_exact (up count : Z) (conns : gmap Z (option applyResult)) : 0 <= up -> 0 < count -> (forall i, 0 <= i < count -> is_Some (conns !! i)) ->
  let st := connsSummary up count conns in let b := brutalSummary None true up 0 count in
  sTotal st = count /\ sApplied st = lenZ (appliedOf conns (seqZ 0 count)) /\ errsOk (errorsOf conns (seqZ 0 count)) (sErrs st) /\
  isMin (sMinUp st) (shares up count) /\ isMax (sMaxUp st) (shares up count) /\ (0 < up -> sMinUp st = bMinUp b /\ sMaxUp st = bMaxUp b).
Proof.
  intros Hu Hc HA st b. assert (sumInv up count count conns st) as [V1 V2 V3 _ V5].
  { subst st. unfold connsSummary. assert (forall n : nat, Z.of_nat n <= count -> sumInv up count (Z.of_nat n) conns (fold_left (connStep up count conns) (seqZ 0 (Z.of_nat n)) (mkCSum 0 0 0 0 []))) as HI.
    { induction n as [|n IH]; intros Hn; [split; try done; apply errs_nil|].
      replace (Z.of_nat (S n)) with (Z.of_nat n + 1) by lia. rewrite seqZ_app, Z.add_0_l by lia. assert (seqZ (Z.of_nat n) 1 = [Z.of_nat n]) as -> by done. rewrite fold_left_app. cbn [fold_left].
      apply sum_step; [lia|lia|apply HA; lia|apply IH; lia]. }
    specialize (HI (Z.to_nat count) ltac:(lia)). by rewrite Z2Nat.id in HI by lia. }
  destruct (V5 Hc) as [HM HX]. destruct (shares_bounds up count Hu Hc) as [SM SX]. split_and!; [done..|]. intros Hup. subst b. unfold brutalSummary. cbn [bMinUp bMaxUp].
  replace (0 <? up) with true by lia. replace (0 <? count) with true by lia. cbn [andb]. split; [by eapply isMin_unique|by eapply isMax_unique].
Qed.

(** ** The server *)

(** The connections of a session have the rates of the handshakes of that session. *)
Definition sessionShares (f : srvConn -> Z) (cs : list srvConn) : list Z := shares (lastRate f cs) (lenZ cs).
Definition srvErrors (ss : list (list srvConn)) : list string := ss ≫= (fun cs => cs ≫= (fun c => errOf (cBr c))).

Lemma lastRate_nonneg (f : srvConn -> Z) (cs : list srvConn) : Forall (fun c => 0 <= f c) cs -> 0 <= lastRate f cs.
Proof.
  unfold lastRate. assert (forall a, 0 <= a -> Forall (fun c => 0 <= f c) cs -> 0 <= fold_left (fun _ c => f c) cs a) as HA; [|apply HA; lia].
  induction cs as [|c cs IH]; intros a Ha HF; [done|]. apply Forall_cons_1 in HF as [Hc HF]. by apply IH.
Qed.
Lemma errs_fold (cs : list srvConn) (seen errs : list string) : errsOk seen errs -> errsOk (seen ++ (cs ≫= (fun c => errOf (cBr c)))) (fold_left (fun a c => addErr a (cBr c)) cs errs).
Proof.
  revert seen errs. induction cs as [|c cs IH]; intros seen errs HE; [by rewrite app_nil_r|]. cbn [fold_left mbind list_bind]. rewrite app_assoc. by apply IH, errs_step.
Qed.

Lemma isMin_cat (x y : Z) (l m : list Z) : isMin x l -> isMin y m -> isMin (if x <? y then x else y) (m ++ l).
Proof. intros [H1 H2] [H3 H4]. destruct (Z.ltb_spec x y); (split; [apply elem_of_app; auto|]); apply Forall_app; split; first [done|eapply Forall_impl; [eassumption|cbn; lia]]. Qed.
Lemma isMax_cat (x y : Z) (l m : list Z) : isMax x l -> isMax y m -> isMax (if y <? x then x else y) (m ++ l).
Proof. intros [H1 H2] [H3 H4]. destruct (Z.ltb_spec y x); (split; [apply elem_of_app; auto|]); apply Forall_app; split; first [done|eapply Forall_impl; [eassumption|cbn; lia]]. Qed.

(** The bounds so far, of one direction. *)
Definition ratesOk (have : bool) (mn mx : Z) (all : list Z) : Prop := if have then isMin mn all /\ isMax mx all else mn = 0 /\ mx = 0 /\ all = [].

Lemma rates_step (have : bool) (mn mx r n : Z) (all : list Z) : 0 <= r -> 0 < n -> ratesOk have mn mx all ->
  ratesOk true (lower have (splitLegacyBrutalRate r n (n - 1)) mn) (higher (splitLegacyBrutalRate r n 0) mx) (all ++ shares r n).
Proof.
  intros Hr Hn HO. destruct (shares_bounds r n Hr Hn) as [HM HX]. unfold ratesOk, lower, higher in *. destruct have; cbn [negb orb].
  - destruct HO as [H1 H2]. split; [by apply isMin_cat|by apply isMax_cat].
  - destruct HO as (-> & -> & ->). cbn [app]. split; [done|]. pose proof (share_nonneg r n 0 Hr). destruct (Z.ltb_spec 0 (splitLegacyBrutalRate r n 0)); [done|]. by replace 0 with (splitLegacyBrutalRate r n 0) by lia.
Qed.

Definition rated (cs : list srvConn) : Prop := Forall (fun c => 0 <= cRx c /\ 0 <= cTx c) cs.

(** The server's summary over all sessions: the bounds of the shares of all connections in
    each direction, and the reasons. *)
Theorem server_summary_exact (ss : list (list srvConn)) : Forall rated ss ->
  let b := serverConnsBrutal ss in
  bTotal b = lenZ (mjoin ss) /\ errsOk (srvErrors ss) (bErrors b) /\
  (mjoin ss <> [] -> isMin (bMinUp b) (ss ≫= sessionShares cRx) /\ isMax (bMaxUp b) (ss ≫= sessionShares cRx) /\
                     isMin (bMinDown b) (ss ≫= sessionShares cTx) /\ isMax (bMaxDown b) (ss ≫= sessionShares cTx)).
Proof.
  intros HR b. subst b. unfold serverConnsBrutal.
  assert (let '(out, have) := fold_left sessionStep ss (mkInfo 0 0 [] 0 0 0 0, false) in
    bTotal out = lenZ (mjoin ss) /\ errsOk (srvErrors ss) (bErrors out) /\ (have = false -> mjoin ss = []) /\
    ratesOk have (bMinUp out) (bMaxUp out) (ss ≫= sessionShares cRx) /\ ratesOk have (bMinDown out) (bMaxDown out) (ss ≫= sessionShares cTx)) as HI.
  { induction ss as [|cs ss IH] using rev_ind; [split_and!; try done; apply errs_nil|]. apply Forall_app in HR as [HR Hc]. apply Forall_cons_1 in Hc as [Hc _]. rewrite fold_left_app. cbn [fold_left].
    specialize (IH HR). destruct (fold_left sessionStep ss _) as [out have]. destruct IH as (I1 & I2 & I3 & I4 & I5). unfold sessionStep.
    assert (mjoin (ss ++ [cs]) = mjoin ss ++ cs) as HJ by (rewrite join_app; cbn; by rewrite app_nil_r).
    assert (forall f, (ss ++ [cs]) ≫= sessionShares f = (ss ≫= sessionShares f) ++ sessionShares f cs) as HB by (intros f; rewrite bind_app; cbn; by rewrite app_nil_r).
    assert (srvErrors (ss ++ [cs]) = srvErrors ss ++ (cs ≫= (fun c => errOf (cBr c)))) as HE by (unfold srvErrors; rewrite bind_app; cbn [mbind list_bind]; by rewrite app_nil_r).
    pose proof (errs_fold cs _ _ I2) as HF. rewrite HJ, !HB, HE. destruct (Z.ltb_spec 0 (lenZ cs)) as [Hn|Hn]; cbn [bTotal bErrors bMinUp bMaxUp bMinDown bMaxDown].
    - split_and!; [unfold lenZ in *; rewrite length_app; lia|done|done|..]; (apply rates_step; [apply lastRate_nonneg; eapply Forall_impl; [exact Hc|cbn; tauto]|done|done]).
    - assert (cs = []) as -> by (destruct cs; [done|unfold lenZ in Hn; cbn in Hn; lia]). assert (forall f, sessionShares f [] = []) as HS by done. rewrite !HS, !app_nil_r. cbn [mbind list_bind fold_left] in HF. rewrite app_nil_r in HF.
      split_and!; [change (lenZ []) with 0; lia|done..]. }
  destruct (fold_left sessionStep ss _) as [out have]. cbn [fst]. destruct HI as (I1 & I2 & I3 & I4 & I5). split_and!; [done..|]. intros Hne. destruct have; [|by specialize (I3 eq_refl)]. unfold ratesOk in *. tauto.
Qed.

(** ** Tables *)

(** The table of wrong keys is complete, each address once, in a fixed order. *)
Lemma pskFail_table (now : Z) (t : pskTable) :
  StronglySorted rowLe (pskFailSnapshot now t) /\ NoDup (rowRemote <$> pskFailSnapshot now t) /\
  forall a n, (exists b, t !! a = Some b /\ pcount b = n) <-> exists w, mkRow a n w ∈ pskFailSnapshot now t.
Proof.
  unfold pskFailSnapshot. set (rows := _ <$> _). pose proof (merge_sort_Permutation rowLe rows) as HP. split_and!.
  - apply StronglySorted_merge_sort; apply _.
  - rewrite HP. subst rows. rewrite <- list_fmap_compose. apply (NoDup_fst_map_to_list t).
  - intros a n. setoid_rewrite HP. subst rows. setoid_rewrite list_elem_of_fmap. split.
    + intros (b & Hb & <-). exists ((now - pfirst b) / 1000000000), (a, b). split; [done|by apply elem_of_map_to_list].
    + intros (w & [a' b] & [= -> -> _] & Hin). exists b. by apply elem_of_map_to_list in Hin.
Qed.

(** A certificate that has run out, by however little, has no days left. *)
Lemma expired_is_negative (now notAfter : Z) : daysLeft now notAfter < 0 <-> notAfter < now.
Proof. unfold daysLeft. split; intros Hd; [|apply Z.div_lt_upper_bound; lia]. destruct (Z.lt_ge_cases notAfter now); [done|]. pose proof (Z.div_pos (notAfter - now) (24 * 3600 * 1000000000)). lia. Qed.

(** ** The MCP endpoint *)

(** 403 is for a token that is good but too weak; everything else is 401, with a challenge
    that fits the configured mode. *)
Lemma mcp_refusals (tls : bool) (host : string) (cfg : MCPConfig) (e : mcpErr) :
  let a := writeMCPAuthError tls host cfg e in let mode := modeOf (normalizeMCPAuthMode (AuthMode cfg)) in
  (repStatus a = 401 \/ repStatus a = 403) /\ (repStatus a = 403 <-> mode = mcpAuthOAuthJWT /\ e = MErrScope) /\ (repInsufficient a = true <-> repStatus a = 403) /\
  (mode <> mcpAuthNone -> mode <> mcpAuthOther -> repChallenge a <> NoChallenge).
Proof. cbv zeta. unfold writeMCPAuthError. destruct (modeOf _), e; cbn; split_and!; intuition congruence. Qed.

(** The metadata depend on the public part of the configuration only: two configurations
    that differ in the credentials are answered alike. *)
Lemma metadata_public (c1 c2 : MCPConfig) (r : httpReq) : AuthMode c1 = AuthMode c2 -> OAuth c1 = OAuth c2 -> serveMCPMetadata c1 r = serveMCPMetadata c2 r.
Proof. intros E1 E2. unfold serveMCPMetadata. by rewrite E1, E2. Qed.

(** A client that was refused can find out where to log in: the body names a server
    whenever one is configured, with the scopes of the challenge. *)
Lemma metadata_names_server (tls : bool) (host : string) (cfg : MCPConfig) (e : mcpErr) (r : httpReq) :
  modeOf (normalizeMCPAuthMode (AuthMode cfg)) = mcpAuthOAuthJWT -> Issuer (OAuth cfg) <> ""%string -> rMethod r = "GET"%string ->
  exists servers weak, servers <> [] /\ serveMCPMetadata cfg r = MetaBody (Resource (OAuth cfg)) servers (RequiredScopes (OAuth cfg)) /\
    repChallenge (writeMCPAuthError tls host cfg e) = ChOAuth (mcpMetadataURL tls host) weak (RequiredScopes (OAuth cfg)).
Proof.
  intros HM HI HG. unfold serveMCPMetadata, writeMCPAuthError. rewrite HM, HG, bool_decide_true by done. cbn [negb]. rewrite (bool_decide_true (_ ∈ _)) by set_solver. cbn [negb].
  rewrite !(bool_decide_false (_ = _)) by done. destruct (AuthorizationServers (OAuth cfg)) as [|s l]; [by eexists [_], _|by eexists (s :: l), _].
Qed.
