(* ===== verification/Peer.v ===== *)
(** * Diagnostic information about the peer (peer_info.go)

    The fields that the two ends tell each other in the handshake, cut to size at the
    trust boundary.  A Go string is its bytes, which need not be UTF-8 when the peer made
    them.  Host name, build information and the files of the system are inputs. *)

From stdpp Require Import base tactics list numbers strings.
From S2P Require Import Prelude Aead.
#[local] Open Scope Z_scope.

(** ** UTF-8 *)

Definition inR (lo hi x : Z) : bool := (lo <=? x) && (x <=? hi).
Definition cont (x : Z) : bool := inR 128 191 x.
(** The well-formed sequences of RFC 3629. *)
Definition isRune (l : bytes) : bool :=
  match l with
  | [a] => inR 0 127 a
  | [a; b] => inR 194 223 a && cont b
  | [a; b; c] => ((a =? 224) && inR 160 191 b || inR 225 236 a && cont b || (a =? 237) && inR 128 159 b || inR 238 239 a && cont b) && cont c
  | [a; b; c; d] => ((a =? 240) && inR 144 191 b || inR 241 243 a && cont b || (a =? 244) && inR 128 143 b) && cont c && cont d
  | _ => false
  end.
(** unicode/utf8.RuneStart. *)
Definition RuneStart (x : Z) : bool := negb (Z.land x 192 =? 128).
Definition utf8 (v : bytes) : Prop := exists rs, v = mjoin rs /\ Forall (fun r => isRune r = true) rs.

(** ** strings.TrimSpace *)

(** unicode.IsSpace, encoded. *)
Definition spaces : list bytes :=
  ((fun x => [x]) <$> [9; 10; 11; 12; 13; 32]) ++ [[194; 133]; [194; 160]; [225; 154; 128]] ++ ((fun x => [226; 128; x]) <$> [128; 129; 130; 131; 132; 133; 134; 135; 136; 137; 138; 168; 169; 175]) ++
  [[226; 129; 159]; [227; 128; 128]].
Definition startsWith (p v : bytes) : bool := bool_decide (take (length p) v = p).
Definition endsWith (p v : bytes) : bool := bool_decide (drop (length v - length p) v = p).

(** One rune after the other; [fuel] is the length. *)
Fixpoint trimLeft (fuel : nat) (v : bytes) : bytes :=
  match fuel with
  | O => v
  | S fuel => match list_find (fun s => startsWith s v = true) spaces with Some (_, s) => trimLeft fuel (drop (length s) v) | None => v end
  end.
Fixpoint trimRight (fuel : nat) (v : bytes) : bytes :=
  match fuel with
  | O => v
  | S fuel => match list_find (fun s => endsWith s v = true) spaces with Some (_, s) => trimRight fuel (take (length v - length s) v) | None => v end
  end.
Definition TrimSpace (v : bytes) : bytes := let v := trimLeft (length v) v in trimRight (length v) v.

(** ** The fields *)

Definition peerInfoFieldMax : nat := 256.

Fixpoint runeBoundary (v : bytes) (stop : nat) : nat := match stop with O => O | S n => if RuneStart (byte_at stop v) then stop else runeBoundary v n end.
Definition trimPeerField (v : bytes) : bytes :=
  let v := TrimSpace v in if (peerInfoFieldMax <? length v)%nat then take (runeBoundary v peerInfoFieldMax) v else v.

Record PeerInfo := mkPeer {
  Implementation : bytes; Hostname : bytes; OS : bytes; OSVersion : bytes; Kernel : bytes; Arch : bytes; Version : bytes; GitCommit : bytes; BuildTime : bytes
}.
#[export] Instance PeerInfo_eq : EqDecision PeerInfo.
Proof. solve_decision. Defined.
Definition emptyPeer : PeerInfo := mkPeer [] [] [] [] [] [] [] [] [].
Definition fields (p : PeerInfo) : list bytes := [Implementation p; Hostname p; OS p; OSVersion p; Kernel p; Arch p; Version p; GitCommit p; BuildTime p].

Definition normalizePeerInfo (i : option PeerInfo) : PeerInfo :=
  match i with
  | None => emptyPeer
  | Some p => mkPeer (trimPeerField (Implementation p)) (trimPeerField (Hostname p)) (trimPeerField (OS p)) (trimPeerField (OSVersion p)) (trimPeerField (Kernel p))
                (trimPeerField (Arch p)) (trimPeerField (Version p)) (trimPeerField (GitCommit p)) (trimPeerField (BuildTime p))
  end.
Definition peerInfoEmpty (p : PeerInfo) : bool := bool_decide (p = emptyPeer).
Definition remotePeerInfoSnapshot (p : PeerInfo) : option PeerInfo := if peerInfoEmpty p then None else Some p.

(** *** Our own *)

Definition readTrimmedFile (f : option bytes) : bytes := match f with Some b => TrimSpace b | None => [] end.

(** strings.Trim with a quote. *)
Fixpoint dropQuotes (v : bytes) : bytes := match v with x :: r => if x =? 34 then dropQuotes r else v | [] => [] end.
Definition trimQuotes (v : bytes) : bytes := reverse (dropQuotes (reverse (dropQuotes v))).
Definition prettyPrefix : bytes := str_bytes "PRETTY_NAME=".
(** The file as the lines of its scanner, which stops at a line it cannot hold. *)
Fixpoint readOSReleasePrettyName (lines : list bytes) : bytes :=
  match lines with
  | [] => []
  | l :: r => let l := TrimSpace l in if startsWith prettyPrefix l then TrimSpace (trimQuotes (drop (length prettyPrefix) l)) else readOSReleasePrettyName r
  end.

(** What the process finds out about itself; [hBuild]: the version and the settings. *)
Record hostEnv := mkHost {
  hName : bytes; hOS : bytes; hArch : bytes; hRelease : list bytes; hKernel : option bytes; hVersion : bytes; hBuild : option (bytes * list (bytes * bytes))
}.
Definition lastSetting (k : bytes) (l : list (bytes * bytes)) : bytes := fold_left (fun a kv => if bool_decide (kv.1 = k) then kv.2 else a) l [].
Definition collectPeerInfo (h : hostEnv) : PeerInfo :=
  let linux := bool_decide (hOS h = str_bytes "linux") || bool_decide (hOS h = str_bytes "android") in
  let version := match hBuild h with
    | Some (v, _) => if bool_decide (hVersion h = []) && negb (bool_decide (v = [])) && negb (bool_decide (v = str_bytes "(devel)")) then v else hVersion h
    | None => hVersion h
    end in
  let setting k := match hBuild h with Some (_, l) => lastSetting k l | None => [] end in
  normalizePeerInfo (Some (mkPeer (str_bytes "go") (hName h) (hOS h) (if linux then readOSReleasePrettyName (hRelease h) else []) (if linux then readTrimmedFile (hKernel h) else [])
    (hArch h) version (setting (str_bytes "vcs.revision")) (setting (str_bytes "vcs.time")))).

(** ** Runes *)

Definition runeLen (a : Z) : nat := if a <? 128 then 1 else if a <? 224 then 2 else if a <? 240 then 3 else 4.

Lemma isRune_cases (r : bytes) : isRune r = true -> exists a t, r = a :: t /\ length r = runeLen a /\ (0 <= a < 128 \/ 194 <= a < 245) /\ Forall (fun x => 128 <= x < 192) t.
Proof.
  destruct r as [|a [|b [|c [|d [|e r]]]]]; try done; cbn [isRune]; intros HR; unfold cont, inR in HR;
    repeat rewrite ?andb_true_iff, ?orb_true_iff, ?Z.leb_le, ?Z.eqb_eq in HR; eexists a, _; (split; [reflexivity|]); unfold runeLen; cbn [length].
  - replace (a <? 128) with true by lia. split_and!; [done|lia|by apply Forall_nil].
  - replace (a <? 128) with false by lia. replace (a <? 224) with true by lia. split_and!; [done|lia|rewrite !Forall_cons, Forall_nil; lia].
  - replace (a <? 128) with false by lia. replace (a <? 224) with false by lia. replace (a <? 240) with true by lia. split_and!; [done|lia|rewrite !Forall_cons, Forall_nil; lia].
  - replace (a <? 128) with false by lia. replace (a <? 224) with false by lia. replace (a <? 240) with false by lia. split_and!; [done|lia|rewrite !Forall_cons, Forall_nil; lia].
Qed.

Lemma start_byte (x : Z) : is_u8 x -> RuneStart x = negb (cont x).
Proof.
  intros Hx. assert (forallb (fun x => Bool.eqb (RuneStart x) (negb (cont x))) (seqZ 0 256) = true) as HA by by vm_compute.
  apply Bool.eqb_prop. apply (proj1 (List.forallb_forall _ _) HA), list_elem_of_In, elem_of_seqZ. widths. lia.
Qed.

Abbreviation runes rs := (Forall (fun r => isRune r = true) rs).

Lemma mjoin_cons (r : bytes) (rs : list bytes) : mjoin (r :: rs) = r ++ mjoin rs.
Proof. done. Qed.
Lemma locate (rs : list bytes) (n : nat) : (n < length (mjoin rs))%nat -> exists p r q, rs = p ++ r :: q /\ (length (mjoin p) <= n < length (mjoin p) + length r)%nat.
Proof.
  revert n. induction rs as [|r rs IH]; intros n Hn; [cbn in Hn; lia|]. rewrite mjoin_cons, length_app in Hn. destruct (decide (n < length r)%nat) as [Hl|Hl].
  - exists [], r, rs. split; [done|]. cbn. lia.
  - destruct (IH (n - length r)%nat ltac:(lia)) as (p & r' & q & -> & Hp). exists (r :: p), r', q. split; [done|]. rewrite mjoin_cons, length_app. lia.
Qed.

Lemma boundary_in (v1 v2 : bytes) (r : bytes) (j : nat) : isRune r = true -> (j < length r)%nat -> runeBoundary (v1 ++ r ++ v2) (length v1 + j) = length v1.
Proof.
  intros (a & t & -> & Hl & Ha & HF)%isRune_cases. induction j as [|j IH]; intros Hj.
  - rewrite Nat.add_0_r. destruct v1 as [|x v1]; [done|]. cbn [length runeBoundary]. unfold byte_at. rewrite app_nth2, Nat.sub_diag by (cbn; lia). cbn [app nth].
    rewrite start_byte by (widths; lia). unfold cont, inR. replace ((128 <=? a) && (a <=? 191)) with false by lia. done.
  - replace (length v1 + S j)%nat with (S (length v1 + j)) by lia. cbn [runeBoundary].
    assert (RuneStart (byte_at (S (length v1 + j)) (v1 ++ (a :: t) ++ v2)) = false) as ->; [|apply IH; lia].
    unfold byte_at. rewrite app_nth2 by lia. replace (S (length v1 + j) - length v1)%nat with (S j) by lia. cbn [length] in Hj. cbn [app nth]. rewrite app_nth1 by lia.
    assert (128 <= nth j t 0 < 192) as Hx. { apply (proj1 (Forall_forall _ _) HF), list_elem_of_In, nth_In. lia. }
    rewrite start_byte by (widths; lia). unfold cont, inR. by replace ((128 <=? nth j t 0) && (nth j t 0 <=? 191)) with true by lia.
Qed.

(** Cutting goes back to the beginning of a character, at most three bytes. *)
Lemma boundary_spec (rs : list bytes) (n : nat) : runes rs -> (n < length (mjoin rs))%nat ->
  exists p q, rs = p ++ q /\ runeBoundary (mjoin rs) n = length (mjoin p) /\ (length (mjoin p) <= n < length (mjoin p) + 4)%nat.
Proof.
  intros HF Hn. destruct (locate rs n Hn) as (p & r & q & -> & Hp). apply Forall_app in HF as [_ HF]. apply Forall_cons_1 in HF as [Hr _]. exists p, (r :: q). split; [done|].
  rewrite join_app, mjoin_cons. replace n with (length (mjoin p) + (n - length (mjoin p)))%nat by lia. rewrite boundary_in by (done || lia). split; [done|].
  destruct (isRune_cases r Hr) as (a & t & _ & Hl & _). unfold runeLen in Hl. repeat destruct (_ <? _); lia.
Qed.

(** ** Trimming *)

Lemma spaces_runes (s : bytes) : s ∈ spaces -> isRune s = true.
Proof. intros Hs. assert (forallb isRune spaces = true) as HA by by vm_compute. by apply (proj1 (List.forallb_forall _ _) HA), list_elem_of_In. Qed.
Lemma spaces_nonempty (s : bytes) : s ∈ spaces -> (0 < length s)%nat.
Proof. intros (a & t & -> & _)%spaces_runes%isRune_cases. cbn. lia. Qed.

(** The same character begins, or ends, a string in one way only. *)
Lemma rune_prefix (r s : bytes) (x y : bytes) : isRune r = true -> isRune s = true -> r ++ x = s ++ y -> r = s.
Proof.
  intros (a & t & -> & Hl & _)%isRune_cases (b & u & -> & Hm & _)%isRune_cases E. cbn in E. injection E as -> E. cbn [length] in *. f_equal. apply (f_equal (take (length t))) in E.
  rewrite take_app_length in E. replace (length t) with (length u) in E by lia. by rewrite take_app_length in E.
Qed.
Lemma rune_suffix (r s : bytes) (x y : bytes) : isRune r = true -> isRune s = true -> x ++ r = y ++ s -> r = s.
Proof.
  enough (forall r s x y, isRune r = true -> isRune s = true -> (length r <= length s)%nat -> x ++ r = y ++ s -> r = s) as HA.
  { intros Hr Hs E. destruct (Nat.le_ge_cases (length r) (length s)); [eauto|symmetry; eauto]. }
  clear. intros r s x y Hr Hs Hl E. destruct (isRune_cases r Hr) as (a & t & -> & _ & Ha & _). destruct (isRune_cases s Hs) as (b & u & -> & _ & _ & HF).
  assert (exists z, b :: u = z ++ a :: t) as (z & Ez).
  { exists (take (length (b :: u) - length (a :: t)) (b :: u)). rewrite <- (take_drop (length (b :: u) - length (a :: t)) (b :: u)) at 1. f_equal.
    apply (f_equal (fun l => drop (length l - length (a :: t)) l)) in E. rewrite !length_app, Nat.add_sub, drop_app_length in E. rewrite drop_app_ge in E by lia.
    replace (length y + length (b :: u) - length (a :: t) - length y)%nat with (length (b :: u) - length (a :: t))%nat in E by lia. done. }
  destruct z as [|c z]; [done|]. cbn in Ez. injection Ez as -> ->. apply Forall_app in HF as [_ HF]. apply Forall_cons_1 in HF as [HF _]. lia.
Qed.

Lemma trimLeft_utf8 (fuel : nat) (rs : list bytes) : runes rs -> exists rs', trimLeft fuel (mjoin rs) = mjoin rs' /\ runes rs' /\ rs' `suffix_of` rs.
Proof.
  revert rs. induction fuel as [|fuel IH]; intros rs HF; [by exists rs|]. cbn [trimLeft]. destruct (list_find _ spaces) as [[i s]|] eqn:EF; [|by exists rs].
  apply list_find_Some in EF as (Hs & Hw & _). apply list_elem_of_lookup_2 in Hs. unfold startsWith in Hw. apply bool_decide_eq_true in Hw.
  pose proof (spaces_nonempty s Hs) as Hn. destruct rs as [|r rs]; [cbn in Hw; rewrite take_nil in Hw; subst; cbn in Hn; lia|]. apply Forall_cons_1 in HF as [Hr HF].
  assert (r = s) as <-. { eapply (rune_prefix r s (mjoin rs) (drop (length s) (mjoin (r :: rs)))); [done|by apply spaces_runes|]. rewrite <- Hw at 1. by rewrite take_drop. }
  rewrite mjoin_cons, drop_app_length. destruct (IH rs HF) as (rs' & E & H1 & H2). exists rs'. split_and!; [done..|]. by apply suffix_cons_r.
Qed.
Lemma trimRight_utf8 (fuel : nat) (rs : list bytes) : runes rs -> exists rs', trimRight fuel (mjoin rs) = mjoin rs' /\ runes rs' /\ rs' `prefix_of` rs.
Proof.
  revert rs. induction fuel as [|fuel IH]; intros rs HF; [by exists rs|]. cbn [trimRight]. destruct (list_find _ spaces) as [[i s]|] eqn:EF; [|by exists rs].
  apply list_find_Some in EF as (Hs & Hw & _). apply list_elem_of_lookup_2 in Hs. unfold endsWith in Hw. apply bool_decide_eq_true in Hw.
  pose proof (spaces_nonempty s Hs) as Hn. destruct rs as [|r rs _] using rev_ind; [cbn in Hw; rewrite drop_nil in Hw; subst; cbn in Hn; lia|]. apply Forall_app in HF as [HF Hr]. apply Forall_cons_1 in Hr as [Hr _].
  assert (mjoin (rs ++ [r]) = mjoin rs ++ r) as HJ by (rewrite join_app; cbn; by rewrite app_nil_r). rewrite HJ in *.
  assert (r = s) as <-. { eapply (rune_suffix r s (mjoin rs) (take (length (mjoin rs ++ r) - length s) (mjoin rs ++ r))); [done|by apply spaces_runes|]. rewrite <- Hw at 2. by rewrite take_drop. }
  rewrite length_app, Nat.add_sub, take_app_length. destruct (IH rs HF) as (rs' & E & H1 & H2). exists rs'. split_and!; [done..|]. by apply prefix_app_r.
Qed.

(** ** The trust boundary *)

Lemma boundary_le (v : bytes) (n : nat) : (runeBoundary v n <= n)%nat.
Proof. induction n as [|n IH]; [done|]. cbn [runeBoundary]. destruct (RuneStart _); lia. Qed.
Lemma TrimSpace_utf8 (rs : list bytes) : runes rs -> exists rs', TrimSpace (mjoin rs) = mjoin rs' /\ runes rs' /\ rs' `sublist_of` rs.
Proof.
  intros HF. unfold TrimSpace. destruct (trimLeft_utf8 (length (mjoin rs)) rs HF) as (l & -> & Hl & Hs). destruct (trimRight_utf8 (length (mjoin l)) l Hl) as (r & -> & Hr & Hp).
  exists r. split_and!; [done..|]. destruct Hs as [k1 ->], Hp as [k2 ->]. apply sublist_inserts_l, sublist_inserts_r. done.
Qed.

Lemma field_bounded (v : bytes) : (length (trimPeerField v) <= peerInfoFieldMax)%nat.
Proof. unfold trimPeerField. destruct (Nat.ltb_spec peerInfoFieldMax (length (TrimSpace v))); [|done]. rewrite length_take. pose proof (boundary_le (TrimSpace v) peerInfoFieldMax). lia. Qed.

(** Whatever a peer says about itself, no field that is kept is over 256 bytes. *)
Theorem peer_info_bounded (i : option PeerInfo) : Forall (fun f => (length f <= peerInfoFieldMax)%nat) (fields (normalizePeerInfo i)).
Proof. destruct i as [p|]; cbn [fields normalizePeerInfo Implementation Hostname OS OSVersion Kernel Arch Version GitCommit BuildTime emptyPeer]; repeat (apply Forall_cons; split); try apply field_bounded; try apply Forall_nil; cbn; done || lia. Qed.

(** A field that was UTF-8 stays UTF-8: no character is cut in two, and a field that is too
    long loses no more than it must. *)
Theorem peer_field_utf8 (v : bytes) : utf8 v ->
  utf8 (trimPeerField v) /\ (length (TrimSpace v) <= peerInfoFieldMax -> trimPeerField v = TrimSpace v)%nat /\ (peerInfoFieldMax < length (TrimSpace v) -> peerInfoFieldMax < length (trimPeerField v) + 4)%nat.
Proof.
  intros (rs & -> & HF). destruct (TrimSpace_utf8 rs HF) as (rs' & E & HR & _). unfold trimPeerField. rewrite E. destruct (Nat.ltb_spec peerInfoFieldMax (length (mjoin rs'))) as [Hl|Hl].
  - destruct (boundary_spec rs' peerInfoFieldMax HR Hl) as (p & q & -> & -> & Hb). rewrite join_app, take_app_length. apply Forall_app in HR as [Hp _]. split_and!; [by exists p| |].
    + rewrite join_app in Hl. lia.
    + intros _. lia.
  - split_and!; [by exists rs'|done|lia].
Qed.

(** What a client shows of its server is something the server said. *)
Lemma snapshot_said (p q : PeerInfo) : remotePeerInfoSnapshot p = Some q <-> p = q /\ q <> emptyPeer.
Proof. unfold remotePeerInfoSnapshot, peerInfoEmpty. case_bool_decide; naive_solver. Qed.

Example cut_inside_character : trimPeerField (replicate 255 97 ++ [226; 130; 172]) = replicate 255 97.
Proof. by vm_compute. Qed.
Example not_utf8_vanishes : trimPeerField (replicate 300 128) = [].
Proof. by vm_compute. Qed.
Example pretty_name : readOSReleasePrettyName [str_bytes "ID=x"; str_bytes " PRETTY_NAME='Debian' "] = str_bytes "'Debian'".
Proof. by vm_compute. Qed.
