(* ===== verification/TcpObs.v ===== *)
(** * Observed TCP sockets (tcp_observation.go, tcp_observation_linux.go)

    What the dashboard shows of a socket: options and TCP_INFO as the kernel returned
    them, or the reason why a field is missing, and the retransmissions between two
    samples.  The results of the system calls are [sockEnv]; the offsets in TCPInfo, which
    golang.org/x/sys declares, are a parameter. *)

From stdpp Require Import base tactics list numbers gmap strings.
From S2P Require Import Prelude Brutal.
#[local] Open Scope Z_scope.

Inductive tcpVal := VBool (b : bool) | VNum (z : Z) | VText (s : string).
Record tcpSocketSnapshot := mkSnap { sProxy : bool; sTime : Z; sPeer : string; Values : gmap string tcpVal; Unavailable : gmap string string }.

Definition setValue (k : string) (v : tcpVal) (s : tcpSocketSnapshot) : tcpSocketSnapshot := mkSnap (sProxy s) (sTime s) (sPeer s) (<[k := v]> (Values s)) (Unavailable s).
Definition setMissing (k why : string) (s : tcpSocketSnapshot) : tcpSocketSnapshot := mkSnap (sProxy s) (sTime s) (sPeer s) (Values s) (<[k := why]> (Unavailable s)).
Definition put (s : tcpSocketSnapshot) (kr : string * (string + tcpVal)) : tcpSocketSnapshot := match kr.2 with inl why => setMissing kr.1 why s | inr v => setValue kr.1 v s end.

(** An errno: one that means the kernel does not know the option, or its text. *)
Inductive sockErr := ENotSupported | EOther (text : string).
Definition tcpObservationError (e : sockErr) : string := match e with ENotSupported => "unsupported"%string | EOther t => ("read_failed: " +:+ t)%string end.

Definition options : list (string * bool * bool) :=
  [("nodelay", true, false); ("cork", true, false); ("quickack", true, false); ("keepalive", true, false); ("keepidle_sec", false, false); ("keepintvl_sec", false, false); ("keepcnt", false, false);
   ("sndbuf_bytes", false, false); ("rcvbuf_bytes", false, false); ("mss_bytes", false, false); ("user_timeout_ms", false, true); ("notsent_lowat_bytes", false, true); ("mark", false, true)]%string.
Definition infoFields : list (string * nat) :=
  [("rtt_us", 4); ("rttvar_us", 4); ("rto_us", 4); ("snd_mss_bytes", 4); ("rcv_mss_bytes", 4); ("pmtu_bytes", 4); ("cwnd_segments", 4); ("unacked_segments", 4); ("retrans_segments", 4);
   ("total_retrans", 4); ("notsent_bytes", 4); ("delivery_rate_Bps", 8); ("pacing_rate_Bps", 8); ("busy_us", 8); ("rwnd_limited_us", 8); ("sndbuf_limited_us", 8); ("bytes_retrans", 8); ("snd_wnd_bytes", 4)]%string%nat.

(** The calls on one socket: none without a socket, SyscallConn or Control may fail (the
    latter after the callback ran), every option on its own, TCP_INFO with its length. *)
Record sockEnv := mkSock {
  kConn : option string;                       (* the remote address *)
  kSyscall : option sockErr; kControl : option sockErr;
  kOpt : string -> sockErr + Z; kCongestion : sockErr + string; kInfo : sockErr + bytes * Z;
  kLittle : bool                               (* the byte order of the machine *)
}.

Section Observation.
Context (offsetOf : string -> nat).

Definition optResult (env : sockEnv) (o : string * bool * bool) : string * (string + tcpVal) :=
  let '(k, boolean, unsigned) := o in
  (k, match kOpt env k with
      | inl e => inl (tcpObservationError e)
      | inr v => inr (if boolean : bool then VBool (negb (v =? 0)) else if unsigned : bool then VNum (u32 v) else VNum v)
      end).

Definition native (little : bool) (b : bytes) : Z := if little then le_dec b else be_dec b.
Definition fieldResult (little : bool) (b : bytes) (f : string * nat) : string * (string + tcpVal) :=
  let '(k, size) := f in
  (k, if (length b <? offsetOf k + size)%nat then inl "unsupported_short_tcp_info"%string
      else let v := native little (take size (drop (offsetOf k) b)) in
           inr (if bool_decide (k = "pacing_rate_Bps"%string) && (v =? 2 ^ 64 - 1) then VText "unlimited" else VNum v)).

Definition stateName (x : Z) : string :=
  default ""%string (["ESTABLISHED"; "SYN_SENT"; "SYN_RECV"; "FIN_WAIT1"; "FIN_WAIT2"; "TIME_WAIT"; "CLOSE"; "CLOSE_WAIT"; "LAST_ACK"; "LISTEN"; "CLOSING"]%string !! Z.to_nat (x - 1)) .
Definition caStates : list string := ["Open"; "Disorder"; "CWR"; "Recovery"; "Loss"]%string.

(** The fields that are bytes and bits at the beginning. *)
Definition headValues (little : bool) (b : bytes) : list (string * tcpVal) :=
  (if (0 <? length b)%nat then [("state"%string, VText (if byte_at 0 b =? 0 then "" else stateName (byte_at 0 b)))] else []) ++
  (if (1 <? length b)%nat then match caStates !! Z.to_nat (byte_at 1 b) with Some n => [("ca_state"%string, VText n)] | None => [] end else []) ++
  (if (5 <? length b)%nat then (fun km : string * Z => (km.1, VBool (negb (Z.land (byte_at 5 b) km.2 =? 0)))) <$> [("timestamps", 1); ("sack", 2); ("window_scaling", 4); ("ecn", 8)]%string else []) ++
  (if (6 <? length b)%nat then
     let lo := Z.land (byte_at 6 b) 15 in let hi := Z.shiftr (byte_at 6 b) 4 in
     [("snd_wscale"%string, VNum (if little then lo else hi)); ("rcv_wscale"%string, VNum (if little then hi else lo))] else []) ++
  (if (7 <? length b)%nat then [("delivery_app_limited"%string, VBool (negb (Z.land (byte_at 7 b) (if little then 1 else 128) =? 0)))] else []).

Definition decodeTCPInfo (little : bool) (b : bytes) (s : tcpSocketSnapshot) : tcpSocketSnapshot :=
  fold_left put ((fun kv : string * tcpVal => (kv.1, inr kv.2)) <$> headValues little b) (fold_left put (fieldResult little b <$> infoFields) s).

Definition newTCPSnapshot (conn : option string) (proxy : bool) (now : Z) : tcpSocketSnapshot := mkSnap proxy now (default ""%string conn) ∅ ∅.

Definition readTCPSocketSnapshot (env : sockEnv) (proxy : bool) (now : Z) : tcpSocketSnapshot :=
  let s := newTCPSnapshot (kConn env) proxy now in
  match kConn env with
  | None => setMissing "socket" "no_tcp_socket" s
  | Some _ =>
    match kSyscall env with
    | Some e => setMissing "socket" (tcpObservationError e) s
    | None =>
      match kControl env with
      | Some e => setMissing "socket" (tcpObservationError e) s
      | None =>
        let s := fold_left put (optResult env <$> options) s in
        let s := put s ("congestion"%string, match kCongestion env with inl e => inl (tcpObservationError e) | inr c => inr (VText c) end) in
        match kInfo env with
        | inl e => setMissing "tcp_info" (tcpObservationError e) s
        | inr (b, n) => decodeTCPInfo (kLittle env) (take (Z.to_nat n) b) s
        end
      end
    end
  end.

(** ** Retransmissions *)

Definition retransOf (s : tcpSocketSnapshot) : option Z := match Values s !! "total_retrans"%string with Some (VNum z) => Some z | _ => None end.
Definition addTCPRetransDelta (now : tcpSocketSnapshot) (previous : option tcpSocketSnapshot) : tcpSocketSnapshot :=
  match previous with
  | None => now
  | Some p =>
    if (sTime now <=? sTime p) || (10000 <? sTime now - sTime p) then now else
    match retransOf now, retransOf p with
    | Some c, Some o => if o <=? c then setValue "retrans_interval_ms" (VNum (sTime now - sTime p)) (setValue "retrans_delta" (VNum (c - o)) now) else now
    | _, _ => now
    end
  end.

(** One round over the connections that were copied under the locks: each has its cache. *)
Definition sampleTCPObservations (targets : list (nat * sockEnv * bool * Z)) (cache : gmap nat tcpSocketSnapshot) : gmap nat tcpSocketSnapshot :=
  fold_left (fun cache t => let '(id, env, proxy, now) := t in <[id := addTCPRetransDelta (readTCPSocketSnapshot env proxy now) (cache !! id)]> cache) targets cache.
End Observation.

(** ** Every field, or a reason *)

(** A key has a value or a reason, not both. *)
Definition accounted (s : tcpSocketSnapshot) (k : string) : Prop := is_Some (Values s !! k) /\ Unavailable s !! k = None \/ Values s !! k = None /\ is_Some (Unavailable s !! k).
Definition untouched (s : tcpSocketSnapshot) (k : string) : Prop := Values s !! k = None /\ Unavailable s !! k = None.

Lemma put_other (s : tcpSocketSnapshot) (kr : string * (string + tcpVal)) (k : string) : k <> kr.1 -> Values (put s kr) !! k = Values s !! k /\ Unavailable (put s kr) !! k = Unavailable s !! k.
Proof. intros Hk. destruct kr as [k' [w|v]]; cbn in *; by rewrite ?lookup_insert_ne by congruence. Qed.
Lemma put_at (s : tcpSocketSnapshot) (kr : string * (string + tcpVal)) : untouched s kr.1 ->
  match kr.2 with inl w => Values (put s kr) !! kr.1 = None /\ Unavailable (put s kr) !! kr.1 = Some w | inr v => Values (put s kr) !! kr.1 = Some v /\ Unavailable (put s kr) !! kr.1 = None end.
Proof. intros [H1 H2]. destruct kr as [k' [w|v]]; cbn in *; by rewrite lookup_insert_eq. Qed.

Lemma puts_other (l : list (string * (string + tcpVal))) (s : tcpSocketSnapshot) (k : string) : k ∉ l.*1 ->
  Values (fold_left put l s) !! k = Values s !! k /\ Unavailable (fold_left put l s) !! k = Unavailable s !! k.
Proof.
  revert s. induction l as [|kr l IH]; intros s Hk; [done|]. cbn [fmap list_fmap] in Hk. apply not_elem_of_cons in Hk as [H1 H2]. cbn [fold_left].
  destruct (IH (put s kr) H2) as [-> ->]. by apply put_other.
Qed.
Lemma puts_at (l : list (string * (string + tcpVal))) (s : tcpSocketSnapshot) (k : string) (r : string + tcpVal) : NoDup l.*1 -> (k, r) ∈ l -> untouched s k ->
  match r with inl w => Values (fold_left put l s) !! k = None /\ Unavailable (fold_left put l s) !! k = Some w | inr v => Values (fold_left put l s) !! k = Some v /\ Unavailable (fold_left put l s) !! k = None end.
Proof.
  revert s. induction l as [|kr l IH]; intros s Hn Hin Hu; [by apply not_elem_of_nil in Hin|]. cbn [fmap list_fmap] in Hn. apply NoDup_cons in Hn as [H1 H2]. cbn [fold_left].
  apply elem_of_cons in Hin as [<-|Hin].
  - destruct (puts_other l (put s (k, r)) k H1) as [-> ->]. exact (put_at s (k, r) Hu).
  - assert (k ∈ l.*1) as Hk by (apply list_elem_of_fmap; by exists (k, r)). apply IH; [done..|]. unfold untouched. destruct (put_other s kr k) as [-> ->]; [intros ->; done|done].
Qed.

Lemma puts_accounted (l : list (string * (string + tcpVal))) (s : tcpSocketSnapshot) (k : string) : NoDup l.*1 -> k ∈ l.*1 -> untouched s k -> accounted (fold_left put l s) k.
Proof.
  intros Hn ([k' r] & -> & Hin)%list_elem_of_fmap Hu. pose proof (puts_at l s k' r Hn Hin Hu) as HP. cbn [fst] in *. unfold accounted. destruct r as [w|v], HP as [-> ->]; [right|left]; by split; eauto.
Qed.
Lemma puts_keep (l : list (string * (string + tcpVal))) (s : tcpSocketSnapshot) (k : string) : k ∉ l.*1 -> accounted s k -> accounted (fold_left put l s) k.
Proof. intros Hk HA. unfold accounted. by destruct (puts_other l s k Hk) as [-> ->]. Qed.

Section Complete.
Context (offsetOf : string -> nat).

Definition optionKeys : list string := (fun o => o.1.1) <$> options.
Definition infoKeys : list string := infoFields.*1.
Definition headKeys : list string := ["state"; "ca_state"; "timestamps"; "sack"; "window_scaling"; "ecn"; "snd_wscale"; "rcv_wscale"; "delivery_app_limited"]%string.

Lemma option_keys (env : sockEnv) : (optResult env <$> options).*1 = optionKeys.
Proof. done. Qed.
Lemma info_keys (little : bool) (b : bytes) : (fieldResult offsetOf little b <$> infoFields).*1 = infoKeys.
Proof. done. Qed.
Lemma head_keys (little : bool) (b : bytes) : forall k, k ∈ (headValues little b).*1 -> k ∈ headKeys.
Proof.
  intros k. unfold headValues. rewrite !fmap_app, !elem_of_app. intros [H|[H|[H|[H|H]]]]; destruct (_ <? _)%nat in H; try (by apply not_elem_of_nil in H); cbn in H; try destruct (caStates !! _) in H; cbn in H; unfold headKeys; set_solver.
Qed.
Lemma all_keys_differ : NoDup (optionKeys ++ ["congestion"; "tcp_info"]%string ++ infoKeys ++ headKeys).
Proof. apply (bool_decide_unpack _). by vm_compute. Qed.
Lemma key_groups : NoDup optionKeys /\ NoDup infoKeys /\ (forall k, k ∈ optionKeys -> k <> "congestion"%string /\ k <> "tcp_info"%string /\ k ∉ infoKeys /\ k ∉ headKeys) /\
  (forall k, k ∈ infoKeys -> k <> "congestion"%string /\ k ∉ optionKeys /\ k ∉ headKeys) /\ "congestion"%string ∉ optionKeys /\ "congestion"%string ∉ infoKeys /\ "congestion"%string ∉ headKeys.
Proof.
  pose proof all_keys_differ as HN. apply NoDup_app in HN as (N1 & N2 & HN). apply NoDup_app in HN as (N3 & N4 & HN). apply NoDup_app in HN as (N5 & N6 & N7).
  split_and!; [done..| | | | |].
  - intros k Hk. pose proof (N2 k Hk) as Hx. rewrite !elem_of_app, !elem_of_cons in Hx. naive_solver.
  - intros k Hk. split_and!; [intros ->; apply (N4 "congestion"%string); set_solver| |by apply N6]. intros Ho. apply (N2 k Ho). set_solver.
  - intros Ho. apply (N2 _ Ho). set_solver.
  - intros Ho. apply (N4 "congestion"%string); set_solver.
  - intros Ho. apply (N4 "congestion"%string); set_solver.
Qed.

(** When the socket answers, every option, the congestion control and every field of
    TCP_INFO has a value or the reason why it has none, never both; if TCP_INFO cannot be
    read at all, that has a reason. *)
Theorem observation_complete (env : sockEnv) (proxy : bool) (now : Z) (peer : string) (k : string) :
  kConn env = Some peer -> kSyscall env = None -> kControl env = None ->
  let s := readTCPSocketSnapshot offsetOf env proxy now in
  (k ∈ optionKeys -> accounted s k) /\ accounted s "congestion" /\
  match kInfo env with inl _ => is_Some (Unavailable s !! "tcp_info"%string) | inr _ => k ∈ infoKeys -> accounted s k end.
Proof.
  intros E1 E2 E3 s. subst s. unfold readTCPSocketSnapshot. rewrite E1, E2, E3. destruct key_groups as (N1 & N2 & K1 & K2 & C1 & C2 & C3).
  set (s0 := newTCPSnapshot _ _ _). assert (forall k, untouched s0 k) as U0 by done. set (s1 := fold_left put _ s0). set (c := (_, _) : string * (string + tcpVal)).
  assert (forall k, k ∈ optionKeys -> accounted s1 k) as A1 by (intros ? Hk; subst s1; by apply puts_accounted).
  assert (forall k, k ∉ optionKeys -> untouched s1 k) as U1. { intros x Hx. subst s1. unfold untouched. by destruct (puts_other (optResult env <$> options) s0 x) as [-> ->]. }
  change (put s1 c) with (fold_left put [c] s1). set (s2 := fold_left put [c] s1).
  assert (accounted s2 "congestion") as A2 by (subst s2; apply puts_accounted; [apply NoDup_singleton|by apply list_elem_of_singleton|by apply U1]).
  assert (forall k, k ∈ optionKeys -> accounted s2 k) as A3. { intros x Hx. subst s2. apply puts_keep; [|by apply A1]. intros ->%list_elem_of_singleton. by destruct (K1 _ Hx). }
  assert (forall k, k ∈ infoKeys -> untouched s2 k) as U2.
  { intros x Hx. destruct (K2 x Hx) as (? & Ho & _). destruct (U1 x Ho). subst s2. unfold untouched. destruct (puts_other [c] s1 x) as [-> ->]; [by intros ->%list_elem_of_singleton|done]. }
  clearbody s2. clear s0 s1 c U0 A1 U1. destruct (kInfo env) as [e|[b n]].
  - change (setMissing "tcp_info" (tcpObservationError e) s2) with (fold_left put [("tcp_info"%string, inl (tcpObservationError e))] s2). split_and!.
    + intros Hk. apply puts_keep; [|by apply A3]. intros ->%list_elem_of_singleton. by destruct (K1 _ Hk) as (_ & ? & _).
    + apply puts_keep; [|done]. by intros ?%list_elem_of_singleton.
    + cbn. rewrite lookup_insert_eq. by eexists.
  - unfold decodeTCPInfo. set (hs := headValues _ _). assert (((fun kv : string * tcpVal => (kv.1, inr kv.2 : string + tcpVal)) <$> hs).*1 = hs.*1) as HH by (rewrite <- list_fmap_compose; by apply list_fmap_ext).
    assert (forall k, k ∉ headKeys -> k ∉ hs.*1) as HN by (intros x Hx Hin; by apply Hx, (head_keys (kLittle env) (take (Z.to_nat n) b))). split_and!; [intros Hk|..|intros Hk]; (apply puts_keep; [rewrite HH; apply HN|]).
    + by destruct (K1 _ Hk) as (_ & _ & _ & ?).
    + apply puts_keep; [|by apply A3]. by destruct (K1 _ Hk) as (_ & _ & ? & _).
    + done.
    + by apply puts_keep.
    + by destruct (K2 _ Hk) as (_ & _ & ?).
    + apply puts_accounted; [done..|by apply U2].
Qed.

(** The comment in the source says that missing fields have a reason; what is read from
    the first bytes has none when TCP_INFO is short. *)
Definition flagKeys : list string := ["timestamps"; "sack"; "window_scaling"; "ecn"; "snd_wscale"; "rcv_wscale"; "delivery_app_limited"]%string.
Lemma flag_keys (ks : list string) (k : string) : bool_decide (Forall (fun x => x ∉ ks) flagKeys) = true -> k ∈ flagKeys -> k ∉ ks.
Proof. intros HB Hk. apply bool_decide_eq_true in HB. exact (proj1 (Forall_forall _ _) HB k Hk). Qed.
Lemma short_info_no_reason (little : bool) (s : tcpSocketSnapshot) (k : string) : k ∈ flagKeys -> untouched s k -> untouched (decodeTCPInfo offsetOf little [1; 0; 0; 0; 0] s) k.
Proof.
  intros Hk HU. unfold untouched, decodeTCPInfo. set (b := [1; 0; 0; 0; 0]).
  destruct (puts_other ((fun kv : string * tcpVal => (kv.1, inr kv.2)) <$> headValues little b) (fold_left put (fieldResult offsetOf little b <$> infoFields) s) k) as [-> ->]; [by apply flag_keys; [vm_compute|]|].
  destruct (puts_other (fieldResult offsetOf little b <$> infoFields) s k) as [-> ->]; [|exact HU]. rewrite info_keys. by apply flag_keys; [vm_compute|].
Qed.
End Complete.

(** ** Counting *)

(** The retransmissions of a series of samples of one socket: none is counted twice and none
    is lost while the samples come in time. *)
Definition deltaOf (s : tcpSocketSnapshot) : option Z := match Values s !! "retrans_delta"%string with Some (VNum z) => Some z | _ => None end.

Lemma delta_exact (now p : tcpSocketSnapshot) (c o : Z) : sTime p < sTime now <= sTime p + 10000 -> retransOf now = Some c -> retransOf p = Some o -> o <= c ->
  let s := addTCPRetransDelta now (Some p) in deltaOf s = Some (c - o) /\ retransOf s = Some c /\ sTime s = sTime now.
Proof.
  intros Ht Hc Ho Hl. unfold addTCPRetransDelta. replace (sTime now <=? sTime p) with false by lia. replace (10000 <? sTime now - sTime p) with false by lia. cbn [orb]. rewrite Hc, Ho.
  replace (o <=? c) with true by lia. cbv zeta. unfold deltaOf, retransOf in *. cbn [Values setValue sTime]. split_and!; [by rewrite lookup_insert_ne, lookup_insert_eq by done| |done].
  by rewrite !lookup_insert_ne by done.
Qed.

(** The samples of one connection, each with the one before it in its cache. *)
Fixpoint series (p : tcpSocketSnapshot) (l : list tcpSocketSnapshot) : list tcpSocketSnapshot :=
  match l with [] => [] | s :: l => let s := addTCPRetransDelta s (Some p) in s :: series s l end.
(** The next sample is taken in time and its counter has not gone back. *)
Definition follows (p s : tcpSocketSnapshot) : Prop := sTime p < sTime s <= sTime p + 10000 /\ exists o c, retransOf p = Some o /\ retransOf s = Some c /\ o <= c.
Fixpoint timely (p : tcpSocketSnapshot) (l : list tcpSocketSnapshot) : Prop := match l with [] => True | s :: l => follows p s /\ timely s l end.

(** The last sample. *)
Fixpoint latest (p : tcpSocketSnapshot) (l : list tcpSocketSnapshot) : tcpSocketSnapshot := match l with [] => p | s :: l => latest s l end.

Lemma timely_same (p q : tcpSocketSnapshot) (l : list tcpSocketSnapshot) : sTime p = sTime q -> retransOf p = retransOf q -> timely p l -> timely q l.
Proof. intros E1 E2. destruct l as [|s l]; [done|]. cbn [timely]. unfold follows. by rewrite E1, E2. Qed.

Theorem deltas_add_up (p : tcpSocketSnapshot) (l : list tcpSocketSnapshot) (o : Z) : timely p l -> retransOf p = Some o ->
  exists ds, mapM deltaOf (series p l) = Some ds /\ Forall (fun d => 0 <= d) ds /\ retransOf (latest p l) = Some (o + fold_right Z.add 0 ds).
Proof.
  revert p o. induction l as [|s l IH]; intros p o HT Ho; [exists []; split_and!; [done|constructor|]; cbn; rewrite Ho; f_equal; lia|].
  destruct HT as [(Ht & o' & c & Ho' & Hc & Hl) HT]. rewrite Ho in Ho'. injection Ho' as <-. destruct (delta_exact s p c o Ht Hc Ho Hl) as (D1 & D2 & D3).
  cbn [series]. set (s' := addTCPRetransDelta s (Some p)) in *. destruct (IH s' c) as (ds & M & HF & HL); [apply (timely_same s); [done|congruence|done]|done|].
  exists ((c - o) :: ds). split_and!; [apply mapM_Some_2; constructor; [done|by apply mapM_Some_1]|constructor; [lia|done]|]. cbn [fold_right latest].
  replace (retransOf (latest s l)) with (retransOf (latest s' l)) by (destruct l; cbn [latest]; congruence). rewrite HL. f_equal. lia.
Qed.
